(* ===== verification/_CoqProject ===== *)
-Q . S2P
Prelude.v
Text.v
Kebab.v
Nouns.v
Time.v
Json.v
JsonNormal.v
Frame.v
Codec.v
IdGen.v
Session.v
SessionInv.v
SessionSafety.v
SessionResources.v
Client.v
Catalogue.v
Paths.v
Results.v
Sanitise.v
Workflow.v
AutoDerive.v
Bindings.v
Request.v
Url.v
Http.v
Pagination.v
ErrorCodes.v
Descriptions.v
Swagger.v
Parser.v
Skeleton.v
CatalogueJson.v
Classify.v
Shape.v
Dispatch.v
DispatchProps.v
ParserProps.v
Options.v
Tokens.v
Vault.v
Config.v
Repository.v
RepositoryProps.v
TokenStore.v
Profiles.v
AuthSession.v
AuthRules.v
AuthRace.v
AuthProps.v
ConfigProps.v
ProfileProps.v
ReviewPlan.v
Agreement.v
Redaction.v
Compile.v
Executor.v
CompileProps.v
Sample.v
ExecutorProps.v
ExecutorEffects.v
GatherOrder.v
CompiledRuns.v
CliErrors.v
Flags.v
Surface.v
Execution.v
Synthesised.v
ServiceCommand.v
ServiceCommandProps.v
Interrupt.v
Widgets.v
RawEditor.v
Fields.v
Forms.v
JsonTree.v
JsonTreeProps.v
FormRunner.v
FormRunnerProps.v
Builtins.v
Registry.v
