(* ===== verification/Prelude.v ===== *)
(** * The ags command line: a verification development

    The repository is a command line for AccelByte Gaming Services. Seven parts
    of it carry their own logic, and are modelled here:

    - the extend proxy client ([crates/extend-proxy-client]): a tunnel that
      multiplexes local TCP connections and remote procedure calls over one WebSocket;
    - the catalogue ([crates/ags-runtime/src/catalogue]): bundled OpenAPI documents are
      parsed to the schemas of the services, and the schemas cached;
    - the dispatch of one operation ([crates/ags-runtime/src/runtime/dispatch],
      [runtime/facade/service.rs]): the request, all the pages of the answer, the
      classification of errors, the shaping of results for the terminal;
    - the credentials and the configuration ([runtime/auth], [runtime/config],
      [runtime/facade/config.rs], [facade/profile.rs]): tokens and secrets in the OS
      keychain or in files, sessions that several processes refresh at once, profiles;
    - the workflow engine ([crates/ags-runtime/src/runtime/workflows], with the data
      types of [crates/ags-protocol]): compiled multi-step workflows are run against the
      services, with prompts, reviews, confirmations, retries, skips and dry runs;
    - the command line itself ([crates/accelbyte-ags-cli/src/invocation], [errors.rs]): what the
      arguments ask for, on which surface, and how an invocation ends. A single command
      is turned into a one-step workflow and run by the engine;
    - the forms of the terminal ([crates/accelbyte-ags-cli/src/frontend/terminal]): what the
      keys make of a form, its JSON editors, dates and pickers, and what the engine is
      answered when it gathers inputs or has a step reviewed.

    ** Files

    The prelude (this file) has Rust's [Result], machine integers as [Z] with their
    ranges, byte strings, sorting, and shared lemmas and tactics. [Text] has the string
    operations of Rust's standard library that the code uses, and the characters
    they keep; [Json] the documents of [serde_json] and the readers serde derives.

    The tunnel:
    - [Frame] ([protocol/frame.rs], [error.rs], [constants.rs]): frames, constructors,
      validation.
    - [Codec] ([protocol/codec.rs], [serde_helpers.rs]): the wire format in both
      directions. The text of JSON and base64 is third-party code; the classes
      [JsonText] and [Base64] state what is used of it. [FrameCodec] is what the
      session relies on, and [json_codec] implements it.
    - [IdGen] ([session/idgen.rs]): stream ids. The search loop takes as fuel one more
      than the active ids, which [next_total] proves enough.
    - [Session] ([session/core.rs], [stream.rs]): the tasks of one session as processes
      over a shared state. A process is a tree whose nodes are the points where a task
      can be interleaved with the others: critical sections and [.await]s. A step of
      the pool runs one node of one task with an answer of the outside world.
    - [SessionInv], [SessionResources]: the proof techniques for it, rely-guarantee
      invariants and token accounting, each with its soundness theorem over every
      interleaving. [SessionSafety], [SessionResources]: the properties.
    - [Client] ([core.rs] handshake functions, [rpc.rs]): handshake and typed calls.

    The catalogue:
    - [Catalogue], [CatalogueJson] ([ags-protocol/src/catalogue.rs]): the schemas, and their
      JSON, read back ([service_read]). [Descriptions] ([manifest.rs]): the hand-written
      descriptions of resources.
    - [Swagger] ([openapi.rs]): documents and how serde reads them. A property reader takes
      as fuel the depth of the document, enough by [property_levels].
    - [Parser] ([parser.rs]): from a document to the schema of a service. The hash maps of
      the source are walked in any order (the class [HashOrder]); the debug assertions are
      those of a release build. The levels below a body field are the source's three.
    - [ParserProps]: the parser against the document. [Skeleton] ([skeleton.rs]): sample
      bodies.
    - [Repository] ([bundled.rs], [cache.rs], [repository.rs], [memory_cache.rs], [mod.rs]): the
      bundle, the cache on disk and the one in memory. The bytes of the documents and gzip
      are the class [Bundle]. [RepositoryProps]: what is answered while other processes do what
      they like to the cache between the calls.

    The dispatch of an operation:
    - [Results] ([ags-protocol/src/result.rs], [output_views.rs]): results and traces.
    - [Nouns], [Url] ([support/strings.rs], [dispatch/path.rs]): the words of messages;
      the segments of a URL and its placeholders. [Time] ([support/time.rs]): time
      stamps for people. [Sanitise] has the texts that are safe to print.
    - [Http] ([dispatch/http.rs], [support/output_sink.rs]): requests, responses with
      their limits, destinations. A command is a computation [Io] over a connection that
      logs the requests sent and the progress reported, and may fail or panic; the
      class [Transport] is the network, the file system and standard output, with
      arbitrary answers.
    - [Pagination] ([dispatch/pagination.rs]): the loops take as fuel the limit of pages,
      one page per round, which is never used up.
    - [ErrorCodes] ([dispatch/error_codes/], [catalogue/manifest.rs]), [Classify]
      ([dispatch/classify.rs]): the curated errors and the
      classification; a slice that would panic is [None].
    - [Shape] ([dispatch/shape.rs], [shape_overrides/]): which fields of a body are shown.
    - [Dispatch] ([dispatch/execute.rs], [confirmation.rs], [facade/service.rs]),
      [DispatchProps]: running, previewing and dry-running an operation.
    - [Options] ([workflows/options.rs]): the choices of a picker, over the dispatch.

    Credentials and configuration:
    - [JsonNormal]: documents read back from a file: sorted keys, the last value of each.
    - [Tokens] ([auth/errors.rs], [auth/tokens.rs]): errors, the requests to the token
      endpoint and their answers; [TokenStorage], what sessions ask of a store.
    - [Vault]: the keychain, the files and the environment variables as classes with
      arbitrary answers, and a concrete machine for examples.
    - [Config] ([config/]), [Profiles] ([facade/config.rs], [facade/profile.rs]): keys
      and their values, paths, the configuration files; the commands.
    - [TokenStore] ([auth/store.rs], [locking.rs]): the keychain first, then a file. What is read
      after storing and deleting, over a keychain whose every operation may fail ([VaultLaws]).
    - [AuthSession] ([auth/session.rs], [credentials.rs], [operations.rs]): sessions as
      programs whose nodes are the commands between which other sessions may act.
    - [AuthRules], [AuthRace]: any number of sessions in any number of processes, the
      server and the shared storage, under any interleaving; weakest preconditions
      relative to what a session holds, and the invariant they keep. A failed lock, read, write or
      deletion, an answer lost after the server has acted, a server error, a change of the storage
      by itself and the end of a session by a signal are possible at every step; the tokens
      that such a fault brings back are counted as spoiled.
    - [AuthProps], [ConfigProps], [ProfileProps]: the properties of one session and of the
      configuration.

    The workflow engine:
    - [Workflow]: data types, errors, and [WorkflowContext]
      ([workflows/mod.rs]), the bodies and captures of the steps that ran.
    - [Paths] ([jsonpath.rs], [nested_path.rs]): the two path languages.
    - [Sanitise], [Kebab] ([support/strings.rs]): what is stripped from text before
      display, where the removal of escape sequences takes the length of the text as
      fuel; the kebab-case names of inputs and fields. The class [UnicodeCase] is
      Rust's [to_lowercase], fixed on ASCII only.
    - [AutoDerive] ([auto_derive.rs], [local_actions/]): the inputs of a
      step that no binding covers; the registry of local actions and their inputs.
    - [Compile] ([compile.rs]): every rule of the workflow compiler, in the order of the
      source, and the compiled workflow. [CompileProps]: what an accepted workflow has.
    - [Bindings] ([resolve.rs], [compile.rs]): templates, quoting, transforms, the
      resolution of bindings, and the inputs still to gather.
    - [Request], [ReviewPlan] ([resolve.rs], the request types of [request.rs]): the
      request of a step, and the rows its review shows. [Agreement]: a row shows what
      the request sends.
    - [Redaction] ([telemetry_fields.rs]): the field values that leave with telemetry.
    - [Executor] ([executor.rs], [dry_run.rs]): a run, from the declared defaults to the final
      output. It is a computation over [RunState] that may throw (the source's [?]);
      the frontend, the dispatch, the local actions, the catalogue and the clock are
      the class [Platform], with arbitrary answers. Every lifecycle event, prompt,
      dispatch and action is recorded in [trace]; the progress events a dispatch
      forwards belong to the dispatch. The retry loop of a step takes fuel, the number
      of tries; it ends earlier unless the user asks for that many retries
      ([run_terminates]).
    - [Sample]: a scripted platform, for the examples.
    - [ExecutorProps], [ExecutorEffects]: lifecycle and tallies; what a run may ask,
      confirmations, skips, non-interactive runs, termination.
    - [GatherOrder]: the order of the run-start form.
    - [CompiledRuns]: compiler and executor together: the internal errors of the
      executor do not occur in runs of compiled workflows.
    - [Builtins] ([workflows/builtins/]): the four built-in workflows, as written, accepted by
      the compiler up to the catalogue, and what their steps create for each other.
    - [Registry] ([workflows/mod.rs], [external.rs], [version_check.rs], [facade/workflow.rs],
      and [invocation/routes/workflow/] of the command line): the built-in workflows and those
      of the user's directory, adding and removing one, and what [ags workflow run] runs.
      YAML and [semver] are classes, the directory is a map whose listing has any order.

    The command line:
    - [CliErrors] ([errors.rs], [invocation/errors.rs]): errors, exit codes, what is shown.
    - [Flags] ([invocation/flags.rs], [router.rs]): the global flags and the
      selectors, taken out of the arguments.
    - [Surface] ([shape.rs], [policy.rs], [context.rs], [confirm.rs]): the
      decision matrix, the context of a frontend, the confirmation of an action. The
      terminal is an argument.
    - [Execution] ([runtime/execution.rs]): the context a command runs in, as a program of the
      sessions of [AuthSession].
    - [Synthesised] ([workflows/synthesised.rs]): the one-step workflow of
      a command.
    - [ServiceCommand], [ServiceCommandProps] ([invocation/resolve.rs], [routes/service/],
      [invocation/workflows.rs], [catalogue/aliases.rs]): from the arguments to the run of the
      executor. What [clap] finds in the arguments is a parameter.
    - [Interrupt] ([invocation/mod.rs]): the command, the gathering of telemetry and the
      handler of Ctrl-C as a step relation.

    The forms of the terminal. A loop that waits for keys is a state and a step on a key; the
    fetch of choices that a key may start is an argument of the step. The numbers of [f64]
    are texts, with the class [FloatText] for what Rust makes of them.
    - [Widgets] ([date_field.rs], [picker_list.rs]): key events, the segments of a date, the
      filtered list of choices. [RawEditor] ([inline/json_editor/raw.rs]): the text buffer, and
      the text it stands for.
    - [Fields] ([inline/form.rs], [form_builder.rs], [frontend/mod.rs]): rows from
      inputs, slots and plans, their values, and the results and edits projected from them.
    - [Forms] ([inline/form.rs], [inline/phases/form.rs]): the operations of a form
      and its keys, and the invariant they keep.
    - [JsonTree], [JsonTreeProps] ([inline/json_editor/]): the tree of a body, its keys, the
      switch to the text and back, what is saved; also what is projected from rows. [from_schema] takes as fuel a bound
      on the depth of schema and value, proved enough by [from_schema_eq].
    - [FormRunner], [FormRunnerProps] ([form_runner.rs], [dynamic_enums.rs],
      [inline/phases/confirm_card.rs], [inline/interaction.rs]): the drivers of forms, editors,
      pickers and cards, the gather loops and the reviews.

    ** What the theorems show

    The tunnel, in every interleaving of its tasks and for every behaviour of the peer:
    the stream table stays sound and stream life cycles only move forward; an RPC
    answer reaches the call that asked, once; frames on the wire are well-formed and
    bounded, and only permitted addresses are dialed; command permits and readers are
    conserved. The codec is a round trip for well-formed frames, both sides of the
    handshake agree, and a typed call behaves as a local one.

    The catalogue, for every document: what is found under an
    id is the live operation of the document, and only an operation that shares its resource,
    method, scope and version with another is not found; schemas are sorted and without
    repetitions, and their defaults exist; bodies that refer to themselves are cut. What
    is answered is what the bundle holds, or what another process has left in the cache under the
    version of this program, and a refresh repairs it. The order of the maps matters only
    between operations of the same contract.

    The dispatch, for every server: a run sends first exactly the request its dry run
    shows, and then only pages; the pages of a listing from its start are fetched without gap or
    overlap, up to the limit;
    path substitution is simultaneous and its values cannot leave their segment; what a
    response says reaches the terminal through values and classified errors without
    the escape character and the other C0 controls (the C1 characters are kept); tables are aligned with their columns and show the fields of best
    priority; pickers only read; the progress of a success is finished.

    Credentials: no interleaving of sessions sends a refresh token again that the server has
    exchanged, or leaves one in the storage, unless a fault spoiled it, and none is a deadlock; an access token that is handed out is
    fresh and of the configured client; what is stored is what is read next, unless an entry
    that the keychain does not give up stands before it. Setting a key changes this key (and makes the profile
    unreadable for some values); a profile name cannot leave its directory.

    The workflow engine, for every frontend and every service: a run emits each
    lifecycle event exactly once and in order, and its facts count them; steps that
    ask for confirmation are dispatched after it only; dry and non-interactive runs do
    only what their options allow; skipped steps leave every output bound; the gather
    list is exact, and after it no binding of a step silently has no value; templates,
    quoting and paths mean at run time what the compiler checked; an accepted workflow
    is well-formed, its bindings resolve, and its runs leave by the named errors only;
    the rows of the review show what the request sends, and telemetry carries no value below a
    sensitive name. Built-in workflows keep every rule of the compiler that needs no
    catalogue; a workflow that is added is the one its id runs, until it is removed, and no
    workflow of the user counts as built in.

    The command line: the flags have a normal form; a terminal interface and prompts are
    used on a terminal only; every live operation of a contract of its own is reached by its command, its workflow is
    accepted by the compiler, and what the flags and the body say is what is sent; a command that
    must not ask has nothing to ask; a dry run stays offline; the end of a command and a
    Ctrl-C, in any order, report at most one event and exit with the right code.

    The forms, for every sequence of keys: no index leaves its list and the focus is on something
    that exists; a submitted form is complete and a gather answers every required slot with what
    the accepted card showed; a review edits only what may be edited; the text buffer is an
    editor of one text, the date is one of the calendar, a picker gives a choice or a typed value,
    and the tree saves exactly the bodies that fit their schema unchanged.

    ** Not modelled

    The reconnecting agent and the forwarder around a session, the reading of YAML (with the two
    built-in workflows written in it), streamed uploads, the browser callback of a login, the logout of all profiles,
    telemetry and the update check are mostly calls to the system around little state, and are left
    to the tests; so are terminal drawing, the fullscreen layout and its file dialog, the prompts
    of the plain frontend, the command trees of [clap] and other input and output. Cancellation is
    modelled as the signal the tasks observe; the memory model of atomics is sequential
    consistency; the permissions and the atomicity of file writes are the file system's. The
    classes of the outside world ([Platform], [Transport], [Vault]'s) are proved against with
    arbitrary answers, and the dispatch of this development is not plugged in as the platform of
    the executor. *)

From stdpp Require Import base gmap strings list fin_maps.
From Stdlib Require Import ZArith Lia Strings.Byte Sorting.Sorted.

#[global] Open Scope string_scope.
#[global] Open Scope list_scope.
#[global] Open Scope Z_scope.
#[global] Set Default Goal Selector "!".

(** * Results *)

(** Rust's [Result<T, E>]. *)
Inductive result (T E : Type) : Type :=
| Ok (v : T)
| Err (e : E).
Arguments Ok {T E} v.
Arguments Err {T E} e.

Definition result_bind {T U E} (r : result T E) (k : T -> result U E) : result U E :=
  match r with Ok v => k v | Err e => Err e end.

Definition map_err {T E E'} (f : E -> E') (r : result T E) : result T E' :=
  match r with Ok v => Ok v | Err e => Err (f e) end.

(** A loop that stops at the first error. *)
Fixpoint for_each {A E} (f : A -> result unit E) (l : list A) : result unit E :=
  match l with
  | [] => Ok tt
  | x :: l => match f x with Ok _ => for_each f l | Err e => Err e end
  end.

(** [map(..).collect::<Result<Vec<_>, _>>()]. *)
Fixpoint result_map {A B E} (f : A -> result B E) (l : list A) : result (list B) E :=
  match l with
  | [] => Ok []
  | x :: l =>
      match f x with
      | Ok y => match result_map f l with Ok ys => Ok (y :: ys) | Err e => Err e end
      | Err e => Err e
      end
  end.

(** A loop that updates an accumulator and stops at the first error. *)
Fixpoint result_fold {A B E} (f : B -> A -> result B E) (l : list A) (acc : B) : result B E :=
  match l with
  | [] => Ok acc
  | x :: l => match f acc x with Ok acc => result_fold f l acc | Err e => Err e end
  end.

(** What every step preserves holds at the end. *)
Lemma result_fold_ind {A B E} (P : B -> Prop) (f : B -> A -> result B E) l acc acc' :
  P acc -> (forall x acc acc', x ∈ l -> P acc -> f acc x = Ok acc' -> P acc') -> result_fold f l acc = Ok acc' -> P acc'.
Proof.
  revert acc. induction l as [|x l IH]; intros acc Hp Hf; simpl; [intros [= <-]; done|].
  destruct (f acc x) as [acc1|e] eqn:E1; [|done]. apply IH.
  - eapply Hf; [left|done|exact E1].
  - intros y a a' Hy. apply Hf. by right.
Qed.

(** What a step establishes and the others preserve holds at the end. *)
Lemma result_fold_each {A B E} (Q : A -> B -> Prop) (f : B -> A -> result B E) l acc acc' :
  (forall x acc acc', x ∈ l -> f acc x = Ok acc' -> Q x acc') ->
  (forall x y acc acc', x ∈ l -> y ∈ l -> Q x acc -> f acc y = Ok acc' -> Q x acc') ->
  result_fold f l acc = Ok acc' -> forall x, x ∈ l -> Q x acc'.
Proof.
  revert acc. induction l as [|y l IH]; intros acc Hq Hp; simpl; [intros _ x Hx; by apply not_elem_of_nil in Hx|].
  destruct (f acc y) as [acc1|e] eqn:E1; [|done]. intros Hr x [->|Hx]%elem_of_cons.
  - eapply (result_fold_ind (Q y)); [|intros z a a' Hz|exact Hr].
    + eapply Hq; [left|exact E1].
    + apply Hp; [left|by right].
  - eapply IH; [|intros z w a a' Hz Hw|exact Hr|done].
    + intros z a a' Hz. apply Hq. by right.
    + apply Hp; by right.
Qed.

Lemma for_each_Ok {A E} (f : A -> result unit E) l : for_each f l = Ok tt <-> forall x, x ∈ l -> f x = Ok tt.
Proof.
  induction l as [|x l IH]; simpl; [split; [intros _ x Hx; by apply not_elem_of_nil in Hx|done]|].
  destruct (f x) as [[]|e] eqn:E1.
  - rewrite IH. split; [intros Hl y [->|Hy]%elem_of_cons; [done|by apply Hl]|]. intros Hl y Hy. apply Hl. by right.
  - split; [done|]. intros Hl. specialize (Hl x (list_elem_of_here _ _)). congruence.
Qed.

Lemma result_map_Ok {A B E} (f : A -> result B E) l ys : result_map f l = Ok ys <-> Forall2 (fun x y => f x = Ok y) l ys.
Proof.
  revert ys. induction l as [|x l IH]; intros ys; simpl.
  - split; [intros [= <-]; constructor|]. by intros Hf; inversion Hf.
  - destruct (f x) as [y|e] eqn:Ex.
    + destruct (result_map f l) as [ys'|e] eqn:El.
      * split; [intros [= <-]; constructor; [done|by apply IH]|]. intros Hf. inversion Hf as [|x' y' l' ys'' Hx Hl]; subst.
        rewrite Ex in Hx. injection Hx as ->. apply IH in Hl. by injection Hl as ->.
      * split; [done|]. intros Hf. inversion Hf as [|x' y' l' ys'' Hx Hl]; subst. by apply IH in Hl.
    + split; [done|]. intros Hf. inversion Hf as [|x' y' l' ys'' Hx Hl]; subst. by rewrite Ex in Hx.
Qed.

(** [iter().enumerate()]. *)
Definition enumerate {A} (l : list A) : list (nat * A) := imap pair l.

Lemma enumerate_elem {A} (l : list A) i x : (i, x) ∈ enumerate l <-> l !! i = Some x.
Proof.
  unfold enumerate. rewrite list_elem_of_lookup. split.
  - intros [k Hk]. rewrite list_lookup_imap in Hk. destruct (l !! k) as [y|] eqn:E1; [|done]. simpl in Hk.
    injection Hk as -> ->. done.
  - intros Hl. exists i. by rewrite list_lookup_imap, Hl.
Qed.

(** [opt.ok_or(e)]. *)
Definition ok_or {T E} (o : option T) (e : E) : result T E :=
  match o with Some v => Ok v | None => Err e end.

(** [result.ok()]. *)
Definition result_ok {T E} (r : result T E) : option T :=
  match r with Ok v => Some v | Err _ => None end.

Definition is_ok {T E} (r : result T E) : bool :=
  match r with Ok _ => true | Err _ => false end.

Declare Scope rust_scope.
Delimit Scope rust_scope with rust.
Notation "'let?' x ':=' r 'in' k" := (result_bind r (fun x => k))
  (at level 10, x pattern, r at level 100, k at level 200) : rust_scope.
#[global] Open Scope rust_scope.

#[global] Instance result_eq_dec {T E} `{EqDecision T, EqDecision E} : EqDecision (result T E).
Proof. solve_decision. Defined.

Lemma result_bind_Ok {T U E} (r : result T E) (k : T -> result U E) v :
  result_bind r k = Ok v <-> exists u, r = Ok u /\ k u = Ok v.
Proof. destruct r; simpl; naive_solver. Qed.

Lemma result_bind_Err {T U E} (r : result T E) (k : T -> result U E) e :
  result_bind r k = Err e <-> r = Err e \/ exists u, r = Ok u /\ k u = Err e.
Proof. destruct r; simpl; naive_solver. Qed.

(** * Machine integers *)

Definition u64_max : Z := 2 ^ 64 - 1.
Definition in_u64 (z : Z) : Prop := 0 <= z < 2 ^ 64.
Definition in_u32 (z : Z) : Prop := 0 <= z < 2 ^ 32.
Definition in_i64 (z : Z) : Prop := - 2 ^ 63 <= z < 2 ^ 63.
Definition in_i32 (z : Z) : Prop := - 2 ^ 31 <= z < 2 ^ 31.

#[global] Instance in_u64_dec z : Decision (in_u64 z).
Proof. unfold in_u64. apply _. Defined.
#[global] Instance in_u32_dec z : Decision (in_u32 z).
Proof. unfold in_u32. apply _. Defined.
#[global] Instance in_i64_dec z : Decision (in_i64 z).
Proof. unfold in_i64. apply _. Defined.
#[global] Instance in_i32_dec z : Decision (in_i32 z).
Proof. unfold in_i32. apply _. Defined.

(** Two's-complement reinterpretation of a 64-bit integer ([x as u64]) and the
    wrapping addition of [AtomicU64::fetch_add]. *)
Definition as_u64 (z : Z) : Z := z mod 2 ^ 64.
Definition wrapping_add_u64 (a b : Z) : Z := (a + b) mod 2 ^ 64.

(** [i64::saturating_sub]. *)
Definition saturating_sub_i64 (a b : Z) : Z :=
  Z.max (- 2 ^ 63) (Z.min (2 ^ 63 - 1) (a - b)).

(** [u32::saturating_add]. *)
Definition saturating_add_u32 (a b : Z) : Z := Z.min (2 ^ 32 - 1) (a + b).

(** * Bytes and strings *)

(** Rust's [Vec<u8>]. A Rust [String] is its sequence of UTF-8 bytes. *)
Abbreviation bytes := (list Byte.byte).

#[global] Instance byte_eq_dec : EqDecision Byte.byte := Byte.byte_eq_dec.

Definition as_bytes (s : string) : bytes := String.list_byte_of_string s.
Definition of_bytes (b : bytes) : string := String.string_of_list_byte b.

Lemma of_bytes_as_bytes s : of_bytes (as_bytes s) = s.
Proof. apply String.string_of_list_byte_of_string. Qed.
Lemma as_bytes_of_bytes b : as_bytes (of_bytes b) = b.
Proof. apply String.list_byte_of_string_of_list_byte. Qed.

(** [String::is_empty]. *)
Definition is_empty (s : string) : bool :=
  match s with EmptyString => true | _ => false end.

Lemma is_empty_true s : is_empty s = true <-> s = EmptyString.
Proof. destruct s; naive_solver. Qed.
Lemma is_empty_false s : is_empty s = false <-> s <> EmptyString.
Proof. destruct s; naive_solver. Qed.

(** * Lists *)

Lemma map_filter_comm {A B} (p : B -> bool) (f : A -> B) (l : list A) :
  map f (List.filter (fun x => p (f x)) l) = List.filter p (map f l).
Proof. induction l as [|x l IH]; [done|]. simpl. destruct (p (f x)); simpl; by rewrite IH. Qed.

Lemma map_id_Forall {A} (f : A -> A) (l : list A) : Forall (fun x => f x = x) l -> map f l = l.
Proof. induction 1; simpl; congruence. Qed.

Lemma Forall_impl2 {A} (P Q R : A -> Prop) (l : list A) :
  Forall P l -> Forall Q l -> (forall x, P x -> Q x -> R x) -> Forall R l.
Proof. intros HP HQ H. induction HP; inversion HQ; subst; constructor; auto. Qed.

(** * Tactics *)

(** * Sorting *)

(** [slice::sort_by]: stable. *)
Fixpoint insert_sorted {A} (le : A -> A -> bool) (x : A) (l : list A) : list A :=
  match l with
  | [] => [x]
  | y :: l' => if le x y then x :: l else y :: insert_sorted le x l'
  end.

Definition sort_by {A} (le : A -> A -> bool) (l : list A) : list A := foldr (insert_sorted le) [] l.

Lemma insert_sorted_perm {A} (le : A -> A -> bool) x l : insert_sorted le x l ≡ₚ x :: l.
Proof. induction l as [|y l IH]; [done|]. simpl. destruct (le x y); [done|]. rewrite IH. by constructor. Qed.

Lemma sort_by_perm {A} (le : A -> A -> bool) l : sort_by le l ≡ₚ l.
Proof. induction l as [|x l IH]; [done|]. simpl. by rewrite insert_sorted_perm, IH. Qed.

Lemma insert_sorted_sorted {A} (le : A -> A -> bool) x l :
  (forall a b, le a b = false -> le b a = true) -> (forall a b c, le a b = true -> le b c = true -> le a c = true) ->
  StronglySorted (fun a b => le a b = true) l -> StronglySorted (fun a b => le a b = true) (insert_sorted le x l).
Proof.
  intros Htot Htr. induction l as [|y l IH]; simpl; intros Hs; [by repeat constructor|].
  apply StronglySorted_inv in Hs as [Hs Hy]. destruct (le x y) eqn:E.
  - repeat constructor; [done..|]. eapply Forall_impl; [exact Hy|]. simpl. intros z. by apply Htr.
  - constructor; [by apply IH|]. rewrite insert_sorted_perm. constructor; [by apply Htot|done].
Qed.

Lemma sort_by_sorted {A} (le : A -> A -> bool) l :
  (forall a b, le a b = false -> le b a = true) -> (forall a b c, le a b = true -> le b c = true -> le a c = true) ->
  StronglySorted (fun a b => le a b = true) (sort_by le l).
Proof. intros Htot Htr. induction l as [|x l IH]; [constructor|]. by apply insert_sorted_sorted. Qed.

(** Sorting keeps the order of the elements it does not tell apart. *)
Lemma insert_sorted_filter {A} (le : A -> A -> bool) (p : A -> bool) x l : (forall a b, p a = true -> p b = true -> le a b = true) ->
  List.filter p (insert_sorted le x l) = List.filter p (x :: l).
Proof.
  intros Hp. induction l as [|y l IH]; [done|]. cbn [insert_sorted]. destruct (le x y) eqn:E; [done|].
  cbn [List.filter] in *. rewrite IH. destruct (p x) eqn:Ex, (p y) eqn:Ey; try done. by rewrite Hp in E.
Qed.

Lemma sort_by_filter {A} (le : A -> A -> bool) (p : A -> bool) l : (forall a b, p a = true -> p b = true -> le a b = true) ->
  List.filter p (sort_by le l) = List.filter p l.
Proof.
  intros Hp. induction l as [|x l IH]; [done|]. simpl. rewrite insert_sorted_filter by done. simpl. by rewrite IH.
Qed.

(** Destruct the innermost scrutinee of a [match] in the goal or a hypothesis. *)
Ltac case_innermost :=
  match goal with
  | |- context [match ?x with _ => _ end] =>
      lazymatch x with context [match _ with _ => _ end] => fail | _ => destruct x eqn:? end
  | H : context [match ?x with _ => _ end] |- _ =>
      lazymatch x with context [match _ with _ => _ end] => fail | _ => destruct x eqn:? end
  end.

(** Run every branch of the program text in the goal, closing the impossible ones. *)
Ltac crush_branches :=
  repeat (simplify_eq/=; try done; case_innermost); simplify_eq/=; try done.

(** Turn the boolean tests in the context into propositions. *)
Ltac to_prop :=
  repeat match goal with
    | H : (_ && _)%bool = true |- _ => apply andb_true_iff in H; destruct H
    | H : (_ || _)%bool = false |- _ => apply orb_false_iff in H; destruct H
    | H : (_ && _)%bool = false |- _ => apply andb_false_iff in H
    | H : (_ || _)%bool = true |- _ => apply orb_true_iff in H
    | H : negb _ = true |- _ => apply negb_true_iff in H
    | H : negb _ = false |- _ => apply negb_false_iff in H
    | H : (_ =? _) = true |- _ => apply Z.eqb_eq in H
    | H : (_ =? _) = false |- _ => apply Z.eqb_neq in H
    | H : (_ <? _) = true |- _ => apply Z.ltb_lt in H
    | H : (_ <? _) = false |- _ => apply Z.ltb_ge in H
    | H : (_ <=? _) = true |- _ => apply Z.leb_le in H
    | H : (_ <=? _) = false |- _ => apply Z.leb_gt in H
    | H : bool_decide _ = true |- _ => apply bool_decide_eq_true in H
    | H : bool_decide _ = false |- _ => apply bool_decide_eq_false in H
    | H : is_empty _ = true |- _ => apply is_empty_true in H
    | H : is_empty _ = false |- _ => apply is_empty_false in H
    end.

Create HintDb rust.
Create Rewrite HintDb rust_rw.
#[export] Hint Rewrite of_bytes_as_bytes as_bytes_of_bytes : rust_rw.
#[export] Hint Unfold in_u64 in_u32 in_i64 in_i32 : rust.
