(* ===== verification/Text.v ===== *)
(** String operations of Rust's standard library that the modelled code uses, on
    strings as byte sequences: unsigned integer parsing and printing, searching
    and splitting, joining, ASCII case folding. *)

From stdpp Require Import base sets strings list pretty.
From Stdlib Require Import ZArith Lia Ascii.
From S2P Require Import Prelude.

#[global] Instance ascii_eqb_spec' a b : Decision (a = b) := Ascii.ascii_dec a b.

(** * Integers *)

Definition digit_of (c : ascii) : option Z :=
  let n := Z.of_nat (nat_of_ascii c) in
  if (48 <=? n) && (n <=? 57) then Some (n - 48) else None.

Fixpoint parse_digits (max acc : Z) (s : string) : option Z :=
  match s with
  | EmptyString => Some acc
  | String c r =>
      match digit_of c with
      | Some d => let acc' := 10 * acc + d in if acc' <=? max then parse_digits max acc' r else None
      | None => None
      end
  end.

(** [str::parse] for an unsigned type of the given maximum: an optional [+], then
    at least one digit, no overflow. *)
Definition parse_unsigned (max : Z) (s : string) : option Z :=
  match s with
  | EmptyString => None
  | String c r =>
      if Ascii.eqb c "+" then match r with EmptyString => None | _ => parse_digits max 0 r end
      else parse_digits max 0 s
  end.

Definition u16_max : Z := 2 ^ 16 - 1.
(** [usize] on the supported 64-bit targets. *)
Definition usize_max : Z := u64_max.

Lemma parse_digits_range max acc s n : 0 <= acc <= max -> parse_digits max acc s = Some n -> 0 <= n <= max.
Proof.
  revert acc. induction s as [|c s IH]; intros acc Hacc; simpl; [naive_solver|].
  unfold digit_of. repeat case_match; try done; simplify_eq. intros Hp. to_prop.
  eapply IH; [|exact Hp]. lia.
Qed.

Lemma parse_unsigned_range max s n : 0 <= max -> parse_unsigned max s = Some n -> 0 <= n <= max.
Proof.
  intros Hm. unfold parse_unsigned. repeat case_match; try done; intros Hp;
    (eapply parse_digits_range; [|exact Hp]; lia).
Qed.

(** The number that decimal digits write, without a bound. *)
Fixpoint decimal (acc : Z) (digits : string) : option Z :=
  match digits with
  | EmptyString => Some acc
  | String c r => match digit_of c with Some d => decimal (10 * acc + d) r | None => None end
  end.

Lemma digit_of_least c d : digit_of c = Some d -> 0 <= d.
Proof. unfold digit_of. case_match; [|done]. intros [= <-]. to_prop. lia. Qed.

Lemma decimal_least acc digits n : 0 <= acc -> decimal acc digits = Some n -> acc <= n.
Proof.
  revert acc. induction digits as [|c r IH]; intros acc Ha; simpl; [intros [= ->]; lia|].
  destruct (digit_of c) as [d|] eqn:E; [|done]. apply digit_of_least in E. intros Hn%IH; lia.
Qed.

Lemma parse_digits_decimal max digits : forall acc, 0 <= acc <= max ->
  parse_digits max acc digits = match decimal acc digits with Some n => if n <=? max then Some n else None | None => None end.
Proof.
  induction digits as [|c r IH]; intros acc Ha; cbn [parse_digits decimal]; [by rewrite (proj2 (Z.leb_le _ _)) by lia|].
  destruct (digit_of c) as [d|] eqn:Ed; [|done]. apply digit_of_least in Ed. cbv zeta. destruct (10 * acc + d <=? max) eqn:Em.
  - apply Z.leb_le in Em. apply IH. lia.
  - apply Z.leb_gt in Em. destruct (decimal (10 * acc + d) r) as [n|] eqn:En; [|done]. apply decimal_least in En; [|lia].
    by rewrite (proj2 (Z.leb_gt _ _)) by lia.
Qed.

(** * Searching and splitting *)

(** Split before the first character that satisfies [p]
    ([s.find(p).unwrap_or(s.len())] then [split_at]). *)
Fixpoint span (p : ascii -> bool) (s : string) : string * string :=
  match s with
  | EmptyString => (EmptyString, EmptyString)
  | String c r => if p c then (EmptyString, s) else let '(a, b) := span p r in (String c a, b)
  end.

(** The text before the first [c] and the text after it. *)
Fixpoint split_once (c : ascii) (s : string) : option (string * string) :=
  match s with
  | EmptyString => None
  | String d r =>
      if Ascii.eqb d c then Some (EmptyString, r)
      else match split_once c r with Some (a, b) => Some (String d a, b) | None => None end
  end.

(** [s.chars().all(p)], for a [p] of ASCII characters. *)
Fixpoint all_chars (p : ascii -> bool) (s : string) : bool :=
  match s with EmptyString => true | String c r => p c && all_chars p r end.

Fixpoint contains_char (p : ascii -> bool) (s : string) : bool :=
  match s with EmptyString => false | String c r => p c || contains_char p r end.

Fixpoint starts_with (prefix s : string) : bool :=
  match prefix, s with
  | EmptyString, _ => true
  | String a p, String b r => Ascii.eqb a b && starts_with p r
  | _, _ => false
  end.

(** [str::contains] for a string pattern. *)
Fixpoint contains (pat s : string) : bool :=
  starts_with pat s || match s with EmptyString => false | String _ r => contains pat r end.

Definition strip_prefix_char (c : ascii) (s : string) : option string :=
  match s with String d r => if Ascii.eqb d c then Some r else None | EmptyString => None end.

Fixpoint join (sep : string) (l : list string) : string :=
  match l with [] => EmptyString | [s] => s | s :: r => String.append s (String.append sep (join sep r)) end.

(** [char::to_ascii_lowercase] and [str::to_ascii_lowercase]. *)
Definition ascii_lower (c : ascii) : ascii :=
  let n := nat_of_ascii c in
  if Nat.leb 65 n && Nat.leb n 90 then ascii_of_nat (n + 32) else c.

Fixpoint to_ascii_lowercase (s : string) : string :=
  match s with EmptyString => EmptyString | String c r => String (ascii_lower c) (to_ascii_lowercase r) end.

Definition is_char (c : ascii) : ascii -> bool := Ascii.eqb c.

Lemma span_app p s : String.append (span p s).1 (span p s).2 = s.
Proof. induction s as [|c s IH]; simpl; [done|]. destruct (p c); [done|]. destruct (span p s). simpl in *. by rewrite <- IH. Qed.

Lemma span_length p s : (String.length (span p s).2 <= String.length s)%nat.
Proof.
  induction s as [|c s IH]; simpl; [lia|]. destruct (p c); simpl; [lia|].
  destruct (span p s). simpl in *. lia.
Qed.

Lemma split_once_length c s a b : split_once c s = Some (a, b) -> (String.length b < String.length s)%nat.
Proof.
  revert a. induction s as [|d s IH]; intros a; simpl; [done|].
  destruct (Ascii.eqb d c); [intros; simplify_eq; lia|].
  destruct (split_once c s) as [[a' b']|]; intros; simplify_eq. specialize (IH _ eq_refl). lia.
Qed.

(** * Formatting *)

(** An integer in decimal ([format!("{n}")]). *)
Definition show_int (z : Z) : string := pretty z.

Lemma digit_of_char d : (d < 10)%N -> digit_of (pretty_N_char d) = Some (Z.of_N d) /\ Ascii.eqb (pretty_N_char d) "+" = false.
Proof.
  intros Hd. assert (Hx : exists k, (k < 10)%nat /\ d = N.of_nat k) by (exists (N.to_nat d); lia).
  destruct Hx as (k & Hk & ->). do 10 (destruct k as [|k]; [by vm_compute|]). lia.
Qed.

Lemma parse_digits_pretty max x s :
  Z.of_N x <= max -> parse_digits max 0 (pretty_N_go x s) = parse_digits max (Z.of_N x) s.
Proof.
  revert s. induction x as [x IH] using (well_founded_induction N.lt_wf_0); intros s Hx.
  destruct (decide (x = 0%N)) as [->|Hne]; [by rewrite pretty_N_go_0|].
  rewrite pretty_N_go_step by lia.
  rewrite IH by (try apply N.div_lt; try lia; pose proof (N.Div0.div_le_upper_bound x 10 x); lia).
  cbn [parse_digits]. destruct (digit_of_char (x mod 10)) as [-> _]; [by apply N.mod_lt|].
  rewrite N2Z.inj_div, N2Z.inj_mod. change (Z.of_N 10) with 10. cbv zeta.
  rewrite <- Z.div_mod by lia. by rewrite (proj2 (Z.leb_le _ _) Hx).
Qed.

Lemma pretty_N_go_head x s : (0 < x)%N -> exists c r, pretty_N_go x s = String c r /\ Ascii.eqb c "+" = false.
Proof.
  revert s. induction x as [x IH] using (well_founded_induction N.lt_wf_0); intros s Hx.
  rewrite pretty_N_go_step by lia. destruct (decide (x / 10 = 0)%N) as [->|Hne].
  - rewrite pretty_N_go_0. eexists _, _. split; [done|]. apply digit_of_char, N.mod_lt. done.
  - apply IH; [apply N.div_lt; lia|]. by apply N.neq_0_lt_0.
Qed.

Lemma pretty_pos p : show_int (Z.pos p) = pretty_N_go (N.pos p) EmptyString.
Proof. unfold show_int, pretty, pretty_Z, pretty, pretty_positive, pretty, pretty_N. by case_decide. Qed.

Lemma parse_show_int max n : 0 <= n <= max -> parse_unsigned max (show_int n) = Some n.
Proof.
  intros Hn. destruct n as [|p|p]; [|  |lia].
  { change (show_int 0) with "0". simpl. case_match eqn:E; [done|]. apply Z.leb_gt in E. change (Z.of_nat _) with 48 in E. lia. }
  rewrite pretty_pos. destruct (pretty_N_go_head (N.pos p) EmptyString) as (c & r & E & Hc); [done|].
  rewrite E. cbn [parse_unsigned]. rewrite Hc, <- E.
  by rewrite parse_digits_pretty by (simpl; lia).
Qed.

(** A number beyond the bound is not read. *)
Lemma parse_show_beyond max z : 0 <= max < z -> parse_unsigned max (show_int z) = None.
Proof.
  intros Hz. pose proof (parse_show_int z z ltac:(lia)) as Hp. unfold parse_unsigned in *. destruct (show_int z) as [|c r]; [done|].
  destruct (Ascii.eqb c "+"); [destruct r; [done|]|]; rewrite !parse_digits_decimal in * by lia;
    (destruct (decimal 0 _) as [n|]; [|done]); (destruct (n <=? z); [|done]); injection Hp as ->; by rewrite (proj2 (Z.leb_gt _ _)) by lia.
Qed.

(** No character of a printed natural number satisfies a predicate that no digit
    satisfies. *)
Lemma show_int_avoids (p : ascii -> bool) n :
  0 <= n -> (forall d, is_Some (digit_of d) -> p d = false) -> contains_char p (show_int n) = false.
Proof.
  intros Hn Hp.
  assert (Hgo : forall x s, contains_char p s = false -> contains_char p (pretty_N_go x s) = false).
  { induction x as [x IH] using (well_founded_induction N.lt_wf_0); intros s Hs.
    destruct (decide (x = 0%N)) as [->|Hne]; [by rewrite pretty_N_go_0|].
    rewrite pretty_N_go_step by lia. apply IH; [apply N.div_lt; lia|]. simpl. rewrite Hs, orb_false_r.
    apply Hp. destruct (digit_of_char (x mod 10)) as [-> _]; [by apply N.mod_lt|done]. }
  destruct n as [|q|q]; [|rewrite pretty_pos; by apply Hgo|lia].
  change (show_int 0) with "0". simpl. by rewrite Hp.
Qed.

Lemma split_once_app c a b :
  contains_char (is_char c) a = false -> split_once c (String.append a (String c b)) = Some (a, b).
Proof.
  induction a as [|d a IH]; intros Ha.
  - change (String.append EmptyString (String c b)) with (String c b). simpl. by rewrite Ascii.eqb_refl.
  - change (String.append (String d a) (String c b)) with (String d (String.append a (String c b))). simpl in *. to_prop.
    destruct (Ascii.eqb_spec d c) as [->|Hne].
    + unfold is_char in *. by rewrite Ascii.eqb_refl in *.
    + by rewrite IH.
Qed.

(** ** Trimming *)

(** The encodings of Unicode white space, as bytes. *)
Definition white_space : list (list nat) :=
  [[9]; [10]; [11]; [12]; [13]; [32]; [194; 133]; [194; 160]; [225; 154; 128];
   [226; 128; 128]; [226; 128; 129]; [226; 128; 130]; [226; 128; 131]; [226; 128; 132]; [226; 128; 133];
   [226; 128; 134]; [226; 128; 135]; [226; 128; 136]; [226; 128; 137]; [226; 128; 138];
   [226; 128; 168]; [226; 128; 169]; [226; 128; 175]; [226; 129; 159]; [227; 128; 128]]%nat.

Fixpoint strip_codes (codes : list nat) (l : list ascii) : option (list ascii) :=
  match codes, l with
  | [], _ => Some l
  | n :: codes, c :: l => if Nat.eqb (nat_of_ascii c) n then strip_codes codes l else None
  | _, [] => None
  end.

Fixpoint strip_any (table : list (list nat)) (l : list ascii) : option (list ascii) :=
  match table with
  | [] => None
  | codes :: table => match strip_codes codes l with Some r => Some r | None => strip_any table l end
  end.

Fixpoint strip_all (fuel : nat) (table : list (list nat)) (l : list ascii) : list ascii :=
  match fuel with
  | O => l
  | S fuel => match strip_any table l with Some r => strip_all fuel table r | None => l end
  end.

(** [str::trim]. *)
Definition trim (s : string) : string :=
  let l := String.list_ascii_of_string s in
  let l := strip_all (length l) white_space l in
  let l := strip_all (length l) (map (@rev nat) white_space) (rev l) in
  String.string_of_list_ascii (rev l).

Example trim_example : trim "  no such user  " = "no such user".
Proof. by vm_compute. Qed.

(** ** Characters of a UTF-8 string *)

Definition is_continuation (c : ascii) : bool := let n := nat_of_ascii c in Nat.leb 128 n && Nat.leb n 191.

(** [s.chars().count()]. *)
Fixpoint count_chars (s : string) : nat :=
  match s with
  | EmptyString => 0
  | String c r => if is_continuation c then count_chars r else S (count_chars r)
  end.

(** [s.chars().take(n).collect()]. *)
Fixpoint take_chars (n : nat) (s : string) : string :=
  match s with
  | EmptyString => EmptyString
  | String c r =>
      if is_continuation c then String c (take_chars n r)
      else match n with O => EmptyString | S n => String c (take_chars n r) end
  end.

Lemma count_take_chars n s : (count_chars (take_chars n s) <= n)%nat.
Proof.
  revert n. induction s as [|c s IH]; intros n; simpl; [lia|]. destruct (is_continuation c) eqn:E; simpl.
  - rewrite E. apply IH.
  - destruct n as [|n]; simpl; [lia|]. rewrite E. specialize (IH n). lia.
Qed.

Lemma count_chars_app a b : count_chars (String.append a b) = (count_chars a + count_chars b)%nat.
Proof.
  induction a as [|c a IH]; [done|]. change (String.append (String c a) b) with (String c (String.append a b)). simpl.
  rewrite IH. by destruct (is_continuation c).
Qed.

(** ** Prefixes, suffixes and slices *)

Fixpoint strip_prefix (prefix s : string) : option string :=
  match prefix, s with
  | EmptyString, _ => Some s
  | String p prefix, String c s => if Ascii.eqb p c then strip_prefix prefix s else None
  | String _ _, EmptyString => None
  end.

Fixpoint strip_suffix (suffix s : string) : option string :=
  if String.eqb suffix s then Some EmptyString
  else match s with EmptyString => None | String c r => option_map (String c) (strip_suffix suffix r) end.

Definition ends_with (suffix s : string) : bool := match strip_suffix suffix s with Some _ => true | None => false end.

(** The text before and after the first occurrence of [pat]. *)
Fixpoint split_find (pat s : string) : option (string * string) :=
  match strip_prefix pat s with
  | Some rest => Some (EmptyString, rest)
  | None =>
      match s with
      | EmptyString => None
      | String c r => match split_find pat r with Some (a, b) => Some (String c a, b) | None => None end
      end
  end.

(** [s.trim_end_matches(c)]. *)
Fixpoint trim_end_matches (c : ascii) (s : string) : string :=
  match s with
  | EmptyString => EmptyString
  | String d r =>
      match trim_end_matches c r with
      | EmptyString => if Ascii.eqb c d then EmptyString else String d EmptyString
      | r' => String d r'
      end
  end.

(** [str::trim_end]. *)
Definition trim_end (s : string) : string :=
  let l := String.list_ascii_of_string s in
  String.string_of_list_ascii (rev (strip_all (length l) (map (@rev nat) white_space) (rev l))).

(** What [take_chars] leaves. *)
Fixpoint skip_chars (n : nat) (s : string) : string :=
  match s with
  | EmptyString => EmptyString
  | String c r =>
      if is_continuation c then skip_chars n r
      else match n with O => s | S n => skip_chars n r end
  end.

(** [str::is_char_boundary]. *)
Fixpoint is_char_boundary (n : nat) (s : string) : bool :=
  match n, s with
  | O, String c _ => negb (is_continuation c)
  | O, EmptyString => true
  | S n, String _ r => is_char_boundary n r
  | S _, EmptyString => false
  end.

(** * Pieces *)

(** [s.split(c)]. *)
Fixpoint split_char (c : ascii) (s : string) : list string :=
  match s with
  | EmptyString => [EmptyString]
  | String d r =>
      if Ascii.eqb d c then EmptyString :: split_char c r
      else match split_char c r with h :: t => String d h :: t | [] => [String d EmptyString] end
  end.

(** What follows the last [c]. *)
Fixpoint after_last (c : ascii) (s : string) : option string :=
  match s with
  | EmptyString => None
  | String d r => match after_last c r with Some t => Some t | None => if Ascii.eqb d c then Some r else None end
  end.

Example split_char_example : split_char "/" "iam//users/" = ["iam"; ""; "users"; ""].
Proof. reflexivity. Qed.

(** What stands before the last [c]. *)
Fixpoint before_last (c : ascii) (s : string) : option string :=
  match s with
  | EmptyString => None
  | String d r =>
      match before_last c r with
      | Some b => Some (String d b)
      | None => if Ascii.eqb c d then Some EmptyString else None
      end
  end.

Lemma length_app_str (a b : string) : String.length (a +:+ b) = (String.length a + String.length b)%nat.
Proof. induction a as [|c a IH]; [done|]. simpl. by rewrite IH. Qed.

(** * The characters a text is made of: the string operations of [Text] add none, so what
    a text avoids, its parts avoid. *)

(** Texts made of characters of another one; what the second avoids, the first does. *)
Definition chars : string -> list ascii := String.list_ascii_of_string.

Lemma contains_char_chars p s : contains_char p s = existsb p (chars s).
Proof. induction s as [|c s IH]; [done|]. simpl. by rewrite IH. Qed.

Lemma chars_avoid p a b : chars a ⊆ chars b -> contains_char p b = false -> contains_char p a = false.
Proof.
  rewrite !contains_char_chars. intros Hsub Hb. apply not_true_iff_false. intros (c & Hc & Hp)%existsb_exists.
  apply list_elem_of_In, Hsub, list_elem_of_In in Hc. apply not_true_iff_false in Hb. apply Hb, existsb_exists. by exists c.
Qed.

Lemma chars_app a b : chars (String.append a b) = chars a ++ chars b.
Proof. induction a as [|c a IH]; [done|]. simpl. f_equal. apply IH. Qed.

Lemma chars_of_list l : chars (String.string_of_list_ascii l) = l.
Proof. apply String.list_ascii_of_string_of_list_ascii. Qed.

Lemma strip_codes_sub codes l r : strip_codes codes l = Some r -> r ⊆ l.
Proof.
  revert l. induction codes as [|n codes IH]; intros [|c l]; simpl; [by intros [= <-]..|done|].
  destruct (Nat.eqb _ _); [|done]. intros Hr%IH. set_solver.
Qed.

Lemma strip_all_sub fuel table l : strip_all fuel table l ⊆ l.
Proof.
  revert l. induction fuel as [|fuel IH]; intros l; simpl; [done|]. destruct (strip_any table l) as [r|] eqn:E; [|done].
  transitivity r; [apply IH|]. clear -E. induction table as [|codes table IH]; simpl in *; [done|].
  destruct (strip_codes codes l) as [r'|] eqn:Ec; [|auto]. injection E as ->. by eapply strip_codes_sub.
Qed.

Lemma rev_sub {A} (l k : list A) : l ⊆ k -> rev l ⊆ k.
Proof. intros Hs x Hx. apply Hs. apply list_elem_of_In. apply in_rev. by apply list_elem_of_In. Qed.

Lemma sub_rev {A} (l k : list A) : l ⊆ rev k -> l ⊆ k.
Proof. intros Hs x Hx%Hs. apply list_elem_of_In. apply in_rev. by apply list_elem_of_In. Qed.

Lemma trim_chars s : chars (trim s) ⊆ chars s.
Proof.
  unfold trim. rewrite chars_of_list. apply rev_sub. etransitivity; [apply strip_all_sub|]. apply rev_sub. apply strip_all_sub.
Qed.

Lemma trim_end_chars s : chars (trim_end s) ⊆ chars s.
Proof. unfold trim_end. rewrite chars_of_list. apply rev_sub. etransitivity; [apply strip_all_sub|]. by apply rev_sub. Qed.

Lemma trim_end_matches_chars c s : chars (trim_end_matches c s) ⊆ chars s.
Proof.
  induction s as [|d s IH]; [done|]. simpl. destruct (trim_end_matches c s) as [|e r] eqn:E; [destruct (Ascii.eqb c d)|]; simpl in *; set_solver.
Qed.

Lemma substring_chars n s : chars (String.substring 0 n s) ⊆ chars s.
Proof. revert n. induction s as [|c s IH]; intros [|n]; simpl; [set_solver..|]. specialize (IH n). set_solver. Qed.

Lemma take_chars_sub n s : chars (take_chars n s) ⊆ chars s.
Proof.
  revert n. induction s as [|c s IH]; intros n; simpl; [done|]. destruct (is_continuation c); [specialize (IH n); set_solver|].
  destruct n as [|n]; [set_solver|]. specialize (IH n). set_solver.
Qed.

Lemma skip_chars_sub n s : chars (skip_chars n s) ⊆ chars s.
Proof.
  revert n. induction s as [|c s IH]; intros n; simpl; [done|]. destruct (is_continuation c); [specialize (IH n); set_solver|].
  destruct n as [|n]; [done|]. specialize (IH n). set_solver.
Qed.

Lemma span_chars p s : chars (span p s).1 ⊆ chars s /\ chars (span p s).2 ⊆ chars s.
Proof.
  induction s as [|c s [IH1 IH2]]; [done|]. simpl. destruct (p c); simpl; [split; set_solver|].
  destruct (span p s) as [a b]. simpl in *. set_solver.
Qed.

Lemma split_once_chars c s a b : split_once c s = Some (a, b) -> chars a ⊆ chars s /\ chars b ⊆ chars s.
Proof.
  revert a. induction s as [|d s IH]; intros a; simpl; [done|]. destruct (Ascii.eqb d c) eqn:E.
  - intros [= <- <-]. set_solver.
  - destruct (split_once c s) as [[x y]|]; [|done]. intros [= <- <-]. destruct (IH x eq_refl). simpl. set_solver.
Qed.

Lemma strip_prefix_chars p s r : strip_prefix p s = Some r -> chars r ⊆ chars s.
Proof.
  revert s. induction p as [|c p IH]; intros [|d s]; simpl; [by intros [= <-]..|done|].
  destruct (Ascii.eqb c d); [|done]. intros Hr%IH. set_solver.
Qed.

Lemma strip_suffix_chars p s r : strip_suffix p s = Some r -> chars r ⊆ chars s.
Proof.
  revert r. induction s as [|d s IH]; intros r; cbn [strip_suffix].
  - destruct (String.eqb p _); [by intros [= <-]|done].
  - destruct (String.eqb p _); [intros [= <-]; simpl; set_solver|]. destruct (strip_suffix p s) as [x|]; [|done]. intros [= <-]. specialize (IH x eq_refl). simpl. set_solver.
Qed.

Lemma split_find_chars p s a b : split_find p s = Some (a, b) -> chars a ⊆ chars s /\ chars b ⊆ chars s.
Proof.
  revert a. induction s as [|d s IH]; intros a; cbn [split_find].
  - destruct (strip_prefix p EmptyString) as [r|] eqn:E; [|done]. intros [= <- <-]. by apply strip_prefix_chars in E.
  - destruct (strip_prefix p (String d s)) as [r|] eqn:E.
    + intros [= <- <-]. apply strip_prefix_chars in E. set_solver.
    + destruct (split_find p s) as [[x y]|]; [|done]. intros [= <- <-]. destruct (IH x eq_refl). simpl. set_solver.
Qed.
