(* ===== verification/Kebab.v ===== *)
(** Identifiers as flags ([to_kebab_case] in [support/strings.rs]): three rewriting
    passes over ASCII patterns, then Unicode lower-casing, whose table is not part of
    the repository. *)

From stdpp Require Import base strings list.
From Stdlib Require Import ZArith Lia Ascii.
From S2P Require Import Prelude Text.

#[local] Arguments String.append !_ _ /.

Definition is_ascii (c : ascii) : bool := Nat.ltb (nat_of_ascii c) 128.

Definition is_lower (c : ascii) : bool := let n := nat_of_ascii c in Nat.leb 97 n && Nat.leb n 122.
Definition is_upper (c : ascii) : bool := let n := nat_of_ascii c in Nat.leb 65 n && Nat.leb n 90.
Definition is_digit (c : ascii) : bool := let n := nat_of_ascii c in Nat.leb 48 n && Nat.leb n 57.

Fixpoint to_ascii_uppercase (s : string) : string :=
  match s with
  | EmptyString => EmptyString
  | String c r => String (if is_lower c then ascii_of_nat (nat_of_ascii c - 32) else c) (to_ascii_uppercase r)
  end.

(** The tables of Unicode, which on ASCII text are those of ASCII: [str::to_lowercase],
    [str::to_uppercase], and [char::is_uppercase] of a text of one character. *)
Class UnicodeCase : Type := {
  to_lowercase : string -> string;
  to_uppercase : string -> string;
  is_uppercase : string -> bool;
  to_lowercase_ascii : forall s, contains_char (fun c => negb (is_ascii c)) s = false -> to_lowercase s = to_ascii_lowercase s;
  to_uppercase_ascii : forall s, contains_char (fun c => negb (is_ascii c)) s = false -> to_uppercase s = to_ascii_uppercase s;
  is_uppercase_ascii : forall c, is_ascii c = true -> is_uppercase (String c EmptyString) = is_upper c
}.

(** Scan from the left: at each position not inside the previous match, [rewrite]
    says whether a match starts there, with what replaces it and its length. *)
Fixpoint rewrite_all (rewrite : string -> option (string * nat)) (skip : nat) (s : string) : string :=
  match s with
  | EmptyString => EmptyString
  | String c r =>
      match skip with
      | S skip => rewrite_all rewrite skip r
      | O =>
          match rewrite s with
          | Some (out, len) => out +:+ rewrite_all rewrite (len - 1) r
          | None => String c (rewrite_all rewrite 0 r)
          end
      end
  end.

(** [str::replace] for a non-empty pattern. *)
Definition replace (from to s : string) : string :=
  rewrite_all (fun s => if starts_with from s then Some (to, String.length from) else None) 0 s.

Definition ACRONYM_REPLACEMENTS : list (string * string) :=
  [("IDs", "Ids"); ("URLs", "Urls"); ("APIs", "Apis"); ("QoS", "Qos"); ("S2S", "S2s")].

Definition CONNECTORS : list string := ["by"; "for"; "from"; "with"].

Fixpoint drop_chars (n : nat) (s : string) : string :=
  match n, s with S n, String _ r => drop_chars n r | _, _ => s end.

(** [([a-z]{3})(by|for|from|with)([A-Z])] to [${1}-${2}-${3}]. *)
Definition KEBAB_CONNECTORS (s : string) : option (string * nat) :=
  match s with
  | String a (String b (String c r)) =>
      if is_lower a && is_lower b && is_lower c then
        match List.find (fun w => starts_with w r && match drop_chars (String.length w) r with String u _ => is_upper u | EmptyString => false end)
                CONNECTORS with
        | Some w =>
            match drop_chars (String.length w) r with
            | String u _ =>
                Some (String a (String b (String c "-")) +:+ w +:+ "-" +:+ String u EmptyString, (4 + String.length w)%nat)
            | EmptyString => None
            end
        | None => None
        end
      else None
  | _ => None
  end.

(** [([a-z0-9])([A-Z])] to [${1}-${2}]. *)
Definition KEBAB_LOWER_UPPER (s : string) : option (string * nat) :=
  match s with
  | String a (String b _) =>
      if (is_lower a || is_digit a) && is_upper b then Some (String a (String "-" (String b EmptyString)), 2%nat) else None
  | _ => None
  end.

(** The run of capitals at the start of [s], and what follows it. *)
Definition capitals (s : string) : string * string := span (fun c => negb (is_upper c)) s.

(** [([A-Z]+)([A-Z][a-z])] to [${1}-${2}]: the last capital of a run goes with the
    lower-case letter after it. *)
Definition KEBAB_ACRONYM (s : string) : option (string * nat) :=
  let '(run, rest) := capitals s in
  match rest with
  | String l _ =>
      if Nat.leb 2 (String.length run) && is_lower l then
        Some (take_chars (String.length run - 1) run +:+ "-" +:+ drop_chars (String.length run - 1) run +:+ String l EmptyString,
              S (String.length run))
      else None
  | EmptyString => None
  end.

Section kebab.
Context `{UnicodeCase}.

Definition to_kebab_case (name : string) : string :=
  let s := foldl (fun s r => replace r.1 r.2 s) (replace "_" "-" name) ACRONYM_REPLACEMENTS in
  to_lowercase (rewrite_all KEBAB_ACRONYM 0 (rewrite_all KEBAB_LOWER_UPPER 0 (rewrite_all KEBAB_CONNECTORS 0 s))).
End kebab.

(** Lower-casing of ASCII letters only, for the examples. *)
Program Definition ascii_case : UnicodeCase :=
  {| to_lowercase := to_ascii_lowercase; to_uppercase := to_ascii_uppercase;
     is_uppercase := fun s => match s with String c EmptyString => is_upper c | _ => false end |}.
Solve All Obligations with done.

(** The cases of the tests in [support/strings.rs]. *)
Example kebab_examples :
  map (@to_kebab_case ascii_case)
    ["GetUsers"; "CreateUser"; "GetUserIDs"; "ListURLs"; "QoSRegions"; "S2SToken"; "getUserbyId"; "listItemsforUser"; "AdminV3";
     "list"; "user_id"; "client_id"; "response_type"; "HTTPServer"] =
    ["get-users"; "create-user"; "get-user-ids"; "list-urls"; "qos-regions"; "s2s-token"; "get-user-by-id"; "list-items-for-user"; "admin-v3";
     "list"; "user-id"; "client-id"; "response-type"; "http-server"].
Proof. vm_compute. reflexivity. Qed.

(** * Flags are canonical *)

Lemma contains_char_app p a b : contains_char p (a +:+ b) = contains_char p a || contains_char p b.
Proof. induction a as [|c a IH]; simpl; [done|]. by rewrite IH, orb_assoc. Qed.

(** A scan whose replacements avoid a class of characters avoids it. *)
Lemma rewrite_all_avoids p rewrite skip s :
  (forall s out len, contains_char p s = false -> rewrite s = Some (out, len) -> contains_char p out = false) ->
  contains_char p s = false -> contains_char p (rewrite_all rewrite skip s) = false.
Proof.
  intros Hr. revert skip. induction s as [|c s IH]; intros skip Hs; [done|]. cbn [rewrite_all].
  pose proof Hs as Hs'. cbn [contains_char] in Hs'. apply orb_false_iff in Hs' as [Hc Hs']. destruct skip; [|by apply IH].
  destruct (rewrite (String c s)) as [[out len]|] eqn:E.
  - rewrite contains_char_app, (Hr _ _ _ Hs E). by apply IH.
  - cbn [contains_char]. rewrite Hc. by apply IH.
Qed.

(** A scan that matches nowhere changes nothing. *)
Lemma rewrite_all_id p rewrite s :
  (forall s, contains_char p s = false -> rewrite s = None) -> contains_char p s = false -> rewrite_all rewrite 0 s = s.
Proof.
  intros Hr. induction s as [|c s IH]; intros Hs; [done|]. cbn [rewrite_all]. rewrite (Hr _ Hs). f_equal. apply IH.
  cbn [contains_char] in Hs. by apply orb_false_iff in Hs as [_ ?].
Qed.

Lemma drop_chars_avoids p n s : contains_char p s = false -> contains_char p (drop_chars n s) = false.
Proof.
  revert s. induction n as [|n IH]; intros [|c s]; cbn [drop_chars]; try done. cbn [contains_char].
  intros [_ Hs]%orb_false_iff. by apply IH.
Qed.

Lemma take_chars_avoids p n s : contains_char p s = false -> contains_char p (take_chars n s) = false.
Proof.
  revert n. induction s as [|c s IH]; intros n Hs; [by destruct n|]. cbn [contains_char] in Hs. apply orb_false_iff in Hs as [Hc Hs].
  cbn [take_chars]. destruct (is_continuation c); cbn [contains_char]; [by rewrite Hc, IH|].
  destruct n; [done|]. cbn [contains_char]. by rewrite Hc, IH.
Qed.

(** The classes the passes respect: they avoid the hyphen and the connector words. *)
Definition respected (p : ascii -> bool) : Prop := p "-"%char = false /\ Forall (fun w => contains_char p w = false) CONNECTORS.

Lemma replace_avoids p from to s : contains_char p to = false -> contains_char p s = false -> contains_char p (replace from to s) = false.
Proof. intros Ht. apply rewrite_all_avoids. intros s' out len _. destruct (starts_with from s'); [|done]. by intros [= <- _]. Qed.

Lemma connectors_avoids p s out len : respected p -> contains_char p s = false -> KEBAB_CONNECTORS s = Some (out, len) ->
  contains_char p out = false.
Proof.
  intros [Hh Hw] Hs. unfold KEBAB_CONNECTORS. destruct s as [|a [|b [|c r]]]; try done. destruct (_ && _); [|done].
  destruct (List.find _ _) as [w|] eqn:Ew; [|done]. pose proof (drop_chars_avoids p (String.length w) r) as Hd.
  destruct (drop_chars _ r) as [|u r'] eqn:Ed; [done|]. intros [= <- _]. apply List.find_some in Ew as [Ew _].
  rewrite Forall_forall in Hw. specialize (Hw w ltac:(by apply list_elem_of_In)). cbn [contains_char] in *.
  apply orb_false_iff in Hs as [Ha [Hb [Hc Hr]%orb_false_iff]%orb_false_iff]. specialize (Hd Hr). apply orb_false_iff in Hd as [Hu _].
  repeat (rewrite contains_char_app; cbn [contains_char String.append]). by rewrite Ha, Hb, Hc, Hh, Hw, Hu.
Qed.

Lemma lower_upper_avoids p s out len : respected p -> contains_char p s = false -> KEBAB_LOWER_UPPER s = Some (out, len) ->
  contains_char p out = false.
Proof.
  intros [Hh _] Hs. destruct s as [|a [|b r]]; try done. cbn [KEBAB_LOWER_UPPER]. destruct (_ && _); [|done]. intros [= <- _].
  cbn [contains_char] in *. apply orb_false_iff in Hs as [Ha [Hb _]%orb_false_iff]. by rewrite Ha, Hb, Hh.
Qed.

Lemma acronym_avoids p s out len : respected p -> contains_char p s = false -> KEBAB_ACRONYM s = Some (out, len) -> contains_char p out = false.
Proof.
  intros [Hh _] Hs. unfold KEBAB_ACRONYM, capitals. pose proof (span_app (fun c => negb (is_upper c)) s) as Hsplit.
  destruct (span _ s) as [run rest]. simpl in Hsplit. rewrite <- Hsplit, contains_char_app in Hs. apply orb_false_iff in Hs as [Hrun Hrest].
  destruct rest as [|l rest]; [done|]. destruct (_ && _); [|done]. intros [= <- _]. cbn [contains_char] in Hrest.
  apply orb_false_iff in Hrest as [Hl _]. repeat (rewrite contains_char_app; cbn [contains_char String.append]).
  by rewrite take_chars_avoids, drop_chars_avoids, Hh, Hl by done.
Qed.

Lemma lower_no_upper s : contains_char is_upper (to_ascii_lowercase s) = false.
Proof. induction s as [|c s IH]; [done|]. cbn [to_ascii_lowercase contains_char]. rewrite IH, orb_false_r. by destruct c as [[] [] [] [] [] [] [] []]. Qed.

Lemma lower_avoids p s : (forall c, p c = false -> p (ascii_lower c) = false) -> contains_char p s = false ->
  contains_char p (to_ascii_lowercase s) = false.
Proof.
  intros Hp. induction s as [|c s IH]; [done|]. cbn [to_ascii_lowercase contains_char].
  intros [Hc Hs]%orb_false_iff. by rewrite Hp, IH.
Qed.

Lemma lower_id s : contains_char is_upper s = false -> to_ascii_lowercase s = s.
Proof.
  induction s as [|c s IH]; [done|]. cbn [to_ascii_lowercase contains_char]. intros [Hc Hs]%orb_false_iff. rewrite IH by done.
  f_equal. unfold ascii_lower. unfold is_upper in Hc. by rewrite Hc.
Qed.

Section canonical.
Context `{UnicodeCase}.

(** The passes before the lower-casing. *)
Definition kebab_passes (name : string) : string :=
  rewrite_all KEBAB_ACRONYM 0 (rewrite_all KEBAB_LOWER_UPPER 0 (rewrite_all KEBAB_CONNECTORS 0
    (foldl (fun s r => replace r.1 r.2 s) (replace "_" "-" name) ACRONYM_REPLACEMENTS))).

Lemma passes_avoid p name : respected p -> Forall (fun r => contains_char p r.2 = false) ACRONYM_REPLACEMENTS ->
  contains_char p (replace "_" "-" name) = false -> contains_char p (kebab_passes name) = false.
Proof.
  intros Hp Ha Hn. unfold kebab_passes. apply rewrite_all_avoids; [intros; by eapply acronym_avoids|].
  apply rewrite_all_avoids; [intros; by eapply lower_upper_avoids|]. apply rewrite_all_avoids; [intros; by eapply connectors_avoids|].
  revert Hn. generalize (replace "_" "-" name). induction Ha as [|r l Hr _ IH]; intros s Hs; [done|]. apply IH. by apply replace_avoids.
Qed.

Lemma no_underscore name : contains_char (Ascii.eqb "_") (replace "_" "-" name) = false.
Proof.
  unfold replace. set (f := fun s => if starts_with "_" s then _ else _).
  assert (Hf : forall c r, f (String c r) = if Ascii.eqb "_" c then Some ("-", 1%nat) else None).
  { intros c r. unfold f. cbn [starts_with]. rewrite Ascii.eqb_sym. by destruct (Ascii.eqb c "_"), r. }
  clearbody f. induction name as [|c r IH]; [done|]. cbn [rewrite_all]. rewrite Hf.
  destruct (Ascii.eqb "_" c) eqn:E; [exact IH|]. cbn [contains_char]. by rewrite E.
Qed.

Definition non_ascii (c : ascii) : bool := negb (is_ascii c).
Definition flag_char (c : ascii) : bool := negb (is_upper c || Ascii.eqb "_" c || non_ascii c).

Lemma flag_chars s : contains_char is_upper s = false -> contains_char (Ascii.eqb "_") s = false -> contains_char non_ascii s = false ->
  contains_char (fun c => negb (flag_char c)) s = false.
Proof.
  induction s as [|c s IH]; [done|]. cbn [contains_char]. intros [Hu Hu']%orb_false_iff [Hd Hd']%orb_false_iff [Ha Ha']%orb_false_iff.
  rewrite IH by done. unfold flag_char. by rewrite Hu, Hd, Ha.
Qed.

Lemma starts_with_avoids p from s : contains_char p s = false -> contains_char p from = true -> starts_with from s = false.
Proof.
  revert s. induction from as [|c from IH]; intros s Hs Hf; [done|]. destruct s as [|d s]; [done|]. cbn [starts_with contains_char] in *.
  apply orb_false_iff in Hs as [Hd Hs]. destruct (Ascii.eqb_spec c d) as [->|]; [|done]. rewrite Hd in Hf. by apply IH.
Qed.

Lemma replace_id p from to s : contains_char p from = true -> contains_char p s = false -> replace from to s = s.
Proof.
  intros Hf. apply rewrite_all_id. intros s' Hs'. destruct (starts_with from s') eqn:E; [|done].
  by rewrite (starts_with_avoids p) in E.
Qed.

(** Without capitals and underscores, nothing is left to rewrite. *)
Lemma passes_id s : contains_char is_upper s = false -> contains_char (Ascii.eqb "_") s = false -> kebab_passes s = s.
Proof.
  intros Hu Hd. unfold kebab_passes. rewrite (replace_id (Ascii.eqb "_")) by done.
  assert (Ha : foldl (fun s r => replace r.1 r.2 s) s ACRONYM_REPLACEMENTS = s).
  { assert (Hall : Forall (fun r => contains_char is_upper r.1 = true) ACRONYM_REPLACEMENTS) by (repeat constructor).
    revert Hall. generalize ACRONYM_REPLACEMENTS. induction 1 as [|r l Hr _ IH]; [done|]. cbn [foldl]. by rewrite (replace_id is_upper). }
  rewrite Ha. clear Ha.
  rewrite (rewrite_all_id is_upper KEBAB_CONNECTORS); [|clear|done].
  - rewrite (rewrite_all_id is_upper KEBAB_LOWER_UPPER); [|clear|done].
    + rewrite (rewrite_all_id is_upper KEBAB_ACRONYM); [done|clear|done]. intros s Hs. unfold KEBAB_ACRONYM, capitals.
      destruct s as [|c s]; [done|]. cbn [contains_char span] in *. apply orb_false_iff in Hs as [-> _]. done.
    + intros [|a [|b s]] Hs; try done. cbn [KEBAB_LOWER_UPPER contains_char] in *. apply orb_false_iff in Hs as [_ [-> _]%orb_false_iff].
      by rewrite andb_false_r.
  - intros s Hs. unfold KEBAB_CONNECTORS. destruct s as [|a [|b [|c r]]]; try done. destruct (_ && _); [|done].
    destruct (List.find _ _) as [w|] eqn:Ew; [|done]. apply List.find_some in Ew as [_ Ew].
    cbn [contains_char] in Hs. apply orb_false_iff in Hs as [_ [_ [_ Hr]%orb_false_iff]%orb_false_iff].
    apply (drop_chars_avoids _ (String.length w)) in Hr. apply andb_true_iff in Ew as [_ Ew].
    destruct (drop_chars _ r) as [|u r']; [done|]. cbn [contains_char] in Hr. apply orb_false_iff in Hr as [Hr _]. congruence.
Qed.

(** Flags are canonical: the kebab form of an ASCII identifier has no capital, no
    underscore and no character beyond ASCII, and is its own kebab form. *)
Theorem kebab_canonical name : contains_char non_ascii name = false ->
  contains_char (fun c => negb (flag_char c)) (to_kebab_case name) = false /\
  to_kebab_case (to_kebab_case name) = to_kebab_case name.
Proof.
  intros Hascii. assert (Hresp : forall p, p "-"%char = false -> Forall (fun w => contains_char p w = false) CONNECTORS -> respected p) by done.
  assert (Hna : contains_char non_ascii (kebab_passes name) = false).
  { apply passes_avoid; [split; [done|by repeat constructor]|by repeat constructor|by apply replace_avoids]. }
  assert (Hnu : contains_char (Ascii.eqb "_") (kebab_passes name) = false).
  { apply passes_avoid; [split; [done|by repeat constructor]|by repeat constructor|apply no_underscore]. }
  assert (Hkebab : forall s, contains_char non_ascii (kebab_passes s) = false -> to_kebab_case s = to_ascii_lowercase (kebab_passes s)).
  { intros s Hs. unfold to_kebab_case. by apply to_lowercase_ascii. }
  rewrite (Hkebab name Hna). set (k := to_ascii_lowercase (kebab_passes name)).
  assert (Hk1 : contains_char is_upper k = false) by apply lower_no_upper.
  assert (Hk2 : contains_char (Ascii.eqb "_") k = false).
  { apply lower_avoids; [|done]. intros c. by destruct c as [[] [] [] [] [] [] [] []]. }
  assert (Hk3 : contains_char non_ascii k = false).
  { apply lower_avoids; [|done]. intros c. by destruct c as [[] [] [] [] [] [] [] []]. }
  split; [by apply flag_chars|]. rewrite Hkebab by (by rewrite passes_id). by rewrite passes_id, lower_id.
Qed.
End canonical.

Lemma kebab_canonical_witness :
  let kebab := @to_kebab_case ascii_case in
  let flag := "get-user-ids-by-ns" in
  kebab "GetUserIDs_byNS" = flag /\ kebab flag = flag.
Proof.
  split; [vm_compute; reflexivity|]. exact (proj2 (@kebab_canonical ascii_case "GetUserIDs_byNS" eq_refl)).
Defined.
