(* ===== verification/Nouns.v ===== *)
(** Names as words ([support/strings.rs]): the nouns of messages and headings,
    derived from command names, and the shortening of texts. *)

From stdpp Require Import base gmap strings list.
From Stdlib Require Import ZArith Lia Ascii.
From S2P Require Import Prelude Text Kebab.

#[local] Arguments String.append !_ _ /.

(** * Words *)

Definition kebab_case_to_words (name : string) : string := replace "-" " " name.

Definition UNCOUNTABLE : list string := ["qos"; "iap-oculus"].

(** [str::eq_ignore_ascii_case]. *)
Definition eq_ignore_ascii_case (a b : string) : bool := String.eqb (to_ascii_lowercase a) (to_ascii_lowercase b).

(** [name.strip_suffix(suffix).filter(p)]. *)
Definition stem_if (p : string -> bool) (suffix name : string) : option string :=
  stem ← strip_suffix suffix name; if p stem then Some stem else None.

Definition singularize (name : string) : string :=
  if existsb (fun word => eq_ignore_ascii_case word name) UNCOUNTABLE then name
  else
    match strip_suffix "ies" name with
    | Some stem => stem +:+ "y"
    | None =>
        match stem_if (ends_with "s") "es" name with
        | Some stem => stem
        | None => match stem_if (fun stem => negb (ends_with "s" stem)) "s" name with Some stem => stem | None => name end
        end
    end.

(** Whether the last character is one of [aeiou]; [None] for the empty text. *)
Fixpoint ends_in_vowel (s : string) : option bool :=
  match s with
  | EmptyString => None
  | String c EmptyString => Some (contains_char (Ascii.eqb c) "aeiou")
  | String _ r => ends_in_vowel r
  end.

Definition pluralize (noun : string) (count : Z) : string :=
  if count =? 1 then singularize noun
  else if existsb (fun suffix => ends_with suffix noun) ["sh"; "ch"; "x"; "z"; "ss"; "us"] then noun +:+ "es"
  else if ends_with "s" noun then noun
  else
    match strip_suffix "y" noun with
    | Some stem => match ends_in_vowel stem with Some false => stem +:+ "ies" | _ => noun +:+ "s" end
    | None => noun +:+ "s"
    end.

(** The words after the verb of a command, as both the success and the failure message
    read them; [fallback] is the noun of the resource. *)
Definition command_object (after fallback : string) : string :=
  let first_word := (span (is_char "-") after).1 in
  if existsb (String.eqb first_word) ["by"; "for"; "with"; "from"; "of"] then fallback
  else if String.eqb first_word "my" then
    let rest := default after (strip_prefix "my" after) in
    let rest := default rest (strip_prefix "-" rest) in
    if is_empty rest then fallback else replace "-" " " rest
  else replace "-" " " after.

Definition derive_noun_from_method (method_name resource_name : string) : string :=
  match split_once "-" method_name with
  | Some (_, after) => command_object after (kebab_case_to_words resource_name)
  | None => kebab_case_to_words resource_name
  end.

Section case.
Context `{UnicodeCase}.

Definition capitalize_first (s : string) : string := to_uppercase (take_chars 1 s) +:+ skip_chars 1 s.

(** * Descriptions *)

Definition CRUD_VERBS : gset string := list_to_set ["list"; "create"; "get"; "update"; "delete"].
Definition READ_ONLY_METHODS : gset string := list_to_set ["list"; "get"; "get-all"; "list-all"; "query"].

Definition draft_resource_description (resource : string) (method_names : list string) : string :=
  let method_set : gset string := list_to_set method_names in
  let resource_display := replace "-" " " resource in
  if bool_decide (3 <= size (method_set ∩ CRUD_VERBS))%nat then "Manage " +:+ resource_display
  else if bool_decide (method_set ⊆ READ_ONLY_METHODS) then "Query " +:+ resource_display
  else if ends_with "config" resource || ends_with "configuration" resource then "Configure " +:+ resource_display
  else capitalize_first resource_display +:+ " operations".
End case.

(** * Shortening *)

(** [&text[..n]], which panics inside a character or past the end. *)
Definition slice_to (n : nat) (s : string) : option string :=
  if is_char_boundary n s then Some (String.substring 0 n s) else None.

(** [truncate_summary]; [None] is the panic of the slice or of the subtraction. *)
Definition truncate_summary (text : string) (max_len : nat) : option string :=
  if Nat.leb (String.length text) max_len then Some text
  else if Nat.ltb max_len 3 then None
  else head ← slice_to (max_len - 3) text; Some (trim_end head +:+ "...").

(** The last boundary at or before [n]; there is one at the start. *)
Fixpoint boundary_before (n : nat) (s : string) : nat :=
  match n with
  | O => 0
  | S n' => if is_char_boundary n s then n else boundary_before n' s
  end.

Definition truncate_display_text (body : string) (max_len : nat) : string :=
  if Nat.leb (String.length body) max_len then body
  else String.substring 0 (boundary_before max_len body) body +:+ "... (truncated)".

(** * Examples from the tests *)

Example singular_examples :
  map singularize ["clients"; "policies"; "statuses"; "users"; "access"; "config"; "qos"; "QoS"; "iap-oculus"] =
  ["client"; "policy"; "status"; "user"; "access"; "config"; "qos"; "QoS"; "iap-oculus"].
Proof. vm_compute. reflexivity. Qed.

Example plural_examples :
  map (fun noun => pluralize noun 2) ["user"; "users"; "policy"; "country"; "key"; "match"; "status"; "batch"; "box"] =
  ["users"; "users"; "policies"; "countries"; "keys"; "matches"; "statuses"; "batches"; "boxes"].
Proof. vm_compute. reflexivity. Qed.

Example noun_examples :
  map (fun p => derive_noun_from_method p.1 p.2)
    [("list", "stat-config"); ("list-by-user", "game-record"); ("get-my-info", "user-profile"); ("subscribe-my", "notification-subscription");
     ("get-ban", "user")] =
  ["stat config"; "game record"; "info"; "notification subscription"; "ban"].
Proof. vm_compute. reflexivity. Qed.

(** A summary whose cut falls inside a character: three bytes below the limit of nine
    lies the second byte of the dash. *)
Definition dashed_summary : string := "Lists" +:+ String (ascii_of_nat 226) (String (ascii_of_nat 128) (String (ascii_of_nat 148) "items")).

Lemma truncate_summary_panics : truncate_summary dashed_summary 9 = None /\ truncate_display_text dashed_summary 6 = "Lists... (truncated)".
Proof. vm_compute. done. Qed.
