(* ===== verification/Time.v ===== *)
(** Time stamps for people ([support/time.rs]): RFC 3339 to UTC, through the day number
    of the proleptic Gregorian calendar. Arithmetic is of 64 bits and wraps. *)

From stdpp Require Import base list strings.
From Stdlib Require Import ZArith Lia Ascii.
From S2P Require Import Prelude Text.

#[local] Arguments String.append !_ _ /.

(** * Integers *)

(** An [i64] after wrapping. *)
Definition i64 (z : Z) : Z := (z + 2 ^ 63) mod 2 ^ 64 - 2 ^ 63.

Lemma i64_id z : in_i64 z -> i64 z = z.
Proof. unfold in_i64, i64. intros Hz. rewrite Z.mod_small; lia. Qed.

(** [str::parse::<i64>]. *)
Definition parse_i64 (s : string) : option Z :=
  match s with
  | String c r =>
      if Ascii.eqb c "-" then
        match r with
        | String d _ => if Ascii.eqb d "+" then None else n ← parse_unsigned (2 ^ 63) r; Some (- n)
        | EmptyString => None
        end
      else parse_unsigned (2 ^ 63 - 1) s
  | EmptyString => None
  end.

Definition parse_u32 (s : string) : option Z := parse_unsigned (2 ^ 32 - 1) s.

(** * The calendar *)

(** [days_from_civil]: days since 1970-01-01. *)
Definition days_from_civil (y m d : Z) : Z :=
  let y := if m <=? 2 then i64 (y - 1) else y in
  let era := Z.quot (if 0 <=? y then y else i64 (y - 399)) 400 in
  let yoe := i64 (y - i64 (era * 400)) in
  let mp := (m + 9) mod 12 in
  let doy := (153 * mp + 2) / 5 + d - 1 in
  let doe := yoe * 365 + yoe / 4 - yoe / 100 + doy in
  i64 (i64 (i64 (era * 146097) + doe) - 719468).

(** [civil_from_days]: year, month, day. *)
Definition civil_from_days (z : Z) : Z * Z * Z :=
  let z := i64 (z + 719468) in
  let era := Z.quot (if 0 <=? z then z else i64 (z - 146096)) 146097 in
  let doe := z - era * 146097 in
  let yoe := (doe - doe / 1460 + doe / 36524 - doe / 146096) / 365 in
  let y := yoe + era * 400 in
  let doy := doe - (365 * yoe + yoe / 4 - yoe / 100) in
  let mp := (5 * doy + 2) / 153 in
  let d := doy - (153 * mp + 2) / 5 + 1 in
  let m := if mp <? 10 then mp + 3 else mp - 9 in
  (if m <=? 2 then y + 1 else y, m, d).

(** * Parsing and printing *)

(** [splitn(3, c)]: exactly three parts. *)
Definition split3 (c : ascii) (s : string) : option (string * string * string) :=
  a ← split_once c s;
  b ← split_once c a.2;
  Some (a.1, b.1, b.2).

(** [rfind(['+', '-'])] and [split_at]: the text before the last sign, the sign, the rest. *)
Fixpoint split_last_sign (s : string) : option (string * ascii * string) :=
  match s with
  | EmptyString => None
  | String c r =>
      match split_last_sign r with
      | Some (a, sign, b) => Some (String c a, sign, b)
      | None => if Ascii.eqb c "+" || Ascii.eqb c "-" then Some (EmptyString, c, r) else None
      end
  end.

Definition split_offset (time : string) : option (string * Z) :=
  match strip_suffix "Z" time with
  | Some t => Some (t, 0)
  | None =>
      parts ← split_last_sign time;
      let '(t, sign_char, offset) := parts in
      hm ← split_once ":" offset;
      oh ← parse_i64 hm.1;
      om ← parse_i64 hm.2;
      let sign := if Ascii.eqb sign_char "-" then -1 else 1 in
      Some (t, i64 (sign * i64 (i64 (oh * 3600) + i64 (om * 60))))
  end.

Definition MONTH_NAMES : list string := ["Jan"; "Feb"; "Mar"; "Apr"; "May"; "Jun"; "Jul"; "Aug"; "Sep"; "Oct"; "Nov"; "Dec"].

(** [{:02}] of a small natural number. *)
Definition two_digits (n : Z) : string := (if n <? 10 then "0" else EmptyString) +:+ show_int n.

(** The seconds since the epoch. *)
Definition total_seconds (days hour minute second offset_seconds : Z) : Z :=
  i64 (i64 (i64 (i64 (i64 (days * 86400) + i64 (hour * 3600)) + i64 (minute * 60)) + second) - offset_seconds).

Definition parse_rfc3339_utc (raw : string) : option string :=
  dt ← split_once "T" raw;
  ymd ← split3 "-" dt.1;
  let '(ys, ms, ds) := ymd in
  year ← parse_i64 ys;
  month ← parse_u32 ms;
  day ← parse_u32 ds;
  offset ← split_offset dt.2;
  hms ← split3 ":" (span (is_char ".") offset.1).1;
  let '(hs, mis, ss) := hms in
  hour ← parse_i64 hs;
  minute ← parse_i64 mis;
  second ← parse_i64 ss;
  let total := total_seconds (days_from_civil year month day) hour minute second offset.2 in
  let '(y, m, d) := civil_from_days (total / 86400) in
  let sec_of_day := total mod 86400 in
  name ← MONTH_NAMES !! Z.to_nat (m - 1);
  Some (name +:+ " " +:+ show_int d +:+ ", " +:+ show_int y +:+ ", " +:+ two_digits (sec_of_day / 3600) +:+ ":" +:+
        two_digits (sec_of_day mod 3600 / 60) +:+ ":" +:+ two_digits (sec_of_day mod 3600 mod 60) +:+ " UTC").

Definition format_rfc3339_human (raw : string) : string := default raw (parse_rfc3339_utc raw).

(** The cases of the tests, and a date that is not one. *)
Example format_examples :
  map format_rfc3339_human ["2026-08-10T10:17:56Z"; "2026-08-10T10:17:56.123456789Z"; "2026-08-11T01:17:56+07:00";
    "2026-08-10T22:17:56-07:00"; "not-a-date"; "2026-08-11T01:17:56+0700"; "2026-13-40T10:00:00Z"] =
  ["Aug 10, 2026, 10:17:56 UTC"; "Aug 10, 2026, 10:17:56 UTC"; "Aug 10, 2026, 18:17:56 UTC"; "Aug 11, 2026, 05:17:56 UTC";
   "not-a-date"; "2026-08-11T01:17:56+0700"; "Feb 9, 2027, 10:00:00 UTC"].
Proof. vm_compute. reflexivity. Qed.

(** * The calendar is the Gregorian one *)

Definition leap_year (y : Z) : bool := (y mod 4 =? 0) && (negb (y mod 100 =? 0) || (y mod 400 =? 0)).

(** The days of a month, given whether February has 29. *)
Definition month_length (leap : bool) (m : Z) : Z :=
  if m =? 2 then (if leap then 29 else 28)
  else if (m =? 4) || (m =? 6) || (m =? 9) || (m =? 11) then 30 else 31.

Definition valid_day (leap : bool) (m d : Z) : bool :=
  (1 <=? m) && (m <=? 12) && (1 <=? d) && (d <=? month_length leap m).

Definition valid_date (y m d : Z) : bool := valid_day (leap_year y) m d.

#[local] Ltac Zify.zify_post_hook ::= Z.to_euclidean_division_equations.

(** ** Years of a cycle of 400, which begin in March *)

Definition year_start (yoe : Z) : Z := 365 * yoe + yoe / 4 - yoe / 100.

Definition year_length (yoe : Z) : Z := if leap_year (yoe + 1) then 366 else 365.

(** The code's count of days without the leap days before. *)
Definition common_days (doe : Z) : Z := doe - doe / 1460 + doe / 36524 - doe / 146096.

(** [f] on [lo], [lo + 1], ..., [n] of them. *)
Fixpoint all_from (f : Z -> bool) (lo : Z) (n : nat) : bool :=
  match n with O => true | S n => f lo && all_from f (lo + 1) n end.

Lemma all_from_spec f n lo z : all_from f lo n = true -> lo <= z < lo + Z.of_nat n -> f z = true.
Proof.
  revert lo; induction n as [|n IH]; intros lo; [lia|].
  cbn [all_from]. intros [Hf Hr]%andb_prop Hz.
  destruct (decide (z = lo)) as [->|]; [done|]. apply (IH (lo + 1)); [done|lia].
Qed.

Lemma common_days_mono a b : 0 <= a <= b -> b < 146097 -> common_days a <= common_days b.
Proof.
  unfold common_days. intros Hab _.
  replace 146096 with (36524 * 4) by done. rewrite <- !Z.div_div by lia.
  Z.to_euclidean_division_equations; lia.
Qed.

Definition year_ok (yoe : Z) : bool :=
  (365 * yoe <=? common_days (year_start yoe)) &&
  (common_days (year_start yoe + year_length yoe - 1) <? 365 * (yoe + 1)) &&
  (0 <=? year_start yoe) && (year_start yoe + year_length yoe <=? 146097) &&
  ((yoe =? 399) || (year_start (yoe + 1) =? year_start yoe + year_length yoe)).

Lemma years_ok yoe : 0 <= yoe < 400 -> year_ok yoe = true.
Proof.
  assert (all_from year_ok 0 400 = true) by (vm_compute; reflexivity). intros ?. by eapply all_from_spec.
Qed.

(** The year the code computes is the one the day falls in. *)
Lemma year_of_day yoe doy : 0 <= yoe < 400 -> 0 <= doy < year_length yoe ->
  0 <= year_start yoe + doy < 146097 /\ common_days (year_start yoe + doy) / 365 = yoe.
Proof.
  intros Hy Hd. assert (Hok := years_ok yoe Hy). unfold year_ok in Hok.
  pose proof (common_days_mono (year_start yoe) (year_start yoe + doy)).
  pose proof (common_days_mono (year_start yoe + doy) (year_start yoe + year_length yoe - 1)).
  split; [lia|]. symmetry. apply Z.div_unique with (common_days (year_start yoe + doy) - 365 * yoe); lia.
Qed.

Lemma day_has_year_below n doe : (n <= 400)%nat -> 0 <= doe -> (0 < n)%nat ->
  doe < year_start (Z.of_nat n - 1) + year_length (Z.of_nat n - 1) ->
  exists yoe, 0 <= yoe < 400 /\ 0 <= doe - year_start yoe < year_length yoe.
Proof.
  intros Hn Hdoe. induction n as [|n IH]; [lia|]. intros _.
  replace (Z.of_nat (S n) - 1) with (Z.of_nat n) by lia. intros Hlt.
  destruct (decide (year_start (Z.of_nat n) <= doe)); [exists (Z.of_nat n); lia|].
  destruct n as [|n]; [change (year_start (Z.of_nat 0)) with 0 in *; lia|].
  apply IH; [lia|lia|].
  assert (Hok := years_ok (Z.of_nat n) ltac:(lia)). unfold year_ok in Hok.
  replace (Z.of_nat (S n) - 1) with (Z.of_nat n) by lia.
  replace (Z.of_nat (S n)) with (Z.of_nat n + 1) in * by lia. lia.
Qed.

Lemma day_has_year doe : 0 <= doe < 146097 ->
  exists yoe, 0 <= yoe < 400 /\ 0 <= doe - year_start yoe < year_length yoe.
Proof. intros [? Hlt]. apply (day_has_year_below 400); [done|lia|lia|exact Hlt]. Qed.

(** ** Months of such a year *)

Definition day_of_year (m d : Z) : Z := (153 * ((m + 9) mod 12) + 2) / 5 + d - 1.

Definition month_and_day (doy : Z) : Z * Z :=
  let mp := (5 * doy + 2) / 153 in
  (if mp <? 10 then mp + 3 else mp - 9, doy - (153 * mp + 2) / 5 + 1).

Lemma month_of_day (leap : bool) doy : 0 <= doy < (if leap then 366 else 365) ->
  exists m d, month_and_day doy = (m, d) /\ valid_day leap m d = true /\ day_of_year m d = doy.
Proof.
  intros Hd. exists (month_and_day doy).1, (month_and_day doy).2. split; [done|].
  assert (all_from (fun doy => valid_day leap (month_and_day doy).1 (month_and_day doy).2 &&
      (day_of_year (month_and_day doy).1 (month_and_day doy).2 =? doy)) 0 (if leap then 366 else 365) = true) as H
    by (destruct leap; vm_compute; reflexivity).
  apply (all_from_spec _ _ _ doy) in H; [|destruct leap; lia].
  apply andb_prop in H as [Hv He%Z.eqb_eq]. by split.
Qed.

Lemma day_of_month (leap : bool) m d : valid_day leap m d = true ->
  0 <= day_of_year m d < (if leap then 366 else 365) /\ month_and_day (day_of_year m d) = (m, d).
Proof.
  intros Hv.
  assert (all_from (fun m => all_from (fun d => negb (valid_day leap m d) ||
      ((0 <=? day_of_year m d) && (day_of_year m d <? (if leap then 366 else 365)) &&
       bool_decide (month_and_day (day_of_year m d) = (m, d)))) 1 31) 1 12 = true) as H
    by (destruct leap; vm_compute; reflexivity).
  assert (1 <= m <= 12 /\ 1 <= d <= 31) as Hb
    by (revert Hv; unfold valid_day, month_length; repeat case_match; lia).
  apply (all_from_spec _ _ _ m) in H; [|lia]. apply (all_from_spec _ _ _ d) in H; [|lia].
  cbv beta in H. rewrite Hv in H. apply andb_prop in H as [[?%Z.leb_le ?%Z.ltb_lt]%andb_prop He%bool_decide_eq_true]. by split.
Qed.

(** ** Cycles *)

Lemma leap_year_cycle y k : leap_year (y + k * 400) = leap_year y.
Proof.
  unfold leap_year.
  replace ((y + k * 400) mod 4) with (y mod 4) by lia.
  replace ((y + k * 400) mod 100) with (y mod 100) by lia.
  by replace ((y + k * 400) mod 400) with (y mod 400) by lia.
Qed.

(** A quotient rounded down, the way the code writes it. *)
Lemma floor_quot a c : 0 < c -> Z.quot (if 0 <=? a then a else a - (c - 1)) c = a / c.
Proof.
  intros Hc. case_match; [apply Z.quot_div_nonneg; lia|].
  apply Z.div_unique with (Z.rem (a - (c - 1)) c + (c - 1)).
  - left. pose proof (Z.rem_bound_neg_pos (a - (c - 1)) c). lia.
  - pose proof (Z.quot_rem (a - (c - 1)) c). lia.
Qed.

Lemma i64_small z : - 2 ^ 63 <= z < 2 ^ 63 -> i64 z = z.
Proof. apply i64_id. Qed.

(** Both directions without the wrapping. *)
Lemma days_from_civil_eq y m d : - 2 ^ 50 <= y <= 2 ^ 50 -> valid_date y m d = true ->
  let y' := if m <=? 2 then y - 1 else y in
  days_from_civil y m d = y' / 400 * 146097 + (year_start (y' mod 400) + day_of_year m d) - 719468.
Proof.
  intros Hy Hv y'. destruct (day_of_month _ _ _ Hv) as [Hdoy _].
  unfold days_from_civil. rewrite (i64_small (y - 1)) by lia. fold y'.
  assert (y - 1 <= y' <= y) as Hy' by (unfold y'; destruct (m <=? 2); lia). clearbody y'.
  rewrite (i64_small (y' - 399)) by lia. change 399 with (400 - 1). rewrite floor_quot by lia.
  rewrite (i64_small (y' / 400 * 400)) by lia.
  replace (y' - y' / 400 * 400) with (y' mod 400) by lia.
  rewrite (i64_small (y' mod 400)) by lia.
  assert (0 <= (153 * ((m + 9) mod 12) + 2) / 5 + d - 1 < 366) as Hd
    by (fold (day_of_year m d); destruct (leap_year y); lia).
  unfold year_start, day_of_year. set (doy := (153 * _ + 2) / 5 + d - 1) in *. clearbody doy.
  assert (0 <= y' mod 400 < 400) as Hr by lia. set (r := y' mod 400) in *. clearbody r.
  assert (- 2 ^ 43 <= y' / 400 <= 2 ^ 43) as He by lia. set (e := y' / 400) in *. clearbody e.
  rewrite (i64_small (e * 146097)) by lia.
  rewrite (i64_small (e * 146097 + _)) by lia. rewrite i64_small by lia. lia.
Qed.

Lemma civil_from_days_eq z : - 2 ^ 62 <= z <= 2 ^ 62 ->
  let era := (z + 719468) / 146097 in
  let doe := (z + 719468) mod 146097 in
  let yoe := common_days doe / 365 in
  let '(m, d) := month_and_day (doe - year_start yoe) in
  civil_from_days z = (if m <=? 2 then yoe + era * 400 + 1 else yoe + era * 400, m, d).
Proof.
  intros Hz era doe yoe. unfold civil_from_days. rewrite (i64_small (z + 719468)) by lia.
  rewrite (i64_small (z + 719468 - 146096)) by lia.
  assert (Z.quot (if 0 <=? z + 719468 then z + 719468 else z + 719468 - 146096) 146097 = era) as ->
    by (apply (floor_quot _ 146097); lia).
  cbv zeta. replace (z + 719468 - era * 146097) with doe by (unfold doe, era; lia).
  reflexivity.
Qed.

(** The March-based year of a date and its day number. *)
Lemma march_year yoe era m : 0 <= yoe < 400 ->
  let y := if m <=? 2 then yoe + era * 400 + 1 else yoe + era * 400 in
  (if m <=? 2 then y - 1 else y) / 400 = era /\ (if m <=? 2 then y - 1 else y) mod 400 = yoe.
Proof.
  intros Hy. destruct (m <=? 2); cbv zeta; [replace (yoe + era * 400 + 1 - 1) with (yoe + era * 400) by lia|];
    split; lia.
Qed.

(** The rule for leap years as the code's calendar sees it: the year that ends in February. *)
Lemma valid_date_march yoe era m d : valid_day (leap_year (yoe + 1)) m d = true ->
  valid_date (if m <=? 2 then yoe + era * 400 + 1 else yoe + era * 400) m d = true.
Proof.
  unfold valid_date. destruct (m <=? 2) eqn:Hm.
  - by replace (yoe + era * 400 + 1) with (yoe + 1 + era * 400) by lia; rewrite leap_year_cycle.
  - unfold valid_day, month_length. assert (m =? 2 = false) as -> by lia. done.
Qed.

Lemma valid_day_march y m d : valid_date y m d = true ->
  valid_day (leap_year ((if m <=? 2 then y - 1 else y) + 1)) m d = true.
Proof.
  unfold valid_date. destruct (m <=? 2) eqn:Hm.
  - by replace (y - 1 + 1) with y by lia.
  - unfold valid_day, month_length. assert (m =? 2 = false) as -> by lia. done.
Qed.

Lemma civil_then_days z : - 2 ^ 58 <= z <= 2 ^ 58 ->
  exists y m d, civil_from_days z = (y, m, d) /\ valid_date y m d = true /\ days_from_civil y m d = z.
Proof.
  intros Hz. assert (Hc := civil_from_days_eq z ltac:(lia)). cbv zeta in Hc.
  set (doe := (z + 719468) mod 146097) in *. set (era := (z + 719468) / 146097) in *.
  destruct (day_has_year doe) as (yoe & Hyoe & Hdoy); [unfold doe; lia|].
  destruct (year_of_day yoe _ Hyoe Hdoy) as [_ Hy].
  replace (year_start yoe + (doe - year_start yoe)) with doe in Hy by lia. rewrite Hy in Hc.
  destruct (month_of_day (leap_year (yoe + 1)) _ Hdoy) as (m & d & Hmd & Hv & Hday).
  rewrite Hmd in Hc. assert (Hd := valid_date_march yoe era m d Hv).
  do 3 eexists. split; [exact Hc|split; [exact Hd|]].
  rewrite days_from_civil_eq; [|unfold era; destruct (m <=? 2); lia|done]. cbv zeta.
  destruct (march_year yoe era m Hyoe) as [-> ->]. rewrite Hday. unfold doe, era. lia.
Qed.

Lemma days_then_civil y m d : - 2 ^ 50 <= y <= 2 ^ 50 -> valid_date y m d = true ->
  civil_from_days (days_from_civil y m d) = (y, m, d).
Proof.
  intros Hy Hv. rewrite days_from_civil_eq by done. cbv zeta.
  assert (Hv' := valid_day_march y m d Hv). set (y' := if m <=? 2 then y - 1 else y) in *.
  assert (y - 1 <= y' <= y) by (unfold y'; destruct (m <=? 2); lia).
  assert (0 <= y' mod 400 < 400) as Hr by lia.
  assert (leap_year (y' + 1) = leap_year (y' mod 400 + 1)) as Hl.
  { rewrite <- (leap_year_cycle (y' mod 400 + 1) (y' / 400)). f_equal. lia. }
  rewrite Hl in Hv'. destruct (day_of_month _ _ _ Hv') as [Hdoy Hmd].
  destruct (year_of_day _ _ Hr Hdoy) as [Hdoe Hyear].
  set (doe := year_start (y' mod 400) + day_of_year m d) in *.
  assert (Hc := civil_from_days_eq (y' / 400 * 146097 + doe - 719468) ltac:(lia)). cbv zeta in Hc.
  replace ((y' / 400 * 146097 + doe - 719468 + 719468) mod 146097) with doe in Hc by lia.
  replace ((y' / 400 * 146097 + doe - 719468 + 719468) / 146097) with (y' / 400) in Hc by lia.
  rewrite Hyear in Hc. replace (doe - year_start (y' mod 400)) with (day_of_year m d) in Hc by (unfold doe; lia).
  rewrite Hmd in Hc. rewrite Hc. unfold y'. destruct (m <=? 2); do 2 f_equal; lia.
Qed.

(** The calendar arithmetic of the printer is the Gregorian calendar: every day number
    is a date that exists (months of the right length, leap years by the rule of 4, 100 and
    400) and gives the number back; every date that exists is found again from its number.
    So distinct days print as distinct dates. *)
Theorem calendar_roundtrip :
  (forall z, - 2 ^ 58 <= z <= 2 ^ 58 ->
     exists y m d, civil_from_days z = (y, m, d) /\ valid_date y m d = true /\ days_from_civil y m d = z) /\
  (forall y m d, - 2 ^ 50 <= y <= 2 ^ 50 -> valid_date y m d = true ->
     civil_from_days (days_from_civil y m d) = (y, m, d)).
Proof. split; [apply civil_then_days|apply days_then_civil]. Qed.

Lemma calendar_roundtrip_witness :
  exists y m d, civil_from_days 11016 = (y, m, d) /\ valid_date y m d = true /\ days_from_civil y m d = 11016.
Proof. apply (proj1 calendar_roundtrip 11016). lia. Defined.
