(* ===== verification/Json.v ===== *)
(** JSON documents as the program sees them: [serde_json::Value], the canonical
    form its [BTreeMap]-backed objects keep, and the readers that serde derives
    from a struct's field attributes ([serde(default)], [Option] fields,
    [null_as_default], ignored unknown keys, refused duplicate keys, and the
    positional array form).

    The text level ([serde_json::to_vec] / [from_slice]) is third-party code; it
    enters as the class [JsonText]. *)

From stdpp Require Import base gmap strings list countable.
From Stdlib Require Import ZArith Lia Strings.Byte Sorting.Sorted.
From S2P Require Import Prelude.

(** * Values *)

(** A [serde_json::Number]: an integer ([u64] or [i64]) or an opaque float. *)
Inductive number : Type :=
| NInt (z : Z)
| NFloat (repr : string).

(** [serde_json::Value]; an object is its entries in iteration order. *)
Inductive value : Type :=
| Null
| Bool (b : bool)
| Number (n : number)
| Str (s : string)
| Array (l : list value)
| Object (l : list (string * value)).

#[global] Instance number_eq_dec : EqDecision number.
Proof. solve_decision. Defined.

(** Induction with the hypothesis for the values nested in arrays and objects. *)
Section value_ind.
Variable P : value -> Prop.
Hypothesis P_null : P Null.
Hypothesis P_bool : forall b, P (Bool b).
Hypothesis P_number : forall n, P (Number n).
Hypothesis P_str : forall s, P (Str s).
Hypothesis P_array : forall l, Forall P l -> P (Array l).
Hypothesis P_object : forall l, Forall (fun kv => P kv.2) l -> P (Object l).

Fixpoint value_ind' (v : value) : P v :=
  match v with
  | Null => P_null
  | Bool b => P_bool b
  | Number n => P_number n
  | Str s => P_str s
  | Array l =>
      P_array l ((fix go l : Forall P l :=
        match l with [] => Forall_nil_2 _ | x :: r => Forall_cons_2 _ _ _ (value_ind' x) (go r) end) l)
  | Object l =>
      P_object l ((fix go l : Forall (fun kv => P kv.2) l :=
        match l with
        | [] => Forall_nil_2 _
        | x :: r => Forall_cons_2 _ _ _ (value_ind' x.2) (go r)
        end) l)
  end.
End value_ind.

#[global] Instance value_eq_dec : EqDecision value.
Proof.
  refine (fix go v w : Decision (v = w) :=
    let _ : EqDecision value := @go in
    match v, w with
    | Null, Null => left _
    | Bool a, Bool b => cast_if (decide (a = b))
    | Number a, Number b => cast_if (decide (a = b))
    | Str a, Str b => cast_if (decide (a = b))
    | Array a, Array b => cast_if (decide (a = b))
    | Object a, Object b => cast_if (decide (a = b))
    | _, _ => right _
    end); abstract congruence.
Defined.

(** An integer as a JSON number. *)
Definition int (z : Z) : value := Number (NInt z).

(** An entry that is skipped when there is nothing to write. *)
Definition entry_some {A} (k : string) (f : A -> value) (o : option A) : list (string * value) := match o with Some x => [(k, f x)] | None => [] end.

(** * Objects *)

Definition is_null (v : value) : bool := match v with Null => true | _ => false end.

Definition as_object (v : value) : option (list (string * value)) :=
  match v with Object l => Some l | _ => None end.

Definition as_str (v : value) : option string :=
  match v with Str s => Some s | _ => None end.

Fixpoint obj_get (k : string) (l : list (string * value)) : option value :=
  match l with
  | [] => None
  | (k', v) :: r => if String.eqb k k' then Some v else obj_get k r
  end.

(** [Value::get] with a key, and the other readings. *)
Definition get_key (k : string) (v : value) : option value := match as_object v with Some o => obj_get k o | None => None end.

Definition as_array (v : value) : option (list value) := match v with Array l => Some l | _ => None end.
Definition as_bool (v : value) : option bool := match v with Bool b => Some b | _ => None end.
Definition as_i64 (v : value) : option Z :=
  match v with Number (NInt z) => if bool_decide (in_i64 z) then Some z else None | _ => None end.
Definition number_as_u64 (v : value) : option Z :=
  match v with Number (NInt z) => if 0 <=? z then Some z else None | _ => None end.

(** [BTreeMap::insert]: the entries stay sorted by key, bytewise. *)
Fixpoint obj_insert (k : string) (v : value) (l : list (string * value)) : list (string * value) :=
  match l with
  | [] => [(k, v)]
  | (k', v') :: r =>
      if String.eqb k k' then (k, v) :: r
      else if String.ltb k k' then (k, v) :: (k', v') :: r
      else (k', v') :: obj_insert k v r
  end.

Lemma obj_get_insert k k' v l : obj_get k (obj_insert k' v l) = if String.eqb k k' then Some v else obj_get k l.
Proof.
  induction l as [|[k0 v0] l IH]; simpl; [done|]. destruct (String.eqb_spec k' k0) as [->|Hne].
  - simpl. by destruct (String.eqb k k0).
  - destruct (String.ltb k' k0); simpl; [done|]. rewrite IH. destruct (String.eqb_spec k k0) as [->|]; [|done].
    by destruct (String.eqb_spec k0 k') as [->|].
Qed.

(** What [Value]'s own deserializer keeps of a parsed document: each object is
    collected into a [BTreeMap], so keys end up sorted and the last duplicate wins. *)
Fixpoint normalize (v : value) : value :=
  match v with
  | Array l => Array (map normalize l)
  | Object l => Object (fold_left (fun acc kv => obj_insert kv.1 (normalize kv.2) acc) l [])
  | _ => v
  end.

Definition key_lt (p q : string * value) : Prop := String.ltb p.1 q.1 = true.

(** The values a [Value] can hold: object keys strictly increasing, throughout. *)
Inductive canonical : value -> Prop :=
| canonical_null : canonical Null
| canonical_bool b : canonical (Bool b)
| canonical_number n : canonical (Number n)
| canonical_str s : canonical (Str s)
| canonical_array l : Forall canonical l -> canonical (Array l)
| canonical_object l :
    StronglySorted key_lt l -> Forall (fun kv => canonical kv.2) l -> canonical (Object l).

(** What the text level carries faithfully: integers of [u64] or [i64], and no
    more than 127 nested containers ([serde_json]'s recursion limit of 128). Floats are
    not among it: without its feature [float_roundtrip], which [Cargo.toml] does not
    ask for, [serde_json] reads them only nearly as they were written. *)
Definition number_fits (n : number) : bool :=
  match n with NInt z => (- 2 ^ 63 <=? z) && (z <? 2 ^ 64) | NFloat _ => false end.

Fixpoint fits (d : nat) (v : value) : bool :=
  match v with
  | Number n => number_fits n
  | Array l => match d with O => false | S d => forallb (fits d) l end
  | Object l => match d with O => false | S d => forallb (fun kv => fits d kv.2) l end
  | _ => true
  end.

Definition max_nesting : nat := 127.

Lemma ltb_irrefl s : String.ltb s s = false.
Proof.
  unfold String.ltb. pose proof (String.compare_antisym s s) as H.
  by destruct (String.compare s s).
Qed.

Lemma ltb_asym s t : String.ltb s t = true -> String.ltb t s = false.
Proof.
  unfold String.ltb. rewrite (String.compare_antisym t s).
  by destruct (String.compare s t).
Qed.

Lemma ltb_neq s t : String.ltb s t = true -> s <> t.
Proof. intros H ->. by rewrite ltb_irrefl in H. Qed.

(** Inserting a key above all present ones appends it. *)
Lemma obj_insert_last k v l :
  Forall (fun p => String.ltb p.1 k = true) l -> obj_insert k v l = l ++ [(k, v)].
Proof.
  induction 1 as [|[k' v'] l Hlt _ IH]; simpl in *; [done|].
  rewrite (proj2 (String.eqb_neq k k')) by (intros ->; by rewrite ltb_irrefl in Hlt).
  by rewrite (ltb_asym _ _ Hlt), IH.
Qed.

Lemma fold_insert_sorted (l acc : list (string * value)) :
  StronglySorted key_lt (acc ++ l) -> Forall (fun kv => normalize kv.2 = kv.2) l ->
  fold_left (fun acc kv => obj_insert kv.1 (normalize kv.2) acc) l acc = acc ++ l.
Proof.
  intros Hs Hn. revert acc Hs. induction Hn as [|[k v] l Hv _ IH]; intros acc Hs; simpl in *.
  { by rewrite app_nil_r. }
  rewrite Hv, obj_insert_last.
  - rewrite IH by (by rewrite <- app_assoc). by rewrite <- app_assoc.
  - clear -Hs. induction acc as [|a acc IH]; [done|]. simpl in Hs.
    apply StronglySorted_inv in Hs as [Hs Ha]. constructor; [|auto].
    rewrite Forall_app in Ha. by destruct Ha as [_ ?%Forall_cons_1%proj1].
Qed.

(** A canonical value survives the trip through a parsed document unchanged. *)
Lemma normalize_canonical v : canonical v -> normalize v = v.
Proof.
  induction v as [ | | | |l IH|l IH] using value_ind'; intros Hc; inversion Hc; subst; simpl; try done.
  - f_equal. apply map_id_Forall. eapply Forall_impl2; [exact IH|eassumption|]. auto.
  - f_equal. rewrite fold_insert_sorted; [done|done|].
    eapply Forall_impl2; [exact IH|eassumption|]. auto.
Qed.

(** * The text level *)

(** [serde_json]'s writer and parser on byte strings, as documented: parsing a
    serialized document gives that document back, when its numbers are integers that
    fit and it is not nested too deeply. *)
Class JsonText : Type := {
  to_vec : value -> bytes;
  from_slice : bytes -> option value;
  from_slice_to_vec : forall v, fits max_nesting v = true -> from_slice (to_vec v) = Some v
}.

(** [serde_json::to_string_pretty]: another text of the same document. *)
Class JsonPretty `{JsonText} : Type := {
  to_vec_pretty : value -> bytes;
  from_slice_pretty : forall v, fits max_nesting v = true -> from_slice (to_vec_pretty v) = Some v
}.

(** The standard-base64 engine ([base64::engine::general_purpose::STANDARD]). *)
Class Base64 : Type := {
  b64_encode : bytes -> string;
  b64_decode : string -> option bytes;
  b64_decode_encode : forall b, b64_decode (b64_encode b) = Some b
}.

(** * Derived struct readers *)

(** The input of a derived struct deserializer: a JSON object, or an array read
    position by position. *)
Inductive fields : Type :=
| FMap (l : list (string * value))
| FSeq (l : list value).

Fixpoint count_key (k : string) (l : list (string * value)) : nat :=
  match l with
  | [] => 0
  | (k', _) :: r => if String.eqb k k' then S (count_key k r) else count_key k r
  end.

(** Open a struct with the given field names: a known key twice is
    [duplicate field], more positions than fields are trailing elements. *)
Definition read_struct (names : list string) (v : value) : option fields :=
  match v with
  | Object l => if forallb (fun k => Nat.leb (count_key k l) 1) names then Some (FMap l) else None
  | Array l => if Nat.leb (length l) (length names) then Some (FSeq l) else None
  | _ => None
  end.

Definition field_at (f : fields) (k : string) (i : nat) : option value :=
  match f with FMap l => obj_get k l | FSeq l => l !! i end.

Definition is_seq (f : fields) : bool := match f with FSeq _ => true | FMap _ => false end.

(** A plain field: it must be there. *)
Definition req {T} (read : value -> option T) (f : fields) (k : string) (i : nat) : option T :=
  match field_at f k i with Some v => read v | None => None end.

(** A [serde(default)] field. *)
Definition dflt {T} (d : T) (read : value -> option T) (f : fields) (k : string) (i : nat) : option T :=
  match field_at f k i with Some v => read v | None => Some d end.

(** [Option<T>]: [null] is [None]. *)
Definition read_option {T} (read : value -> option T) (v : value) : option (option T) :=
  match v with Null => Some None | _ => match read v with Some x => Some (Some x) | None => None end end.

(** An [Option] field with no attribute: a missing key is [None], a missing
    position is an error. *)
Definition opt {T} (read : value -> option T) (f : fields) (k : string) (i : nat) : option (option T) :=
  match field_at f k i with
  | Some v => read_option read v
  | None => if is_seq f then None else Some None
  end.

Definition read_string (v : value) : option string := as_str v.
Definition read_bool (v : value) : option bool := match v with Bool b => Some b | _ => None end.
Definition read_int (lo hi : Z) (v : value) : option Z :=
  match v with
  | Number (NInt z) => if (lo <=? z) && (z <? hi) then Some z else None
  | _ => None
  end.
Definition read_u64 : value -> option Z := read_int 0 (2 ^ 64).
Definition read_i64 : value -> option Z := read_int (- 2 ^ 63) (2 ^ 63).
Definition read_i32 : value -> option Z := read_int (- 2 ^ 31) (2 ^ 31).
Definition read_list {T} (read : value -> option T) (v : value) : option (list T) :=
  match v with Array l => mapM read l | _ => None end.
(** A [serde_json::Value] field. *)
Definition read_value (v : value) : option value := Some (normalize v).

(** [null_as_default]: [null] and a missing key both give the default. *)
Definition read_null_default {T} (d : T) (read : value -> option T) (v : value) : option T :=
  match read_option read v with Some (Some x) => Some x | Some None => Some d | None => None end.

Lemma read_null_default_some {T} (d : T) (read : value -> option T) v x :
  read v = Some x -> v <> Null -> read_null_default d read v = Some x.
Proof. intros Hr Hn. unfold read_null_default. destruct v; simpl; by rewrite ?Hr. Qed.

Lemma read_int_ok lo hi z : lo <= z < hi -> read_int lo hi (int z) = Some z.
Proof.
  intros [? ?]. unfold read_int, int.
  by rewrite (proj2 (Z.leb_le lo z)), (proj2 (Z.ltb_lt z hi)) by done.
Qed.
Lemma read_u64_ok z : in_u64 z -> read_u64 (int z) = Some z.
Proof. apply read_int_ok. Qed.
Lemma read_i64_ok z : in_i64 z -> read_i64 (int z) = Some z.
Proof. apply read_int_ok. Qed.
Lemma read_i32_ok z : in_i32 z -> read_i32 (int z) = Some z.
Proof. apply read_int_ok. Qed.

Lemma read_list_ok {T} (read : value -> option T) (write : T -> value) l :
  Forall (fun x => read (write x) = Some x) l -> read_list read (Array (map write l)) = Some l.
Proof. simpl. induction 1 as [|x l Hx _ IH]; simpl; [done|]. by rewrite Hx; simpl; rewrite IH. Qed.

Lemma read_option_some {T} (read : value -> option T) v x :
  v <> Null -> read v = Some x -> read_option read v = Some (Some x).
Proof. intros Hn Hr. destruct v; simpl; by rewrite ?Hr. Qed.

#[global] Arguments read_int : simpl never.
#[global] Arguments read_u64 : simpl never.
#[global] Arguments read_i64 : simpl never.
#[global] Arguments read_i32 : simpl never.
#[global] Arguments read_list : simpl never.
#[global] Arguments read_value : simpl never.
#[global] Arguments int : simpl never.

(** * A concrete text level *)

(** An instance of both classes, so that the theorems that assume them can be
    exhibited at work: a document is written as the bits of its code number. *)
Fixpoint value_to_tree (v : value) : gen_tree (bool + (Z + (string + string))) :=
  match v with
  | Null => GenNode 0 []
  | Bool b => GenLeaf (inl b)
  | Number (NInt z) => GenLeaf (inr (inl z))
  | Number (NFloat s) => GenLeaf (inr (inr (inl s)))
  | Str s => GenLeaf (inr (inr (inr s)))
  | Array l => GenNode 1 (map value_to_tree l)
  | Object l => GenNode 2 (map (fun kv => GenNode 3 [GenLeaf (inr (inr (inr kv.1))); value_to_tree kv.2]) l)
  end.

Fixpoint value_of_tree (t : gen_tree (bool + (Z + (string + string)))) : value :=
  match t with
  | GenLeaf (inl b) => Bool b
  | GenLeaf (inr (inl z)) => Number (NInt z)
  | GenLeaf (inr (inr (inl s))) => Number (NFloat s)
  | GenLeaf (inr (inr (inr s))) => Str s
  | GenNode 1 l => Array (map value_of_tree l)
  | GenNode 2 l =>
      Object (map (fun t => match t with
                            | GenNode _ [GenLeaf (inr (inr (inr k))); t'] => (k, value_of_tree t')
                            | _ => (EmptyString, Null)
                            end) l)
  | GenNode _ _ => Null
  end.

Lemma value_of_to_tree v : value_of_tree (value_to_tree v) = v.
Proof.
  induction v as [ | |[]| |l IH|l IH] using value_ind'; simpl; try done; f_equal;
    rewrite map_map; apply map_id_Forall; eapply Forall_impl; try exact IH; simpl.
  - done.
  - intros [k v] Hv. simpl in *. by rewrite Hv.
Qed.

#[global] Instance value_countable : Countable value :=
  inj_countable' value_to_tree value_of_tree value_of_to_tree.

Fixpoint bits_of_pos (p : positive) : bytes :=
  match p with xH => [] | xO p => Byte.x00 :: bits_of_pos p | xI p => Byte.x01 :: bits_of_pos p end.
Fixpoint pos_of_bits (b : bytes) : positive :=
  match b with [] => xH | Byte.x00 :: b => xO (pos_of_bits b) | _ :: b => xI (pos_of_bits b) end.

Lemma pos_of_bits_of_pos p : pos_of_bits (bits_of_pos p) = p.
Proof. induction p; simpl; congruence. Qed.

Program Definition bits_json_text : JsonText := {|
  to_vec v := bits_of_pos (encode v);
  from_slice b := decode (pos_of_bits b)
|}.
Next Obligation. intros v _. simpl. by rewrite pos_of_bits_of_pos, decode_encode. Qed.

Definition bits_json_pretty : @JsonPretty bits_json_text :=
  @Build_JsonPretty bits_json_text (@to_vec bits_json_text) (@from_slice_to_vec bits_json_text).

Program Definition raw_base64 : Base64 := {|
  b64_encode := of_bytes;
  b64_decode s := Some (as_bytes s)
|}.
Next Obligation. intros b. simpl. by rewrite as_bytes_of_bytes. Qed.
