(* ===== verification/JsonNormal.v ===== *)
(** Sorted objects: the order of keys; collecting the entries of an object into a sorted
    map gives a canonical value, keeps what the text level carries, and keeps what a struct
    reads from an object whose fields occur at most once. *)

From stdpp Require Import base strings list.
From Stdlib Require Import ZArith Lia Ascii Sorting.Sorted.
From S2P Require Import Prelude Json.

(** * The order of strings *)

Lemma ascii_compare_eq a b : Ascii.compare a b = Eq -> a = b.
Proof. unfold Ascii.compare. intros He%N.compare_eq_iff. by rewrite <- (ascii_N_embedding a), He, ascii_N_embedding. Qed.

Lemma string_compare_refl s : String.compare s s = Eq.
Proof. induction s as [|c s IH]; [done|]. simpl. unfold Ascii.compare. by rewrite N.compare_refl. Qed.

Lemma string_compare_eq s t : String.compare s t = Eq -> s = t.
Proof.
  revert t. induction s as [|c s IH]; intros [|d t]; simpl; try done. destruct (Ascii.compare c d) eqn:E; try done.
  apply ascii_compare_eq in E as ->. by intros ->%IH.
Qed.

Lemma string_compare_trans s t u : String.compare s t = Lt -> String.compare t u = Lt -> String.compare s u = Lt.
Proof.
  revert t u. induction s as [|c s IH]; intros [|d t] [|e u]; simpl; try done.
  destruct (Ascii.compare c d) eqn:E1; [|intros _|done]; (destruct (Ascii.compare d e) eqn:E2; [|intros Hx|done]).
  - apply ascii_compare_eq in E1 as ->. rewrite E2. apply IH.
  - apply ascii_compare_eq in E1 as ->. by rewrite E2.
  - apply ascii_compare_eq in E2 as <-. by rewrite E1.
  - unfold Ascii.compare in *. rewrite N.compare_lt_iff in E1, E2. assert (N_of_ascii c < N_of_ascii e)%N as ->%N.compare_lt_iff by lia. done.
Qed.

Lemma string_compare_antisym s t : String.compare s t = Gt -> String.compare t s = Lt.
Proof. intros Hg. rewrite String.compare_antisym, Hg. done. Qed.

Lemma ltb_trans a b c : String.ltb a b = true -> String.ltb b c = true -> String.ltb a c = true.
Proof.
  unfold String.ltb. intros Ha Hb. destruct (String.compare a b) eqn:E1; try done. destruct (String.compare b c) eqn:E2; try done.
  by rewrite (string_compare_trans _ _ _ E1 E2).
Qed.

(** Two different keys are in order one way or the other. *)
Lemma ltb_total a b : a <> b -> String.ltb a b = false -> String.ltb b a = true.
Proof.
  unfold String.ltb. intros Hne. destruct (String.compare a b) eqn:E; try done; [by apply string_compare_eq in E|].
  by rewrite (string_compare_antisym _ _ E).
Qed.

(** * Insertion *)

Lemma obj_insert_head k v l p : key_lt p (k, v) -> Forall (key_lt p) l -> Forall (key_lt p) (obj_insert k v l).
Proof.
  intros Hp. induction 1 as [|[k' v'] l Hk Hl IH]; simpl; [by constructor|].
  destruct (String.eqb k k'); [by constructor|]. destruct (String.ltb k k'); constructor; auto.
Qed.

Lemma obj_insert_sorted k v l : StronglySorted key_lt l -> StronglySorted key_lt (obj_insert k v l).
Proof.
  induction 1 as [|[k' v'] l Hs IH Hf]; simpl; [repeat constructor|].
  destruct (String.eqb_spec k k') as [->|Hne]; [by constructor|]. destruct (String.ltb k k') eqn:E.
  - constructor; [by constructor|]. constructor; [done|]. eapply Forall_impl; [exact Hf|]. intros [k0 v0] Hlt. by eapply ltb_trans.
  - constructor; [done|]. apply obj_insert_head; [|done]. unfold key_lt. simpl. by apply ltb_total.
Qed.

Lemma obj_insert_Forall (P : string * value -> Prop) k v l : P (k, v) -> Forall P l -> Forall P (obj_insert k v l).
Proof.
  intros Hp. induction 1 as [|[k' v'] l Hk Hl IH]; simpl; [by constructor|].
  destruct (String.eqb k k'); [by constructor|]. destruct (String.ltb k k'); repeat constructor; auto.
Qed.

Lemma fits_entries d l : fits (S d) (Object l) = true <-> Forall (fun kv => fits d kv.2 = true) l.
Proof. simpl. by rewrite Forall_forall, forallb_forall; setoid_rewrite list_elem_of_In. Qed.

Lemma fits_insert d k v l : fits d v = true -> fits (S d) (Object l) = true -> fits (S d) (Object (obj_insert k v l)) = true.
Proof. rewrite !fits_entries. intros Hv Hl. by apply obj_insert_Forall. Qed.

(** * Normal forms *)

Definition collect (l : list (string * value)) (acc : list (string * value)) : list (string * value) :=
  fold_left (fun acc kv => obj_insert kv.1 (normalize kv.2) acc) l acc.

Lemma collect_canonical l : Forall (fun kv => canonical (normalize kv.2)) l -> forall acc,
  StronglySorted key_lt acc /\ Forall (fun kv => canonical kv.2) acc ->
  StronglySorted key_lt (collect l acc) /\ Forall (fun kv => canonical kv.2) (collect l acc).
Proof.
  induction 1 as [|[k v] l Hv _ IH]; intros acc [Hs Hc]; simpl; [done|]. apply IH. split; [by apply obj_insert_sorted|by apply obj_insert_Forall].
Qed.

Lemma normalize_is_canonical v : canonical (normalize v).
Proof.
  induction v as [ | | | |l IH|l IH] using value_ind'; simpl; try constructor.
  - by apply Forall_map.
  - apply (collect_canonical l IH []). split; constructor.
  - apply (collect_canonical l IH []). split; constructor.
Qed.

Lemma normalize_fits v : forall d, fits d v = true -> fits d (normalize v) = true.
Proof.
  induction v as [ | | | |l IH|l IH] using value_ind'; intros [|d] Hd; try done.
  - simpl in *. rewrite forallb_forall in *. intros x [y [<- Hy]]%in_map_iff. rewrite Forall_forall in IH. apply IH; [by apply list_elem_of_In|by apply Hd].
  - apply fits_entries in Hd. change (fits (S d) (Object (collect l [])) = true). apply fits_entries.
    assert (Hacc : Forall (fun kv : string * value => fits d kv.2 = true) []) by constructor. revert Hacc. generalize (@nil (string * value)).
    induction IH as [|[k v] l Hv _ IHl]; intros acc Hacc; [done|]. simpl. apply Forall_cons in Hd as [Hdv Hdl].
    apply IHl; [done|]. apply obj_insert_Forall; [by apply Hv|done].
Qed.

Lemma count_lt k l : Forall (fun p => String.ltb k p.1 = true) l -> count_key k l = 0%nat.
Proof.
  induction 1 as [|[k' v'] l Hk _ IH]; simpl in *; [done|]. rewrite (proj2 (String.eqb_neq k k')); [done|]. by apply ltb_neq.
Qed.

(** A sorted object has no key twice. *)
Lemma count_sorted k l : StronglySorted key_lt l -> (count_key k l <= 1)%nat.
Proof.
  induction 1 as [|[k' v'] l _ IH Hf]; simpl; [lia|]. destruct (String.eqb_spec k k') as [->|]; [|done].
  rewrite count_lt; [lia|]. exact Hf.
Qed.

Lemma obj_get_absent k l : count_key k l = 0%nat -> obj_get k l = None.
Proof. induction l as [|[k' v'] l IH]; simpl; [done|]. by destruct (String.eqb k k'). Qed.

(** A key that occurs at most once is found again, its value in normal form. *)
Lemma obj_get_collect k l : forall acc, (count_key k l <= 1)%nat ->
  obj_get k (collect l acc) = match obj_get k l with Some v => Some (normalize v) | None => obj_get k acc end.
Proof.
  induction l as [|[k' v'] l IH]; intros acc Hc; simpl in *; [done|].
  destruct (String.eqb_spec k k') as [->|Hne]; rewrite IH, ?obj_get_insert by lia.
  - rewrite String.eqb_refl, obj_get_absent by lia. done.
  - by rewrite (proj2 (String.eqb_neq k k')).
Qed.
