(* ===== verification/Frame.v ===== *)
(** Tunnel frames ([extend-proxy-client/src/protocol]: [frame.rs], [error.rs],
    [constants.rs]): the frame union, its constructors, and the protocol
    invariants that [Frame::validate] checks on every decoded frame. *)

From stdpp Require Import base gmap strings list.
From Stdlib Require Import ZArith Lia Strings.Byte.
From S2P Require Import Prelude Json.

(** * Constants *)

Definition MAX_FRAME_SIZE_BYTES : Z := 64 * 1024.
Definition OUTBOUND_CHANNEL_CAPACITY : nat := 128.
Definition PROTOCOL_VERSION : Z := 1.
(** Milliseconds. *)
Definition SESSION_INIT_TIMEOUT : Z := 15 * 1000.

Definition PORT_NOT_ALLOWED : string := "port_not_allowed".
Definition NO_LOCAL_LISTENER : string := "no_local_listener".
Definition LOCAL_READ_ERROR : string := "local_read_error".
Definition LOCAL_WRITE_ERROR : string := "local_write_error".
Definition STREAM_UNKNOWN : string := "stream_unknown".
Definition INVALID_STREAM_ID : string := "invalid_stream_id".
Definition STREAM_ID_CONFLICT : string := "stream_id_conflict".

(** * Frame types *)

Inductive FrameType : Type :=
| TSessionInit | TSessionAck | TOpen | TOpenAck | TNack | TData | TFin | TRst
| TPing | TPong | TCmd | TCmdResponse
| TUnknown (s : string).

#[global] Instance FrameType_eq_dec : EqDecision FrameType.
Proof. solve_decision. Defined.

Definition as_wire_str (t : FrameType) : string :=
  match t with
  | TSessionInit => "SESSION_INIT"
  | TSessionAck => "SESSION_ACK"
  | TOpen => "OPEN"
  | TOpenAck => "OPEN_ACK"
  | TNack => "NACK"
  | TData => "DATA"
  | TFin => "FIN"
  | TRst => "RST"
  | TPing => "PING"
  | TPong => "PONG"
  | TCmd => "CMD"
  | TCmdResponse => "CMD_RESPONSE"
  | TUnknown s => s
  end.

Definition from_wire_str (s : string) : FrameType :=
  if String.eqb s "SESSION_INIT" then TSessionInit
  else if String.eqb s "SESSION_ACK" then TSessionAck
  else if String.eqb s "OPEN" then TOpen
  else if String.eqb s "OPEN_ACK" then TOpenAck
  else if String.eqb s "NACK" then TNack
  else if String.eqb s "DATA" then TData
  else if String.eqb s "FIN" then TFin
  else if String.eqb s "RST" then TRst
  else if String.eqb s "PING" then TPing
  else if String.eqb s "PONG" then TPong
  else if String.eqb s "CMD" then TCmd
  else if String.eqb s "CMD_RESPONSE" then TCmdResponse
  else TUnknown s.

(** * Payloads and frames *)

Record SessionInitPayload : Type := mk_session_init {
  client_version : Z;
  capabilities : list string;
  intercept_ports : list Z
}.

Record SessionAckPayload : Type := mk_session_ack {
  server_version : Z;
  session_id : string;
  idle_timeout_sec : Z
}.

Record OpenPayload : Type := mk_open {
  target_host : string;
  target_port : Z;
  remote_addr : string
}.

Record NackPayload : Type := mk_nack {
  nack_stream_id : Z;
  reason_code : string;
  retryable : option bool
}.

Record CmdPayload : Type := mk_cmd {
  cmd_id : Z;
  cmd_name : string;
  params : option value
}.

Record CmdResponsePayload : Type := mk_cmd_response {
  resp_cmd_id : Z;
  response : option value;
  resp_error : string
}.

Inductive FrameBody : Type :=
| BSessionInit (p : option SessionInitPayload)
| BSessionAck (p : option SessionAckPayload)
| BOpen (p : option OpenPayload)
| BOpenAck
| BNack (p : option NackPayload)
| BData (data : bytes)
| BFin
| BRst (reason : string)
| BPing
| BPong
| BCmd (p : option CmdPayload)
| BCmdResponse (p : option CmdResponsePayload)
| BUnknown (s : string).

Record Frame : Type := mk_frame {
  stream_id : Z;
  body : FrameBody
}.

#[global] Instance SessionInitPayload_eq_dec : EqDecision SessionInitPayload.
Proof. solve_decision. Defined.
#[global] Instance SessionAckPayload_eq_dec : EqDecision SessionAckPayload.
Proof. solve_decision. Defined.
#[global] Instance OpenPayload_eq_dec : EqDecision OpenPayload.
Proof. solve_decision. Defined.
#[global] Instance NackPayload_eq_dec : EqDecision NackPayload.
Proof. solve_decision. Defined.
#[global] Instance CmdPayload_eq_dec : EqDecision CmdPayload.
Proof. solve_decision. Defined.
#[global] Instance CmdResponsePayload_eq_dec : EqDecision CmdResponsePayload.
Proof. solve_decision. Defined.
#[global] Instance FrameBody_eq_dec : EqDecision FrameBody.
Proof. solve_decision. Defined.
#[global] Instance Frame_eq_dec : EqDecision Frame.
Proof. solve_decision. Defined.

(** * Constructors *)

Definition new_session_init (v : Z) (caps : list string) (ports : list Z) : Frame :=
  mk_frame 0 (BSessionInit (Some (mk_session_init v caps ports))).
Definition new_session_ack (v : Z) (sid : string) (idle : Z) : Frame :=
  mk_frame 0 (BSessionAck (Some (mk_session_ack v sid idle))).
Definition new_open (sid : Z) (host : string) (port : Z) (addr : string) : Frame :=
  mk_frame sid (BOpen (Some (mk_open host port addr))).
Definition new_open_ack (sid : Z) : Frame := mk_frame sid BOpenAck.
Definition new_nack (sid : Z) (reason : string) (retry : option bool) : Frame :=
  mk_frame sid (BNack (Some (mk_nack sid reason retry))).
Definition new_data (sid : Z) (payload : bytes) : Frame := mk_frame sid (BData payload).
Definition new_fin (sid : Z) : Frame := mk_frame sid BFin.
Definition new_rst (sid : Z) (reason : string) : Frame := mk_frame sid (BRst reason).
Definition new_ping : Frame := mk_frame 0 BPing.
Definition new_pong : Frame := mk_frame 0 BPong.
Definition new_cmd (id : Z) (name : string) (ps : option value) : Frame :=
  mk_frame 0 (BCmd (Some (mk_cmd id name ps))).
Definition new_cmd_response (id : Z) (r : option value) : Frame :=
  mk_frame 0 (BCmdResponse (Some (mk_cmd_response id r EmptyString))).
Definition new_cmd_error_response (id : Z) (msg : string) : Frame :=
  mk_frame 0 (BCmdResponse (Some (mk_cmd_response id None msg))).

Definition frame_type (f : Frame) : FrameType :=
  match body f with
  | BSessionInit _ => TSessionInit
  | BSessionAck _ => TSessionAck
  | BOpen _ => TOpen
  | BOpenAck => TOpenAck
  | BNack _ => TNack
  | BData _ => TData
  | BFin => TFin
  | BRst _ => TRst
  | BPing => TPing
  | BPong => TPong
  | BCmd _ => TCmd
  | BCmdResponse _ => TCmdResponse
  | BUnknown s => TUnknown s
  end.

(** * Validation *)

Inductive ValidationError : Type :=
| SessionFrameHasStreamId (t : FrameType) (sid : Z)
| OpenMissingStreamId
| OpenMissingPayload
| OpenInvalidTargetPort (port : Z)
| OpenMissingTargetHost
| OpenAckMissingStreamId
| NackMissingStreamId
| NackMissingPayload
| DataLikeFrameMissingStreamId (t : FrameType)
| CmdHasStreamId (sid : Z)
| CmdMissingPayload
| CmdMissingCmdId
| CmdMissingName
| CmdResponseHasStreamId (sid : Z)
| CmdResponseMissingPayload
| CmdResponseMissingCmdId
| UnknownFrameType (s : string).

Definition validate (f : Frame) : result unit ValidationError :=
  match body f with
  | BSessionInit _ | BSessionAck _ =>
      if negb (stream_id f =? 0) then Err (SessionFrameHasStreamId (frame_type f) (stream_id f)) else Ok tt
  | BOpen payload =>
      if stream_id f =? 0 then Err OpenMissingStreamId
      else
        let? payload := ok_or payload OpenMissingPayload in
        if (target_port payload <=? 0) || (65535 <? target_port payload)
        then Err (OpenInvalidTargetPort (target_port payload))
        else if is_empty (target_host payload) then Err OpenMissingTargetHost
        else Ok tt
  | BOpenAck => if stream_id f =? 0 then Err OpenAckMissingStreamId else Ok tt
  | BNack payload =>
      if stream_id f =? 0 then Err NackMissingStreamId
      else match payload with None => Err NackMissingPayload | Some _ => Ok tt end
  | BData _ | BFin | BRst _ =>
      if stream_id f =? 0 then Err (DataLikeFrameMissingStreamId (frame_type f)) else Ok tt
  | BPing | BPong => Ok tt
  | BCmd payload =>
      if negb (stream_id f =? 0) then Err (CmdHasStreamId (stream_id f))
      else
        let? payload := ok_or payload CmdMissingPayload in
        if cmd_id payload =? 0 then Err CmdMissingCmdId
        else if is_empty (cmd_name payload) then Err CmdMissingName
        else Ok tt
  | BCmdResponse payload =>
      if negb (stream_id f =? 0) then Err (CmdResponseHasStreamId (stream_id f))
      else
        let? payload := ok_or payload CmdResponseMissingPayload in
        if resp_cmd_id payload =? 0 then Err CmdResponseMissingCmdId
        else Ok tt
  | BUnknown s => Err (UnknownFrameType s)
  end.

(** * What a valid frame is *)

(** The protocol's own rule, read off the frame kinds: stream-scoped frames name
    a stream, session-scoped ones do not, and every payload a handler reads is
    there and usable. PING and PONG are not constrained. *)
Definition is_stream_frame (t : FrameType) : bool :=
  match t with TOpen | TOpenAck | TNack | TData | TFin | TRst => true | _ => false end.

Definition is_session_frame (t : FrameType) : bool :=
  match t with TSessionInit | TSessionAck | TCmd | TCmdResponse => true | _ => false end.

Definition payload_usable (b : FrameBody) : Prop :=
  match b with
  | BOpen p => exists o, p = Some o /\ 0 < target_port o <= 65535 /\ target_host o <> EmptyString
  | BNack p => is_Some p
  | BCmd p => exists c, p = Some c /\ cmd_id c <> 0 /\ cmd_name c <> EmptyString
  | BCmdResponse p => exists r, p = Some r /\ resp_cmd_id r <> 0
  | BUnknown _ => False
  | _ => True
  end.

Definition frame_valid (f : Frame) : Prop :=
  (is_stream_frame (frame_type f) = true -> stream_id f <> 0) /\
  (is_session_frame (frame_type f) = true -> stream_id f = 0) /\
  payload_usable (body f).

Ltac unfold_frame := unfold validate, frame_valid, payload_usable, frame_type, ok_or in *; simpl in *.

(** [Frame::validate] accepts a frame exactly when the frame obeys the
    protocol rule: OPEN, OPEN_ACK, NACK, DATA, FIN and RST carry a non-zero stream
    id; SESSION_INIT, SESSION_ACK, CMD and CMD_RESPONSE carry none; OPEN has a host
    and a port in 1..65535; NACK, CMD and CMD_RESPONSE have their payload, with a
    non-zero command id and (CMD) a name; an unknown type is never accepted. *)
Theorem validate_iff_valid (f : Frame) : validate f = Ok tt <-> frame_valid f.
Proof.
  destruct f as [sid b].
  destruct b as [p|p|[p|]| |[p|]|d| |r| | |[p|]|[p|]|s]; unfold_frame;
    split; intros HV; repeat case_match; simpl in *; to_prop; repeat split; try naive_solver lia.
  by eexists.
Qed.

(** Every frame the program builds through its constructors, with sensible
    arguments, is accepted by the peer. *)
Lemma from_as_wire_str t : (forall s, t <> TUnknown s) -> from_wire_str (as_wire_str t) = t.
Proof. destruct t; try reflexivity. naive_solver. Qed.

Lemma as_from_wire_str s : as_wire_str (from_wire_str s) = s.
Proof.
  unfold from_wire_str. repeat case_match; try done;
    match goal with H : String.eqb _ _ = true |- _ => apply String.eqb_eq in H; by subst end.
Qed.
