(* ===== verification/Codec.v ===== *)
(** The tunnel's wire codec ([extend-proxy-client/src/protocol/codec.rs],
    [serde_helpers.rs]): the flat [WireFrame] object, what its serde attributes
    write and read, and [encode] / [decode].

    The JSON text and the base64 engine are third-party ([Json.JsonText],
    [Json.Base64]); everything between a frame and a JSON document is here. *)

From stdpp Require Import base gmap strings list.
From Stdlib Require Import ZArith Lia Strings.Byte.
From S2P Require Import Prelude Json Frame.

(** * The wire frame *)

Record WireFrame : Type := mk_wire {
  w_type : string;
  w_stream_id : Z;
  w_session_init : option SessionInitPayload;
  w_session_ack : option SessionAckPayload;
  w_open : option OpenPayload;
  w_open_ack : option Z;
  w_nack : option NackPayload;
  w_data : option bytes;
  w_reason : string;
  w_cmd : option CmdPayload;
  w_cmd_response : option CmdResponsePayload
}.

(** [WireFrame { frame_type, stream_id, ..Default::default() }]. *)
Definition wire_default (ty : string) (sid : Z) : WireFrame :=
  mk_wire ty sid None None None None None None EmptyString None None.

(** [impl From<&Frame> for WireFrame]. *)
Definition wire_of_frame (f : Frame) : WireFrame :=
  let ty := as_wire_str (frame_type f) in
  let sid := stream_id f in
  match body f with
  | BSessionInit p => mk_wire ty sid p None None None None None EmptyString None None
  | BSessionAck p => mk_wire ty sid None p None None None None EmptyString None None
  | BOpen p => mk_wire ty sid None None p None None None EmptyString None None
  | BOpenAck => mk_wire ty sid None None None (Some sid) None None EmptyString None None
  | BNack p => mk_wire ty sid None None None None p None EmptyString None None
  | BData d =>
      match d with
      | [] => wire_default ty sid
      | _ => mk_wire ty sid None None None None None (Some d) EmptyString None None
      end
  | BFin => wire_default ty sid
  | BRst reason => mk_wire ty sid None None None None None None reason None None
  | BPing | BPong => wire_default ty sid
  | BCmd p => mk_wire ty sid None None None None None None EmptyString p None
  | BCmdResponse p => mk_wire ty sid None None None None None None EmptyString None p
  | BUnknown _ => wire_default ty sid
  end.

(** [impl From<WireFrame> for Frame]. *)
Definition frame_of_wire (w : WireFrame) : Frame :=
  mk_frame (w_stream_id w)
    match from_wire_str (w_type w) with
    | TSessionInit => BSessionInit (w_session_init w)
    | TSessionAck => BSessionAck (w_session_ack w)
    | TOpen => BOpen (w_open w)
    | TOpenAck => BOpenAck
    | TNack => BNack (w_nack w)
    | TData => BData (default [] (w_data w))
    | TFin => BFin
    | TRst => BRst (w_reason w)
    | TPing => BPing
    | TPong => BPong
    | TCmd => BCmd (w_cmd w)
    | TCmdResponse => BCmdResponse (w_cmd_response w)
    | TUnknown s => BUnknown s
    end.

(** * Writing *)

(** [skip_serializing_if = "Option::is_none"]. *)
Definition entry_opt {T} (k : string) (write : T -> value) (o : option T) : list (string * value) :=
  match o with Some x => [(k, write x)] | None => [] end.
(** [skip_serializing_if = "String::is_empty"]. *)
Definition entry_str (k s : string) : list (string * value) :=
  if is_empty s then [] else [(k, Str s)].

Definition session_init_to_json (p : SessionInitPayload) : value :=
  Object ([("client_version", int (client_version p))]
    ++ match capabilities p with [] => [] | l => [("capabilities", Array (map Str l))] end
    ++ [("intercept_ports", Array (map int (intercept_ports p)))]).

Definition session_ack_to_json (p : SessionAckPayload) : value :=
  Object [("server_version", int (server_version p)); ("session_id", Str (session_id p));
          ("idle_timeout_sec", int (idle_timeout_sec p))].

Definition open_to_json (p : OpenPayload) : value :=
  Object ([("target_host", Str (target_host p)); ("target_port", int (target_port p))]
    ++ entry_str "remote_addr" (remote_addr p)).

Definition nack_to_json (p : NackPayload) : value :=
  Object ([("stream_id", int (nack_stream_id p)); ("reason_code", Str (reason_code p))]
    ++ entry_opt "retryable" Bool (retryable p)).

Definition cmd_to_json (p : CmdPayload) : value :=
  Object ([("cmd_id", int (cmd_id p)); ("name", Str (cmd_name p))]
    ++ entry_opt "params" (fun v => v) (params p)).

Definition cmd_response_to_json (p : CmdResponsePayload) : value :=
  Object ([("cmd_id", int (resp_cmd_id p))]
    ++ entry_opt "response" (fun v => v) (response p)
    ++ entry_str "error" (resp_error p)).

(** [WireOpenAck]. *)
Definition open_ack_to_json (sid : Z) : value := Object [("stream_id", int sid)].

Definition session_init_of_json (v : value) : option SessionInitPayload :=
  f ← read_struct ["client_version"; "capabilities"; "intercept_ports"] v;
  cv ← req read_i64 f "client_version" 0;
  caps ← dflt [] (read_null_default [] (read_list read_string)) f "capabilities" 1;
  ports ← dflt [] (read_null_default [] (read_list read_i32)) f "intercept_ports" 2;
  Some (mk_session_init cv caps ports).

Definition session_ack_of_json (v : value) : option SessionAckPayload :=
  f ← read_struct ["server_version"; "session_id"; "idle_timeout_sec"] v;
  sv ← req read_i64 f "server_version" 0;
  sid ← req read_string f "session_id" 1;
  idle ← req read_i64 f "idle_timeout_sec" 2;
  Some (mk_session_ack sv sid idle).

Definition open_of_json (v : value) : option OpenPayload :=
  f ← read_struct ["target_host"; "target_port"; "remote_addr"] v;
  host ← req read_string f "target_host" 0;
  port ← req read_i32 f "target_port" 1;
  addr ← dflt EmptyString read_string f "remote_addr" 2;
  Some (mk_open host port addr).

Definition nack_of_json (v : value) : option NackPayload :=
  f ← read_struct ["stream_id"; "reason_code"; "retryable"] v;
  sid ← req read_u64 f "stream_id" 0;
  reason ← req read_string f "reason_code" 1;
  retry ← dflt None (read_option read_bool) f "retryable" 2;
  Some (mk_nack sid reason retry).

Definition cmd_of_json (v : value) : option CmdPayload :=
  f ← read_struct ["cmd_id"; "name"; "params"] v;
  id ← req read_u64 f "cmd_id" 0;
  name ← req read_string f "name" 1;
  ps ← dflt None (read_option read_value) f "params" 2;
  Some (mk_cmd id name ps).

Definition cmd_response_of_json (v : value) : option CmdResponsePayload :=
  f ← read_struct ["cmd_id"; "response"; "error"] v;
  id ← req read_u64 f "cmd_id" 0;
  r ← dflt None (read_option read_value) f "response" 1;
  e ← dflt EmptyString read_string f "error" 2;
  Some (mk_cmd_response id r e).

Definition open_ack_of_json (v : value) : option Z :=
  f ← read_struct ["stream_id"] v;
  req read_u64 f "stream_id" 0.

(** * The codec over a text level *)

Section codec.
Context `{JsonText, Base64}.

(** [opt_base64::serialize], under [skip_serializing_if]. *)
Definition data_to_json (b : bytes) : value := Str (b64_encode b).

(** [opt_base64::deserialize]. *)
Definition data_of_json (v : value) : option (option bytes) :=
  raw ← read_option read_string v;
  match raw with
  | Some s => match b64_decode s with Some b => Some (Some b) | None => None end
  | None => Some None
  end.

(** [#[derive(Serialize)] for WireFrame]. *)
Definition wire_to_json (w : WireFrame) : value :=
  Object ([("type", Str (w_type w))]
    ++ (if w_stream_id w =? 0 then [] else [("stream_id", int (w_stream_id w))])
    ++ entry_opt "session_init" session_init_to_json (w_session_init w)
    ++ entry_opt "session_ack" session_ack_to_json (w_session_ack w)
    ++ entry_opt "open" open_to_json (w_open w)
    ++ entry_opt "open_ack" open_ack_to_json (w_open_ack w)
    ++ entry_opt "nack" nack_to_json (w_nack w)
    ++ entry_opt "data" data_to_json (w_data w)
    ++ entry_str "reason" (w_reason w)
    ++ entry_opt "cmd" cmd_to_json (w_cmd w)
    ++ entry_opt "cmd_response" cmd_response_to_json (w_cmd_response w)).

(** [#[derive(Deserialize)] for WireFrame]. *)
Definition wire_of_json (v : value) : option WireFrame :=
  f ← read_struct ["type"; "stream_id"; "session_init"; "session_ack"; "open"; "open_ack";
                    "nack"; "data"; "reason"; "cmd"; "cmd_response"] v;
  ty ← req read_string f "type" 0;
  sid ← dflt 0 read_u64 f "stream_id" 1;
  si ← opt session_init_of_json f "session_init" 2;
  sa ← opt session_ack_of_json f "session_ack" 3;
  o ← opt open_of_json f "open" 4;
  oa ← opt open_ack_of_json f "open_ack" 5;
  n ← opt nack_of_json f "nack" 6;
  d ← dflt None data_of_json f "data" 7;
  r ← dflt EmptyString (read_null_default EmptyString read_string) f "reason" 8;
  c ← opt cmd_of_json f "cmd" 9;
  cr ← opt cmd_response_of_json f "cmd_response" 10;
  Some (mk_wire ty sid si sa o oa n d r c cr).

(** [protocol::encode]; writing a [WireFrame] to a byte vector cannot fail. *)
Definition encode_frame (f : Frame) : bytes := to_vec (wire_to_json (wire_of_frame f)).

(** [protocol::decode]. *)
Definition decode_frame (b : bytes) : option Frame :=
  v ← from_slice b;
  w ← wire_of_json v;
  Some (frame_of_wire w).
End codec.

(** * Round trip *)

(** A JSON argument or answer that reads back as itself: a canonical value whose
    numbers are integers of [i64] or [u64], that fits under the two enclosing objects and is
    not [null], which an [Option] field cannot tell from a missing one. *)
Definition arg_nesting : nat := 125.

Definition arg_wf (o : option value) : Prop :=
  match o with None => True | Some v => canonical v /\ fits arg_nesting v = true /\ v <> Null end.

Definition body_wf (b : FrameBody) : Prop :=
  match b with
  | BSessionInit (Some p) => in_i64 (client_version p) /\ Forall in_i32 (intercept_ports p)
  | BSessionAck (Some p) => in_i64 (server_version p) /\ in_i64 (idle_timeout_sec p)
  | BOpen (Some p) => in_i32 (target_port p)
  | BNack (Some p) => in_u64 (nack_stream_id p)
  | BCmd (Some p) => in_u64 (cmd_id p) /\ arg_wf (params p)
  | BCmdResponse (Some p) => in_u64 (resp_cmd_id p) /\ arg_wf (response p)
  | BUnknown s => from_wire_str s = TUnknown s
  | _ => True
  end.

(** Integers within their Rust types, command values that read back as
    themselves, and an unknown type that is not one of the twelve known names. *)
Definition frame_wf (f : Frame) : Prop := in_u64 (stream_id f) /\ body_wf (body f).

(** Every wire frame of [wire_of_frame] holds at most its own kind's payload, so
    converting back loses nothing. *)
Lemma frame_of_wire_of_frame f : frame_wf f -> frame_of_wire (wire_of_frame f) = f.
Proof. destruct f as [sid []]; intros [_ Hb]; try reflexivity.
  - by destruct data.
  - unfold frame_of_wire. simpl in *. by rewrite Hb.
Qed.

Lemma read_arg_ok o v : arg_wf o -> o = Some v -> read_option read_value v = Some (Some v).
Proof.
  intros Ho ->. destruct Ho as (Hc & _ & Hn). apply read_option_some; [done|].
  unfold read_value. by rewrite normalize_canonical.
Qed.

Section payloads.
Local Ltac rd := simpl; rewrite ?read_i64_ok, ?read_u64_ok, ?read_i32_ok by done; simpl.

Lemma read_ints_ok l : Forall in_i32 l -> read_list read_i32 (Array (map int l)) = Some l.
Proof. intros Hl. apply read_list_ok. eapply Forall_impl; [exact Hl|]. intros. by apply read_i32_ok. Qed.

Lemma read_strings_ok l : read_list read_string (Array (map Str l)) = Some l.
Proof. apply read_list_ok. by apply Forall_forall. Qed.

Lemma session_init_rt p : in_i64 (client_version p) -> Forall in_i32 (intercept_ports p) ->
  session_init_of_json (session_init_to_json p) = Some p.
Proof.
  intros Hv Hp. destruct p as [v caps ports]. simpl in *.
  unfold session_init_of_json, session_init_to_json.
  pose proof (read_null_default_some [] _ _ _ (read_ints_ok _ Hp) ltac:(done)) as Hports.
  pose proof (read_null_default_some [] _ _ _ (read_strings_ok caps) ltac:(done)) as Hcaps.
  unfold dflt, req. destruct caps; rd; [|simpl in Hcaps; rewrite Hcaps; simpl]; by rewrite Hports.
Qed.

Lemma session_ack_rt p : in_i64 (server_version p) -> in_i64 (idle_timeout_sec p) ->
  session_ack_of_json (session_ack_to_json p) = Some p.
Proof. intros. destruct p. unfold session_ack_of_json, req. by rd. Qed.

Lemma open_rt p : in_i32 (target_port p) -> open_of_json (open_to_json p) = Some p.
Proof. intros. destruct p as [h t a]. destruct a; unfold open_of_json, req, dflt; by rd. Qed.

Lemma open_ack_rt sid : in_u64 sid -> open_ack_of_json (open_ack_to_json sid) = Some sid.
Proof. intros. unfold open_ack_of_json, req. by rd. Qed.

Lemma nack_rt p : in_u64 (nack_stream_id p) -> nack_of_json (nack_to_json p) = Some p.
Proof. intros. destruct p as [s r [b|]]; unfold nack_of_json, req, dflt; by rd. Qed.

Lemma cmd_rt p : in_u64 (cmd_id p) -> arg_wf (params p) -> cmd_of_json (cmd_to_json p) = Some p.
Proof.
  intros ? Ha. destruct p as [i n [v|]]; unfold cmd_of_json, req, dflt; rd; [|done].
  by rewrite (read_arg_ok _ v Ha eq_refl).
Qed.

Lemma cmd_response_rt p : in_u64 (resp_cmd_id p) -> arg_wf (response p) ->
  cmd_response_of_json (cmd_response_to_json p) = Some p.
Proof.
  intros ? Ha. destruct p as [i [v|] e]; unfold cmd_response_of_json, req, dflt; destruct e; rd; try done;
    by rewrite (read_arg_ok _ v Ha eq_refl).
Qed.
End payloads.

Lemma in_u64_fits z : in_u64 z -> (- 2 ^ 63 <=? z) && (z <? 2 ^ 64) = true.
Proof. intros [? ?]. apply andb_true_iff; split; [apply Z.leb_le|apply Z.ltb_lt]; lia. Qed.
Lemma in_i64_fits z : in_i64 z -> (- 2 ^ 63 <=? z) && (z <? 2 ^ 64) = true.
Proof. intros [? ?]. apply andb_true_iff; split; [apply Z.leb_le|apply Z.ltb_lt]; lia. Qed.
Lemma in_i32_fits z : in_i32 z -> (- 2 ^ 63 <=? z) && (z <? 2 ^ 64) = true.
Proof. intros [? ?]. apply andb_true_iff; split; [apply Z.leb_le|apply Z.ltb_lt]; lia. Qed.

Lemma fits_int d z : fits d (int z) = (- 2 ^ 63 <=? z) && (z <? 2 ^ 64).
Proof. by destruct d. Qed.
Lemma fits_str d s : fits d (Str s) = true.
Proof. by destruct d. Qed.
Lemma fits_bool d b : fits d (Bool b) = true.
Proof. by destruct d. Qed.
Lemma fits_strings d l : forallb (fits d) (map Str l) = true.
Proof. induction l; simpl; rewrite ?fits_str; auto. Qed.
Lemma fits_ints d l : Forall in_i32 l -> forallb (fits d) (map int l) = true.
Proof. induction 1; simpl; rewrite ?fits_int, ?in_i32_fits; auto. Qed.

#[local] Arguments fits : simpl never.

Lemma fits_object d l : fits (S d) (Object l) = forallb (fun kv => fits d kv.2) l.
Proof. done. Qed.
Lemma fits_array d l : fits (S d) (Array l) = forallb (fits d) l.
Proof. done. Qed.

Section roundtrip.
Context `{JsonText, Base64}.

Local Ltac fit :=
  unfold session_init_to_json, session_ack_to_json, open_to_json, open_ack_to_json, nack_to_json,
    cmd_to_json, cmd_response_to_json; simpl;
  repeat (rewrite ?fits_object, ?fits_array, ?fits_str, ?fits_bool, ?fits_int, ?in_u64_fits, ?in_i64_fits,
            ?in_i32_fits, ?fits_strings, ?fits_ints by done; simpl); try done.

Definition arg_fits (d : nat) (b : FrameBody) : Prop :=
  match b with
  | BCmd (Some (mk_cmd _ _ (Some v))) | BCmdResponse (Some (mk_cmd_response _ (Some v) _)) => fits d v = true
  | _ => True
  end.

Lemma wire_fits d f :
  frame_wf f -> arg_fits (S d) (body f) -> fits (S (S (S d))) (wire_to_json (wire_of_frame f)) = true.
Proof.
  destruct f as [sid b]. intros [Hs Hb] Ha. unfold wire_to_json. rewrite fits_object.
  rewrite !forallb_app. simpl in Hs.
  assert (Hsid : forallb (fun kv => fits (S (S d)) kv.2)
            (if w_stream_id (wire_of_frame (mk_frame sid b)) =? 0 then []
             else [("stream_id", int (w_stream_id (wire_of_frame (mk_frame sid b))))]) = true).
  { replace (w_stream_id _) with sid by (destruct b as [| | | | |[]| | | | | | |]; done).
    case_match; fit. }
  rewrite Hsid. clear Hsid.
  destruct b as [p|p|p| |p|da| |r| | |p|p|s]; try destruct p as [p|]; simpl in *;
    try (destruct da); try (destruct r); simpl; fit.
  - destruct p as [v [|c caps] ports]; simpl in *; destruct Hb; fit.
  - destruct p; simpl in *; destruct Hb; fit.
  - destruct p as [? ? []]; simpl in *; fit.
  - destruct p as [? ? [[]|]]; simpl in *; fit.
  - destruct p as [? ? [v|]]; simpl in *; destruct Hb as [? Hv]; fit. by rewrite Ha.
  - destruct p as [? [v|] [|]]; simpl in *; destruct Hb as [? Hv]; fit; by rewrite Ha.
Qed.

Local Opaque session_init_of_json session_ack_of_json open_of_json open_ack_of_json nack_of_json
  cmd_of_json cmd_response_of_json.

Lemma wire_of_json_of_frame f :
  frame_wf f -> wire_of_json (wire_to_json (wire_of_frame f)) = Some (wire_of_frame f).
Proof.
  destruct f as [sid b]. intros [Hs Hb]. simpl in Hs, Hb.
  pose proof (read_u64_ok _ Hs) as Hsid.
  unfold wire_to_json, wire_of_json, req, dflt, opt.
  destruct b as [p|p|p| |p|d| |r| | |p|p|s]; try destruct p as [p|]; try destruct d; try destruct r;
    simpl; (destruct (Z.eqb_spec sid 0) as [->|?]; simpl; rewrite ?Hsid; simpl; try reflexivity).
  all: try rewrite open_ack_rt by done; simpl in Hb; try (destruct Hb as [Hb1 Hb2]).
  all: rewrite ?session_init_rt, ?session_ack_rt, ?open_rt, ?nack_rt, ?cmd_rt, ?cmd_response_rt by done;
    try reflexivity.
  all: unfold data_of_json, data_to_json; simpl; by rewrite b64_decode_encode.
Qed.

Lemma decode_encode_wf f : frame_wf f -> decode_frame (encode_frame f) = Some f.
Proof.
  intros Hf. unfold decode_frame, encode_frame.
  assert (Ha : arg_fits arg_nesting (body f)).
  { destruct f as [sid [ | | | | | | | | | |[[? ? [v|]]|]|[[? [v|] ?]|]|]]; simpl; try done; by destruct Hf as (_ & _ & _ & Hv & _). }
  rewrite from_slice_to_vec by exact (wire_fits 124 f Hf Ha). simpl.
  rewrite wire_of_json_of_frame by done. simpl. by rewrite frame_of_wire_of_frame.
Qed.

(** [C26] What one side encodes, the other decodes: for every well-formed frame,
    [decode] of [encode]'s bytes is that very frame. Well-formed frames have
    integers in their Rust types, command arguments and answers whose numbers are
    integers of [i64] or [u64] (a float need not be read as it was written) and that are not
    the JSON [null] (which reads back as "absent"), and an unknown kind that is not
    spelled like a known one. *)
Theorem decode_encode_frame (f : Frame) : frame_wf f -> decode_frame (encode_frame f) = Some f.
Proof. apply decode_encode_wf. Qed.

Local Transparent cmd_of_json cmd_response_of_json.

(** A command argument of JSON [null] is the exception: it comes back absent. *)
Lemma decode_encode_null_arg id name :
  in_u64 id ->
  decode_frame (encode_frame (new_cmd id name (Some Null))) = Some (new_cmd id name None).
Proof.
  intros Hid. unfold decode_frame, encode_frame.
  rewrite from_slice_to_vec.
  - unfold wire_of_json, cmd_of_json, req, dflt, opt. simpl. by rewrite read_u64_ok.
  - simpl. unfold fits; simpl. by rewrite in_u64_fits.
Qed.

Lemma decode_encode_null_answer id :
  in_u64 id ->
  decode_frame (encode_frame (new_cmd_response id (Some Null))) = Some (new_cmd_response id None).
Proof.
  intros Hid. unfold decode_frame, encode_frame.
  rewrite from_slice_to_vec.
  - unfold wire_of_json, cmd_response_of_json, req, dflt, opt. simpl. by rewrite read_u64_ok.
  - simpl. unfold fits; simpl. by rewrite in_u64_fits.
Qed.
End roundtrip.

Definition sample_cmd_frame : Frame :=
  mk_frame 0 (BCmd (Some (mk_cmd 2 "ping" (Some (Object [("a", int 1); ("b", Str "x")]))))).

Lemma sample_cmd_frame_wf : frame_wf sample_cmd_frame.
Proof.
  split; [by vm_compute|]. split; [by vm_compute|]. split; [|by vm_compute].
  repeat (constructor; simpl).
Qed.

Lemma decode_encode_frame_witness :
  frame_wf sample_cmd_frame /\
  @decode_frame bits_json_text raw_base64 (@encode_frame bits_json_text raw_base64 sample_cmd_frame)
    = Some sample_cmd_frame.
Proof.
  split; [exact sample_cmd_frame_wf|].
  exact (@decode_encode_frame bits_json_text raw_base64 sample_cmd_frame sample_cmd_frame_wf).
Defined.

(** * What a session relies on *)

(** The codec as the session uses it: total encoding, partial decoding, and the
    round trip of well-formed frames, [null] arguments and answers aside. *)
Class FrameCodec : Type := {
  encode : Frame -> bytes;
  decode : bytes -> option Frame;
  decode_encode : forall f, frame_wf f -> decode (encode f) = Some f;
  decode_null_arg : forall id name, in_u64 id ->
    decode (encode (new_cmd id name (Some Null))) = Some (new_cmd id name None);
  decode_null_answer : forall id, in_u64 id ->
    decode (encode (new_cmd_response id (Some Null))) = Some (new_cmd_response id None)
}.

Program Definition json_codec `{JsonText, Base64} : FrameCodec := {|
  encode := encode_frame;
  decode := decode_frame
|}.
Next Obligation.
  intros J B f Hf. by apply decode_encode_wf.
Qed.
Next Obligation.
  intros J B id name Hid. by apply decode_encode_null_arg.
Qed.
Next Obligation.
  intros J B id Hid. by apply decode_encode_null_answer.
Qed.

(** A codec to run: the concrete JSON text and base64 of the examples. *)
Definition sample_json_codec : FrameCodec := @json_codec bits_json_text raw_base64.
