(* ===== verification/IdGen.v ===== *)
(** Stream-id generation ([extend-proxy-client/src/session/idgen.rs]): a [u64]
    counter of one parity that skips the ids still active and starts over near the
    end of its range.

    The source loops until it finds a free id. [next_loop] takes fuel;
    [IdGenerator_next] gives it one more unit than there are active ids, which
    [next_total] shows to be enough. *)

From stdpp Require Import base gmap fin_sets list.
From Stdlib Require Import ZArith Lia.
From S2P Require Import Prelude.

Definition OVERFLOW_THRESHOLD : Z := u64_max - 1000.

Inductive IdParity : Type := Odd | Even.

#[global] Instance IdParity_eq_dec : EqDecision IdParity.
Proof. solve_decision. Defined.

Record IdGenerator : Type := mk_idgen { current : Z; start : Z }.

Definition start_of (p : IdParity) : Z := match p with Odd => 1 | Even => 2 end.

(** [IdGenerator::new]. *)
Definition IdGenerator_new (p : IdParity) : IdGenerator := mk_idgen (start_of p) (start_of p).

(** The body of the source's loop: reset near the end of the range, take the
    candidate, advance. *)
Definition next_candidate (g : IdGenerator) : Z * IdGenerator :=
  let current := if OVERFLOW_THRESHOLD <=? current g then start g else current g in
  (current, mk_idgen (current + 2) (start g)).

Fixpoint next_loop (fuel : nat) (g : IdGenerator) (active : gset Z) : option (Z * IdGenerator) :=
  match fuel with
  | O => None
  | S fuel =>
      let '(candidate, g') := next_candidate g in
      if decide (candidate ∈ active) then next_loop fuel g' active else Some (candidate, g')
  end.

(** [IdGenerator::next]. *)
Definition IdGenerator_next (g : IdGenerator) (active : gset Z) : option (Z * IdGenerator) :=
  next_loop (S (size active)) g active.

(** * Invariant *)

(** How many ids of one parity lie below the threshold. *)
Definition id_count : Z := 2 ^ 63 - 501.

(** The counter keeps its parity, never leaves the range, and cannot overflow:
    it is reset before it reaches the threshold. *)
Definition idgen_wf (p : IdParity) (g : IdGenerator) : Prop :=
  start g = start_of p /\ exists k, 0 <= k <= id_count /\ current g = start g + 2 * k.

Definition has_parity (p : IdParity) (id : Z) : bool :=
  match p with Odd => Z.odd id | Even => Z.even id end.

Definition id_ok (p : IdParity) (id : Z) : Prop :=
  has_parity p id = true /\ 1 <= id < OVERFLOW_THRESHOLD.

Lemma new_wf p : idgen_wf p (IdGenerator_new p).
Proof. split; [done|]. exists 0. unfold id_count. simpl. lia. Qed.

Lemma start_bound p : 1 <= start_of p <= 2.
Proof. destruct p; simpl; lia. Qed.

Lemma threshold_iff p k :
  0 <= k <= id_count -> (OVERFLOW_THRESHOLD <=? start_of p + 2 * k) = (k =? id_count).
Proof.
  intros Hk. unfold OVERFLOW_THRESHOLD, u64_max, id_count in *.
  destruct p; simpl start_of; (destruct (Z.eqb_spec k (2 ^ 63 - 501)); [apply Z.leb_le|apply Z.leb_gt]; lia).
Qed.

(** The [k]-th candidate the generator offers when the first ones are all taken. *)
Definition position (p : IdParity) (g : IdGenerator) : Z :=
  if OVERFLOW_THRESHOLD <=? current g then 0 else (current g - start g) / 2.

Definition candidate_at (p : IdParity) (g : IdGenerator) (k : nat) : Z :=
  start_of p + 2 * ((position p g + Z.of_nat k) mod id_count).

Lemma position_range p g : idgen_wf p g -> 0 <= position p g < id_count.
Proof.
  intros [Hs (k & Hk & Hc)]. unfold position. rewrite Hc, Hs, threshold_iff by done.
  destruct (Z.eqb_spec k id_count); [unfold id_count; lia|].
  replace ((start_of p + 2 * k - start_of p) / 2) with k; [lia|].
  replace (_ - _) with (k * 2) by lia. by rewrite Z.div_mul.
Qed.

Lemma next_candidate_spec p g :
  idgen_wf p g ->
  (next_candidate g).1 = candidate_at p g 0 /\ idgen_wf p (next_candidate g).2 /\
  position p (next_candidate g).2 = (position p g + 1) mod id_count.
Proof.
  intros Hwf. pose proof (position_range _ _ Hwf) as Hpos. destruct Hwf as [Hs (k & Hk & Hc)].
  unfold next_candidate, candidate_at, idgen_wf. cbn [fst snd start current]. rewrite Z.add_0_r, Z.mod_small by lia.
  assert (Hcur : (if OVERFLOW_THRESHOLD <=? current g then start g else current g)
                 = start_of p + 2 * position p g).
  { unfold position. rewrite Hc, Hs, threshold_iff by done.
    destruct (Z.eqb_spec k id_count); [lia|].
    replace (start_of p + 2 * k - start_of p) with (k * 2) by lia. rewrite Z.div_mul by done. lia. }
  rewrite Hcur. split; [done|]. split.
  - split; [done|]. exists (position p g + 1). rewrite Hs. lia.
  - set (q := position p g) in *. unfold position at 1. cbn [start current]. rewrite Hs.
    replace (start_of p + 2 * q + 2) with (start_of p + 2 * (q + 1)) by lia.
    rewrite threshold_iff by lia. destruct (Z.eqb_spec (q + 1) id_count) as [He|Hne].
    + rewrite He. symmetry. apply Z_mod_same_full.
    + rewrite Z.mod_small by lia.
      replace (start_of p + 2 * (q + 1) - start_of p) with ((q + 1) * 2) by lia. by rewrite Z.div_mul.
Qed.

Lemma candidate_at_next p g k :
  idgen_wf p g -> candidate_at p (next_candidate g).2 k = candidate_at p g (S k).
Proof.
  intros Hwf. destruct (next_candidate_spec _ _ Hwf) as (_ & _ & Hp).
  unfold candidate_at. rewrite Hp, Zplus_mod_idemp_l. do 3 f_equal. lia.
Qed.

Lemma candidate_ok p g k : idgen_wf p g -> id_ok p (candidate_at p g k).
Proof.
  intros _. unfold candidate_at, id_ok.
  pose proof (Z.mod_pos_bound (position p g + Z.of_nat k) id_count ltac:(unfold id_count; lia)) as Hm.
  set (m := _ mod _) in *. unfold OVERFLOW_THRESHOLD, u64_max. unfold id_count in Hm.
  split; [|pose proof (start_bound p); lia].
  destruct p; cbn [has_parity start_of].
  - by rewrite Z.odd_add, Z.odd_mul.
  - by rewrite Z.even_add, Z.even_mul.
Qed.

(** What [next] finds: the first candidate that is not active. *)
Lemma next_loop_spec p fuel g active :
  idgen_wf p g ->
  match next_loop fuel g active with
  | Some (id, g') =>
      id ∉ active /\ idgen_wf p g' /\
      exists k, (k < fuel)%nat /\ id = candidate_at p g k /\ forall j, (j < k)%nat -> candidate_at p g j ∈ active
  | None => forall j, (j < fuel)%nat -> candidate_at p g j ∈ active
  end.
Proof.
  revert g. induction fuel as [|fuel IH]; intros g Hwf; cbn [next_loop]; [lia|].
  destruct (next_candidate_spec _ _ Hwf) as (H1 & H2 & _).
  pose proof (candidate_at_next p g) as Hnext.
  destruct (next_candidate g) as [c g'] eqn:E. cbn [fst snd] in *.
  case_decide as Hin.
  - specialize (IH g' H2). destruct (next_loop fuel g' active) as [[id g'']|].
    + destruct IH as (Hn & Hw & k & Hlt & -> & Hk). split; [done|]. split; [done|].
      exists (S k). split; [lia|]. rewrite Hnext by done. split; [done|].
      intros [|j] Hj; [by rewrite <- H1|]. rewrite <- Hnext by done. apply Hk. lia.
    + intros [|j] Hj; [by rewrite <- H1|]. rewrite <- Hnext by done. apply IH. lia.
  - split; [done|]. split; [done|]. exists O. split; [lia|]. split; [done|]. intros; lia.
Qed.

Lemma candidate_inj p g i j :
  (Z.of_nat i < id_count) -> (Z.of_nat j < id_count) ->
  candidate_at p g i = candidate_at p g j -> i = j.
Proof.
  intros Hi Hj Heq. unfold candidate_at in Heq.
  assert (Hm : (position p g + Z.of_nat i) mod id_count = (position p g + Z.of_nat j) mod id_count) by lia.
  set (q := position p g) in *. assert (0 < id_count) by (unfold id_count; lia).
  pose proof (Z.div_mod (q + Z.of_nat i) id_count ltac:(lia)) as E1.
  pose proof (Z.div_mod (q + Z.of_nat j) id_count ltac:(lia)) as E2.
  rewrite Hm in E1. unfold id_count in *. lia.
Qed.

Lemma next_ok p g active id g' :
  idgen_wf p g -> IdGenerator_next g active = Some (id, g') ->
  id ∉ active /\ id_ok p id /\ idgen_wf p g'.
Proof.
  intros Hwf Hn. pose proof (next_loop_spec p (S (size active)) g active Hwf) as Hspec.
  unfold IdGenerator_next in Hn. rewrite Hn in Hspec.
  destruct Hspec as (? & ? & k & _ & -> & _). eauto using candidate_ok.
Qed.

(** [IdGenerator::next] always returns, after at most one more round than
    there are active ids, and what it returns is usable: not active, of the
    generator's parity, between 1 and the overflow threshold; and the generator
    keeps its invariant, so the counter never overflows. The only assumption is
    that fewer ids are active than the range holds. *)
Theorem next_total (p : IdParity) (g : IdGenerator) (active : gset Z) :
  idgen_wf p g -> Z.of_nat (size active) < id_count ->
  exists id g', IdGenerator_next g active = Some (id, g') /\
    id ∉ active /\ id_ok p id /\ idgen_wf p g'.
Proof.
  intros Hwf Hsz. unfold IdGenerator_next.
  pose proof (next_loop_spec p (S (size active)) g active Hwf) as Hspec.
  destruct (next_loop _ g active) as [[id g']|].
  - destruct Hspec as (? & ? & k & _ & -> & _). eauto 10 using candidate_ok.
  - exfalso.
    assert (Hsub : list_to_set (candidate_at p g <$> seq 0 (S (size active))) ⊆ active).
    { intros x Hx. apply elem_of_list_to_set, list_elem_of_fmap in Hx as (j & -> & Hj).
      apply elem_of_seq in Hj. apply Hspec. lia. }
    apply subseteq_size in Hsub. rewrite size_list_to_set in Hsub.
    + rewrite length_fmap, length_seq in Hsub. lia.
    + apply NoDup_fmap_2_strong; [|apply NoDup_seq].
      intros i j Hi Hj. apply elem_of_seq in Hi, Hj. apply candidate_inj; lia.
Qed.

(** The skip of [active] in action, and the wrap near the top of the range. *)
Example next_skips : IdGenerator_next (IdGenerator_new Odd) {[1; 3]} = Some (5, mk_idgen 7 1).
Proof. by vm_compute. Qed.
Example next_wraps :
  IdGenerator_next (mk_idgen (OVERFLOW_THRESHOLD + 1) 2) {[2]} = Some (4, mk_idgen 6 2).
Proof. by vm_compute. Qed.

Lemma next_total_witness :
  idgen_wf Odd (IdGenerator_new Odd) /\ Z.of_nat (size ({[1; 3]} : gset Z)) < id_count /\
  exists id g', IdGenerator_next (IdGenerator_new Odd) {[1; 3]} = Some (id, g') /\
    id ∉ ({[1; 3]} : gset Z) /\ id_ok Odd id /\ idgen_wf Odd g'.
Proof.
  assert (H : Z.of_nat (size ({[1; 3]} : gset Z)) < id_count) by (vm_compute; reflexivity).
  split; [apply new_wf|]. split; [exact H|]. exact (next_total Odd _ _ (new_wf Odd) H).
Defined.

(** Ids of the two parities never meet: the client's and the sidecar's generators
    cannot collide. *)
Lemma parities_disjoint id : id_ok Odd id -> id_ok Even id -> False.
Proof. intros [Ho _] [He _]. simpl in *. rewrite <- Z.negb_odd in He. by rewrite Ho in He. Qed.
