(* ===== verification/Session.v ===== *)
(** The tunnel session ([extend-proxy-client/src/session/core.rs], [stream.rs],
    [rpc.rs]): one WebSocket connection that multiplexes logical streams and an
    RPC channel, as a pool of asynchronous tasks over shared state.

    A task is a [proc]: a tree whose nodes are the points where the Rust task can
    be interleaved with others. An [Atomic] node is one critical section (a mutex,
    a read-write lock or an atomic operation); the other nodes are the [.await]s
    (sending on the bounded channel, dialing, sleeping, local reads and writes,
    receiving a message, waiting for a reply). [step] picks any task of the pool
    and performs its next node, so the reachable configurations are exactly the
    interleavings of the tasks. [Goto] names the task's next loop round. *)

From stdpp Require Import base gmap fin_maps strings list.
From Stdlib Require Import ZArith Lia Strings.Byte Ascii.
From S2P Require Import Prelude Text Json Frame Codec IdGen.

(** * State *)

Inductive SessionRole : Type := Client | Server.

#[global] Instance SessionRole_eq_dec : EqDecision SessionRole.
Proof. solve_decision. Defined.

(** One [Stream] object: [StreamState], whether its read half and its cancel
    receiver have been taken, whether [cancel_tx] has fired, and what happened to
    the local connection (bytes written, shutdowns requested). *)
Record Stream : Type := mk_stream {
  st_id : Z;
  pending : bool;
  local_eof : bool;
  remote_eof : bool;
  closed : bool;
  read_taken : bool;
  cancel_rx_taken : bool;
  cancel_fired : bool;
  written : bytes;
  shutdowns : nat
}.

(** [Stream::new]: OPENING. *)
Definition Stream_new (id : Z) : Stream := mk_stream id true false false false false false false [] 0.

(** The caller's side of one [call_rpc]: the id it sent, what its oneshot channel
    holds, and what it returned. *)
Inductive RpcError : Type :=
| RpcTimeout
| RpcSessionClosed
| RpcCallee (msg : string)
| RpcSerialize (e : string)
| RpcDeserialize (e : string).

Record Call : Type := mk_call {
  call_cmd_id : Z;
  call_reply : option CmdResponsePayload;
  call_result : option (result (option value) RpcError)
}.

#[global] Instance RpcError_eq_dec : EqDecision RpcError.
Proof. solve_decision. Defined.
#[global] Instance Call_eq_dec : EqDecision Call.
Proof. solve_decision. Defined.

(** What never changes after [new_internal]. *)
Record Config : Type := mk_config {
  role : SessionRole;
  sess_id : string;
  idle_timeout_ms : Z;
  (** [InterceptTargetToLocalMapping] (client). *)
  port_map : gmap Z string;
  (** [TargetAllowlist] (server). *)
  allowlist : option (gset string)
}.

Record Sess : Type := mk_sess {
  (** The [Arc<Stream>]s, by address, and the map of live streams. *)
  heap : gmap nat Stream;
  streams : gmap Z nat;
  stream_id_gen : IdGenerator;
  last_activity : Z;
  awaiting_pong : bool;
  pong_deadline : Z;
  handlers : gset string;
  in_flight_calls : gmap Z nat;
  calls : list Call;
  next_cmd_id : Z;
  cmd_permits : nat;
  cancelled : bool;
  (** The bounded channel to the writer task, and what the writer sent. *)
  outbound : list Frame;
  outbound_closed : bool;
  wire : list bytes;
  (** Addresses that local connections were made to. *)
  dialed : list string
}.

Definition set_heap f s := mk_sess (f (heap s)) (streams s) (stream_id_gen s) (last_activity s) (awaiting_pong s) (pong_deadline s) (handlers s) (in_flight_calls s) (calls s) (next_cmd_id s) (cmd_permits s) (cancelled s) (outbound s) (outbound_closed s) (wire s) (dialed s).
Definition set_streams f s := mk_sess (heap s) (f (streams s)) (stream_id_gen s) (last_activity s) (awaiting_pong s) (pong_deadline s) (handlers s) (in_flight_calls s) (calls s) (next_cmd_id s) (cmd_permits s) (cancelled s) (outbound s) (outbound_closed s) (wire s) (dialed s).
Definition set_idgen g s := mk_sess (heap s) (streams s) g (last_activity s) (awaiting_pong s) (pong_deadline s) (handlers s) (in_flight_calls s) (calls s) (next_cmd_id s) (cmd_permits s) (cancelled s) (outbound s) (outbound_closed s) (wire s) (dialed s).
Definition set_activity t s := mk_sess (heap s) (streams s) (stream_id_gen s) t (awaiting_pong s) (pong_deadline s) (handlers s) (in_flight_calls s) (calls s) (next_cmd_id s) (cmd_permits s) (cancelled s) (outbound s) (outbound_closed s) (wire s) (dialed s).
Definition set_heartbeat a d s := mk_sess (heap s) (streams s) (stream_id_gen s) (last_activity s) a d (handlers s) (in_flight_calls s) (calls s) (next_cmd_id s) (cmd_permits s) (cancelled s) (outbound s) (outbound_closed s) (wire s) (dialed s).
Definition set_handlers h s := mk_sess (heap s) (streams s) (stream_id_gen s) (last_activity s) (awaiting_pong s) (pong_deadline s) h (in_flight_calls s) (calls s) (next_cmd_id s) (cmd_permits s) (cancelled s) (outbound s) (outbound_closed s) (wire s) (dialed s).
Definition set_calls m l s := mk_sess (heap s) (streams s) (stream_id_gen s) (last_activity s) (awaiting_pong s) (pong_deadline s) (handlers s) m l (next_cmd_id s) (cmd_permits s) (cancelled s) (outbound s) (outbound_closed s) (wire s) (dialed s).
Definition set_next_cmd_id n s := mk_sess (heap s) (streams s) (stream_id_gen s) (last_activity s) (awaiting_pong s) (pong_deadline s) (handlers s) (in_flight_calls s) (calls s) n (cmd_permits s) (cancelled s) (outbound s) (outbound_closed s) (wire s) (dialed s).
Definition set_permits n s := mk_sess (heap s) (streams s) (stream_id_gen s) (last_activity s) (awaiting_pong s) (pong_deadline s) (handlers s) (in_flight_calls s) (calls s) (next_cmd_id s) n (cancelled s) (outbound s) (outbound_closed s) (wire s) (dialed s).
Definition set_cancelled s := mk_sess (heap s) (streams s) (stream_id_gen s) (last_activity s) (awaiting_pong s) (pong_deadline s) (handlers s) (in_flight_calls s) (calls s) (next_cmd_id s) (cmd_permits s) true (outbound s) (outbound_closed s) (wire s) (dialed s).
Definition set_outbound q c s := mk_sess (heap s) (streams s) (stream_id_gen s) (last_activity s) (awaiting_pong s) (pong_deadline s) (handlers s) (in_flight_calls s) (calls s) (next_cmd_id s) (cmd_permits s) (cancelled s) q c (wire s) (dialed s).
Definition add_wire b s := mk_sess (heap s) (streams s) (stream_id_gen s) (last_activity s) (awaiting_pong s) (pong_deadline s) (handlers s) (in_flight_calls s) (calls s) (next_cmd_id s) (cmd_permits s) (cancelled s) (outbound s) (outbound_closed s) (wire s ++ [b]) (dialed s).
Definition add_dialed a s := mk_sess (heap s) (streams s) (stream_id_gen s) (last_activity s) (awaiting_pong s) (pong_deadline s) (handlers s) (in_flight_calls s) (calls s) (next_cmd_id s) (cmd_permits s) (cancelled s) (outbound s) (outbound_closed s) (wire s) (dialed s ++ [a]).

(** * Stream state transitions *)

Definition set_pending (b : bool) (st : Stream) : Stream :=
  mk_stream (st_id st) b (local_eof st) (remote_eof st) (closed st) (read_taken st) (cancel_rx_taken st) (cancel_fired st) (written st) (shutdowns st).
Definition take_read (st : Stream) : Stream :=
  mk_stream (st_id st) (pending st) (local_eof st) (remote_eof st) (closed st) true (cancel_rx_taken st) (cancel_fired st) (written st) (shutdowns st).
Definition take_cancel_rx (st : Stream) : Stream :=
  mk_stream (st_id st) (pending st) (local_eof st) (remote_eof st) (closed st) (read_taken st) true (cancel_fired st) (written st) (shutdowns st).
Definition set_local_eof (st : Stream) : Stream :=
  mk_stream (st_id st) (pending st) true (remote_eof st) (closed st) (read_taken st) (cancel_rx_taken st) (cancel_fired st) (written st) (shutdowns st).
Definition set_remote_eof (st : Stream) : Stream :=
  mk_stream (st_id st) (pending st) (local_eof st) true (closed st) (read_taken st) (cancel_rx_taken st) (cancel_fired st) (written st) (shutdowns st).
Definition set_closed (st : Stream) : Stream :=
  mk_stream (st_id st) (pending st) (local_eof st) (remote_eof st) true (read_taken st) (cancel_rx_taken st) (cancel_fired st) (written st) (shutdowns st).
Definition fire_cancel (st : Stream) : Stream :=
  mk_stream (st_id st) (pending st) (local_eof st) (remote_eof st) (closed st) (read_taken st) (cancel_rx_taken st) true (written st) (shutdowns st).
Definition add_written (b : bytes) (st : Stream) : Stream :=
  mk_stream (st_id st) (pending st) (local_eof st) (remote_eof st) (closed st) (read_taken st) (cancel_rx_taken st) (cancel_fired st) (written st ++ b) (shutdowns st).
Definition add_shutdown (st : Stream) : Stream :=
  mk_stream (st_id st) (pending st) (local_eof st) (remote_eof st) (closed st) (read_taken st) (cancel_rx_taken st) (cancel_fired st) (written st) (S (shutdowns st)).

(** [mark_local_eof] / [mark_remote_eof]: the new state and whether both sides
    are now done. *)
Definition mark_local_eof (st : Stream) : Stream * bool :=
  let st := set_local_eof st in (st, local_eof st && remote_eof st).
Definition mark_remote_eof (st : Stream) : Stream * bool :=
  let st := set_remote_eof st in (st, local_eof st && remote_eof st).

Definition upd_stream (o : nat) (f : Stream -> Stream) (s : Sess) : Sess := set_heap (alter f o) s.

(** * Tasks *)

(** The outcome of [pump]'s select: cancelled, end of file, bytes, or an error. *)
Inductive read_event : Type := RCancelled | REof | RBytes (b : bytes) | RError.

(** What the reader loop's select yields. *)
Inductive msg_event : Type := MCancelled | MError | MEnd | MClose | MOther | MPayload (b : bytes).

(** How a command handler ended: an answer, an error, or a panic. *)
Inductive handler_outcome : Type := HOk (v : option value) | HErr (msg : string) | HPanic (msg : string).

Inductive reply_event : Type := RepValue (p : CmdResponsePayload) | RepDropped | RepTimeout.

Inductive task : Type :=
| TReader
| TShutdown
| THeartbeat (interval pong_timeout : Z)
| TCleanup
| TWriter
| TPump (o : nat)
| TPumpLoop (o : nat) (id : Z)
| TOpenStream (sid : Z) (payload : OpenPayload)
| THandleCmd (id : Z) (name : string) (ps : option value)
| TCallRpc (name : string) (ps : option value)
| TOpenRemote (host : string) (port : Z) (addr : string).

Inductive proc : Type :=
| Done
| Goto (t : task)
| Atomic (f : Sess -> Sess * list task * proc)
| Send (fr : Frame) (k : bool -> proc)
| AwaitOutbound (k : option Frame -> proc)
| AwaitSink (b : bytes) (k : bool -> proc)
| AwaitConnect (addr : string) (k : bool -> proc)
| AwaitSleep (k : bool -> proc)
| AwaitRead (o : nat) (k : read_event -> proc)
| AwaitWrite (o : nat) (b : bytes) (k : bool -> proc)
| AwaitHandler (name : string) (ps : option value) (k : handler_outcome -> proc)
| AwaitMessage (k : msg_event -> proc)
| AwaitTick (k : bool -> proc)
| AwaitNow (k : Z -> proc)
| AwaitReply (c : nat) (k : reply_event -> proc).

(** A critical section that spawns nothing. *)
Definition atomically (f : Sess -> Sess * proc) : proc :=
  Atomic (fun s => let '(s', p) := f s in (s', [], p)).

Definition READ_BUFFER_SIZE : nat := 32 * 1024.

(** ** Streams *)

(** [Stream::close]: the first caller flips [closed], fires the cancel channel and
    shuts the write half down; later callers do nothing. *)
Definition stream_close (o : nat) (k : proc) : proc :=
  atomically (fun s =>
    match heap s !! o with
    | Some st =>
        if closed st then (s, k)
        else
          (upd_stream o set_closed s,
           atomically (fun s =>
             (upd_stream o fire_cancel s,
              atomically (fun s => (upd_stream o add_shutdown s, k)))))
    | None => (s, k)
    end).

(** Run [mark] on the stream and go on with its answer. *)
Definition marking (o : nat) (mark : Stream -> Stream * bool) (k : bool -> proc) : proc :=
  atomically (fun s =>
    match heap s !! o with
    | Some st => let '(st', both) := mark st in (upd_stream o (fun _ => st') s, k both)
    | None => (s, k false)
    end).

(** [Stream::read_pump], up to its loop: the read half and the cancel receiver are
    taken together, since the guard of the first lock lives to the end of the [let]. *)
Definition read_pump (o : nat) : proc :=
  atomically (fun s =>
    match heap s !! o with
    | Some st =>
        (upd_stream o (fun st => take_cancel_rx (take_read st)) s,
         if negb (read_taken st) && negb (cancel_rx_taken st) then Goto (TPumpLoop o (st_id st)) else Done)
    | None => (s, Done)
    end).

(** One round of the pump's loop. *)
Definition pump_loop (o : nat) (id : Z) : proc :=
  AwaitRead o (fun r =>
    match r with
    | RCancelled => Done
    | REof =>
        Send (new_fin id) (fun _ =>
          marking o mark_local_eof (fun both => if both then stream_close o Done else Done))
    | RBytes b =>
        Send (new_data id b) (fun ok => if ok then Goto (TPumpLoop o id) else stream_close o Done)
    | RError => Send (new_rst id LOCAL_READ_ERROR) (fun _ => stream_close o Done)
    end).

(** [Stream::dispatch]. *)
Definition stream_dispatch (o : nat) (id : Z) (fr : Frame) (k : proc) : proc :=
  match body fr with
  | BData data =>
      AwaitWrite o data (fun ok =>
        if ok then k
        else Send (new_rst id LOCAL_WRITE_ERROR) (fun _ => stream_close o k))
  | BFin =>
      atomically (fun s =>
        (upd_stream o add_shutdown s,
         marking o mark_remote_eof (fun both => if both then stream_close o k else k)))
  | BRst _ => stream_close o k
  | _ => k
  end.

(** ** Frame handlers *)

(** Who sends streams of which parity ([expect_odd_from_peer], [new_internal]). *)
Definition local_parity (r : SessionRole) : IdParity := match r with Client => Even | Server => Odd end.
Definition peer_parity (r : SessionRole) : IdParity := match r with Client => Odd | Server => Even end.

(** [handle_open_ack]. *)
Definition handle_open_ack (sid : Z) (k : proc) : proc :=
  Atomic (fun s =>
    match streams s !! sid with
    | None => (s, [], k)
    | Some o => (s, [], Atomic (fun s => (upd_stream o (set_pending false) s, [TPump o], k)))
    end).

(** [handle_nack]. *)
Definition handle_nack (sid : Z) (k : proc) : proc :=
  atomically (fun s => (set_streams (delete sid) s,
    match streams s !! sid with Some o => stream_close o k | None => k end)).

(** The address a target is dialed at: [dial_via_port_mapping] (client) looks the
    port up and ignores the host; [dial_with_allowlist] (server) checks the pair. *)
Definition join_host_port (host : string) (port : Z) : string :=
  if contains_char (is_char ":"%char) host
  then String.append "[" (String.append host (String.append "]:" (show_int port)))
  else String.append host (String.append ":" (show_int port)).

Definition dial_via_port_mapping (ports : gmap Z string) (port : Z) : option string :=
  local_addr ← ports !! port;
  Some match parse_unsigned u16_max local_addr with
       | Some port_num => String.append "127.0.0.1:" (show_int port_num)
       | None => local_addr
       end.

Definition allows_target (l : gset string) (host : string) (port : Z) : bool :=
  bool_decide (join_host_port host port ∈ l).

(** [(host, port as u16)] as an address. *)
Definition dial_with_allowlist (l : option (gset string)) (host : string) (port : Z) : option string :=
  if match l with Some l => allows_target l host port | None => true end
  then Some (join_host_port host (port mod 2 ^ 16)) else None.

Definition dial_address (c : Config) (host : string) (port : Z) : option string :=
  match role c with
  | Client => dial_via_port_mapping (port_map c) port
  | Server => dial_with_allowlist (allowlist c) host port
  end.

(** [self.dial(host, port).await]: whether a connection was made. *)
Definition dial (c : Config) (host : string) (port : Z) (k : bool -> proc) : proc :=
  match dial_address c host port with
  | None => k false
  | Some addr => AwaitConnect addr k
  end.

(** Allocate a [Stream] object. *)
Definition alloc_stream (id : Z) (s : Sess) : Sess * nat :=
  let o := fresh (dom (heap s)) in (set_heap <[o := Stream_new id]> s, o).

(** [handle_open_stream] once a connection is there: register unless the id was
    taken meanwhile, acknowledge, start the pump. *)
Definition register_open_stream (sid : Z) : proc :=
  atomically (fun s =>
    let '(s, o) := alloc_stream sid s in
    match streams s !! sid with
    | Some _ =>
        (s, stream_close o (Send (new_nack sid STREAM_ID_CONFLICT (Some false)) (fun _ => Done)))
    | None =>
        (set_streams <[sid := o]> s,
         Send (new_open_ack sid) (fun ok =>
           if ok then Atomic (fun s => (upd_stream o (set_pending false) s, [TPump o], Done))
           else atomically (fun s => (set_streams (delete sid) s, stream_close o Done))))
    end).

(** [handle_open_stream]: parity, duplicate, dial with one retry, register. *)
Definition handle_open_stream (c : Config) (sid : Z) (payload : OpenPayload) : proc :=
  if negb (has_parity (peer_parity (role c)) sid) then
    Send (new_nack sid INVALID_STREAM_ID (Some false)) (fun _ => Done)
  else
    atomically (fun s => (s,
      if bool_decide (is_Some (streams s !! sid)) then
        Send (new_nack sid STREAM_ID_CONFLICT (Some false)) (fun _ => Done)
      else
        dial c (target_host payload) (target_port payload) (fun ok =>
          if ok then register_open_stream sid
          else AwaitSleep (fun was_cancelled =>
            if was_cancelled then Done
            else dial c (target_host payload) (target_port payload) (fun ok =>
              if ok then register_open_stream sid
              else Send (new_nack sid NO_LOCAL_LISTENER None) (fun _ => Done)))))).

(** The answer to a command, given how its handler ended. *)
Definition command_response (id : Z) (outcome : handler_outcome) : Frame :=
  match outcome with
  | HOk response => new_cmd_response id response
  | HErr msg => new_cmd_error_response id msg
  | HPanic msg => new_cmd_error_response id (String.append "handler panic: " msg)
  end.

(** [handle_cmd]; the concurrency permit is given back when the task ends. *)
Definition handle_cmd (id : Z) (name : string) (ps : option value) : proc :=
  let finish (fr : Frame) :=
    Send fr (fun _ => atomically (fun s => (set_permits (S (cmd_permits s)) s, Done))) in
  atomically (fun s => (s,
    if bool_decide (name ∈ handlers s) then
      AwaitHandler name ps (fun outcome => finish (command_response id outcome))
    else finish (new_cmd_error_response id "command not found"))).

(** [handle_cmd_response]: the oneshot sender is moved out of the map and used. *)
Definition deliver (p : CmdResponsePayload) (c : Call) : Call :=
  mk_call (call_cmd_id c) (Some p) (call_result c).

Definition handle_cmd_response (p : CmdResponsePayload) (k : proc) : proc :=
  atomically (fun s =>
    match in_flight_calls s !! resp_cmd_id p with
    | None => (s, k)
    | Some c =>
        (set_calls (delete (resp_cmd_id p) (in_flight_calls s)) (alter (deliver p) c (calls s)) s, k)
    end).

(** [ack_pong]. *)
Definition ack_pong (c : Config) (k : proc) : proc :=
  match role c with
  | Client => k
  | Server =>
      atomically (fun s =>
        (if awaiting_pong s then set_heartbeat false (pong_deadline s) s else s, k))
  end.

(** The [id] field of a stream object. *)
Definition obj_id (s : Sess) (o : nat) : Z :=
  match heap s !! o with Some st => st_id st | None => 0 end.

(** [dispatch_frame]. *)
Definition dispatch_frame (c : Config) (fr : Frame) (k : proc) : proc :=
  match body fr with
  | BPing => Send new_pong (fun _ => k)
  | BPong => ack_pong c k
  | BOpenAck => handle_open_ack (stream_id fr) k
  | BNack (Some _) => handle_nack (stream_id fr) k
  | BOpen (Some payload) => Atomic (fun s => (s, [TOpenStream (stream_id fr) payload], k))
  | BData _ | BFin | BRst _ =>
      atomically (fun s => (s,
        match streams s !! stream_id fr with
        | Some o => stream_dispatch o (obj_id s o) fr k
        | None =>
            match body fr with
            | BData _ | BFin => Send (new_rst (stream_id fr) STREAM_UNKNOWN) (fun _ => k)
            | _ => k
            end
        end))
  | BCmd (Some p) =>
      Atomic (fun s =>
        match cmd_permits s with
        | S n => (set_permits n s, [THandleCmd (cmd_id p) (cmd_name p) (params p)], k)
        | O => (s, [], Send (new_cmd_error_response (cmd_id p) "server busy") (fun _ => k))
        end)
  | BCmdResponse (Some p) => handle_cmd_response p k
  | BSessionInit _ | BSessionAck _ => k
  | BNack None | BOpen None | BCmd None | BCmdResponse None | BUnknown _ => k
  end.

(** ** Loops *)

Section loops.
Context `{FrameCodec} (c : Config).

(** One round of [reader_loop]; leaving it goes on to the end of [run]. *)
Definition reader_loop : proc :=
  AwaitMessage (fun m =>
    match m with
    | MCancelled | MError | MEnd | MClose => Goto TShutdown
    | MOther => Goto TReader
    | MPayload b =>
        match decode b with
        | None => Goto TReader
        | Some fr =>
            AwaitNow (fun now =>
              atomically (fun s => (set_activity now s,
                match validate fr with
                | Err _ => Goto TReader
                | Ok _ => dispatch_frame c fr (Goto TReader)
                end)))
        end
    end).

(** [rst_all_streams] and the end of [run]. *)
Fixpoint rst_streams (l : list (Z * nat)) (k : proc) : proc :=
  match l with
  | [] => k
  | (sid, o) :: l => Send (new_rst sid "session closed") (fun _ => stream_close o (rst_streams l k))
  end.

Definition shutdown : proc :=
  atomically (fun s => (set_streams (fun _ => ∅) s,
    rst_streams (map_to_list (streams s)) (atomically (fun s => (set_cancelled s, Done))))).

(** The idle test of [heartbeat_loop]: [idle_ms as u64 > idle_timeout]. *)
Definition idle_expired (timeout_ms last now : Z) : bool :=
  negb (timeout_ms =? 0) && (as_u64 timeout_ms <? as_u64 (saturating_sub_i64 now last)).

(** One tick of [heartbeat_loop]; [interval] and [pong_timeout] in
    milliseconds, 0 for [Duration::ZERO]. *)
Definition idle_check (interval pong_timeout : Z) : proc :=
  AwaitNow (fun now =>
    atomically (fun s =>
      if idle_expired (idle_timeout_ms c) (last_activity s) now then (set_cancelled s, Done)
      else (s, Goto (THeartbeat interval pong_timeout)))).

Definition heartbeat_loop (interval pong_timeout0 : Z) : proc :=
  let pong_timeout := if pong_timeout0 =? 0 then 5000 else pong_timeout0 in
  AwaitTick (fun was_cancelled =>
    if was_cancelled then Done
    else if bool_decide (role c = Server) && (0 <? interval) then
      AwaitNow (fun now =>
        atomically (fun s => (s,
          if awaiting_pong s && (pong_deadline s <=? now) then
            atomically (fun s => (set_cancelled s, Done))
          else if awaiting_pong s then Goto (THeartbeat interval pong_timeout0)
          else
            atomically (fun s => (set_heartbeat true (now + pong_timeout) s,
              Send new_ping (fun ok =>
                if ok then idle_check interval pong_timeout0
                else atomically (fun s => (set_cancelled s, Done))))))))
    else idle_check interval pong_timeout0).

(** [stream_cleanup_loop]: drop the closed streams from the map. *)
Definition is_closed (s : Sess) (o : nat) : bool :=
  match heap s !! o with Some st => closed st | None => false end.

Definition cleanup_loop : proc :=
  AwaitTick (fun was_cancelled =>
    if was_cancelled then Done
    else atomically (fun s =>
      (set_streams (filter (fun kv => is_closed s kv.2 = false)) s, Goto TCleanup))).

(** [writer_task]: frames in order, dropping what exceeds the wire size. *)
Definition writer_exit : proc := atomically (fun s => (set_outbound [] true s, Done)).

Definition writer_task : proc :=
  AwaitOutbound (fun frame =>
    match frame with
    | None => writer_exit
    | Some frame =>
        let b := encode frame in
        if MAX_FRAME_SIZE_BYTES <? Z.of_nat (length b) then Goto TWriter
        else AwaitSink b (fun ok => if ok then Goto TWriter else writer_exit)
    end).

(** ** Calls from outside *)

Definition return_call (i : nat) (r : result (option value) RpcError) : proc :=
  atomically (fun s =>
    (set_calls (in_flight_calls s)
       (alter (fun cl => mk_call (call_cmd_id cl) (call_reply cl) (Some r)) i (calls s)) s, Done)).

(** [call_rpc]: allocate an id, register the oneshot, send, wait. *)
Definition call_outcome (p : CmdResponsePayload) : result (option value) RpcError :=
  if is_empty (resp_error p) then Ok (response p) else Err (RpcCallee (resp_error p)).

Definition forget_call (id : Z) (s : Sess) : Sess :=
  set_calls (delete id (in_flight_calls s)) (calls s) s.

Definition call_rpc (name : string) (ps : option value) : proc :=
  atomically (fun s =>
    let id := wrapping_add_u64 (next_cmd_id s) 1 in
    (set_next_cmd_id id s,
     atomically (fun s =>
       let i := length (calls s) in
       (set_calls (<[id := i]> (in_flight_calls s)) (calls s ++ [mk_call id None None]) s,
        Send (new_cmd id name ps) (fun ok =>
          if ok then
            AwaitReply i (fun r =>
              match r with
              | RepValue p => return_call i (call_outcome p)
              | RepDropped => return_call i (Err RpcSessionClosed)
              | RepTimeout => atomically (fun s => (forget_call id s, return_call i (Err RpcTimeout)))
              end)
          else atomically (fun s => (forget_call id s, return_call i (Err RpcSessionClosed)))))))).

(** [open_remote_stream]: allocate the id and insert under one lock, send OPEN. *)
Definition open_remote_stream (host : string) (port : Z) (addr : string) : proc :=
  atomically (fun s =>
    match IdGenerator_next (stream_id_gen s) (dom (streams s)) with
    | None => (s, Done)
    | Some (sid, g) =>
        let '(s, o) := alloc_stream sid (set_idgen g s) in
        (set_streams <[sid := o]> s,
         Send (new_open sid host port addr) (fun ok =>
           if ok then Done
           else atomically (fun s => (set_streams (delete sid) s, stream_close o Done))))
    end).

Definition run_task (t : task) : proc :=
  match t with
  | TReader => reader_loop
  | TShutdown => shutdown
  | THeartbeat i p => heartbeat_loop i p
  | TCleanup => cleanup_loop
  | TWriter => writer_task
  | TPump o => read_pump o
  | TPumpLoop o id => pump_loop o id
  | TOpenStream sid payload => handle_open_stream c sid payload
  | THandleCmd id name ps => handle_cmd id name ps
  | TCallRpc name ps => call_rpc name ps
  | TOpenRemote host port addr => open_remote_stream host port addr
  end.
End loops.

(** * Steps *)

(** What the world answers when a task's next node runs. *)
Inductive event : Type :=
| EGo
| EFlag (b : bool)
| ERead (r : read_event)
| EWrote (n : nat) (ok : bool)
| EMsg (m : msg_event)
| EHandler (h : handler_outcome)
| ENow (t : Z)
| EReplyTimeout.

(** Which answers are possible: a cancelled wait needs a fired cancellation, a
    read returns at least one and at most [READ_BUFFER_SIZE] bytes, and a write that
    succeeds has written everything (one that fails may have written a part). *)
Definition read_possible (s : Sess) (o : nat) (r : read_event) : bool :=
  match r with
  | RCancelled => match heap s !! o with Some st => cancel_fired st | None => false end
  | RBytes b => Nat.leb 1 (length b) && Nat.leb (length b) READ_BUFFER_SIZE
  | _ => true
  end.

Definition reply_of (s : Sess) (i : nat) : option CmdResponsePayload :=
  match calls s !! i with Some cl => call_reply cl | None => None end.

Definition still_registered (s : Sess) (i : nat) : bool :=
  match calls s !! i with
  | Some cl => bool_decide (in_flight_calls s !! call_cmd_id cl = Some i)
  | None => false
  end.

(** One step of one task: new state, spawned tasks, what is left of the task. A
    full channel leaves the sender waiting. *)
Definition step_proc `{FrameCodec} (c : Config) (s : Sess) (p : proc) (e : event)
  : option (Sess * list task * proc) :=
  match p, e with
  | Done, _ => None
  | Goto t, EGo => Some (s, [], run_task c t)
  | Atomic f, EGo => Some (f s)
  | Send fr k, EGo =>
      if outbound_closed s then Some (s, [], k false)
      else if Nat.ltb (length (outbound s)) OUTBOUND_CHANNEL_CAPACITY
      then Some (set_outbound (outbound s ++ [fr]) false s, [], k true)
      else None
  | AwaitOutbound k, EFlag true => if cancelled s then Some (s, [], k None) else None
  | AwaitOutbound k, EGo =>
      match outbound s with
      | fr :: q => Some (set_outbound q (outbound_closed s) s, [], k (Some fr))
      | [] => None
      end
  | AwaitSink b k, EFlag ok => Some (if ok then add_wire b s else s, [], k ok)
  | AwaitConnect addr k, EFlag ok => Some (if ok then add_dialed addr s else s, [], k ok)
  | AwaitSleep k, EFlag was_cancelled =>
      if was_cancelled && negb (cancelled s) then None else Some (s, [], k was_cancelled)
  | AwaitRead o k, ERead r => if read_possible s o r then Some (s, [], k r) else None
  | AwaitWrite o b k, EWrote n ok =>
      if ok && negb (Nat.eqb n (length b)) then None
      else Some (upd_stream o (add_written (take n b)) s, [], k ok)
  | AwaitHandler _ _ k, EHandler h => Some (s, [], k h)
  | AwaitMessage k, EMsg m =>
      match m with
      | MCancelled => if cancelled s then Some (s, [], k m) else None
      | _ => Some (s, [], k m)
      end
  | AwaitTick k, EFlag was_cancelled =>
      if was_cancelled && negb (cancelled s) then None else Some (s, [], k was_cancelled)
  | AwaitNow k, ENow t => Some (s, [], k t)
  | AwaitReply i k, EGo =>
      match reply_of s i with
      | Some p => Some (s, [], k (RepValue p))
      | None => if still_registered s i then None else Some (s, [], k RepDropped)
      end
  | AwaitReply i k, EReplyTimeout => Some (s, [], k RepTimeout)
  | _, _ => None
  end.

Definition conf : Type := Sess * list proc.

(** The [i]-th task performs its next node with answer [e]. *)
Definition step_at `{FrameCodec} (c : Config) (i : nat) (e : event) (x : conf) : option conf :=
  p ← x.2 !! i;
  r ← step_proc c x.1 p e;
  let '(s', ts, p') := r in
  Some (s', <[i := p']> x.2 ++ map (run_task c) ts).

(** The API calls that add a task from outside; besides, a handler can be registered
    and the session's cancellation token can be cancelled at any time. *)
Definition external (t : task) : bool :=
  match t with TCallRpc _ _ | TOpenRemote _ _ _ => true | _ => false end.

Inductive step `{FrameCodec} (c : Config) : conf -> conf -> Prop :=
| step_task i e x y : step_at c i e x = Some y -> step c x y
| step_call t s ps : external t = true -> step c (s, ps) (s, ps ++ [run_task c t])
| step_register name s ps :
    step c (s, ps) (set_handlers ({[name]} ∪ handlers s) s, ps)
| step_cancel s ps : step c (s, ps) (set_cancelled s, ps).

(** [new_internal], then the writer task spawned by the handshake and the tasks
    of [run]. *)
Definition new_internal (c : Config) (now : Z) : Sess :=
  mk_sess ∅ ∅ (IdGenerator_new (local_parity (role c))) now false now ∅ ∅ [] 1 32 false [] false [] [].

Definition initial `{FrameCodec} (c : Config) (now interval pong_timeout : Z) : conf :=
  (new_internal c now,
   map (run_task c) [TWriter; TReader; THeartbeat interval pong_timeout; TCleanup]).

Definition reachable `{FrameCodec} (c : Config) (x : conf) : Prop :=
  exists now interval pong_timeout, rtc (step c) (initial c now interval pong_timeout) x.
