(* ===== verification/SessionInv.v ===== *)
(** Reasoning about the session's task pool. [verified] is a rely-guarantee
    predicate on tasks: from any state that satisfies the invariant [I] and the
    facts [K] the task has established, each of its critical sections keeps [I],
    respects the transition relation [R], and leaves it with facts that other
    tasks' transitions cannot break. [verified_reachable] turns it into an
    invariant of every interleaving.

    The instances: the stream table, the RPC channel, the wire. *)

From stdpp Require Import base gmap fin_maps strings list.
From Stdlib Require Import ZArith Lia Strings.Byte.
From S2P Require Import Prelude Text Json Frame Codec IdGen Session.

(** * The framework *)

(** The state changes that belong to a step itself, not to a task's code. *)
Inductive builtin : Sess -> Sess -> Prop :=
| builtin_send fr s :
    outbound_closed s = false -> (length (outbound s) < OUTBOUND_CHANNEL_CAPACITY)%nat ->
    builtin s (set_outbound (outbound s ++ [fr]) false s)
| builtin_recv fr q s : outbound s = fr :: q -> builtin s (set_outbound q (outbound_closed s) s)
| builtin_written o b s : builtin s (upd_stream o (add_written b) s)
| builtin_register name s : builtin s (set_handlers ({[name]} ∪ handlers s) s)
| builtin_cancel s : builtin s (set_cancelled s).

Section rely_guarantee.
Context `{FrameCodec} (c : Config) (I : Sess -> Prop) (R : Sess -> Sess -> Prop).

Definition stable (K : Sess -> Prop) : Prop := forall s s', R s s' -> I s -> K s -> K s'.

Definition keeps (s s' : Sess) : Prop := I s' /\ R s s'.

Inductive verified : (Sess -> Prop) -> proc -> Prop :=
| v_done K : verified K Done
| v_goto K t : verified K (Goto t)
| v_atomic K f :
    (forall s, I s -> K s -> keeps s (f s).1.1 /\ exists K', stable K' /\ K' (f s).1.1 /\ verified K' (f s).2) ->
    verified K (Atomic f)
| v_send K fr k : (forall b, verified K (k b)) -> verified K (Send fr k)
| v_outbound K k : (forall o, verified K (k o)) -> verified K (AwaitOutbound k)
| v_sink K b k :
    (forall s, I s -> keeps s (add_wire b s)) -> (forall ok, verified K (k ok)) -> verified K (AwaitSink b k)
| v_connect K a k :
    (forall s, I s -> keeps s (add_dialed a s)) -> (forall ok, verified K (k ok)) -> verified K (AwaitConnect a k)
| v_sleep K k : (forall b, verified K (k b)) -> verified K (AwaitSleep k)
| v_read K o k : (forall r, verified K (k r)) -> verified K (AwaitRead o k)
| v_write K o b k : (forall ok, verified K (k ok)) -> verified K (AwaitWrite o b k)
| v_handler K n ps k : (forall h, verified K (k h)) -> verified K (AwaitHandler n ps k)
| v_message K k : (forall m, verified K (k m)) -> verified K (AwaitMessage k)
| v_tick K k : (forall b, verified K (k b)) -> verified K (AwaitTick k)
| v_now K k : (forall t, verified K (k t)) -> verified K (AwaitNow k)
| v_reply K i k :
    (forall p, exists K', stable K' /\ (forall s, K s -> reply_of s i = Some p -> K' s) /\ verified K' (k (RepValue p))) ->
    verified K (k RepDropped) -> verified K (k RepTimeout) -> verified K (AwaitReply i k).

Definition holding (s : Sess) (p : proc) : Prop := exists K, stable K /\ K s /\ verified K p.

Hypothesis R_refl : forall s, R s s.
Hypothesis keeps_builtin : forall s s', builtin s s' -> I s -> keeps s s'.
Hypothesis tasks_verified : forall t, verified (fun _ => True) (run_task c t).

Lemma keeps_refl s : I s -> keeps s s.
Proof. by split. Qed.

Lemma holding_task s t : holding s (run_task c t).
Proof. exists (fun _ => True). by repeat split. Qed.

(** One node of a verified task. *)
Lemma step_proc_keeps s p e s' ts p' :
  I s -> holding s p -> step_proc c s p e = Some (s', ts, p') -> keeps s s' /\ holding s' p'.
Proof.
  intros HI (K & Hst & HK & Hv) Hstep.
  assert (Hsame : forall s' k, verified K k -> keeps s s' -> keeps s s' /\ holding s' k).
  { clear s' Hstep. intros s' k Hk Hks. split; [done|]. exists K. split; [done|]. split; [|done].
    destruct Hks. by eapply Hst. }
  assert (Hsame0 : forall k, verified K k -> keeps s s /\ holding s k).
  { intros k Hk. by apply Hsame; [|apply keeps_refl]. }
  destruct Hv as [|K t|K f Hf|K fr k Hk|K k Hk|K b k Hb Hk|K a k Ha Hk|K k Hk|K o k Hk|K o b k Hk
                 |K n ps k Hk|K k Hk|K k Hk|K k Hk|K i k Hr Hd Ht];
    destruct e; simpl in Hstep; try discriminate Hstep.
  - simplify_eq. split; [by apply keeps_refl|apply holding_task].
  - destruct (Hf s HI HK) as [Hks (K' & ? & ? & ?)]. simplify_eq. rewrite Hstep in *. simpl in *.
    split; [done|]. by exists K'.
  - destruct (outbound_closed s) eqn:Hc; simplify_eq; [by apply Hsame0|].
    destruct (Nat.ltb _ _) eqn:Hl; simplify_eq. apply Hsame; [done|]. apply keeps_builtin; [|done].
    constructor; [done|]. by apply Nat.ltb_lt.
  - destruct (outbound s) as [|fr q] eqn:Hq; simplify_eq. apply Hsame; [done|].
    apply keeps_builtin; [|done]. by econstructor.
  - destruct b; [|done]. destruct (cancelled s); simplify_eq. by apply Hsame0.
  - destruct b0; simplify_eq; [|by apply Hsame0]. apply Hsame; auto.
  - destruct b; simplify_eq; [|by apply Hsame0]. apply Hsame; auto.
  - destruct (_ && _)%bool; simplify_eq. by apply Hsame0.
  - destruct (read_possible _ _ _); simplify_eq. by apply Hsame0.
  - destruct (_ && _)%bool; simplify_eq. apply Hsame; [done|]. apply keeps_builtin; [constructor|done].
  - simplify_eq. by apply Hsame0.
  - destruct m; try (destruct (cancelled s)); simplify_eq; by apply Hsame0.
  - destruct (_ && _)%bool; simplify_eq. by apply Hsame0.
  - simplify_eq. by apply Hsame0.
  - destruct (reply_of s i) as [p|] eqn:Hp.
    + simplify_eq. split; [by apply keeps_refl|]. destruct (Hr p) as (K' & ? & HK' & ?). exists K'.
      split; [done|]. split; [|done]. by apply HK'.
    + destruct (still_registered s i); simplify_eq. by apply Hsame0.
  - simplify_eq. by apply Hsame0.
Qed.

Lemma holding_rely s s' p : I s -> R s s' -> holding s p -> holding s' p.
Proof. intros HI HR (K & Hst & HK & Hv). exists K. split; [done|]. split; [by eapply Hst|done]. Qed.

Definition pool_verified (x : conf) : Prop := I x.1 /\ Forall (holding x.1) x.2.

Lemma pool_verified_step x y : pool_verified x -> step c x y -> pool_verified y /\ R x.1 y.1.
Proof.
  intros [HI HP] Hs. destruct Hs as [i e x y Hat|t s ps _|name s ps|s ps]; simpl in *.
  - unfold step_at in Hat. destruct (x.2 !! i) as [p|] eqn:Hp; [|done]. simpl in Hat.
    destruct (step_proc c x.1 p e) as [[[s' ts] p']|] eqn:Hstep; [|done]. simplify_eq/=.
    destruct (step_proc_keeps _ _ _ _ _ _ HI (Forall_lookup_1 _ _ _ _ HP Hp) Hstep) as [[HI' HR] Hp'].
    split; [|done]. split; [done|]. apply Forall_app; split.
    + apply Forall_insert; [|done]. eapply Forall_impl; [exact HP|]. intros. eapply holding_rely; [exact HI|exact HR|done].
    + apply Forall_forall. intros q Hq. apply list_elem_of_fmap in Hq as (t & -> & _). apply holding_task.
  - split; [|done]. split; [done|]. apply Forall_app; split; [done|].
    constructor; [apply holding_task|done].
  - destruct (keeps_builtin _ _ (builtin_register name s) HI) as [HI' HR].
    split; [|done]. split; [done|]. eapply Forall_impl; [exact HP|]. intros. eapply holding_rely; [exact HI|exact HR|done].
  - destruct (keeps_builtin _ _ (builtin_cancel s) HI) as [HI' HR].
    split; [|done]. split; [done|]. eapply Forall_impl; [exact HP|]. intros. eapply holding_rely; [exact HI|exact HR|done].
Qed.

Hypothesis I_initial : forall now, I (new_internal c now).

Lemma pool_verified_reachable x : reachable c x -> pool_verified x.
Proof.
  intros (now & iv & pt & Hr). remember (initial c now iv pt) as x0 eqn:E0.
  assert (Hv : pool_verified x0).
  { subst. split; [apply I_initial|]. apply Forall_map, Forall_true. intros t. apply holding_task. }
  clear E0. induction Hr as [|x y z Hxy _ IH]; [done|].
  apply IH. by eapply pool_verified_step.
Qed.

Lemma verified_invariant x : reachable c x -> I x.1.
Proof. intros Hx. by apply pool_verified_reachable. Qed.

Lemma verified_transition x y : reachable c x -> step c x y -> R x.1 y.1.
Proof. intros Hx Hxy. eapply pool_verified_step; [|done]. by apply pool_verified_reachable. Qed.
End rely_guarantee.

(** * Executions *)

(** A schedule names, move by move, who runs and what the world answers. *)
Inductive move : Type :=
| MTask (i : nat) (e : event)
| MCall (t : task)
| MRegister (name : string)
| MCancel.

Section schedules.
Context `{FrameCodec} (c : Config).

Definition make_move (m : move) (x : conf) : option conf :=
  match m with
  | MTask i e => step_at c i e x
  | MCall t => if external t then Some (x.1, x.2 ++ [run_task c t]) else None
  | MRegister name => Some (set_handlers ({[name]} ∪ handlers x.1) x.1, x.2)
  | MCancel => Some (set_cancelled x.1, x.2)
  end.

Definition run_schedule (l : list move) (x : conf) : option conf :=
  foldl (fun x m => x ← x; make_move m x) (Some x) l.

Lemma make_move_step m x y : make_move m x = Some y -> step c x y.
Proof.
  destruct x as [s ps], m as [i e|t|name|]; simpl; intros Hm.
  - by eapply step_task.
  - destruct (external t) eqn:E; simplify_eq. by constructor.
  - simplify_eq. constructor.
  - simplify_eq. constructor.
Qed.

Lemma run_schedule_none l : foldl (fun (x : option conf) m => x ← x; make_move m x) None l = None.
Proof. by induction l. Qed.

Lemma run_schedule_rtc l x y : run_schedule l x = Some y -> rtc (step c) x y.
Proof.
  unfold run_schedule. revert x. induction l as [|m l IH]; simpl; intros x Hl; [by simplify_eq|].
  destruct (make_move m x) as [z|] eqn:E; [|by rewrite run_schedule_none in Hl].
  eapply rtc_l; [by eapply make_move_step|by apply IH].
Qed.

Lemma run_schedule_reachable l now iv pt y :
  run_schedule l (initial c now iv pt) = Some y -> reachable c y.
Proof. intros Hl. exists now, iv, pt. by eapply run_schedule_rtc. Qed.

(** A property of the configuration a schedule leads to. *)
Definition leads_to (l : list move) (now iv pt : Z) (P : conf -> bool) : bool :=
  match run_schedule l (initial c now iv pt) with Some y => P y | None => false end.

Lemma leads_to_reachable l now iv pt P :
  leads_to l now iv pt P = true -> exists y, reachable c y /\ P y = true.
Proof.
  unfold leads_to. destruct (run_schedule _ _) as [y|] eqn:E; [|done]. intros HP.
  exists y. split; [by eapply run_schedule_reachable|done].
Qed.
End schedules.
