(* ===== verification/SessionSafety.v ===== *)
(** Invariants of the session under every interleaving of its tasks
    ([session_inv], [evolves]): the stream table and the stream objects, the RPC
    channel, what is written to the wire and which addresses are dialed. *)

From stdpp Require Import base gmap fin_maps strings list.
From Stdlib Require Import ZArith Lia Strings.Byte.
From S2P Require Import Prelude Text Json Frame Codec IdGen Session SessionInv.

(** * What never goes back *)

(** A stream object only moves forward: its flags are set and never cleared
    ([pending] the other way round), and what was written stays written. *)
Record stream_le (st st' : Stream) : Prop := {
  le_id : st_id st' = st_id st;
  le_pending : pending st' = true -> pending st = true;
  le_local : local_eof st = true -> local_eof st' = true;
  le_remote : remote_eof st = true -> remote_eof st' = true;
  le_closed : closed st = true -> closed st' = true;
  le_read : read_taken st = true -> read_taken st' = true;
  le_cancel : cancel_fired st = true -> cancel_fired st' = true;
  le_written : written st `prefix_of` written st';
  le_shutdowns : (shutdowns st <= shutdowns st')%nat
}.

Record call_le (cl cl' : Call) : Prop := {
  le_cmd_id : call_cmd_id cl' = call_cmd_id cl;
  le_reply : forall p, call_reply cl = Some p -> call_reply cl' = Some p
}.

Record evolves (s s' : Sess) : Prop := {
  ev_heap : forall o st, heap s !! o = Some st -> exists st', heap s' !! o = Some st' /\ stream_le st st';
  ev_streams : forall sid o, streams s !! sid = Some o -> streams s' !! sid = Some o \/ streams s' !! sid = None;
  ev_calls : forall i cl, calls s !! i = Some cl -> exists cl', calls s' !! i = Some cl' /\ call_le cl cl';
  ev_wire : wire s `prefix_of` wire s';
  ev_dialed : dialed s `prefix_of` dialed s';
  ev_cancelled : cancelled s = true -> cancelled s' = true
}.

#[global] Instance stream_le_preorder : PreOrder stream_le.
Proof.
  split.
  - intros st. by split.
  - intros a b d [] []. split; try (etrans; eassumption); auto; congruence.
Qed.

#[global] Instance call_le_preorder : PreOrder call_le.
Proof.
  split.
  - intros cl. by split.
  - intros a b d [] []. split; [congruence|auto].
Qed.

(** * The invariant *)

(** Whose ids may be in the table. *)
Definition sid_ok (c : Config) (sid : Z) : Prop :=
  id_ok (local_parity (role c)) sid \/ has_parity (peer_parity (role c)) sid = true.

(** How a call can have ended, given what its oneshot channel received. *)
Definition result_ok_for (cl : Call) (r : result (option value) RpcError) : Prop :=
  (exists p, call_reply cl = Some p /\ r = call_outcome p) \/ r = Err RpcTimeout \/ r = Err RpcSessionClosed.

Record call_inv (cl : Call) : Prop := {
  ci_reply : forall p, call_reply cl = Some p -> resp_cmd_id p = call_cmd_id cl;
  ci_result : forall r, call_result cl = Some r -> result_ok_for cl r
}.

Section invariant.
Context `{FrameCodec} (c : Config).

Definition sent (b : bytes) : Prop := exists fr, b = encode fr /\ Z.of_nat (length b) <= MAX_FRAME_SIZE_BYTES.
Definition permitted (a : string) : Prop := exists host port, dial_address c host port = Some a.

Record session_inv (s : Sess) : Prop := {
  inv_streams : forall sid o, streams s !! sid = Some o ->
    sid_ok c sid /\ exists st, heap s !! o = Some st /\ st_id st = sid;
  inv_idgen : idgen_wf (local_parity (role c)) (stream_id_gen s);
  inv_in_flight : forall id i, in_flight_calls s !! id = Some i ->
    exists cl, calls s !! i = Some cl /\ call_cmd_id cl = id /\ call_reply cl = None;
  inv_calls : forall i cl, calls s !! i = Some cl -> call_inv cl;
  inv_outbound : (length (outbound s) <= OUTBOUND_CHANNEL_CAPACITY)%nat;
  inv_wire : Forall sent (wire s);
  inv_dialed : Forall permitted (dialed s)
}.

Abbreviation kept := (keeps session_inv evolves).

Lemma evolves_refl s : evolves s s.
Proof. split; try done; eauto; intros; eexists; split; try done; reflexivity. Qed.

(** Updates that leave the streams and calls alone, or only remove entries from
    the tables. *)
Lemma kept_frame s s' :
  session_inv s ->
  heap s' = heap s -> stream_id_gen s' = stream_id_gen s -> calls s' = calls s ->
  streams s' ⊆ streams s -> in_flight_calls s' ⊆ in_flight_calls s ->
  (length (outbound s') <= OUTBOUND_CHANNEL_CAPACITY)%nat ->
  (exists w, wire s' = wire s ++ w /\ Forall sent w) ->
  (exists d, dialed s' = dialed s ++ d /\ Forall permitted d) ->
  (cancelled s = true -> cancelled s' = true) ->
  kept s s'.
Proof.
  intros [] Hh Hg Hc Hs Hf Ho (w & Hw & ?) (d & Hd & ?) Hx. split; split; rewrite ?Hh, ?Hg, ?Hc, ?Hw, ?Hd; try done.
  - intros sid o Hl. apply inv_streams0. by eapply lookup_weaken.
  - intros id i Hl. apply inv_in_flight0. by eapply lookup_weaken.
  - by apply Forall_app.
  - by apply Forall_app.
  - intros o st Hl. exists st. split; [done|reflexivity].
  - intros sid o Hl. destruct (streams s' !! sid) as [o'|] eqn:E; [|by right].
    pose proof (lookup_weaken _ _ _ _ E Hs). left. congruence.
  - intros i cl Hl. exists cl. split; [done|reflexivity].
  - by apply prefix_app_r.
  - by apply prefix_app_r.
Qed.

Lemma kept_upd s o f :
  (forall st, heap s !! o = Some st -> stream_le st (f st)) -> session_inv s -> kept s (upd_stream o f s).
Proof.
  intros Hf [].
  assert (Hle : forall o' st, heap s !! o' = Some st ->
    exists st', alter f o (heap s) !! o' = Some st' /\ stream_le st st').
  { intros o' st Ho. destruct (decide (o' = o)) as [->|Hne].
    - rewrite lookup_alter_eq, Ho. simpl. eauto.
    - rewrite lookup_alter_ne by done. exists st. split; [done|reflexivity]. }
  split; split; simpl; try done; eauto.
  - intros sid o' Hs. destruct (inv_streams0 _ _ Hs) as (? & st & Ho & <-). split; [done|].
    destruct (Hle _ _ Ho) as (st' & ? & L). exists st'. split; [done|apply L].
  - intros i cl Hl. exists cl. split; [done|reflexivity].
Qed.

(** A new stream object enters the table under a free id. *)
Lemma kept_alloc s sid g :
  idgen_wf (local_parity (role c)) g -> session_inv s -> kept s (alloc_stream sid (set_idgen g s)).1.
Proof.
  intros Hg [].
  assert (Hle : forall o' st, heap s !! o' = Some st ->
    <[fresh (dom (heap s)) := Stream_new sid]> (heap s) !! o' = Some st).
  { intros o' st Ho. rewrite lookup_insert_ne; [done|]. intros <-.
    eapply (is_fresh (dom (heap s))). apply elem_of_dom. eauto. }
  split; split; simpl; try done; eauto.
  - intros sid' o' Hs. destruct (inv_streams0 _ _ Hs) as (? & st & ? & <-). eauto.
  - intros o' st Ho. exists st. split; [by auto|reflexivity].
  - intros i cl Hl. exists cl. split; [done|reflexivity].
Qed.

Lemma kept_insert s sid g :
  streams s !! sid = None -> sid_ok c sid -> idgen_wf (local_parity (role c)) g -> session_inv s ->
  kept s (set_streams <[sid := (alloc_stream sid (set_idgen g s)).2]> (alloc_stream sid (set_idgen g s)).1).
Proof.
  intros Hn Hok Hg HI. destruct (kept_alloc s sid g Hg HI) as [[] []]. simpl in *.
  split; split; simpl; try done; eauto.
  - intros sid' o' Hs. apply lookup_insert_Some in Hs as [[<- <-]|[Hne Hs]]; [|by apply inv_streams0].
    split; [done|]. exists (Stream_new sid). by rewrite lookup_insert_eq.
  - intros sid' o' Hs. left. rewrite lookup_insert_ne; [done|]. by intros <-; rewrite Hn in Hs.
Qed.

(** Calls are added and answered; nothing else about them changes. *)
Lemma kept_calls s m l :
  (forall i cl, calls s !! i = Some cl -> exists cl', l !! i = Some cl' /\ call_le cl cl') ->
  (forall i cl, l !! i = Some cl -> call_inv cl) ->
  (forall id i, m !! id = Some i -> exists cl, l !! i = Some cl /\ call_cmd_id cl = id /\ call_reply cl = None) ->
  session_inv s -> kept s (set_calls m l s).
Proof.
  intros Hle Hinv Hm []. split; split; simpl; try done; eauto.
  intros o st Ho. exists st. split; [done|reflexivity].
Qed.

Lemma kept_new_call s id :
  session_inv s ->
  kept s (set_calls (<[id := length (calls s)]> (in_flight_calls s)) (calls s ++ [mk_call id None None]) s).
Proof.
  intros HI. destruct (HI) as [_ _ Hf Hc _ _ _]. apply kept_calls; [| | |done].
  - intros i cl Hl. exists cl. split; [by apply lookup_app_l_Some|reflexivity].
  - intros i cl Hl. apply lookup_snoc_Some in Hl as [[_ Hl]|[_ <-]]; [by eapply Hc|]. by split.
  - intros id' i Hl. apply lookup_insert_Some in Hl as [[<- <-]|[Hne Hl]].
    + exists (mk_call id None None). by rewrite list_lookup_middle.
    + destruct (Hf _ _ Hl) as (cl & ? & ? & ?). exists cl. split; [by apply lookup_app_l_Some|done].
Qed.

(** A response reaches the call that waits for it. *)
Lemma kept_deliver s p i :
  in_flight_calls s !! resp_cmd_id p = Some i -> session_inv s ->
  kept s (set_calls (delete (resp_cmd_id p) (in_flight_calls s)) (alter (deliver p) i (calls s)) s).
Proof.
  intros Hi HI. destruct (HI) as [_ _ Hf Hc _ _ _]. destruct (Hf _ _ Hi) as (cl0 & Hl0 & Hid & Hnone).
  apply kept_calls; [| | |done].
  - intros j cl Hl. destruct (decide (j = i)) as [->|Hne].
    + exists (deliver p cl). rewrite list_lookup_alter_eq, Hl. split; [done|]. split; [done|].
      intros q Hq. congruence.
    + exists cl. rewrite list_lookup_alter_ne by done. split; [done|reflexivity].
  - intros j cl Hl. destruct (decide (j = i)) as [->|Hne].
    + rewrite list_lookup_alter_eq, Hl0 in Hl. injection Hl as <-. destruct (Hc _ _ Hl0) as [Hr Hres].
      split; simpl; [naive_solver|]. intros r Hr'. destruct (Hres _ Hr') as [(q & Hq & _)|?]; [congruence|by right].
    + rewrite list_lookup_alter_ne in Hl by done. by eapply Hc.
  - intros id j Hl. apply lookup_delete_Some in Hl as [Hne Hl]. destruct (Hf _ _ Hl) as (cl & Hj & <- & ?).
    exists cl. rewrite list_lookup_alter_ne; [done|]. intros ->. congruence.
Qed.

Lemma kept_return s i r :
  (forall cl, calls s !! i = Some cl -> result_ok_for cl r) -> session_inv s ->
  kept s (set_calls (in_flight_calls s)
    (alter (fun cl => mk_call (call_cmd_id cl) (call_reply cl) (Some r)) i (calls s)) s).
Proof.
  intros Hr HI. destruct (HI) as [_ _ Hf Hc _ _ _]. set (f := fun cl => _).
  assert (Halt : forall j cl, calls s !! j = Some cl -> exists cl', alter f i (calls s) !! j = Some cl' /\
    call_cmd_id cl' = call_cmd_id cl /\ call_reply cl' = call_reply cl).
  { intros j cl Hl. destruct (decide (j = i)) as [->|Hne].
    - rewrite list_lookup_alter_eq, Hl. by exists (f cl).
    - rewrite list_lookup_alter_ne by done. by exists cl. }
  apply kept_calls; [| | |done].
  - intros j cl Hl. destruct (Halt _ _ Hl) as (cl' & ? & Hid & Hrep). exists cl'. split; [done|].
    split; [done|]. by rewrite Hrep.
  - intros j cl Hl. destruct (decide (j = i)) as [->|Hne].
    + rewrite list_lookup_alter_eq in Hl. destruct (calls s !! i) as [cl0|] eqn:E; [|done].
      injection Hl as <-. destruct (Hc _ _ E). split; simpl; [done|]. intros r' [= <-]. by apply (Hr cl0).
    + rewrite list_lookup_alter_ne in Hl by done. by eapply Hc.
  - intros id j Hl. destruct (Hf _ _ Hl) as (cl & Hj & <- & Hn).
    destruct (Halt _ _ Hj) as (cl' & ? & ? & E). exists cl'. by rewrite E.
Qed.

Lemma kept_builtin s s' : builtin s s' -> session_inv s -> kept s s'.
Proof.
  intros Hb HI. pose proof (inv_outbound _ HI) as Hlen. destruct Hb as [fr s Hc Hl|fr q s Hq|o b s|name s|s].
  5: apply kept_frame; try done; by exists []; rewrite app_nil_r.
  4: apply kept_frame; try done; by exists []; rewrite app_nil_r.
  3: { apply kept_upd; [|done]. intros st _. destruct st; split; simpl; try done; by apply prefix_app_r. }
  1: apply kept_frame; try done; simpl; try (by exists []; rewrite app_nil_r); rewrite length_app; simpl; lia.
  apply kept_frame; try done; simpl; try (by exists []; rewrite app_nil_r). rewrite Hq in Hlen. simpl in Hlen. lia.
Qed.

(** ** Every task respects the invariant *)

Abbreviation ver := (verified session_inv evolves (fun _ => True)).

Lemma ver_atomic f :
  (forall s, session_inv s -> kept s (f s).1.1 /\ ver (f s).2) -> ver (Atomic f).
Proof. intros Hf. constructor. intros s HI _. destruct (Hf s HI). split; [done|]. by exists (fun _ => True). Qed.

Lemma ver_atomically f :
  (forall s, session_inv s -> kept s (f s).1 /\ ver (f s).2) -> ver (atomically f).
Proof. intros Hf. apply ver_atomic. intros s HI. specialize (Hf s HI). by destruct (f s). Qed.

Lemma kept_same s : session_inv s -> kept s s.
Proof. intros. split; [done|apply evolves_refl]. Qed.

Ltac keep_frame :=
  apply kept_frame; try done; simpl;
  try (by eapply inv_outbound); try (by exists []; rewrite app_nil_r); try (by apply delete_subseteq).

Lemma kept_set_streams s f : f (streams s) ⊆ streams s -> session_inv s -> kept s (set_streams f s).
Proof. intros. keep_frame. Qed.

Lemma kept_forget s id : session_inv s -> kept s (forget_call id s).
Proof. intros. keep_frame. Qed.

Ltac keep_stream :=
  apply kept_upd; [|done]; let st := fresh "st" in intros st _; destruct st; split; simpl; solve [done | by apply prefix_app_r | lia].

Lemma ver_stream_close o k : ver k -> ver (stream_close o k).
Proof.
  intros Hk. apply ver_atomically. intros s HI. destruct (heap s !! o) as [st|]; [|by split; [apply kept_same|]].
  destruct (closed st); simpl; [by split; [apply kept_same|]|]. split; [keep_stream|].
  apply ver_atomically. intros s2 HI2. split; [keep_stream|].
  apply ver_atomically. intros s3 HI3. split; [keep_stream|done].
Qed.

Lemma ver_marking o mark k :
  (forall st, stream_le st (mark st).1) -> (forall b, ver (k b)) -> ver (marking o mark k).
Proof.
  intros Hm Hk. apply ver_atomically. intros s HI.
  destruct (heap s !! o) as [st|] eqn:E; simpl; [|split; [by apply kept_same|apply Hk]].
  destruct (mark st) as [st' b] eqn:Em. split; [|apply Hk]. apply kept_upd; [|done].
  intros st2 Hst2. specialize (Hm st). rewrite Em in Hm. by simplify_eq.
Qed.

Lemma ver_dial host port k : (forall b, ver (k b)) -> ver (dial c host port k).
Proof.
  intros Hk. unfold dial. destruct (dial_address c host port) as [a|] eqn:E; [|apply Hk].
  constructor; [|apply Hk]. intros s HI. keep_frame. exists [a]. split; [done|]. repeat constructor. by exists host, port.
Qed.

Lemma set_idgen_same s : set_idgen (stream_id_gen s) s = s.
Proof. by destruct s. Qed.

(** Descend into a task's tree: intermediate nodes have no effect of their own. *)
Ltac descend :=
  repeat first
    [ progress intros
    | apply ver_stream_close
    | apply ver_dial
    | match goal with
      | |- _ /\ _ => split
      | |- verified _ _ _ (if ?b then _ else _) => destruct b
      | |- verified _ _ _ (match ?x with _ => _ end) => destruct x
      | |- verified _ _ _ (atomically _) => apply ver_atomically; intros ? ?; split
      | |- verified _ _ _ (Atomic _) => apply ver_atomic; intros ? ?; split
      | |- verified _ _ _ ?p =>
          lazymatch p with
          | Done => idtac | Goto _ => idtac | Send _ _ => idtac | AwaitOutbound _ => idtac
          | AwaitSleep _ => idtac | AwaitRead _ _ => idtac | AwaitWrite _ _ _ => idtac
          | AwaitHandler _ _ _ => idtac | AwaitMessage _ => idtac | AwaitTick _ => idtac
          | AwaitNow _ => idtac
          end; constructor
      end
    | progress cbn [fst snd]
    | assumption ].

Ltac keep :=
  first [ by apply kept_same | keep_stream | apply kept_forget; assumption | by apply kept_set_streams; [apply delete_subseteq|]
        | keep_frame; fail ].

Lemma ver_read_pump o : ver (read_pump o).
Proof. apply ver_atomically. intros s HI. destruct (heap s !! o) as [st|]; simpl; descend; keep. Qed.

Lemma ver_pump_loop o id : ver (pump_loop o id).
Proof.
  unfold pump_loop. descend. apply ver_marking; [|descend].
  intros st. destruct st; by split; simpl.
Qed.

Lemma ver_stream_dispatch o id fr k : ver k -> ver (stream_dispatch o id fr k).
Proof.
  intros Hk. unfold stream_dispatch. destruct (body fr); descend; try keep.
  apply ver_marking; [|descend]. intros st. destruct st; by split; simpl.
Qed.

Lemma ver_handle_open_ack sid k : ver k -> ver (handle_open_ack sid k).
Proof.
  intros Hk. apply ver_atomic. intros s HI. destruct (streams s !! sid); simpl; (split; [by apply kept_same|]); descend.
  keep.
Qed.

Lemma ver_handle_nack sid k : ver k -> ver (handle_nack sid k).
Proof. intros Hk. unfold handle_nack. descend. keep. Qed.

Lemma ver_register_open_stream sid :
  has_parity (peer_parity (role c)) sid = true -> ver (register_open_stream sid).
Proof.
  intros Hp. apply ver_atomically. intros s HI. simpl.
  destruct (streams s !! sid) eqn:E; simpl.
  - split; [|descend]. pose proof (kept_alloc s sid _ (inv_idgen _ HI) HI) as Hk.
    by rewrite set_idgen_same in Hk.
  - split.
    + pose proof (kept_insert s sid _ E (or_intror Hp) (inv_idgen _ HI) HI) as Hk. by rewrite set_idgen_same in Hk.
    + descend; keep.
Qed.

Lemma ver_handle_open_stream sid payload : ver (handle_open_stream c sid payload).
Proof.
  unfold handle_open_stream. destruct (has_parity _ sid) eqn:Hp; cbn [negb]; descend; try keep;
    by apply ver_register_open_stream.
Qed.

Lemma ver_handle_cmd id name ps : ver (handle_cmd id name ps).
Proof. unfold handle_cmd. descend; keep. Qed.

Lemma ver_handle_cmd_response p k : ver k -> ver (handle_cmd_response p k).
Proof.
  intros Hk. apply ver_atomically. intros s HI. destruct (in_flight_calls s !! _) as [i|] eqn:E; simpl.
  - split; [|done]. by apply kept_deliver.
  - split; [by apply kept_same|done].
Qed.

Lemma ver_dispatch_frame fr k : ver k -> ver (dispatch_frame c fr k).
Proof.
  intros Hk. unfold dispatch_frame, ack_pong.
  destruct (body fr); descend;
    auto using ver_handle_open_ack, ver_handle_nack, ver_handle_cmd_response, ver_stream_dispatch; try keep.
  - destruct (awaiting_pong s); keep.
  - destruct (cmd_permits s); keep.
  - destruct (cmd_permits s); descend.
Qed.

Lemma ver_reader_loop : ver (reader_loop c).
Proof. unfold reader_loop. descend; try keep. apply ver_dispatch_frame. descend. Qed.

Lemma ver_rst_streams l k : ver k -> ver (rst_streams l k).
Proof. intros Hk. induction l as [|[sid o] l IH]; simpl; descend. Qed.

Lemma ver_shutdown : ver shutdown.
Proof.
  unfold shutdown. descend.
  - apply kept_set_streams; [apply map_empty_subseteq|done].
  - apply ver_rst_streams. descend. keep.
Qed.

Lemma ver_idle_check i p : ver (idle_check c i p).
Proof. unfold idle_check. descend; destruct (idle_expired _ _ _); try keep; descend. Qed.

Lemma ver_heartbeat_loop i p : ver (heartbeat_loop c i p).
Proof. unfold heartbeat_loop. descend; try keep; apply ver_idle_check. Qed.

Lemma ver_cleanup_loop : ver cleanup_loop.
Proof. unfold cleanup_loop. descend. apply kept_set_streams; [apply map_filter_subseteq|done]. Qed.

Lemma ver_writer_task : ver writer_task.
Proof.
  unfold writer_task, writer_exit. constructor. intros [fr|].
  - destruct (_ <? _) eqn:E; [constructor|]. to_prop. constructor.
    + intros s HI. keep_frame. exists [encode fr]. split; [done|]. repeat constructor. by exists fr.
    + intros []; descend. keep_frame. lia.
  - descend. keep_frame. lia.
Qed.

Lemma ver_open_remote_stream host port addr : ver (open_remote_stream host port addr).
Proof.
  apply ver_atomically. intros s HI. destruct (IdGenerator_next _ _) as [[sid g]|] eqn:E; simpl.
  - apply (next_ok (local_parity (role c))) in E as (Hn & Hok & Hg); [|apply HI]. apply not_elem_of_dom in Hn.
    split; [by apply (kept_insert s sid g); [|left|..]|]. descend; keep.
  - split; [by apply kept_same|constructor].
Qed.

Lemma ver_return_call K i r :
  stable session_inv evolves K ->
  (forall s, K s -> session_inv s -> forall cl, calls s !! i = Some cl -> result_ok_for cl r) ->
  verified session_inv evolves K (return_call i r).
Proof.
  intros HK Hr. constructor. intros s HI HKs. split; [apply kept_return; [by apply Hr|done]|].
  exists (fun _ => True). split; [done|]. split; [done|constructor].
Qed.

(** The reply a call has received is the one it returns, whatever happens in between. *)
Lemma stable_reply i p : stable session_inv evolves (fun s => reply_of s i = Some p).
Proof.
  intros s s' HR _ Hp. unfold reply_of in *. destruct (calls s !! i) as [cl|] eqn:E; [|done].
  destruct (ev_calls _ _ HR _ _ E) as (cl' & -> & L). by apply L.
Qed.

Lemma ver_call_rpc name ps : ver (call_rpc name ps).
Proof.
  apply ver_atomically. intros s HI. split; [keep_frame|].
  apply ver_atomically. intros s2 HI2. split; [by apply kept_new_call|]. cbn [snd]. constructor.
  intros []; [constructor|].
  - intros p. exists (fun s => reply_of s (length (calls s2)) = Some p). split; [apply stable_reply|].
    split; [done|]. apply ver_return_call; [apply stable_reply|]. intros s3 Hr _ cl Hcl. left. exists p.
    unfold reply_of in Hr. by rewrite Hcl in Hr.
  - apply ver_return_call; [done|]. intros. by right; right.
  - apply ver_atomically. intros s3 HI3. split; [by apply kept_forget|].
    apply ver_return_call; [done|]. intros. by right; left.
  - apply ver_atomically. intros s3 HI3. split; [by apply kept_forget|].
    apply ver_return_call; [done|]. intros. by right; right.
Qed.

Lemma tasks_ver t : ver (run_task c t).
Proof.
  destruct t; simpl; auto using ver_reader_loop, ver_shutdown, ver_heartbeat_loop, ver_cleanup_loop,
    ver_writer_task, ver_read_pump, ver_pump_loop, ver_handle_open_stream, ver_handle_cmd, ver_call_rpc,
    ver_open_remote_stream.
Qed.

Lemma inv_initial now : session_inv (new_internal c now).
Proof.
  split; simpl; try done; [..|lia]; try (intros ?? Hl; by rewrite lookup_empty in Hl). apply new_wf.
Qed.

Lemma session_inv_reachable x : reachable c x -> session_inv x.1.
Proof. apply (verified_invariant c session_inv evolves); auto using evolves_refl, kept_builtin, tasks_ver, inv_initial. Qed.

Lemma session_evolves x y : reachable c x -> step c x y -> evolves x.1 y.1.
Proof. apply (verified_transition c session_inv evolves); auto using evolves_refl, kept_builtin, tasks_ver, inv_initial. Qed.

Lemma reachable_step x y : reachable c x -> step c x y -> reachable c y.
Proof. intros (n & i & p & Hr) Hs. exists n, i, p. by eapply rtc_r. Qed.

(** * The theorems *)

(** [C3] In every interleaving, a stream id in the table always names a live
    [Stream] object that carries this id, and the id has the right owner: either
    this side's generator handed it out, or it has the parity that OPENs from
    the peer must have. No task ever redirects an id: from one step to the next an
    entry stays as it is or disappears. *)
Theorem stream_table_sound x y sid o :
  reachable c x -> step c x y -> streams x.1 !! sid = Some o ->
  sid_ok c sid /\
  (exists st, heap x.1 !! o = Some st /\ st_id st = sid) /\
  (streams y.1 !! sid = Some o \/ streams y.1 !! sid = None).
Proof.
  intros Hx Hs Ho. destruct (inv_streams _ (session_inv_reachable _ Hx) _ _ Ho).
  split; [done|]. split; [done|]. by eapply ev_streams, Ho; apply session_evolves.
Qed.

(** A stream's life cycle only moves forward, over any number of steps of any
    tasks: an object keeps its id, OPENING ends at most once, a half that has seen
    its end of file never reopens, a closed stream stays closed with its cancel
    signal up, and the bytes written to the local connection are only appended to. *)
Theorem stream_monotone x y o st :
  reachable c x -> rtc (step c) x y -> heap x.1 !! o = Some st ->
  exists st', heap y.1 !! o = Some st' /\ stream_le st st'.
Proof.
  intros Hx Hr. revert st. induction Hr as [x|x y z Hxy _ IH]; intros st Ho.
  - exists st. split; [done|reflexivity].
  - destruct (ev_heap _ _ (session_evolves _ _ Hx Hxy) _ _ Ho) as (st1 & Ho1 & L1).
    destruct (IH (reachable_step _ _ Hx Hxy) _ Ho1) as (st2 & ? & L2). exists st2. split; [done|]. by etrans.
Qed.

(** [C25] RPC answers are never mixed up: when [call_rpc] returns the callee's
    answer, successful or not, it is the content of a response frame that carries
    the very command id this call sent, and that response was the one its oneshot
    channel received; a value is returned only for a response without an error. *)
Theorem rpc_correlated x i cl r :
  reachable c x -> calls x.1 !! i = Some cl -> call_result cl = Some r ->
  match r with
  | Ok v => exists p, call_reply cl = Some p /\ resp_cmd_id p = call_cmd_id cl /\
      resp_error p = EmptyString /\ v = response p
  | Err (RpcCallee m) => exists p, call_reply cl = Some p /\ resp_cmd_id p = call_cmd_id cl /\
      resp_error p = m /\ m <> EmptyString
  | Err _ => True
  end.
Proof.
  intros Hx Hcl Hr. destruct (inv_calls _ (session_inv_reachable _ Hx) _ _ Hcl) as [Hrep Hres].
  destruct (Hres _ Hr) as [(p & Hp & ->)|[->| ->]]; [|done..].
  unfold call_outcome. destruct (is_empty (resp_error p)) eqn:E; to_prop; exists p; auto.
Qed.

(** A pending call is registered under the id it sent and has no answer yet,
    and an answer once delivered is never replaced: later responses with the same
    id do not reach the call. *)
Theorem reply_delivered_once x y i cl p :
  reachable c x -> rtc (step c) x y -> calls x.1 !! i = Some cl -> call_reply cl = Some p ->
  in_flight_calls y.1 !! call_cmd_id cl <> Some i /\
  exists cl', calls y.1 !! i = Some cl' /\ call_reply cl' = Some p.
Proof.
  intros Hx Hr. revert cl. induction Hr as [x|x y z Hxy _ IH]; intros cl Hcl Hp.
  - split; [|eauto]. intros Hf. destruct (inv_in_flight _ (session_inv_reachable _ Hx) _ _ Hf) as (cl' & ? & ? & ?).
    congruence.
  - destruct (ev_calls _ _ (session_evolves _ _ Hx Hxy) _ _ Hcl) as (cl1 & Hcl1 & [<- Hp1]).
    apply IH; auto. by eapply reachable_step.
Qed.

(** Whatever the peer and the tasks do, every message handed to the
    WebSocket is the encoding of one frame and at most [MAX_FRAME_SIZE_BYTES] long,
    and the outbound queue never exceeds its capacity. *)
Theorem wire_bounded x b :
  reachable c x -> b ∈ wire x.1 ->
  (exists fr, b = encode fr) /\ Z.of_nat (length b) <= MAX_FRAME_SIZE_BYTES /\
  (length (outbound x.1) <= OUTBOUND_CHANNEL_CAPACITY)%nat.
Proof.
  intros Hx Hb. pose proof (session_inv_reachable _ Hx) as HI. pose proof (inv_wire _ HI) as Hw.
  rewrite Forall_forall in Hw. destruct (Hw _ Hb) as (fr & ? & ?). split; [by exists fr|]. split; [done|apply HI].
Qed.

(** The peer cannot choose where connections go. A client only ever connects
    to addresses of its own port mapping (the mapped address, or the mapped port on
    127.0.0.1), whatever host the OPEN frames name; a server with an allowlist only
    connects to targets of the list. *)
Theorem dial_confined x a :
  reachable c x -> a ∈ dialed x.1 ->
  match role c with
  | Client => exists port local, port_map c !! port = Some local /\
      (a = local \/ exists n, parse_unsigned u16_max local = Some n /\ a = String.append "127.0.0.1:" (show_int n))
  | Server => forall l, allowlist c = Some l ->
      exists host port, join_host_port host port ∈ l /\ a = join_host_port host (port mod 2 ^ 16)
  end.
Proof.
  intros Hx Ha. pose proof (inv_dialed _ (session_inv_reachable _ Hx)) as Hd. rewrite Forall_forall in Hd.
  destruct (Hd _ Ha) as (host & port & Hdial). unfold dial_address in Hdial. destruct (role c).
  - unfold dial_via_port_mapping in Hdial. destruct (port_map c !! port) as [l|] eqn:E; simplify_eq/=.
    exists port, l. split; [done|]. destruct (parse_unsigned _ l) as [n|]; [right; by exists n|by left].
  - intros l Hl. unfold dial_with_allowlist in Hdial. rewrite Hl in Hdial.
    destruct (allows_target l host port) eqn:E; simplify_eq. exists host, port. split; [|done].
    unfold allows_target in E. by to_prop.
Qed.
End invariant.

(** * A concrete run *)

(** A client that maps port 80: the peer opens stream 1, answers a call, and the
    writer sends what is queued. *)
Definition sample_config : Config := mk_config Client "session" 0 {[80 := "8080"]} None.

Definition receive `{FrameCodec} (fr : Frame) : list move :=
  [MTask 1 (EMsg (MPayload (encode fr))); MTask 1 (ENow 5); MTask 1 EGo; MTask 1 EGo; MTask 1 EGo].

Definition sample_schedule : list move :=
  @receive sample_json_codec (new_open 1 "elsewhere.example" 80 "peer") ++
  [MTask 4 EGo; MTask 4 (EFlag true); MTask 4 EGo; MTask 4 EGo;
   MTask 0 EGo; MTask 0 (EFlag true);
   MCall (TCallRpc "status" None); MTask 5 EGo; MTask 5 EGo; MTask 5 EGo] ++
  @receive sample_json_codec (new_cmd_response 2 (Some (Str "up"))) ++
  [MTask 5 EGo; MTask 5 EGo].

Definition sample_call : Call :=
  mk_call 2 (Some (mk_cmd_response 2 (Some (Str "up")) EmptyString)) (Some (Ok (Some (Str "up")))).

Lemma sample_reachable :
  exists x, @reachable sample_json_codec sample_config x /\
    streams x.1 !! 1 = Some 0%nat /\ calls x.1 !! 0%nat = Some sample_call /\
    dialed x.1 = ["127.0.0.1:8080"] /\ wire x.1 = [@encode sample_json_codec (new_open_ack 1)] /\
    is_Some (heap x.1 !! 0%nat).
Proof.
  destruct (@leads_to_reachable sample_json_codec sample_config sample_schedule 0 0 0
    (fun x => bool_decide (streams x.1 !! 1 = Some 0%nat) &&
      (bool_decide (calls x.1 !! 0%nat = Some sample_call) &&
      (bool_decide (dialed x.1 = ["127.0.0.1:8080"]) &&
      (bool_decide (wire x.1 = [@encode sample_json_codec (new_open_ack 1)]) &&
       bool_decide (is_Some (heap x.1 !! 0%nat))))))) as (x & Hx & Hp); [vm_compute; reflexivity|].
  to_prop. exists x. split_and!; done.
Qed.

Lemma stream_table_sound_witness :
  exists x y, @reachable sample_json_codec sample_config x /\ @step sample_json_codec sample_config x y /\
    streams x.1 !! 1 = Some 0%nat /\
    (sid_ok sample_config 1 /\ (exists st, heap x.1 !! 0%nat = Some st /\ st_id st = 1) /\
     (streams y.1 !! 1 = Some 0%nat \/ streams y.1 !! 1 = None)).
Proof.
  destruct sample_reachable as ([s ps] & Hx & Hs & _).
  pose proof (@step_register sample_json_codec sample_config "cmd" s ps) as Hstep.
  exists (s, ps), (set_handlers ({["cmd"]} ∪ handlers s) s, ps).
  split; [exact Hx|]. split; [exact Hstep|]. split; [exact Hs|].
  exact (@stream_table_sound sample_json_codec sample_config _ _ 1 0%nat Hx Hstep Hs).
Defined.

Lemma stream_monotone_witness :
  exists x y st, @reachable sample_json_codec sample_config x /\ rtc (@step sample_json_codec sample_config) x y /\
    heap x.1 !! 0%nat = Some st /\ exists st', heap y.1 !! 0%nat = Some st' /\ stream_le st st'.
Proof.
  destruct sample_reachable as ([s ps] & Hx & _ & _ & _ & _ & st & Ho).
  pose proof (@step_register sample_json_codec sample_config "cmd" s ps) as Hstep.
  exists (s, ps), (set_handlers ({["cmd"]} ∪ handlers s) s, ps), st.
  split; [exact Hx|]. split; [exact (rtc_once _ _ Hstep)|]. split; [exact Ho|].
  exact (@stream_monotone sample_json_codec sample_config _ _ 0%nat st Hx (rtc_once _ _ Hstep) Ho).
Defined.

Lemma rpc_correlated_witness :
  exists x, @reachable sample_json_codec sample_config x /\ calls x.1 !! 0%nat = Some sample_call /\
    call_result sample_call = Some (Ok (Some (Str "up"))) /\
    exists p, call_reply sample_call = Some p /\ resp_cmd_id p = call_cmd_id sample_call /\
      resp_error p = EmptyString /\ Some (Str "up") = response p.
Proof.
  destruct sample_reachable as (x & Hx & _ & Hc & _). exists x. split; [exact Hx|]. split; [exact Hc|].
  split; [reflexivity|].
  exact (@rpc_correlated sample_json_codec sample_config x 0%nat sample_call (Ok (Some (Str "up"))) Hx Hc eq_refl).
Defined.

Lemma reply_delivered_once_witness :
  exists x, @reachable sample_json_codec sample_config x /\ calls x.1 !! 0%nat = Some sample_call /\
    (in_flight_calls x.1 !! 2 <> Some 0%nat /\
     exists cl', calls x.1 !! 0%nat = Some cl' /\
       call_reply cl' = Some (mk_cmd_response 2 (Some (Str "up")) EmptyString)).
Proof.
  destruct sample_reachable as (x & Hx & _ & Hc & _). exists x. split; [exact Hx|]. split; [exact Hc|].
  exact (@reply_delivered_once sample_json_codec sample_config x x 0%nat sample_call _ Hx (rtc_refl _ x) Hc eq_refl).
Defined.

Lemma wire_bounded_witness :
  exists x, @reachable sample_json_codec sample_config x /\ @encode sample_json_codec (new_open_ack 1) ∈ wire x.1 /\
    Z.of_nat (length (@encode sample_json_codec (new_open_ack 1))) <= MAX_FRAME_SIZE_BYTES.
Proof.
  destruct sample_reachable as (x & Hx & _ & _ & _ & Hw & _). exists x. split; [exact Hx|].
  assert (Hin : @encode sample_json_codec (new_open_ack 1) ∈ wire x.1) by (rewrite Hw; constructor).
  split; [exact Hin|].
  exact (proj1 (proj2 (@wire_bounded sample_json_codec sample_config x _ Hx Hin))).
Defined.

Lemma dial_confined_witness :
  exists x, @reachable sample_json_codec sample_config x /\ "127.0.0.1:8080" ∈ dialed x.1 /\
    exists port local, port_map sample_config !! port = Some local /\
      ("127.0.0.1:8080" = local \/
       exists n, parse_unsigned u16_max local = Some n /\ "127.0.0.1:8080" = String.append "127.0.0.1:" (show_int n)).
Proof.
  destruct sample_reachable as (x & Hx & _ & _ & Hd & _). exists x. split; [exact Hx|].
  assert (Hin : "127.0.0.1:8080" ∈ dialed x.1) by (rewrite Hd; constructor).
  split; [exact Hin|]. exact (@dial_confined sample_json_codec sample_config x _ Hx Hin).
Defined.
