(* ===== verification/SessionResources.v ===== *)
(** Resources that tasks of the session hold and hand over: the permits of the
    command semaphore, and the right to pump a stream. [holds n p] says that task
    [p] holds [n] tokens and gives them on correctly; [accounts_reachable] adds the
    pool up in every interleaving. *)

From stdpp Require Import base gmap fin_maps strings list.
From Stdlib Require Import ZArith Lia Strings.Byte.
From S2P Require Import Prelude Text Json Frame Codec IdGen Session SessionInv.

(** How two totals compare: [eq] when no token may be lost, [le] when a task may
    keep one forever. *)
Class Accounting (rel : nat -> nat -> Prop) : Prop := {
  acc_preorder :: PreOrder rel;
  acc_add : forall a b d e, rel a b -> rel d e -> rel (a + d)%nat (b + e)%nat;
  acc_cancel : forall a b d, rel (a + d)%nat (b + d)%nat -> rel a b
}.

#[global] Instance accounting_eq : Accounting eq.
Proof. split; [apply _|lia..]. Qed.
#[global] Instance accounting_le : Accounting le.
Proof. split; [apply _|lia..]. Qed.

Section tokens.
Context `{FrameCodec} (c : Config) (rel : nat -> nat -> Prop) `{!Accounting rel}.
(** The tokens in the state, what a task starts with, and what it needs to run a
    handler or to read from a stream. *)
Context (V : Sess -> nat) (tok : task -> nat) (handler_cost : nat) (read_cost : nat -> nat).

Inductive holds : nat -> proc -> Prop :=
| h_done n : rel 0%nat n -> holds n Done
| h_goto n t : rel (tok t) n -> holds n (Goto t)
| h_atomic n f :
    (forall s, exists n', rel (V (f s).1.1 + sum_list_with tok (f s).1.2 + n')%nat (V s + n)%nat /\ holds n' (f s).2) ->
    holds n (Atomic f)
| h_send n fr k : (forall b, holds n (k b)) -> holds n (Send fr k)
| h_outbound n k : (forall o, holds n (k o)) -> holds n (AwaitOutbound k)
| h_sink n b k : (forall ok, holds n (k ok)) -> holds n (AwaitSink b k)
| h_connect n a k : (forall ok, holds n (k ok)) -> holds n (AwaitConnect a k)
| h_sleep n k : (forall b, holds n (k b)) -> holds n (AwaitSleep k)
| h_read n o k : (read_cost o <= n)%nat -> (forall r, holds n (k r)) -> holds n (AwaitRead o k)
| h_write n o b k : (forall ok, holds n (k ok)) -> holds n (AwaitWrite o b k)
| h_handler n name ps k : (handler_cost <= n)%nat -> (forall h, holds n (k h)) -> holds n (AwaitHandler name ps k)
| h_message n k : (forall m, holds n (k m)) -> holds n (AwaitMessage k)
| h_tick n k : (forall b, holds n (k b)) -> holds n (AwaitTick k)
| h_now n k : (forall t, holds n (k t)) -> holds n (AwaitNow k)
| h_reply n i k : (forall r, holds n (k r)) -> holds n (AwaitReply i k).

(** What a task uses at the node it is at. *)
Definition cost (p : proc) : nat :=
  match p with
  | AwaitHandler _ _ _ => handler_cost
  | AwaitRead o _ => read_cost o
  | _ => 0
  end.

Lemma holds_cost n p : holds n p -> (cost p <= n)%nat.
Proof. destruct 1; simpl; lia. Qed.

Hypothesis V_builtin : forall s s', builtin s s' -> V s' = V s.
Hypothesis V_wire : forall b s, V (add_wire b s) = V s.
Hypothesis V_dialed : forall a s, V (add_dialed a s) = V s.
Hypothesis tasks_hold : forall t, holds (tok t) (run_task c t).

Lemma step_proc_accounts s p e s' ts p' n :
  holds n p -> step_proc c s p e = Some (s', ts, p') ->
  exists n', holds n' p' /\ rel (V s' + sum_list_with tok ts + n')%nat (V s + n)%nat.
Proof.
  intros Hh Hstep.
  assert (Hsame : forall s' k, holds n k -> V s' = V s ->
    exists n', holds n' k /\ rel (V s' + sum_list_with tok [] + n')%nat (V s + n)%nat).
  { intros s2 k Hk Hv. exists n. split; [done|]. rewrite Hv. simpl. rewrite Nat.add_0_r. reflexivity. }
  destruct Hh as [n Hn|n t Ht|n f Hf|n fr k Hk|n k Hk|n b k Hk|n a k Hk|n k Hk|n o k Hc Hk|n o b k Hk
                 |n name ps k Hc Hk|n k Hk|n k Hk|n k Hk|n i k Hk]; destruct e; simpl in Hstep; try discriminate Hstep.
  - simplify_eq. exists (tok t). split; [apply tasks_hold|]. simpl. rewrite Nat.add_0_r.
    apply acc_add; [reflexivity|done].
  - destruct (Hf s) as (n' & Hrel & Hn'). simplify_eq. rewrite Hstep in *. by exists n'.
  - destruct (outbound_closed s) eqn:Hc; simplify_eq; [by apply Hsame|].
    destruct (Nat.ltb _ _) eqn:Hl; simplify_eq. apply Hsame; [done|]. apply V_builtin. constructor; [done|].
    by apply Nat.ltb_lt.
  - destruct (outbound s) as [|fr q] eqn:Hq; simplify_eq. apply Hsame; [done|]. apply V_builtin. by econstructor.
  - destruct b; [|done]. destruct (cancelled s); simplify_eq. by apply Hsame.
  - destruct b0; simplify_eq; by apply Hsame.
  - destruct b; simplify_eq; by apply Hsame.
  - destruct (_ && _)%bool; simplify_eq. by apply Hsame.
  - destruct (read_possible _ _ _); simplify_eq. by apply Hsame.
  - destruct (_ && _)%bool; simplify_eq. apply Hsame; [done|]. apply V_builtin. constructor.
  - simplify_eq. by apply Hsame.
  - destruct m; try (destruct (cancelled s)); simplify_eq; by apply Hsame.
  - destruct (_ && _)%bool; simplify_eq. by apply Hsame.
  - simplify_eq. by apply Hsame.
  - destruct (reply_of s i); [|destruct (still_registered s i)]; simplify_eq; by apply Hsame.
  - simplify_eq. by apply Hsame.
Qed.

Definition accounts (total : nat) (x : conf) : Prop :=
  exists ns, Forall2 holds ns x.2 /\ rel (V x.1 + sum_list ns)%nat total.

Lemma holds_tasks ts : Forall2 holds (map tok ts) (map (run_task c) ts).
Proof. induction ts; constructor; auto. Qed.

Lemma sum_tok ts : sum_list (map tok ts) = sum_list_with tok ts.
Proof. induction ts as [|t ts IH]; [done|]. simpl. unfold sum_list in *. lia. Qed.

Lemma sum_list_insert (l : list nat) i n n' :
  l !! i = Some n -> (sum_list (<[i := n']> l) + n = sum_list l + n')%nat.
Proof.
  revert i. induction l as [|m l IH]; intros [|i] Hl; simplify_eq/=; [lia|]. specialize (IH _ Hl). lia.
Qed.

Lemma accounts_step total x y :
  (forall t, external t = true -> tok t = 0%nat) -> accounts total x -> step c x y -> accounts total y.
Proof.
  intros Hext (ns & Hns & Hrel) Hs. destruct Hs as [i e x y Hat|t s ps Ht|name s ps|s ps]; simpl in *.
  - unfold step_at in Hat. destruct (x.2 !! i) as [p|] eqn:Hp; [|done]. simpl in Hat.
    destruct (step_proc c x.1 p e) as [[[s' ts] p']|] eqn:Hstep; [|done]. simplify_eq/=.
    destruct (Forall2_lookup_r _ _ _ _ _ Hns Hp) as (n & Hn & Hh).
    destruct (step_proc_accounts _ _ _ _ _ _ _ Hh Hstep) as (n' & Hh' & Hr').
    exists (<[i := n']> ns ++ map tok ts). split.
    + apply Forall2_app; [by apply Forall2_insert|apply holds_tasks].
    + pose proof (sum_list_insert _ _ _ n' Hn) as Hsum. simpl.
      rewrite sum_list_with_app. change (sum_list_with id) with sum_list. rewrite sum_tok.
      etrans; [|exact Hrel]. apply (acc_cancel _ _ n).
      replace (V s' + (sum_list (<[i:=n']> ns) + sum_list_with tok ts) + n)%nat
        with ((V s' + sum_list_with tok ts + n') + sum_list ns)%nat by lia.
      replace (V x.1 + sum_list ns + n)%nat with ((V x.1 + n) + sum_list ns)%nat by lia.
      apply acc_add; [done|reflexivity].
  - exists (ns ++ [tok t]). split; [by apply Forall2_app; [|constructor; [|constructor]]|].
    simpl. rewrite sum_list_with_app. simpl. rewrite (Hext _ Ht).
    by rewrite !Nat.add_0_r.
  - exists ns. split; [done|]. simpl. by rewrite (V_builtin _ _ (builtin_register name s)).
  - exists ns. split; [done|]. simpl. by rewrite (V_builtin _ _ (builtin_cancel s)).
Qed.

Lemma accounts_reachable total x :
  (forall t, external t = true -> tok t = 0%nat) ->
  (forall now iv pt, rel (V (new_internal c now) + sum_list_with tok [TWriter; TReader; THeartbeat iv pt; TCleanup])%nat total) ->
  reachable c x -> accounts total x.
Proof.
  intros Hext Hinit (now & iv & pt & Hr). remember (initial c now iv pt) as x0 eqn:E0.
  assert (Hv : accounts total x0).
  { subst. exists (map tok [TWriter; TReader; THeartbeat iv pt; TCleanup]). split; [apply holds_tasks|].
    rewrite sum_tok. apply Hinit. }
  clear E0. induction Hr as [|x y z Hxy _ IH]; [done|]. apply IH. by eapply accounts_step.
Qed.

Lemma accounts_costs ns ps : Forall2 holds ns ps -> (sum_list_with cost ps <= sum_list ns)%nat.
Proof. induction 1 as [|n p ns ps Hh _ IH]; [done|]. apply holds_cost in Hh. simpl in *. lia. Qed.

Lemma accounts_done ns ps :
  Forall2 holds ns ps -> Forall (eq Done) ps -> rel 0%nat (sum_list ns).
Proof.
  induction 1 as [|n p ns ps Hh _ IH]; intros Hd; [reflexivity|]. inversion Hd; subst.
  inversion Hh; subst. simpl. apply (acc_add 0 n 0); auto.
Qed.
End tokens.

(** * Bounded resources of the session, by token accounting: at most 32 command
    handlers run at a time and their permits always come back; at most one task reads
    from a stream's local connection. *)

(** The state updates that never move a token. *)
Record neutral (V : Sess -> nat) : Prop := {
  n_streams : forall f s, V (set_streams f s) = V s;
  n_upd : forall o f s, (forall st, heap s !! o = Some st -> read_taken (f st) = read_taken st) -> V (upd_stream o f s) = V s;
  n_alloc : forall sid s, V (alloc_stream sid s).1 = V s;
  n_idgen : forall g s, V (set_idgen g s) = V s;
  n_activity : forall t s, V (set_activity t s) = V s;
  n_heartbeat : forall a d s, V (set_heartbeat a d s) = V s;
  n_handlers : forall h s, V (set_handlers h s) = V s;
  n_calls : forall m l s, V (set_calls m l s) = V s;
  n_next : forall n s, V (set_next_cmd_id n s) = V s;
  n_cancelled : forall s, V (set_cancelled s) = V s;
  n_outbound : forall q b s, V (set_outbound q b s) = V s;
  n_wire : forall b s, V (add_wire b s) = V s;
  n_dialed : forall a s, V (add_dialed a s) = V s
}.

Section neutral_tasks.
Context `{FrameCodec} (c : Config) (rel : nat -> nat -> Prop) `{!Accounting rel}.
Context (V : Sess -> nat) (tok : task -> nat) (handler_cost : nat) (read_cost : nat -> nat) (HV : neutral V).
Hypothesis tok_plain : forall t, match t with TPumpLoop _ _ | THandleCmd _ _ _ => True | _ => tok t = 0%nat end.

Hypothesis permit_taken : forall s n id name ps, cmd_permits s = S n ->
  rel (V (set_permits n s) + tok (THandleCmd id name ps))%nat (V s).
Hypothesis permit_returned : forall s id name ps,
  rel (V (set_permits (S (cmd_permits s)) s)) (V s + tok (THandleCmd id name ps))%nat.
Hypothesis handler_paid : forall id name ps, (handler_cost <= tok (THandleCmd id name ps))%nat.
Hypothesis read_half_taken : forall s o st, heap s !! o = Some st ->
  rel (V (upd_stream o (fun st => take_cancel_rx (take_read st)) s) + if read_taken st then 0 else tok (TPumpLoop o (st_id st)))%nat (V s).
Hypothesis read_paid : forall o id, (read_cost o <= tok (TPumpLoop o id))%nat /\ rel 0%nat (tok (TPumpLoop o id)).

Abbreviation hold := (holds rel V tok handler_cost read_cost).

Lemma hold_atomic n n' f :
  (forall s, rel (V (f s).1.1 + sum_list_with tok (f s).1.2 + n')%nat (V s + n)%nat /\ hold n' (f s).2) ->
  hold n (Atomic f).
Proof. intros Hf. constructor. intros s. exists n'. apply Hf. Qed.

Lemma hold_atomically n f :
  (forall s, V (f s).1 = V s /\ hold n (f s).2) -> hold n (atomically f).
Proof.
  intros Hf. apply (hold_atomic n n). intros s. specialize (Hf s). destruct (f s) as [s' p]. simpl in *.
  destruct Hf as [-> ?]. rewrite Nat.add_0_r. by split.
Qed.

(** Descend into a task that moves no token. *)
Ltac neutral_step :=
  rewrite ?(n_streams _ HV), ?(n_alloc _ HV), ?(n_activity _ HV), ?(n_heartbeat _ HV), ?(n_handlers _ HV),
    ?(n_calls _ HV), ?(n_next _ HV), ?(n_cancelled _ HV), ?(n_outbound _ HV), ?(n_idgen _ HV);
  first [ done | by apply (n_upd _ HV); intros [] ].

Ltac hold_node :=
  match goal with
  | |- holds _ _ _ _ _ _ ?p =>
      lazymatch p with
      | Send _ _ => idtac | AwaitOutbound _ => idtac | AwaitSink _ _ => idtac | AwaitConnect _ _ => idtac
      | AwaitSleep _ => idtac | AwaitWrite _ _ _ => idtac
      | AwaitMessage _ => idtac | AwaitTick _ => idtac | AwaitNow _ => idtac | AwaitReply _ _ => idtac
      end; constructor
  end.

Ltac descend :=
  repeat first
    [ progress intros
    | assumption
    | match goal with
      | |- _ /\ _ => split
      | |- holds _ _ _ _ _ _ (if ?b then _ else _) => destruct b
      | |- holds _ _ _ _ _ _ (match ?x with _ => _ end) => destruct x
      | |- holds _ _ _ _ _ _ (atomically _) => apply hold_atomically
      | |- V _ = V _ => neutral_step
      end
    | hold_node
    | progress cbn [fst snd] ].

Lemma hold_done : hold 0 Done.
Proof. constructor. reflexivity. Qed.

Lemma hold_goto t : match t with TPumpLoop _ _ | THandleCmd _ _ _ => False | _ => True end -> hold 0 (Goto t).
Proof. intros Ht. constructor. specialize (tok_plain t). destruct t; try done; by rewrite tok_plain. Qed.

Lemma hold_spawn n t (s : Sess) :
  match t with TPumpLoop _ _ | THandleCmd _ _ _ => False | _ => True end ->
  rel (V s + sum_list_with tok [t] + n)%nat (V s + n)%nat.
Proof.
  intros Ht. specialize (tok_plain t). simpl. assert (tok t = 0%nat) as -> by (by destruct t).
  rewrite !Nat.add_0_r. reflexivity.
Qed.

Lemma hold_stream_close n o k : hold n k -> hold n (stream_close o k).
Proof.
  intros Hk. apply hold_atomically. intros s. destruct (heap s !! o) as [st|]; [|done].
  destruct (closed st); descend.
Qed.

Lemma hold_marking n o mark k :
  (forall st, read_taken (mark st).1 = read_taken st) -> (forall b, hold n (k b)) -> hold n (marking o mark k).
Proof.
  intros Hm Hk. apply hold_atomically. intros s. destruct (heap s !! o) as [st|] eqn:E; [|by split; [|apply Hk]].
  specialize (Hm st). destruct (mark st) as [st' b]. split; [|apply Hk].
  apply (n_upd _ HV). intros st2 Hst. by simplify_eq.
Qed.

Lemma hold_dial n host port k : (forall b, hold n (k b)) -> hold n (dial c host port k).
Proof. intros Hk. unfold dial. destruct (dial_address c host port); [by constructor|apply Hk]. Qed.

Lemma hold_stream_dispatch n o id fr k : hold n k -> hold n (stream_dispatch o id fr k).
Proof.
  intros Hk. unfold stream_dispatch. destruct (body fr); descend; auto using hold_stream_close.
  apply hold_marking; [by intros []|]. descend. by apply hold_stream_close.
Qed.

Lemma hold_handle_open_ack n sid k : hold n k -> hold n (handle_open_ack sid k).
Proof.
  intros Hk. apply (hold_atomic n n). intros s. destruct (streams s !! sid); simpl; rewrite Nat.add_0_r;
    (split; [reflexivity|]); [|done].
  apply (hold_atomic n n). intros s2. split; [|done]. cbn [fst snd]. rewrite (n_upd _ HV) by (by intros []).
  by apply hold_spawn.
Qed.

Lemma hold_register_open_stream sid : hold 0 (register_open_stream sid).
Proof.
  apply hold_atomically. intros s. simpl. pose proof (n_alloc _ HV sid s) as Ha. simpl in Ha.
  destruct (streams s !! sid); simpl; (split; [rewrite ?(n_streams _ HV); exact Ha|]).
  - apply hold_stream_close. constructor. intros _. apply hold_done.
  - constructor. intros [].
    + apply (hold_atomic 0 0). intros s2. split; [|apply hold_done]. cbn [fst snd].
      rewrite (n_upd _ HV) by (by intros []). by apply hold_spawn.
    + descend. apply hold_stream_close, hold_done.
Qed.

Ltac finish := auto using hold_done, hold_goto, hold_stream_close, hold_dial.

Lemma hold_handle_open_stream sid payload : hold 0 (handle_open_stream c sid payload).
Proof.
  unfold handle_open_stream. descend; finish. apply hold_dial. descend; finish; [apply hold_register_open_stream|].
  apply hold_dial. descend; finish. apply hold_register_open_stream.
Qed.

Lemma hold_handle_cmd id name ps : hold (tok (THandleCmd id name ps)) (handle_cmd id name ps).
Proof.
  assert (Hfin : forall fr, hold (tok (THandleCmd id name ps))
    (Send fr (fun _ => atomically (fun s => (set_permits (S (cmd_permits s)) s, Done))))).
  { intros fr. constructor. intros _. apply (hold_atomic _ 0). intros s. cbn [fst snd sum_list_with foldr].
    split; [|apply hold_done]. rewrite !Nat.add_0_r. apply permit_returned. }
  apply hold_atomically. intros s. split; [done|]. cbn [snd].
  destruct (bool_decide _); [|apply Hfin]. constructor; [apply handler_paid|]. intros outcome; apply Hfin.
Qed.

Lemma hold_handle_cmd_response n p k : hold n k -> hold n (handle_cmd_response p k).
Proof. intros Hk. apply hold_atomically. intros s. destruct (in_flight_calls s !! _); descend. Qed.

Lemma hold_dispatch_frame fr k : hold 0 k -> hold 0 (dispatch_frame c fr k).
Proof.
  intros Hk. unfold dispatch_frame, ack_pong.
  destruct (body fr) as [|p|p| |p|b| |b| | |p|p|]; try destruct p; descend; finish;
    auto using hold_handle_open_ack, hold_handle_cmd_response, hold_stream_dispatch.
  - apply (hold_atomic 0 0). intros s. split; [by apply hold_spawn|done].
  - unfold handle_nack. descend. finish.
  - destruct (awaiting_pong s); [apply n_heartbeat; done|done].
  - apply (hold_atomic 0 0). intros s. destruct (cmd_permits s) as [|n] eqn:E; simpl.
    + split; [rewrite !Nat.add_0_r; reflexivity|]. by constructor.
    + split; [|done]. rewrite !Nat.add_0_r. by apply permit_taken.
Qed.

Lemma hold_read_pump o : hold 0 (read_pump o).
Proof.
  unfold read_pump, atomically. constructor. intros s.
  destruct (heap s !! o) as [st|] eqn:E; simpl; [|exists 0%nat; split; [rewrite !Nat.add_0_r; reflexivity|apply hold_done]].
  exists (if read_taken st then 0 else tok (TPumpLoop o (st_id st)))%nat.
  split; [rewrite !Nat.add_0_r; by apply read_half_taken|].
  destruct (read_taken st); [apply hold_done|]. destruct (cancel_rx_taken st); constructor; [apply read_paid|reflexivity].
Qed.

Lemma hold_pump_loop o id : hold (tok (TPumpLoop o id)) (pump_loop o id).
Proof.
  assert (Hd : hold (tok (TPumpLoop o id)) Done) by (constructor; apply read_paid).
  constructor; [apply read_paid|]. intros []; descend; finish.
  - apply hold_marking; [by intros []|]. descend. finish.
  - constructor. reflexivity.
Qed.

Lemma tasks_hold t : hold (tok t) (run_task c t).
Proof.
  pose proof (tok_plain t) as Ht.
  destruct t; try (rewrite Ht; clear Ht); cbn [run_task];
    auto using hold_read_pump, hold_pump_loop, hold_handle_open_stream, hold_handle_cmd.
  - unfold reader_loop. descend; finish. apply hold_dispatch_frame. finish.
  - unfold shutdown. descend. induction (map_to_list _) as [|[sid o] l IH]; simpl; descend; finish.
  - unfold heartbeat_loop, idle_check. descend; finish;
      destruct (idle_expired _ _ _); descend; finish.
  - unfold cleanup_loop. descend; finish.
  - unfold writer_task, writer_exit. descend; finish.
  - unfold call_rpc, return_call, forget_call. descend; finish.
  - apply hold_atomically. intros s. destruct (IdGenerator_next _ _) as [[sid g]|]; simpl; [|descend; finish].
    split.
    + rewrite (n_streams _ HV). pose proof (n_alloc _ HV sid (set_idgen g s)) as Ha. simpl in Ha.
      rewrite Ha. apply HV.
    + descend; finish.
Qed.
End neutral_tasks.

Lemma neutral_builtin V s s' : neutral V -> builtin s s' -> V s' = V s.
Proof.
  intros HV []; [apply (n_outbound _ HV)..| |apply (n_handlers _ HV)|apply (n_cancelled _ HV)].
  apply (n_upd _ HV). by intros [].
Qed.

(** * Command permits *)

Definition permit_tok (t : task) : nat := match t with THandleCmd _ _ _ => 1 | _ => 0 end.

Definition runs_handler (p : proc) : nat := match p with AwaitHandler _ _ _ => 1 | _ => 0 end.

Lemma permits_neutral : neutral cmd_permits.
Proof. by split. Qed.

(** * The right to read *)

Definition pump_tok (o : nat) (t : task) : nat :=
  match t with TPumpLoop o' _ => if decide (o' = o) then 1 else 0 | _ => 0 end.

Definition unclaimed (o : nat) (s : Sess) : nat :=
  match heap s !! o with Some st => if read_taken st then 0 else 1 | None => 1 end.

Definition reads_from (o : nat) (p : proc) : nat :=
  match p with AwaitRead o' _ => if decide (o' = o) then 1 else 0 | _ => 0 end.

Lemma unclaimed_neutral o : neutral (unclaimed o).
Proof.
  split; try done; unfold unclaimed; simpl.
  - intros o' f s Hf. destruct (decide (o' = o)) as [->|Hne].
    + rewrite lookup_alter_eq. destruct (heap s !! o) as [st|]; [|done]. simpl. by rewrite Hf.
    + by rewrite lookup_alter_ne.
  - intros sid s. destruct (decide (fresh (dom (heap s)) = o)) as [<-|Hne].
    + rewrite lookup_insert_eq. destruct (heap s !! _) as [st|] eqn:E; [|done].
      exfalso. apply (is_fresh (dom (heap s))). apply elem_of_dom. by exists st.
    + by rewrite lookup_insert_ne.
Qed.

Section theorems.
Context `{FrameCodec} (c : Config).

(** At most 32 command handlers of a session run at the same time, and the
    concurrency permits never leak: free permits and running handlers together
    never exceed 32 in any interleaving, and when every task has ended all 32 are
    free again, whether handlers answered, failed or panicked and whether or not
    their answer could still be sent. *)
Theorem command_permits_conserved x :
  reachable c x ->
  (cmd_permits x.1 + sum_list_with runs_handler x.2 <= 32)%nat /\
  (Forall (eq Done) x.2 -> cmd_permits x.1 = 32%nat).
Proof.
  intros Hx.
  destruct (accounts_reachable c eq cmd_permits permit_tok 1 (fun _ => 0%nat)) with (total := 32%nat) (x := x)
    as (ns & Hns & Hsum); try done.
  - intros s s'. apply neutral_builtin, permits_neutral.
  - intros t. apply tasks_hold; try done; try apply permits_neutral; simpl; intros; try lia.
    + apply _.
    + by destruct t0.
    + by destruct (read_taken st).
  - intros []; done.
  - pose proof (accounts_costs _ _ _ _ _ _ _ Hns) as Hc. split.
    + enough (sum_list_with runs_handler x.2 <= sum_list ns)%nat by lia. etrans; [|exact Hc].
      clear. induction x.2 as [|p ps IH]; [done|]. simpl. destruct p; simpl; lia.
    + intros Hd. pose proof (accounts_done _ _ _ _ _ _ _ Hns Hd). lia.
Qed.

(** The bytes of a stream's local connection have one reader: in every
    interleaving (OPEN_ACK frames repeated by the peer included) at most one task
    is reading from a given stream object, and while one is, the read half is
    taken. So chunks leave in the order in which they were read. *)
Theorem single_reader x o :
  reachable c x ->
  (sum_list_with (reads_from o) x.2 <= 1)%nat /\
  (sum_list_with (reads_from o) x.2 = 1%nat -> exists st, heap x.1 !! o = Some st /\ read_taken st = true).
Proof.
  intros Hx.
  destruct (accounts_reachable c le (unclaimed o) (pump_tok o) 0 (fun o' => if decide (o' = o) then 1%nat else 0%nat))
    with (total := 1%nat) (x := x) as (ns & Hns & Hsum); try done.
  - intros s s'. apply neutral_builtin, unclaimed_neutral.
  - intros t. apply tasks_hold; try done; try apply unclaimed_neutral; simpl; intros; rewrite ?Nat.add_0_r; try done; try lia.
    + apply _.
    + by destruct t0.
    + unfold unclaimed. simpl. case_decide as Ho.
      * subst. rewrite lookup_alter_eq. match goal with Hh : heap _ !! _ = Some _ |- _ => rewrite Hh end. simpl. destruct (read_taken st); simpl; lia.
      * rewrite lookup_alter_ne by done. destruct (read_taken st); lia.
  - intros []; done.
  - pose proof (accounts_costs _ _ _ _ _ _ _ Hns) as Hc.
    assert (Hle : (sum_list_with (reads_from o) x.2 <= sum_list ns)%nat).
    { etrans; [|exact Hc]. clear. induction x.2 as [|p ps IH]; [done|]. simpl. destruct p; simpl; lia. }
    unfold unclaimed in Hsum. split; [lia|]. intros H1.
    destruct (heap x.1 !! o) as [st|]; [|lia]. exists st. split; [done|]. destruct (read_taken st); [done|lia].
Qed.
End theorems.

(** * A concrete run *)

(** A server handles one command, and then the peer closes the connection. *)
Definition server_config : Config := mk_config Server "session" 0 ∅ None.

Definition command_schedule : list move :=
  [MRegister "status";
   MTask 1 (EMsg (MPayload (@encode sample_json_codec (new_cmd 2 "status" None)))); MTask 1 (ENow 5); MTask 1 EGo;
   MTask 1 EGo; MTask 1 EGo; MTask 4 EGo].

Definition closing_schedule : list move :=
  [MTask 4 (EHandler (HPanic "index out of bounds")); MTask 4 EGo; MTask 4 EGo;
   MTask 1 (EMsg MEnd); MTask 1 EGo; MTask 1 EGo; MTask 1 EGo;
   MTask 2 (EFlag true); MTask 3 (EFlag true); MTask 0 (EFlag true); MTask 0 EGo].

Definition is_done (p : proc) : bool := match p with Done => true | _ => false end.

Lemma is_done_Forall ps : forallb is_done ps = true -> Forall (eq Done) ps.
Proof. induction ps as [|[] ps IH]; simpl; intros Hd; try done; constructor; auto. Qed.

Example handler_runs :
  @leads_to sample_json_codec server_config command_schedule 0 0 0
    (fun x => bool_decide (cmd_permits x.1 = 31%nat) && bool_decide (sum_list_with runs_handler x.2 = 1%nat)) = true.
Proof. by vm_compute. Qed.

Lemma command_permits_conserved_witness :
  exists x, @reachable sample_json_codec server_config x /\ Forall (eq Done) x.2 /\ cmd_permits x.1 = 32%nat.
Proof.
  destruct (@leads_to_reachable sample_json_codec server_config (command_schedule ++ closing_schedule) 0 0 0
    (fun x => forallb is_done x.2)) as (x & Hx & Hd); [vm_compute; reflexivity|].
  apply is_done_Forall in Hd. exists x. split; [exact Hx|]. split; [exact Hd|].
  exact (proj2 (@command_permits_conserved sample_json_codec server_config x Hx) Hd).
Defined.

(** The peer opens a stream, and the pump that starts is the one reader. *)
Definition pump_schedule : list move :=
  [MTask 1 (EMsg (MPayload (@encode sample_json_codec (new_open 2 "db" 5432 "peer")))); MTask 1 (ENow 5); MTask 1 EGo;
   MTask 1 EGo; MTask 1 EGo; MTask 4 EGo; MTask 4 (EFlag true); MTask 4 EGo; MTask 4 EGo; MTask 4 EGo;
   MTask 5 EGo; MTask 5 EGo].

Lemma single_reader_witness :
  exists x, @reachable sample_json_codec server_config x /\ sum_list_with (reads_from 0) x.2 = 1%nat /\
    exists st, heap x.1 !! 0%nat = Some st /\ read_taken st = true.
Proof.
  destruct (@leads_to_reachable sample_json_codec server_config pump_schedule 0 0 0
    (fun x => bool_decide (sum_list_with (reads_from 0) x.2 = 1%nat))) as (x & Hx & Hd); [vm_compute; reflexivity|].
  apply bool_decide_eq_true in Hd. exists x. split; [exact Hx|]. split; [exact Hd|].
  exact (proj2 (@single_reader sample_json_codec server_config x 0%nat Hx) Hd).
Defined.

(** Two OPEN_ACKs for one stream, acted on at the same time: the second pump finds
    the halves taken and ends. *)
Definition double_ack_schedule : list move :=
  let ack := [MTask 1 (EMsg (MPayload (@encode sample_json_codec (new_open_ack 1)))); MTask 1 (ENow 5); MTask 1 EGo;
              MTask 1 EGo; MTask 1 EGo; MTask 1 EGo] in
  [MCall (TOpenRemote "db" 5432 "peer"); MTask 4 EGo; MTask 4 EGo] ++ ack ++ ack ++
  [MTask 6 EGo; MTask 5 EGo; MTask 6 EGo].

Example double_ack_one_reader :
  @leads_to sample_json_codec server_config double_ack_schedule 0 0 0
    (fun x => bool_decide (sum_list_with (reads_from 0) x.2 = 1%nat) && match x.2 !! 5%nat with Some p => is_done p | None => false end) = true.
Proof. vm_compute. reflexivity. Qed.
