(* ===== verification/Client.v ===== *)
(** What surrounds a running session: the handshake that sets both sides up
    ([send_session_to_server], [wait_session_from_client], [send_session_ack]), and
    typed calls over the RPC channel ([rpc.rs]). *)

From stdpp Require Import base gmap fin_maps strings list.
From Stdlib Require Import ZArith Lia Strings.Byte.
From S2P Require Import Prelude Text Json Frame Codec IdGen Session.

(** * Handshake *)

(** What [source.next()] yields. *)
Inductive recv_outcome : Type :=
| RecvText (b : bytes)
| RecvBinary (b : bytes)
| RecvOther
| RecvFailed
| RecvEnd.

Inductive HandshakeError : Type :=
| HTransport
| HDecode
| HInvalidSessionInit
| HInvalidSessionAck
| HVersionMismatch (server client : Z)
| HConnectionClosed
| HTimeout.

Inductive SessionAckError : Type := NotServer | AckSessionClosed.

Section handshake.
Context `{FrameCodec}.

Definition recv_frame (o : recv_outcome) : result Frame HandshakeError :=
  match o with
  | RecvText b | RecvBinary b => ok_or (decode b) HDecode
  | RecvOther => Err HConnectionClosed
  | RecvFailed => Err HTransport
  | RecvEnd => Err HConnectionClosed
  end.

(** [tokio::time::timeout(..).await.map_err(..)??]; [None]: the time is up. *)
Definition recv_in_time (o : option recv_outcome) : result Frame HandshakeError :=
  match o with None => Err HTimeout | Some o => recv_frame o end.

(** The message the client opens with; the order of the ports is the hash map's. *)
Definition session_init_message (ports : gmap Z string) : bytes :=
  encode (new_session_init PROTOCOL_VERSION [] (elements (dom ports))).

(** [send_session_to_server], given whether the message could be sent and what
    came back. *)
Definition send_session_to_server (ports : gmap Z string) (sent : bool) (reply : option recv_outcome)
  : result Config HandshakeError :=
  if negb sent then Err HTransport
  else
    let? ack_frame := recv_in_time reply in
    match body ack_frame with
    | BSessionAck (Some payload) =>
        Ok (mk_config Client (session_id payload) (Z.max (idle_timeout_sec payload) 0 * 1000) ports None)
    | _ => Err HInvalidSessionAck
    end.

Definition wait_session_from_client (new_id : string) (idle_timeout : Z) (allow : option (gset string))
    (init : option recv_outcome) : result (Config * SessionInitPayload) HandshakeError :=
  let? init_frame := recv_in_time init in
  match body init_frame with
  | BSessionInit (Some payload) =>
      if client_version payload =? PROTOCOL_VERSION
      then Ok (mk_config Server new_id idle_timeout ∅ allow, payload)
      else Err (HVersionMismatch PROTOCOL_VERSION (client_version payload))
  | _ => Err HInvalidSessionInit
  end.

(** [x as i64] for an unsigned [x]. *)
Definition as_i64 (z : Z) : Z := let z := z mod 2 ^ 64 in if z <? 2 ^ 63 then z else z - 2 ^ 64.

(** The frame [send_session_ack] enqueues. *)
Definition send_session_ack (c : Config) : result Frame SessionAckError :=
  match role c with
  | Client => Err NotServer
  | Server => Ok (new_session_ack PROTOCOL_VERSION (sess_id c) (as_i64 (idle_timeout_ms c / 1000)))
  end.

Lemma decode_session_init ports :
  Forall in_i32 (elements (dom ports)) ->
  decode (session_init_message ports) =
    Some (new_session_init PROTOCOL_VERSION [] (elements (dom ports))).
Proof. intros Hp. apply decode_encode. split; [by vm_compute|]. split; [by vm_compute|done]. Qed.

Lemma as_i64_small z : 0 <= z < 2 ^ 63 -> as_i64 z = z.
Proof. intros Hz. unfold as_i64. rewrite Z.mod_small by lia. destruct (Z.ltb_spec z (2 ^ 63)); lia. Qed.

(** The two halves of the handshake fit together. Whatever ports the client
    maps, the server accepts its SESSION_INIT and learns exactly these ports; and
    when the server's SESSION_ACK reaches the client, both hold sessions with the
    same id, opposite roles (so each expects the other's stream-id parity), the
    client's port mapping, and the server's idle timeout rounded down to whole
    seconds. *)
Theorem handshake_agrees ports new_id idle allow :
  Forall in_i32 (elements (dom ports)) -> 0 <= idle / 1000 < 2 ^ 63 ->
  exists sc init ack cc,
    wait_session_from_client new_id idle allow (Some (RecvText (session_init_message ports))) = Ok (sc, init) /\
    send_session_ack sc = Ok ack /\
    send_session_to_server ports true (Some (RecvText (encode ack))) = Ok cc /\
    intercept_ports init = elements (dom ports) /\
    sess_id cc = sess_id sc /\ role cc = Client /\ role sc = Server /\
    peer_parity (role cc) = local_parity (role sc) /\ peer_parity (role sc) = local_parity (role cc) /\
    port_map cc = ports /\ idle_timeout_ms cc = idle / 1000 * 1000.
Proof.
  intros Hp Hi. pose proof (decode_session_init ports Hp) as Hdec.
  set (sc := mk_config Server new_id idle ∅ allow).
  set (ack := new_session_ack PROTOCOL_VERSION new_id (idle / 1000)).
  assert (Hack : decode (encode ack) = Some ack).
  { apply decode_encode. split; [by vm_compute|]. split; [by vm_compute|]. unfold in_i64. simpl. lia. }
  exists sc, (mk_session_init PROTOCOL_VERSION [] (elements (dom ports))), ack,
    (mk_config Client new_id (idle / 1000 * 1000) ports None).
  split; [|split; [|split]].
  - unfold wait_session_from_client, recv_in_time, recv_frame. by rewrite Hdec.
  - unfold send_session_ack. simpl. by rewrite as_i64_small.
  - unfold send_session_to_server, recv_in_time, recv_frame. simpl. rewrite Hack. simpl.
    by rewrite Z.max_l by lia.
  - by split_and!.
Qed.

(** The server hands out a session only for a message that arrived in time, is
    a decodable session-init frame with a payload, and speaks the server's protocol
    version; the session it hands out has the server role and the configured idle
    timeout and allowlist. *)
Theorem wait_session_only_from_init new_id idle allow o sc init :
  wait_session_from_client new_id idle allow o = Ok (sc, init) ->
  client_version init = PROTOCOL_VERSION /\ role sc = Server /\ idle_timeout_ms sc = idle /\ allowlist sc = allow /\
  exists b f, (o = Some (RecvText b) \/ o = Some (RecvBinary b)) /\ decode b = Some f /\ body f = BSessionInit (Some init).
Proof.
  unfold wait_session_from_client. destruct o as [[b|b| | |]|]; simpl; try done;
    destruct (decode b) as [f|] eqn:Hd; simpl; try done; destruct (body f) as [[p|]| | | | | | | | | | | |] eqn:Hb; try done;
    destruct (Z.eqb_spec (client_version p) PROTOCOL_VERSION); intros [= <- <-]; split_and!; try done;
    exists b, f; auto.
Qed.
End handshake.

Lemma handshake_agrees_witness :
  Forall in_i32 (elements (dom ({[80 := "8080"]} : gmap Z string))) /\ 0 <= 90500 / 1000 < 2 ^ 63 /\
  exists sc init ack cc,
    @wait_session_from_client sample_json_codec "ab01" 90500 None
      (Some (RecvText (@session_init_message sample_json_codec {[80 := "8080"]}))) = Ok (sc, init) /\
    send_session_ack sc = Ok ack /\
    @send_session_to_server sample_json_codec {[80 := "8080"]} true
      (Some (RecvText (@encode sample_json_codec ack))) = Ok cc /\
    intercept_ports init = elements (dom ({[80 := "8080"]} : gmap Z string)) /\
    sess_id cc = sess_id sc /\ role cc = Client /\ role sc = Server /\
    peer_parity (role cc) = local_parity (role sc) /\ peer_parity (role sc) = local_parity (role cc) /\
    port_map cc = {[80 := "8080"]} /\ idle_timeout_ms cc = 90500 / 1000 * 1000.
Proof.
  assert (H1 : Forall in_i32 (elements (dom ({[80 := "8080"]} : gmap Z string)))).
  { apply (bool_decide_unpack _). vm_compute. exact I. }
  assert (H2 : 0 <= 90500 / 1000 < 2 ^ 63) by (split; vm_compute; congruence).
  split; [exact H1|]. split; [exact H2|].
  exact (@handshake_agrees sample_json_codec {[80 := "8080"]} "ab01" 90500 None H1 H2).
Defined.

Lemma wait_session_only_from_init_witness :
  exists sc init,
    @wait_session_from_client sample_json_codec "ab01" 0 None
      (Some (RecvText (@session_init_message sample_json_codec {[80 := "8080"]}))) = Ok (sc, init) /\
    client_version init = PROTOCOL_VERSION.
Proof.
  assert (H1 : @wait_session_from_client sample_json_codec "ab01" 0 None
      (Some (RecvText (@session_init_message sample_json_codec {[80 := "8080"]}))) =
    Ok (mk_config Server "ab01" 0 ∅ None, mk_session_init 1 [] [80])) by (vm_compute; reflexivity).
  exists (mk_config Server "ab01" 0 ∅ None), (mk_session_init 1 [] [80]). split; [exact H1|].
  exact (proj1 (@wait_session_only_from_init sample_json_codec _ _ _ _ _ _ H1)).
Defined.

(** * Typed calls *)

(** How a type of the caller crosses the RPC channel: its serialization, its
    deserialization and its default value. *)
Class Wired (T : Type) : Type := {
  to_value : T -> result value string;
  from_value : value -> result T string;
  default_value : T
}.

(** What serde's derived implementations promise: serialized values read back, fit
    into a frame, and only the default value is serialized as [null]. *)
Class WiredLaws (T : Type) `{Wired T} : Prop := {
  from_to_value : forall x v, to_value x = Ok v -> from_value v = Ok x;
  to_value_wf : forall x v, to_value x = Ok v -> v <> Null -> arg_wf (Some v);
  to_value_null : forall x, to_value x = Ok Null -> x = default_value
}.

Section typed.
Context `{FrameCodec} {P R : Type} `{Wired P, Wired R}.

(** [call_rpc_typed], given the untyped call. *)
Definition call_rpc_typed (call : option value -> result (option value) RpcError) (params : P) : result R RpcError :=
  let? params_value := map_err RpcSerialize (to_value params) in
  let? raw := call (Some params_value) in
  match raw with
  | Some v => map_err RpcDeserialize (from_value v)
  | None => Ok default_value
  end.

(** The handler [register_handler_typed] registers. *)
Definition typed_handler (handler : P -> result R string) (raw : option value) : result (option value) string :=
  let? params := match raw with
                 | Some v => map_err (String.append "unmarshal params: ") (from_value v)
                 | None => Ok default_value
                 end in
  let? result := handler params in
  let? v := map_err (String.append "marshal response: ") (to_value result) in
  Ok (Some v).

(** One call across the wire: the command frame, the callee's handler, the answer
    frame and what the caller makes of it. *)
Definition rpc_exchange (id : Z) (name : string) (handler : option value -> result (option value) string)
    (ps : option value) : result (option value) RpcError :=
  match decode (encode (new_cmd id name ps)) with
  | Some f =>
      match body f with
      | BCmd (Some cmd) =>
          let outcome := match handler (params cmd) with Ok v => HOk v | Err m => HErr m end in
          match decode (encode (command_response (cmd_id cmd) outcome)) with
          | Some g =>
              match body g with
              | BCmdResponse (Some p) => call_outcome p
              | _ => Err RpcTimeout
              end
          | None => Err RpcTimeout
          end
      | _ => Err RpcTimeout
      end
  | None => Err RpcTimeout
  end.

Context `{!WiredLaws P, !WiredLaws R}.

Lemma arg_crosses id name v :
  in_u64 id -> (v <> Null -> arg_wf (Some v)) ->
  decode (encode (new_cmd id name (Some v))) = Some (new_cmd id name (if is_null v then None else Some v)).
Proof.
  intros Hid Hwf. destruct (is_null v) eqn:E.
  - destruct v; try done. by apply decode_null_arg.
  - assert (v <> Null) by (by intros ->). apply decode_encode. split; [by vm_compute|]. split; [done|]. by apply Hwf.
Qed.

Lemma answer_crosses id v :
  in_u64 id -> (v <> Null -> arg_wf (Some v)) ->
  decode (encode (new_cmd_response id (Some v))) = Some (new_cmd_response id (if is_null v then None else Some v)).
Proof.
  intros Hid Hwf. destruct (is_null v) eqn:E.
  - destruct v; try done. by apply decode_null_answer.
  - assert (v <> Null) by (by intros ->). apply decode_encode. split; [by vm_compute|]. split; [done|]. by apply Hwf.
Qed.

Lemma error_crosses id m :
  in_u64 id -> decode (encode (new_cmd_error_response id m)) = Some (new_cmd_error_response id m).
Proof. intros Hid. apply decode_encode. split; [by vm_compute|]. by split. Qed.

(** A typed remote call is a local call of the handler: serialized, framed,
    encoded, decoded, handled, and the answer sent back the same way, the caller
    gets the handler's result, or the handler's error message as a callee error, for
    parameters and results that serialize, JSON [null] included, and error messages
    that are not empty. *)
Theorem typed_call_end_to_end (id : Z) (name : string) (f : P -> result R string) (x : P) (v : value) :
  in_u64 id -> to_value x = Ok v ->
  match f x with Ok y => is_ok (to_value y) = true | Err m => m <> EmptyString end ->
  call_rpc_typed (rpc_exchange id name (typed_handler f)) x = map_err RpcCallee (f x).
Proof.
  intros Hid Hv Hf. unfold call_rpc_typed, rpc_exchange. rewrite Hv. cbn [map_err result_bind].
  rewrite arg_crosses by (first [done | intros Hnn; exact (to_value_wf x v Hv Hnn)]).
  cbn [body new_cmd params cmd_id].
  assert (Hp : typed_handler f (if is_null v then None else Some v) =
    (let? r := f x in let? v := map_err (String.append "marshal response: ") (to_value r) in Ok (Some v))).
  { unfold typed_handler. destruct (is_null v) eqn:E.
    - destruct v; try done. by rewrite (to_value_null x Hv).
    - by rewrite (from_to_value x v Hv). }
  rewrite Hp. destruct (f x) as [y|m]; cbn [result_bind map_err].
  - destruct (to_value y) as [w|] eqn:Hw; [|done]. cbn [map_err result_bind command_response].
    rewrite answer_crosses by (first [done | intros Hnn; exact (to_value_wf y w Hw Hnn)]).
    cbn [body new_cmd_response]. unfold call_outcome. simpl. destruct (is_null w) eqn:E.
    + destruct w; try done. by rewrite (to_value_null y Hw).
    + by rewrite (from_to_value y w Hw).
  - cbn [command_response]. rewrite error_crosses by done. cbn [body new_cmd_error_response]. unfold call_outcome. simpl.
    destruct (is_empty m) eqn:E; [|done]. by to_prop.
Qed.

(** An error whose message is empty is the exception: the caller sees a success. *)
Lemma empty_error_is_success (id : Z) (name : string) (f : P -> result R string) (x : P) (v : value) :
  in_u64 id -> to_value x = Ok v -> f x = Err EmptyString ->
  call_rpc_typed (rpc_exchange id name (typed_handler f)) x = Ok default_value.
Proof.
  intros Hid Hv Hf. unfold call_rpc_typed, rpc_exchange. rewrite Hv. cbn [map_err result_bind].
  rewrite arg_crosses by (first [done | intros Hnn; exact (to_value_wf x v Hv Hnn)]).
  cbn [body new_cmd params cmd_id].
  assert (Hp : typed_handler f (if is_null v then None else Some v) = Err EmptyString).
  { unfold typed_handler. destruct (is_null v) eqn:E.
    - destruct v; try done. rewrite <- (to_value_null x Hv). simpl. by rewrite Hf.
    - rewrite (from_to_value x v Hv). simpl. by rewrite Hf. }
  rewrite Hp. cbn [command_response]. by rewrite error_crosses.
Qed.
End typed.

(** Integers of 64 bits as an instance, and a call that doubles its argument. *)
Definition I64 : Type := Z.

#[global] Instance I64_wired : Wired I64 := {|
  to_value z := if decide (in_i64 z) then Ok (int z) else Err "out of range";
  from_value v := ok_or (read_i64 v) "invalid type";
  default_value := 0
|}.

#[global] Instance I64_laws : WiredLaws I64.
Proof.
  split; unfold to_value, from_value, I64_wired; intros x; case_decide as Hx; try done.
  - intros v [= <-]. by rewrite read_i64_ok.
  - intros v [= <-] _. split; [constructor|]. split; [|done]. simpl. unfold in_i64 in Hx.
    apply andb_true_iff. split; [apply Z.leb_le|apply Z.ltb_lt]; lia.
Qed.

Definition double (x : I64) : result I64 string := if x <? 1000 then Ok (2 * x) else Err "too large".

Lemma typed_call_end_to_end_witness :
  in_u64 2 /\ @to_value I64 _ 21 = Ok (int 21) /\ is_ok (@to_value I64 _ 42) = true /\
  @call_rpc_typed I64 I64 _ _ (@rpc_exchange sample_json_codec 2 "double" (typed_handler double)) 21 = Ok 42.
Proof.
  assert (H1 : in_u64 2) by (by vm_compute).
  assert (H2 : @to_value I64 _ 21 = Ok (int 21)) by reflexivity.
  assert (H3 : is_ok (@to_value I64 _ 42) = true) by reflexivity.
  split; [exact H1|]. split; [exact H2|]. split; [exact H3|].
  exact (@typed_call_end_to_end sample_json_codec I64 I64 _ _ _ _ 2 "double" double 21 (int 21) H1 H2 H3).
Defined.
