(* ===== verification/Catalogue.v ===== *)
(** The data model of the API catalogue ([ags-protocol/src/catalogue.rs]). *)

From stdpp Require Import base list strings.
From Stdlib Require Import ZArith.
From S2P Require Import Prelude Text Json.

Inductive BodyFieldType : Type :=
| FString
| FInteger
| FBoolean
| FNumber
| FEnum (allowed : list string)
| FArray (inner : BodyFieldType)
| FObject
| FReference (definition : string).

Inductive BodyField : Type := mk_body_field {
  field_name : string;
  field_type : BodyFieldType;
  field_required : bool;
  field_description : option string;
  children : list BodyField;
  field_default : option value
}.

(** Nested induction: the children of a field satisfy the claim. *)
Section field_ind.
Variable P : BodyField -> Prop.
Hypothesis step : forall f, Forall P (children f) -> P f.
Fixpoint body_field_ind' (f : BodyField) : P f :=
  step f (match f with mk_body_field _ _ _ _ cs _ =>
    (fix all (l : list BodyField) : Forall P l := match l with [] => Forall_nil_2 P | c :: r => Forall_cons_2 P c r (body_field_ind' c) (all r) end) cs end).
End field_ind.

Record BodySchema : Type := mk_body_schema {
  definition_name : string;
  body_fields : list BodyField;
  is_array : bool;
  item_type : option BodyFieldType
}.

Inductive MutationClass : Type := ReadOnly | Mutating | Diagnostic.
Inductive HttpMethod : Type := Get | Post | Put | Patch | Delete.
Inductive ParameterLocation : Type := InPath | InQuery | InHeader | InBody | InFormData.

Inductive ValueType : Type :=
| VString
| VInteger
| VBoolean
| VNumber
| VEnum (allowed : list string)
| VArray (inner : ValueType).

Record ParameterSchema : Type := mk_parameter {
  param_name : string;
  param_location : ParameterLocation;
  param_required : bool;
  value_type : ValueType;
  is_file : bool;
  param_description : option string;
  param_default : option value
}.

Record ResponseSchema : Type := mk_response { response_kind : option string; response_description : option string }.

Record OperationSchema : Type := mk_operation {
  op_id : string;
  op_name : string;
  op_summary : string;
  op_description : option string;
  mutation_class : MutationClass;
  http_method : HttpMethod;
  path_template : string;
  parameters : list ParameterSchema;
  request_body : option BodySchema;
  op_response : option ResponseSchema;
  permissions : list string;
  op_scope : string;
  api_version : Z;
  deprecated : bool;
  response_content_type : option string
}.

Record ScopeEntry : Type := mk_scope {
  scope : string;
  default_version : Z;
  contracts : list OperationSchema
}.

Record MethodSchema : Type := mk_method {
  method_name : string;
  method_summary : string;
  default_scope : option string;
  scopes : list ScopeEntry
}.

Record ResourceSchema : Type := mk_resource {
  resource_name : string;
  resource_description : string;
  methods : list MethodSchema
}.

Record ServiceSchema : Type := mk_service {
  service_name : string;
  service_description : string;
  resources : list ResourceSchema
}.

#[global] Instance ParameterLocation_eq_dec : EqDecision ParameterLocation.
Proof. solve_decision. Defined.
#[global] Instance HttpMethod_eq_dec : EqDecision HttpMethod.
Proof. solve_decision. Defined.

(** [ResourceSchema::operations]. *)
Definition operations (r : ResourceSchema) : list OperationSchema :=
  concat (map contracts (concat (map scopes (methods r)))).

(** [MethodSchema::default_operation]. *)
Definition default_operation (m : MethodSchema) : option OperationSchema :=
  name ← default_scope m;
  entry ← List.find (fun s => bool_decide (scope s = name)) (scopes m);
  List.find (fun c => api_version c =? default_version entry) (contracts entry).

Definition required_parameters (op : OperationSchema) : list ParameterSchema :=
  List.filter (fun p => param_required p && negb (bool_decide (param_location p = InBody))) (parameters op).

Definition required_body_fields (op : OperationSchema) : list BodyField :=
  match request_body op with
  | None => []
  | Some b => List.filter field_required (body_fields b)
  end.

(** [HttpMethod::as_str]. *)
Definition method_as_str (m : HttpMethod) : string :=
  match m with Get => "GET" | Post => "POST" | Put => "PUT" | Patch => "PATCH" | Delete => "DELETE" end.
