(* ===== verification/Paths.v ===== *)
(** The two path languages of workflows: the JSONPath subset that projects values
    out of responses ([workflows/jsonpath.rs]), and the nested-field paths that
    bindings write to ([workflows/nested_path.rs]). *)

From stdpp Require Import base list strings.
From Stdlib Require Import ZArith Lia Ascii.
From S2P Require Import Prelude Text Json Catalogue.

(** * The JSONPath subset *)

Definition is_name_end (c : ascii) : bool := is_char "."%char c || is_char "["%char c.

(** [Value::get] with a key and with an index. *)
Definition get_field (v : value) (name : string) : option value :=
  match v with Object m => obj_get name m | _ => None end.

Definition get_index (v : value) (i : Z) : option value :=
  match v with Array l => if i <? Z.of_nat (length l) then l !! Z.to_nat i else None | _ => None end.

(** The loop of [apply_jsonpath_subset]; every round consumes a character. *)
Fixpoint apply_loop (fuel : nat) (cursor : value) (remaining : string) : option value :=
  match fuel with
  | O => None
  | S fuel =>
      if is_empty remaining then Some cursor
      else
        match strip_prefix_char "." remaining with
        | Some after_dot =>
            let '(name, rest_after) := span is_name_end after_dot in
            if is_empty name then None
            else cursor ← get_field cursor name; apply_loop fuel cursor rest_after
        | None =>
            after_open ← strip_prefix_char "[" remaining;
            '(index_str, rest) ← split_once "]" after_open;
            index ← parse_unsigned usize_max index_str;
            cursor ← get_index cursor index;
            apply_loop fuel cursor rest
        end
  end.

Definition apply_jsonpath_subset (v : value) (expression : string) : option value :=
  if String.eqb expression "$" then Some v
  else
    remaining ← strip_prefix_char "$" expression;
    apply_loop (S (String.length remaining)) v remaining.

Definition is_special (c : ascii) : bool :=
  is_char "*"%char c || is_char "?"%char c || is_char "@"%char c || is_char "$"%char c.

Fixpoint valid_loop (fuel : nat) (remaining : string) : bool :=
  match fuel with
  | O => false
  | S fuel =>
      if is_empty remaining then true
      else
        match strip_prefix_char "." remaining with
        | Some after_dot =>
            let '(name, rest) := span is_name_end after_dot in
            if is_empty name || contains_char is_special name then false else valid_loop fuel rest
        | None =>
            match strip_prefix_char "[" remaining with
            | Some after_open =>
                match split_once "]" after_open with
                | None => false
                | Some (index_str, rest) =>
                    if is_ok (ok_or (parse_unsigned usize_max index_str) tt) then valid_loop fuel rest else false
                end
            | None => false
            end
        end
  end.

Definition jsonpath_is_valid (expression : string) : bool :=
  if String.eqb expression "$" then true
  else
    match strip_prefix_char "$" expression with
    | None => false
    | Some remaining => if is_empty remaining then false else valid_loop (S (String.length remaining)) remaining
    end.

(** * Nested-field paths *)

Inductive PathSegment : Type := Key (name : string) | Index (i : Z).

Inductive FieldPathError : Type :=
| PathEmpty
| UnbalancedBrackets (path : string) (at_byte : nat)
| InvalidIndex (path : string) (at_byte : nat)
| EmptyKey (path : string) (at_byte : nat).

#[global] Instance PathSegment_eq_dec : EqDecision PathSegment.
Proof. solve_decision. Defined.
#[global] Instance FieldPathError_eq_dec : EqDecision FieldPathError.
Proof. solve_decision. Defined.

(** [bytes.last() == Some(&b'.')]. *)
Fixpoint ends_with_dot (s : string) : bool :=
  match s with
  | EmptyString => false
  | String c EmptyString => Ascii.eqb c "."
  | String _ r => ends_with_dot r
  end.

(** The loop of [FieldPath::parse]. [rest] is the input from byte [i] on and [key] is
    the input from [start] to [i]. *)
Fixpoint parse_loop (fuel : nat) (input rest : string) (i start : nat) (key : string) (segments : list PathSegment)
  : option (result (list PathSegment) FieldPathError) :=
  match fuel with
  | O => None
  | S fuel =>
      match rest with
      | EmptyString =>
          Some
            (if ends_with_dot input then Err (EmptyKey input (i - 1))
             else
               let segments := if Nat.ltb start i then segments ++ [Key key] else segments in
               match segments with [] => Err PathEmpty | _ => Ok segments end)
      | String c r =>
          if Ascii.eqb c "." then
            if Nat.eqb i start then Some (Err (EmptyKey input i))
            else parse_loop fuel input r (S i) (S i) EmptyString (segments ++ [Key key])
          else if Ascii.eqb c "[" then
            let segments := if Nat.ltb start i then segments ++ [Key key] else segments in
            match split_once "]" r with
            | None => Some (Err (UnbalancedBrackets input i))
            | Some (idx_str, after) =>
                match parse_unsigned usize_max idx_str with
                | None => Some (Err (InvalidIndex input (S i)))
                | Some idx =>
                    let i := (i + 1 + String.length idx_str + 1)%nat in
                    let '(after, i) :=
                      match strip_prefix_char "." after with Some a => (a, S i) | None => (after, i) end in
                    parse_loop fuel input after i i EmptyString (segments ++ [Index idx])
                end
            end
          else parse_loop fuel input r (S i) start (String.append key (String c EmptyString)) segments
      end
  end.

(** [FieldPath::parse]. *)
Definition FieldPath_parse (input : string) : option (result (list PathSegment) FieldPathError) :=
  if is_empty input then Some (Err PathEmpty)
  else parse_loop (S (String.length input)) input input 0 0 EmptyString [].

(** ** Resolution against a schema *)

Inductive PathResolution : Type := SchemaLeaf (f : BodyField) | StructuralOnly.

Inductive PathResolveError : Type :=
| UnknownSegment (parent segment : string)
| SegmentUnderNonObject (parent segment : string).

Definition find_field (name : string) (fields : list BodyField) : option BodyField :=
  List.find (fun f => String.eqb (field_name f) name) fields.

(** The loop of [resolve_against_schema]; [None] is its [unreachable!]. *)
Fixpoint resolve_loop (current_fields : list BodyField) (parent_label : string) (segments : list PathSegment)
  : option (result PathResolution PathResolveError) :=
  match segments with
  | [] => None
  | Key name :: rest =>
      match find_field name current_fields with
      | None => Some (Err (UnknownSegment parent_label name))
      | Some field =>
          match rest with
          | [] => Some (Ok (SchemaLeaf field))
          | _ =>
              match field_type field, children field with
              | FObject, [] => Some (Ok StructuralOnly)
              | FReference _, _ => Some (Ok StructuralOnly)
              | (FObject | FArray _), fields => resolve_loop fields (field_name field) rest
              | _, _ => Some (Err (SegmentUnderNonObject parent_label name))
              end
          end
      end
  | Index _ :: rest =>
      match rest with
      | [] => Some (Ok StructuralOnly)
      | _ =>
          match current_fields with
          | [] => Some (Ok StructuralOnly)
          | _ => resolve_loop current_fields parent_label rest
          end
      end
  end.

Definition resolve_against_schema (segments : list PathSegment) (root_fields : list BodyField) :=
  resolve_loop root_fields "<root>" segments.

(** * JSONPath: what the expressions mean *)

(** The steps of an expression, read on their own. *)
Fixpoint segments_of (fuel : nat) (remaining : string) : option (list PathSegment) :=
  match fuel with
  | O => None
  | S fuel =>
      match remaining with
      | EmptyString => Some []
      | String c r =>
          if Ascii.eqb c "." then
            let '(name, rest) := span is_name_end r in
            if is_empty name then None else segs ← segments_of fuel rest; Some (Key name :: segs)
          else if Ascii.eqb c "[" then
            '(index_str, rest) ← split_once "]" r;
            i ← parse_unsigned usize_max index_str;
            segs ← segments_of fuel rest; Some (Index i :: segs)
          else None
      end
  end.

Definition jsonpath_segments (expression : string) : option (list PathSegment) :=
  remaining ← strip_prefix_char "$" expression;
  segments_of (S (String.length remaining)) remaining.

(** Following the steps into a value. *)
Fixpoint walk (v : value) (segs : list PathSegment) : option value :=
  match segs with
  | [] => Some v
  | Key name :: r => w ← get_field v name; walk w r
  | Index i :: r => w ← get_index v i; walk w r
  end.

Definition plain (seg : PathSegment) : bool :=
  match seg with Key name => negb (contains_char is_special name) | Index _ => true end.

Lemma apply_loop_walk fuel v r :
  (String.length r < fuel)%nat -> apply_loop fuel v r = (segs ← segments_of fuel r; walk v segs).
Proof.
  revert v r. induction fuel as [|fuel IH]; intros v r Hf; [lia|]. destruct r as [|c r]; [done|].
  cbn [apply_loop segments_of is_empty strip_prefix_char]. simpl in Hf. destruct (Ascii.eqb c ".") eqn:Edot.
  - pose proof (span_length is_name_end r) as Hl. destruct (span is_name_end r) as [name rest]. simpl in Hl.
    destruct (is_empty name); [done|].
    assert (IH' : forall w, apply_loop fuel w rest = (segs ← segments_of fuel rest; walk w segs)) by (intros; apply IH; lia).
    destruct (segments_of fuel rest); destruct (get_field v name) as [w|] eqn:E; simpl; rewrite ?IH', ?E; done.
  - destruct (Ascii.eqb c "["); [|done]. cbn [mbind option_bind].
    destruct (split_once "]" r) as [[idx rest]|] eqn:Es; [|done]. cbn [mbind option_bind].
    apply split_once_length in Es.
    destruct (parse_unsigned usize_max idx) as [i|]; [|done]. cbn [mbind option_bind].
    assert (IH' : forall w, apply_loop fuel w rest = (segs ← segments_of fuel rest; walk w segs)) by (intros; apply IH; lia).
    destruct (segments_of fuel rest); destruct (get_index v i) as [w|] eqn:E; simpl; rewrite ?IH', ?E; done.
Qed.

Lemma valid_loop_segments fuel r :
  (String.length r < fuel)%nat ->
  valid_loop fuel r = match segments_of fuel r with Some segs => forallb plain segs | None => false end.
Proof.
  revert r. induction fuel as [|fuel IH]; intros r Hf; [lia|]. destruct r as [|c r]; [done|].
  cbn [valid_loop segments_of is_empty strip_prefix_char]. simpl in Hf. destruct (Ascii.eqb c ".") eqn:Edot.
  - pose proof (span_length is_name_end r) as Hl. destruct (span is_name_end r) as [name rest]. simpl in Hl.
    destruct (is_empty name); [done|]. simpl.
    destruct (contains_char is_special name) eqn:Ec.
    + destruct (segments_of fuel rest); simpl; by rewrite ?Ec.
    + rewrite IH by lia. destruct (segments_of fuel rest); simpl; by rewrite ?Ec.
  - destruct (Ascii.eqb c "["); [|done].
    destruct (split_once "]" r) as [[idx rest]|] eqn:Es; [|done]. cbn [mbind option_bind].
    apply split_once_length in Es.
    destruct (parse_unsigned usize_max idx) as [i|]; [|done]. simpl. rewrite IH by lia.
    by destruct (segments_of fuel rest).
Qed.

(** An expression's meaning does not depend on the value it is applied to: the
    interpreter that parses while it descends is "read all steps, then follow them",
    and gives nothing exactly when the expression is malformed or a step finds no such
    field or index. *)
Theorem jsonpath_meaning v e :
  apply_jsonpath_subset v e = (segs ← jsonpath_segments e; walk v segs).
Proof.
  unfold apply_jsonpath_subset, jsonpath_segments. destruct (String.eqb_spec e "$") as [->|Hne]; [done|].
  destruct (strip_prefix_char "$" e) as [r|] eqn:E; [|done]. cbn [mbind option_bind].
  apply apply_loop_walk. lia.
Qed.

(** The compile-time check is exact: it accepts an expression if and only if
    the run-time interpreter can read it and no name in it uses a wildcard or filter
    character. So an accepted projection path can only come to nothing at run time
    because the response lacks the field, never because of its syntax. *)
Theorem jsonpath_validity e :
  jsonpath_is_valid e = true <->
  exists segs, jsonpath_segments e = Some segs /\ forallb plain segs = true.
Proof.
  unfold jsonpath_is_valid, jsonpath_segments. destruct (String.eqb_spec e "$") as [->|Hne]; [naive_solver|].
  destruct (strip_prefix_char "$" e) as [r|] eqn:E; cbn [mbind option_bind]; [|naive_solver].
  destruct (is_empty r) eqn:Er.
  - to_prop. subst r. exfalso. apply Hne. unfold strip_prefix_char in E. destruct e as [|c e]; [done|].
    destruct (Ascii.eqb_spec c "$"); naive_solver.
  - rewrite valid_loop_segments by lia. destruct (segments_of _ r); naive_solver.
Qed.

(** * Nested-field paths: printing and reading *)

Definition no_delimiter (name : string) : bool := negb (contains_char is_name_end name).

Definition segment_wf (seg : PathSegment) : bool :=
  match seg with
  | Key name => negb (is_empty name) && no_delimiter name
  | Index i => (0 <=? i) && (i <=? usize_max)
  end.

Definition key_wf (name : string) : bool := negb (is_empty name) && no_delimiter name.

(** A path in its wire form; a key is preceded by a dot unless it comes first. *)
Fixpoint show_segments (first : bool) (segs : list PathSegment) : string :=
  match segs with
  | [] => EmptyString
  | Key name :: r =>
      String.append (if first then EmptyString else ".") (String.append name (show_segments false r))
  | Index i :: r => String.append "[" (String.append (show_int i) (String.append "]" (show_segments false r)))
  end.

Definition show_path (segs : list PathSegment) : string := show_segments true segs.

#[local] Arguments String.append !_ _ /.

Lemma string_app_assoc a b c : String.append a (String.append b c) = String.append (String.append a b) c.
Proof. induction a as [|x a IH]; simpl; [done|]. by rewrite IH. Qed.

Lemma string_app_nil_r a : String.append a EmptyString = a.
Proof. induction a as [|x a IH]; simpl; [done|]. by rewrite IH. Qed.

Lemma string_app_length a b : String.length (String.append a b) = (String.length a + String.length b)%nat.
Proof. induction a; simpl; lia. Qed.

Lemma string_app_cons a c b : String.append (String.append a (String c EmptyString)) b = String.append a (String c b).
Proof. induction a as [|x a IH]; simpl; [done|]. by rewrite IH. Qed.

Lemma no_delimiter_cons c name :
  no_delimiter (String c name) = true -> Ascii.eqb c "." = false /\ Ascii.eqb c "[" = false /\ no_delimiter name = true.
Proof.
  unfold no_delimiter. simpl. unfold is_name_end at 1, is_char. rewrite (Ascii.eqb_sym "."), (Ascii.eqb_sym "[").
  rewrite !negb_orb. intros Hn. to_prop. split_and!; try done. by apply negb_true_iff.
Qed.

(** Reading the characters of a name only grows the key. *)
Lemma parse_loop_name fuel input name rest i start key segs :
  no_delimiter name = true ->
  parse_loop (String.length name + fuel) input (String.append name rest) i start key segs =
  parse_loop fuel input rest (i + String.length name) start (String.append key name) segs.
Proof.
  revert i key. induction name as [|c name IH]; intros i key Hn; simpl.
  - by rewrite string_app_nil_r, Nat.add_0_r.
  - apply no_delimiter_cons in Hn as (-> & -> & Hn). rewrite IH by done. rewrite string_app_cons.
    f_equal. lia.
Qed.

Lemma digit_not_bracket d : is_Some (digit_of d) -> is_char "]" d = false.
Proof.
  intros [x Hx]. unfold is_char. destruct (Ascii.eqb_spec "]" d) as [<-|]; [|done]. by vm_compute in Hx.
Qed.

(** One bracketed index, and the dot that may follow it. *)
Lemma parse_loop_index fuel input n rest i start key segs :
  0 <= n <= usize_max ->
  parse_loop (S fuel) input (String "[" (String.append (show_int n) (String "]" rest))) i start key segs =
  (let segs := (if Nat.ltb start i then segs ++ [Key key] else segs) ++ [Index n] in
   let i := (i + 1 + String.length (show_int n) + 1)%nat in
   match strip_prefix_char "." rest with
   | Some a => parse_loop fuel input a (S i) (S i) EmptyString segs
   | None => parse_loop fuel input rest i i EmptyString segs
   end).
Proof.
  intros Hn. cbn [parse_loop]. change (Ascii.eqb "[" ".") with false. change (Ascii.eqb "[" "[") with true. cbv iota.
  rewrite split_once_app by (apply show_int_avoids; [lia|apply digit_not_bracket]).
  rewrite parse_show_int by done. cbv zeta. by destruct (strip_prefix_char "." rest).
Qed.

Definition pushed (start i : nat) (key : string) (segs : list PathSegment) : list PathSegment :=
  if Nat.ltb start i then segs ++ [Key key] else segs.

(** After an index, the loop is at the start of the next segment. *)
Lemma after_index fuel input i acc r :
  exists i', match strip_prefix_char "." (show_segments false r) with
             | Some a => parse_loop fuel input a (S i) (S i) EmptyString acc
             | None => parse_loop fuel input (show_segments false r) i i EmptyString acc
             end = parse_loop fuel input (show_segments true r) i' i' EmptyString acc.
Proof. destruct r as [|[name|n] r]; [exists i|exists (S i)|exists i]; done. Qed.

Lemma show_segments_length l : (String.length (show_segments true l) <= String.length (show_segments false l))%nat.
Proof. destruct l as [|[name|n] r]; simpl; lia. Qed.

(** From a segment's start, the loop reads back a printed path. *)
Lemma parse_loop_show l input :
  ends_with_dot input = false -> forallb segment_wf l = true ->
  forall fuel i acc, (String.length (show_segments true l) < fuel)%nat -> acc ++ l <> [] ->
  parse_loop fuel input (show_segments true l) i i EmptyString acc = Some (Ok (acc ++ l)).
Proof.
  intros Hdot. induction l as [l IH] using (induction_ltof1 _ (@length PathSegment)). unfold ltof in IH.
  intros Hwf fuel i acc Hf Hne. destruct fuel as [|fuel]; [lia|].
  assert (Hidx : forall n r start j key segs, (length r < length l)%nat -> segment_wf (Index n) = true ->
    forallb segment_wf r = true -> forall f, (String.length (show_segments false r) < f)%nat ->
    parse_loop (S f) input (show_segments false (Index n :: r)) j start key segs =
      Some (Ok (pushed start j key segs ++ Index n :: r))).
  { intros n r start j key segs Hl Hn Hr f Hlen. simpl in Hn. to_prop. cbn [show_segments].
    change (String.append "[" ?x) with (String "[" x). change (String.append "]" ?x) with (String "]" x).
    rewrite parse_loop_index by done. cbv zeta.
    destruct (after_index f input (j + 1 + String.length (show_int n) + 1) (pushed start j key segs ++ [Index n]) r) as [j' Ha].
    unfold pushed in *. rewrite Ha, IH; try done; [by rewrite <- app_assoc| |by destruct (if Nat.ltb _ _ then _ else _)].
    pose proof (show_segments_length r). lia. }
  destruct l as [|[name|n] r]; [|apply andb_true_iff in Hwf as [Hs Hr]..].
  - simpl. rewrite Hdot, Nat.ltb_irrefl, app_nil_r in *. by destruct acc.
  - apply andb_true_iff in Hs as [Hne0 Hnd].
    assert (Hlen : (0 < String.length name)%nat) by (destruct name; [done|simpl; lia]).
    assert (Hlr : (String.length name + String.length (show_segments false r) < S fuel)%nat).
    { cbn [show_segments] in Hf. change (String.append EmptyString ?x) with x in Hf. by rewrite string_app_length in Hf. }
    cbn [show_segments]. change (String.append EmptyString ?x) with x.
    replace (S fuel) with (String.length name + S (fuel - String.length name))%nat by lia.
    rewrite parse_loop_name by done. change (String.append EmptyString name) with name.
    destruct r as [|[name'|n] r].
    + simpl. rewrite Hdot, (proj2 (Nat.ltb_lt i _)) by lia. by destruct acc.
    + simpl. rewrite (proj2 (Nat.eqb_neq (i + String.length name) i)) by lia.
      change (String.append name' (show_segments false r)) with (show_segments true (Key name' :: r)).
      rewrite IH; [by rewrite <- app_assoc|simpl; lia|done|simpl in *; lia|by destruct acc].
    + apply andb_true_iff in Hr as [Hn Hr].
      rewrite Hidx; [|simpl; lia|done|done|].
      * unfold pushed. by rewrite (proj2 (Nat.ltb_lt i _)), <- app_assoc by lia.
      * cbn [show_segments] in Hlr. simpl in Hlr. rewrite string_app_length in Hlr. simpl in Hlr. lia.
  - change (show_segments true (Index n :: r)) with (show_segments false (Index n :: r)) in *.
    rewrite Hidx; [|simpl; lia|done|done|].
    + unfold pushed. by rewrite Nat.ltb_irrefl.
    + cbn [show_segments] in Hf. simpl in Hf. rewrite string_app_length in Hf. simpl in Hf. lia.
Qed.

Lemma ends_with_dot_cons c s : ends_with_dot (String c s) = if is_empty s then Ascii.eqb c "." else ends_with_dot s.
Proof. by destruct s. Qed.

Lemma ends_with_dot_app a b : ends_with_dot (String.append a b) = if is_empty b then ends_with_dot a else ends_with_dot b.
Proof.
  induction a as [|c a IH]; [by destruct b|].
  change (String.append (String c a) b) with (String c (String.append a b)). rewrite !ends_with_dot_cons, IH.
  destruct a, b; done.
Qed.

Lemma no_delimiter_dot name : no_delimiter name = true -> ends_with_dot name = false.
Proof.
  induction name as [|c name IH]; [done|]. intros Hn. apply no_delimiter_cons in Hn as (Hc & _ & Hn).
  destruct name; [done|]. by apply IH.
Qed.

Lemma show_ends first l : forallb segment_wf l = true -> ends_with_dot (show_segments first l) = false.
Proof.
  revert first. induction l as [|[name|n] r IH]; intros first Hwf; [done| |];
    apply andb_true_iff in Hwf as [Hs Hr]; specialize (IH false Hr); cbn [show_segments]; rewrite !ends_with_dot_app.
  - apply andb_true_iff in Hs as [Hne Hnd]. rewrite IH, (no_delimiter_dot name) by done.
    destruct name as [|c name]; [done|]. change (String.append (String c name) ?x) with (String c (String.append name x)).
    cbn [is_empty]. by destruct (is_empty (show_segments false r)).
  - rewrite IH. destruct (is_empty (show_segments false r)); [|by destruct (show_int n)].
    by destruct (show_int n).
Qed.

Lemma no_delimiter_snoc key c :
  no_delimiter key = true -> Ascii.eqb c "." = false -> Ascii.eqb c "[" = false ->
  no_delimiter (String.append key (String c EmptyString)) = true.
Proof.
  intros Hk Hd Hb. unfold no_delimiter in *. induction key as [|d key IH]; simpl in *.
  - unfold is_name_end, is_char. by rewrite (Ascii.eqb_sym "."), (Ascii.eqb_sym "["), Hd, Hb.
  - to_prop. rewrite H. simpl. apply IH. by apply negb_true_iff.
Qed.

Lemma pushed_wf i start key segs :
  i = (start + String.length key)%nat -> no_delimiter key = true -> forallb segment_wf segs = true ->
  forallb segment_wf (pushed start i key segs) = true.
Proof.
  intros -> Hk Hs. unfold pushed. destruct (Nat.ltb_spec start (start + String.length key)); [|done].
  rewrite forallb_app, Hs. simpl. rewrite Hk. destruct key; [simpl in *; lia|done].
Qed.

(** What the loop accepts is a list of usable segments. *)
Lemma parse_loop_wf fuel input rest i start key segs out :
  i = (start + String.length key)%nat -> no_delimiter key = true -> forallb segment_wf segs = true ->
  parse_loop fuel input rest i start key segs = Some (Ok out) ->
  out <> [] /\ forallb segment_wf out = true.
Proof.
  revert rest i start key segs. induction fuel as [|fuel IH]; intros rest i start key segs Hi Hk Hs; [done|].
  pose proof (pushed_wf i start key segs Hi Hk Hs) as Hp. cbn [parse_loop]. destruct rest as [|c r].
  - destruct (ends_with_dot input); [done|]. fold (pushed start i key segs).
    destruct (pushed _ _ _ _); [done|]. by intros [= <-].
  - fold (pushed start i key segs).
    destruct (Ascii.eqb c ".") eqn:Ed; [|destruct (Ascii.eqb c "[") eqn:Eb].
    + destruct (Nat.eqb_spec i start) as [|Hne]; [done|]. apply IH; [simpl; lia|done|].
      rewrite forallb_app, Hs. simpl. rewrite Hk. destruct key; [simpl in *; lia|done].
    + destruct (split_once "]" r) as [[idx after]|]; [|done].
      destruct (parse_unsigned usize_max idx) as [n|] eqn:En; [|done].
      apply parse_unsigned_range in En; [|by vm_compute].
      assert (Hw : forallb segment_wf (pushed start i key segs ++ [Index n]) = true).
      { rewrite forallb_app, Hp. simpl. rewrite (proj2 (Z.leb_le _ _)), (proj2 (Z.leb_le n _)) by lia. done. }
      destruct (strip_prefix_char "." after) as [a|]; apply IH; simpl; try done; lia.
    + apply IH; [rewrite string_app_length; simpl; lia|by apply no_delimiter_snoc|exact Hs].
Qed.

Lemma parse_loop_total fuel input rest i start key segs :
  (String.length rest < fuel)%nat -> is_Some (parse_loop fuel input rest i start key segs).
Proof.
  revert rest i start key segs. induction fuel as [|fuel IH]; intros rest i start key segs Hf; [lia|].
  cbn [parse_loop]. destruct rest as [|c r]; [done|]. simpl in Hf.
  destruct (Ascii.eqb c "."); [destruct (Nat.eqb _ _); [done|apply IH; lia]|].
  destruct (Ascii.eqb c "["); [|apply IH; lia].
  destruct (split_once "]" r) as [[idx after]|] eqn:Es; [|done]. apply split_once_length in Es.
  destruct (parse_unsigned usize_max idx); [|done].
  destruct (strip_prefix_char "." after) as [a|] eqn:Ea; apply IH; [|lia].
  unfold strip_prefix_char in Ea. destruct after as [|d after]; [done|]. destruct (Ascii.eqb d "."); simplify_eq.
  simpl in Es. lia.
Qed.

Lemma parse_show_wf l :
  l <> [] -> forallb segment_wf l = true -> FieldPath_parse (show_path l) = Some (Ok l).
Proof.
  intros Hne Hwf. unfold FieldPath_parse, show_path.
  assert (Hnz : is_empty (show_segments true l) = false).
  { destruct l as [|[name|n] r]; [done| |done]. simpl in Hwf. by destruct name. }
  rewrite Hnz. rewrite (parse_loop_show l); try done; [by apply show_ends|lia].
Qed.

(** Field paths round-trip: the printed form of any list of segments with
    non-empty keys free of dots and opening brackets, and indices in range, is read
    back by [FieldPath::parse] as exactly these segments. *)
Theorem field_path_roundtrip (l : list PathSegment) :
  l <> [] -> forallb segment_wf l = true -> FieldPath_parse (show_path l) = Some (Ok l).
Proof. apply parse_show_wf. Qed.

(** [FieldPath::parse] ends on every input, and whatever it accepts is a
    non-empty list of usable segments that has a canonical spelling: printing it and
    parsing again gives the same segments, however the path was spelled. *)
Theorem field_path_parse_total (input : string) :
  match FieldPath_parse input with
  | Some (Ok l) => l <> [] /\ forallb segment_wf l = true /\ FieldPath_parse (show_path l) = Some (Ok l)
  | Some (Err _) => True
  | None => False
  end.
Proof.
  unfold FieldPath_parse at 1. destruct (is_empty input) eqn:E; [done|].
  destruct (parse_loop_total (S (String.length input)) input input 0 0 EmptyString []) as [r Hr]; [lia|].
  rewrite Hr. destruct r as [l|]; [|done].
  apply parse_loop_wf in Hr as [Hne Hwf]; try done.
  split; [done|]. split; [done|]. by apply parse_show_wf.
Qed.

Definition sample_path : list PathSegment := [Key "data"; Key "matching_rule"; Index 0; Key "attribute"].

Lemma field_path_roundtrip_witness :
  sample_path <> [] /\ forallb segment_wf sample_path = true /\
  FieldPath_parse (show_path sample_path) = Some (Ok sample_path).
Proof.
  assert (H1 : sample_path <> []) by discriminate.
  assert (H2 : forallb segment_wf sample_path = true) by (vm_compute; reflexivity).
  split; [exact H1|]. split; [exact H2|]. exact (field_path_roundtrip sample_path H1 H2).
Defined.

(** Spellings the parser takes for the same path. *)
Example lenient_spellings :
  FieldPath_parse "a.[+07]b" = Some (Ok [Key "a"; Index 7; Key "b"]) /\
  FieldPath_parse "a[7].b" = Some (Ok [Key "a"; Index 7; Key "b"]) /\
  FieldPath_parse "a..b" = Some (Err (EmptyKey "a..b" 2)).
Proof. by vm_compute. Qed.

(** * Resolution *)

(** [declared fields segs f]: following [segs] from [fields], indices standing for
    the elements of an array, arrives at the declared field [f]. *)
Inductive declared : list BodyField -> list PathSegment -> BodyField -> Prop :=
| declared_here fields f : f ∈ fields -> declared fields [Key (field_name f)] f
| declared_below fields f r g :
    f ∈ fields -> declared (children f) r g -> declared fields (Key (field_name f) :: r) g
| declared_element fields i r g : declared fields r g -> declared fields (Index i :: r) g.

Lemma find_field_sound name fields f : find_field name fields = Some f -> f ∈ fields /\ field_name f = name.
Proof.
  intros Hf. apply List.find_some in Hf as [Hin Hn]. split; [by apply list_elem_of_In|]. by apply String.eqb_eq.
Qed.

(** Checking a binding's path against a body schema never reaches the
    [unreachable!] at its end: every non-empty path gets an answer. A path that
    resolves to a leaf really is declared: each key names a field below the previous
    one, ending in the leaf; a segment reported as unknown or misplaced does occur in
    the path. *)
Theorem resolve_sound (segs : list PathSegment) (fields : list BodyField) :
  segs <> [] ->
  exists r, resolve_against_schema segs fields = Some r /\
    match r with
    | Ok (SchemaLeaf f) => declared fields segs f
    | Ok StructuralOnly => True
    | Err (UnknownSegment _ name) | Err (SegmentUnderNonObject _ name) => Key name ∈ segs
    end.
Proof.
  unfold resolve_against_schema. generalize "<root>" as label. revert fields.
  induction segs as [|seg rest IH]; intros fields label Hne; [done|]. destruct seg as [name|i]; cbn [resolve_loop].
  - destruct (find_field name fields) as [f|] eqn:Ef; [|eexists; split; [done|by left]].
    apply find_field_sound in Ef as [Hin <-]. destruct rest as [|seg rest]; [eexists; split; [done|by constructor]|].
    assert (Hgo : exists r, resolve_loop (children f) (field_name f) (seg :: rest) = Some r /\
      match r with
      | Ok (SchemaLeaf g) => declared fields (Key (field_name f) :: seg :: rest) g
      | Ok StructuralOnly => True
      | Err (UnknownSegment _ name) | Err (SegmentUnderNonObject _ name) => Key name ∈ Key (field_name f) :: seg :: rest
      end).
    { destruct (IH (children f) (field_name f)) as (r & Hr & Hs); [done|]. exists r. split; [done|].
      destruct r as [[g|]|[p n|p n]]; try done; [by apply declared_below|by right..]. }
    destruct (field_type f), (children f); try exact Hgo; eexists; split; try done; by left.
  - destruct rest as [|seg rest]; [by eexists|]. destruct fields as [|f fields]; [by eexists|].
    destruct (IH (f :: fields) label) as (r & Hr & Hs); [done|]. exists r. split; [done|].
    destruct r as [[g|]|[p n|p n]]; try done; [by constructor|by right..].
Qed.

Definition sample_fields : list BodyField :=
  [mk_body_field "rules" (FArray FObject) true None [mk_body_field "attribute" FString true None [] None] None].

Lemma resolve_sound_witness :
  [Key "rules"; Index 0; Key "attribute"] <> [] /\
  exists r, resolve_against_schema [Key "rules"; Index 0; Key "attribute"] sample_fields = Some r /\
    match r with
    | Ok (SchemaLeaf f) => declared sample_fields [Key "rules"; Index 0; Key "attribute"] f
    | Ok StructuralOnly => True
    | Err (UnknownSegment _ name) | Err (SegmentUnderNonObject _ name) => Key name ∈ [Key "rules"; Index 0; Key "attribute"]
    end.
Proof.
  assert (H1 : [Key "rules"; Index 0; Key "attribute"] <> []) by discriminate.
  split; [exact H1|]. exact (resolve_sound _ sample_fields H1).
Defined.
