(* ===== verification/Results.v ===== *)
(** What a service command returns ([ags-protocol/src/result.rs], the envelope of
    [output_views.rs]): shaped results, success lines, traces. *)

From stdpp Require Import base list strings.
From Stdlib Require Import ZArith.
From S2P Require Import Prelude Text Json Catalogue.

(** * Shaped results *)

Inductive HeadingStyle : Type := Named | Identified | Bare.

(** A floating-point cell is its text. *)
Inductive FieldValue : Type :=
| CellText (s : string)
| CellNumber (repr : string)
| CellBool (b : bool)
| CellList (items : list string)
| CellNull.

Record Field : Type := mk_result_field { rf_label : string; rf_value : FieldValue }.
Record FieldGroup : Type := mk_group { group_heading : string; group_fields : list Field }.
Record ColumnSpec : Type := mk_column { column_label : string; column_key : string }.
Record Row : Type := mk_row { cells : list FieldValue }.
Record PageInfo : Type := mk_page_info { current_page : Z; total_pages : option Z; total_items : option Z; has_next : bool }.

Record EntityResult : Type := mk_entity {
  entity_kind : string;
  identifier : option string;
  heading_style : HeadingStyle;
  entity_fields : list Field;
  sections : list FieldGroup
}.

Record CollectionResult : Type := mk_collection {
  collection_kind : string;
  columns : list ColumnSpec;
  rows : list Row;
  page_info : option PageInfo;
  notes : list string
}.

Record EmptyResult : Type := mk_empty { empty_operation_id : string; empty_status : string }.

Inductive CommandResult : Type :=
| Entity (e : EntityResult)
| Collection (c : CollectionResult)
| EmptyR (e : EmptyResult)
| Raw (v : value).

(** * Traces *)

Record ResolutionTrace : Type := mk_resolution {
  spec_source : string;
  trace_profile : string * string;
  trace_base_url : string * string;
  trace_namespace : option (string * string);
  token_source : string;
  token_expiry : option string
}.

Record RequestTrace : Type := mk_request_trace {
  trace_http_method : string;
  trace_url : string;
  trace_query_params : list (string * string);
  has_auth_header : bool;
  request_body_size : option Z
}.

Record ResponseTrace : Type := mk_response_trace {
  response_status : Z;
  response_reason : option string;
  response_body_size : option Z
}.

Record ExecutionTrace : Type := mk_trace {
  resolution : option ResolutionTrace;
  request_trace : RequestTrace;
  response_trace : option ResponseTrace
}.

(** * The envelope of a service call *)

Inductive ApiBody : Type := BodyShaped (r : CommandResult) | BodyText (s : string) | BodyEmpty.

Record ApiSuccess : Type := mk_success { success_summary : string; success_version : Z }.

Record ApiOutput : Type := mk_api_output {
  api_operation : OperationSchema;
  api_resource_name : string;
  api_body : ApiBody;
  success : option ApiSuccess;
  api_trace : option ExecutionTrace;
  raw_body : option value;
  has_alternate_versions : bool
}.

Inductive BinaryWrittenDestination : Type := WrittenToStdout | WrittenToFile (path : string).

Record BinaryWrittenOutput : Type := mk_binary_written {
  destination : BinaryWrittenDestination;
  bytes_written : Z;
  written_content_type : string
}.

(** * The intent of a command *)

Inductive CommandIntent : Type := Action_ | Inspect | List_.

(** [CommandIntent::from_operation]. *)
Definition intent_of (op : OperationSchema) : CommandIntent :=
  match mutation_class op with
  | Mutating => Action_
  | ReadOnly | Diagnostic => if ends_with "}" (path_template op) then Inspect else List_
  end.

Record FieldEntry : Type := mk_entry { entry_label : string; entry_value : string }.
Record Section_ : Type := mk_section { section_heading : string; section_fields : list FieldEntry }.
