(* ===== verification/Sanitise.v ===== *)
(** Terminal sanitising of API-sourced text ([support/strings.rs]). *)

From stdpp Require Import base gmap sets strings list.
From Stdlib Require Import ZArith Lia Ascii.
From S2P Require Import Prelude Text Kebab Nouns.

Definition ESC : ascii := ascii_of_nat 27.
Definition BEL : ascii := ascii_of_nat 7.

Definition is_ascii_letter (c : ascii) : bool :=
  let n := nat_of_ascii c in (Nat.leb 65 n && Nat.leb n 90) || (Nat.leb 97 n && Nat.leb n 122).

Definition is_csi_parameter (c : ascii) : bool :=
  let n := nat_of_ascii c in (Nat.leb 48 n && Nat.leb n 57) || is_char ";" c.

(** [\x1b\[[0-9;]*[A-Za-z]], after its first two characters: the rest of the text. *)
Definition csi_tail (s : string) : option string :=
  match (span (fun c => negb (is_csi_parameter c)) s).2 with
  | String c r => if is_ascii_letter c then Some r else None
  | EmptyString => None
  end.

(** [\x1b\][^\x07\x1b]*(?:\x07|\x1b\\)], after its first two characters. *)
Definition osc_tail (s : string) : option string :=
  match (span (fun c => Ascii.eqb c BEL || Ascii.eqb c ESC) s).2 with
  | String c r =>
      if Ascii.eqb c BEL then Some r
      else match r with String d r => if Ascii.eqb d "\" then Some r else None | EmptyString => None end
  | EmptyString => None
  end.

(** A match of [ANSI_RE] at the start of the text. *)
Definition ansi_match (s : string) : option string :=
  match s with
  | String c (String d r) =>
      if Ascii.eqb c ESC then
        if Ascii.eqb d "[" then csi_tail r else if Ascii.eqb d "]" then osc_tail r else None
      else None
  | _ => None
  end.

(** [ANSI_RE.replace_all(s, "")]. *)
Fixpoint remove_ansi (fuel : nat) (s : string) : string :=
  match fuel with
  | O => s
  | S fuel =>
      match ansi_match s with
      | Some r => remove_ansi fuel r
      | None => match s with EmptyString => EmptyString | String c r => String c (remove_ansi fuel r) end
      end
  end.

(** The characters kept; a character outside ASCII is all of its bytes. *)
Definition is_kept (c : ascii) : bool :=
  let n := nat_of_ascii c in Nat.eqb n 10 || Nat.eqb n 9 || (Nat.leb 32 n && negb (Nat.eqb n 127)).

Fixpoint filter_string (p : ascii -> bool) (s : string) : string :=
  match s with
  | EmptyString => EmptyString
  | String c r => if p c then String c (filter_string p r) else filter_string p r
  end.

Definition strip_terminal_control_sequences (s : string) : string :=
  filter_string is_kept (remove_ansi (S (String.length s)) s).

(** * Facts *)

Definition all_kept (s : string) : bool := negb (contains_char (fun c => negb (is_kept c)) s).

Lemma filter_all_kept s : all_kept (filter_string is_kept s) = true.
Proof.
  induction s as [|c s IH]; [done|]. simpl. destruct (is_kept c) eqn:E; [|done].
  unfold all_kept in *. simpl. by rewrite E.
Qed.

Lemma all_kept_cons c s : all_kept (String c s) = true -> is_kept c = true /\ all_kept s = true.
Proof. unfold all_kept. simpl. rewrite negb_orb, negb_involutive. intros H. by apply andb_true_iff in H. Qed.

Lemma filter_kept s : all_kept s = true -> filter_string is_kept s = s.
Proof.
  induction s as [|c s IH]; [done|]. intros Hk. apply all_kept_cons in Hk as [Hc Hs]. simpl. by rewrite Hc, IH.
Qed.

Lemma remove_ansi_kept fuel s : all_kept s = true -> remove_ansi fuel s = s.
Proof.
  revert s. induction fuel as [|fuel IH]; intros s Hk; [done|]. cbn [remove_ansi].
  destruct s as [|c s]; [done|]. apply all_kept_cons in Hk as [Hc Hs].
  assert (Hm : ansi_match (String c s) = None).
  { simpl. destruct s as [|d r]; [done|]. destruct (Ascii.eqb_spec c ESC) as [->|]; [by vm_compute in Hc|done]. }
  rewrite Hm. by rewrite IH.
Qed.

(** Text from the API is safe to print once it is sanitised: no escape
    character and no other C0 control character or DEL remains but newline and tab,
    and sanitising again changes nothing, so nothing that was removed could have
    assembled a new sequence. *)
Theorem sanitised_text (s : string) :
  all_kept (strip_terminal_control_sequences s) = true /\
  strip_terminal_control_sequences (strip_terminal_control_sequences s) = strip_terminal_control_sequences s.
Proof.
  unfold strip_terminal_control_sequences at 1 3 4. split; [apply filter_all_kept|].
  unfold strip_terminal_control_sequences. rewrite remove_ansi_kept by apply filter_all_kept.
  apply filter_kept, filter_all_kept.
Qed.

(** Colours go, text stays; a cut-off sequence loses its escape character. *)
Example strips_colour :
  strip_terminal_control_sequences (String ESC ("[31mred" +:+ String ESC "[0m" +:+ String ESC "[")) = "red[".
Proof. by vm_compute. Qed.

(** A C1 control character (U+009B, the one-character CSI) is kept with what follows. *)
Definition c1_csi : string := String (ascii_of_nat 194) (String (ascii_of_nat 155) "31m").

Lemma c1_control_kept : strip_terminal_control_sequences c1_csi = c1_csi.
Proof. by vm_compute. Qed.

(** * Clean texts: no escape character, no other C0 control character and no DEL, but newline
    and tab. The C1 characters may be in them. The names of messages are built by operations
    that keep them so. *)

#[local] Arguments String.append !_ _ /.

(** No C0 control character — the escape character is one — and no DEL, but newline and tab. *)
Definition clean (s : string) : Prop := all_kept s = true.
Definition opt_clean (o : option string) : Prop := forall s, o = Some s -> clean s.

Lemma clean_avoids s : clean s <-> contains_char (fun c => negb (is_kept c)) s = false.
Proof. unfold clean, all_kept. by rewrite negb_true_iff. Qed.

Lemma clean_sub a b : chars a ⊆ chars b -> clean b -> clean a.
Proof. rewrite !clean_avoids. apply chars_avoid. Qed.

Lemma clean_app a b : clean a -> clean b -> clean (a +:+ b).
Proof. rewrite !clean_avoids, contains_char_app. by intros -> ->. Qed.

Lemma clean_cons c s : is_kept c = true -> clean s -> clean (String c s).
Proof. intros Hc. by apply (clean_app (String c EmptyString)), clean_avoids; simpl; rewrite Hc. Qed.

Lemma clean_stripped s : clean (strip_terminal_control_sequences s).
Proof. apply filter_all_kept. Qed.

Lemma clean_replace from to s : clean to -> clean s -> clean (replace from to s).
Proof. rewrite !clean_avoids. apply replace_avoids. Qed.

Lemma clean_show_int n : clean (show_int n).
Proof.
  apply clean_avoids. destruct (decide (0 <= n)) as [Hn|Hn].
  - apply show_int_avoids; [done|]. intros d [z Hd]. destruct d as [[] [] [] [] [] [] [] []]; try done; vm_compute in Hd; done.
  - destruct n as [|n|n]; [lia..|]. change (show_int (Z.neg n)) with (String "-" (show_int (Z.pos n))). cbn [contains_char].
    rewrite show_int_avoids; [done|lia|]. intros d [z Hd]. destruct d as [[] [] [] [] [] [] [] []]; try done; vm_compute in Hd; done.
Qed.

Lemma opt_clean_some s : clean s -> opt_clean (Some s).
Proof. intros Hs t [= <-]. done. Qed.

Lemma opt_clean_none : opt_clean None.
Proof. done. Qed.

Create HintDb clean.
#[export] Hint Resolve clean_app clean_stripped clean_replace clean_show_int opt_clean_some opt_clean_none : clean.
#[export] Hint Extern 1 (clean _) => reflexivity : clean.
#[export] Hint Extern 2 (clean (String _ _)) => repeat (apply clean_cons; [reflexivity|]) : clean.

Lemma clean_trim s : clean s -> clean (trim s).
Proof. apply clean_sub, trim_chars. Qed.

Lemma clean_trim_end_matches c s : clean s -> clean (trim_end_matches c s).
Proof. apply clean_sub, trim_end_matches_chars. Qed.

Lemma clean_words s : clean s -> clean (kebab_case_to_words s).
Proof. intros Hs. by apply clean_replace. Qed.

Lemma clean_singularize s : clean s -> clean (singularize s).
Proof.
  intros Hs. unfold singularize, stem_if. destruct (existsb _ _); [done|].
  destruct (strip_suffix "ies" s) as [stem|] eqn:E1.
  { apply clean_app; [|done]. eapply clean_sub; [by eapply strip_suffix_chars|done]. }
  destruct (strip_suffix "es" s) as [stem|] eqn:E2; simpl.
  - destruct (ends_with _ _); [eapply clean_sub; [by eapply strip_suffix_chars|done]|].
    destruct (strip_suffix "s" s) as [stem'|] eqn:E3; simpl; [|done].
    destruct (negb _); [eapply clean_sub; [by eapply strip_suffix_chars|done]|done].
  - destruct (strip_suffix "s" s) as [stem'|] eqn:E3; simpl; [|done].
    destruct (negb _); [eapply clean_sub; [by eapply strip_suffix_chars|done]|done].
Qed.

Lemma clean_command_object after fallback : clean after -> clean fallback -> clean (command_object after fallback).
Proof.
  intros Ha Hf. unfold command_object. destruct (existsb _ _); [done|]. destruct (String.eqb _ "my"); [|by apply clean_replace].
  assert (Hstrip : forall p s, clean s -> clean (default s (strip_prefix p s))).
  { intros p s Hs. destruct (strip_prefix p s) as [r|] eqn:E; [|done]. eapply clean_sub; [by eapply strip_prefix_chars|done]. }
  destruct (is_empty _); [done|]. apply clean_replace; [done|]. by apply Hstrip, Hstrip.
Qed.

#[export] Hint Resolve clean_trim clean_trim_end_matches clean_words clean_singularize clean_command_object : clean.
