(* ===== verification/Workflow.v ===== *)
(** The data of workflows ([ags-protocol/src/workflow.rs], [error.rs]) and the
    run's step context ([WorkflowContext] in [workflows/mod.rs]). *)

From stdpp Require Import base gmap strings list.
From Stdlib Require Import ZArith Lia Ascii.
From S2P Require Import Prelude Text Json Catalogue Paths Results.

(** * Errors *)

Inductive RuntimeErrorKind : Type :=
| NotAuthenticated
| Forbidden
| NotFound
| Validation
| Rejected
| Upstream (status : Z) (code : option string)
| Network
| ResponseTooLarge
| Internal.

Inductive SuggestionKind : Type := Fix_ | Next_ | Info_.

Record ErrorDetails : Type := mk_details {
  err_code : option string;
  err_reason : option string;
  err_detail : option string;
  err_suggestion_kind : option SuggestionKind;
  err_tip : option string
}.

Record RuntimeError : Type := mk_error {
  kind : RuntimeErrorKind;
  message : string;
  details : option ErrorDetails;
  hint : option string;
  err_trace : option ExecutionTrace
}.

Definition internal (message : string) : RuntimeError := mk_error Internal message None None None.

Definition reason_detail (e : RuntimeError) : option string :=
  d ← details e;
  r ← err_reason d;
  let r := trim r in
  if is_empty r then None else Some r.

Definition telemetry_class (k : RuntimeErrorKind) : string :=
  match k with
  | NotAuthenticated => "auth"
  | Forbidden => "permission"
  | NotFound => "not_found"
  | Validation => "usage"
  | Rejected => "rejected"
  | Upstream _ _ | ResponseTooLarge => "upstream"
  | Network => "network"
  | Internal => "internal"
  end.

(** * Definitions *)

Inductive ReferenceTarget : Type := FromWorkflow (input : string) | FromStep (id : string).

Inductive ArithmeticOp : Type := Mul | Add.

Inductive ArithmeticOperand : Type := OperandInput (name : string) | OperandInteger (n : Z).

Inductive TransformKind : Type :=
| TJsonPath (path : string)
| TArithmetic (op : ArithmeticOp) (operand : ArithmeticOperand).

Record ReferenceBinding : Type := mk_reference {
  ref_from : ReferenceTarget;
  ref_output : option string;
  ref_transform : option TransformKind
}.

Inductive BindingSource : Type :=
| BLiteral (v : value) (sensitive : bool)
| BReference (r : ReferenceBinding)
| BFormat (template : string)
| BMirror (mirror_of : string).

Record StepInputBinding : Type := mk_binding {
  bind_field : string;
  bind_source : BindingSource;
  bind_show_in_review : bool;
  bind_description : option string
}.

(** [StepOutputCapture]; its source is a path into the response body. *)
Record StepOutputCapture : Type := mk_capture {
  cap_name : string;
  cap_path : string;
  cap_default : option value;
  cap_sensitive : bool
}.

Inductive StepFieldLocation : Type := LPath | LQuery | LHeader | LBody | LFormData.

Inductive AutoDeriveScope : Type := ScopeInput (name : string) | ScopeLocal (field_name : string).

Record AutoDerivedField : Type := mk_auto {
  auto_field : string;
  auto_schema : value;
  auto_required : bool;
  auto_sensitive : bool;
  auto_description : option string;
  auto_scope : AutoDeriveScope;
  auto_location : StepFieldLocation
}.

Record OperationReference : Type := mk_op_ref { service : string; operation : string }.

Inductive OptionParameterBinding : Type :=
| OFromInput (name : string)
| OFromInputOptional (name : string)
| OLiteral (v : value).

Inductive LabelDetail : Type :=
| LabelPath (path : string)
| LabelByInput (input : string) (paths : list (string * string)).

Record OptionsSource : Type := mk_options {
  opt_operation : OperationReference;
  opt_parameters : list (string * OptionParameterBinding);
  opt_items_path : string;
  opt_value : string;
  opt_label : option string;
  opt_label_detail : option LabelDetail;
  opt_fallback_description : option string;
  opt_filter : option (string * value)
}.

Record FilePickerSpec : Type := mk_file_picker {
  extensions : option (list string);
  start_dir : option string
}.

Record WorkflowInputSpec : Type := mk_input {
  in_name : string;
  in_description : option string;
  in_schema : option value;
  in_required : bool;
  in_default : option value;
  in_sensitive : bool;
  in_options : option OptionsSource;
  in_file_picker : option FilePickerSpec;
  in_location : StepFieldLocation
}.

Record WorkflowInputNeeded : Type := mk_needed {
  need_id : nat;
  need_label : string;
  need_description : option string;
  need_schema : value;
  need_default : option value;
  need_required : bool;
  need_sensitive : bool;
  need_scope : AutoDeriveScope;
  need_location : StepFieldLocation
}.

Record WorkflowOutputAlias : Type := mk_alias {
  alias_name : string;
  alias_step : string;
  alias_output : string;
  alias_sensitive : bool;
  alias_section : option string;
  alias_label : option string;
  alias_item_fields : option (list string)
}.

Record WorkflowBriefing : Type := mk_briefing {
  overview : string;
  prerequisites : list string;
  creates : list string
}.

(** Rows of a completion: label and value, description and command. *)
Record WorkflowCompletion : Type := mk_completion {
  created : list (string * string);
  next_steps : list (string * string)
}.

Inductive StepKind : Type := Api | Local.

Record StepDefinition : Type := mk_step_definition {
  sd_id : string;
  sd_description : option string;
  sd_kind : StepKind;
  sd_action : option string;
  sd_operation : option OperationReference;
  sd_dependencies : list string;
  sd_confirm : bool;
  sd_optional : bool;
  sd_continue_on_failure : bool;
  sd_skip_if_exists : bool;
  sd_reviewed : option bool;
  sd_inputs : list StepInputBinding;
  sd_outputs : list StepOutputCapture
}.

Record WorkflowDefinition : Type := mk_definition {
  wd_id : string;
  wd_name : string;
  workflow_protocol_version : option string;
  wd_intent : option string;
  wd_description : option string;
  wd_briefing : option WorkflowBriefing;
  wd_inputs : list WorkflowInputSpec;
  wd_reviewed_by_default : bool;
  wd_steps : list StepDefinition;
  wd_outputs : list WorkflowOutputAlias;
  wd_completion : option WorkflowCompletion
}.

Record CompiledStep : Type := mk_step {
  step_id : string;
  step_index : nat;
  step_description : option string;
  step_kind : StepKind;
  step_action : option string;
  step_operation : option OperationReference;
  step_dependencies : list string;
  step_confirm : bool;
  is_optional : bool;
  continue_on_failure : bool;
  skip_if_exists : bool;
  is_reviewed : option bool;
  step_inputs : list StepInputBinding;
  step_outputs : list StepOutputCapture;
  auto_derived : list AutoDerivedField
}.

Record CompiledWorkflow : Type := mk_workflow {
  wf_id : string;
  wf_name : string;
  wf_intent : option string;
  wf_description : option string;
  wf_briefing : option WorkflowBriefing;
  wf_inputs : list WorkflowInputSpec;
  is_reviewed_by_default : bool;
  wf_steps : list CompiledStep;
  wf_outputs : list WorkflowOutputAlias;
  wf_completion : option WorkflowCompletion
}.

(** * The step context *)

Inductive WorkflowOutputProvenance : Type := Captured | Missing | Skipped_.

Record WorkflowContext : Type := mk_context {
  ctx_step_outputs : gmap string ApiOutput;
  local_step_bodies : gmap string value;
  captures : gmap string (gmap string value);
  provenances : gmap string (gmap string WorkflowOutputProvenance);
  binary_outputs : gmap string string
}.

Definition WorkflowContext_new : WorkflowContext := mk_context ∅ ∅ ∅ ∅ ∅.

Definition store_step_output (id : string) (o : ApiOutput) (c : WorkflowContext) : WorkflowContext :=
  mk_context (<[id := o]> (ctx_step_outputs c)) (local_step_bodies c) (captures c) (provenances c) (binary_outputs c).

Definition store_local_step_body (id : string) (b : value) (c : WorkflowContext) : WorkflowContext :=
  mk_context (ctx_step_outputs c) (<[id := b]> (local_step_bodies c)) (captures c) (provenances c) (binary_outputs c).

Definition store_binary_output (id : string) (b : string) (c : WorkflowContext) : WorkflowContext :=
  mk_context (ctx_step_outputs c) (local_step_bodies c) (captures c) (provenances c) (<[id := b]> (binary_outputs c)).

Definition step_body_json (id : string) (c : WorkflowContext) : option value :=
  match local_step_bodies c !! id with
  | Some body => Some body
  | None =>
      o ← ctx_step_outputs c !! id;
      match raw_body o with
      | Some raw => Some raw
      | None => match api_body o with BodyEmpty | BodyShaped _ => None | BodyText s => Some (Str s) end
      end
  end.

Definition default_entry {V} (id : string) (m : gmap string (gmap string V)) : gmap string V :=
  match m !! id with Some e => e | None => ∅ end.

(** Record one capture of a step. *)
Definition record_capture (id name : string) (v : value) (p : WorkflowOutputProvenance) (c : WorkflowContext)
  : WorkflowContext :=
  mk_context (ctx_step_outputs c) (local_step_bodies c)
    (<[id := <[name := v]> (default_entry id (captures c))]> (captures c))
    (<[id := <[name := p]> (default_entry id (provenances c))]> (provenances c)) (binary_outputs c).

(** [entry(..).or_default()] on both tables. *)
Definition touch_entry (id : string) (c : WorkflowContext) : WorkflowContext :=
  mk_context (ctx_step_outputs c) (local_step_bodies c)
    (<[id := default_entry id (captures c)]> (captures c))
    (<[id := default_entry id (provenances c)]> (provenances c)) (binary_outputs c).

Definition unresolved_output (id : string) (cap : StepOutputCapture) : RuntimeError :=
  internal ("step '" +:+ id +:+ "' output '" +:+ cap_name cap +:+ "' did not resolve (path '" +:+ cap_path cap
            +:+ "') and has no default").

Fixpoint bind_loop (id : string) (caps : list StepOutputCapture) (body : option value) (c : WorkflowContext)
  : WorkflowContext * result unit RuntimeError :=
  match caps with
  | [] => (c, Ok tt)
  | cap :: caps =>
      match (b ← body; apply_jsonpath_subset b (cap_path cap)), cap_default cap with
      | Some v, _ => bind_loop id caps body (record_capture id (cap_name cap) v Captured c)
      | None, Some d => bind_loop id caps body (record_capture id (cap_name cap) d Missing c)
      | None, None => (c, Err (unresolved_output id cap))
      end
  end.

(** [bind_step_outputs]: captures before the failing one stay recorded. *)
Definition bind_step_outputs (id : string) (caps : list StepOutputCapture) (body : option value) (c : WorkflowContext)
  : WorkflowContext * result unit RuntimeError :=
  bind_loop id caps body (touch_entry id c).

Definition no_skip_default (id : string) (cap : StepOutputCapture) : RuntimeError :=
  internal ("step '" +:+ id +:+ "' output '" +:+ cap_name cap +:+ "' has no default for skipped binding").

Fixpoint bind_skipped_loop (id : string) (caps : list StepOutputCapture) (c : WorkflowContext)
  : WorkflowContext * result unit RuntimeError :=
  match caps with
  | [] => (c, Ok tt)
  | cap :: caps =>
      match cap_default cap with
      | Some d => bind_skipped_loop id caps (record_capture id (cap_name cap) d Skipped_ c)
      | None => (c, Err (no_skip_default id cap))
      end
  end.

Definition bind_skipped_outputs (id : string) (caps : list StepOutputCapture) (c : WorkflowContext)
  : WorkflowContext * result unit RuntimeError :=
  bind_skipped_loop id caps (touch_entry id c).

Definition inject_step_captures_for_dry_run (id : string) (m : gmap string value) (c : WorkflowContext) : WorkflowContext :=
  mk_context (ctx_step_outputs c) (local_step_bodies c) (<[id := m]> (captures c)) (provenances c) (binary_outputs c).

Definition resolve_step_reference (id name : string) (c : WorkflowContext) : option value :=
  e ← captures c !! id; e !! name.

Definition resolve_workflow_outputs (aliases : list WorkflowOutputAlias) (c : WorkflowContext) : gmap string value :=
  list_to_map (rev (omap (fun a => v ← resolve_step_reference (alias_step a) (alias_output a) c; Some (alias_name a, v)) aliases)).

Record WorkflowOutputItem : Type := mk_item {
  item_alias : WorkflowOutputAlias;
  item_value : value;
  item_provenance : WorkflowOutputProvenance
}.

Definition resolve_workflow_output_view (aliases : list WorkflowOutputAlias) (c : WorkflowContext) : list WorkflowOutputItem :=
  omap (fun a =>
    v ← resolve_step_reference (alias_step a) (alias_output a) c;
    e ← provenances c !! alias_step a;
    p ← e !! alias_output a;
    Some (mk_item a v p)) aliases.
