(* ===== verification/AutoDerive.v ===== *)
(** Inputs a step leaves to be derived from its operation
    ([workflows/auto_derive.rs]): JSON schemas of parameters and body fields, the
    lookup of operations, and the required fields no binding covers. *)

From stdpp Require Import base gmap strings list.
From Stdlib Require Import ZArith Ascii.
From S2P Require Import Prelude Text Json Catalogue Paths Results Workflow.

(** * Schemas *)

Definition typed (t : string) : value := Object [("type", Str t)].
Definition array_of (items : value) : value := Object [("items", items); ("type", Str "array")].
Definition enum_of (values : list string) : value := Object [("enum", Array (map Str values)); ("type", Str "string")].

Fixpoint value_type_schema (t : ValueType) : value :=
  match t with
  | VString => typed "string"
  | VInteger => typed "integer"
  | VNumber => typed "number"
  | VBoolean => typed "boolean"
  | VArray inner => array_of (value_type_schema inner)
  | VEnum values => enum_of values
  end.

Definition parameter_schema (p : ParameterSchema) : value := value_type_schema (value_type p).

Fixpoint body_field_type_schema (t : BodyFieldType) : value :=
  match t with
  | FString => typed "string"
  | FInteger => typed "integer"
  | FNumber => typed "number"
  | FBoolean => typed "boolean"
  | FEnum values => enum_of values
  | FArray inner => array_of (body_field_type_schema inner)
  | FObject => typed "object"
  | FReference name => Object [("$ref", Str name); ("type", Str "object")]
  end.

(** A child's schema with its description. *)
Definition described (c : BodyField) (schema : value) : value :=
  match schema, field_description c with
  | Object o, Some d => Object (obj_insert "description" (Str d) o)
  | _, _ => schema
  end.

(** [object_schema], given the schemas of the children. *)
Definition object_schema (children : list BodyField) (schemas : list (string * value)) : value :=
  match children with
  | [] => typed "object"
  | _ =>
      let properties := foldl (fun m kv => obj_insert kv.1 kv.2 m) [] schemas in
      let required := map field_name (List.filter field_required children) in
      let schema := [("properties", Object properties); ("type", Str "object")] in
      Object (match required with [] => schema | _ => obj_insert "required" (Array (map Str required)) schema end)
  end.

Fixpoint body_field_schema (f : BodyField) : value :=
  match f with
  | mk_body_field _ ty _ _ children _ =>
      let object := object_schema children (map (fun c => (field_name c, described c (body_field_schema c))) children) in
      match ty with
      | FString => typed "string"
      | FInteger => typed "integer"
      | FNumber => typed "number"
      | FBoolean => typed "boolean"
      | FEnum values => enum_of values
      | FObject | FReference _ => object
      | FArray inner => array_of (match children with [] => body_field_type_schema inner | _ => object end)
      end
  end.

Definition operation_field_schema (op : OperationSchema) (name : string) : option value :=
  match List.find (fun p => String.eqb (param_name p) name && negb (bool_decide (param_location p = InBody))) (parameters op) with
  | Some p => Some (parameter_schema p)
  | None =>
      body ← request_body op;
      field ← List.find (fun f => String.eqb (field_name f) name) (body_fields body);
      Some (body_field_schema field)
  end.

(** * Operations *)

Definition find_operation (schema : ServiceSchema) (id : string) : option OperationSchema :=
  List.find (fun op => String.eqb (op_id op) id) (concat (map operations (resources schema))).

Definition unknown_operation (context : string) (op : OperationReference) : RuntimeError :=
  internal (context +:+ " references unknown operation '" +:+ service op +:+ "." +:+ operation op +:+ "'").

Definition find_operation_or_error (schema : ServiceSchema) (op : OperationReference) (context : string)
  : result OperationSchema RuntimeError :=
  ok_or (find_operation schema (operation op)) (unknown_operation context op).

(** * Derived fields *)

(** [field.split(['.', '[']).next()]: the part before the first delimiter. *)
Definition path_root (field : string) : string := (span (fun c => Ascii.eqb c "." || Ascii.eqb c "[") field).1.

(** The fields the bindings of a step cover. *)
Definition bound_fields (inputs : list StepInputBinding) : gset string :=
  list_to_set (concat (map (fun b => [bind_field b; path_root (bind_field b)]) inputs)).

Definition derived_scope (input_names : gset string) (name : string) : AutoDeriveScope :=
  if bool_decide (name ∈ input_names) then ScopeInput name else ScopeLocal name.

Definition parameter_location (l : ParameterLocation) : StepFieldLocation :=
  match l with
  | InPath => LPath | InQuery => LQuery | InHeader => LHeader | InFormData => LFormData | InBody => LBody
  end.

Definition derive_parameter (input_names : gset string) (p : ParameterSchema) : AutoDerivedField :=
  mk_auto (param_name p) (parameter_schema p) true false (param_description p) (derived_scope input_names (param_name p))
    (parameter_location (param_location p)).

Definition derive_body_field (input_names : gset string) (f : BodyField) : AutoDerivedField :=
  mk_auto (field_name f) (body_field_schema f) true false (field_description f) (derived_scope input_names (field_name f)) LBody.

Definition auto_derive_without_operation (step : StepDefinition) : RuntimeError :=
  internal ("step '" +:+ sd_id step +:+ "': API step reached auto_derive_step without an operation").

Definition step_context (step : StepDefinition) : string := "step '" +:+ sd_id step +:+ "'".

Definition derive_fields (op : OperationSchema) (bound input_names : gset string) : list AutoDerivedField :=
  map (derive_parameter input_names)
    (List.filter (fun p => negb (bool_decide (param_name p ∈ bound))) (required_parameters op)) ++
  map (derive_body_field input_names)
    (List.filter (fun f => negb (bool_decide (field_name f ∈ bound))) (required_body_fields op)).

Definition auto_derive_step (step : StepDefinition) (schema : ServiceSchema) (workflow_inputs : list WorkflowInputSpec)
  : result (list AutoDerivedField) RuntimeError :=
  let? op_ref := ok_or (sd_operation step) (auto_derive_without_operation step) in
  let? op := find_operation_or_error schema op_ref (step_context step) in
  Ok (derive_fields op (bound_fields (sd_inputs step)) (list_to_set (map in_name workflow_inputs))).

(** * What is derived *)

(** The required fields of an operation: parameters outside the body, then body fields. *)
Definition required_names (op : OperationSchema) : list string :=
  map param_name (required_parameters op) ++ map field_name (required_body_fields op).

Lemma derived_names op bound input_names :
  map auto_field (derive_fields op bound input_names) =
  List.filter (fun n => negb (bool_decide (n ∈ bound))) (required_names op).
Proof.
  unfold derive_fields, required_names. rewrite map_app, !map_map, List.filter_app. simpl.
  pose (free := fun n : string => negb (bool_decide (n ∈ bound))).
  f_equal; [apply (map_filter_comm free param_name)|apply (map_filter_comm free field_name)].
Qed.

(** Derivation is complete and exact: after [auto_derive_step], every required
    field of the operation is either covered by a binding (its own or one below it)
    or derived, nothing else is derived, all derived fields are required, and a
    derived field reads the workflow input of its name exactly when there is one. *)
Theorem auto_derive_exact step schema op_ref op inputs derived :
  sd_operation step = Some op_ref -> find_operation schema (operation op_ref) = Some op ->
  auto_derive_step step schema inputs = Ok derived ->
  (forall n, n ∈ map auto_field derived <-> n ∈ required_names op /\ n ∉ bound_fields (sd_inputs step)) /\
  (forall f, f ∈ derived -> auto_required f = true /\
     (auto_scope f = ScopeInput (auto_field f) /\ auto_field f ∈ map in_name inputs \/
      auto_scope f = ScopeLocal (auto_field f) /\ auto_field f ∉ map in_name inputs)).
Proof.
  intros Ho Hf Hd. unfold auto_derive_step, find_operation_or_error in Hd. rewrite Ho in Hd. simpl in Hd.
  rewrite Hf in Hd. injection Hd as <-. split.
  - intros n. rewrite derived_names, !list_elem_of_In, filter_In, negb_true_iff, bool_decide_eq_false. done.
  - intros f Hin.
    assert (Hscope : forall n, derived_scope (list_to_set (map in_name inputs)) n = ScopeInput n /\ n ∈ map in_name inputs \/
      derived_scope (list_to_set (map in_name inputs)) n = ScopeLocal n /\ n ∉ map in_name inputs).
    { intros n. unfold derived_scope. case_bool_decide as Hn; rewrite elem_of_list_to_set in Hn; auto. }
    unfold derive_fields in Hin. apply elem_of_app in Hin as [Hin|Hin]; apply list_elem_of_fmap in Hin as (x & -> & _);
      (split; [done|apply Hscope]).
Qed.

Definition sample_operation : OperationSchema :=
  mk_operation "CreateUser" "create" EmptyString None Mutating Post "/users" [mk_parameter "namespace" InPath true VString false None None]
    (Some (mk_body_schema "User" [mk_body_field "email" FString true None [] None;
                                  mk_body_field "address" FObject true None [mk_body_field "city" FString true None [] None] None;
                                  mk_body_field "note" FString false None [] None] false None))
    None [] "admin" 1 false None.

Definition sample_service : ServiceSchema :=
  mk_service "iam" EmptyString [mk_resource "users" EmptyString
    [mk_method "create" EmptyString (Some "admin") [mk_scope "admin" 1 [sample_operation]]]].

Definition sample_definition : StepDefinition :=
  mk_step_definition "create" None Api None (Some (mk_op_ref "iam" "CreateUser")) [] false false false false None
    [mk_binding "address.city" (BLiteral (Str "Oslo") false) true None] [].

Lemma auto_derive_exact_witness :
  exists derived, auto_derive_step sample_definition sample_service [mk_input "namespace" None None true None false None None LPath] = Ok derived /\
    (forall n, n ∈ map auto_field derived <->
       n ∈ required_names sample_operation /\ n ∉ bound_fields (sd_inputs sample_definition)).
Proof.
  eexists. split; [vm_compute; reflexivity|].
  refine (proj1 (auto_derive_exact sample_definition sample_service (mk_op_ref "iam" "CreateUser") sample_operation
    [mk_input "namespace" None None true None false None None LPath] _ _ _ _)); vm_compute; reflexivity.
Defined.

Example path_root_nested : path_root "address.city" = "address" /\ path_root "tags[0]" = "tags" /\ path_root "note" = "note".
Proof. vm_compute. done. Qed.

(** * The registry of local actions ([workflows/local_actions/mod.rs]) and the inputs
    the two actions declare ([docker_login.rs], [ams_upload.rs]). What the actions do
    is outside the model. *)

Record LocalActionInput : Type := mk_action_input { ai_name : string; ai_required : bool; ai_description : string }.

Definition docker_login_inputs : list LocalActionInput :=
  [mk_action_input "registry" true "Container registry hostname to authenticate against.";
   mk_action_input "username" true "Registry username.";
   mk_action_input "password" true "Registry password or token (transported via stdin, never argv)."].

Definition ams_upload_inputs : list LocalActionInput :=
  [mk_action_input "path" true "Directory holding the built dedicated server.";
   mk_action_input "executable" true "Entrypoint to run, relative to the directory.";
   mk_action_input "imageName" true "Name of the AMS image to create.";
   mk_action_input "targetArchitecture" false "linux-x86_64 or linux-arm_64. Required for a shell-script entrypoint."].

(** [lookup]; a handler stands for its declared inputs. *)
Definition lookup_action (name : string) : option (list LocalActionInput) :=
  if String.eqb name "docker-login" then Some docker_login_inputs
  else if String.eqb name "ams/upload-image" then Some ams_upload_inputs
  else None.

Definition known_names : list string := ["ams/upload-image"; "docker-login"].
