(* ===== verification/Bindings.v ===== *)
(** How a step's inputs get their values ([workflows/resolve.rs], [compile.rs]):
    templates and shell quoting, transforms, binding resolution, and the inputs that
    are still missing. *)

From stdpp Require Import base gmap strings list.
From Stdlib Require Import ZArith Lia Ascii.
From S2P Require Import Prelude Text Kebab Json Paths Results Workflow.

#[local] Arguments String.append !_ _ /.

(** * Templates *)

Definition unclosed_placeholder (template : string) : RuntimeError :=
  internal ("Format template '" +:+ template +:+ "' has an unclosed `{`").
Definition empty_placeholder (template : string) : RuntimeError :=
  internal ("Format template '" +:+ template +:+ "' has an empty `{}` placeholder").

(** [format_placeholders]: the names in a template, each once, in order. *)
Fixpoint placeholders_loop (fuel : nat) (template s : string) (out : list string) : result (list string) RuntimeError :=
  match fuel with
  | O => Ok out
  | S fuel =>
      match s with
      | EmptyString => Ok out
      | String c r =>
          if Ascii.eqb c "{" then
            match strip_prefix_char "{" r with
            | Some r => placeholders_loop fuel template r out
            | None =>
                match split_once "}" r with
                | None => Err (unclosed_placeholder template)
                | Some (name, rest) =>
                    if is_empty name then Err (empty_placeholder template)
                    else placeholders_loop fuel template rest (if decide (name ∈ out) then out else out ++ [name])
                end
            end
          else if Ascii.eqb c "}" then
            match strip_prefix_char "}" r with
            | Some r => placeholders_loop fuel template r out
            | None => placeholders_loop fuel template r out
            end
          else placeholders_loop fuel template r out
      end
  end.

Definition format_placeholders (template : string) : result (list string) RuntimeError :=
  placeholders_loop (S (String.length template)) template template [].

Inductive QuoteMode : Type := Plain | ShellQuoted.

Definition is_shell_safe (c : ascii) : bool :=
  let n := nat_of_ascii c in
  (Nat.leb 48 n && Nat.leb n 57) || (Nat.leb 65 n && Nat.leb n 90) || (Nat.leb 97 n && Nat.leb n 122) ||
  is_char "."%char c || is_char "_"%char c || is_char "-"%char c.

(** [s.replace('\'', r"'\''")]. *)
Fixpoint escape_quotes (s : string) : string :=
  match s with
  | EmptyString => EmptyString
  | String c r => if Ascii.eqb c "'" then "'\''" +:+ escape_quotes r else String c (escape_quotes r)
  end.

Definition shell_quote (s : string) : string :=
  if negb (is_empty s) && all_chars is_shell_safe s then s else "'" +:+ escape_quotes s +:+ "'".

Section values.
Context `{JsonText}.

Definition json_to_string (v : value) : string := of_bytes (to_vec v).

Fixpoint json_to_param_string (v : value) : string :=
  match v with
  | Str s => s
  | Number n => json_to_string (Number n)
  | Bool b => if b then "true" else "false"
  | Array items => join "," (map json_to_param_string items)
  | other => json_to_string other
  end.

Fixpoint interpolate_loop (fuel : nat) (values : gmap string value) (mode : QuoteMode) (s : string) : option string :=
  match fuel with
  | O => None
  | S fuel =>
      match s with
      | EmptyString => Some EmptyString
      | String c r =>
          if Ascii.eqb c "{" then
            match strip_prefix_char "{" r with
            | Some r => out ← interpolate_loop fuel values mode r; Some (String "{" out)
            | None =>
                '(name, rest) ← split_once "}" r;
                v ← values !! name;
                let rendered := json_to_param_string v in
                out ← interpolate_loop fuel values mode rest;
                Some (match mode with Plain => rendered | ShellQuoted => shell_quote rendered end +:+ out)
            end
          else if Ascii.eqb c "}" then
            match strip_prefix_char "}" r with
            | Some r => out ← interpolate_loop fuel values mode r; Some (String "}" out)
            | None => out ← interpolate_loop fuel values mode r; Some (String c out)
            end
          else out ← interpolate_loop fuel values mode r; Some (String c out)
      end
  end.

Definition interpolate_template (template : string) (values : gmap string value) (mode : QuoteMode) : option string :=
  interpolate_loop (S (String.length template)) values mode template.

(** [.unwrap_or_default()]. *)
Definition or_empty (o : option string) : string := match o with Some s => s | None => EmptyString end.

Definition resolve_completion (c : option WorkflowCompletion) (supplied : gmap string value) : option WorkflowCompletion :=
  c ← c;
  Some (mk_completion
    (map (fun r => (r.1, or_empty (interpolate_template r.2 supplied Plain))) (created c))
    (map (fun r => (r.1, or_empty (interpolate_template r.2 supplied ShellQuoted))) (next_steps c))).

(** * Transforms and bindings *)

Definition value_as_i64 (v : value) : option Z :=
  match v with Number (NInt z) => if decide (in_i64 z) then Some z else None | _ => None end.

Definition saturate_i64 (z : Z) : Z := Z.max (- 2 ^ 63) (Z.min (2 ^ 63 - 1) z).

Definition apply_optional_transform (v : value) (t : option TransformKind) (supplied : gmap string value) : value :=
  match t with
  | Some (TJsonPath path) => match apply_jsonpath_subset v path with Some w => w | None => v end
  | Some (TArithmetic op operand) =>
      match value_as_i64 v with
      | None => v
      | Some lhs =>
          let rhs := match operand with
                     | OperandInteger n => n
                     | OperandInput name =>
                         match (w ← supplied !! name; value_as_i64 w) with Some n => n | None => 0 end
                     end in
          int (saturate_i64 (match op with Mul => lhs * rhs | Add => lhs + rhs end))
      end
  | None => v
  end.

Definition missing_output_key (id : string) : RuntimeError :=
  internal ("binding from step '" +:+ id +:+ "' is missing `output:`").
Definition output_not_produced (id name : string) : RuntimeError :=
  internal ("step output 'step/" +:+ id +:+ "/" +:+ name +:+ "' was not produced and has no default").
Definition mirror_unbound (name : string) : RuntimeError :=
  internal ("mirror target '" +:+ name +:+ "' is not bound in this step").
Definition mirror_of_mirror (name : string) : RuntimeError :=
  internal ("mirror target '" +:+ name +:+ "' is itself a mirror").

(** Every source but a mirror. *)
Definition resolve_plain (source : BindingSource) (ctx : WorkflowContext) (supplied : gmap string value)
  : result (option value) RuntimeError :=
  match source with
  | BLiteral v _ => Ok (Some v)
  | BReference r =>
      match ref_from r with
      | FromWorkflow input =>
          match supplied !! input with
          | None => Ok None
          | Some raw => Ok (Some (apply_optional_transform raw (ref_transform r) supplied))
          end
      | FromStep id =>
          match ref_output r with
          | None => Err (missing_output_key id)
          | Some name =>
              match resolve_step_reference id name ctx with
              | Some raw => Ok (Some (apply_optional_transform raw (ref_transform r) supplied))
              | None => Err (output_not_produced id name)
              end
          end
      end
  | BFormat template => Ok (option_map Str (interpolate_template template supplied Plain))
  | BMirror name => Err (mirror_of_mirror name)
  end.

Definition resolve_binding (source : BindingSource) (ctx : WorkflowContext) (supplied : gmap string value)
    (bindings : gmap string BindingSource) (step_local : gmap string value) : result (option value) RuntimeError :=
  match source with
  | BMirror mirror_of =>
      match step_local !! mirror_of with
      | Some edited => Ok (Some edited)
      | None =>
          match bindings !! mirror_of with
          | None => Err (mirror_unbound mirror_of)
          | Some (BMirror _) => Err (mirror_of_mirror mirror_of)
          | Some target => resolve_plain target ctx supplied
          end
      end
  | _ => resolve_plain source ctx supplied
  end.

(** [.map(|b| (field, source)).collect()] into a map: the last entry wins. *)
Definition bindings_by_field (step : CompiledStep) : gmap string BindingSource :=
  list_to_map (rev (map (fun b => (bind_field b, bind_source b)) (step_inputs step))).

Fixpoint resolve_local_loop (bs : list StepInputBinding) (step : CompiledStep) (ctx : WorkflowContext)
    (supplied resolved : gmap string value) : result (gmap string value) RuntimeError :=
  match bs with
  | [] => Ok resolved
  | b :: bs =>
      let? v := resolve_binding (bind_source b) ctx supplied (bindings_by_field step) ∅ in
      resolve_local_loop bs step ctx supplied
        (match v with Some v => <[bind_field b := v]> resolved | None => resolved end)
  end.

Definition resolve_local_step_bindings (step : CompiledStep) (ctx : WorkflowContext) (supplied : gmap string value)
  : result (gmap string value) RuntimeError := resolve_local_loop (step_inputs step) step ctx supplied ∅.
End values.

(** * Missing inputs *)

(** [visit_binding_workflow_inputs]: the names it visits, in order. *)
Definition binding_inputs (source : BindingSource) : list string :=
  match source with
  | BReference r =>
      match ref_from r with FromWorkflow input => [input] | FromStep _ => [] end ++
      match ref_transform r with Some (TArithmetic _ (OperandInput name)) => [name] | _ => [] end
  | BFormat template => match format_placeholders template with Ok names => names | Err _ => [] end
  | BLiteral _ _ | BMirror _ => []
  end.

Definition visit_binding_workflow_inputs (step : CompiledStep) : list string :=
  concat (map (fun b => binding_inputs (bind_source b)) (step_inputs step)).

Section needed.
Context `{UnicodeCase}.

Definition find_spec (specs : list WorkflowInputSpec) (name : string) : option WorkflowInputSpec :=
  list_to_map (M := gmap string WorkflowInputSpec) (rev (map (fun s => (in_name s, s)) specs)) !! name.

Definition string_schema : value := Object [("type", Str "string")].

Definition needed_input (specs : list WorkflowInputSpec) (id : nat) (name : string) : WorkflowInputNeeded :=
  let spec := find_spec specs name in
  mk_needed id (to_kebab_case name)
    (s ← spec; in_description s)
    (match (s ← spec; in_schema s) with Some v => v | None => string_schema end)
    (s ← spec; in_default s)
    (match spec with Some s => in_required s | None => true end)
    (match spec with Some s => in_sensitive s | None => false end)
    (ScopeInput name)
    (match spec with Some s => in_location s | None => LBody end).

Definition needed_local (step : CompiledStep) (id : nat) (f : AutoDerivedField) (field_name : string) : WorkflowInputNeeded :=
  mk_needed id (step_id step +:+ "." +:+ to_kebab_case field_name) (auto_description f) (auto_schema f) None
    (auto_required f) (auto_sensitive f) (ScopeLocal field_name) (auto_location f).

(** What has been listed so far, and the names seen. *)
Definition needed_state : Type := list WorkflowInputNeeded * gset string.

Definition push_workflow_input (specs : list WorkflowInputSpec) (st : needed_state) (name : string) : needed_state :=
  if decide (name ∈ st.2) then st
  else (st.1 ++ [needed_input specs (length st.1) name], {[name]} ∪ st.2).

Definition push_missing (specs : list WorkflowInputSpec) (supplied : gmap string value) (st : needed_state) (name : string)
  : needed_state :=
  if decide (is_Some (supplied !! name)) then st else push_workflow_input specs st name.

Definition push_auto (step : CompiledStep) (specs : list WorkflowInputSpec) (supplied : gmap string value)
    (st : needed_state) (f : AutoDerivedField) : needed_state :=
  match auto_scope f with
  | ScopeInput name => push_missing specs supplied st name
  | ScopeLocal field_name => (st.1 ++ [needed_local step (length st.1) f field_name], st.2)
  end.

Definition compute_needed_inputs (step : CompiledStep) (supplied : gmap string value) (specs : list WorkflowInputSpec)
  : list WorkflowInputNeeded :=
  (foldl (push_auto step specs supplied)
    (foldl (push_missing specs supplied) ([], ∅) (visit_binding_workflow_inputs step))
    (auto_derived step)).1.
End needed.

(** * Templates: compile time and run time agree *)

Lemma strip_prefix_char_length c s r : strip_prefix_char c s = Some r -> (String.length r < String.length s)%nat.
Proof. unfold strip_prefix_char. destruct s as [|d s]; [done|]. destruct (Ascii.eqb d c); intros; simplify_eq/=. lia. Qed.

Lemma placeholders_out_mono fuel template s out names :
  placeholders_loop fuel template s out = Ok names -> forall n, n ∈ out -> n ∈ names.
Proof.
  revert s out. induction fuel as [|fuel IH]; intros s out; simpl; [intros [= <-]; auto|].
  destruct s as [|c r]; [intros [= <-]; auto|].
  destruct (Ascii.eqb c "{"); [|destruct (Ascii.eqb c "}")].
  - destruct (strip_prefix_char "{" r); [apply IH|].
    destruct (split_once "}" r) as [[name rest]|]; [|done]. destruct (is_empty name); [done|].
    intros Hr n Hn. eapply IH; [exact Hr|]. case_decide; [done|]. apply elem_of_app. by left.
  - destruct (strip_prefix_char "}" r); apply IH.
  - apply IH.
Qed.

Section template_agreement.
Context `{JsonText}.

Lemma interpolate_placeholders fuel template s out names values mode :
  (String.length s < fuel)%nat -> placeholders_loop fuel template s out = Ok names ->
  (forall n, n ∈ out -> is_Some (values !! n)) ->
  is_Some (interpolate_loop fuel values mode s) <-> (forall n, n ∈ names -> is_Some (values !! n)).
Proof.
  revert s out. induction fuel as [|fuel IH]; intros s out Hf; [lia|].
  assert (Hmap : forall (o : option string) (f : string -> string), is_Some (x ← o; Some (f x)) <-> is_Some o).
  { intros [x|] f; split; intros [y Hy]; simplify_eq/=; eauto. }
  destruct s as [|c r]; cbn [placeholders_loop interpolate_loop].
  { intros [= <-] Ho. split; [by auto|by eexists]. }
  simpl in Hf. destruct (Ascii.eqb c "{"); [|destruct (Ascii.eqb c "}")].
  - destruct (strip_prefix_char "{" r) as [r'|] eqn:Es.
    + apply strip_prefix_char_length in Es. intros Hp Ho. rewrite Hmap. apply (IH _ out); [lia|done|done].
    + destruct (split_once "}" r) as [[name rest]|] eqn:Esp; [|done]. destruct (is_empty name); [done|].
      apply split_once_length in Esp. intros Hp Ho. cbn [mbind option_bind].
      assert (Hin : name ∈ names).
      { eapply placeholders_out_mono; [exact Hp|]. case_decide; [done|]. apply elem_of_app. right. by apply list_elem_of_singleton. }
      destruct (values !! name) as [v|] eqn:Ev; cbn [mbind option_bind].
      * rewrite Hmap. eapply IH; [lia|exact Hp|]. intros n Hn. case_decide; [by apply Ho|].
        apply elem_of_app in Hn as [Hn|Hn]; [by apply Ho|]. apply list_elem_of_singleton in Hn as ->. by eexists.
      * split; [intros [? ?]; done|]. intros Hall. destruct (Hall _ Hin). congruence.
  - destruct (strip_prefix_char "}" r) as [r'|] eqn:Es; intros Hp Ho; rewrite Hmap.
    + apply strip_prefix_char_length in Es. apply (IH _ out); [lia|done|done].
    + apply (IH _ out); [lia|done|done].
  - intros Hp Ho. rewrite Hmap. apply (IH _ out); [lia|done|done].
Qed.

Lemma template_ready t names values mode :
  format_placeholders t = Ok names ->
  is_Some (interpolate_template t values mode) <-> (forall n, n ∈ names -> is_Some (values !! n)).
Proof.
  intros Hp. eapply interpolate_placeholders; [lia|exact Hp|]. intros n Hn. by apply not_elem_of_nil in Hn.
Qed.

(** The placeholders the compiler extracts from a template are exactly the
    ones the run needs: a template that passes the compile-time scan can be filled
    in, in either quoting mode, if and only if every extracted name has a value. *)
Theorem template_names_exact t names values mode :
  format_placeholders t = Ok names ->
  is_Some (interpolate_template t values mode) <-> (forall n, n ∈ names -> is_Some (values !! n)).
Proof. apply template_ready. Qed.
End template_agreement.

(** * Shell quoting *)

(** How a POSIX shell reads one word: safe characters stand for themselves, single
    quotes enclose text that nothing in it can end but a quote, a backslash outside
    quotes protects a quote. Any other character outside quotes could act on the
    command line, and is not part of a word here. *)
Fixpoint shell_word (quoted : bool) (s : string) : option string :=
  match s with
  | EmptyString => if quoted then None else Some EmptyString
  | String c r =>
      if quoted then
        if Ascii.eqb c "'" then shell_word false r else out ← shell_word true r; Some (String c out)
      else if Ascii.eqb c "'" then shell_word true r
      else if Ascii.eqb c "\" then
        match r with
        | String d r => if Ascii.eqb d "'" then out ← shell_word false r; Some (String d out) else None
        | EmptyString => None
        end
      else if is_shell_safe c then out ← shell_word false r; Some (String c out)
      else None
  end.

Lemma shell_word_safe s : all_chars is_shell_safe s = true -> shell_word false s = Some s.
Proof.
  induction s as [|c s IH]; [done|]. intros Hs. cbn [all_chars] in Hs. apply andb_true_iff in Hs as [Hc Hs]. cbn [shell_word].
  destruct (Ascii.eqb_spec c "'") as [->|]; [by vm_compute in Hc|].
  destruct (Ascii.eqb_spec c "\") as [->|]; [by vm_compute in Hc|]. by rewrite Hc, IH.
Qed.

Lemma shell_word_escaped s : shell_word true (escape_quotes s +:+ "'") = Some s.
Proof.
  induction s as [|c s IH]; [done|]. cbn [escape_quotes]. destruct (Ascii.eqb_spec c "'") as [->|Hne].
  - change (("'\''" +:+ escape_quotes s) +:+ "'") with ("'\''" +:+ (escape_quotes s +:+ "'")). simpl. by rewrite IH.
  - change (String c (escape_quotes s) +:+ "'") with (String c (escape_quotes s +:+ "'")). cbn [shell_word].
    apply Ascii.eqb_neq in Hne. by rewrite Hne, IH.
Qed.

(** Values shown inside copy-paste commands cannot break out of their word:
    whatever bytes a value has (spaces, quotes, semicolons, command substitutions,
    newlines, or none at all), the shell reads its quoted form as one word equal to
    the value. *)
Theorem shell_quote_one_word (s : string) : shell_word false (shell_quote s) = Some s.
Proof.
  unfold shell_quote. destruct (negb (is_empty s) && all_chars is_shell_safe s) eqn:E.
  - apply andb_true_iff in E as [_ Hs]. by apply shell_word_safe.
  - change ("'" +:+ escape_quotes s +:+ "'") with (String "'" (escape_quotes s +:+ "'")). cbn [shell_word].
    change (Ascii.eqb "'" "'") with true. cbv iota. apply shell_word_escaped.
Qed.

(** * Missing inputs *)

Definition scope_input (s : AutoDeriveScope) : option string :=
  match s with ScopeInput n => Some n | ScopeLocal _ => None end.
Definition scope_local (s : AutoDeriveScope) : option string :=
  match s with ScopeInput _ => None | ScopeLocal f => Some f end.

Definition input_names (l : list WorkflowInputNeeded) : list string := omap (fun e => scope_input (need_scope e)) l.
Definition local_names (l : list WorkflowInputNeeded) : list string := omap (fun e => scope_local (need_scope e)) l.

(** The workflow inputs a step reads, through its bindings or its derived fields. *)
Definition referenced_inputs (step : CompiledStep) : list string :=
  visit_binding_workflow_inputs step ++ omap (fun f => scope_input (auto_scope f)) (auto_derived step).

Section needed_facts.
Context `{UnicodeCase}.
Context (step : CompiledStep) (specs : list WorkflowInputSpec) (supplied : gmap string value).

(** The slots are numbered from 0, no input is listed twice, and the names seen
    are the inputs listed. *)
Record needed_inv (st : needed_state) : Prop := {
  ni_seen : forall n, n ∈ input_names st.1 <-> n ∈ st.2;
  ni_nodup : NoDup (input_names st.1);
  ni_ids : map need_id st.1 = seq 0 (length st.1)
}.

Lemma input_names_app l l' : input_names (l ++ l') = input_names l ++ input_names l'.
Proof. apply omap_app. Qed.
Lemma local_names_app l l' : local_names (l ++ l') = local_names l ++ local_names l'.
Proof. apply omap_app. Qed.

Lemma ids_snoc l e : need_id e = length l -> map need_id l = seq 0 (length l) ->
  map need_id (l ++ [e]) = seq 0 (length (l ++ [e])).
Proof. intros He Hl. by rewrite map_app, Hl, length_app, seq_app; simpl; rewrite He. Qed.

Lemma push_missing_inv st n :
  needed_inv st ->
  needed_inv (push_missing specs supplied st n) /\
  (forall m, m ∈ input_names (push_missing specs supplied st n).1 <->
    m ∈ input_names st.1 \/ (m = n /\ supplied !! n = None)) /\
  local_names (push_missing specs supplied st n).1 = local_names st.1.
Proof.
  intros [Hs Hd Hi]. unfold push_missing, push_workflow_input. case_decide as Hsup.
  - split; [done|]. split; [|done]. intros m. split; [by left|]. intros [?|[-> E]]; [done|]. rewrite E in Hsup. by destruct Hsup.
  - apply eq_None_not_Some in Hsup. case_decide as Hseen; cbn [fst snd].
    + split; [done|]. split; [|done]. intros m. split; [by left|]. intros [?|[-> E]]; [done|]. by apply Hs.
    + rewrite input_names_app, local_names_app. simpl. rewrite app_nil_r. split; [|split; [|done]].
      * split; cbn [fst snd].
        -- intros m. rewrite input_names_app. simpl. rewrite elem_of_app, list_elem_of_singleton, elem_of_union, elem_of_singleton, Hs. tauto.
        -- rewrite input_names_app. simpl. apply NoDup_app. split; [done|]. split; [|apply NoDup_singleton].
           intros m Hm ->%list_elem_of_singleton. by apply Hseen, Hs.
        -- by apply ids_snoc.
      * intros m. rewrite elem_of_app, list_elem_of_singleton. naive_solver.
Qed.

Lemma push_missing_all names st :
  needed_inv st ->
  needed_inv (foldl (push_missing specs supplied) st names) /\
  (forall m, m ∈ input_names (foldl (push_missing specs supplied) st names).1 <->
    m ∈ input_names st.1 \/ (m ∈ names /\ supplied !! m = None)) /\
  local_names (foldl (push_missing specs supplied) st names).1 = local_names st.1.
Proof.
  revert st. induction names as [|n names IH]; intros st Hst; cbn [foldl].
  - split; [done|]. split; [|done]. intros m. split; [by left|]. intros [?|[Hm _]]; [done|]. by apply not_elem_of_nil in Hm.
  - destruct (push_missing_inv st n Hst) as (H1 & H2 & H3). destruct (IH _ H1) as (H4 & H5 & H6).
    split; [done|]. split; [|by rewrite H6]. intros m. rewrite H5, H2, elem_of_cons. naive_solver.
Qed.

Lemma push_auto_all fields st :
  needed_inv st ->
  needed_inv (foldl (push_auto step specs supplied) st fields) /\
  (forall m, m ∈ input_names (foldl (push_auto step specs supplied) st fields).1 <->
    m ∈ input_names st.1 \/ (m ∈ omap (fun f => scope_input (auto_scope f)) fields /\ supplied !! m = None)) /\
  local_names (foldl (push_auto step specs supplied) st fields).1 =
    local_names st.1 ++ omap (fun f => scope_local (auto_scope f)) fields.
Proof.
  revert st. induction fields as [|f fields IH]; intros st Hst; cbn [foldl].
  - split; [done|]. split; [|by rewrite app_nil_r]. intros m. split; [by left|]. intros [?|[Hm _]]; [done|].
    by apply not_elem_of_nil in Hm.
  - unfold push_auto at 2 4 6. simpl omap. destruct (auto_scope f) as [n|n] eqn:Ef; simpl.
    + destruct (push_missing_inv st n Hst) as (H1 & H2 & H3). destruct (IH _ H1) as (H4 & H5 & H6).
      split; [done|]. split; [|by rewrite H6, H3]. intros m. rewrite H5, H2, elem_of_cons. naive_solver.
    + destruct st as [l seen], Hst as [Hs Hd Hi]. cbn [fst snd] in *.
      set (e := needed_local step (length l) f n).
      assert (Hst : needed_inv (l ++ [e], seen)).
      { split; cbn [fst snd]; [..|by apply ids_snoc]; rewrite input_names_app; simpl; by rewrite app_nil_r. }
      destruct (IH _ Hst) as (H4 & H5 & H6). split; [done|]. cbn [fst] in *. split.
      * intros m. rewrite H5, input_names_app. simpl. by rewrite app_nil_r.
      * rewrite H6, local_names_app. simpl. by rewrite <- app_assoc.
Qed.

Lemma compute_needed_facts :
  let needed := compute_needed_inputs step supplied specs in
  (forall n, n ∈ input_names needed <-> n ∈ referenced_inputs step /\ supplied !! n = None) /\
  NoDup (input_names needed) /\ map need_id needed = seq 0 (length needed) /\
  local_names needed = omap (fun f => scope_local (auto_scope f)) (auto_derived step).
Proof.
  assert (H0 : needed_inv ([], ∅)).
  { split; cbn [fst snd]; [|constructor|done]. intros n. simpl. rewrite elem_of_nil. set_solver. }
  destruct (push_missing_all (visit_binding_workflow_inputs step) _ H0) as (H1 & H2 & H3).
  destruct (push_auto_all (auto_derived step) _ H1) as ([H4 H5 H6] & H7 & H8).
  unfold compute_needed_inputs, referenced_inputs. split; [|split; [done|split; [done|]]].
  - intros n. rewrite H7, H2, elem_of_app. simpl. rewrite elem_of_nil. tauto.
  - by rewrite H8, H3.
Qed.

(** The gather list is exact: it asks for a workflow input if and only if the
    step reads it (as a binding's source, as an arithmetic operand, as a template
    placeholder or as a derived field) and nothing has supplied it; it asks for no
    input twice, numbers its slots from 0 without gaps, and lists every step-local
    field once, in order. *)
Theorem needed_inputs_exact :
  let needed := compute_needed_inputs step supplied specs in
  (forall n, n ∈ input_names needed <-> n ∈ referenced_inputs step /\ supplied !! n = None) /\
  NoDup (input_names needed) /\ map need_id needed = seq 0 (length needed) /\
  local_names needed = omap (fun f => scope_local (auto_scope f)) (auto_derived step).
Proof. apply compute_needed_facts. Qed.
End needed_facts.

(** * After the gather *)

Lemma is_ok_Ok {T E} (r : result T E) : is_ok r = true -> exists v, r = Ok v.
Proof. destruct r; simpl; [eauto|done]. Qed.

Lemma bindings_by_field_elem step name source :
  bindings_by_field step !! name = Some source -> exists b, b ∈ step_inputs step /\ bind_source b = source.
Proof.
  intros Hl. apply elem_of_list_to_map_2, list_elem_of_In, in_rev, in_map_iff in Hl as (b & [= <- <-] & Hb).
  exists b. split; [by apply list_elem_of_In|done].
Qed.

Section after_gather.
Context `{JsonText, UnicodeCase}.

Lemma resolve_plain_ready source ctx supplied :
  (forall n, n ∈ binding_inputs source -> is_Some (supplied !! n)) ->
  (forall t, source = BFormat t -> is_ok (format_placeholders t) = true) ->
  resolve_plain source ctx supplied <> Ok None.
Proof.
  intros Hin Ht. destruct source as [v s|r|t|m]; simpl; try done.
  - destruct (ref_from r) as [input|id] eqn:E.
    + destruct (Hin input) as [raw Hraw]; [simpl; rewrite E; left|]. by rewrite Hraw.
    + destruct (ref_output r); [|done]. by destruct (resolve_step_reference _ _ _).
  - destruct (is_ok_Ok _ (Ht t eq_refl)) as [names Hn]. simpl in Hin. rewrite Hn in Hin.
    destruct (proj2 (template_ready t names supplied Plain Hn) Hin) as [s Hs]. by rewrite Hs.
Qed.

(** Once the gather list of a step is empty, every binding of the step
    resolves: to a value, or to an error that names a missing step output or a bad
    mirror. The silent third answer, "no value", which the code comments as "gather
    should have populated this", cannot occur, whatever was edited in review. *)
Theorem gathered_bindings_resolve step supplied specs ctx step_local b :
  input_names (compute_needed_inputs step supplied specs) = [] ->
  (forall b t, b ∈ step_inputs step -> bind_source b = BFormat t -> is_ok (format_placeholders t) = true) ->
  b ∈ step_inputs step ->
  resolve_binding (bind_source b) ctx supplied (bindings_by_field step) step_local <> Ok None.
Proof.
  intros Hnone Ht Hb.
  assert (Hplain : forall b, b ∈ step_inputs step -> resolve_plain (bind_source b) ctx supplied <> Ok None).
  { intros b' Hb'. apply resolve_plain_ready; [|by intros; eapply Ht]. intros n Hn.
    destruct (supplied !! n) eqn:E; [by eexists|]. exfalso.
    apply (not_elem_of_nil n). rewrite <- Hnone. apply compute_needed_facts. split; [|done].
    unfold referenced_inputs. apply elem_of_app. left. apply list_elem_of_In, in_concat.
    exists (binding_inputs (bind_source b')). split; [|by apply list_elem_of_In].
    apply in_map_iff. exists b'. split; [done|by apply list_elem_of_In]. }
  specialize (Hplain) as Hp. destruct (bind_source b) as [v s|r|t|m] eqn:E; simpl;
    try (specialize (Hp b Hb); rewrite E in Hp; exact Hp).
  destruct (step_local !! m); [done|]. destruct (bindings_by_field step !! m) as [target|] eqn:El; [|done].
  apply bindings_by_field_elem in El as (b' & Hb' & <-). specialize (Hp b' Hb').
  by destruct (bind_source b').
Qed.
End after_gather.

(** ** An example *)

#[local] Instance sample_names : UnicodeCase := ascii_case.

Definition sample_step : CompiledStep :=
  mk_step "create" 0 None Api None (Some (mk_op_ref "iam" "CreateUser")) [] false false false false None
    [mk_binding "name" (BReference (mk_reference (FromWorkflow "user") None None)) true None;
     mk_binding "title" (BMirror "name") true None;
     mk_binding "greeting" (BFormat "hi {user}, {{welcome}}") true None]
    [] [mk_auto "email" (Str "string") true false None (ScopeLocal "email") LBody].

Lemma template_names_exact_witness :
  format_placeholders "hi {user}, {{welcome}}" = Ok ["user"] /\
  (is_Some (@interpolate_template bits_json_text "hi {user}, {{welcome}}" {["user" := Str "ann"]} Plain) <->
   (forall n, n ∈ ["user"] -> is_Some (({["user" := Str "ann"]} : gmap string value) !! n))).
Proof.
  assert (H1 : format_placeholders "hi {user}, {{welcome}}" = Ok ["user"]) by (vm_compute; reflexivity).
  split; [exact H1|].
  exact (@template_names_exact bits_json_text _ _ {["user" := Str "ann"]} Plain H1).
Defined.

Lemma gathered_bindings_resolve_witness :
  input_names (compute_needed_inputs sample_step {["user" := Str "ann"]} []) = [] /\
  mk_binding "title" (BMirror "name") true None ∈ step_inputs sample_step /\
  @resolve_binding bits_json_text (BMirror "name") WorkflowContext_new {["user" := Str "ann"]}
    (bindings_by_field sample_step) ∅ <> Ok None.
Proof.
  assert (H1 : input_names (compute_needed_inputs sample_step {["user" := Str "ann"]} []) = []) by (vm_compute; reflexivity).
  assert (H2 : forall b t, b ∈ step_inputs sample_step -> bind_source b = BFormat t -> is_ok (format_placeholders t) = true).
  { intros b t Hb Ht. simpl in Hb. rewrite !elem_of_cons in Hb.
    destruct Hb as [->|[->|[->|Hb]]]; try discriminate Ht; [|by apply not_elem_of_nil in Hb].
    injection Ht as <-. vm_compute. reflexivity. }
  assert (H3 : mk_binding "title" (BMirror "name") true None ∈ step_inputs sample_step) by (right; left).
  split; [exact H1|]. split; [exact H3|].
  exact (@gathered_bindings_resolve bits_json_text sample_names sample_step {["user" := Str "ann"]} []
           WorkflowContext_new ∅ _ H1 H2 H3).
Defined.
