(* ===== verification/Request.v ===== *)
(** The request of an API step ([resolve.rs], with the types of
    [ags-protocol/src/request.rs]): parameters, form parts and the JSON body, from the
    step's bindings, the edits of its review and the workflow's inputs. *)

From stdpp Require Import base gmap strings list.
From Stdlib Require Import ZArith Lia Ascii.
From S2P Require Import Prelude Text Json Catalogue Paths Results Workflow AutoDerive Bindings.

(** * Data *)

Inductive OutputFormat : Type := Human | JsonFormat.
Inductive PaginationHint : Type := PageAuto | FirstPageOnly | PageAll | PageLimit (n : Z).
Inductive Verbosity : Type := Quiet | Normal | Verbose.
Inductive OutputDestination : Type := Stdout | File (path : string).

Record RunOptions : Type := mk_options_ {
  dry_run : bool;
  assume_yes : bool;
  no_input : bool;
  review_steps : bool;
  pickers_available : bool;
  output_format : OutputFormat;
  output : option OutputDestination;
  verbosity : Verbosity;
  pagination : PaginationHint;
  explicit_body : option value;
  is_bundled_workflow : bool
}.

Inductive FormPart : Type :=
| FormText (name value : string)
| FormFile (name path filename : string).

Inductive RequestBody : Type := BodyJson (v : value) | BodyMultipart (parts : list FormPart).

Record CommandRequest : Type := mk_request {
  req_service : string;
  req_operation_id : string;
  req_namespace : option string;
  path_params : gmap string string;
  query_params : gmap string string;
  header_params : gmap string string;
  form_params : gmap string string;
  req_body : option RequestBody;
  req_output_format : OutputFormat;
  req_pagination : PaginationHint;
  req_verbosity : Verbosity;
  req_output : option OutputDestination
}.

Definition validation (message : string) : RuntimeError := mk_error Validation message None None None.

(** ["step '{}'"]. *)
Definition compiled_context (step : CompiledStep) : string := "step '" +:+ step_id step +:+ "'".

(** [field.contains('.') || field.contains('[')]. *)
Definition is_nested (field : string) : bool := contains_char is_name_end field.

Record RequestBuildCtx : Type := mk_build_ctx {
  bc_bindings : gmap string BindingSource;
  workflow_input_names : gset string;
  nested_binding_roots : gset string
}.

Definition build_ctx_of (step : CompiledStep) (specs : list WorkflowInputSpec) : RequestBuildCtx :=
  mk_build_ctx (bindings_by_field step) (list_to_set (map in_name specs))
    (list_to_set (map (fun b => path_root (bind_field b)) (List.filter (fun b => is_nested (bind_field b)) (step_inputs step)))).

(** * Nested values *)

(** [merge_nested_binding]; [array.len() <= index] pads with [null]. *)
Fixpoint merge_nested_binding (path : list PathSegment) (v current : value) : value :=
  match path with
  | [] => current
  | Key name :: rest =>
      let object := match current with Object o => o | _ => [] end in
      match rest with
      | [] => Object (obj_insert name v object)
      | _ => Object (obj_insert name (merge_nested_binding rest v (default (Object []) (obj_get name object))) object)
      end
  | Index i :: rest =>
      let n := Z.to_nat i in
      let array := match current with Array a => a | _ => [] end in
      let array := array ++ replicate (S n - length array) Null in
      match rest with
      | [] => Array (<[n := v]> array)
      | _ => Array (<[n := merge_nested_binding rest v (default Null (array !! n))]> array)
      end
  end.

(** The path of a multi-segment field; the compiler has checked that it parses. *)
Definition nested_path (field : string) : option (list PathSegment) :=
  match FieldPath_parse field with
  | Some (Ok segments) => if Nat.ltb 1 (length segments) then Some segments else None
  | _ => None
  end.

Section request.
Context `{JsonText}.

(** What a request is built from, besides the operation. *)
Record StepValues : Type := mk_values {
  sv_step : CompiledStep;
  sv_ctx : WorkflowContext;
  sv_supplied : gmap string value;
  sv_local : gmap string value
}.

Definition binding_value (sv : StepValues) (bindings : gmap string BindingSource) (source : BindingSource)
  : result (option value) RuntimeError := resolve_binding source (sv_ctx sv) (sv_supplied sv) bindings (sv_local sv).

Definition resolve_field_value (sv : StepValues) (bc : RequestBuildCtx) (name : string) : result (option value) RuntimeError :=
  match sv_local sv !! name with
  | Some v => Ok (Some v)
  | None =>
      match bc_bindings bc !! name with
      | Some source => binding_value sv (bc_bindings bc) source
      | None => if bool_decide (name ∈ workflow_input_names bc) then Ok (sv_supplied sv !! name) else Ok None
      end
  end.

(** ** Parameters *)

Record NonBodyParams : Type := mk_params {
  pp_path : gmap string string;
  pp_query : gmap string string;
  pp_header : gmap string string
}.

Definition insert_param (p : ParameterSchema) (s : string) (ps : NonBodyParams) : NonBodyParams :=
  match param_location p with
  | InPath => mk_params (<[param_name p := s]> (pp_path ps)) (pp_query ps) (pp_header ps)
  | InQuery => mk_params (pp_path ps) (<[param_name p := s]> (pp_query ps)) (pp_header ps)
  | InHeader => mk_params (pp_path ps) (pp_query ps) (<[param_name p := s]> (pp_header ps))
  | InBody | InFormData => ps
  end.

Definition missing_parameter (step : CompiledStep) (what name : string) : RuntimeError :=
  validation (compiled_context step +:+ " is missing required " +:+ what +:+ " '" +:+ name +:+ "'").

Definition add_param (sv : StepValues) (bc : RequestBuildCtx) (ps : NonBodyParams) (p : ParameterSchema)
  : result NonBodyParams RuntimeError :=
  match param_location p with
  | InBody | InFormData => Ok ps
  | _ =>
      let? resolved := resolve_field_value sv bc (param_name p) in
      match resolved with
      | Some v => Ok (insert_param p (json_to_param_string v) ps)
      | None => if param_required p then Err (missing_parameter (sv_step sv) "parameter" (param_name p)) else Ok ps
      end
  end.

Definition resolve_non_body_params (sv : StepValues) (bc : RequestBuildCtx) (op : OperationSchema) : result NonBodyParams RuntimeError :=
  result_fold (add_param sv bc) (parameters op) (mk_params ∅ ∅ ∅).

(** ** The JSON body *)

Definition EMPTY_BODY_DEFAULT_OPERATION : string := "csm/admin/apps/v2/list".

(** One schema field of the first pass. *)
Definition add_body_field (sv : StepValues) (bc : RequestBuildCtx) (body : list (string * value)) (f : BodyField)
  : result (list (string * value)) RuntimeError :=
  let? resolved := resolve_field_value sv bc (field_name f) in
  match resolved with
  | Some v => Ok (obj_insert (field_name f) v body)
  | None =>
      if field_required f && negb (bool_decide (field_name f ∈ nested_binding_roots bc))
      then Err (missing_parameter (sv_step sv) "body field" (field_name f)) else Ok body
  end.

(** One binding of the second pass. *)
Definition add_nested (sv : StepValues) (bc : RequestBuildCtx) (body : value) (b : StepInputBinding) : result value RuntimeError :=
  if negb (is_nested (bind_field b)) then Ok body
  else
    match nested_path (bind_field b) with
    | None => Ok body
    | Some path =>
        let? resolved := match sv_local sv !! bind_field b with
                         | Some v => Ok (Some v)
                         | None => binding_value sv (bc_bindings bc) (bind_source b)
                         end in
        Ok (match resolved with Some v => merge_nested_binding path v body | None => body end)
    end.

Definition request_fields (op : OperationSchema) : list BodyField := match request_body op with Some b => body_fields b | None => [] end.

(** The two passes. *)
Definition gather_body (sv : StepValues) (bc : RequestBuildCtx) (op : OperationSchema) : result (list (string * value)) RuntimeError :=
  let? top := result_fold (add_body_field sv bc) (request_fields op) [] in
  let? body := result_fold (add_nested sv bc) (step_inputs (sv_step sv)) (Object top) in
  Ok (match body with Object o => o | _ => [] end).

Definition assemble_body (sv : StepValues) (bc : RequestBuildCtx) (op : OperationSchema) (options : RunOptions)
  : result (option value) RuntimeError :=
  match explicit_body options with
  | Some explicit => Ok (Some explicit)
  | None =>
      let? body := gather_body sv bc op in
      let is_array_body := match request_body op with Some b => is_array b | None => false end in
      Ok (match body with
          | [] =>
              if bool_decide (is_Some (request_body op)) && negb is_array_body && String.eqb (op_id op) EMPTY_BODY_DEFAULT_OPERATION
              then Some (Object []) else None
          | _ => if is_array_body then Some (Array [Object body]) else Some (Object body)
          end)
  end.
(** ** Form parts *)

(** [Path::file_name] on a Unix path: the last component, unless it is [..]. *)
Fixpoint path_components (s cur : string) : list string :=
  match s with
  | EmptyString => [cur]
  | String c r => if Ascii.eqb c "/" then cur :: path_components r EmptyString else path_components r (cur +:+ String c EmptyString)
  end.

Definition file_name (path : string) : option string :=
  match rev (List.filter (fun c => negb (is_empty c) && negb (String.eqb c ".")) (path_components path EmptyString)) with
  | last :: _ => if String.eqb last ".." then None else Some last
  | [] => None
  end.

(** What the file system says of a path: nothing there, or whether it is a regular
    file. *)
Definition Files : Type := string -> option bool.

Definition validate_and_build_file_part (files : Files) (field_name raw_path : string) : result FormPart RuntimeError :=
  match files raw_path with
  | None => Err (validation ("form field '" +:+ field_name +:+ "': file '" +:+ raw_path +:+ "' does not exist or is not readable"))
  | Some false => Err (validation ("form field '" +:+ field_name +:+ "': '" +:+ raw_path +:+ "' is not a regular file"))
  | Some true => Ok (FormFile field_name raw_path (default "upload" (file_name raw_path)))
  end.

Definition add_form_part (files : Files) (sv : StepValues) (bc : RequestBuildCtx) (parts : list FormPart) (p : ParameterSchema)
  : result (list FormPart) RuntimeError :=
  if negb (bool_decide (param_location p = InFormData)) then Ok parts
  else
    let? resolved := resolve_field_value sv bc (param_name p) in
    match resolved with
    | None => if param_required p then Err (missing_parameter (sv_step sv) "form field" (param_name p)) else Ok parts
    | Some v =>
        let as_string := json_to_param_string v in
        if is_file p then
          let? part := validate_and_build_file_part files (param_name p) as_string in Ok (parts ++ [part])
        else Ok (parts ++ [FormText (param_name p) as_string])
    end.

Definition resolve_form_data_params (files : Files) (sv : StepValues) (bc : RequestBuildCtx) (op : OperationSchema)
  : result (option (list FormPart)) RuntimeError :=
  let? parts := result_fold (add_form_part files sv bc) (parameters op) [] in
  Ok (match parts with [] => None | _ => Some parts end).

(** ** The request *)

Definition assemble_without_operation (step : CompiledStep) : RuntimeError :=
  internal (compiled_context step +:+ ": API step reached assemble_command_request without an operation").

Definition assemble_command_request (files : Files) (namespace : option string) (step : CompiledStep) (ctx : WorkflowContext)
    (supplied step_local : gmap string value) (specs : list WorkflowInputSpec) (schema : ServiceSchema) (options : RunOptions)
  : result CommandRequest RuntimeError :=
  let sv := mk_values step ctx supplied step_local in
  let? op_ref := ok_or (step_operation step) (assemble_without_operation step) in
  let? op := find_operation_or_error schema op_ref (compiled_context step) in
  let bc := build_ctx_of step specs in
  let? params := resolve_non_body_params sv bc op in
  let? form_parts := resolve_form_data_params files sv bc op in
  let? body := match form_parts with
               | Some parts => Ok (Some (BodyMultipart parts))
               | None => let? body := assemble_body sv bc op options in Ok (option_map BodyJson body)
               end in
  Ok (mk_request (service op_ref) (operation op_ref) namespace (pp_path params) (pp_query params) (pp_header params) ∅ body
        (output_format options) (pagination options) (verbosity options) (output options)).
End request.

(** ** What a merge writes *)

(** Two paths that part at two keys of one object or two indices of one array. *)
Fixpoint part_ways (p q : list PathSegment) : bool :=
  match p, q with
  | Key k :: p, Key k' :: q => if String.eqb k k' then part_ways p q else true
  | Index i :: p, Index j :: q => if i =? j then part_ways p q else true
  | _, _ => false
  end.

Definition indices_ok (p : list PathSegment) : bool :=
  forallb (fun seg => match seg with Index i => 0 <=? i | Key _ => true end) p.

(** One segment of a merge, whatever the rest. *)
Definition merged (rest : list PathSegment) (v child : value) : value :=
  match rest with [] => v | _ => merge_nested_binding rest v child end.

Lemma merge_key_segment k rest v cur : exists child,
  merge_nested_binding (Key k :: rest) v cur =
    Object (obj_insert k (merged rest v child) (default [] (as_object cur))) /\
  (forall w, get_field cur k = Some w -> child = w).
Proof.
  exists (default (Object []) (obj_get k (default [] (as_object cur)))). split.
  - destruct rest; destruct cur; done.
  - intros w. destruct cur; simpl; try done. by intros ->.
Qed.

Lemma merge_index_segment i rest v cur : 0 <= i -> exists child padded,
  merge_nested_binding (Index i :: rest) v cur = Array (<[Z.to_nat i := merged rest v child]> padded) /\
  (Z.to_nat i < length padded)%nat /\
  (forall j w, get_index cur j = Some w -> 0 <= j -> padded !! Z.to_nat j = Some w) /\ padded !! Z.to_nat i = Some child.
Proof.
  intros Hi. set (array := match cur with Array a => a | _ => [] end).
  set (padded := array ++ replicate (S (Z.to_nat i) - length array) Null).
  assert (Hl : (Z.to_nat i < length padded)%nat) by (unfold padded; rewrite length_app, length_replicate; lia).
  destruct (lookup_lt_is_Some_2 padded _ Hl) as [child Hc]. exists child, padded. split; [|split; [done|split; [|done]]].
  - destruct rest; cbn [merge_nested_binding]; fold array; fold padded; [done|]. by rewrite Hc.
  - intros j w Hj H0. unfold padded. unfold get_index in Hj. destruct cur; try done.
    destruct (j <? _); [|done]. by apply lookup_app_l_Some.
Qed.

Lemma walk_merged rest v child : (forall cur, rest <> [] -> walk (merge_nested_binding rest v cur) rest = Some v) ->
  walk (merged rest v child) rest = Some v.
Proof. intros Hr. destruct rest; [done|]. by apply Hr. Qed.

(** A nested binding ends up where its path says, and disturbs nothing else: after
    [merge_nested_binding], following the path finds the value, and every value found
    along a path that parts from it in the same object or array is still there. *)
Theorem merge_writes_leaf path v cur : path <> [] -> indices_ok path = true ->
  walk (merge_nested_binding path v cur) path = Some v /\
  forall other w, part_ways path other = true -> indices_ok other = true -> walk cur other = Some w ->
    walk (merge_nested_binding path v cur) other = Some w.
Proof.
  revert cur. induction path as [|seg rest IH]; intros cur Hne Hok; [done|].
  assert (Hsub : indices_ok rest = true) by (destruct seg; simpl in Hok; [done|by apply andb_true_iff in Hok as [_ ?]]).
  assert (Hrest : forall cur, rest <> [] -> walk (merge_nested_binding rest v cur) rest = Some v).
  { intros cur' Hr. by destruct (IH cur' Hr Hsub) as [? _]. }
  destruct seg as [k|i].
  - destruct (merge_key_segment k rest v cur) as (child & -> & Hchild). split.
    + cbn [walk get_field]. rewrite obj_get_insert, String.eqb_refl. by apply walk_merged.
    + intros [|[k'|j] other] w Hp Ho Hw; try done. cbn [walk get_field] in *. rewrite obj_get_insert.
      destruct (get_field cur k') as [x|] eqn:Ex; [|done]. cbn [part_ways] in Hp.
      rewrite String.eqb_sym. destruct (String.eqb_spec k k') as [<-|Hk].
      * rewrite (Hchild x Ex). simpl. destruct rest as [|seg rest]; [done|]. apply (proj2 (IH x ltac:(done) Hsub)); done.
      * destruct cur; try done. simpl in *. by rewrite Ex.
  - apply andb_true_iff in Hok as [Hi _]. apply Z.leb_le in Hi.
    destruct (merge_index_segment i rest v cur Hi) as (child & padded & -> & Hl & Hpad & Hc). split.
    + cbn [walk get_index]. rewrite length_insert, list_lookup_insert_eq by done.
      rewrite (proj2 (Z.ltb_lt _ _)) by lia. by apply walk_merged.
    + intros [|[k'|j] other] w Hp Ho Hw; try done. cbn [walk] in *. simpl in Ho. apply andb_true_iff in Ho as [Hj Ho]. apply Z.leb_le in Hj.
      destruct (get_index cur j) as [x|] eqn:Ex; [|done]. pose proof (Hpad j x Ex Hj) as Hx. cbn [part_ways] in Hp.
      cbn [get_index]. rewrite length_insert. pose proof (lookup_lt_Some _ _ _ Hx). rewrite (proj2 (Z.ltb_lt _ _)) by lia.
      destruct (Z.eqb_spec i j) as [<-|Hij].
      * rewrite list_lookup_insert_eq by done. assert (child = x) as -> by congruence. simpl.
        destruct rest as [|seg rest]; [done|]. apply (proj2 (IH x ltac:(done) Hsub)); done.
      * rewrite list_lookup_insert_ne by lia. by rewrite Hx.
Qed.

Lemma merge_writes_leaf_witness :
  let path := [Key "tags"; Index 1; Key "name"] in
  let cur := Object [("tags", Array [Str "first"])] in
  walk (merge_nested_binding path (Str "x") cur) path = Some (Str "x") /\
  walk (merge_nested_binding path (Str "x") cur) [Key "tags"; Index 0] = Some (Str "first").
Proof.
  destruct (merge_writes_leaf [Key "tags"; Index 1; Key "name"] (Str "x") (Object [("tags", Array [Str "first"])])) as [H1 H2];
    [discriminate|reflexivity|].
  split; [exact H1|]. apply H2; reflexivity.
Defined.
