(* ===== verification/Url.v ===== *)
(** Parameters in URLs: the check and encoding of a path segment
    ([encode_url_path_segment] in [support/strings.rs]) and the filling of path
    templates ([dispatch/path.rs]). Percent-encoding and the word characters of the
    regular expression are third-party code: classes with their documented laws. *)

From stdpp Require Import base gmap strings list.
From Stdlib Require Import ZArith Lia Ascii.
From S2P Require Import Prelude Text Kebab Json Results Workflow Request.

#[local] Arguments String.append !_ _ /.

(** * Percent-encoding *)

Definition hex_digit (n : nat) : ascii := ascii_of_nat (if Nat.ltb n 10 then 48 + n else 55 + n).

(** ["%"] and two capital hexadecimal digits. *)
Definition percent_escape (c : ascii) : string :=
  let n := nat_of_ascii c in String "%" (String (hex_digit (n / 16)) (String (hex_digit (n mod 16)) EmptyString)).

(** [percent_encoding::utf8_percent_encode]: the bytes of the set and those outside
    ASCII are escaped, the others stay. *)
Class PercentEncoding : Type := {
  utf8_percent_encode : (ascii -> bool) -> string -> string;
  encode_empty : forall set, utf8_percent_encode set EmptyString = EmptyString;
  encode_byte : forall set c s, utf8_percent_encode set (String c s) =
    (if set c || negb (is_ascii c) then percent_escape c else String c EmptyString) +:+ utf8_percent_encode set s
}.

(** [percent_encoding::CONTROLS]. *)
Definition is_control (c : ascii) : bool := let n := nat_of_ascii c in Nat.ltb n 32 || Nat.eqb n 127.

Definition QUOTE : ascii := ascii_of_nat 34.

Definition PATH_SEGMENT_ENCODE (c : ascii) : bool :=
  is_control c || existsb (Ascii.eqb c) [" "; QUOTE; "#"; "%"; "/"; "<"; ">"; "?"; "`"; "{"; "}"]%char.

(** * Words *)

Definition is_word_char (c : ascii) : bool := is_lower c || is_upper c || is_digit c || Ascii.eqb c "_".

(** Whether every character of a text is a word character, [\w] of the [regex] crate,
    which is Unicode's notion. *)
Class WordChars : Type := {
  all_word : string -> bool;
  all_word_ascii : forall s, contains_char (fun c => negb (is_ascii c)) s = false ->
    all_word s = negb (contains_char (fun c => negb (is_word_char c)) s)
}.

Section url.
Context `{PercentEncoding, WordChars}.

(** * A path segment *)

Definition empty_parameter (param_name : string) : RuntimeError :=
  mk_error Validation ("Parameter '" +:+ param_name +:+ "' cannot be empty") None
    (Some ("Provide a value for --" +:+ param_name +:+ ". Run with --help to see expected format.")) None.

Definition invalid_parameter (what : string) : RuntimeError := validation ("Invalid parameter value: " +:+ what).

Definition encode_url_path_segment (value param_name : string) : result string RuntimeError :=
  if is_empty value then Err (empty_parameter param_name)
  else if contains ".." value then Err (invalid_parameter "path traversal ('..') is not allowed")
  else if contains "?" value then Err (invalid_parameter "'?' is not allowed")
  else if contains "#" value then Err (invalid_parameter "'#' is not allowed")
  else if contains_char is_control value then Err (invalid_parameter "control characters are not allowed")
  else Ok (utf8_percent_encode PATH_SEGMENT_ENCODE value).

(** * Path templates *)

(** [\{(\w+)\}] at the start of [s]: the name between the braces. *)
Definition capture (s : string) : option string :=
  match s with
  | String c r =>
      if Ascii.eqb c "{" then
        match span (is_char "}") r with
        | (name, String _ _) => if negb (is_empty name) && all_word name then Some name else None
        | (_, EmptyString) => None
        end
      else None
  | EmptyString => None
  end.

(** [captures_iter]: the names from left to right, going on after each match. *)
Fixpoint captures (skip : nat) (s : string) : list string :=
  match s with
  | EmptyString => []
  | String _ r =>
      match skip with
      | S skip => captures skip r
      | O => match capture s with
             | Some name => name :: captures (S (String.length name)) r
             | None => captures 0 r
             end
      end
  end.

Definition placeholder (name : string) : string := String "{" (name +:+ "}").

Definition parameter_value (params : gmap string string) (name : string) : result string RuntimeError :=
  let? value := ok_or (params !! name) (validation ("Missing required parameter: --" +:+ name)) in
  encode_url_path_segment value name.

Definition substitute (params : gmap string string) (path name : string) : result string RuntimeError :=
  let? encoded := parameter_value params name in Ok (replace (placeholder name) encoded path).

Definition substitute_path_params (path_template : string) (params : gmap string string) : result string RuntimeError :=
  result_fold (substitute params) (captures 0 path_template) path_template.
End url.

(** * Instances for the examples *)

Fixpoint percent_encode (set : ascii -> bool) (s : string) : string :=
  match s with
  | EmptyString => EmptyString
  | String c r => (if set c || negb (is_ascii c) then percent_escape c else String c EmptyString) +:+ percent_encode set r
  end.

Program Definition percent_encoding : PercentEncoding := {| utf8_percent_encode := percent_encode |}.
Solve All Obligations with done.

Program Definition ascii_words : WordChars := {| all_word := fun s => negb (contains_char (fun c => negb (is_word_char c)) s) |}.
Solve All Obligations with done.

(** * What an encoded segment holds *)

#[local] Arguments Ascii.eqb : simpl never.

Section url_props.
Context `{PercentEncoding, WordChars}.

(** The characters an encoded segment never holds. *)
Definition reserved (c : ascii) : bool := negb (is_ascii c) || PATH_SEGMENT_ENCODE c && negb (Ascii.eqb c "%").

Definition hex_value (c : ascii) : nat := let n := nat_of_ascii c in if Nat.ltb n 58 then n - 48 else n - 55.

(** Percent-decoding, the reader's side of the contract. *)
Fixpoint percent_decode (s : string) : string :=
  match s with
  | EmptyString => EmptyString
  | String c r =>
      if Ascii.eqb c "%" then
        match r with
        | String a (String b r) => String (ascii_of_nat (16 * hex_value a + hex_value b)) (percent_decode r)
        | _ => String c (percent_decode r)
        end
      else String c (percent_decode r)
  end.

Lemma escaped_byte c s : exists a b, percent_escape c +:+ s = String "%" (String a (String b s)) /\
  ascii_of_nat (16 * hex_value a + hex_value b) = c /\ reserved a = false /\ reserved b = false.
Proof.
  unfold percent_escape. eexists _, _. split; [reflexivity|]. destruct c as [[] [] [] [] [] [] [] []]; vm_compute; done.
Qed.

Lemma kept_byte c : PATH_SEGMENT_ENCODE c || negb (is_ascii c) = false -> reserved c = false /\ Ascii.eqb c "%" = false.
Proof.
  intros Hc. apply orb_false_iff in Hc as [Hs Ha]. unfold reserved. rewrite Hs, Ha. split; [done|].
  by destruct (Ascii.eqb_spec c "%") as [->|].
Qed.

Lemma encoded_avoids s : contains_char reserved (utf8_percent_encode PATH_SEGMENT_ENCODE s) = false.
Proof.
  induction s as [|c s IH]; [by rewrite encode_empty|]. rewrite encode_byte.
  destruct (PATH_SEGMENT_ENCODE c || negb (is_ascii c)) eqn:E.
  - destruct (escaped_byte c (utf8_percent_encode PATH_SEGMENT_ENCODE s)) as (a & b & -> & _ & Ha & Hb).
    simpl. by rewrite Ha, Hb, IH.
  - apply kept_byte in E as [Hr _]. simpl. by rewrite Hr, IH.
Qed.

Lemma decode_encoded s : percent_decode (utf8_percent_encode PATH_SEGMENT_ENCODE s) = s.
Proof.
  induction s as [|c s IH]; [by rewrite encode_empty|]. rewrite encode_byte.
  destruct (PATH_SEGMENT_ENCODE c || negb (is_ascii c)) eqn:E.
  - destruct (escaped_byte c (utf8_percent_encode PATH_SEGMENT_ENCODE s)) as (a & b & -> & Hab & _).
    cbn [percent_decode]. rewrite Hab. simpl. by rewrite IH.
  - apply kept_byte in E as [_ Hp]. simpl. by rewrite Hp, IH.
Qed.

Lemma avoids_weaken (p q : ascii -> bool) s : (forall c, q c = true -> p c = true) -> contains_char p s = false -> contains_char q s = false.
Proof.
  intros Hpq. induction s as [|c s IH]; [done|]. simpl. intros [Hc Hs]%orb_false_iff. rewrite IH by done.
  destruct (q c) eqn:E; [|done]. by rewrite Hpq in Hc.
Qed.

Lemma accepted_segment v name e : encode_url_path_segment v name = Ok e ->
  v <> EmptyString /\ contains ".." v = false /\ e = utf8_percent_encode PATH_SEGMENT_ENCODE v.
Proof.
  unfold encode_url_path_segment. intros He. destruct (is_empty v) eqn:E; [done|]. apply is_empty_false in E.
  destruct (contains ".." v); [done|]. destruct (contains "?" v); [done|]. destruct (contains "#" v); [done|].
  destruct (contains_char is_control v); [done|]. split_and!; [done..|congruence].
Qed.

(** * Templates as pieces *)

(** A template: fixed text and placeholders. *)
Inductive piece : Type := Fixed (text : string) | Hole (name : string).

Definition is_brace (c : ascii) : bool := Ascii.eqb c "{" || Ascii.eqb c "}".

Definition piece_wf (p : piece) : bool :=
  match p with
  | Fixed text => negb (contains_char is_brace text)
  | Hole name => negb (contains_char is_brace name) && negb (is_empty name) && all_word name
  end.

Definition print_piece (p : piece) : string := match p with Fixed text => text | Hole name => placeholder name end.
Definition print (t : list piece) : string := foldr (fun p s => print_piece p +:+ s) EmptyString t.
Definition holes (t : list piece) : list string := omap (fun p => match p with Hole name => Some name | Fixed _ => None end) t.

(** The reference: each placeholder is the encoding of its value, on its own. *)
Definition fill (params : gmap string string) (p : piece) : result string RuntimeError :=
  match p with Fixed text => Ok text | Hole name => parameter_value params name end.

Definition fill_template (params : gmap string string) (t : list piece) : result string RuntimeError :=
  let? texts := result_map (fill params) t in Ok (foldr String.append EmptyString texts).

Lemma app_assoc_str (a b c : string) : (a +:+ b) +:+ c = a +:+ (b +:+ c).
Proof. induction a as [|x a IH]; [done|]. simpl. by rewrite IH. Qed.

Lemma span_hit p a c b : contains_char p a = false -> p c = true -> span p (a +:+ String c b) = (a, String c b).
Proof.
  intros Ha Hc. induction a as [|x a IH]; simpl in *; [by rewrite Hc|]. apply orb_false_iff in Ha as [-> Ha]. by rewrite IH.
Qed.

Lemma no_brace_l c : is_brace c = false -> Ascii.eqb c "{" = false.
Proof. by intros [? ?]%orb_false_iff. Qed.

Lemma no_close s : contains_char is_brace s = false -> contains_char (is_char "}") s = false.
Proof. apply avoids_weaken. unfold is_char, is_brace. intros c Hc. by rewrite (Ascii.eqb_sym c "}"), Hc, orb_true_r. Qed.

Lemma captures_fixed a s : contains_char is_brace a = false -> captures 0 (a +:+ s) = captures 0 s.
Proof.
  induction a as [|c a IH]; [done|]. simpl. intros [Hc Ha]%orb_false_iff. apply no_brace_l in Hc. rewrite Hc. by apply IH.
Qed.

Lemma captures_skip a s : captures (String.length a) (a +:+ s) = captures 0 s.
Proof. induction a as [|c a IH]; [done|]. simpl. apply IH. Qed.

Lemma capture_hole name s : piece_wf (Hole name) = true -> capture (placeholder name +:+ s) = Some name.
Proof.
  cbn [piece_wf]. intros [[Hb He]%andb_true_iff Hw]%andb_true_iff. unfold placeholder. simpl. rewrite app_assoc_str. simpl.
  rewrite span_hit by (try done; apply no_close; by apply negb_true_iff in Hb). by rewrite He, Hw.
Qed.

Lemma captures_print t : forallb piece_wf t = true -> captures 0 (print t) = holes t.
Proof.
  induction t as [|p t IH]; [done|]. simpl forallb. intros [Hp Ht]%andb_true_iff. cbn [print foldr]. fold (print t). destruct p as [text|name].
  - apply negb_true_iff in Hp. simpl. rewrite captures_fixed by done. by apply IH.
  - cbn [print_piece]. pose proof (capture_hole name (print t) Hp) as Hc. unfold placeholder in *.
    cbn [String.append captures] in *. rewrite Hc. cbn [holes omap]. unfold holes. cbn [omap list_omap]. f_equal.
    rewrite app_assoc_str. cbn [String.append]. fold (holes t). rewrite <- IH by done.
    pose proof (captures_skip (name +:+ "}") (print t)) as Hs. rewrite app_assoc_str in Hs.
    replace (String.length (name +:+ "}")) with (S (String.length name)) in Hs; [exact Hs|].
    clear. induction name as [|c name IH]; [done|]. cbn [String.append String.length]. by rewrite <- IH.
Qed.

(** ** Filling one name *)

Definition fill_hole (name text : string) (p : piece) : piece :=
  match p with Hole m => if String.eqb m name then Fixed text else p | Fixed _ => p end.

Lemma rewrite_skip f a s : rewrite_all f (String.length a) (a +:+ s) = rewrite_all f 0 s.
Proof. induction a as [|c a IH]; [done|]. simpl. apply IH. Qed.

Lemma replace_fixed name e a s : contains_char (is_char "{") a = false ->
  replace (placeholder name) e (a +:+ s) = a +:+ replace (placeholder name) e s.
Proof.
  unfold replace. induction a as [|c a IH]; [done|]. cbn [contains_char String.append rewrite_all]. intros [Hc Ha]%orb_false_iff.
  unfold is_char in Hc. assert (Hs : starts_with (placeholder name) (String c (a +:+ s)) = false) by (unfold placeholder; cbn [starts_with]; by rewrite Hc).
  by rewrite Hs, IH.
Qed.

Lemma starts_hole n m s : contains_char (is_char "}") n = false -> contains_char (is_char "}") m = false ->
  starts_with (n +:+ "}") (m +:+ String "}" s) = String.eqb m n.
Proof.
  revert m. induction n as [|c n IH]; intros [|d m]; cbn [starts_with contains_char String.append]; try done.
  - intros _ [Hd _]%orb_false_iff. unfold is_char in Hd. by rewrite Hd.
  - intros [Hc _]%orb_false_iff _. unfold is_char in Hc. by rewrite (Ascii.eqb_sym c "}"), Hc.
  - intros [_ Hn]%orb_false_iff [_ Hm]%orb_false_iff. rewrite IH by done. rewrite (Ascii.eqb_sym c d). cbn [String.eqb]. by destruct (Ascii.eqb d c).
Qed.

Lemma replace_hole name m e s : contains_char is_brace name = false -> contains_char is_brace m = false ->
  replace (placeholder name) e (placeholder m +:+ s) = (if String.eqb m name then e else placeholder m) +:+ replace (placeholder name) e s.
Proof.
  intros Hn Hm. unfold replace.
  set (f := fun s => if starts_with (placeholder name) s then Some (e, String.length (placeholder name)) else None).
  assert (Hf : f (String "{" ((m +:+ "}") +:+ s)) = if String.eqb m name then Some (e, S (String.length (name +:+ "}"))) else None).
  { unfold f, placeholder. cbn [starts_with String.length]. rewrite Ascii.eqb_refl, app_assoc_str. cbn [andb String.append].
    by rewrite starts_hole by (by apply no_close). }
  change (placeholder m +:+ s) with (String "{" ((m +:+ "}") +:+ s)). cbn [rewrite_all]. rewrite Hf.
  destruct (String.eqb_spec m name) as [->|Hne].
  - f_equal. rewrite Nat.sub_succ, Nat.sub_0_r. apply rewrite_skip.
  - unfold placeholder. cbn [String.append]. f_equal. apply replace_fixed. rewrite contains_char_app. cbn [contains_char]. rewrite orb_false_r.
    revert Hm. apply avoids_weaken. unfold is_char, is_brace. intros c Hc.
    by rewrite (Ascii.eqb_sym c "{"), Hc.
Qed.

Lemma replace_print name e t : contains_char is_brace name = false -> forallb piece_wf t = true ->
  replace (placeholder name) e (print t) = print (map (fill_hole name e) t).
Proof.
  intros Hn. induction t as [|p t IH]; [done|]. simpl forallb. intros [Hp Ht]%andb_true_iff. cbn [print foldr map]. fold (print t).
  fold (print (map (fill_hole name e) t)). rewrite <- IH by done. destruct p as [text|m]; cbn [print_piece fill_hole piece_wf] in *.
  - apply negb_true_iff in Hp. apply replace_fixed. revert Hp. apply avoids_weaken. unfold is_char, is_brace. intros c Hc.
    by rewrite (Ascii.eqb_sym c "{"), Hc.
  - apply andb_true_iff in Hp as [[Hm _]%andb_true_iff _]. apply negb_true_iff in Hm. rewrite replace_hole by done.
    by destruct (String.eqb m name).
Qed.

(** ** Filling them all *)

Section filling.
Variable params : gmap string string.

(** A template whose placeholders with a name in [done] are filled. *)
Definition filled (names : list string) (p : piece) : piece :=
  match p with
  | Fixed _ => p
  | Hole m => if bool_decide (m ∈ names) then match parameter_value params m with Ok e => Fixed e | Err _ => p end else p
  end.

Lemma value_no_brace name e : parameter_value params name = Ok e -> contains_char is_brace e = false.
Proof.
  unfold parameter_value. destruct (params !! name) as [v|]; [|done]. simpl. intros (_ & _ & ->)%accepted_segment.
  eapply avoids_weaken; [|apply encoded_avoids]. intros c Hc. unfold is_brace in Hc. apply orb_true_iff in Hc as [->%Ascii.eqb_eq| ->%Ascii.eqb_eq]; done.
Qed.

Lemma filled_wf names p : piece_wf p = true -> piece_wf (filled names p) = true.
Proof.
  destruct p as [text|m]; [done|]. unfold filled. intros Hp. case_bool_decide; [|done]. destruct (parameter_value params m) eqn:E; [|done].
  simpl. by rewrite (value_no_brace _ _ E).
Qed.

Lemma fold_substitute t names fills : forallb piece_wf t = true -> Forall (fun n => contains_char is_brace n = false) names ->
  result_fold (substitute params) names (print (map (filled fills) t)) =
  let? _ := result_map (parameter_value params) names in Ok (print (map (filled (fills ++ names)) t)).
Proof.
  intros Ht Hn. revert fills. induction Hn as [|n names Hn _ IH]; intros fills; [by rewrite app_nil_r|].
  cbn [result_fold result_map]. unfold substitute at 1. destruct (parameter_value params n) as [e|err] eqn:E; [|done]. simpl.
  rewrite replace_print; [|done|]; cycle 1.
  { apply forallb_forall. intros p (q & <- & Hq)%in_map_iff. apply filled_wf. rewrite forallb_forall in Ht. by apply Ht. }
  rewrite map_map. replace (map (fun p => fill_hole n e (filled fills p)) t) with (map (filled (fills ++ [n])) t).
  - rewrite IH, <- app_assoc. by destruct (result_map _ names).
  - apply map_ext. intros [text|m]; [done|]. unfold filled. destruct (String.eqb_spec m n) as [->|Hne].
    + rewrite bool_decide_eq_true_2 by set_solver. rewrite E. case_bool_decide; [done|]. simpl. by rewrite String.eqb_refl.
    + rewrite (bool_decide_ext (m ∈ fills ++ [n]) (m ∈ fills)) by set_solver. case_bool_decide; simpl.
      * destruct (parameter_value params m); [done|]. simpl. by destruct (String.eqb_spec m n).
      * by destruct (String.eqb_spec m n).
Qed.

Lemma filled_print t names : holes t ⊆ names ->
  (let? _ := result_map (parameter_value params) (holes t) in Ok (print (map (filled names) t))) = fill_template params t.
Proof.
  unfold fill_template. induction t as [|p t IH]; intros Hs; [done|]. destruct p as [text|m].
  - specialize (IH Hs). cbn [holes omap result_map map fill]. unfold holes in *. cbn [omap list_omap] in *.
    destruct (result_map (parameter_value params) _) as [vs|err], (result_map (fill params) t) as [texts|err']; simpl in *; try done.
    injection IH as IH. by rewrite <- IH.
  - cbn [result_map map fill]. unfold holes in *. cbn [omap list_omap result_map] in *.
    destruct (parameter_value params m) as [e|err] eqn:E; [|done].
    assert (Hm : m ∈ names) by (apply Hs; left). specialize (IH ltac:(intros x Hx; apply Hs; by right)).
    destruct (result_map (parameter_value params) _) as [vs|err], (result_map (fill params) t) as [texts|err']; simpl in *; try done.
    injection IH as IH. rewrite bool_decide_eq_true_2, E by done. simpl. by rewrite <- IH.
Qed.

(** [C19] Filling a path template is simultaneous: the value of each placeholder is
    checked and encoded on its own, the first bad one in the order of the template is the
    error, and no value is read as a placeholder of another. What is put in decodes to
    the value and holds none of the characters that end a path segment. *)
Theorem path_substitution t : forallb piece_wf t = true ->
  substitute_path_params (print t) params = fill_template params t /\
  forall name e, parameter_value params name = Ok e ->
    contains_char reserved e = false /\ params !! name = Some (percent_decode e) /\ percent_decode e <> EmptyString /\
    contains ".." (percent_decode e) = false.
Proof.
  intros Ht. split.
  - unfold substitute_path_params. rewrite captures_print by done.
    assert (Hid : map (filled []) t = t).
    { rewrite <- (map_id t) at 2. apply map_ext. by intros [text|m]. }
    rewrite <- Hid at 2. rewrite fold_substitute; [by apply filled_print|done|].
    apply Forall_forall. intros n (p & Hp & Hn)%list_elem_of_omap. destruct p as [|m]; [done|]. injection Hn as ->.
    rewrite forallb_forall in Ht. specialize (Ht (Hole n) ltac:(by apply list_elem_of_In)).
    cbn [piece_wf] in Ht. apply andb_true_iff in Ht as [[Hb _]%andb_true_iff _]. by apply negb_true_iff in Hb.
  - intros name e He. unfold parameter_value in He. destruct (params !! name) as [v|] eqn:Ev; [|done]. simpl in He.
    apply accepted_segment in He as (Hne & Hdots & ->). rewrite decode_encoded. split_and!; try done. apply encoded_avoids.
Qed.
End filling.
End url_props.

(** * An example *)

#[local] Instance example_encoding : PercentEncoding := percent_encoding.
#[local] Instance example_words : WordChars := ascii_words.

Definition example_template : list piece := [Fixed "/iam/namespaces/"; Hole "namespace"; Fixed "/users/"; Hole "userId"].
Definition example_params : gmap string string := {["namespace" := "{userId}"; "userId" := "a/b 100%"]}.

Example filled_path :
  substitute_path_params (print example_template) example_params = Ok "/iam/namespaces/%7BuserId%7D/users/a%2Fb%20100%25".
Proof. vm_compute. reflexivity. Qed.

Example refused_values :
  map (fun v => is_ok (encode_url_path_segment v "id")) ["x"; EmptyString; "a..b"; "a?b"; "a#b"; String (ascii_of_nat 9) EmptyString] =
  [true; false; false; false; false; false].
Proof. vm_compute. reflexivity. Qed.

Lemma path_substitution_witness :
  substitute_path_params (print example_template) example_params = fill_template example_params example_template.
Proof. apply (@path_substitution example_encoding example_words example_params example_template). reflexivity. Defined.
