(* ===== verification/Http.v ===== *)
(** HTTP as the runtime sees it ([dispatch/http.rs], [support/output_sink.rs],
    [ags-protocol/src/event.rs]): requests, tagged responses, the transport behind
    [HttpClient], the progress sink and the destinations of raw bodies. [reqwest], the
    file system and standard output are the class [Transport]. *)

From stdpp Require Import base gmap strings list.
From Stdlib Require Import ZArith Lia Ascii Strings.Byte.
From S2P Require Import Prelude Text Json Catalogue Results Workflow Request.

(** * Requests and responses *)

Record HttpRequest : Type := mk_http_request {
  method : HttpMethod;
  url : string;
  headers : list (string * string);
  query : list (string * string);
  http_body : option RequestBody
}.

Inductive HttpBody : Type := HttpText (s : string) | Binary (content_type : string) (b : bytes).

Record HttpResponse : Type := mk_http_response { status : Z; body : HttpBody }.

Inductive ProgressEvent : Type :=
| Started (message : string)
| Page (current : Z) (total : option Z)
| Message (text : string)
| Finished.

Definition MAX_RESPONSE_BYTES : Z := 10 * 1024 * 1024.

(** [RuntimeError::network]. *)
Definition network (message : string) : RuntimeError :=
  mk_error Network message None (Some "Check network connectivity and retry.") None.

Definition network_error (err : string) : RuntimeError := network ("Network error: " +:+ err).

Definition internal_error (message : string) : RuntimeError := mk_error Internal message None None None.

Definition upstream (status : Z) (message : string) : RuntimeError := mk_error (Upstream status None) message None None None.

(** * Media types *)

Definition media_type (content_type : string) : string := to_ascii_lowercase (trim (span (is_char ";") (trim content_type)).1).

Definition is_text_content_type (content_type : string) : bool :=
  let media := media_type content_type in
  if is_empty media then false
  else if String.eqb media "application/json" || starts_with "text/" media then true
  else
    match strip_prefix "application/" media with
    | Some rest => Nat.ltb (String.length "+json") (String.length rest) && ends_with "+json" rest
    | None => false
    end.

(** * UTF-8 *)

Definition byte_n (b : byte) : nat := nat_of_ascii (ascii_of_byte b).
Definition in_bytes (lo hi : nat) (b : byte) : bool := Nat.leb lo (byte_n b) && Nat.leb (byte_n b) hi.

(** The ranges of the second byte that rule out overlong forms, surrogates and what is
    above the last code point. *)
Definition second_ok (lead second : byte) : bool :=
  match byte_n lead with
  | 224 => in_bytes 160 191 second
  | 237 => in_bytes 128 159 second
  | 240 => in_bytes 144 191 second
  | 244 => in_bytes 128 143 second
  | _ => in_bytes 128 191 second
  end%nat.

(** [String::from_utf8(..).is_ok()]. *)
Fixpoint valid_utf8 (b : bytes) : bool :=
  match b with
  | [] => true
  | x :: b1 =>
      if in_bytes 0 127 x then valid_utf8 b1
      else
        match b1 with
        | [] => false
        | y :: b2 =>
            if in_bytes 194 223 x then in_bytes 128 191 y && valid_utf8 b2
            else
              match b2 with
              | [] => false
              | z :: b3 =>
                  if in_bytes 224 239 x then second_ok x y && in_bytes 128 191 z && valid_utf8 b3
                  else
                    match b3 with
                    | [] => false
                    | w :: b4 => in_bytes 240 244 x && second_ok x y && in_bytes 128 191 z && in_bytes 128 191 w && valid_utf8 b4
                    end
              end
        end
  end.

(** * Reading a response *)

(** A response of [reqwest] before its body is read: the announced length, and the body
    or the error of reading it. *)
Record RawResponse : Type := mk_raw_response {
  raw_status : Z;
  raw_content_type : option string;
  content_length : option Z;
  raw_bytes : result bytes string
}.

Definition too_large (n : Z) : RuntimeError :=
  mk_error ResponseTooLarge
    ("Response too large (" +:+ show_int n +:+ " bytes, limit is " +:+ show_int MAX_RESPONSE_BYTES +:+ " bytes).") None
    (Some "Narrow the query (e.g. --page-limit or filters) to reduce the response size.") None.

Definition read_response_bytes_capped (r : RawResponse) : result bytes RuntimeError :=
  let announced := default 0 (content_length r) in
  if MAX_RESPONSE_BYTES <? announced then Err (too_large announced)
  else
    let? b := map_err network_error (raw_bytes r) in
    let n := Z.of_nat (length b) in
    if MAX_RESPONSE_BYTES <? n then Err (too_large n) else Ok b.

(** [read_response_body], for answers that are always JSON. *)
Definition read_response_body (r : RawResponse) : result string RuntimeError :=
  let? b := read_response_bytes_capped r in
  if valid_utf8 b then Ok (of_bytes b) else Err (internal_error "Response body is not valid UTF-8").

Definition read_response_body_tagged (r : RawResponse) : result HttpBody RuntimeError :=
  let content_type := default EmptyString (raw_content_type r) in
  let? b := read_response_bytes_capped r in
  let is_text_body := bool_decide (b = []) || (400 <=? raw_status r) || is_text_content_type content_type in
  if is_text_body then
    if valid_utf8 b then Ok (HttpText (of_bytes b))
    else Err (upstream (raw_status r) "Server said text but body is not valid UTF-8")
  else Ok (Binary content_type b).

(** * Destinations *)

Inductive OutputSink : Type := SinkStdout | SinkFile (path : string).
Inductive OutputSinkError : Type := Usage (message : string) | SinkInternal (message : string).

Definition resolve_output_sink (destination : option OutputDestination) (is_binary_body is_stdout_tty : bool)
  : result OutputSink OutputSinkError :=
  match destination with
  | Some Stdout => Ok SinkStdout
  | Some (File path) => Ok (SinkFile path)
  | None =>
      if is_binary_body && is_stdout_tty
      then Err (Usage "Response body is binary. Use --output <path> to write it to a file, or redirect stdout.")
      else Ok SinkStdout
  end.

(** What the operating system reports of a failed write: a broken pipe, or a message
    with the operation ("write to" or "flush"). *)
Inductive WriteError : Type := BrokenPipe | WriteFailed (operation message : string).

(** * The transport *)

Class Transport : Type := {
  Net : Type;
  (** Send a request; the error is the text of [reqwest]'s. *)
  exchange : HttpRequest -> Net -> result RawResponse string * Net;
  (** Open a file to upload it. *)
  open_file : string -> Net -> result unit string;
  (** The length of a file, when its metadata can be read. *)
  file_length : string -> Net -> option Z;
  stdout_tty : Net -> bool;
  (** Write and flush standard output, write a file. *)
  write_stdout : bytes -> Net -> result unit WriteError * Net;
  write_file : string -> bytes -> Net -> result unit string * Net
}.

Declare Scope net_scope.
Delimit Scope net_scope with net.

Section transport.
Context `{Transport}.

(** The connection of one command: the outside, the requests sent, the progress events
    emitted. *)
Record Conn : Type := mk_conn { net : Net; sent : list HttpRequest; progress : list ProgressEvent }.

(** A computation over it, which may end in an error or in a panic. *)
Inductive Failure : Type := Failed (e : RuntimeError) | Panicked.

Definition Io (A : Type) : Type := Conn -> result A Failure * Conn.

Definition io_ret {A} (x : A) : Io A := fun c => (Ok x, c).
Definition io_fail {A} (e : RuntimeError) : Io A := fun c => (Err (Failed e), c).
Definition io_panic {A} : Io A := fun c => (Err Panicked, c).
Definition io_lift {A} (r : result A RuntimeError) : Io A := fun c => (map_err Failed r, c).
Definition io_bind {A B} (m : Io A) (k : A -> Io B) : Io B := fun c =>
  match m c with (Ok x, c) => k x c | (Err e, c) => (Err e, c) end.

Definition emit (e : ProgressEvent) : Io unit := fun c => (Ok tt, mk_conn (net c) (sent c) (progress c ++ [e])).

(** The body of a request as it is opened for the wire. *)
Definition open_parts (b : option RequestBody) (n : Net) : result unit RuntimeError :=
  match b with
  | Some (BodyMultipart parts) =>
      for_each (fun part =>
        match part with
        | FormText _ _ => Ok tt
        | FormFile _ path _ =>
            map_err (fun err => internal_error ("failed to open file '" +:+ path +:+ "' for upload: " +:+ err)) (open_file path n)
        end) parts
  | _ => Ok tt
  end.

(** [ReqwestHttpClient::send]. A request whose parts do not open is not sent. *)
Definition send (r : HttpRequest) : Io HttpResponse := fun c =>
  match open_parts (http_body r) (net c) with
  | Err e => (Err (Failed e), c)
  | Ok _ =>
      let '(answer, n) := exchange r (net c) in
      (map_err Failed
         (let? raw := map_err network_error answer in
          let? b := read_response_body_tagged raw in
          Ok (mk_http_response (raw_status raw) b)),
       mk_conn n (sent c ++ [r]) (progress c))
  end.

(** [OutputSink::write]; a closed pipe is not an error. *)
Definition sink_write (s : OutputSink) (b : bytes) (c : Conn) : result unit OutputSinkError * Conn :=
  match s with
  | SinkStdout =>
      let '(r, n) := write_stdout b (net c) in
      (match r with
       | Ok _ | Err BrokenPipe => Ok tt
       | Err (WriteFailed operation message) => Err (Usage ("Cannot " +:+ operation +:+ " stdout: " +:+ message +:+ "."))
       end, mk_conn n (sent c) (progress c))
  | SinkFile path =>
      let '(r, n) := write_file path b (net c) in
      (map_err (fun _ => SinkInternal ("Cannot write to '" +:+ path +:+ "'")) r, mk_conn n (sent c) (progress c))
  end.
End transport.

Notation "'let!' x ':=' m 'in' k" := (io_bind m (fun x => k)) (at level 200, x name, m at level 100, k at level 200) : net_scope.
Notation "'do!' m ';' k" := (io_bind m (fun _ => k)) (at level 200, m at level 100, k at level 200) : net_scope.
#[global] Open Scope net_scope.

(** * Examples from the tests *)

Example text_types :
  map is_text_content_type ["application/json"; "application/json; charset=utf-8"; " Text/Plain "; "application/vnd.api+json";
                            "application/+json"; "image/png"; "application/octet-stream"; EmptyString] =
  [true; true; true; true; false; false; false; false].
Proof. vm_compute. reflexivity. Qed.

Example utf8_examples :
  map (fun s => valid_utf8 (map (fun n => byte_of_ascii (ascii_of_nat n)) s))
    [[65; 66]; [195; 169]; [226; 130; 172]; [240; 159; 152; 128]; [192; 128]; [237; 160; 128]; [244; 144; 128; 128]; [226; 130]]%nat =
  [true; true; true; true; false; false; false; false].
Proof. vm_compute. reflexivity. Qed.
