(* ===== verification/Pagination.v ===== *)
(** Automatic pagination ([dispatch/pagination.rs]): the pages after the first one are
    fetched and merged, up to a hard cap. *)

From stdpp Require Import base gmap strings list.
From Stdlib Require Import ZArith Lia Ascii.
From S2P Require Import Prelude Text Kebab Nouns Json Catalogue Results Workflow Request Http.

Definition HARD_PAGE_CAP : Z := 100.
Definition DEFAULT_PAGE_SIZE : Z := 100.

Inductive PaginationStrategy : Type := Offset | Cursor.

Definition supports (name : string) (op : OperationSchema) : bool :=
  existsb (fun p => String.eqb (param_name p) name && bool_decide (param_location p = InQuery)) (parameters op).

Definition detect_strategy (op : OperationSchema) : option PaginationStrategy :=
  if supports "after" op then Some Cursor else if supports "offset" op then Some Offset else None.

(** * Reading a page *)

Definition extract_next_cursor (response : value) : option string :=
  paging ← get_key "paging" response;
  next ← get_key "next" paging;
  cursor ← as_str next;
  if is_empty cursor then None else Some cursor.

Definition extract_data_array (response : value) : option (list value) := data ← get_key "data" response; as_array data.

Definition page_paging (response : value) : value := default (Object []) (get_key "paging" response).

Definition build_merged_response (all_items : list value) (last_paging : value) : value :=
  Object [("data", Array all_items); ("paging", last_paging)].

(** * Queries *)

Definition query_get (name : string) (q : list (string * string)) : option string :=
  option_map snd (List.find (fun kv => String.eqb kv.1 name) q).

(** [query.retain(..)] and [push]. *)
Definition replace_param (name v : string) (q : list (string * string)) : list (string * string) :=
  List.filter (fun kv => negb (String.eqb kv.1 name)) q ++ [(name, v)].

(** The product is of 64 bits. *)
Definition build_next_query (base_query : list (string * string)) (strategy : PaginationStrategy) (cursor : string)
    (pages_fetched page_size : Z) : list (string * string) :=
  match strategy with
  | Cursor => replace_param "after" cursor base_query
  | Offset => replace_param "offset" (show_int (as_u64 (pages_fetched * page_size))) base_query
  end.

Definition page_size_from_query (q : list (string * string)) : Z :=
  default DEFAULT_PAGE_SIZE (v ← query_get "limit" q; parse_unsigned u64_max v).

Definition options_page_size (q : list (string * string)) : Z :=
  match (v ← query_get "count" q; parse_unsigned u64_max v) with
  | Some count => count
  | None => page_size_from_query q
  end.

(** * Limits *)

Definition effective_page_limit (user_limit : Z) : Z := if user_limit =? 0 then HARD_PAGE_CAP else Z.min user_limit HARD_PAGE_CAP.

Definition limit_message_text (page_limit pages_fetched item_count : Z) : string :=
  if page_limit =? 0 then
    "Stopped after " +:+ show_int HARD_PAGE_CAP +:+ " " +:+ pluralize "page" HARD_PAGE_CAP +:+
    ". For larger datasets, use the API directly or process in batches"
  else
    "Stopped after " +:+ show_int pages_fetched +:+ " " +:+ pluralize "page" pages_fetched +:+ " (" +:+ show_int item_count +:+ " " +:+
    pluralize "item" item_count +:+ "). Use --page-limit to increase".

Section pagination.
Context `{JsonText, Transport}.

(** * Fetching *)

(** What the pages of one listing share. *)
Record Listing : Type := mk_listing {
  resolved_url : string;
  token : string;
  base_query : list (string * string);
  strategy : PaginationStrategy;
  page_size : Z;
  page_limit : Z
}.

Definition bearer (token : string) : list (string * string) := [("Authorization", "Bearer " +:+ token)].

Definition page_request (l : Listing) (q : list (string * string)) : HttpRequest :=
  mk_http_request Get (resolved_url l) (bearer (token l)) q None.

(** [serde_json::from_str]. *)
Definition parse_json (s : string) : option value := from_slice (as_bytes s).

Definition page_of_response (page_number : Z) (r : HttpResponse) : result value RuntimeError :=
  match body r with
  | Binary content_type b =>
      Err (upstream (status r) ("Paginated endpoint returned binary body (" +:+ content_type +:+ ", " +:+ show_int (Z.of_nat (length b))
                                +:+ " bytes) — unsupported."))
  | HttpText s =>
      if negb ((200 <=? status r) && (status r <? 300)) then
        Err (upstream (status r) ("HTTP " +:+ show_int (status r) +:+ " error on page " +:+ show_int page_number))
      else ok_or (parse_json s) (internal_error ("Failed to parse page " +:+ show_int page_number +:+ " response"))
  end.

Definition fetch_next_page (l : Listing) (q : list (string * string)) (page_number : Z) : Io value :=
  let! r := send (page_request l q) in io_lift (page_of_response page_number r).

(** The next page of a listing whose cursor is [cursor] after [pages] pages. *)
Definition next_page (l : Listing) (cursor : string) (pages : Z) : Io value :=
  do! emit (Page (pages + 1) None);
  fetch_next_page l (build_next_query (base_query l) (strategy l) cursor pages (page_size l)) (pages + 1).

Definition stop_at_limit (l : Listing) (pages : Z) (items : list value) : Io unit :=
  emit (Message (limit_message_text (page_limit l) pages (Z.of_nat (length items)))).

(** The core loop. Each round fetches one page, so the fuel that [effective_page_limit]
    gives is never used up. *)
Fixpoint paginate_loop (fuel : nat) (l : Listing) (cursor : string) (items : list value) (last_paging : value) (pages : Z)
  : Io value :=
  match fuel with
  | O => io_ret (build_merged_response items last_paging)
  | S fuel =>
      if effective_page_limit (page_limit l) <=? pages then
        do! stop_at_limit l pages items; io_ret (build_merged_response items last_paging)
      else
        let! response := next_page l cursor pages in
        match extract_data_array response with
        | Some (x :: data) =>
            let items := items ++ x :: data in
            let last_paging := page_paging response in
            match extract_next_cursor response with
            | Some cursor => paginate_loop fuel l cursor items last_paging (pages + 1)
            | None => io_ret (build_merged_response items last_paging)
            end
        | _ => io_ret (build_merged_response items last_paging)
        end
  end.

Definition page_fuel (l : Listing) : nat := Z.to_nat (effective_page_limit (page_limit l)).

Definition fetch_all_pages (url token : string) (op : OperationSchema) (initial_response : value)
    (initial_query_params : list (string * string)) (limit : Z) : Io value :=
  match extract_next_cursor initial_response, detect_strategy op with
  | Some cursor, Some strategy =>
      let l := mk_listing url token initial_query_params strategy (page_size_from_query initial_query_params) limit in
      paginate_loop (page_fuel l) l cursor (default [] (extract_data_array initial_response)) (page_paging initial_response) 1
  | _, _ => io_ret initial_response
  end.

(** * At a path *)

(** [items_path] as [$.<key>]. *)
Definition single_key (items_path : string) : option string :=
  match strip_prefix "$." items_path with
  | Some k => if negb (is_empty k) && negb (contains_char (fun c => Ascii.eqb c "." || Ascii.eqb c "[") k) then Some k else None
  | None => None
  end.

(** The array at [key] of a page, empty when there is none. *)
Definition items_at (key : string) (response : value) : list value := default [] (v ← get_key key response; as_array v).

Definition write_items (key : string) (items : list value) (response : value) : value :=
  match response with Object o => Object (obj_insert key (Array items) o) | _ => response end.

Fixpoint paginate_at_path (fuel : nat) (l : Listing) (key cursor : string) (items : list value) (last_response : value) (pages : Z)
  : Io value :=
  match fuel with
  | O => io_ret (write_items key items last_response)
  | S fuel =>
      if effective_page_limit (page_limit l) <=? pages then
        do! stop_at_limit l pages items; io_ret (write_items key items last_response)
      else
        let! response := next_page l cursor pages in
        match items_at key response with
        | [] => io_ret (write_items key items last_response)
        | data =>
            match extract_next_cursor response with
            | Some cursor => paginate_at_path fuel l key cursor (items ++ data) response (pages + 1)
            | None => io_ret (write_items key (items ++ data) response)
            end
        end
  end.

Definition fetch_all_pages_at_path (url token : string) (op : OperationSchema) (initial_response : value)
    (initial_query_params : list (string * string)) (limit : Z) (items_path : string) : Io value :=
  match single_key items_path, extract_next_cursor initial_response, detect_strategy op with
  | Some key, Some cursor, Some strategy =>
      let l := mk_listing url token initial_query_params strategy (options_page_size initial_query_params) limit in
      paginate_at_path (page_fuel l) l key cursor (items_at key initial_response) initial_response 1
  | _, _, _ => io_ret initial_response
  end.
End pagination.

(** * Termination and completeness *)

Section pages.
Context `{JsonText, Transport}.
Context (l : Listing).

(** How many pages at most, the first one included. *)
Definition most : nat := Z.to_nat (effective_page_limit (page_limit l)).

Lemma most_range : 0 <= page_limit l -> (1 <= most <= 100)%nat.
Proof. unfold most, effective_page_limit, HARD_PAGE_CAP. intros Hl. destruct (Z.eqb_spec (page_limit l) 0); lia. Qed.

(** ** A run of pages *)

(** The pages a listing has, the first one included; a page tells whether there is
    another one. *)
Variable pages : nat -> value.

Definition data_of (k : nat) : list value := default [] (extract_data_array (pages k)).

Definition query_of (k : nat) : list (string * string) :=
  build_next_query (base_query l) (strategy l) (default EmptyString (extract_next_cursor (pages (k - 1)))) (Z.of_nat k) (page_size l).

(** The server answers the request for page [k] with it, whenever it is asked. *)
Definition serves (k : nat) : Prop := forall n, exists r n' s,
  exchange (page_request l (query_of k)) n = (Ok r, n') /\ raw_status r = 200 /\ read_response_body_tagged r = Ok (HttpText s) /\
  parse_json s = Some (pages k).

Definition collected (m : nat) : list value := concat (map data_of (seq 0 m)).

Lemma collected_S m : collected (S m) = collected m ++ data_of m.
Proof. unfold collected. rewrite seq_S, map_app, concat_app. simpl. by rewrite app_nil_r. Qed.

(** Fetching page [k] sends one request. *)
Lemma next_page_served k c : serves k -> exists c',
  next_page l (default EmptyString (extract_next_cursor (pages (k - 1)))) (Z.of_nat k) c = (Ok (pages k), c') /\
  sent c' = sent c ++ [page_request l (query_of k)].
Proof.
  intros Hs. destruct (Hs (net c)) as (r & n' & s & Hx & Hst & Hb & Hp).
  unfold next_page. change (build_next_query _ _ _ _ _) with (query_of k). unfold fetch_next_page, io_bind, emit, send.
  cbn [open_parts http_body page_request net for_each]. rewrite Hx. cbn [map_err result_bind]. rewrite Hb. cbn [result_bind map_err].
  unfold io_lift, page_of_response. cbn [status body]. rewrite Hst. cbn [negb andb Z.leb Z.ltb Z.compare Pos.compare Pos.compare_cont]. rewrite Hp. eexists. split; [reflexivity|done].
Qed.

(** The loop reads on while pages have items and announce another, up to the limit. *)
Lemma paginate_loop_collects m k fuel c :
  0 <= page_limit l -> (1 <= k <= m)%nat -> (m <= most)%nat -> (most - k < fuel)%nat ->
  (forall i, (k <= i < m)%nat -> serves i /\ data_of i <> []) ->
  (forall i, (k <= i < m)%nat -> is_Some (extract_next_cursor (pages (i - 1)))) ->
  m = most \/ extract_next_cursor (pages (m - 1)) = None ->
  m = most \/ (k < m)%nat ->
  exists c', paginate_loop fuel l (default EmptyString (extract_next_cursor (pages (k - 1)))) (collected k) (page_paging (pages (k - 1)))
               (Z.of_nat k) c = (Ok (build_merged_response (collected m) (page_paging (pages (m - 1)))), c') /\
    sent c' = sent c ++ map (fun i => page_request l (query_of i)) (seq k (m - k)).
Proof.
  intros Hl. pose proof (most_range Hl) as Hmost. revert k c.
  induction fuel as [|fuel IH]; intros k c Hk Hm Hf Hserve Hnext Hend Hgo; [lia|]. cbn [paginate_loop].
  assert (Hlim : (effective_page_limit (page_limit l) <=? Z.of_nat k) = Nat.leb most k).
  { unfold most. apply eq_true_iff_eq. rewrite Z.leb_le, Nat.leb_le. lia. }
  rewrite Hlim. destruct (Nat.leb_spec most k) as [Hge|Hlt].
  - assert (m = k) as -> by lia. rewrite Nat.sub_diag. simpl seq. unfold io_bind, stop_at_limit, emit, io_ret.
    eexists. split; [reflexivity|]. simpl. by rewrite app_nil_r.
  - assert (Hkm : (k < m)%nat) by lia. destruct (Hserve k ltac:(lia)) as [Hs Hne].
    destruct (next_page_served k c Hs) as (c1 & Hpage & Hsent). unfold io_bind at 1. rewrite Hpage.
    pose proof Hne as Hd. unfold data_of in Hd. destruct (extract_data_array (pages k)) as [[|x data]|] eqn:Ed; [done| |done].
    assert (Hdk : data_of k = x :: data) by (unfold data_of; by rewrite Ed).
    rewrite <- Hdk, <- collected_S.
    assert (Hseq : map (fun i => page_request l (query_of i)) (seq k (m - k)) =
                   page_request l (query_of k) :: map (fun i => page_request l (query_of i)) (seq (S k) (m - S k))).
    { replace (m - k)%nat with (S (m - S k)) by lia. done. }
    rewrite Hseq. destruct (decide (S k = m)) as [<-|Hnm].
    + replace (S k - 1)%nat with k in * by lia. rewrite Nat.sub_diag. simpl seq. simpl map.
      destruct (extract_next_cursor (pages k)) as [cursor|] eqn:Ec.
      * destruct Hend as [Hend|]; [|done]. destruct fuel as [|fuel]; [lia|]. cbn [paginate_loop].
        rewrite (proj2 (Z.leb_le _ _)); [|unfold most in Hend; lia]. unfold io_bind, stop_at_limit, emit, io_ret.
        eexists. split; [reflexivity|done].
      * eexists. split; [reflexivity|done].
    + destruct (Hnext (S k) ltac:(lia)) as [cursor Hc]. replace (S k - 1)%nat with k in Hc by lia. rewrite Hc.
      replace (Z.of_nat k + 1) with (Z.of_nat (S k)) by lia.
      destruct (IH (S k) c1) as (c' & Hr & Hsent'); [lia..|intros i Hi; apply Hserve; lia|intros i Hi; apply Hnext; lia|done|lia|].
      replace (S k - 1)%nat with k in Hr by lia. rewrite Hc in Hr. exists c'. split; [exact Hr|].
      rewrite Hsent', Hsent, <- app_assoc. done.
Qed.
End pages.

(** ** A listing by offset *)

Section listing.
Context `{JsonText, Transport}.

(** A page as the services send it: the items of a window, and a cursor when some are
    left after it. *)
Definition listing_page (items : list value) (size offset : nat) : value :=
  Object [("data", Array (take size (drop offset items)));
          ("paging", Object (if Nat.ltb (offset + size) (length items) then [("next", Str "more")] else []))].

Lemma listing_data items size offset : extract_data_array (listing_page items size offset) = Some (take size (drop offset items)).
Proof. done. Qed.

Lemma listing_next items size offset :
  extract_next_cursor (listing_page items size offset) = if Nat.ltb (offset + size) (length items) then Some "more" else None.
Proof. unfold listing_page. by destruct (Nat.ltb _ _). Qed.

Lemma windows_collect (items : list value) size m :
  concat (map (fun k => take size (drop (k * size) items)) (seq 0 m)) = take (m * size) items.
Proof.
  induction m as [|m IH]; [done|]. rewrite seq_S, map_app, concat_app, IH. simpl. rewrite app_nil_r.
  rewrite take_take_drop. f_equal. lia.
Qed.

Definition offset_request (url token : string) (q : list (string * string)) (offset : nat) : HttpRequest :=
  mk_http_request Get url (bearer token) (replace_param "offset" (show_int (Z.of_nat offset)) q) None.

(** The server answers every request for a window that holds items with its page. *)
Definition serves_listing (url token : string) (q : list (string * string)) (items : list value) (size : nat) : Prop :=
  forall offset n, (offset < length items)%nat -> exists r n' s, exchange (offset_request url token q offset) n = (Ok r, n') /\ raw_status r = 200 /\
    read_response_body_tagged r = Ok (HttpText s) /\ parse_json s = Some (listing_page items size offset).

(** [C18] Pagination of a listing from its start is complete: when the first page is the one at
    offset 0, and the server lists by offset in pages of the size that the query asks for or
    that is assumed without one, the pages after the first one are asked for in order, without a
    gap or an overlap, until the items or the pages allowed are exhausted, and the result holds
    the items of all of them in order; so it holds every item when the limit allows. It ends
    after at most 99 requests. (A first page elsewhere is not continued: see
    [offset_restarts].) *)
Theorem pagination_complete url token op items q limit c :
  detect_strategy op = Some Offset -> 0 <= limit -> 0 < page_size_from_query q -> HARD_PAGE_CAP * page_size_from_query q < 2 ^ 64 ->
  let size := Z.to_nat (page_size_from_query q) in
  serves_listing url token q items size ->
  exists c' v n, fetch_all_pages url token op (listing_page items size 0) q limit c = (Ok v, c') /\
    extract_data_array v = Some (take (Z.to_nat (effective_page_limit limit) * size) items) /\
    sent c' = sent c ++ map (fun k => offset_request url token q (k * size)) (seq 1 n) /\ (n <= 99)%nat.
Proof.
  intros Hop Hlimit Hsize Hfit size Hserve. unfold fetch_all_pages. rewrite listing_next, Hop, Nat.add_0_l.
  set (l := mk_listing url token q Offset (page_size_from_query q) limit).
  pose proof (most_range l Hlimit) as Hmost. change (Z.to_nat (effective_page_limit limit)) with (most l).
  destruct (Nat.ltb_spec size (length items)) as [Hmore|Hall].
  - set (npages := ((length items + size - 1) / size)%nat). set (m := Nat.min (most l) npages).
    assert (Hs : (0 < size)%nat) by lia.
    assert (Hn : forall i, (i < npages)%nat <-> (i * size < length items)%nat).
    { intros i. unfold npages. pose proof (Nat.div_mod_eq (length items + size - 1) size) as Hd.
      pose proof (Nat.mod_upper_bound (length items + size - 1) size ltac:(lia)) as Hu.
      set (d := ((length items + size - 1) / size)%nat) in *. split; intros Hi; nia. }
    set (pages := fun k => listing_page items size (k * size)).
    assert (Hq : forall k, (k < most l)%nat -> page_request l (query_of l pages k) = offset_request url token q (k * size)).
    { intros k Hk. unfold page_request, query_of, offset_request, build_next_query. simpl. do 4 f_equal.
      unfold as_u64. rewrite Z.mod_small; unfold HARD_PAGE_CAP, size in *; nia. }
    assert (Hnx : forall k, extract_next_cursor (pages k) = if Nat.ltb (S k) npages then Some "more" else None).
    { intros k. unfold pages. rewrite listing_next. replace (k * size + size)%nat with (S k * size)%nat by lia.
      destruct (Nat.ltb_spec (S k * size) (length items)), (Nat.ltb_spec (S k) npages); try done; specialize (Hn (S k)); lia. }
    assert (H1 : (1 < npages)%nat) by (apply Hn; lia).
    destruct (paginate_loop_collects l pages m 1 (page_fuel l) c) as (c' & Hrun & Hsent).
    { done. } { lia. } { lia. } { unfold page_fuel, most in *. simpl in *. lia. }
    { intros i Hi. split.
      - intros n. rewrite Hq by lia. apply Hserve. apply Hn. lia.
      - unfold data_of, pages. rewrite listing_data. simpl. intros He%(f_equal length). simpl in He. rewrite length_take, length_drop in He.
        specialize (Hn i). lia. }
    { intros i Hi. rewrite Hnx. destruct (Nat.ltb_spec (S (i - 1)) npages); [done|lia]. }
    { destruct (decide (m = most l)); [by left|right]. rewrite Hnx. destruct (Nat.ltb_spec (S (m - 1)) npages); [lia|done]. }
    { lia. }
    rewrite Hnx in Hrun. replace (Nat.ltb (S (1 - 1)) npages) with true in Hrun by (symmetry; apply Nat.ltb_lt; lia).
    assert (Hc1 : collected pages 1 = default [] (extract_data_array (listing_page items size 0))) by apply app_nil_r.
    rewrite Hc1 in Hrun. eexists c', _, (m - 1)%nat. split_and!.
    + exact Hrun.
    + change (extract_data_array (build_merged_response ?a ?b)) with (Some a). unfold collected, data_of, pages. simpl.
      f_equal. rewrite windows_collect. unfold m. destruct (Nat.min_spec (most l) npages) as [[_ ->]|[Hle ->]]; [done|].
      assert (Hlen : (length items <= npages * size)%nat) by (specialize (Hn npages); lia). assert (length items <= most l * size)%nat by nia.
      by rewrite !take_ge.
    + rewrite Hsent. f_equal. apply map_ext_in. intros k Hk%in_seq. apply Hq. unfold m in Hk. lia.
    + unfold m. lia.
  - eexists c, _, 0%nat. split_and!; [reflexivity| |by rewrite app_nil_r|lia]. rewrite listing_data. simpl. f_equal.
    assert (length items <= most l * size)%nat .
    { transitivity (1 * size)%nat; [lia|]. apply Nat.mul_le_mono_r. lia. }
    by rewrite !take_ge.
Qed.
End listing.

(** * An example *)

#[local] Instance example_json : JsonText := bits_json_text.

Definition example_items : list value := [Str "ada"; Str "bob"; Str "cyd"].

Definition example_page (q : list (string * string)) : value :=
  match query_get "offset" q with
  | Some "1" => listing_page example_items 2 1
  | Some "2" => listing_page example_items 2 2
  | _ => listing_page example_items 2 0
  end.

(** A server of three items. *)
#[local] Instance example_server : Transport := {|
  Net := unit;
  exchange r n := (Ok (mk_raw_response 200 (Some "application/json") None (Ok (to_vec (example_page (query r))))), n);
  open_file _ _ := Ok tt;
  file_length _ _ := None;
  stdout_tty _ := false;
  write_stdout _ n := (Ok tt, n);
  write_file _ _ n := (Ok tt, n)
|}.

Definition example_parameter (name : string) : ParameterSchema := mk_parameter name InQuery false VInteger false None None.

Definition example_list : OperationSchema :=
  mk_operation "ListUsers" "list" EmptyString None ReadOnly Get "/users" [example_parameter "offset"; example_parameter "limit"] None None [] "admin" 1
    false None.

Definition example_query : list (string * string) := [("limit", "2")].
Definition example_conn : Conn := mk_conn tt [] [].

Lemma example_serves : serves_listing "/users" "t" example_query example_items 2.
Proof.
  intros offset [] Ho. destruct offset as [|[|[|offset]]]; [| | |simpl in Ho; lia];
  (eexists _, tt, _; split_and!; [reflexivity|reflexivity|vm_compute; reflexivity|vm_compute; reflexivity]).
Qed.

Lemma pagination_complete_witness :
  exists c' v n, fetch_all_pages "/users" "t" example_list (listing_page example_items 2 0) example_query 0 example_conn = (Ok v, c') /\
    extract_data_array v = Some example_items /\
    sent c' = map (fun k => offset_request "/users" "t" example_query (k * 2)) (seq 1 n) /\ (n <= 99)%nat.
Proof.
  apply (pagination_complete "/users" "t" example_list example_items example_query 0 example_conn); try reflexivity.
  apply example_serves.
Defined.

(** An [offset] of the user's own is forgotten: the second page is asked for at one page
    from the start, not after the first page shown. *)
Lemma offset_restarts :
  build_next_query [("limit", "50"); ("offset", "200")] Offset "more" 1 (page_size_from_query [("limit", "50"); ("offset", "200")]) =
  [("limit", "50"); ("offset", "50")].
Proof. vm_compute. reflexivity. Qed.
