(* ===== verification/ErrorCodes.v ===== *)
(** The curated messages of error codes ([dispatch/error_codes/], one table per service)
    and the names of the services ([catalogue/manifest.rs]). The rows are the arms of the
    source's [match]es, in their order. *)

From stdpp Require Import base list strings.
From Stdlib Require Import ZArith.
From S2P Require Import Prelude Text.

(** A curated mapping. *)
Record ErrorMapping : Type := mk_mapping {
  mapping_message : string;
  mapping_reason : option string;
  mapping_suggestion : option string;
  mapping_tip : option string
}.

Definition error_table : Type := list (list Z * ErrorMapping).

(** The first arm with the code. *)
Definition find_code (table : error_table) (code : Z) : option ErrorMapping :=
  option_map snd (List.find (fun row => existsb (Z.eqb code) row.1) table).

Definition iam_codes_10130 : error_table := [
  ([10130], mk_mapping "User is under the minimum age" (Some "The user does not meet the age requirement for this namespace.") (Some "Check the namespace age restriction settings.") None);
  ([10131], mk_mapping "Invalid date of birth" (Some "The date of birth format or value is invalid.") (Some "Provide a valid date of birth.") None);
  ([10132], mk_mapping "Invalid email address" (Some "The email address format is not valid.") (Some "Provide a valid email address.") None);
  ([10133], mk_mapping "Email address already in use" (Some "Another account is already registered with this email.") (Some "Use a different email address or recover the existing account.") None);
  ([10136], mk_mapping "Verification code already used or invalid" (Some "The code has been consumed or was never valid.") (Some "Request a new verification code and retry.") None);
  ([10137], mk_mapping "Verification code expired" (Some "The code is no longer valid.") (Some "Request a new verification code and retry.") None);
  ([10138], mk_mapping "Verification code does not match" (Some "The provided code does not match the expected value.") (Some "Check the code and retry, or request a new one.") None);
  ([10139], mk_mapping "Platform account not found" (Some "The specified platform account does not exist for this user.") (Some "Run 'ags iam users get-platform-accounts --userId <id>' to see linked platforms.") None);
  ([10140], mk_mapping "User is already verified" (Some "The user account has already been verified.") None (Some "No further action needed."));
  ([10141], mk_mapping "Email is already verified" (Some "The email address has already been verified.") None (Some "No further action needed."));
  ([10142], mk_mapping "New password cannot be the same as the current password" (Some "The new password must differ from the existing one.") (Some "Choose a different password.") None);
  ([10143], mk_mapping "Password does not match" (Some "The provided password is incorrect.") (Some "Check the password and retry.") None);
  ([10144], mk_mapping "User has no bans" (Some "No ban records exist for this user.") None None);
  ([10145], mk_mapping "Cannot ban a publisher user from game access" (Some "Publisher users cannot be banned at the game namespace level.") (Some "Manage publisher user bans in the publisher namespace.") None);
  ([10146], mk_mapping "User ID does not match" (Some "The user ID in the request does not match the authenticated user.") (Some "Verify the user ID and retry.") None);
  ([10148], mk_mapping "Verification code context does not match" (Some "The verification code was issued for a different context.") (Some "Request a new code for this specific operation.") None);
  ([10149], mk_mapping "Verification contact type does not match" (Some "The code was sent to a different contact type than expected.") (Some "Request a new code using the correct contact method.") None);
  ([10152], mk_mapping "Verification code not found" (Some "No verification code exists for this request.") (Some "Request a new verification code.") None);
  ([10153], mk_mapping "User already exists" (Some "An account with these details already exists.") (Some "Use a different identifier or recover the existing account.") None);
  ([10154], mk_mapping "Country not found" (Some "The specified country code is not recognized.") (Some "Check the country code and retry.") (Some "Use standard ISO 3166-1 alpha-2 country codes."));
  ([10155], mk_mapping "Country is not defined" (Some "The country is not configured for this namespace.") (Some "Check the namespace configuration.") None);
  ([10156], mk_mapping "Role not found" (Some "The specified role does not exist.") (Some "Run 'ags iam roles list' to see available roles.") None)].

Definition iam_codes_10157 : error_table := [
  ([10157], mk_mapping "Not an admin role" (Some "The specified role is not an admin role.") (Some "Use an admin role for this operation.") None);
  ([10158], mk_mapping "Ban not found" (Some "The specified ban does not exist.") None None);
  ([10159], mk_mapping "Not a role manager" (Some "Your account is not a manager of this role.") (Some "Contact a role manager to perform this operation.") None);
  ([10160], mk_mapping "User already has this role" (Some "The role is already assigned to this user.") None (Some "No further action needed."));
  ([10161], mk_mapping "User is already a role member" (Some "The user is already a member of this role.") None (Some "No further action needed."));
  ([10162], mk_mapping "Invalid verification" (Some "The verification attempt is invalid.") (Some "Request a new verification code and retry.") None);
  ([10163], mk_mapping "Platform already linked to this account" (Some "This platform is already associated with the user account.") None (Some "No further action needed."));
  ([10169], mk_mapping "Age restriction not found" (Some "No age restriction is configured for this namespace or country.") None None);
  ([10170], mk_mapping "Account is already a full account" (Some "This account has already been upgraded from headless.") None (Some "No further action needed."));
  ([10171], mk_mapping "Email address not found" (Some "No account is associated with this email address.") (Some "Check the email address and retry.") None);
  ([10172], mk_mapping "Platform user already linked to this account" (Some "This platform identity is already linked to the account.") None (Some "No further action needed."));
  ([10173], mk_mapping "Platform already linked to another account" (Some "This platform identity is linked to a different account.") (Some "Unlink the platform from the other account first, or use a different platform identity.") None);
  ([10174], mk_mapping "Platform client not found" (Some "The platform client configuration does not exist.") (Some "Check the platform ID and namespace.") None);
  ([10175], mk_mapping "Third-party credential not found" (Some "The third-party platform credential does not exist.") (Some "Check the platform ID and configuration.") None);
  ([10177], mk_mapping "Username already in use" (Some "Another account is already using this username.") (Some "Choose a different username.") None);
  ([10180], mk_mapping "Admin invitation not found or expired" (Some "The invitation does not exist or has expired.") (Some "Request a new admin invitation.") None);
  ([10182], mk_mapping "Namespace cannot be assigned to this role" (Some "The specified namespace is not allowed for this role.") (Some "Check the role's allowed namespaces.") None);
  ([10183], mk_mapping "Unprocessable entity" (Some "The request could not be processed.") (Some "Check the request fields and retry.") None);
  ([10185], mk_mapping "Publisher namespace not allowed" (Some "This operation cannot be performed in a publisher namespace.") (Some "Use a game namespace instead.") None);
  ([10188], mk_mapping "Input validation field not found" (Some "The validation rule for the specified field does not exist.") (Some "Check the field name and retry.") None);
  ([10189], mk_mapping "Invalid MFA factor" (Some "The specified MFA factor is not valid.") (Some "Use a supported factor (e.g., email, authenticator).") None);
  ([10190], mk_mapping "Auth secret key expired" (Some "The authenticator secret key has expired.") (Some "Generate a new secret key.") None);
  ([10191], mk_mapping "Email address not verified" (Some "This operation requires a verified email address.") (Some "Verify the email address first, then retry.") (Some "MFA operations require email verification."))].

Definition iam_codes_10192 : error_table := [
  ([10192], mk_mapping "MFA factor not enabled" (Some "The specified MFA factor is not enabled for this account.") (Some "Enable the factor first, then retry.") None);
  ([10193], mk_mapping "MFA not enabled" (Some "Multi-factor authentication is not enabled for this account.") (Some "Enable MFA first.") None);
  ([10194], mk_mapping "MFA factor already enabled" (Some "The specified MFA factor is already active.") None (Some "No further action needed."));
  ([10195], mk_mapping "No valid backup codes found" (Some "All backup codes have been used or none were generated.") (Some "Generate new backup codes.") None);
  ([10200], mk_mapping "Cannot link to a different platform account" (Some "Changing the linked platform account is not allowed.") None (Some "The previously linked platform account is returned in the response."));
  ([10202], mk_mapping "Device ban configuration already exists" (Some "An active device ban config already exists for this combination.") None None);
  ([10204], mk_mapping "Device cannot be banned" (Some "This device is not eligible for banning.") None None);
  ([10207], mk_mapping "User namespace is not available" (Some "The namespace for this user is not available.") None None);
  ([10208], mk_mapping "Platform token expired" (Some "The platform authentication token has expired.") (Some "Re-authenticate with the platform and retry.") None);
  ([10213], mk_mapping "Country is blocked" (Some "Access from this country is restricted.") None None);
  ([10215], mk_mapping "Simultaneous ticket is required" (Some "A simultaneous platform ticket must be provided.") (Some "Provide both native and simultaneous platform tickets.") None);
  ([10216], mk_mapping "Native ticket is required" (Some "A native platform ticket must be provided.") (Some "Provide both native and simultaneous platform tickets.") None);
  ([10217; 10218; 10219; 10220; 10221], mk_mapping "Platform account linking conflict" (Some "The platform accounts have conflicting linking histories.") (Some "Check existing platform links before retrying.") None);
  ([10222], mk_mapping "Display name already in use" (Some "Another account is using this unique display name.") (Some "Choose a different display name.") None);
  ([10226], mk_mapping "Third-party platform not supported" (Some "The specified platform is not supported.") (Some "Check the list of supported platforms.") None);
  ([10228], mk_mapping "Invalid MFA token" (Some "The MFA token is invalid or expired.") (Some "Request a new MFA token and retry.") None);
  ([10229], mk_mapping "Request body exceeds size limit" (Some "The request payload is too large.") (Some "Reduce the request body size and retry.") None);
  ([10235], mk_mapping "Date of birth cannot be updated" (Some "Updating the date of birth is not allowed.") None None);
  ([10236], mk_mapping "Username cannot be updated" (Some "Updating the username is not allowed.") None None);
  ([10237], mk_mapping "Display name cannot be updated" (Some "Updating the display name is not allowed.") None None);
  ([10238], mk_mapping "Country cannot be updated" (Some "Updating the country is not allowed.") None None);
  ([10240], mk_mapping "Not a game namespace" (Some "This operation requires a game namespace.") (Some "Use a game namespace, not a publisher namespace.") None)].

Definition iam_codes_10364 : error_table := [
  ([10364], mk_mapping "Client already exists" (Some "A client with this ID already exists.") (Some "Use a different client ID.") None);
  ([10365], mk_mapping "Client not found" (Some "The specified client does not exist.") (Some "Check the client ID and retry.") None);
  ([10456], mk_mapping "Role not found" (Some "The specified role does not exist.") (Some "Run 'ags iam roles list' to see available roles.") None);
  ([10457], mk_mapping "Not an admin role" (Some "The specified role is not an admin role.") (Some "Use an admin role for this operation.") None);
  ([10459], mk_mapping "Not a role manager" (Some "Your account is not a manager of this role.") (Some "Contact a role manager to perform this operation.") None);
  ([10466], mk_mapping "Invalid role members" (Some "The role member list is invalid.") (Some "Check the member list and retry.") None);
  ([10467], mk_mapping "Role has no manager" (Some "The role does not have an assigned manager.") (Some "Assign a manager to the role first.") None);
  ([10468], mk_mapping "Role manager already exists" (Some "This user is already a manager of the role.") None (Some "No further action needed."));
  ([10469], mk_mapping "Role member already exists" (Some "This user is already a member of the role.") None (Some "No further action needed."));
  ([10470], mk_mapping "Role is empty" (Some "The role has no members or permissions configured.") (Some "Add members or permissions to the role.") None);
  ([1014001], mk_mapping "Unable to parse request body" (Some "The request body format is invalid.") (Some "Check the JSON body and retry.") None);
  ([1014002], mk_mapping "User already exists" (Some "An account with these details already exists.") (Some "Use a different identifier or recover the existing account.") None);
  ([1014016], mk_mapping "Unable to parse request body" (Some "The request body format is invalid.") (Some "Check the JSON body and retry.") None);
  ([1014017], mk_mapping "User not found" (Some "The user does not exist or is not accessible in this context.") (Some "Run 'ags iam users search' to see available users.") None);
  ([1014018], mk_mapping "Verification code not found" (Some "No verification code exists for this request.") (Some "Request a new verification code.") None);
  ([1014019], mk_mapping "Verification code already used" (Some "The code has already been consumed.") (Some "Request a new verification code and retry.") None);
  ([1014020], mk_mapping "Verification code invalid" (Some "The provided code is not valid.") (Some "Check the code and retry, or request a new one.") None);
  ([1014021], mk_mapping "Verification code expired" (Some "The code is no longer valid.") (Some "Request a new verification code and retry.") None);
  ([1015073], mk_mapping "New password cannot be the same as the old password" (Some "The new password must differ from the existing one.") (Some "Choose a different password.") None);
  ([1094028], mk_mapping "Invalid user mapping request" (Some "The target namespace is invalid or the user has no mapping.") (Some "Check that the target namespace exists and the user has a mapping to it.") None)].

Definition iam_codes : error_table := iam_codes_10130 ++ iam_codes_10157 ++ iam_codes_10192 ++ iam_codes_10364.

Definition basic_codes : error_table := [
  ([11121], mk_mapping "Category is not valid" (Some "The supplied file category is not recognised.") (Some "Use one of the supported file categories.") None);
  ([11131], mk_mapping "File type is not supported" (Some "The uploaded file type is not allowed.") (Some "Use a supported file type.") None);
  ([11132], mk_mapping "File storage limit exceeded" (Some "The user has exceeded the namespace's file storage quota.") (Some "Delete unused files or contact an administrator to increase the quota.") None);
  ([11233], mk_mapping "Country group not found" (Some "No country group exists with the supplied code.") (Some "Run 'ags basic country-groups list' to see configured groups.") None);
  ([11234], mk_mapping "Country is already in another country group" (Some "A country cannot belong to more than one country group at a time.") (Some "Remove the country from its current group before adding it to a new one.") None);
  ([11235], mk_mapping "Country group already exists" (Some "A country group with the supplied code is already configured.") (Some "Use a different code or update the existing group.") None);
  ([11336], mk_mapping "Namespace already exists" (Some "A namespace with this identifier is already configured.") (Some "Use a different namespace name.") None);
  ([11337], mk_mapping "Namespace not found" (Some "The specified namespace does not exist.") (Some "Run 'ags basic namespaces list' to see available namespaces.") None);
  ([11338], mk_mapping "Namespace contains invalid characters" (Some "Namespace names allow only a restricted character set.") (Some "Use only alphanumeric characters and hyphens.") None);
  ([11339], mk_mapping "Display name contains invalid characters" (Some "The display name uses characters that are not allowed.") (Some "Remove special characters and retry.") None);
  ([11340], mk_mapping "Game namespace limit reached for this studio" (Some "The studio has hit its maximum number of game namespaces.") (Some "Delete an unused game namespace, or contact AccelByte to raise the limit.") None);
  ([11440], mk_mapping "User profile not found in this namespace" (Some "The user has no profile in the requested namespace.") (Some "Create the profile first, or check the userId and namespace.") None);
  ([11441], mk_mapping "User profile already exists" (Some "A profile already exists for this user in this namespace.") (Some "Update the existing profile instead of creating a new one.") None);
  ([11469], mk_mapping "User profile not found by public ID" (Some "No profile matches the supplied publicId in this namespace.") (Some "Verify the publicId and namespace, then retry.") None);
  ([11741], mk_mapping "Config not found" (Some "The requested namespace config entry does not exist.") (Some "Run 'ags basic config list' to see configured entries.") None);
  ([11771], mk_mapping "Config already exists" (Some "A config entry with this key is already set.") (Some "Update the existing config or use a different key.") None)].

Definition social_codes_12021 : error_table := [
  ([12021], mk_mapping "Too many users in a single bulk request" (Some "The request exceeds the per-call user limit.") (Some "Reduce the number of users per request and retry.") None);
  ([12022], mk_mapping "Game profile attribute name mismatch" (Some "The attribute name in the URL does not match the body.") (Some "Use the same attribute name in the URL and the request body.") None);
  ([12041], mk_mapping "Game profile not found" (Some "No game profile exists with the supplied ID.") (Some "Verify the profile ID and retry.") None);
  ([12121], mk_mapping "Slot file checksum mismatch" (Some "The uploaded file did not match the expected checksum.") (Some "Re-upload the file to ensure data integrity.") None);
  ([12122], mk_mapping "Slot file exceeds the upload size limit" (Some "The file is larger than the configured slot limit.") (Some "Reduce the file size, or contact an administrator to raise the limit.") None);
  ([12141], mk_mapping "Slot not found" (Some "The specified slot does not exist in this namespace.") (Some "Verify the slot ID and namespace, then retry.") None);
  ([12171], mk_mapping "User slot count limit exceeded" (Some "The user has reached the maximum number of slots allowed.") (Some "Delete an unused slot, or raise the per-user slot limit in the namespace config.") None);
  ([12221], mk_mapping "Invalid stat operator" (Some "The stat operator is not valid for this stat configuration.") (Some "Use an operator that matches the stat's configured update strategy.") None);
  ([12222], mk_mapping "Invalid stats data for namespace" (Some "The supplied stats data does not match the namespace configuration.") (Some "Check the stat codes and value types against the namespace configuration.") None);
  ([12223], mk_mapping "Invalid stat codes for namespace" (Some "One or more stat codes are not configured in this namespace.") (Some "Run 'ags social stat-definitions list' to see configured stat codes.") None);
  ([12225], mk_mapping "Invalid time range" (Some "The supplied time range is invalid.") (Some "Ensure the start time precedes the end time and both are in ISO-8601 format.") None);
  ([12226], mk_mapping "Invalid date for the specified month" (Some "The day-of-month is out of range for the supplied month.") (Some "Provide a valid calendar date and retry.") None);
  ([12241], mk_mapping "Stat not found in this namespace" (Some "The specified stat is not configured.") (Some "Run 'ags social stat-definitions list' to see configured stats.") None);
  ([12242], mk_mapping "Stat item not found for this user" (Some "The user has no recorded value for the requested stat.") (Some "Submit an initial value for the stat first.") None);
  ([12243], mk_mapping "Stats not found in this namespace" (Some "No stats are configured in this namespace.") (Some "Configure stats for this namespace before querying them.") None);
  ([12244], mk_mapping "Global stat item not found" (Some "The requested global stat item does not exist in this namespace.") (Some "Verify the stat code and namespace, then retry.") None);
  ([12245], mk_mapping "Stat cycle not found" (Some "The specified stat cycle does not exist.") (Some "Run 'ags social stat-cycles list' to see configured cycles.") None);
  ([12271], mk_mapping "Stat template already exists" (Some "A stat template with this code is already configured.") (Some "Use a different code, or update the existing template.") None);
  ([12273], mk_mapping "Stat is not decreasable" (Some "This stat is configured as monotonically increasing.") (Some "Use an operator that does not decrease the value, or reconfigure the stat.") None);
  ([12274], mk_mapping "Stat item already exists for this user" (Some "The user already has a recorded value for this stat.") (Some "Update the existing stat item instead of creating a new one.") None);
  ([12275], mk_mapping "Stat value is out of allowed range" (Some "The supplied value is below the minimum or above the maximum configured for this stat.") (Some "Submit a value within the configured min/max bounds.") None);
  ([12276], mk_mapping "Stat cannot be deleted while in INIT status" (Some "Stats in the INIT lifecycle state cannot be deleted.") (Some "Advance the stat past INIT before attempting to delete.") None)].

Definition social_codes_12277 : error_table := [
  ([12277], mk_mapping "Stat cycle cannot be updated in its current status" (Some "The cycle's lifecycle state does not permit updates.") (Some "Wait for the cycle to reach an updatable state, or use a different cycle.") None);
  ([12279], mk_mapping "Invalid stat cycle status for this operation" (Some "The cycle is not in a state that permits this operation.") (Some "Check the cycle's current status before retrying.") None)].

Definition social_codes : error_table := social_codes_12021 ++ social_codes_12277.

Definition cloudsave_codes_18003 : error_table := [
  ([18003; 18022; 18081; 18122; 18133; 18140; 18152; 18167; 18171; 18177; 18186; 18303; 18313; 18317; 18322; 18325; 18333; 18338; 18340; 18361], mk_mapping "Cloudsave record not found" (Some "No record exists for the supplied key, namespace, or user.") (Some "Verify the key/namespace/user and retry.") None);
  ([18011; 18030; 18050; 18060; 18083; 18090; 18100; 18113; 18125; 18128; 18134; 18144; 18149; 18150; 18156; 18159; 18168; 18174; 18184; 18304; 18305; 18311; 18316; 18326; 18327; 18332; 18342; 18347; 18350; 18353; 18408], mk_mapping "Cloudsave request is invalid" (Some "The request body or parameters did not pass validation.") (Some "Check the request payload and retry.") None);
  ([18064; 18102; 18181], mk_mapping "Cloudsave validation failed" (Some "The record contents did not pass schema validation.") (Some "Check the record against the configured schema and retry.") None);
  ([18015; 18052; 18356], mk_mapping "Request exceeds the allowed size limit" (Some "The total request payload is larger than Cloudsave permits.") (Some "Reduce the payload size and retry.") None);
  ([18136; 18146], mk_mapping "Record exceeds the allowed size limit" (Some "The individual record payload is larger than Cloudsave permits.") (Some "Reduce the record size and retry.") None);
  ([18126; 18129; 18169; 18175; 18351], mk_mapping "Record key list exceeds the size limit" (Some "The list of keys in this bulk request is too long.") (Some "Split the keys across multiple requests.") None);
  ([18354], mk_mapping "Too many records in a single request" (Some "The request exceeds the per-call record limit.") (Some "Reduce the number of records per request and retry.") None);
  ([18056; 18066; 18103; 18180; 18183], mk_mapping "Cloudsave record changed since you fetched it" (Some "The record was modified concurrently by another caller.") (Some "Fetch the latest version and retry your update.") None);
  ([18023; 18035; 18063; 18072], mk_mapping "Cannot access another user's record" (Some "This action is not permitted on records belonging to other users.") (Some "Use a record key that belongs to the requesting user, or use the admin endpoint.") None);
  ([18309; 18330], mk_mapping "Cloudsave key already exists" (Some "A record with this key already exists in this namespace.") (Some "Use a different key, or update the existing record instead.") None);
  ([18001; 18020; 18080; 18084; 18124; 18130; 18139; 18151; 18170; 18176; 18185; 18301; 18312; 18323; 18339; 18343; 18349], mk_mapping "Cloudsave was unable to read the record" (Some "The server failed to retrieve the requested record.") (Some "Retry the command.") (Some "If this persists, contact AccelByte support."));
  ([18013; 18033; 18091; 18307; 18328], mk_mapping "Cloudsave was unable to save the record" (Some "The server failed to persist the record.") (Some "Retry the command.") (Some "If this persists, contact AccelByte support."));
  ([18053; 18061; 18065; 18101; 18147; 18182; 18318; 18334; 18362], mk_mapping "Cloudsave was unable to update the record" (Some "The server failed to apply the update.") (Some "Retry the command.") (Some "If this persists, contact AccelByte support."));
  ([18040; 18070; 18120; 18142; 18154; 18320; 18336], mk_mapping "Cloudsave was unable to delete the record" (Some "The server failed to delete the record.") (Some "Retry the command.") (Some "If this persists, contact AccelByte support."));
  ([18012; 18051; 18135; 18145; 18355], mk_mapping "Cloudsave was unable to encode the record" (Some "The server could not serialise the record payload.") (Some "Check that the record contents are valid JSON and retry.") None);
  ([18005; 18006; 18131; 18138; 18157; 18162; 18163; 18164; 18165; 18172; 18178; 18187], mk_mapping "Cloudsave was unable to decode the record" (Some "The stored record could not be parsed.") (Some "The record may be corrupt — inspect or re-create it.") (Some "If this persists, contact AccelByte support."));
  ([18004; 18114; 18160; 18345], mk_mapping "Cloudsave was unable to list records" (Some "The server failed to retrieve the record list.") (Some "Retry the command.") (Some "If this persists, contact AccelByte support."));
  ([18310; 18314; 18331], mk_mapping "Cloudsave was unable to issue a presigned URL" (Some "The server failed to generate a presigned upload/download URL.") (Some "Retry the command.") (Some "If this persists, contact AccelByte support."))].

Definition cloudsave_codes_18401 : error_table := [
  ([18401], mk_mapping "Plugin configuration is invalid" (Some "The supplied plugin configuration did not pass validation.") (Some "Check the plugin payload and retry.") None);
  ([18402], mk_mapping "Plugin already configured" (Some "A plugin configuration already exists for this namespace.") (Some "Update the existing configuration instead of creating a new one.") None);
  ([18404; 18406; 18409], mk_mapping "Cloudsave plugin configuration not found" (Some "No plugin configuration exists for this namespace.") (Some "Configure the plugin first, then retry.") None);
  ([18502], mk_mapping "Cloudsave was unable to list tags" (Some "The server failed to retrieve the tag list.") (Some "Retry the command.") (Some "If this persists, contact AccelByte support."));
  ([18503], mk_mapping "Tag list request is invalid" (Some "The tag listing parameters did not pass validation.") (Some "Check the request parameters and retry.") None);
  ([18505], mk_mapping "Tag request is invalid" (Some "The supplied tag did not pass validation.") (Some "Check the tag value and retry.") None);
  ([18506], mk_mapping "Tag already exists" (Some "A tag with this name is already configured.") (Some "Use a different tag name.") None);
  ([18507], mk_mapping "Cloudsave was unable to create the tag" (Some "The server failed to persist the tag.") (Some "Retry the command.") (Some "If this persists, contact AccelByte support."));
  ([18509], mk_mapping "Cloudsave was unable to delete the tag" (Some "The server failed to delete the tag.") (Some "Retry the command.") (Some "If this persists, contact AccelByte support."));
  ([18510], mk_mapping "Tag not found" (Some "No tag exists with the supplied name.") (Some "Run 'ags cloudsave tags list' to see configured tags.") None);
  ([18201], mk_mapping "Invalid record operator" (Some "The supplied record operator is not recognised.") (Some "Use a supported operator (e.g., $set, $inc).") None)].

Definition cloudsave_codes : error_table := cloudsave_codes_18003 ++ cloudsave_codes_18401.

Definition leaderboard_codes : error_table := [
  ([71130], mk_mapping "Leaderboard configuration not found" (Some "No leaderboard configuration matches the request.") (Some "Run 'ags leaderboard configurations list' to see configured leaderboards.") None);
  ([71132], mk_mapping "Leaderboard configuration already exists" (Some "A leaderboard with this code is already configured.") (Some "Use a different leaderboard code, or update the existing configuration.") None);
  ([71133], mk_mapping "Leaderboard configuration has been deleted" (Some "The configuration is in a deleted state and cannot be used.") (Some "Restore the configuration or create a new one.") None);
  ([71230], mk_mapping "Leaderboard configuration not found" (Some "The requested leaderboard configuration does not exist.") (Some "Run 'ags leaderboard configurations list' to see configured leaderboards.") None);
  ([71233], mk_mapping "User ranking data not found" (Some "No ranking entry exists for this user on the requested leaderboard.") (Some "Confirm the user has submitted a score for this leaderboard.") None);
  ([71235], mk_mapping "Leaderboard ranking not found" (Some "No ranking data exists for this leaderboard.") (Some "Verify the leaderboard code and that scores have been submitted.") None);
  ([71236], mk_mapping "Leaderboard ranking count failed" (Some "The server failed to compute the ranking count.") (Some "Retry the command.") (Some "If this persists, contact AccelByte support."));
  ([71237], mk_mapping "Leaderboard is inactive — no ranking is generated" (Some "Rankings are not produced for inactive leaderboards.") (Some "Activate the leaderboard before requesting rankings.") None);
  ([71239], mk_mapping "Leaderboard is not archived" (Some "The operation requires the leaderboard to be in an archived state.") (Some "Archive the leaderboard first.") None);
  ([71241], mk_mapping "Operation forbidden in this environment" (Some "This action is not allowed for the current environment.") (Some "Run the command in the correct environment (e.g., dev/staging/live).") None);
  ([71242], mk_mapping "Stat code not found in this namespace" (Some "The leaderboard references a stat code that does not exist.") (Some "Run 'ags social stat-definitions list' to see configured stats.") None);
  ([71243], mk_mapping "Cycle does not belong to this stat code" (Some "The supplied stat cycle is not associated with the leaderboard's stat code.") (Some "Use a cycle that matches the leaderboard's stat code.") None);
  ([71244], mk_mapping "Stat cycle is already stopped" (Some "This cycle has already been stopped and cannot be stopped again.") None (Some "No further action needed."))].

Definition group_codes : error_table := [
  ([73034], mk_mapping "User does not belong to any group" (Some "The user is not a member of any group in this namespace.") (Some "Have the user join a group first.") None);
  ([73036], mk_mapping "Insufficient member role permission" (Some "The user's group role does not permit this operation.") (Some "Have a group admin or higher-privileged role perform this action.") None);
  ([73130], mk_mapping "Global group configuration already exists" (Some "A global configuration is already set for this namespace.") (Some "Update the existing configuration instead of creating a new one.") None);
  ([73131], mk_mapping "Global group configuration not found" (Some "No global configuration is set for this namespace.") (Some "Initialise the global configuration first.") None);
  ([73232], mk_mapping "Group member role not found" (Some "The specified member role does not exist.") (Some "Run 'ags group member-roles list' to see available roles.") None);
  ([73333], mk_mapping "Group not found" (Some "The specified group does not exist in this namespace.") (Some "Run 'ags group groups list' to see available groups.") None);
  ([73342], mk_mapping "User has already joined this group" (Some "The user is already a member of the group.") None (Some "No further action needed."));
  ([73433], mk_mapping "Group member not found" (Some "The user is not a member of the requested group.") (Some "Verify the user ID and group, then retry.") None);
  ([73437], mk_mapping "User has already been invited" (Some "An invitation for this user is already pending.") None (Some "Wait for the user to accept or decline the existing invitation."));
  ([73438], mk_mapping "User has already requested to join" (Some "A join request from this user is already pending.") None (Some "Approve or decline the existing request."));
  ([73440], mk_mapping "Group admin cannot leave the group" (Some "Admins must transfer ownership or disband before leaving.") (Some "Promote another member to admin first, or delete the group.") None);
  ([73442], mk_mapping "User is already a member of another group" (Some "The user can only belong to one group at a time.") (Some "Have the user leave their current group before joining a new one.") None);
  ([73443], mk_mapping "Group join request not found" (Some "No pending join request matches this user and group.") (Some "Verify the user ID and group, then retry.") None);
  ([73444], mk_mapping "Group member must have a role" (Some "Members cannot exist without an assigned role.") (Some "Assign a role when adding the member.") None)].

Definition platform_codes_20016 : error_table := [
  ([20016], mk_mapping "Action is banned for this user" (Some "This user is banned from performing the action.") (Some "Check the user's ban status before retrying.") None);
  ([20024], mk_mapping "Insufficient inventory capacity" (Some "The user has reached the maximum number of inventory slots.") (Some "Free up inventory slots, or raise the per-user slot cap in the namespace config.") None);
  ([20027], mk_mapping "Invalid time range" (Some "The supplied start/end time range is not valid.") (Some "Ensure the start time precedes the end time and both are in ISO-8601 format.") None);
  ([30021], mk_mapping "Default language is required" (Some "The default language is missing from the catalog configuration.") (Some "Set a default language and retry.") None);
  ([30022], mk_mapping "Default region is required" (Some "The default region is missing from the catalog configuration.") (Some "Set a default region and retry.") None);
  ([30023], mk_mapping "Catalog plugin gRPC server address is required" (Some "The plugin endpoint is not configured.") (Some "Provide a gRPC server address for the catalog plugin.") None);
  ([30024], mk_mapping "Unable to parse CSV cell" (Some "A cell in the imported CSV could not be parsed.") (Some "Check the offending cell and retry the import.") None);
  ([30025], mk_mapping "Required CSV header is missing" (Some "The CSV import is missing a header required for this catalog type.") (Some "Add the required header column and retry the import.") None);
  ([30041], mk_mapping "Changelog not found" (Some "The specified changelog does not exist in this namespace.") (Some "Verify the changelog ID and retry.") None);
  ([30071], mk_mapping "Cannot unselect item — bound item is selected" (Some "Another item bound to this one is currently selected in the catalog.") (Some "Unselect the bound item first.") None);
  ([30072], mk_mapping "Cannot unselect category — items in it are selected" (Some "The category contains selected items.") (Some "Unselect items in this category before unselecting the category.") None);
  ([30073], mk_mapping "Cannot unselect store change" (Some "This store change is required by other selected changes.") (Some "Unselect the dependent changes first.") None);
  ([30074], mk_mapping "Cannot unselect subscription content while the subscription is selected" (Some "Subscription content is bound to a selected subscription.") (Some "Unselect the parent subscription first.") None);
  ([30076], mk_mapping "CSV header is not supported for this catalog type" (Some "The header is not valid for the supplied catalog type.") (Some "Remove the unsupported header and retry the import.") None);
  ([30121], mk_mapping "Store data is invalid" (Some "The supplied store payload did not pass validation.") (Some "Check the store payload and retry.") None);
  ([30122], mk_mapping "Item not found" (Some "The specified item does not exist in this namespace.") (Some "Verify the item ID and retry.") None);
  ([30143], mk_mapping "Published store backup not found" (Some "No backup exists for the requested published store.") (Some "Verify the store ID and retry.") None);
  ([30171], mk_mapping "Store default language cannot be changed" (Some "Changing the default language is not allowed for this store.") (Some "Create a new store with the desired default language.") None);
  ([30172], mk_mapping "Store default region cannot be changed" (Some "Changing the default region is not allowed for this store.") (Some "Create a new store with the desired default region.") None);
  ([30173], mk_mapping "Published store cannot be modified" (Some "The store is in a published state and is immutable.") (Some "Make changes to the draft store and republish.") None);
  ([30174], mk_mapping "Draft store already exists" (Some "A draft store already exists in this namespace.") (Some "Edit the existing draft, or publish it before creating a new draft.") None);
  ([30175], mk_mapping "Duplicate currency code in this region" (Some "Two prices use the same currency code for the same region.") (Some "Remove the duplicate currency entry.") None)].

Definition platform_codes_30241 : error_table := [
  ([30241], mk_mapping "Category not found" (Some "The specified category does not exist in this namespace.") (Some "Run 'ags platform categories list' to see configured categories.") None);
  ([30271], mk_mapping "Category already exists" (Some "A category with this path is already configured.") (Some "Use a different path, or update the existing category.") None);
  ([30272], mk_mapping "Category is not empty" (Some "The category still contains items.") (Some "Remove or move all items in the category before deleting it.") None);
  ([30301], mk_mapping "Unsupported item type for box item with expiration" (Some "The contained item type cannot be used inside an expiring box.") (Some "Remove the unsupported item from the box, or remove the expiration.") None);
  ([30321], mk_mapping "Invalid item discount amount" (Some "The discount value is out of range.") (Some "Use a non-negative discount that does not exceed the item price.") None);
  ([30322; 30325; 30326; 30334; 30339], mk_mapping "Item cannot be bundled" (Some "This item type is not allowed inside a bundle.") (Some "Remove the item from the bundle.") None);
  ([30323], mk_mapping "Target namespace is required" (Some "The operation requires a target namespace.") (Some "Provide a target namespace and retry.") None);
  ([30324], mk_mapping "Invalid namespace" (Some "The supplied namespace is not valid.") (Some "Use a configured namespace.") None);
  ([30327], mk_mapping "Invalid item trial price" (Some "The trial price configuration is invalid.") (Some "Check the trial price values and retry.") None);
  ([30329], mk_mapping "Invalid bundled item quantity" (Some "The quantity for a bundled item is not valid.") (Some "Use a positive integer quantity.") None);
  ([30330], mk_mapping "Invalid currency for region price" (Some "The currency is not allowed for this region price.") (Some "Use a currency that is configured for the namespace and region.") None);
  ([30331], mk_mapping "Invalid purchase condition" (Some "The purchase condition is not valid.") (Some "Check the purchase condition fields and retry.") None);
  ([30332], mk_mapping "Invalid option box item quantity" (Some "The option box item quantity is not valid.") (Some "Use a positive integer quantity.") None);
  ([30333; 30338], mk_mapping "Item cannot be added to this container type" (Some "The item type is not permitted inside this option box or loot box.") (Some "Remove the unsupported item from the container.") None);
  ([30335], mk_mapping "Published item cannot be deleted in non-forced mode" (Some "Deleting a published item requires the force flag.") (Some "Use --force to delete a published item, or unpublish it first.") None);
  ([30336], mk_mapping "Item type does not support this operation" (Some "The requested operation is not valid for this item type.") (Some "Use a supported item type, or perform a different operation.") None);
  ([30337], mk_mapping "Invalid loot box item quantity" (Some "The loot box item quantity is not valid.") (Some "Use a positive integer quantity.") None);
  ([30342], mk_mapping "Item with this app ID does not exist" (Some "No item maps to the supplied appId.") (Some "Verify the app ID and retry.") None);
  ([30343], mk_mapping "Item with this SKU does not exist" (Some "No item maps to the supplied SKU.") (Some "Verify the SKU and retry.") None);
  ([30371], mk_mapping "Item type config already exists" (Some "A config already exists for this item type and class.") (Some "Update the existing config instead of creating a new one.") None);
  ([30372], mk_mapping "Item type is not updatable" (Some "The item type cannot be modified once created.") None None);
  ([30373], mk_mapping "Item type is not allowed in this namespace" (Some "The item type is not enabled for the requested namespace.") (Some "Enable the item type in the namespace configuration first.") None)].

Definition platform_codes_30374 : error_table := [
  ([30374], mk_mapping "Item SKU already exists" (Some "Another item already uses this SKU.") (Some "Choose a unique SKU.") None);
  ([30375], mk_mapping "Item SKU conflicts with an unpublished deleted item" (Some "A deleted draft item still owns this SKU until the change is published.") (Some "Publish the deletion before reusing the SKU.") None);
  ([30376], mk_mapping "Sellback is not allowed in publisher namespaces" (Some "Items in a publisher namespace cannot be sold back.") (Some "Configure sellback in a game namespace.") None);
  ([30377], mk_mapping "Sellback is not allowed for this item type" (Some "This item type does not permit sellback.") None None);
  ([30378], mk_mapping "Sale price cannot use real currency" (Some "Sale prices must use virtual currency for this item.") (Some "Use a virtual currency for the sale price.") None);
  ([30379], mk_mapping "Item SKU is not updatable" (Some "Changing an item's SKU is not allowed.") None None);
  ([30380], mk_mapping "Box item cannot have both duration and end date" (Some "Set either a duration or an explicit end date, not both.") (Some "Use one of duration or endDate.") None);
  ([30381], mk_mapping "Currency is not configured for this region" (Some "The bundle item is missing a price for this currency/region pair.") (Some "Add the missing region price to the bundle item.") None);
  ([30382], mk_mapping "Duplicate item SKU" (Some "The same SKU is used by more than one item in the request.") (Some "Ensure SKUs are unique within the payload.") None);
  ([30383], mk_mapping "Item app ID already exists" (Some "Another item already uses this app ID in the namespace.") (Some "Choose a unique app ID.") None);
  ([30386; 30387], mk_mapping "Item is referenced by other resources" (Some "The item is in use by bundles, rewards, or other items.") (Some "Remove the references before deleting or disabling the item.") None);
  ([30541], mk_mapping "Item type config not found" (Some "The specified item type config does not exist.") (Some "Verify the config ID and retry.") None);
  ([30641], mk_mapping "View not found" (Some "The specified view does not exist in this namespace.") (Some "Run 'ags platform views list' to see configured views.") None);
  ([30741], mk_mapping "Section not found" (Some "The specified section does not exist in this namespace.") (Some "Run 'ags platform sections list' to see configured sections.") None);
  ([30771], mk_mapping "Item not found in user section" (Some "The item is not part of the user's section.") (Some "Verify the item, section, and user.") None);
  ([30772], mk_mapping "Section is not available or has expired" (Some "The section is outside its active time window.") (Some "Use a section that is currently active.") None);
  ([31121], mk_mapping "OptionBox entitlement use count must be 1" (Some "OptionBox entitlements support only a single use.") (Some "Use a use count of 1 for this entitlement.") None);
  ([31122], mk_mapping "OptionBox entitlement options size must be 1" (Some "OptionBox entitlements support only a single option.") (Some "Provide exactly one option.") None);
  ([31123], mk_mapping "Box item has expired" (Some "The box item is past its end date and cannot be opened.") None None);
  ([31141], mk_mapping "Entitlement not found" (Some "The specified entitlement does not exist.") (Some "Verify the entitlement ID and retry.") None);
  ([31142; 31143; 31144], mk_mapping "Entitlement not found" (Some "No entitlement matches the supplied lookup key.") (Some "Verify the appId, SKU, or itemId and retry.") None);
  ([31145], mk_mapping "Option does not exist in this OptionBox entitlement" (Some "The supplied option is not configured for this entitlement.") (Some "Use one of the configured options.") None)].

Definition platform_codes_31147 : error_table := [
  ([31147], mk_mapping "Required platform origin is missing" (Some "The allowed platform origins must include both Steam and System.") (Some "Update the allowed platform origins to include Steam and System.") None);
  ([31171], mk_mapping "Entitlement is already revoked" (Some "This entitlement has previously been revoked.") None (Some "No further action needed."));
  ([31172], mk_mapping "Entitlement is not active" (Some "The entitlement is in an inactive state.") (Some "Activate the entitlement before retrying.") None);
  ([31173], mk_mapping "Entitlement is not consumable" (Some "This entitlement type cannot be consumed.") None None);
  ([31174], mk_mapping "Entitlement is already consumed" (Some "This entitlement has previously been consumed.") None None);
  ([31176], mk_mapping "Entitlement use count is insufficient" (Some "Not enough uses remain on this entitlement.") (Some "Use fewer units, or grant additional uses.") None);
  ([31177], mk_mapping "Permanent item is already owned" (Some "The user already owns this permanent item.") None (Some "No further action needed."));
  ([31178], mk_mapping "Entitlement is out of its valid time range" (Some "The entitlement is outside its activation window.") None None);
  ([31179], mk_mapping "Duplicate entitlement" (Some "An equivalent entitlement already exists for this user.") None None);
  ([31180], mk_mapping "Duplicate request ID" (Some "A request with this ID has already been processed.") (Some "Use a fresh request ID for new operations.") None);
  ([31181], mk_mapping "Entitlement is not sellable" (Some "This entitlement cannot be sold back.") None None);
  ([31182], mk_mapping "Entitlement is already sold" (Some "The entitlement has previously been sold back.") None None);
  ([31183], mk_mapping "Entitlement origin operation not allowed on this platform" (Some "The operation is not permitted for the entitlement's platform of origin.") None None);
  ([31184], mk_mapping "Source and target entitlements must match" (Some "Source and target entitlements must share the same collectionId, time range, origin, and itemId.") (Some "Choose entitlements that share these attributes.") None);
  ([31185], mk_mapping "Source and target entitlements cannot be the same" (Some "The source and target must be different entitlements.") None None);
  ([32121], mk_mapping "Order price mismatch" (Some "The supplied price does not match the catalog price.") (Some "Refresh the catalog and retry with the current price.") None);
  ([32122], mk_mapping "Item type does not support this operation" (Some "This order operation is not valid for the item type.") None None);
  ([32123], mk_mapping "Item is not purchasable" (Some "The item is configured as non-purchasable.") None None);
  ([32124], mk_mapping "Invalid currency namespace" (Some "The currency is not configured for this namespace.") (Some "Use a currency configured for the namespace.") None);
  ([32125], mk_mapping "User does not meet purchase conditions" (Some "The user fails one or more configured purchase conditions.") (Some "Check the item's purchase conditions against the user's state.") None);
  ([32126], mk_mapping "Section ID is required" (Some "Placing this order requires a section ID.") (Some "Include the section ID and retry.") None);
  ([32127], mk_mapping "Discount code cannot be used on this item" (Some "This discount code is not applicable to the supplied item.") (Some "Check the code's eligibility rules, or use a different code.") None)].

Definition platform_codes_32128 : error_table := [
  ([32128], mk_mapping "Discount code cannot be combined" (Some "This code is not stackable with other discount codes.") (Some "Use this code on its own, or use a different combinable code.") None);
  ([32129], mk_mapping "Discount code cannot be applied to a free order" (Some "Free orders are not eligible for discount codes.") None None);
  ([32130], mk_mapping "Total discount exceeds the order price" (Some "The combined discounts would push the order below zero.") (Some "Reduce the discount amount or remove a discount.") None);
  ([32141], mk_mapping "Order not found" (Some "The specified order does not exist.") (Some "Verify the order number and retry.") None);
  ([32171], mk_mapping "Order is not refundable" (Some "The order is in a state that does not permit refund.") None None);
  ([32172], mk_mapping "Invalid order status for this operation" (Some "The order's current status does not permit this action.") (Some "Check the order status before retrying.") None);
  ([32173], mk_mapping "Order receipt is not downloadable" (Some "The receipt is not available for this order.") None None);
  ([32175; 32176], mk_mapping "Item purchase limit reached" (Some "The maximum purchase count for this item has been reached.") None None);
  ([32177], mk_mapping "Order cannot be cancelled" (Some "The order's current state does not permit cancellation.") None None);
  ([32178], mk_mapping "All durable items in this bundle are already owned" (Some "The user already owns every durable item in this flexible bundle.") None None);
  ([33045], mk_mapping "Payment merchant config not found" (Some "No merchant config is set for this namespace.") (Some "Configure the payment merchant first.") None);
  ([33121], mk_mapping "Recurring payment failed at the provider" (Some "The payment provider returned an error during the recurring charge.") (Some "Check the provider's response and retry the payment.") None);
  ([33122], mk_mapping "Subscription mismatch when creating payment order" (Some "The supplied subscription does not match the payment order.") (Some "Use the matching subscription ID.") None);
  ([33123], mk_mapping "Invalid zip code" (Some "The supplied billing zip code is not valid.") (Some "Provide a valid zip/postal code and retry.") None);
  ([33141], mk_mapping "Payment order not found" (Some "The specified payment order does not exist.") (Some "Verify the payment order number and retry.") None);
  ([33145], mk_mapping "Recurring token not found" (Some "No recurring token exists for this subscription.") (Some "Configure a recurring token for the subscription.") None);
  ([33171], mk_mapping "Invalid payment order status for this operation" (Some "The payment order's current status does not permit this action.") None None);
  ([33172], mk_mapping "Payment order is not refundable" (Some "The payment order is in a state that does not permit refund.") None None);
  ([33173], mk_mapping "External order number already exists" (Some "Another payment order already uses this extOrderNo in this namespace.") (Some "Use a unique external order number.") None);
  ([33221], mk_mapping "Failed to update payment provider config" (Some "The provider rejected the updated configuration.") (Some "Inspect the error message and retry with corrected values.") None);
  ([33241], mk_mapping "Payment provider config not found" (Some "No payment provider config exists with this ID.") (Some "Verify the provider config ID and retry.") None);
  ([33242], mk_mapping "Payment merchant config not found" (Some "No merchant config exists with this ID.") (Some "Verify the merchant config ID and retry.") None);
  ([33243], mk_mapping "Payment callback config not found" (Some "No callback config is set for this namespace.") (Some "Configure a payment callback for this namespace.") None)].

Definition platform_codes_33271 : error_table := [
  ([33271], mk_mapping "Payment provider config already exists" (Some "A provider config already exists for this namespace and region.") (Some "Update the existing config or remove it before creating a new one.") None);
  ([33321], mk_mapping "Payment provider does not support this currency" (Some "The provider has no support for the requested currency.") (Some "Use a supported currency or a different provider.") None);
  ([33322], mk_mapping "Payment provider is not supported" (Some "The supplied provider is not configured.") (Some "Use one of the configured payment providers.") None);
  ([33332], mk_mapping "Payment amount is too small" (Some "The amount is below the provider's minimum.") (Some "Increase the amount, or contact the administrator to lower the minimum.") None);
  ([33333], mk_mapping "Neon Pay checkout failed" (Some "The Neon Pay provider rejected the checkout.") (Some "Inspect the provider error message and retry.") None);
  ([34021], mk_mapping "Reward data is invalid" (Some "The supplied reward payload did not pass validation.") (Some "Check the reward fields and retry.") None);
  ([34023; 34027], mk_mapping "Reward item type does not support duration or endDate" (Some "This item type cannot be granted with a duration or end date.") (Some "Remove the duration/endDate, or use a supported item type.") None);
  ([34041], mk_mapping "Reward not found" (Some "The specified reward does not exist in this namespace.") (Some "Run 'ags platform rewards list' to see configured rewards.") None);
  ([34042; 34044], mk_mapping "Reward item not found" (Some "The reward references an item that does not exist.") (Some "Verify the item ID/SKU and retry.") None);
  ([34043], mk_mapping "Reward not found by code" (Some "No reward exists with the supplied code.") (Some "Verify the reward code and retry.") None);
  ([34071], mk_mapping "Reward code already exists" (Some "Another reward already uses this code.") (Some "Choose a unique reward code.") None);
  ([34072], mk_mapping "Duplicate reward condition" (Some "The reward already has a condition with this name.") (Some "Use a unique condition name.") None);
  ([34074; 34076], mk_mapping "Reward item cannot have both duration and end date" (Some "Set either a duration or an explicit end date, not both.") (Some "Use one of duration or endDate.") None);
  ([35123], mk_mapping "Wallet is inactive" (Some "The wallet is currently disabled.") (Some "Activate the wallet before performing this operation.") None);
  ([35124], mk_mapping "Wallet has insufficient balance" (Some "The wallet does not have enough balance for this operation.") (Some "Top up the wallet or reduce the requested amount.") None);
  ([35141], mk_mapping "Wallet not found" (Some "The specified wallet does not exist.") (Some "Verify the wallet ID and retry.") None);
  ([36171], mk_mapping "Currency already exists" (Some "A currency with this code is already configured for this namespace.") (Some "Use a different code, or update the existing currency.") None);
  ([36172], mk_mapping "Real currency is not allowed in this game namespace" (Some "The game namespace is configured to disallow real currencies.") (Some "Use a virtual currency, or change the namespace configuration.") None);
  ([37041], mk_mapping "Ticket booth not found" (Some "No ticket booth exists with the supplied name in this namespace.") (Some "Verify the booth name and namespace.") None);
  ([37071], mk_mapping "Insufficient tickets in booth" (Some "The booth does not have enough tickets remaining.") (Some "Refill the booth or reduce the requested ticket count.") None);
  ([37121], mk_mapping "Invalid currency namespace in discount config" (Some "The discount config references a currency that is not configured for the namespace.") (Some "Use a configured currency.") None)].

Definition platform_codes_37141 : error_table := [
  ([37141], mk_mapping "Campaign not found" (Some "The specified campaign does not exist.") (Some "Run 'ags platform campaigns list' to see configured campaigns.") None);
  ([37142], mk_mapping "Code not found" (Some "The specified code does not exist in this namespace.") (Some "Verify the code and retry.") None);
  ([37143; 37144], mk_mapping "Campaign batch not found" (Some "No batch matches the supplied name or number for this campaign.") (Some "Verify the batch name/number and retry.") None);
  ([37171], mk_mapping "Campaign already exists" (Some "A campaign with this name is already configured.") (Some "Use a different campaign name.") None);
  ([37172], mk_mapping "Campaign is inactive" (Some "The campaign is not currently active.") (Some "Activate the campaign before redeeming codes.") None);
  ([37173], mk_mapping "Code is inactive" (Some "The code is currently disabled.") None None);
  ([37174; 37175; 37179], mk_mapping "Code redemption limit reached" (Some "The configured redemption count for this code or campaign has been reached.") None None);
  ([37176], mk_mapping "Code has already been redeemed" (Some "This code was previously redeemed.") None None);
  ([37177], mk_mapping "Code redemption has not started" (Some "The code is not yet within its redeemable window.") (Some "Wait until the campaign's start time before redeeming.") None);
  ([37178], mk_mapping "Code redemption has ended" (Some "The code's redemption window has closed.") None None);
  ([37180], mk_mapping "Code already exists" (Some "Another code with this value already exists in the namespace.") (Some "Use a different code value.") None);
  ([37221], mk_mapping "Invalid key file" (Some "The supplied key file did not pass validation.") (Some "Check the key file format and retry.") None);
  ([37241], mk_mapping "Key group not found" (Some "The specified key group does not exist.") (Some "Run 'ags platform key-groups list' to see configured groups.") None);
  ([37271], mk_mapping "Key group already exists" (Some "A key group with this name is already configured.") (Some "Use a different key group name.") None);
  ([38121], mk_mapping "Duplicate permanent item" (Some "The fulfillment payload contains a permanent item the user already owns.") (Some "Remove the duplicate from the payload.") None);
  ([38122], mk_mapping "Subscription end date is required" (Some "Subscription fulfillments must include an end date.") (Some "Provide a subscription end date and retry.") None);
  ([38128], mk_mapping "Cannot retry fulfillment with a different payload" (Some "Retried fulfillments must keep the same items list.") (Some "Resubmit with the original items list, or use a fresh transaction ID.") None);
  ([38129], mk_mapping "Cannot combine the same item with conflicting fields" (Some "Two entries reference the same item but disagree on a field.") (Some "Reconcile the field values or split into separate fulfillments.") None);
  ([38130], mk_mapping "Item type cannot be fulfilled" (Some "This item type does not support fulfillment.") None None);
  ([38141], mk_mapping "Fulfillment script not found" (Some "No fulfillment script is configured for this namespace.") (Some "Configure a fulfillment script before retrying.") None);
  ([38145], mk_mapping "Fulfillment transaction not found" (Some "No fulfillment matches the supplied transaction ID.") (Some "Verify the transaction ID and retry.") None);
  ([38171], mk_mapping "Fulfillment script already exists" (Some "A fulfillment script is already configured for this namespace.") (Some "Update the existing script instead of creating a new one.") None)].

Definition platform_codes_39121 : error_table := [
  ([39121], mk_mapping "Apple IAP receipt verification failed" (Some "Apple's verification service rejected the receipt.") (Some "Check the receipt and retry.") None);
  ([39122], mk_mapping "Google IAP receipt is invalid" (Some "Google's verification service rejected the receipt.") (Some "Check the receipt and retry.") None);
  ([39123], mk_mapping "IAP request is not for a valid application" (Some "The application identifier in the IAP request is not registered.") (Some "Verify the application ID matches the configured IAP app.") None);
  ([39124], mk_mapping "IAP platform user is not linked to this user" (Some "The platform user ID does not match the requesting user.") (Some "Link the platform account first, then retry.") None);
  ([39125], mk_mapping "Invalid platform user token" (Some "The supplied platform token is invalid.") (Some "Re-authenticate with the platform and retry.") None);
  ([39126], mk_mapping "User is not linked to this platform" (Some "The user has no link to the requested platform.") (Some "Link the platform account first, then retry.") None);
  ([39127], mk_mapping "Invalid service label" (Some "The supplied service label is not configured.") (Some "Use one of the configured service labels.") None);
  ([39128], mk_mapping "Steam publisher key is invalid" (Some "Steam rejected the configured publisher key.") (Some "Update the Steam publisher key in the IAP configuration.") None);
  ([39129], mk_mapping "Steam app ID is invalid" (Some "Steam rejected the configured app ID.") (Some "Update the Steam app ID in the IAP configuration.") None);
  ([39130; 39131; 39134; 39135], mk_mapping "Invalid IAP configuration" (Some "The platform's IAP configuration did not pass validation.") (Some "Check the configuration values and retry.") None);
  ([39132; 39133], mk_mapping "Bad request to platform IAP service" (Some "The platform IAP service rejected the request.") (Some "Check the request payload and retry.") None);
  ([39136; 39137], mk_mapping "Apple API request failed" (Some "Apple's API returned an error.") (Some "Inspect the response message and retry.") None);
  ([39138], mk_mapping "Apple IAP version mismatch" (Some "The configuration and API versions do not match.") (Some "Align the IAP configuration version with the API version.") None);
  ([39141], mk_mapping "Apple IAP receipt not found" (Some "No Apple IAP receipt exists for the supplied transaction.") (Some "Verify the transaction ID and product ID.") None);
  ([39142; 39143; 39144; 39145; 39146; 39147; 39148], mk_mapping "Platform IAP config not found in this namespace" (Some "The platform's IAP configuration is missing.") (Some "Configure the platform IAP for this namespace.") None);
  ([39149], mk_mapping "Third-party subscription transaction not found" (Some "No third-party subscription transaction matches the request.") (Some "Verify the transaction ID and user.") None);
  ([39150], mk_mapping "Third-party user subscription not found" (Some "No third-party subscription matches the request.") (Some "Verify the subscription ID and user.") None);
  ([39151], mk_mapping "IAP order not found" (Some "No IAP order matches the supplied number in this namespace.") (Some "Verify the IAP order number and retry.") None);
  ([39152], mk_mapping "Third-party subscription group not found" (Some "No subscription group matches the supplied SKU in this namespace.") (Some "Configure the subscription group, or verify the SKU.") None);
  ([39154], mk_mapping "Meta Quest subscription SKU not found in config" (Some "The SKU is not configured in the namespace's subscription group.") (Some "Add the SKU to the subscription group configuration.") None);
  ([39171], mk_mapping "Bundle ID does not match expected value" (Some "The verified bundle ID differs from the configured one.") (Some "Align the configured bundle ID with the platform's value.") None);
  ([39172], mk_mapping "Order ID mismatch" (Some "The order ID returned by the platform does not match the request.") None None);
  ([39173], mk_mapping "Google Play order has unexpected purchase status" (Some "The purchase status reported by Google Play is not one we can process.") (Some "Inspect the order status and retry once it stabilises.") None)].

Definition platform_codes_39174 : error_table := [
  ([39174], mk_mapping "Google IAP purchase time is out of range" (Some "The purchase time falls outside the accepted window.") None None);
  ([39175], mk_mapping "Duplicate IAP item mapping" (Some "Another mapping already exists for this IAP type and ID.") (Some "Remove the duplicate mapping.") None);
  ([39183], mk_mapping "Steam transaction is pending or failed" (Some "Steam reported the transaction as pending or failed.") (Some "Retry the operation later.") None);
  ([39184], mk_mapping "Steam API exception" (Some "Steam returned an error while processing the request.") (Some "Inspect the response and retry.") None);
  ([39185], mk_mapping "Steam IAP sync mode mismatch" (Some "The operation requires a different sync mode than is configured.") (Some "Update the Steam IAP sync mode in the configuration.") None);
  ([39187], mk_mapping "Duplicate subscription group SKU on this platform" (Some "Another subscription group already uses this SKU on the platform.") (Some "Use a unique SKU.") None);
  ([39188], mk_mapping "Subscription group is already linked to the user" (Some "The user already has this subscription group linked on this platform.") None (Some "No further action needed."));
  ([39221], mk_mapping "Invalid Xbox Business Partner Certificate or password" (Some "The certificate or password did not pass validation.") (Some "Update the Xbox certificate and/or password and retry.") None);
  ([39244], mk_mapping "Steam config not found" (Some "No Steam configuration is set.") (Some "Configure Steam IAP first.") None);
  ([39245], mk_mapping "Steam app ID not found" (Some "The supplied Steam app ID is not configured.") (Some "Verify the Steam app ID and retry.") None);
  ([39321], mk_mapping "Invalid IAP item config namespace" (Some "The IAP item config references an invalid namespace.") (Some "Use a configured namespace.") None);
  ([39341; 39441], mk_mapping "Platform DLC config not found" (Some "No DLC config is set for this namespace.") (Some "Configure the platform DLC for this namespace.") None);
  ([39442], mk_mapping "DLC item config not found" (Some "No DLC item config is set for this namespace.") (Some "Configure DLC items for this namespace.") None);
  ([39471], mk_mapping "Duplicate DLC reward ID" (Some "Another DLC reward already uses this ID in the namespace.") (Some "Use a unique DLC reward ID.") None);
  ([39621], mk_mapping "Steam API exception" (Some "Steam returned an error while processing the request.") (Some "Inspect the response and retry.") None);
  ([40121], mk_mapping "Item type does not support subscriptions" (Some "This item type cannot be subscribed to.") None None);
  ([40122], mk_mapping "User is already subscribed" (Some "An active subscription already exists for this user and item.") None (Some "No further action needed."));
  ([40123], mk_mapping "Currency is not supported for subscriptions" (Some "The supplied currency cannot be used for subscriptions.") (Some "Use a currency that supports recurring billing.") None);
  ([40125], mk_mapping "Subscription has no real currency billing account" (Some "Real-currency billing is not configured for this subscription.") (Some "Configure a real-currency billing account.") None);
  ([40141], mk_mapping "Subscription not found" (Some "The specified subscription does not exist.") (Some "Verify the subscription ID and retry.") None);
  ([40171], mk_mapping "Subscription is not active" (Some "The subscription is in an inactive state.") None None);
  ([40172], mk_mapping "Subscription is awaiting payment notification" (Some "A charge is in flight for this subscription.") (Some "Wait for the payment notification before retrying.") None);
  ([40173], mk_mapping "Subscription currency does not match request" (Some "The subscription's current currency differs from the request currency.") (Some "Use the subscription's current currency.") None)].

Definition platform_codes_41171 : error_table := [
  ([41171], mk_mapping "Request body differs from a previous call with the same idempotency key" (Some "Idempotent requests must keep the same body across retries.") (Some "Use a fresh idempotency key, or resubmit with the original body.") None);
  ([41172], mk_mapping "User ID differs from a previous call with the same idempotency key" (Some "Idempotent requests must keep the same user across retries.") (Some "Use a fresh idempotency key for a different user.") None)].

Definition platform_codes : error_table := platform_codes_20016 ++ platform_codes_30241 ++ platform_codes_30374 ++ platform_codes_31147 ++ platform_codes_32128 ++ platform_codes_33271 ++ platform_codes_37141 ++ platform_codes_39121 ++ platform_codes_39174 ++ platform_codes_41171.

Definition seasonpass_codes_49121 : error_table := [
  ([49121], mk_mapping "Default language is required in localizations" (Some "The default language is missing from the supplied localization map.") (Some "Include the namespace's default language in the localizations field.") None);
  ([49122], mk_mapping "Invalid time range" (Some "The supplied start/end time range is not valid.") (Some "Ensure the start time precedes the end time and both are in ISO-8601 format.") None);
  ([49124], mk_mapping "Manual claim is not supported for this configuration" (Some "The season pass is configured to use automatic claims.") (Some "Reconfigure the pass to support manual claims, or use the auto-claim flow.") None);
  ([49141], mk_mapping "Tier item not found in the store" (Some "The referenced tier item does not exist in this namespace's store.") (Some "Verify the tier item ID, or create the item in the store first.") None);
  ([49142], mk_mapping "Pass item not found in the store" (Some "The referenced pass item does not exist in this namespace's store.") (Some "Verify the pass item ID, or create the item in the store first.") None);
  ([49143], mk_mapping "Season not found" (Some "The specified season does not exist in this namespace.") (Some "Run 'ags seasonpass seasons list' to see configured seasons.") None);
  ([49144], mk_mapping "Reward not found" (Some "No reward exists with the supplied code.") (Some "Verify the reward code and retry.") None);
  ([49145], mk_mapping "Pass not found" (Some "No pass exists with the supplied code.") (Some "Verify the pass code and retry.") None);
  ([49146], mk_mapping "Tier not found" (Some "The specified tier does not exist in this season.") (Some "Verify the tier ID and retry.") None);
  ([49147], mk_mapping "Published season not found" (Some "No published season exists in this namespace.") (Some "Publish a season first, then retry.") None);
  ([49148], mk_mapping "User season not found" (Some "The user has no record for this season.") (Some "Confirm the user has been granted the pass or has earned tier progress.") None);
  ([49171], mk_mapping "Season is not updatable in its current status" (Some "The season's lifecycle state does not permit updates.") (Some "Wait for the season to reach a draft or paused state before updating.") None);
  ([49172], mk_mapping "Season has already ended" (Some "The season is past its configured end time.") (Some "Use a different season, or extend this season's end time before retrying.") None);
  ([49173], mk_mapping "Reward already exists in the season" (Some "A reward with this code is already configured for the season.") (Some "Use a different code, or update the existing reward.") None);
  ([49174], mk_mapping "Pass already exists in the season" (Some "A pass with this code is already configured for the season.") (Some "Use a different code, or update the existing pass.") None);
  ([49175], mk_mapping "Published season already exists" (Some "A season is already published in this namespace.") (Some "Unpublish the existing season before publishing a new one.") None);
  ([49176], mk_mapping "Season has no rewards configured" (Some "Rewards must be defined before the season can be published.") (Some "Add at least one reward to the season.") None);
  ([49177], mk_mapping "Season has no passes configured" (Some "Passes must be defined before the season can be published.") (Some "Add at least one pass to the season.") None);
  ([49178], mk_mapping "Season has no tiers configured" (Some "Tiers must be defined before the season can be published.") (Some "Add at least one tier to the season.") None);
  ([49179], mk_mapping "Reward is in use and cannot be removed" (Some "The reward is referenced by one or more tiers.") (Some "Remove the reward from all tiers before deleting it.") None);
  ([49180], mk_mapping "Season has already started" (Some "The season is past its configured start time.") (Some "Some changes are not permitted once a season is live; consider creating a new season.") None);
  ([49181], mk_mapping "Season has not ended" (Some "This operation requires the season to be ended.") (Some "Wait for the season to end, or end it manually before retrying.") None)].

Definition seasonpass_codes_49182 : error_table := [
  ([49182], mk_mapping "Reward has already been claimed" (Some "This reward is already in the user's inventory.") None (Some "No further action needed."));
  ([49183], mk_mapping "Pass item does not match the published season pass" (Some "The supplied pass item differs from the one published for this season.") (Some "Use the pass item that was configured at publish time.") None);
  ([49184], mk_mapping "Tier item does not match the published season tier" (Some "The supplied tier item differs from the one published for this season.") (Some "Use the tier item that was configured at publish time.") None);
  ([49185], mk_mapping "Season has not started" (Some "This operation requires the season to be active.") (Some "Wait until the season's start time, or adjust the start time.") None);
  ([49186], mk_mapping "Pass is already owned" (Some "The user already owns this pass for the current season.") None (Some "No further action needed."));
  ([49187], mk_mapping "Maximum tier count exceeded" (Some "Adding this tier would push the season past its tier limit.") (Some "Reduce the tier count, or contact AccelByte to raise the limit.") None);
  ([49188], mk_mapping "Reward is currently being claimed" (Some "Another claim operation for this reward is in progress.") (Some "Wait for the in-flight claim to complete, then retry.") None);
  ([49189], mk_mapping "Duplicate season name in this namespace" (Some "Another published season already uses this name.") (Some "Choose a unique season name.") None)].

Definition seasonpass_codes : error_table := seasonpass_codes_49121 ++ seasonpass_codes_49182.

Definition legal_codes : error_table := [
  ([40035], mk_mapping "Legal policy version not found" (Some "The requested policy version does not exist.") (Some "Run 'ags legal policies list' to see available policies.") None)].

Definition challenge_codes : error_table := [
  ([99002], mk_mapping "Duplicate key" (Some "A challenge with the same identifier already exists.") (Some "Use a different code or update the existing challenge.") None);
  ([99003], mk_mapping "Challenge validation failed" (Some "The challenge configuration is invalid.") (Some "Check the challenge fields against the schema and retry.") None);
  ([99004], mk_mapping "Challenge request could not be processed" (Some "The request is well-formed but cannot be applied in the current challenge state.") (Some "Check the challenge state and the request payload.") None)].

Definition standard_codes : error_table := [
  ([20000], mk_mapping "Internal server error" (Some "An unexpected error occurred on the server.") None (Some "If this persists, contact AccelByte support."));
  ([20001], mk_mapping "Request was not authorized" (Some "Your access token is invalid or expired.") (Some "Run 'ags auth login'.") None);
  ([20002], mk_mapping "Invalid request — validation failed" (Some "One or more parameter values are invalid.") (Some "Check the parameter values and retry.") None);
  ([20003], mk_mapping "Forbidden" (Some "Your account does not have the required access.") (Some "Check that your account has the required role and permissions.") (Some "This operation may require admin or publisher-level access."));
  ([20006], mk_mapping "Resource has changed since you fetched it" (Some "Another process updated this resource concurrently.") (Some "Fetch the latest version and retry.") None);
  ([20007], mk_mapping "Too many requests" (Some "You have exceeded the rate limit.") (Some "Wait a moment and retry.") None);
  ([20008], mk_mapping "User not found" (Some "The user does not exist or is not accessible in this context.") (Some "Run 'ags iam users search' to see available users.") None);
  ([20009], mk_mapping "Request conflict" (Some "The resource was modified concurrently.") (Some "Fetch the latest version and retry.") None);
  ([20013], mk_mapping "You do not have permission for this operation" (Some "Your account does not have the required role.") (Some "Check that your account has the required role and permissions.") (Some "This operation may require admin or publisher-level access."));
  ([20017], mk_mapping "User account is not linked" (Some "The user has no linked account for the requested platform or context.") (Some "Link the platform account first, then retry.") None);
  ([20018], mk_mapping "Request was rejected" (Some "The server reported that the request is invalid.") (Some "Check the request fields and retry.") None);
  ([20019], mk_mapping "Request body could not be parsed" (Some "The request body is malformed or does not match the expected format.") (Some "Check the JSON payload and retry.") None);
  ([20021], mk_mapping "Invalid pagination parameters" (Some "The pagination offset or limit is out of range.") (Some "Check the --offset and --limit values.") None);
  ([20022], mk_mapping "Token is not a user token" (Some "This operation requires a user token, not a client token.") (Some "Run 'ags auth login' (browser-based) instead of client credentials.") None);
  ([20024], mk_mapping "Not implemented" (Some "This operation is not yet supported by the API.") None (Some "This endpoint may be available in a future API version."));
  ([20025], mk_mapping "Not a publisher account" (Some "This operation requires a publisher namespace.") (Some "Ensure you are using a publisher namespace, not a game namespace.") (Some "Justice platform operations are only available in publisher namespaces."));
  ([20026], mk_mapping "Publisher namespace not allowed for this operation" (Some "This operation must be performed in a game namespace, not the publisher namespace.") (Some "Switch to a game namespace and retry.") None);
  ([20029], mk_mapping "Resource not found" (Some "The requested resource does not exist.") (Some "Check the identifier and retry.") None)].

(** * Services *)

Record ServiceManifest : Type := mk_manifest { sm_internal : string; sm_display : string; sm_description : string }.

Definition SERVICES : list ServiceManifest := [
  mk_manifest "achievement" "achievement" "Player achievements, badges, and progression tracking";
  mk_manifest "ams" "ams" "Multiplayer server fleet management and orchestration";
  mk_manifest "basic" "basic" "User profiles, namespaces, and file uploads";
  mk_manifest "challenge" "challenge" "Challenge definitions, goals, schedules, and player progression";
  mk_manifest "chat" "chat" "Chat messaging, moderation, inbox, and profanity filtering";
  mk_manifest "cloudsave" "cloud-save" "Cloud save records for games and players (binary and JSON)";
  mk_manifest "csm" "csm" "Custom service management, deployments, and container images";
  mk_manifest "ehs" "ehs" "Extend helper container image registry credentials and gRPC reflection";
  mk_manifest "gametelemetry" "game-telemetry" "Game telemetry event ingestion and querying";
  mk_manifest "gdpr" "gdpr" "GDPR data deletion, retrieval, and platform account closure";
  mk_manifest "group" "group" "Player groups, memberships, roles, and join requests";
  mk_manifest "iam" "iam" "Identity, authentication, authorization, and user management";
  mk_manifest "inventory" "inventory" "Player inventories, items, item types, and tags";
  mk_manifest "leaderboard" "leaderboard" "Leaderboard configuration, data, and user rankings";
  mk_manifest "legal" "legal" "Legal agreements, policies, eligibility, and consent tracking";
  mk_manifest "lobby" "lobby" "Lobby connections, friends, presence, party, and notifications";
  mk_manifest "loginqueue" "login-queue" "Login queue management and ticket processing";
  mk_manifest "match2" "matchmaking" "Matchmaking pools, rulesets, tickets, and backfill";
  mk_manifest "platform" "platform" "Store, items, entitlements, wallets, payments, and IAP";
  mk_manifest "reporting" "reporting" "Player reporting, moderation rules, reasons, and tickets";
  mk_manifest "seasonpass" "season-pass" "Season passes, tiers, rewards, and seasonal content";
  mk_manifest "session" "session" "Game sessions, parties, matchmaking templates, and DS config";
  mk_manifest "sessionhistory" "session-history" "Session analytics and X-Ray diagnostics";
  mk_manifest "social" "social" "Stats, stat cycles, game profiles, and social slots";
  mk_manifest "ugc" "ugc" "User-generated content: uploads, moderation, and discovery"].

Definition find_service (internal : string) : option ServiceManifest := List.find (fun e => String.eqb (sm_internal e) internal) SERVICES.

Definition display_name (internal : string) : option string := option_map sm_display (find_service internal).

Definition internal_name (name : string) : option string :=
  option_map sm_internal (List.find (fun e => String.eqb (sm_display e) name || String.eqb (sm_internal e) name) SERVICES).

Definition service_description (internal : string) : string :=
  match find_service internal with Some e => sm_description e | None => EmptyString end.

(** * The lookup *)

(** [Option::or_else] of two lookups. *)
Definition first_of (a b : option ErrorMapping) : option ErrorMapping := match a with Some m => Some m | None => b end.

Definition lookup_error (service : string) (error_code : Z) : option ErrorMapping :=
  let service := default service (internal_name service) in
  let at_table table := find_code table error_code in
  let service_specific :=
    if String.eqb service "iam" then at_table iam_codes
    else if String.eqb service "basic" then at_table basic_codes
    else if String.eqb service "social" then at_table social_codes
    else if String.eqb service "cloudsave" then at_table cloudsave_codes
    else if String.eqb service "leaderboard" then at_table leaderboard_codes
    else if String.eqb service "group" then at_table group_codes
    else if String.eqb service "platform" then first_of (at_table platform_codes) (at_table seasonpass_codes)
    else if String.eqb service "seasonpass" then first_of (at_table seasonpass_codes) (at_table platform_codes)
    else if String.eqb service "legal" then at_table legal_codes
    else if String.eqb service "challenge" then at_table challenge_codes
    else None in
  first_of service_specific (at_table standard_codes).
