(* ===== verification/Descriptions.v ===== *)
(** The hand-written descriptions of resources ([catalogue/manifest.rs]), a table per service in
    the order of the source. *)

From stdpp Require Import base list strings.
From S2P Require Import Prelude.

Definition achievement_resources : list (string * string * string) := [
  ("achievement", "achievements", "Manage achievement definitions and configuration");
  ("achievement", "collaborative-progress", "Collaborative achievement progress tracking");
  ("achievement", "platform-achievements", "Platform-specific achievement events (e.g. PSN)");
  ("achievement", "tags", "Achievement tag management for categorization");
  ("achievement", "user-progress", "Per-user achievement progress and unlocks")].

Definition ams_resources : list (string * string * string) := [
  ("ams", "account", "AMS account settings and configuration");
  ("ams", "artifacts", "Server build artifacts and logs");
  ("ams", "dedicated-servers", "Dedicated server instances and lifecycle");
  ("ams", "dev-server-config", "Development server configuration");
  ("ams", "fleet-commander", "Fleet commander orchestration and status");
  ("ams", "fleets", "Manage dedicated server fleets and scaling");
  ("ams", "images", "Container images for dedicated servers");
  ("ams", "info", "AMS regional info and supported instances");
  ("ams", "qos", "Quality of service regions and latency");
  ("ams", "watchdogs", "Server health monitoring and watchdog heartbeats")].

Definition basic_resources : list (string * string * string) := [
  ("basic", "config", "Publisher and namespace configuration");
  ("basic", "files", "File upload management and URL generation");
  ("basic", "locale", "Country, language, and time zone lookups");
  ("basic", "namespaces", "Namespace creation, configuration, and management");
  ("basic", "profiles", "User profile data and custom attributes")].

Definition challenge_resources : list (string * string * string) := [
  ("challenge", "assignment-plugins", "Challenge plugin configuration and assignment");
  ("challenge", "challenges", "Challenge definitions and configuration");
  ("challenge", "goals", "Challenge goal definitions and requirements");
  ("challenge", "progress", "Player challenge progression tracking");
  ("challenge", "schedules", "Challenge scheduling and rotation");
  ("challenge", "utilities", "Challenge utility operations")].

Definition chat_resources : list (string * string * string) := [
  ("chat", "config", "Chat service configuration");
  ("chat", "inbox", "Admin inbox messages and categories");
  ("chat", "moderation", "Chat moderation, snapshots, and topic management");
  ("chat", "profanity", "Profanity filter configuration and word lists");
  ("chat", "service-messages", "System and service message management");
  ("chat", "topics", "Chat topic management and membership")].

Definition cloudsave_resources : list (string * string * string) := [
  ("cloudsave", "game-files", "Binary game file storage and management");
  ("cloudsave", "game-records", "JSON game record management");
  ("cloudsave", "game-records-protected", "Protected game records with restricted access");
  ("cloudsave", "plugin-config", "Cloud save plugin configuration and certificates");
  ("cloudsave", "tags", "Record tag management");
  ("cloudsave", "user-files", "Binary user file storage and management");
  ("cloudsave", "user-records", "JSON user record management");
  ("cloudsave", "user-records-protected", "Protected user records with restricted access")].

Definition csm_resources : list (string * string * string) := [
  ("csm", "app-ui", "App UI hosting and asset management");
  ("csm", "apps", "Custom service application lifecycle");
  ("csm", "config", "Service configuration variables and secrets");
  ("csm", "debug", "Remote debug mode and session info for extend apps");
  ("csm", "deployments", "Service deployment management");
  ("csm", "files", "Hosted static file access");
  ("csm", "images", "Container image registry and management");
  ("csm", "key-value", "Key-Value store configuration and management");
  ("csm", "nosql", "NoSQL database configuration and management");
  ("csm", "resource-limits", "Resource limits and quotas");
  ("csm", "security-assessment", "Pen-testing engagement requests and reports for extend apps");
  ("csm", "service-messages", "Service messaging and notifications");
  ("csm", "sql", "SQL database configuration and management");
  ("csm", "subscriptions", "Notification subscription management");
  ("csm", "topics", "Async messaging topics and subscriber management")].

Definition ehs_resources : list (string * string * string) := [
  ("ehs", "repository-credentials", "Container image registry credentials for image upload");
  ("ehs", "grpc-reflection", "gRPC server reflection for Extend apps")].

Definition gametelemetry_resources : list (string * string * string) := [
  ("gametelemetry", "events", "Telemetry event ingestion and querying");
  ("gametelemetry", "namespaces", "Telemetry namespace configuration");
  ("gametelemetry", "steam-playtime", "Steam playtime data and analytics")].

Definition gdpr_resources : list (string * string * string) := [
  ("gdpr", "config", "GDPR service plugin configuration");
  ("gdpr", "platform-closure", "Platform account closure operations");
  ("gdpr", "user-access-requests", "User data access requests and downloads");
  ("gdpr", "user-access-requests-s2s", "Server-to-server data access operations");
  ("gdpr", "user-deletion-requests", "User data deletion requests and status");
  ("gdpr", "user-deletion-requests-s2s", "Server-to-server data deletion operations")].

Definition group_resources : list (string * string * string) := [
  ("group", "group-definitions", "Global group type and configuration definitions");
  ("group", "groups", "Create, update, and manage player groups");
  ("group", "membership", "Group membership management");
  ("group", "requests", "Group join and invite request handling");
  ("group", "roles", "Group role definitions and permissions")].

Definition iam_resources : list (string * string * string) := [
  ("iam", "age-restrictions", "Age restriction settings per country");
  ("iam", "allow-list", "Login allowlist for restricted access");
  ("iam", "bans", "Ban management and ban type configuration");
  ("iam", "client-config", "OAuth client configuration templates");
  ("iam", "clients", "OAuth client application management");
  ("iam", "config", "IAM service configuration");
  ("iam", "countries", "Country and region settings");
  ("iam", "devices", "Device bans and device management");
  ("iam", "input-validations", "Input validation rules for user fields");
  ("iam", "oauth2", "OAuth 2.0 token and authorization management");
  ("iam", "platform-credentials", "Login provider credentials, including Device ID");
  ("iam", "profile-update-strategies", "Profile field update strategy settings");
  ("iam", "role-override", "Role override configuration per namespace");
  ("iam", "roles", "Role definitions, permissions, and assignment");
  ("iam", "sso", "Single sign-on authentication flows");
  ("iam", "sso-credentials", "SSO credential and platform login configuration");
  ("iam", "tags", "User account tag management");
  ("iam", "user-mfa", "User multi-factor authentication configuration");
  ("iam", "users", "User accounts, profiles, bans, and permissions")].

Definition inventory_resources : list (string * string * string) := [
  ("inventory", "chaining", "Chained inventory operations (multi-step)");
  ("inventory", "integrations", "Inventory integration configuration");
  ("inventory", "inventories", "Manage player inventory instances");
  ("inventory", "inventory-definitions", "Inventory type and schema definitions");
  ("inventory", "item-types", "Item type definitions");
  ("inventory", "items", "Inventory item management");
  ("inventory", "tags", "Inventory tag management")].

Definition leaderboard_resources : list (string * string * string) := [
  ("leaderboard", "global-rankings", "Global leaderboard entries, scores, and rankings");
  ("leaderboard", "leaderboards", "Leaderboard configuration and definitions");
  ("leaderboard", "user-rankings", "Per-user leaderboard data and rankings");
  ("leaderboard", "visibility", "User leaderboard visibility settings")].

Definition legal_resources : list (string * string * string) := [
  ("legal", "agreements", "Agreement acceptance and status tracking");
  ("legal", "base-policies", "Base legal policy templates and management");
  ("legal", "eligibilities", "User eligibility checks for agreements");
  ("legal", "localized-versions", "Localized policy version content");
  ("legal", "policies", "Policy management and publishing");
  ("legal", "policy-versions", "Policy version lifecycle management");
  ("legal", "utility", "Legal utility operations");
  ("legal", "versions", "Legal policy version management")].

Definition lobby_resources : list (string * string * string) := [
  ("lobby", "blocks", "Player block list management");
  ("lobby", "config", "Lobby service configuration");
  ("lobby", "friends", "Friend list management and friend requests");
  ("lobby", "notifications", "Push notifications and templates");
  ("lobby", "presence", "Online presence and status tracking");
  ("lobby", "service-messages", "System and service message management");
  ("lobby", "users", "Lobby user state and settings")].

Definition loginqueue_resources : list (string * string * string) := [
  ("loginqueue", "queue", "Login queue administration, configuration, and tickets")].

Definition match2_resources : list (string * string * string) := [
  ("match2", "backfill", "Match backfill proposals and acceptance");
  ("match2", "config", "Matchmaking service configuration");
  ("match2", "feature-flags", "Matchmaking feature flag management");
  ("match2", "match-functions", "Custom match function management");
  ("match2", "match-pools", "Match pool configuration and metrics");
  ("match2", "match-tickets", "Match ticket creation and tracking");
  ("match2", "rule-sets", "Matchmaking rule set definitions");
  ("match2", "xray-config", "Matchmaking X-Ray diagnostic configuration")].

Definition platform_resources : list (string * string * string) := [
  ("platform", "campaign-codes", "License code and key management");
  ("platform", "campaigns", "Campaign and redemption code management");
  ("platform", "catalog-changes", "Store catalog change tracking and publishing");
  ("platform", "categories", "Store item category management");
  ("platform", "clawback", "Payment clawback handling and notifications");
  ("platform", "currencies", "Virtual currency definitions and management");
  ("platform", "dlc-config", "Downloadable content configuration");
  ("platform", "dlc-records", "Platform DLC sync and records");
  ("platform", "entitlements", "User entitlement grants, revocations, and queries");
  ("platform", "fulfillment-script", "Custom fulfillment script management");
  ("platform", "fulfillments", "Order fulfillment and item granting");
  ("platform", "iap", "In-app purchase configuration and validation");
  ("platform", "iap-apple", "Apple App Store IAP configuration");
  ("platform", "iap-epicgames", "Epic Games Store IAP configuration");
  ("platform", "iap-google", "Google Play IAP configuration");
  ("platform", "iap-notifications", "IAP notification processing");
  ("platform", "iap-oculus", "Meta/Oculus IAP configuration");
  ("platform", "iap-playstation", "PlayStation Store IAP configuration");
  ("platform", "iap-steam", "Steam IAP configuration");
  ("platform", "iap-subscriptions", "IAP subscription management and sync");
  ("platform", "iap-twitch", "Twitch IAP configuration");
  ("platform", "iap-xbox", "Xbox IAP configuration");
  ("platform", "invoices", "Payment invoice queries and management");
  ("platform", "items", "Store item definitions and management");
  ("platform", "key-groups", "License key group management and distribution");
  ("platform", "orders", "Purchase order management and processing");
  ("platform", "payment", "Payment processing and transaction management");
  ("platform", "payment-accounts", "User payment account management");
  ("platform", "payment-config", "Payment provider configuration");
  ("platform", "payment-station", "Payment station UI and flow management");
  ("platform", "payments", "Dedicated payment processing");
  ("platform", "platform-achievements", "Platform achievement event processing");
  ("platform", "platform-closure", "Platform account closure configuration");
  ("platform", "platform-sessions", "Platform session management");
  ("platform", "plugin-config", "Platform service plugin configuration");
  ("platform", "revocations", "Entitlement and item revocation");
  ("platform", "rewards", "Reward definitions and condition configuration");
  ("platform", "sections", "Store section layout and content management");
  ("platform", "stores", "Store management, cloning, and publishing");
  ("platform", "subscriptions", "Subscription plan management and billing");
  ("platform", "tickets", "Support ticket and key distribution");
  ("platform", "trades", "Trade action processing and history");
  ("platform", "views", "Store view definitions and layout");
  ("platform", "wallets", "User wallet balances and transactions")].

Definition reporting_resources : list (string * string * string) := [
  ("reporting", "config", "Reporting service configuration");
  ("reporting", "extensions", "Report extension categories and auto-moderation");
  ("reporting", "reasons", "Reporting reason management");
  ("reporting", "reports", "Report queries and management");
  ("reporting", "rules", "Auto-moderation rule definitions");
  ("reporting", "tickets", "Moderation ticket management and resolution")].

Definition seasonpass_resources : list (string * string * string) := [
  ("seasonpass", "passes", "Season pass definitions and management");
  ("seasonpass", "progress", "Player season pass progress and rewards");
  ("seasonpass", "rewards", "Season pass reward configuration");
  ("seasonpass", "seasons", "Season lifecycle, publishing, and tiers");
  ("seasonpass", "tiers", "Season tier definitions and ordering");
  ("seasonpass", "utilities", "Season pass utility operations")].

Definition session_resources : list (string * string * string) := [
  ("session", "alerts", "Session alert configuration and management");
  ("session", "config", "Session service log configuration");
  ("session", "game-sessions", "Game session lifecycle and management");
  ("session", "parties", "Party session management");
  ("session", "platform-credentials", "Platform credential configuration for sessions");
  ("session", "recent-users", "Recent player history");
  ("session", "storage", "Session storage management");
  ("session", "templates", "Session configuration templates");
  ("session", "users", "Player session attributes and queries")].

Definition sessionhistory_resources : list (string * string * string) := [
  ("sessionhistory", "xray-tickets", "Matchmaking X-Ray analytics and diagnostics")].

Definition social_resources : list (string * string * string) := [
  ("social", "global-stat-values", "Global statistic configuration and values");
  ("social", "stat-cycles", "Statistic cycle configuration and lifecycle");
  ("social", "stat-definitions", "Statistic definitions and configuration");
  ("social", "user-stat-cycles", "Per-user statistic cycle data");
  ("social", "user-stat-values", "Per-user statistic values and operations")].

Definition ugc_resources : list (string * string * string) := [
  ("ugc", "channels", "UGC channel management and configuration");
  ("ugc", "config", "UGC service configuration");
  ("ugc", "content", "User-generated content items and discovery");
  ("ugc", "creators", "UGC creator profiles and statistics");
  ("ugc", "engagements", "Content engagement (likes, downloads, follows)");
  ("ugc", "groups", "UGC group management");
  ("ugc", "staging", "UGC staging area management");
  ("ugc", "staging-content", "UGC staged content items");
  ("ugc", "tags", "UGC content tag management");
  ("ugc", "types", "UGC content type definitions")].

Definition RESOURCE_DESCRIPTIONS : list (string * string * string) :=
  achievement_resources ++
  ams_resources ++
  basic_resources ++
  challenge_resources ++
  chat_resources ++
  cloudsave_resources ++
  csm_resources ++
  ehs_resources ++
  gametelemetry_resources ++
  gdpr_resources ++
  group_resources ++
  iam_resources ++
  inventory_resources ++
  leaderboard_resources ++
  legal_resources ++
  lobby_resources ++
  loginqueue_resources ++
  match2_resources ++
  platform_resources ++
  reporting_resources ++
  seasonpass_resources ++
  session_resources ++
  sessionhistory_resources ++
  social_resources ++
  ugc_resources.

Definition get_resource_description (service resource : string) : option string :=
  option_map (fun row => row.2) (List.find (fun row => String.eqb row.1.1 service && String.eqb row.1.2 resource) RESOURCE_DESCRIPTIONS).
