(* ===== verification/Swagger.v ===== *)
(** OpenAPI 2.0 documents ([catalogue/openapi.rs], [bundled.rs]): the parts of a document that
    the catalogue reads, and how serde reads them from JSON. *)

From stdpp Require Import base gmap strings list.
From Stdlib Require Import ZArith Lia.
From S2P Require Import Prelude Text Json Workflow.

(** * Documents *)

(** The [items] of an array body. *)
Record SwaggerItemsRef : Type := mk_items_ref { ir_ref_path : option string; ir_schema_type : option string }.

Record SwaggerSchemaRef : Type := mk_schema_ref {
  sr_ref_path : option string;
  sr_schema_type : option string;
  sr_items : option SwaggerItemsRef
}.

Record SwaggerParameter : Type := mk_swagger_parameter {
  sp_name : string;
  sp_location : string;
  sp_is_required : bool;
  sp_parameter_type : string;
  sp_description : string;
  sp_format : string;
  sp_enum_values : option (list string);
  sp_schema : option SwaggerSchemaRef;
  sp_default : option value
}.

Inductive SwaggerProperty : Type := mk_property {
  pr_property_type : string;
  pr_description : string;
  pr_ref_path : option string;
  pr_items : option SwaggerProperty;
  pr_enum_values : option (list string);
  pr_default : option value
}.

Record SwaggerDefinition : Type := mk_definition {
  df_properties : gmap string SwaggerProperty;
  df_required : list string
}.

Record SwaggerOperation : Type := mk_swagger_operation {
  so_is_deprecated : bool;
  so_summary : string;
  so_description : string;
  so_parameters : list SwaggerParameter;
  so_x_security : value;
  so_x_operation_id : option string;
  so_produces : list string
}.

Record SwaggerInfo : Type := mk_info { info_title : string; info_version : string }.

Record SwaggerSpec : Type := mk_spec {
  spec_swagger : string;
  spec_info : SwaggerInfo;
  spec_paths : gmap string (gmap string SwaggerOperation);
  spec_definitions : gmap string SwaggerDefinition
}.

(** * Readers *)

(** A [HashMap]: of a key that occurs more than once, the last value. *)
Definition read_map {T} (read : value -> option T) (v : value) : option (gmap string T) :=
  match v with
  | Object l => foldl (fun acc kv => m ← acc; x ← read kv.2; Some (<[kv.1 := x]> m)) (Some ∅) l
  | _ => None
  end.

Definition items_ref_of_json (v : value) : option SwaggerItemsRef :=
  f ← read_struct ["$ref"; "type"] v;
  r ← dflt None (read_option read_string) f "$ref" 0;
  t ← dflt None (read_option read_string) f "type" 1;
  Some (mk_items_ref r t).

Definition schema_ref_of_json (v : value) : option SwaggerSchemaRef :=
  f ← read_struct ["$ref"; "type"; "items"] v;
  r ← dflt None (read_option read_string) f "$ref" 0;
  t ← dflt None (read_option read_string) f "type" 1;
  i ← dflt None (read_option items_ref_of_json) f "items" 2;
  Some (mk_schema_ref r t i).

Definition parameter_of_json (v : value) : option SwaggerParameter :=
  f ← read_struct ["name"; "in"; "required"; "type"; "description"; "format"; "enum"; "schema"; "default"] v;
  name ← dflt EmptyString read_string f "name" 0;
  location ← dflt EmptyString read_string f "in" 1;
  required ← dflt false read_bool f "required" 2;
  ty ← dflt EmptyString read_string f "type" 3;
  description ← dflt EmptyString read_string f "description" 4;
  format ← dflt EmptyString read_string f "format" 5;
  allowed ← dflt None (read_option (read_list read_string)) f "enum" 6;
  schema ← dflt None (read_option schema_ref_of_json) f "schema" 7;
  default ← dflt None (read_option read_value) f "default" 8;
  Some (mk_swagger_parameter name location required ty description format allowed schema default).

(** How deep a document is nested: more than the levels of [items] it can have. *)
Fixpoint depth (v : value) : nat :=
  match v with
  | Array l => S (foldr (fun w n => Nat.max (depth w) n) O l)
  | Object l => S (foldr (fun kw n => Nat.max (depth kw.2) n) O l)
  | _ => O
  end.

Fixpoint property_at (levels : nat) (v : value) : option SwaggerProperty :=
  match levels with
  | O => None
  | S levels =>
      f ← read_struct ["type"; "description"; "$ref"; "items"; "enum"; "default"] v;
      ty ← dflt EmptyString read_string f "type" 0;
      description ← dflt EmptyString read_string f "description" 1;
      r ← dflt None (read_option read_string) f "$ref" 2;
      items ← dflt None (read_option (property_at levels)) f "items" 3;
      allowed ← dflt None (read_option (read_list read_string)) f "enum" 4;
      default ← dflt None (read_option read_value) f "default" 5;
      Some (mk_property ty description r items allowed default)
  end.

Definition property_of_json (v : value) : option SwaggerProperty := property_at (S (depth v)) v.

Definition definition_of_json (v : value) : option SwaggerDefinition :=
  f ← read_struct ["properties"; "required"] v;
  properties ← dflt ∅ (read_map property_of_json) f "properties" 0;
  required ← dflt [] (read_list read_string) f "required" 1;
  Some (mk_definition properties required).

Definition operation_of_json (v : value) : option SwaggerOperation :=
  f ← read_struct ["deprecated"; "summary"; "description"; "parameters"; "x-security"; "x-operationId"; "produces"] v;
  deprecated ← dflt false read_bool f "deprecated" 0;
  summary ← dflt EmptyString read_string f "summary" 1;
  description ← dflt EmptyString read_string f "description" 2;
  parameters ← dflt [] (read_list parameter_of_json) f "parameters" 3;
  security ← dflt Null read_value f "x-security" 4;
  id ← dflt None (read_option read_string) f "x-operationId" 5;
  produces ← dflt [] (read_list read_string) f "produces" 6;
  Some (mk_swagger_operation deprecated summary description parameters security id produces).

Definition info_of_json (v : value) : option SwaggerInfo :=
  f ← read_struct ["title"; "version"] v;
  title ← dflt EmptyString read_string f "title" 0;
  version ← dflt EmptyString read_string f "version" 1;
  Some (mk_info title version).

Definition spec_of_json (v : value) : option SwaggerSpec :=
  f ← read_struct ["swagger"; "info"; "paths"; "definitions"] v;
  swagger ← req read_string f "swagger" 0;
  info ← dflt (mk_info EmptyString EmptyString) info_of_json f "info" 1;
  paths ← dflt ∅ (read_map (read_map operation_of_json)) f "paths" 2;
  definitions ← dflt ∅ (read_map definition_of_json) f "definitions" 3;
  Some (mk_spec swagger info paths definitions).

(** * Levels *)

Lemma depth_field f v k i w : read_struct ["type"; "description"; "$ref"; "items"; "enum"; "default"] v = Some f -> field_at f k i = Some w ->
  (depth w < depth v)%nat.
Proof.
  destruct v as [| | | |l|l]; simpl; try done.
  - destruct (Nat.leb _ _); [|done]. intros [= <-]. simpl. intros Hw. clear -Hw. revert i Hw.
    induction l as [|x l IH]; intros i Hw; [done|]. destruct i as [|i]; simpl in *; [injection Hw as <-; lia|]. specialize (IH i Hw). lia.
  - destruct (_ && _); [|done]. intros [= <-]. simpl. intros Hw. clear -Hw.
    induction l as [|[k' x] l IH]; [done|]. simpl in *. destruct (String.eqb k k'); [injection Hw as <-; lia|]. specialize (IH Hw). lia.
Qed.

(** More levels than the document has change nothing: no document is refused for the levels. *)
Lemma property_levels n : forall v m, (depth v < n)%nat -> (depth v < m)%nat -> property_at n v = property_at m v.
Proof.
  induction n as [|n IH]; intros v m Hn Hm; [lia|]. destruct m as [|m]; [lia|]. cbn [property_at].
  destruct (read_struct _ v) as [f|] eqn:Ef; [|done]. cbn [mbind option_bind].
  assert (Hi : dflt None (read_option (property_at n)) f "items" 3 = dflt None (read_option (property_at m)) f "items" 3).
  { unfold dflt. destruct (field_at f "items" 3) as [w|] eqn:Ew; [|done]. pose proof (depth_field _ _ _ _ _ Ef Ew).
    unfold read_option. destruct w; try done; (rewrite (IH _ m); [done|lia|lia]). }
  by rewrite Hi.
Qed.
