(* ===== verification/Parser.v ===== *)
(** The catalogue parser ([catalogue/parser.rs]): from an OpenAPI document to the schema of a
    service. The maps of the source are hash maps: they are walked in an arbitrary order. *)

From stdpp Require Import base gmap strings list.
From Stdlib Require Import ZArith Lia Ascii.
From S2P Require Import Prelude Text Kebab Nouns Json Catalogue ErrorCodes Descriptions Swagger.

(** * Hash maps *)

(** The order in which a hash map is walked. *)
Class HashOrder : Type := {
  walk {K} `{Countable K} {A} : gmap K A -> list (K * A);
  walk_perm {K} `{Countable K} {A} (m : gmap K A) : walk m ≡ₚ map_to_list m
}.

(** * Words of the document *)

Definition parse_http_method (name : string) : option HttpMethod :=
  let upper := to_ascii_uppercase name in
  if String.eqb upper "GET" then Some Get
  else if String.eqb upper "POST" then Some Post
  else if String.eqb upper "PUT" then Some Put
  else if String.eqb upper "PATCH" then Some Patch
  else if String.eqb upper "DELETE" then Some Delete
  else None.

Definition parse_parameter_location (name : string) : option ParameterLocation :=
  if String.eqb name "path" then Some InPath
  else if String.eqb name "query" then Some InQuery
  else if String.eqb name "header" then Some InHeader
  else if String.eqb name "body" then Some InBody
  else if String.eqb name "formData" then Some InFormData
  else None.

Definition value_type_from_parameter (type_name : string) (enum_values : option (list string)) : option ValueType :=
  match enum_values with
  | Some values => Some (VEnum values)
  | None =>
      if String.eqb type_name "string" then Some VString
      else if String.eqb type_name "integer" then Some VInteger
      else if String.eqb type_name "number" then Some VNumber
      else if String.eqb type_name "boolean" then Some VBoolean
      else if String.eqb type_name "array" then Some (VArray VString)
      else if String.eqb type_name "file" then Some VString
      else None
  end.

(** [ApiVersion::from_str]: a [u32], with a [v] or without. *)
Definition u32_max : Z := 2 ^ 32 - 1.
Definition parse_api_version (s : string) : option Z := parse_unsigned u32_max (default s (strip_prefix "v" s)).

(** * Mutation class *)

Definition extract_bracketed_actions (permission : string) : list string :=
  match after_last "[" permission with
  | None => []
  | Some rest =>
      match split_once "]" rest with
      | None => []
      | Some (inside, _) => List.filter (fun s => negb (is_empty s)) (map trim (split_char "," inside))
      end
  end.

Definition classify_by_permissions (permissions : list string) : option MutationClass :=
  let actions := concat (map extract_bracketed_actions permissions) in
  let saw_bracket := negb (bool_decide (actions = [])) in
  let saw_write := existsb (fun action => negb (String.eqb action "READ")) actions in
  if negb saw_bracket then None else Some (if saw_write then Mutating else ReadOnly).

Definition READ_PREFIXES : list string := ["list"; "get"; "bulk-get"; "search"; "query"; "export"; "find"; "fetch"].

Definition is_read_operation_name (name : string) : bool :=
  existsb (fun prefix => String.eqb name prefix || starts_with (prefix +:+ "-") name) READ_PREFIXES.

Definition classify_mutation_class (m : HttpMethod) (name : string) (permissions : list string) : MutationClass :=
  match m with
  | Get => ReadOnly
  | Post =>
      match classify_by_permissions permissions with
      | Some class => class
      | None => if is_read_operation_name name then ReadOnly else Mutating
      end
  | _ => Mutating
  end.

(** An item of [x-security] that has the permissions. *)
Definition security_item (v : value) : option (option (list string)) :=
  f ← read_struct ["userPermissions"] v; dflt None (read_option (read_list read_string)) f "userPermissions" 0.

Fixpoint first_some {A} (l : list (option A)) : option A :=
  match l with [] => None | Some x :: _ => Some x | None :: r => first_some r end.

Definition extract_permissions (x_security : value) : list string :=
  default [] (items ← read_list security_item x_security; first_some items).

(** * Body schemas *)

Definition ref_short_name (ref_path : string) : string := default ref_path (after_last "/" ref_path).

Definition scalar_type_from_swagger (type_name : string) : BodyFieldType :=
  if String.eqb type_name "string" then FString
  else if String.eqb type_name "integer" then FInteger
  else if String.eqb type_name "boolean" then FBoolean
  else if String.eqb type_name "number" then FNumber
  else FObject.

Definition compute_field_type (prop : SwaggerProperty) : BodyFieldType :=
  match pr_ref_path prop with
  | Some ref_path => FReference (ref_short_name ref_path)
  | None =>
      if String.eqb (pr_property_type prop) "array" then
        FArray
          match pr_items prop with
          | Some items =>
              match pr_ref_path items with
              | Some ref_path => FReference (ref_short_name ref_path)
              | None => if is_empty (pr_property_type items) then FObject else scalar_type_from_swagger (pr_property_type items)
              end
          | None => FObject
          end
      else if is_empty (pr_property_type prop) then FObject
      else scalar_type_from_swagger (pr_property_type prop)
  end.

(** [!s.is_empty()).then(|| s)]. *)
Definition non_empty (s : string) : option string := if is_empty s then None else Some s.

(** Required fields first, then by name. *)
Definition field_le (a b : BodyField) : bool :=
  match field_required a, field_required b with
  | true, false => true
  | false, true => false
  | _, _ => String.leb (field_name a) (field_name b)
  end.

(** The accumulator: by resource and method, then by scope, then by version. *)
Notation Versions := (gmap Z OperationSchema).
Notation Scopes := (gmap string Versions).
Notation Accumulator := (gmap (string * string) Scopes).

Section parser.
Context `{HashOrder, UnicodeCase}.

Section body.
Variable spec : SwaggerSpec.

(** The fields of the definition a reference names, unless it is being expanded already. *)
Definition expand (fields_of : SwaggerDefinition -> list string -> list BodyField) (ref_path : string) (visited : list string)
  : option (list BodyField) :=
  let def_name := ref_short_name ref_path in
  if existsb (String.eqb def_name) visited then Some []
  else option_map (fun def => fields_of def (def_name :: visited)) (spec_definitions spec !! def_name).

(** [resolve_nested], when there is a level left. *)
Definition resolve_nested (fields_of : SwaggerDefinition -> list string -> list BodyField) (prop : SwaggerProperty) (visited : list string)
  : list BodyField :=
  match (ref_path ← pr_ref_path prop; expand fields_of ref_path visited) with
  | Some children => children
  | None =>
      if String.eqb (pr_property_type prop) "array"
      then default [] (items ← pr_items prop; ref_path ← pr_ref_path items; expand fields_of ref_path visited)
      else []
  end.

Definition body_field (required : list string) (name : string) (prop : SwaggerProperty) (children : list BodyField) : BodyField :=
  mk_body_field name
    (match pr_enum_values prop with Some values => FEnum values | None => compute_field_type prop end)
    (existsb (String.eqb name) required) (non_empty (pr_description prop)) children (pr_default prop).

(** The levels left below are three less the [depth] of the source; the set of visited names
    is extended for the calls below and restored after them. *)
Fixpoint resolve_definition_fields_recursive (levels : nat) (definition : SwaggerDefinition) (visited : list string) : list BodyField :=
  let nested := match levels with O => fun _ => [] | S levels => fun prop => resolve_nested (resolve_definition_fields_recursive levels) prop visited end in
  sort_by field_le (map (fun np => body_field (df_required definition) np.1 np.2 (nested np.2)) (walk (df_properties definition))).

Definition MAX_BODY_LEVELS : nat := 3.

Definition resolve_definition_fields (definition : SwaggerDefinition) : list BodyField :=
  resolve_definition_fields_recursive MAX_BODY_LEVELS definition [].

Definition resolve_object_body (def_name : string) (is_array : bool) : option BodySchema :=
  definition ← spec_definitions spec !! def_name;
  let fields := resolve_definition_fields definition in
  if bool_decide (fields = []) then None else Some (mk_body_schema def_name fields is_array None).

Definition scalar_array (type_name : string) : option BodySchema :=
  match scalar_type_from_swagger type_name with
  | FObject => None
  | item => Some (mk_body_schema ("array of " +:+ type_name) [] true (Some item))
  end.

Definition is_body (p : SwaggerParameter) : bool := String.eqb (sp_location p) "body".

(** The operation of a path and a method. *)
Definition operation_at (path http_method : string) : option SwaggerOperation :=
  item ← spec_paths spec !! path; item !! to_lowercase http_method.

Definition resolve_body_schema (path http_method : string) : option BodySchema :=
  operation ← operation_at path http_method;
  body_param ← List.find is_body (so_parameters operation);
  schema_ref ← sp_schema body_param;
  match sr_ref_path schema_ref with
  | Some ref_path => resolve_object_body (ref_short_name ref_path) false
  | None =>
      if bool_decide (sr_schema_type schema_ref = Some "array") then
        items ← sr_items schema_ref;
        match ir_ref_path items with
        | Some ref_path => resolve_object_body (ref_short_name ref_path) true
        | None => type_name ← ir_schema_type items; scalar_array type_name
        end
      else None
  end.

(** * Operations *)

Definition parse_parameter (p : SwaggerParameter) : option ParameterSchema :=
  location ← parse_parameter_location (sp_location p);
  ty ← value_type_from_parameter (sp_parameter_type p) (sp_enum_values p);
  Some (mk_parameter (sp_name p) location (sp_is_required p) ty
          (bool_decide (location = InFormData) && String.eqb (sp_parameter_type p) "file") (non_empty (sp_description p)) (sp_default p)).

Definition get_operation_params (path http_method : string) : list ParameterSchema :=
  match operation_at path http_method with
  | Some operation => omap parse_parameter (List.filter (fun p => negb (is_body p)) (so_parameters operation))
  | None => []
  end.

Record ParsedOperation : Type := mk_parsed {
  po_resource : string;
  po_method_name : string;
  po_scope : string;
  po_api_version : Z;
  po_schema : OperationSchema
}.

Definition operation_schema (path http_method_upper : string) (operation : SwaggerOperation) (id scope name : string) (version : Z)
    (http_method : HttpMethod) : OperationSchema :=
  let permissions := extract_permissions (so_x_security operation) in
  mk_operation id name (trim (so_summary operation)) (non_empty (so_description operation))
    (classify_mutation_class http_method name permissions) http_method path (get_operation_params path http_method_upper)
    (if existsb is_body (so_parameters operation) then resolve_body_schema path http_method_upper else None)
    None permissions scope version false (head (so_produces operation)).

Definition parse_operation (path http_method_name : string) (operation : SwaggerOperation) : option ParsedOperation :=
  id ← (s ← so_x_operation_id operation; non_empty s);
  match split_char "/" id with
  | [_; scope; resource; version; method] =>
      if String.eqb resource "internal" then None
      else
        api_version ← parse_api_version version;
        let upper := to_uppercase http_method_name in
        http_method ← parse_http_method upper;
        Some (mk_parsed resource method scope api_version (operation_schema path upper operation id scope method api_version http_method))
  | _ => None
  end.

Definition HTTP_METHOD_NAMES : list string := ["get"; "post"; "put"; "patch"; "delete"].

(** The operations that survive, in the order in which they are seen. *)
Definition live_operation (path name : string) (item : gmap string SwaggerOperation) : option ParsedOperation :=
  operation ← item !! name;
  if so_is_deprecated operation then None else parse_operation path name operation.

Definition spec_operations : list ParsedOperation :=
  concat (map (fun pi => omap (fun name => live_operation pi.1 name pi.2) HTTP_METHOD_NAMES) (walk (spec_paths spec))).
End body.

(** * Grouping *)

(** A duplicate is put back: the first entry stays. *)
Definition insert_version (version : Z) (op : OperationSchema) (bucket : Versions) : Versions :=
  match bucket !! version with
  | Some existing => <[version := existing]> (<[version := op]> bucket)
  | None => <[version := op]> bucket
  end.

Definition accumulate (acc : Accumulator) (p : ParsedOperation) : Accumulator :=
  let key := (po_resource p, po_method_name p) in
  let scope_bucket := default ∅ (acc !! key) in
  let version_bucket := default ∅ (scope_bucket !! po_scope p) in
  <[key := <[po_scope p := insert_version (po_api_version p) (po_schema p) version_bucket]> scope_bucket]> acc.

Definition choose_default_scope (scope_map : Scopes) : option string :=
  if bool_decide (is_Some (scope_map !! "admin")) then Some "admin"
  else match walk scope_map with [(name, _)] => Some name | _ => None end.

Definition version_le (a b : OperationSchema) : bool := api_version a <=? api_version b.

(** The greatest version, 0 when there is none. *)
Definition max_version (cs : list OperationSchema) : Z :=
  match cs with [] => 0 | c :: r => foldl (fun m c => Z.max m (api_version c)) (api_version c) r end.

Definition scope_entry (name : string) (versions : Versions) : ScopeEntry :=
  let contracts := sort_by version_le (map snd (walk versions)) in
  mk_scope name (max_version contracts) contracts.

Definition scope_le (a b : ScopeEntry) : bool := String.leb (scope a) (scope b).

Definition method_summary_of (default_scope : option string) (scopes : list ScopeEntry) : string :=
  let chosen :=
    entry ← List.find (fun e => bool_decide (Some (scope e) = default_scope)) scopes;
    contract ← List.find (fun c => api_version c =? default_version entry) (contracts entry);
    Some (op_summary contract) in
  match chosen with
  | Some summary => summary
  | None => default EmptyString (s ← head scopes; c ← head (contracts s); Some (op_summary c))
  end.

Definition method_schema (name : string) (scope_map : Scopes) : MethodSchema :=
  let default_scope := choose_default_scope scope_map in
  let scopes := sort_by scope_le (map (fun sv => scope_entry sv.1 sv.2) (walk scope_map)) in
  mk_method name (method_summary_of default_scope scopes) default_scope scopes.

(** The methods of each resource, in the order in which they are met. *)
Definition group_methods (acc : Accumulator) : gmap string (list MethodSchema) :=
  foldl (fun resource_map kv => <[kv.1.1 := default [] (resource_map !! kv.1.1) ++ [method_schema kv.1.2 kv.2]]> resource_map) ∅ (walk acc).

Definition method_le (a b : MethodSchema) : bool := String.leb (method_name a) (method_name b).
Definition resource_le (a b : ResourceSchema) : bool := String.leb (resource_name a) (resource_name b).

Definition resource_schema (service name : string) (methods : list MethodSchema) : ResourceSchema :=
  let methods := sort_by method_le methods in
  mk_resource name (default (draft_resource_description name (map method_name methods)) (get_resource_description service name)) methods.

Definition group_resources (service : string) (acc : Accumulator) : list ResourceSchema :=
  sort_by resource_le (map (fun nm => resource_schema service nm.1 nm.2) (walk (group_methods acc))).

Definition parse_spec (service : string) (spec : SwaggerSpec) : ServiceSchema :=
  mk_service service (service_description service) (group_resources service (foldl accumulate ∅ (spec_operations spec))).
End parser.
