(* ===== verification/Skeleton.v ===== *)
(** The skeleton of a request body ([catalogue/skeleton.rs]): a document of the body's shape with
    placeholders for its values. *)

From Stdlib Require Import ZArith Lia Ascii Strings.Byte Sorting.Sorted.
From stdpp Require Import base gmap strings list.
From S2P Require Import Prelude Text Kebab Json JsonNormal Catalogue.

#[local] Arguments String.append !_ _ /.

Section skeleton.
Context `{UnicodeCase}.

(** The djb2 hash, in [u64] with wrap-around. *)
Definition field_hash (name : string) : Z :=
  foldl (fun hash b => (hash * 33 + Z.of_N (Byte.to_N b)) mod 2 ^ 64) 5381 (as_bytes name).

Definition scalar_placeholder_string (name : string) : value := Str ("my-" +:+ to_kebab_case name).

Definition scalar_placeholder_for_type (ty : BodyFieldType) (name : string) : value :=
  match ty with
  | FBoolean => Bool (field_hash name mod 2 =? 0)
  | FInteger | FNumber => int (field_hash name mod 100)
  | _ => scalar_placeholder_string name
  end.

(** A [Map]: sorted, the last value of a name. *)
Fixpoint field_to_value (f : BodyField) : value :=
  let nested := foldl (fun map kv => obj_insert kv.1 kv.2 map) [] (map (fun c => (field_name c, field_to_value c)) (children f)) in
  let has_children := negb (bool_decide (children f = [])) in
  match field_type f with
  | FEnum values => match values with v :: _ => Str v | [] => scalar_placeholder_string (field_name f) end
  | FArray inner => Array [if has_children then Object nested else scalar_placeholder_for_type inner (field_name f)]
  | FObject | FReference _ => if has_children then Object nested else Object []
  | scalar => scalar_placeholder_for_type scalar (field_name f)
  end.

Definition build_fields_object (fields : list BodyField) : value :=
  Object (foldl (fun map kv => obj_insert kv.1 kv.2 map) [] (map (fun f => (field_name f, field_to_value f)) fields)).

Definition build_body_schema_skeleton (schema : BodySchema) : value :=
  if is_array schema then
    match item_type schema with
    | Some item_type => Array [scalar_placeholder_for_type item_type "item"]
    | None => Array [build_fields_object (body_fields schema)]
    end
  else build_fields_object (body_fields schema).

Definition build_body_skeleton (op : OperationSchema) : value :=
  match request_body op with Some body => build_body_schema_skeleton body | None => Object [] end.
End skeleton.

(** * Placeholders have the type of their field *)

(** Types whose placeholder is a scalar of the type. *)
Definition scalar_type (ty : BodyFieldType) : bool := match ty with FString | FInteger | FBoolean | FNumber => true | _ => false end.

(** Field names are distinct on every level, and the elements of an array are scalars or
    have fields. *)
Inductive tidy : BodyField -> Prop :=
| tidy_field f : NoDup (map field_name (children f)) -> Forall tidy (children f) ->
    (forall inner, field_type f = FArray inner -> children f = [] -> scalar_type inner = true) -> tidy f.

Inductive value_of : BodyFieldType -> list BodyField -> value -> Prop :=
| of_string cs s : value_of FString cs (Str s)
| of_integer cs z : 0 <= z < 100 -> value_of FInteger cs (int z)
| of_number cs z : 0 <= z < 100 -> value_of FNumber cs (int z)
| of_boolean cs b : value_of FBoolean cs (Bool b)
| of_enum allowed cs s : allowed = [] \/ s ∈ allowed -> value_of (FEnum allowed) cs (Str s)
| of_scalars inner v : value_of inner [] v -> value_of (FArray inner) [] (Array [v])
| of_objects inner cs v : object_of cs v -> value_of (FArray inner) cs (Array [v])
| of_object cs v : object_of cs v -> value_of FObject cs v
| of_reference name cs v : object_of cs v -> value_of (FReference name) cs v
with object_of : list BodyField -> value -> Prop :=
| of_fields cs l : StronglySorted key_lt l -> (forall k, is_Some (obj_get k l) <-> k ∈ map field_name cs) ->
    (forall c, c ∈ cs -> exists w, obj_get (field_name c) l = Some w /\ value_of (field_type c) (children c) w) -> object_of cs (Object l).

Section conform.
Context `{UnicodeCase}.

Lemma scalar_placeholder_of_type ty cs name : scalar_type ty = true -> value_of ty cs (scalar_placeholder_for_type ty name).
Proof. assert (Hm : 0 <= field_hash name mod 100 < 100) by (apply Z.mod_pos_bound; lia). destruct ty; try done; by constructor. Qed.

(** The entries of distinct names, inserted one after the other. *)
Lemma inserted_entries (l : list (string * value)) : forall acc, NoDup (map fst l) -> StronglySorted key_lt acc ->
  let m := foldl (fun map kv => obj_insert kv.1 kv.2 map) acc l in
  StronglySorted key_lt m /\ forall k, obj_get k m = match list_to_map (M:=gmap string value) l !! k with Some v => Some v | None => obj_get k acc end.
Proof.
  induction l as [|[k v] l IH]; intros acc Hn Hs; simpl; [split; [done|]; intros k; by rewrite lookup_empty|].
  apply NoDup_cons in Hn as [Hk Hn]. destruct (IH (obj_insert k v acc) Hn (obj_insert_sorted _ _ _ Hs)) as [Hm Hg]. split; [done|].
  intros k'. rewrite Hg, obj_get_insert, lookup_insert. destruct (String.eqb_spec k' k) as [->|Hne].
  - rewrite decide_True by done. by rewrite not_elem_of_list_to_map_1.
  - by rewrite decide_False.
Qed.

Lemma object_conforms cs (g : BodyField -> value) : NoDup (map field_name cs) ->
  (forall c, c ∈ cs -> value_of (field_type c) (children c) (g c)) ->
  object_of cs (Object (foldl (fun map kv => obj_insert kv.1 kv.2 map) [] (map (fun c => (field_name c, g c)) cs))).
Proof.
  intros Hn Hv. assert (Hk : map fst (map (fun c => (field_name c, g c)) cs) = map field_name cs) by (by rewrite map_map).
  destruct (inserted_entries (map (fun c => (field_name c, g c)) cs) [] ltac:(by rewrite Hk) ltac:(constructor)) as [Hs Hg].
  assert (Hl : forall k v, list_to_map (M:=gmap string value) (map (fun c => (field_name c, g c)) cs) !! k = Some v <->
                            exists c, c ∈ cs /\ k = field_name c /\ v = g c).
  { intros k v. rewrite <- elem_of_list_to_map by (unfold fmap; by setoid_rewrite Hk). rewrite list_elem_of_fmap. naive_solver. }
  constructor; [done| |].
  - intros k. rewrite Hg. simpl. split.
    + intros [v Hk']. destruct (list_to_map _ !! k) as [w|] eqn:E; [|done]. apply Hl in E as (c & Hc & -> & _). by apply list_elem_of_fmap_2.
    + intros (c & -> & Hc)%list_elem_of_fmap. by rewrite (proj2 (Hl _ (g c)) ltac:(eauto)).
  - intros c Hc. exists (g c). split; [|by apply Hv]. rewrite Hg. by rewrite (proj2 (Hl _ (g c)) ltac:(eauto)).
Qed.

Lemma field_conforms f : tidy f -> value_of (field_type f) (children f) (field_to_value f).
Proof.
  induction f as [f IH] using body_field_ind'. intros Ht. inversion Ht as [f' Hn Hc Ha]; subst f'.
  assert (Hnested : object_of (children f) (Object (foldl (fun map kv => obj_insert kv.1 kv.2 map) [] (map (fun c => (field_name c, field_to_value c)) (children f))))).
  { apply object_conforms; [done|]. intros c Hin. rewrite Forall_forall in IH, Hc. auto. }
  destruct f as [name ty req desc cs d]; cbn [field_type children field_name] in *. destruct ty; cbn [field_to_value field_type children field_name].
  - by apply scalar_placeholder_of_type.
  - by apply scalar_placeholder_of_type.
  - by apply scalar_placeholder_of_type.
  - by apply scalar_placeholder_of_type.
  - destruct allowed; constructor; [by left|right; by left].
  - case_bool_decide as Hcs; simpl; [subst cs; apply of_scalars, scalar_placeholder_of_type; by apply Ha|by apply of_objects].
  - case_bool_decide as Hcs; simpl; apply of_object; [by subst cs|done].
  - case_bool_decide as Hcs; simpl; apply of_reference; [by subst cs|done].
Qed.

(** The skeleton of an object body has exactly its fields, each with a value of its type. *)
Theorem skeleton_conforms fields : NoDup (map field_name fields) -> Forall tidy fields -> object_of fields (build_fields_object fields).
Proof.
  intros Hn Ht. apply object_conforms; [done|]. intros c Hc. rewrite Forall_forall in Ht. by apply field_conforms, Ht.
Qed.
End conform.

(** An array whose elements are objects without known fields gets a text as its element. *)
Example array_of_objects_gets_text :
  @build_fields_object ascii_case [mk_body_field "items" (FArray FObject) true None [] None] = Object [("items", Array [Str "my-items"])].
Proof. by vm_compute. Qed.
