(* ===== verification/CatalogueJson.v ===== *)
(** The JSON of a parsed catalogue ([ags-protocol/src/catalogue.rs], the derived serde
    implementations), and that it is read back. *)

From Stdlib Require Import ZArith Lia Ascii Strings.Byte Sorting.Sorted.
From stdpp Require Import base gmap strings list.
From S2P Require Import Prelude Text Json Catalogue Swagger.

(** * Enumerations *)

(** A unit variant: its name, or an object with the name and [null]. *)
Definition read_variant {T} (of_name : string -> option T) (v : value) : option T :=
  match v with Str s | Object [(s, Null)] => of_name s | _ => None end.

Definition mutation_name (m : MutationClass) : string := match m with ReadOnly => "read_only" | Mutating => "mutating" | Diagnostic => "diagnostic" end.
Definition mutation_of_name (s : string) : option MutationClass :=
  if String.eqb s "read_only" then Some ReadOnly else if String.eqb s "mutating" then Some Mutating
  else if String.eqb s "diagnostic" then Some Diagnostic else None.

Definition method_of_name (s : string) : option HttpMethod :=
  if String.eqb s "GET" then Some Get else if String.eqb s "POST" then Some Post else if String.eqb s "PUT" then Some Put
  else if String.eqb s "PATCH" then Some Patch else if String.eqb s "DELETE" then Some Delete else None.

Definition location_name (l : ParameterLocation) : string :=
  match l with InPath => "path" | InQuery => "query" | InHeader => "header" | InBody => "body" | InFormData => "form_data" end.
Definition location_of_name (s : string) : option ParameterLocation :=
  if String.eqb s "path" then Some InPath else if String.eqb s "query" then Some InQuery else if String.eqb s "header" then Some InHeader
  else if String.eqb s "body" then Some InBody else if String.eqb s "form_data" then Some InFormData else None.

(** * Types: tagged by [kind], with their content in [of] *)

(** The tag and the content, if there is one; a pair when the type is written as an array. *)
Definition read_tagged (v : value) : option (string * option value) :=
  f ← read_struct ["kind"; "of"] v;
  kind ← req read_string f "kind" 0;
  match field_at f "of" 1 with
  | Some content => Some (kind, Some content)
  | None => if is_seq f then None else Some (kind, None)
  end.

Definition unit_content {T} (x : T) (content : option value) : option T :=
  match content with None | Some Null => Some x | _ => None end.

Definition tagged (kind : string) (content : list value) : value := Object (("kind", Str kind) :: map (fun v => ("of", v)) content).

Fixpoint value_type_to_json (t : ValueType) : value :=
  match t with
  | VString => tagged "string" []
  | VInteger => tagged "integer" []
  | VBoolean => tagged "boolean" []
  | VNumber => tagged "number" []
  | VEnum allowed => tagged "enum" [Array (map Str allowed)]
  | VArray inner => tagged "array" [value_type_to_json inner]
  end.

Fixpoint value_type_at (levels : nat) (v : value) : option ValueType :=
  match levels with
  | O => None
  | S levels =>
      '(kind, content) ← read_tagged v;
      if String.eqb kind "string" then unit_content VString content
      else if String.eqb kind "integer" then unit_content VInteger content
      else if String.eqb kind "boolean" then unit_content VBoolean content
      else if String.eqb kind "number" then unit_content VNumber content
      else if String.eqb kind "enum" then l ← (c ← content; read_list read_string c); Some (VEnum l)
      else if String.eqb kind "array" then t ← (c ← content; value_type_at levels c); Some (VArray t)
      else None
  end.

Definition value_type_of_json (v : value) : option ValueType := value_type_at (S (depth v)) v.

Fixpoint field_type_to_json (t : BodyFieldType) : value :=
  match t with
  | FString => tagged "string" []
  | FInteger => tagged "integer" []
  | FBoolean => tagged "boolean" []
  | FNumber => tagged "number" []
  | FEnum allowed => tagged "enum" [Array (map Str allowed)]
  | FArray inner => tagged "array" [field_type_to_json inner]
  | FObject => tagged "object" []
  | FReference name => tagged "reference" [Str name]
  end.

Fixpoint field_type_at (levels : nat) (v : value) : option BodyFieldType :=
  match levels with
  | O => None
  | S levels =>
      '(kind, content) ← read_tagged v;
      if String.eqb kind "string" then unit_content FString content
      else if String.eqb kind "integer" then unit_content FInteger content
      else if String.eqb kind "boolean" then unit_content FBoolean content
      else if String.eqb kind "number" then unit_content FNumber content
      else if String.eqb kind "enum" then l ← (c ← content; read_list read_string c); Some (FEnum l)
      else if String.eqb kind "array" then t ← (c ← content; field_type_at levels c); Some (FArray t)
      else if String.eqb kind "object" then unit_content FObject content
      else if String.eqb kind "reference" then s ← (c ← content; read_string c); Some (FReference s)
      else None
  end.

Definition field_type_of_json (v : value) : option BodyFieldType := field_type_at (S (depth v)) v.

(** * Records *)

(** [Option] without attributes: [null] when it is absent. *)
Definition option_to_json {A} (f : A -> value) (o : option A) : value := match o with Some x => f x | None => Null end.

Definition parameter_to_json (p : ParameterSchema) : value :=
  Object [("name", Str (param_name p)); ("location", Str (location_name (param_location p))); ("required", Bool (param_required p));
          ("value_type", value_type_to_json (value_type p)); ("is_file", Bool (is_file p));
          ("description", option_to_json Str (param_description p)); ("default", option_to_json id (param_default p))].

Definition parameter_schema_of_json (v : value) : option ParameterSchema :=
  f ← read_struct ["name"; "location"; "required"; "value_type"; "is_file"; "description"; "default"] v;
  name ← req read_string f "name" 0;
  location ← req (read_variant location_of_name) f "location" 1;
  required ← req read_bool f "required" 2;
  ty ← req value_type_of_json f "value_type" 3;
  file ← dflt false read_bool f "is_file" 4;
  description ← opt read_string f "description" 5;
  default ← dflt None (read_option read_value) f "default" 6;
  Some (mk_parameter name location required ty file description default).

Fixpoint body_field_to_json (b : BodyField) : value :=
  Object [("name", Str (field_name b)); ("field_type", field_type_to_json (field_type b)); ("required", Bool (field_required b));
          ("description", option_to_json Str (field_description b)); ("children", Array (map body_field_to_json (children b)));
          ("default", option_to_json id (field_default b))].

Fixpoint body_field_at (levels : nat) (v : value) : option BodyField :=
  match levels with
  | O => None
  | S levels =>
      f ← read_struct ["name"; "field_type"; "required"; "description"; "children"; "default"] v;
      name ← req read_string f "name" 0;
      ty ← req field_type_of_json f "field_type" 1;
      required ← req read_bool f "required" 2;
      description ← opt read_string f "description" 3;
      cs ← req (read_list (body_field_at levels)) f "children" 4;
      default ← dflt None (read_option read_value) f "default" 5;
      Some (mk_body_field name ty required description cs default)
  end.

Definition body_field_of_json (v : value) : option BodyField := body_field_at (S (depth v)) v.

Definition body_schema_to_json (b : BodySchema) : value :=
  Object ([("definition_name", Str (definition_name b)); ("fields", Array (map body_field_to_json (body_fields b))); ("is_array", Bool (is_array b))] ++
          entry_some "item_type" field_type_to_json (item_type b)).

Definition body_schema_of_json (v : value) : option BodySchema :=
  f ← read_struct ["definition_name"; "fields"; "is_array"; "item_type"] v;
  name ← req read_string f "definition_name" 0;
  fields ← req (read_list body_field_of_json) f "fields" 1;
  array ← dflt false read_bool f "is_array" 2;
  item ← dflt None (read_option field_type_of_json) f "item_type" 3;
  Some (mk_body_schema name fields array item).

Definition response_to_json (r : ResponseSchema) : value :=
  Object [("kind", option_to_json Str (response_kind r)); ("description", option_to_json Str (response_description r))].

Definition response_of_json (v : value) : option ResponseSchema :=
  f ← read_struct ["kind"; "description"] v;
  kind ← opt read_string f "kind" 0;
  description ← opt read_string f "description" 1;
  Some (mk_response kind description).

Definition read_u32 : value -> option Z := read_int 0 (2 ^ 32).

Definition operation_to_json (o : OperationSchema) : value :=
  Object ([("id", Str (op_id o)); ("name", Str (op_name o)); ("summary", Str (op_summary o)); ("description", option_to_json Str (op_description o));
           ("mutation_class", Str (mutation_name (mutation_class o))); ("http_method", Str (method_as_str (http_method o)));
           ("path_template", Str (path_template o)); ("parameters", Array (map parameter_to_json (parameters o)));
           ("request_body", option_to_json body_schema_to_json (request_body o)); ("response", option_to_json response_to_json (op_response o));
           ("permissions", Array (map Str (permissions o))); ("scope", Str (op_scope o)); ("api_version", int (api_version o));
           ("deprecated", Bool (deprecated o))] ++ entry_some "response_content_type" Str (response_content_type o)).

Definition operation_schema_of_json (v : value) : option OperationSchema :=
  f ← read_struct ["id"; "name"; "summary"; "description"; "mutation_class"; "http_method"; "path_template"; "parameters"; "request_body";
                   "response"; "permissions"; "scope"; "api_version"; "deprecated"; "response_content_type"] v;
  id ← req read_string f "id" 0;
  name ← req read_string f "name" 1;
  summary ← req read_string f "summary" 2;
  description ← opt read_string f "description" 3;
  class ← req (read_variant mutation_of_name) f "mutation_class" 4;
  http_method ← req (read_variant method_of_name) f "http_method" 5;
  path ← req read_string f "path_template" 6;
  parameters ← req (read_list parameter_schema_of_json) f "parameters" 7;
  body ← opt body_schema_of_json f "request_body" 8;
  response ← opt response_of_json f "response" 9;
  permissions ← req (read_list read_string) f "permissions" 10;
  scope ← req read_string f "scope" 11;
  version ← req read_u32 f "api_version" 12;
  deprecated ← req read_bool f "deprecated" 13;
  content_type ← dflt None (read_option read_string) f "response_content_type" 14;
  Some (mk_operation id name summary description class http_method path parameters body response permissions scope version deprecated content_type).

Definition scope_to_json (s : ScopeEntry) : value :=
  Object [("scope", Str (scope s)); ("default_version", int (default_version s)); ("contracts", Array (map operation_to_json (contracts s)))].

Definition scope_of_json (v : value) : option ScopeEntry :=
  f ← read_struct ["scope"; "default_version"; "contracts"] v;
  scope ← req read_string f "scope" 0;
  version ← req read_u32 f "default_version" 1;
  contracts ← req (read_list operation_schema_of_json) f "contracts" 2;
  Some (mk_scope scope version contracts).

Definition method_to_json (m : MethodSchema) : value :=
  Object [("name", Str (method_name m)); ("summary", Str (method_summary m)); ("default_scope", option_to_json Str (default_scope m));
          ("scopes", Array (map scope_to_json (scopes m)))].

Definition method_of_json (v : value) : option MethodSchema :=
  f ← read_struct ["name"; "summary"; "default_scope"; "scopes"] v;
  name ← req read_string f "name" 0;
  summary ← req read_string f "summary" 1;
  default_scope ← opt read_string f "default_scope" 2;
  scopes ← req (read_list scope_of_json) f "scopes" 3;
  Some (mk_method name summary default_scope scopes).

Definition resource_to_json (r : ResourceSchema) : value :=
  Object [("name", Str (resource_name r)); ("description", Str (resource_description r)); ("methods", Array (map method_to_json (methods r)))].

Definition resource_of_json (v : value) : option ResourceSchema :=
  f ← read_struct ["name"; "description"; "methods"] v;
  name ← req read_string f "name" 0;
  description ← req read_string f "description" 1;
  methods ← req (read_list method_of_json) f "methods" 2;
  Some (mk_resource name description methods).

Definition service_to_json (s : ServiceSchema) : value :=
  Object [("name", Str (service_name s)); ("description", Str (service_description s)); ("resources", Array (map resource_to_json (resources s)))].

Definition service_of_json (v : value) : option ServiceSchema :=
  f ← read_struct ["name"; "description"; "resources"] v;
  name ← req read_string f "name" 0;
  description ← req read_string f "description" 1;
  resources ← req (read_list resource_of_json) f "resources" 2;
  Some (mk_service name description resources).

(** * Round trips *)

(** A default that was read from a document: not [null], its objects sorted. *)
Definition default_ok (d : option value) : Prop := forall v, d = Some v -> v <> Null /\ normalize v = v.

Inductive field_ok : BodyField -> Prop :=
| field_is_ok f : default_ok (field_default f) -> Forall field_ok (children f) -> field_ok f.

Definition parameter_ok (p : ParameterSchema) : Prop := default_ok (param_default p).

Record operation_ok (o : OperationSchema) : Prop := {
  ok_version : in_u32 (api_version o);
  ok_parameters : Forall parameter_ok (parameters o);
  ok_body b : request_body o = Some b -> Forall field_ok (body_fields b)
}.

Definition scope_ok (s : ScopeEntry) : Prop := in_u32 (default_version s) /\ Forall operation_ok (contracts s).
Definition method_ok (m : MethodSchema) : Prop := Forall scope_ok (scopes m).
Definition resource_ok (r : ResourceSchema) : Prop := Forall method_ok (methods r).
Definition service_ok (s : ServiceSchema) : Prop := Forall resource_ok (resources s).

Lemma read_option_write {T} (read : value -> option T) (write : T -> value) o :
  (forall x, o = Some x -> read (write x) = Some x /\ write x <> Null) -> read_option read (option_to_json write o) = Some o.
Proof. intros Ho. destruct o as [x|]; [|done]. destruct (Ho x eq_refl) as [Hr Hn]. by apply read_option_some. Qed.

Lemma read_option_string o : read_option read_string (option_to_json Str o) = Some o.
Proof. by apply read_option_write. Qed.

Lemma read_default d : default_ok d -> read_option read_value (option_to_json id d) = Some d.
Proof. intros Hd. apply read_option_write. intros x Hx. destruct (Hd x Hx) as [Hn Hc]. unfold read_value, id. by rewrite Hc. Qed.

#[local] Arguments value_type_of_json : simpl never.
#[local] Arguments field_type_of_json : simpl never.
#[local] Arguments body_schema_of_json : simpl never.
#[local] Arguments response_of_json : simpl never.

Section fields_at.
Context {T} (read : value -> option T) (f : fields) (k : string) (i : nat) (v : value).

Lemma req_at x : read v = Some x -> field_at f k i = Some v -> req read f k i = Some x.
Proof. intros Hr Hf. unfold req. by rewrite Hf. Qed.

Lemma opt_at x : read_option read v = Some x -> field_at f k i = Some v -> opt read f k i = Some x.
Proof. intros Hr Hf. unfold opt. by rewrite Hf. Qed.

Lemma dflt_at d x : read v = Some x -> field_at f k i = Some v -> dflt d read f k i = Some x.
Proof. intros Hr Hf. unfold dflt. by rewrite Hf. Qed.
End fields_at.

#[local] Arguments opt : simpl never.
#[local] Arguments dflt : simpl never.
#[local] Arguments read_list : simpl never.

(** Read the next field, whose value is read back by [H]. *)
Ltac back H :=
  match goal with
  | |- mbind _ (req ?r ?f ?k ?i) = _ => rewrite (req_at r f k i _ _ H) by reflexivity
  | |- mbind _ (opt ?r ?f ?k ?i) = _ => rewrite (opt_at r f k i _ _ H) by reflexivity
  | |- mbind _ (dflt ?d ?r ?f ?k ?i) = _ => rewrite (dflt_at r f k i _ d _ H) by reflexivity
  end; simpl.

Lemma read_strings l : read_list read_string (Array (map Str l)) = Some l.
Proof. apply read_list_ok. by apply Forall_forall. Qed.

Lemma value_type_read t : forall n, (depth (value_type_to_json t) < n)%nat -> value_type_at n (value_type_to_json t) = Some t.
Proof.
  induction t as [| | | |allowed|t IH]; intros [|n] Hn; try lia; try done; cbn [value_type_to_json value_type_at] in *; unfold read_tagged, tagged in *; simpl.
  - by rewrite read_strings.
  - rewrite IH; [done|]. simpl in Hn. lia.
Qed.

Lemma field_type_read t : forall n, (depth (field_type_to_json t) < n)%nat -> field_type_at n (field_type_to_json t) = Some t.
Proof.
  induction t as [| | | |allowed|t IH| |name]; intros [|n] Hn; try lia; try done; cbn [field_type_to_json field_type_at] in *; unfold read_tagged, tagged in *; simpl.
  - by rewrite read_strings.
  - rewrite IH; [done|]. simpl in Hn. lia.
Qed.

Lemma field_type_not_null t : field_type_to_json t <> Null.
Proof. by destruct t. Qed.

Lemma value_type_back t : value_type_of_json (value_type_to_json t) = Some t.
Proof. apply value_type_read. lia. Qed.

Lemma field_type_back t : field_type_of_json (field_type_to_json t) = Some t.
Proof. apply field_type_read. lia. Qed.

Lemma parameter_read p : parameter_ok p -> parameter_schema_of_json (parameter_to_json p) = Some p.
Proof.
  intros Hp. destruct p as [name l req ty file desc d]. unfold parameter_ok in Hp. cbn [param_default] in Hp.
  unfold parameter_schema_of_json, parameter_to_json. simpl. destruct l; simpl; (back (value_type_back ty); back (read_option_string desc); back (read_default d Hp); done).
Qed.

Lemma depth_in_list v l : v ∈ l -> (depth v <= foldr (fun w n => Nat.max (depth w) n) O l)%nat.
Proof. induction l as [|w l IH]; [by intros ?%elem_of_nil|]. intros [->|Hv]%elem_of_cons; simpl; [lia|]. specialize (IH Hv). lia. Qed.

Lemma body_field_read f : field_ok f -> forall n, (depth (body_field_to_json f) < n)%nat -> body_field_at n (body_field_to_json f) = Some f.
Proof.
  induction f as [f IH] using body_field_ind'. intros Hok [|n] Hn; [lia|]. inversion Hok as [f' Hd Hc]; subst f'.
  destruct f as [name ty req desc cs d]; cbn [children field_default] in *. cbn [body_field_to_json body_field_at field_name field_type field_required field_description children field_default] in *.
  simpl. back (field_type_back ty). back (read_option_string desc).
  assert (Hcs : read_list (body_field_at n) (Array (map body_field_to_json cs)) = Some cs).
  { apply read_list_ok. apply Forall_forall. intros c Hin. rewrite Forall_forall in IH, Hc. apply IH; [done|by apply Hc|].
    assert (Hin' : body_field_to_json c ∈ map body_field_to_json cs) by (by apply list_elem_of_fmap_2). apply depth_in_list in Hin'. simpl in Hn. lia. }
  back Hcs. back (read_default d Hd). done.
Qed.

Lemma body_schema_read b : Forall field_ok (body_fields b) -> body_schema_of_json (body_schema_to_json b) = Some b.
Proof.
  intros Hb. destruct b as [name fs arr item]; cbn [body_fields] in *.
  assert (Hf : read_list body_field_of_json (Array (map body_field_to_json fs)) = Some fs).
  { apply read_list_ok. eapply Forall_impl; [exact Hb|]. intros f Hf. apply body_field_read; [done|lia]. }
  assert (Hi : forall ty, read_option field_type_of_json (field_type_to_json ty) = Some (Some ty)).
  { intros ty. apply read_option_some; [apply field_type_not_null|apply field_type_back]. }
  unfold body_schema_of_json, body_schema_to_json. destruct item as [ty|]; simpl; back Hf; [|done]. back (Hi ty). done.
Qed.

Lemma response_read r : response_of_json (response_to_json r) = Some r.
Proof. destruct r as [k d]. unfold response_of_json, response_to_json. simpl. back (read_option_string k). back (read_option_string d). done. Qed.

Lemma read_u32_back z : in_u32 z -> read_u32 (int z) = Some z.
Proof. apply read_int_ok. Qed.

Lemma operation_read o : operation_ok o -> operation_schema_of_json (operation_to_json o) = Some o.
Proof.
  intros [Hv Hp Hb]. destruct o as [id name sum desc cls hm path ps body resp perms sc ver dep ct]; cbn [api_version parameters request_body] in *.
  assert (Hps : read_list parameter_schema_of_json (Array (map parameter_to_json ps)) = Some ps).
  { apply read_list_ok. eapply Forall_impl; [exact Hp|]. apply parameter_read. }
  assert (Hbody : read_option body_schema_of_json (option_to_json body_schema_to_json body) = Some body).
  { apply read_option_write. intros b Hb'. split; [|by destruct b]. by apply body_schema_read, Hb. }
  assert (Hresp : read_option response_of_json (option_to_json response_to_json resp) = Some resp).
  { apply read_option_write. intros r _. split; [|by destruct r]. apply response_read. }
  assert (Hct : forall c, read_option read_string (Str c) = Some (Some c)) by done.
  unfold operation_schema_of_json, operation_to_json. destruct ct as [ct|]; simpl; back (read_option_string desc);
    (destruct cls; simpl; (destruct hm; simpl; (back Hps; back Hbody; back Hresp; back (read_strings perms); back (read_u32_back ver Hv); first [back (Hct ct)|idtac]; done))).
Qed.

Lemma scope_read s : scope_ok s -> scope_of_json (scope_to_json s) = Some s.
Proof.
  intros [Hv Hc]. destruct s as [n v cs]; cbn [default_version contracts] in *. unfold scope_of_json, scope_to_json. simpl. back (read_u32_back v Hv).
  back (read_list_ok _ operation_to_json cs (Forall_impl _ _ _ Hc operation_read)). done.
Qed.

Lemma method_read m : method_ok m -> method_of_json (method_to_json m) = Some m.
Proof.
  intros Hm. destruct m as [n s d ss]; unfold method_ok in Hm; cbn [scopes] in *. unfold method_of_json, method_to_json. simpl. back (read_option_string d).
  back (read_list_ok _ scope_to_json ss (Forall_impl _ _ _ Hm scope_read)). done.
Qed.

Lemma resource_read r : resource_ok r -> resource_of_json (resource_to_json r) = Some r.
Proof.
  intros Hr. destruct r as [n d ms]; unfold resource_ok in Hr; cbn [methods] in *. unfold resource_of_json, resource_to_json. simpl. back (read_list_ok _ method_to_json ms (Forall_impl _ _ _ Hr method_read)). done.
Qed.

(** A schema is read back from its JSON. *)
Lemma service_read s : service_ok s -> service_of_json (service_to_json s) = Some s.
Proof.
  intros Hs. destruct s as [n d rs]; unfold service_ok in Hs; cbn [resources] in *. unfold service_of_json, service_to_json. simpl. back (read_list_ok _ resource_to_json rs (Forall_impl _ _ _ Hs resource_read)). done.
Qed.
