(* ===== verification/Classify.v ===== *)
(** API errors as messages ([dispatch/classify.rs]): the kind of an error from its
    status, and its message, reason and suggestion from the curated tables, the server's
    own text and the status. *)

From stdpp Require Import base gmap sets strings list.
From Stdlib Require Import ZArith Lia Ascii.
From S2P Require Import Prelude Text Kebab Nouns Json Catalogue Results Sanitise Workflow Request Http Pagination ErrorCodes.

#[local] Arguments String.append !_ _ /.

(** [ErrorMetadata]; its telemetry fields and trace are empty here. *)
Record ErrorMetadata : Type := mk_metadata {
  md_reason : option string;
  md_detail : option string;
  md_suggestion : option string;
  md_suggestion_kind : SuggestionKind;
  md_tip : option string
}.

Definition metadata (reason detail suggestion : option string) : ErrorMetadata := mk_metadata reason detail suggestion Fix_ None.

(** * Reading the body *)

Definition body_code (b : value) : option Z := v ← get_key "errorCode" b; as_i64 v.

Definition body_message (b : value) : option string := v ← get_key "errorMessage" b; as_str v.

(** The code of the payload as text, when it is not zero. *)
Definition code_text (b : value) : option string :=
  code ← body_code b; if code =? 0 then None else Some (show_int code).

Definition derive_runtime_error_kind (status : Z) (b : value) : RuntimeErrorKind :=
  if status =? 401 then NotAuthenticated
  else if status =? 403 then Forbidden
  else if status =? 404 then NotFound
  else if (status =? 400) || (status =? 422) then Rejected
  else Upstream status (code_text b).

(** * The server's text *)

Definition USER_ID_SUFFIX : string := ", userID: ".

Definition strip_user_id_suffix (message : string) : string :=
  match split_find USER_ID_SUFFIX message with
  | Some (before, _) =>
      let cleaned := trim_end_matches "." before in
      if is_empty cleaned then message else cleaned
  | None => message
  end.

(** [&s[n..]], which panics inside a character or past the end. *)
Definition slice_from (n : nat) (s : string) : option string := if is_char_boundary n s then Some (drop_chars n s) else None.

Section classify.
Context `{UnicodeCase}.

Definition operation_failed_headline (method resource : string) : string :=
  let verb := (span (is_char "-") method).1 in
  let resource_noun := kebab_case_to_words (singularize resource) in
  let noun := match split_once "-" method with
              | None => resource_noun
              | Some (_, after) => command_object after resource_noun
              end in
  capitalize_first (verb +:+ " " +:+ noun) +:+ " failed".

Definition GENERIC_PLACEHOLDERS : list string := ["error"; "internal error"; "bad request"; "unknown error"; "validation error"].

Definition normalize_text (s : string) : string := to_lowercase (trim_end_matches "." (trim s)).

Definition is_informative_server_message (clean curated_message : string) (curated_reason : option string) : bool :=
  let c := normalize_text clean in
  negb (is_empty c || existsb (String.eqb c) GENERIC_PLACEHOLDERS || String.eqb c (normalize_text curated_message) ||
        match curated_reason with Some reason => String.eqb c (normalize_text reason) | None => false end).

Definition full_stop (s : string) : string := if ends_with "." s then s else s +:+ ".".

(** The first separator that occurs, and the position where it does. *)
Definition find_separator (lower : string) : option (nat * string) :=
  match split_find "details:" lower with
  | Some (before, _) => Some (String.length before, "details:")
  | None =>
      match split_find "detail:" lower with
      | Some (before, _) => Some (String.length before, "detail:")
      | None => None
      end
  end.

(** [None] is a panic: the position is found in the lower-cased text and used in the
    text itself. *)
Definition split_validation_error_message (raw : string) : option (string * option string) :=
  let lower := to_lowercase raw in
  match find_separator lower with
  | Some (pos, separator) =>
      before ← slice_to pos raw;
      after ← slice_from (pos + String.length separator) raw;
      let before := trim (trim_end_matches "," (trim before)) in
      let after := trim after in
      Some (if is_empty before then "Validation error" else trim_end_matches "." (capitalize_first before),
            if is_empty after then None else Some (full_stop (capitalize_first after)))
  | None =>
      if contains "validation error" lower then Some ("Validation error", Some (full_stop (capitalize_first raw)))
      else Some (trim_end_matches "." (capitalize_first raw), None)
  end.

(** * The message *)

Definition check_fields : option string := Some "Check the request fields and retry.".

Definition raw_message (b : value) : string := strip_terminal_control_sequences (default EmptyString (body_message b)).

Definition classify_by_http_status (status : Z) (b : value) (service resource : string) (clean_message detail : option string)
  : option (string * option ErrorMetadata) :=
  if status =? 401 then
    Some ("Request was not authorized", Some (metadata clean_message detail (Some "Run 'ags auth login'.")))
  else if status =? 403 then
    Some ("You do not have permission for this operation",
          Some (metadata clean_message detail (Some "Check that your account has the required role and permissions.")))
  else if status =? 404 then
    Some (capitalize_first (kebab_case_to_words (singularize resource)) +:+ " not found",
          Some (mk_metadata clean_message detail
                  (Some ("Run 'ags " +:+ service +:+ " " +:+ resource +:+ " --help' to see available methods.")) Next_ None))
  else if status =? 409 then
    Some ("Update rejected — resource has changed", Some (metadata clean_message detail (Some "Fetch the latest version and retry.")))
  else if status =? 429 then Some ("Too many requests", Some (metadata clean_message detail (Some "Wait a moment and retry.")))
  else if status =? 406 then
    Some ("This operation requires a JSON request body",
          Some (metadata clean_message detail (Some "Pass --json '{}' (or a filter body) and retry.")))
  else if (status =? 400) || (status =? 422) then
    split ← (if is_empty (raw_message b) then Some ("Validation error", Some "The request was invalid.")
             else split_validation_error_message (raw_message b));
    Some (split.1, Some (metadata split.2 detail check_fields))
  else if status =? 501 then
    Some ("Not implemented",
          Some (mk_metadata (Some "This operation is not yet supported by the API.") detail None Fix_
                  (Some "This endpoint may be available in a future API version.")))
  else if 500 <=? status then Some ("Server error", Some (metadata clean_message detail (Some "Retry the command.")))
  else
    Some (default ("HTTP " +:+ show_int status +:+ " error") clean_message,
          option_map (fun d => metadata None (Some d) None) detail).

(** What a curated mapping gives, and what the server's own message overrides. *)
Definition classify_curated (mapping : ErrorMapping) (resource method : string) (clean_message detail : option string)
  : string * option ErrorMetadata :=
  let curated := (mapping_message mapping,
                  Some (mk_metadata (match mapping_reason mapping with Some r => Some r | None => clean_message end) detail
                          (mapping_suggestion mapping) Fix_ (mapping_tip mapping))) in
  match clean_message with
  | Some clean =>
      if is_informative_server_message clean (mapping_message mapping) (mapping_reason mapping) then
        (operation_failed_headline method resource,
         Some (metadata (Some clean) (option_map (fun d => d +:+ " (" +:+ mapping_message mapping +:+ ")") detail) None))
      else curated
  | None => curated
  end.

Definition names_details (raw : string) : bool := let lower := to_lowercase raw in contains "details:" lower || contains "detail:" lower.

Definition classify_error_message_and_metadata (status : Z) (b : value) (service resource method : string)
  : option (string * option ErrorMetadata) :=
  let error_code := default 0 (body_code b) in
  let detail := if error_code =? 0 then None else Some ("Error code " +:+ show_int error_code) in
  if ((status =? 400) || (status =? 422)) && names_details (raw_message b) then
    split ← split_validation_error_message (raw_message b);
    Some (split.1, Some (metadata split.2 detail check_fields))
  else
    let clean_message := option_map (fun m => strip_terminal_control_sequences (strip_user_id_suffix m)) (body_message b) in
    match lookup_error service error_code with
    | Some mapping => Some (classify_curated mapping resource method clean_message detail)
    | None => classify_by_http_status status b service resource clean_message detail
    end.

Definition classify_to_runtime_error (status : Z) (b : value) (service resource method : string) : option RuntimeError :=
  classified ← classify_error_message_and_metadata status b service resource method;
  let '(message, md) := classified in
  Some (mk_error (derive_runtime_error_kind status b) message
          (option_map (fun m => mk_details (code_text b) (md_reason m) (md_detail m) (Some (md_suggestion_kind m)) (md_tip m)) md)
          (m ← md; md_suggestion m) None).
End classify.

(** * What a classified error says: nothing of the server's text reaches the terminal as
    an escape sequence, and the classification of ASCII messages never panics. *)

Lemma clean_full_stop s : clean s -> clean (full_stop s).
Proof. intros Hs. unfold full_stop. destruct (ends_with _ _); auto with clean. Qed.

(** The curated texts are clean. *)
Definition mapping_clean (m : ErrorMapping) : bool :=
  forallb all_kept (mapping_message m :: omap id [mapping_reason m; mapping_suggestion m; mapping_tip m]).

Lemma tables_clean : forallb (fun table => forallb (fun row => mapping_clean row.2) table)
  [iam_codes; basic_codes; social_codes; cloudsave_codes; leaderboard_codes; group_codes; platform_codes; seasonpass_codes; legal_codes;
   challenge_codes; standard_codes] = true.
Proof. vm_compute. reflexivity. Qed.

Lemma find_code_clean table code m : forallb (fun row => mapping_clean row.2) table = true -> find_code table code = Some m ->
  mapping_clean m = true.
Proof.
  unfold find_code. intros Ht Hf. destruct (List.find _ table) as [[codes m']|] eqn:E; [|done]. injection Hf as <-.
  apply List.find_some in E as [Hin _]. rewrite forallb_forall in Ht. by apply (Ht _ Hin).
Qed.

Lemma first_of_clean a b : (forall m, a = Some m -> mapping_clean m = true) -> (forall m, b = Some m -> mapping_clean m = true) ->
  forall m, first_of a b = Some m -> mapping_clean m = true.
Proof. destruct a as [x|]; simpl; auto. Qed.

Lemma if_clean (c : bool) (a b : option ErrorMapping) : (forall m, a = Some m -> mapping_clean m = true) ->
  (forall m, b = Some m -> mapping_clean m = true) -> forall m, (if c then a else b) = Some m -> mapping_clean m = true.
Proof. destruct c; auto. Qed.

Lemma lookup_clean service code m : lookup_error service code = Some m -> mapping_clean m = true.
Proof.
  pose proof tables_clean as Ht. cbn [forallb] in Ht. repeat (apply andb_prop in Ht as [? Ht]). clear Ht.
  unfold lookup_error. cbv zeta. revert m.
  repeat first [apply first_of_clean | apply if_clean]; intros m Hm;
    first [discriminate Hm | eapply find_code_clean; [|exact Hm]; assumption].
Qed.

(** * Classified errors are clean *)

Section classify_props.
Context `{UnicodeCase}.

Section cleanness.
(** Upper-casing makes no control characters. *)
Hypothesis uppercase_clean : forall s, clean s -> clean (to_uppercase s).

Lemma clean_capitalize s : clean s -> clean (capitalize_first s).
Proof.
  intros Hs. apply clean_app; [apply uppercase_clean|]; (eapply clean_sub; [|exact Hs]); [apply take_chars_sub|apply skip_chars_sub].
Qed.

Lemma clean_slice_to n s r : clean s -> slice_to n s = Some r -> clean r.
Proof. intros Hs. unfold slice_to. destruct (is_char_boundary n s); [|done]. intros [= <-]. eapply clean_sub; [apply substring_chars|done]. Qed.

Lemma clean_slice_from n s r : clean s -> slice_from n s = Some r -> clean r.
Proof.
  intros Hs. unfold slice_from. destruct (is_char_boundary n s); [|done]. intros [= <-]. apply clean_avoids, drop_chars_avoids. by apply clean_avoids.
Qed.

#[local] Hint Resolve clean_trim clean_trim_end_matches clean_words clean_full_stop clean_singularize clean_command_object clean_capitalize : clean.

Lemma clean_split raw m r : clean raw -> split_validation_error_message raw = Some (m, r) -> clean m /\ opt_clean r.
Proof.
  intros Hraw. unfold split_validation_error_message. destruct (find_separator _) as [[pos sep]|].
  - destruct (slice_to pos raw) as [before|] eqn:Eb; [|done]. destruct (slice_from _ raw) as [after|] eqn:Ea; [|done]. simpl.
    apply clean_slice_to in Eb; [|done]. apply clean_slice_from in Ea; [|done].
    intros [= <- <-]. split; [destruct (is_empty _)|destruct (is_empty (trim after))]; auto 10 with clean.
  - destruct (contains _ _); intros [= <- <-]; auto 10 with clean.
Qed.

Definition metadata_clean (md : ErrorMetadata) : Prop :=
  opt_clean (md_reason md) /\ opt_clean (md_detail md) /\ opt_clean (md_suggestion md) /\ opt_clean (md_tip md).

Definition classified_clean (c : string * option ErrorMetadata) : Prop := clean c.1 /\ forall md, c.2 = Some md -> metadata_clean md.

Lemma classified_pair m md : clean m -> metadata_clean md -> classified_clean (m, Some md).
Proof. intros Hm Hmd. split; [done|]. by intros ? [= <-]. Qed.

Lemma metadata_parts reason detail suggestion k tip :
  opt_clean reason -> opt_clean detail -> opt_clean suggestion -> opt_clean tip -> metadata_clean (mk_metadata reason detail suggestion k tip).
Proof. done. Qed.

#[local] Hint Resolve classified_pair metadata_parts : clean.
#[local] Hint Unfold metadata check_fields : clean.

Lemma clean_raw_message b : clean (raw_message b).
Proof. apply clean_stripped. Qed.

Lemma clean_split_validation b detail c : opt_clean detail ->
  (split ← split_validation_error_message (raw_message b); Some (split.1, Some (metadata split.2 detail check_fields))) = Some c ->
  classified_clean c.
Proof.
  intros Hd. destruct (split_validation_error_message _) as [[m r]|] eqn:E; [|done]. intros [= <-].
  destruct (clean_split _ _ _ (clean_raw_message b) E). unfold metadata, check_fields. simpl. auto 10 with clean.
Qed.

Lemma clean_by_status status b service resource message detail c :
  clean service -> clean resource -> opt_clean message -> opt_clean detail ->
  classify_by_http_status status b service resource message detail = Some c -> classified_clean c.
Proof.
  intros Hs Hr Hm Hd. unfold classify_by_http_status, metadata.
  destruct (status =? 401); [intros [= <-]; auto 10 with clean|]. destruct (status =? 403); [intros [= <-]; auto 10 with clean|].
  destruct (status =? 404).
  { intros [= <-]. apply classified_pair; [auto 10 with clean|]. apply metadata_parts; auto with clean. auto 10 with clean. }
  destruct (status =? 409); [intros [= <-]; auto 10 with clean|]. destruct (status =? 429); [intros [= <-]; auto 10 with clean|].
  destruct (status =? 406); [intros [= <-]; auto 10 with clean|].
  destruct ((status =? 400) || (status =? 422)).
  { destruct (is_empty (raw_message b)); [|by apply clean_split_validation]. simpl. intros [= <-]. unfold check_fields. auto 10 with clean. }
  destruct (status =? 501); [intros [= <-]; auto 10 with clean|]. destruct (500 <=? status); [intros [= <-]; auto 10 with clean|].
  intros [= <-]. split; simpl.
  - destruct message as [m|]; simpl; [by apply Hm|auto 10 with clean].
  - intros md. destruct detail as [d|]; [|done]. intros [= <-]. auto with clean.
Qed.

Lemma clean_headline method resource : clean method -> clean resource -> clean (operation_failed_headline method resource).
Proof.
  intros Hm Hr. unfold operation_failed_headline.
  assert (Hverb : clean (span (is_char "-") method).1) by (eapply clean_sub; [apply span_chars|done]).
  destruct (split_once "-" method) as [[verb after]|] eqn:E; [|auto 20 with clean].
  assert (Hafter : clean after) by (eapply clean_sub; [by eapply split_once_chars|done]). auto 20 with clean.
Qed.

Lemma clean_curated mapping resource method message detail : mapping_clean mapping = true -> clean resource -> clean method ->
  opt_clean message -> opt_clean detail -> classified_clean (classify_curated mapping resource method message detail).
Proof.
  intros Hmap Hr Hm Hmsg Hd. destruct mapping as [text reason suggestion tip]. unfold mapping_clean in Hmap. cbn [forallb mapping_message] in Hmap.
  apply andb_true_iff in Hmap as [Ht Hopt]. rewrite forallb_forall in Hopt.
  assert (Hin : forall o, o ∈ [reason; suggestion; tip] -> opt_clean o).
  { intros o Ho s ->. apply Hopt, list_elem_of_In, list_elem_of_omap. by exists (Some s). }
  assert (Hcur : classified_clean (text, Some (mk_metadata (match reason with Some r => Some r | None => message end) detail suggestion Fix_ tip))).
  { apply classified_pair; [done|]. apply metadata_parts; [|done|apply Hin; set_solver..]. destruct reason; [apply Hin; set_solver|done]. }
  unfold classify_curated. cbn [mapping_reason mapping_message mapping_suggestion mapping_tip]. destruct message as [clean_text|]; [|done].
  destruct (is_informative_server_message _ _ _); [|done]. apply classified_pair; [by apply clean_headline|]. unfold metadata.
  apply metadata_parts; auto with clean. intros s. destruct detail as [d|]; [|done]. intros [= <-]. specialize (Hd d eq_refl). auto 10 with clean.
Qed.

Lemma clean_classified status b service resource method c : clean service -> clean resource -> clean method ->
  classify_error_message_and_metadata status b service resource method = Some c -> classified_clean c.
Proof.
  intros Hs Hr Hm. unfold classify_error_message_and_metadata. set (detail := if _ =? 0 then None else _).
  assert (Hd : opt_clean detail) by (unfold detail; destruct (_ =? 0); auto with clean).
  destruct (_ && _); [by apply clean_split_validation|].
  set (message := option_map _ (body_message b)).
  assert (Hmsg : opt_clean message) by (unfold message; destruct (body_message b); simpl; auto with clean).
  destruct (lookup_error _ _) as [mapping|] eqn:E; [|by apply clean_by_status]. intros [= <-].
  apply clean_curated; try done. by eapply lookup_clean.
Qed.
End cleanness.

(** * No panic on ASCII *)

Definition ascii_text (s : string) : Prop := contains_char non_ascii s = false.

Lemma ascii_boundary n s : ascii_text s -> (n <= String.length s)%nat -> is_char_boundary n s = true.
Proof.
  unfold ascii_text. revert s. induction n as [|n IH]; intros [|c s]; simpl; try done.
  - intros [Hc _]%orb_false_iff _. unfold non_ascii, is_ascii, is_continuation in *. apply negb_false_iff, Nat.ltb_lt in Hc.
    apply negb_true_iff, andb_false_iff. left. apply Nat.leb_gt. lia.
  - lia.
  - intros [_ Hs]%orb_false_iff Hn. apply IH; [done|lia].
Qed.

Lemma lower_length s : String.length (to_ascii_lowercase s) = String.length s.
Proof. induction s as [|c s IH]; [done|]. simpl. by rewrite IH. Qed.

Lemma strip_prefix_length p s r : strip_prefix p s = Some r -> (String.length p + String.length r = String.length s)%nat.
Proof.
  revert s. induction p as [|c p IH]; intros [|d s]; simpl; [by intros [= <-]..|done|]. destruct (Ascii.eqb c d); [|done]. intros Hr%IH. lia.
Qed.

Lemma split_find_length p s a b : split_find p s = Some (a, b) -> (String.length a + String.length p + String.length b = String.length s)%nat.
Proof.
  revert a. induction s as [|d s IH]; intros a; cbn [split_find].
  - destruct (strip_prefix p EmptyString) as [r|] eqn:E; [|done]. intros [= <- <-]. apply strip_prefix_length in E. simpl in *. lia.
  - destruct (strip_prefix p (String d s)) as [r|] eqn:E.
    + intros [= <- <-]. apply strip_prefix_length in E. simpl in *. lia.
    + destruct (split_find p s) as [[x y]|]; [|done]. intros [= <- <-]. specialize (IH x eq_refl). simpl. lia.
Qed.

Lemma split_ascii raw : ascii_text raw -> is_Some (split_validation_error_message raw).
Proof.
  intros Ha. unfold split_validation_error_message. rewrite to_lowercase_ascii by exact Ha.
  destruct (find_separator _) as [[pos sep]|] eqn:E; [|destruct (contains _ _); by eexists].
  assert (Hlen : (pos + String.length sep <= String.length raw)%nat).
  { unfold find_separator in E. rewrite <- (lower_length raw).
    destruct (split_find "details:" _) as [[before rest]|] eqn:E1; [injection E as <- <-; apply split_find_length in E1; lia|].
    destruct (split_find "detail:" _) as [[before rest]|] eqn:E2; [|done]. injection E as <- <-. apply split_find_length in E2. lia. }
  unfold slice_to, slice_from. rewrite !ascii_boundary by (done || lia). simpl. by eexists.
Qed.

Lemma classify_ascii status b service resource method : ascii_text (raw_message b) ->
  is_Some (classify_to_runtime_error status b service resource method).
Proof.
  intros Ha. apply split_ascii in Ha as [[m r] Hsplit].
  assert (Hc : is_Some (classify_error_message_and_metadata status b service resource method)).
  { unfold classify_error_message_and_metadata. rewrite Hsplit. destruct (_ && _); [by eexists|]. destruct (lookup_error _ _); [by eexists|].
    unfold classify_by_http_status. rewrite Hsplit. repeat (destruct (Z.eqb _ _) || destruct (Z.leb _ _)); simpl; try by eexists.
    all: destruct (is_empty _); by eexists. }
  destruct Hc as [[message md] Hc]. unfold classify_to_runtime_error. rewrite Hc. by eexists.
Qed.

(** [C20] A classified API error has no escape sequence and, for a message in ASCII, is always
    there: whatever the body of the response, no escape character, no other C0 control
    character and no DEL, but newline and tab, is in its message, reason, detail, tip or hint,
    when the names of the command have none and writing in capitals adds none; and the
    classification does not panic. (The C1 characters U+0080 to U+009F are kept: see [c1_control_kept].) *)
Theorem classified_text status b service resource method :
  (forall s, clean s -> clean (to_uppercase s)) -> clean service -> clean resource -> clean method ->
  (forall e, classify_to_runtime_error status b service resource method = Some e ->
     clean (message e) /\ opt_clean (hint e) /\
     forall d, details e = Some d -> opt_clean (err_code d) /\ opt_clean (err_reason d) /\ opt_clean (err_detail d) /\ opt_clean (err_tip d)) /\
  (ascii_text (raw_message b) -> is_Some (classify_to_runtime_error status b service resource method)).
Proof.
  intros Hup Hs Hr Hm. split; [|apply classify_ascii]. unfold classify_to_runtime_error. intros e.
  destruct (classify_error_message_and_metadata _ _ _ _ _) as [[text md]|] eqn:E; [|done]. intros [= <-].
  destruct (clean_classified Hup _ _ _ _ _ _ Hs Hr Hm E) as [Ht Hmd]. simpl in *. split; [done|].
  destruct md as [md|]; [|by split]. destruct (Hmd md eq_refl) as (H1 & H2 & H3 & H4). split; [done|].
  intros d [= <-]. simpl. split_and!; try done. unfold code_text. destruct (body_code b) as [code|]; [|done]. simpl.
  destruct (code =? 0); auto with clean.
Qed.
End classify_props.

(** * Examples *)

Lemma ascii_upper_clean s : clean s -> clean (to_ascii_uppercase s).
Proof.
  rewrite !clean_avoids. induction s as [|c s IH]; [done|]. cbn [to_ascii_uppercase contains_char]. intros [Hc Hs]%orb_false_iff.
  rewrite IH by done. rewrite orb_false_r. revert Hc. clear. by destruct c as [[] [] [] [] [] [] [] []]; vm_compute.
Qed.

#[local] Instance example_case : UnicodeCase := ascii_case.

Definition hostile : string := "no such user: " +:+ String ESC "[2J" +:+ "ann".
Definition hostile_body : value := Object [("errorCode", int 20008); ("errorMessage", Str hostile)].

Example hostile_classified :
  classify_to_runtime_error 404 hostile_body "iam" "users" "get" =
  Some (mk_error NotFound "Get user failed"
    (Some (mk_details (Some "20008") (Some "no such user: ann") (Some "Error code 20008 (User not found)") (Some Fix_) None)) None None).
Proof. vm_compute. reflexivity. Qed.

Lemma classified_text_witness :
  is_Some (classify_to_runtime_error 404 hostile_body "iam" "users" "get") /\
  forall e, classify_to_runtime_error 404 hostile_body "iam" "users" "get" = Some e -> clean (message e).
Proof.
  destruct (@classified_text example_case 404 hostile_body "iam" "users" "get") as [Hclean Hsome].
  - apply ascii_upper_clean.
  - reflexivity.
  - reflexivity.
  - reflexivity.
  - split; [by apply Hsome|]. intros e He. exact (proj1 (Hclean e He)).
Defined.

(** The Kelvin sign, three bytes, is lower-cased to the one byte of [k]. *)
Definition KELVIN : string := String (ascii_of_nat 226) (String (ascii_of_nat 132) (String (ascii_of_nat 170) EmptyString)).

Lemma replace_kelvin s : contains_char non_ascii s = false -> replace KELVIN "k" s = s.
Proof.
  apply rewrite_all_id. intros [|c r]; [done|]. cbn [contains_char]. intros [Hc _]%orb_false_iff. unfold KELVIN. cbn [starts_with].
  by destruct (Ascii.eqb_spec (ascii_of_nat 226) c) as [<-|].
Qed.

Lemma kelvin_lower s : contains_char (fun c => negb (is_ascii c)) s = false -> to_ascii_lowercase (replace KELVIN "k" s) = to_ascii_lowercase s.
Proof. intros Hs. by rewrite replace_kelvin. Qed.

Definition kelvin_case : UnicodeCase := {|
  to_lowercase := fun s => to_ascii_lowercase (replace KELVIN "k" s);
  to_uppercase := to_ascii_uppercase;
  is_uppercase := fun s => match s with String c EmptyString => is_upper c | _ => String.eqb s KELVIN end;
  to_lowercase_ascii := kelvin_lower;
  to_uppercase_ascii := fun s _ => eq_refl;
  is_uppercase_ascii := fun c _ => eq_refl
|}.

(** A message with such a character before its details panics: the position found in the
    lower-cased text is inside a character of the message. *)
Lemma kelvin_panics :
  @classify_to_runtime_error kelvin_case 400 (Object [("errorMessage", Str (KELVIN +:+ " details: too hot"))]) "iam" "users" "get" = None.
Proof. vm_compute. reflexivity. Qed.
