(* ===== verification/Shape.v ===== *)
(** Shaping a response ([dispatch/shape.rs], [dispatch/shape_overrides/]): which fields of a
    JSON body are shown, in which order and under which labels. *)

From stdpp Require Import base gmap sets strings list.
From Stdlib Require Import ZArith Lia Ascii Sorting.Sorted.
From S2P Require Import Prelude Text Kebab Nouns Time Json Catalogue Sanitise Results Bindings.

#[local] Arguments String.append !_ _ /.

(** What is shown for an absent cell. *)
Definition MISSING : string := "—".

(** [str::chars]: a character is a lead byte with the continuation bytes after it. *)
Fixpoint utf8_chars (s : string) : list string :=
  match s with
  | EmptyString => []
  | String c r =>
      match utf8_chars r with
      | String d t :: rest => if is_continuation d then String c (String d t) :: rest else String c EmptyString :: String d t :: rest
      | rest => String c EmptyString :: rest
      end
  end.

Section shape.
Context `{JsonText, UnicodeCase}.

(** [Number::to_string]; a float is the text JSON has for it. *)
Definition number_text (n : number) : string := match n with NInt z => show_int z | NFloat _ => json_to_string (Number n) end.

(** * Labels and values *)

Definition special_labels : list (string * string) :=
  [("id", "ID"); ("userId", "User ID"); ("clientId", "Client ID"); ("roleId", "Role ID"); ("namespaceId", "Namespace ID");
   ("createdAt", "Created"); ("updatedAt", "Updated"); ("deletedAt", "Deleted"); ("baseUrl", "Base URL"); ("emailAddress", "Email");
   ("displayName", "Display Name"); ("userName", "Username"); ("appName", "App Name"); ("namespace", "Namespace"); ("enable", "Enabled")].

(** The first character of a case mapping. *)
Definition first_of_case (mapped character : string) : string :=
  if is_empty mapped then character else take_chars 1 mapped.

Definition label_char (i : nat) (character : string) : string :=
  if is_uppercase character && Nat.ltb 0 i then " " +:+ first_of_case (to_lowercase character) character
  else if Nat.eqb i 0 then first_of_case (to_uppercase character) character
  else character.

Definition normalize_label (key : string) : string :=
  match List.find (fun row => String.eqb key row.1) special_labels with
  | Some row => row.2
  | None => join EmptyString (imap label_char (utf8_chars key))
  end.

Definition normalize_value (v : value) : option string :=
  match v with
  | Null => None
  | Bool true => Some "yes"
  | Bool false => Some "no"
  | Str s => if is_empty s then None else Some (strip_terminal_control_sequences s)
  | Number n => Some (number_text n)
  | Array [] => None
  | Array items => if Nat.eqb (length items) 1 then Some "1 item" else Some (show_int (Z.of_nat (length items)) +:+ " items")
  | Object _ => None
  end.

(** * Choosing fields *)

Definition field_priorities : list (list string) :=
  [["id"; "userId"; "clientId"; "roleId"; "namespaceId"];
   ["name"; "displayName"; "userName"; "emailAddress"; "appName"];
   ["status"; "enabled"; "active"; "verified"; "emailVerified"; "banned"];
   ["namespace"; "platform"; "platformId"];
   ["createdBy"; "updatedBy"; "deletedBy"];
   ["createdAt"; "updatedAt"; "deletedAt"; "lastLogin"; "expiresAt"];
   ["description"; "country"; "dateOfBirth"; "language"; "timezone"];
   ["code"; "errorCode"; "errorMessage"]].

(** The number of the first group that lists the key, 8 when none does. *)
Fixpoint priority_in (groups : list (list string)) (key : string) : nat :=
  match groups with
  | [] => 0
  | group :: groups => if existsb (String.eqb key) group then 0 else S (priority_in groups key)
  end.

Definition field_priority (key : string) : nat := priority_in field_priorities key.

Definition noise_keys : list string :=
  ["paging"; "pagination"; "links"; "_links"; "self"; "next"; "previous"; "first"; "last"; "totalPages"; "totalData"; "headers"; "metadata"; "_metadata"].

Definition should_suppress_field (key : string) (v : value) : bool :=
  match v with
  | Null | Str EmptyString | Array [] | Object [] => true
  | _ => existsb (String.eqb key) noise_keys
  end.

Definition is_scalar_value (v : value) : bool := match v with Object _ | Array _ | Null => false | _ => true end.

Definition entry_of (kv : string * value) : option FieldEntry := option_map (mk_entry (normalize_label kv.1)) (normalize_value kv.2).

(** The section of a nested object. Without [is_verbose], only its scalars, and at most six. *)
Definition section_of (is_verbose : bool) (key : string) (nested : list (string * value)) : option Section_ :=
  let children := if is_verbose then omap entry_of nested else omap entry_of (List.filter (fun kv => is_scalar_value kv.2) nested) in
  if bool_decide (children = []) || (negb is_verbose && Nat.ltb 6 (length children)) then None
  else Some (mk_section (normalize_label key) children).

Definition scalar_entry (kv : string * value) : option (nat * FieldEntry) :=
  if should_suppress_field kv.1 kv.2 then None
  else match kv.2 with Object _ => None | _ => option_map (pair (field_priority kv.1)) (entry_of kv) end.

Definition candidate_section (is_verbose : bool) (kv : string * value) : option Section_ :=
  if should_suppress_field kv.1 kv.2 then None
  else match kv.2 with Object nested => section_of is_verbose kv.1 nested | _ => None end.

(** How many fields are shown; [None] is [usize::MAX]. *)
Definition field_limit (intent : CommandIntent) (is_verbose : bool) : option nat :=
  match intent, is_verbose with
  | Action_, false => Some 5%nat
  | Inspect, false => Some 8%nat
  | List_, false => Some 4%nat
  | List_, true => Some 8%nat
  | _, true => None
  end.

Definition take_at_most {A} (limit : option nat) (l : list A) : list A := match limit with Some n => take n l | None => l end.

Definition by_priority (a b : nat * FieldEntry) : bool := Nat.leb a.1 b.1.

Definition prioritize_fields (data : list (string * value)) (intent : CommandIntent) (is_verbose : bool) : list FieldEntry * list Section_ :=
  (map snd (take_at_most (field_limit intent is_verbose) (sort_by by_priority (omap scalar_entry data))),
   take_at_most (if is_verbose then None else Some 2%nat) (omap (candidate_section is_verbose) data)).

(** * The shape of a body *)

Record PageHint : Type := mk_page_hint { total : option Z; is_next_page_available : bool }.

Inductive ResponseShape : Type :=
| ShapeArray (items : list value) (key : option string)
| PaginatedList (items : list value) (hint : PageHint)
| SingleObject (o : list (string * value))
| Scalar.

Definition non_empty_array (kv : string * value) : option (string * list value) :=
  match kv.2 with Array (x :: items) => Some (kv.1, x :: items) | _ => None end.

Definition next_available (o : list (string * value)) : bool :=
  match (paging ← obj_get "paging" o; next ← get_key "next" paging; as_str next) with Some s => negb (is_empty s) | None => false end.

Definition detect_shape (body : value) : ResponseShape :=
  match body with
  | Array items => ShapeArray items None
  | Object o =>
      match obj_get "data" o with
      | Some (Array items) => PaginatedList items (mk_page_hint (obj_get "totalData" o ≫= number_as_u64) (next_available o))
      | _ =>
          match omap non_empty_array o with
          | [(key, items)] =>
              if Nat.leb (length (List.filter (fun kv => is_scalar_value kv.2) o)) 2 then ShapeArray items (Some key) else SingleObject o
          | _ => SingleObject o
          end
      end
  | _ => Scalar
  end.

(** * Tables *)

Record ListTable : Type := mk_table { table_headers : list string; table_rows : list (list string) }.

Definition item_fields (intent : CommandIntent) (is_verbose : bool) (item : value) : list FieldEntry :=
  match item with Object o => (prioritize_fields o intent is_verbose).1 | _ => [] end.

(** The labels of the first item that has fields. *)
Fixpoint first_headers (intent : CommandIntent) (is_verbose : bool) (items : list value) : list string :=
  match items with
  | [] => []
  | item :: items =>
      match item_fields intent is_verbose item with
      | [] => first_headers intent is_verbose items
      | fields => map entry_label fields
      end
  end.

(** The value of a label; a later field with the same label replaces an earlier one. *)
Definition by_label (fields : list FieldEntry) (h : string) : string :=
  match List.find (fun f => String.eqb (entry_label f) h) (rev fields) with Some f => entry_value f | None => MISSING end.

Definition table_row (intent : CommandIntent) (is_verbose : bool) (headers : list string) (item : value) : option (list string) :=
  match item with
  | Object o =>
      match item_fields intent is_verbose item with
      | [] => None
      | fields => Some (map (by_label fields) headers)
      end
  | _ => option_map (fun v => [v]) (normalize_value item)
  end.

Definition build_list_table (items : list value) (scalar_header : string) (intent : CommandIntent) (is_verbose : bool) : ListTable :=
  match first_headers intent is_verbose items with
  | [] =>
      match omap (fun item => option_map (fun v => [v]) (normalize_value item)) items with
      | [] => mk_table [] []
      | rows => mk_table [scalar_header] rows
      end
  | headers => mk_table headers (omap (table_row intent is_verbose headers) items)
  end.

(** * Headings *)

Definition dedupe_heading_field (fields : list FieldEntry) (used_key : option string) : list FieldEntry :=
  match used_key with
  | Some key => List.filter (fun f => negb (String.eqb (entry_label f) (normalize_label key))) fields
  | None => fields
  end.

Definition HEADING_NAME_KEYS : list string := ["displayName"; "name"; "appName"; "clientName"; "userName"; "emailAddress"].

Definition derive_heading_from_method (method_name : string) : option string :=
  parts ← split_once "-" method_name; Some (capitalize_first (replace "-" " " parts.2)).

(** The non-empty text at a key. *)
Definition text_at (key : string) (o : list (string * value)) : option string :=
  v ← obj_get key o; s ← as_str v; if is_empty s then None else Some s.

Fixpoint first_name (keys : list string) (o : list (string * value)) : option (string * string) :=
  match keys with
  | [] => None
  | key :: keys => match text_at key o with Some name => Some (key, name) | None => first_name keys o end
  end.

(** The kind, the identifier, the style, and the key the identifier comes from. *)
Definition derive_entity_heading (o : list (string * value)) (resource_name method_name : string)
  : string * option string * HeadingStyle * option string :=
  let singular := singularize resource_name in
  match first_name HEADING_NAME_KEYS o with
  | Some (key, name) => (normalize_label singular, Some name, Named, Some key)
  | None =>
      let heading_base := default (normalize_label singular) (derive_heading_from_method method_name) in
      match (v ← match obj_get "id" o with Some v => Some v | None => obj_get "userId" o end; as_str v) with
      | Some id => (heading_base, Some id, Identified, None)
      | None => (heading_base, None, Bare, None)
      end
  end.

(** * Results *)

Definition field_entry_to_protocol (e : FieldEntry) : Field := mk_result_field (entry_label e) (CellText (entry_value e)).

Definition shape_collection (items : list value) (pagination : option PageHint) (scalar_key : option string) (intent : CommandIntent)
    (is_verbose : bool) (op : OperationSchema) (resource_name : string) : CommandResult :=
  let noun := derive_noun_from_method (op_name op) resource_name in
  let scalar_header := match scalar_key with Some key => normalize_label key | None => capitalize_first noun end in
  let table := build_list_table items scalar_header intent is_verbose in
  Collection (mk_collection noun
    (map (fun label => mk_column label label) (table_headers table))
    (map (fun cells => mk_row (map CellText cells)) (table_rows table))
    (option_map (fun hint => mk_page_info 1 None (total hint) (is_next_page_available hint)) pagination)
    []).

Definition shape_entity (o : list (string * value)) (intent : CommandIntent) (is_verbose : bool) (op : OperationSchema) (resource_name : string)
  : CommandResult :=
  let '(entries, section_entries) := prioritize_fields o intent is_verbose in
  let '(kind, identifier, style, used_key) := derive_entity_heading o resource_name (op_name op) in
  Entity (mk_entity kind identifier style
    (map field_entry_to_protocol (dedupe_heading_field entries used_key))
    (map (fun s => mk_group (section_heading s) (map field_entry_to_protocol (section_fields s))) section_entries)).

(** * Overrides *)

Definition Column : Type := string * (list (string * value) -> FieldValue).

(** The items of a named array; null is an empty one. *)
Definition named_array (body : value) (array_key : string) : option (list value) :=
  o ← as_object body;
  v ← obj_get array_key o;
  match v with Array items => Some items | Null => Some [] | _ => None end.

Definition fixed_columns_from_array (body : value) (array_key kind : string) (columns : list Column) : option CommandResult :=
  items ← named_array body array_key;
  Some (Collection (mk_collection kind
    (map (fun column : Column => mk_column column.1 column.1) columns)
    (map (fun item => mk_row (map (fun column : Column => column.2 item) columns)) (omap as_object items))
    None [])).

Definition text_field (v : option value) : FieldValue :=
  CellText match v with
           | Some (Str s) => if is_empty s then MISSING else strip_terminal_control_sequences s
           | Some (Number n) => number_text n
           | _ => MISSING
           end.

Definition text_column (label key : string) : Column := (label, fun o => text_field (obj_get key o)).

(** [security_assessment_list]. *)
Definition requested_at (engagement : list (string * value)) : FieldValue :=
  CellText (match obj_get "createdAt" engagement ≫= as_str with Some s => format_rfc3339_human s | None => MISSING end).

Definition endpoint_count (engagement : list (string * value)) : FieldValue :=
  CellText (match obj_get "endpoints" engagement ≫= as_array with Some items => show_int (Z.of_nat (length items)) | None => "0" end).

Definition shape_assessments (body : value) : option CommandResult :=
  fixed_columns_from_array body "pentestings" "security assessment requests"
    [text_column "ID" "engagementId"; text_column "App Name" "targetApp"; ("Requested At", requested_at); ("Endpoints", endpoint_count);
     text_column "Image Tag" "targetAppVersion"; text_column "Status" "status"].

(** [security_assessment_endpoints]. *)
Definition permission_cell (endpoint : list (string * value)) : FieldValue :=
  CellText (match obj_get "permission" endpoint ≫= as_object with
            | Some permission =>
                default EmptyString (obj_get "resource" permission ≫= as_str) +:+ " [" +:+
                default EmptyString (obj_get "action" permission ≫= as_str) +:+ "]"
            | None => MISSING
            end).

Definition authenticated_cell (endpoint : list (string * value)) : FieldValue :=
  CellText (if default false (obj_get "requireAuthentication" endpoint ≫= as_bool) then "Yes" else "No").

Definition app_flags_note (body : value) : string :=
  let flag key := if default false (get_key key body ≫= as_bool) then "yes" else "no" in
  "App running: " +:+ flag "isAppRunning" +:+ "  ·  API spec: " +:+ flag "hasAPISpec" +:+ "  ·  gRPC reflection: " +:+ flag "hasGRPCReflection".

Definition shape_endpoints (body : value) : option CommandResult :=
  r ← fixed_columns_from_array body "endpoints" "endpoints"
        [text_column "Method" "method"; text_column "Path" "path"; text_column "Operation ID" "operationId";
         ("Permission", permission_cell); ("Authenticated", authenticated_cell)];
  Some match r with
       | Collection c => Collection (mk_collection (collection_kind c) (columns c) (rows c) (page_info c) [app_flags_note body])
       | _ => r
       end.

Definition strip_field_value (v : FieldValue) : FieldValue :=
  match v with
  | CellText s => CellText (strip_terminal_control_sequences s)
  | CellList items => CellList (map strip_terminal_control_sequences items)
  | _ => v
  end.

Definition strip_field (f : Field) : Field := mk_result_field (strip_terminal_control_sequences (rf_label f)) (strip_field_value (rf_value f)).

Definition strip_field_group (g : FieldGroup) : FieldGroup :=
  mk_group (strip_terminal_control_sequences (group_heading g)) (map strip_field (group_fields g)).

Definition sanitize_result (r : CommandResult) : CommandResult :=
  match r with
  | Collection c =>
      Collection (mk_collection (strip_terminal_control_sequences (collection_kind c))
        (map (fun col => mk_column (strip_terminal_control_sequences (column_label col)) (strip_terminal_control_sequences (column_key col))) (columns c))
        (map (fun row => mk_row (map strip_field_value (cells row))) (rows c))
        (page_info c)
        (map strip_terminal_control_sequences (notes c)))
  | Entity e =>
      Entity (mk_entity (strip_terminal_control_sequences (entity_kind e)) (option_map strip_terminal_control_sequences (identifier e))
        (heading_style e) (map strip_field (entity_fields e)) (map strip_field_group (sections e)))
  | EmptyR e => EmptyR (mk_empty (empty_operation_id e) (strip_terminal_control_sequences (empty_status e)))
  | Raw _ => r
  end.

Definition OVERRIDES : list (string * (value -> option CommandResult)) :=
  [("csm/admin/security-assessment/v1/list", shape_assessments); ("csm/admin/security-assessment/v1/get-app-endpoints", shape_endpoints)].

Definition find_override (operation_id : string) (body : value) : option CommandResult :=
  o ← List.find (fun o => String.eqb o.1 operation_id) OVERRIDES;
  option_map sanitize_result (o.2 body).

(** * The entry *)

Definition shape_response (body : value) (op : OperationSchema) (resource_name : string) (is_verbose : bool) : CommandResult :=
  match find_override (op_id op) body with
  | Some r => r
  | None =>
      let intent := intent_of op in
      match detect_shape body with
      | ShapeArray items key => shape_collection items None key intent is_verbose op resource_name
      | PaginatedList items hint => shape_collection items (Some hint) None intent is_verbose op resource_name
      | SingleObject o => shape_entity o intent is_verbose op resource_name
      | Scalar => Raw body
      end
  end.
End shape.

(** * What is shown is clean *)

Section plain.
Context `{JsonText}.

(** The texts of the body's floats are plain; integers always are. *)
Fixpoint plain (v : value) : bool :=
  match v with
  | Number n => all_kept (number_text n)
  | Array l => forallb plain l
  | Object l => forallb (fun kv => plain kv.2) l
  | _ => true
  end.

Definition cell_clean (v : FieldValue) : Prop :=
  match v with CellText s => clean s | CellList items => Forall clean items | _ => True end.

Definition entry_clean (e : FieldEntry) : Prop := clean (entry_value e).

(** The values of a result: the cells of its rows, the values of its fields. *)
Definition shown_values (r : CommandResult) : list FieldValue :=
  match r with
  | Collection c => concat (map cells (rows c))
  | Entity e => map rf_value (entity_fields e ++ concat (map group_fields (sections e)))
  | _ => []
  end.

Lemma plain_in l x : forallb plain l = true -> x ∈ l -> plain x = true.
Proof. intros Hl Hx. rewrite forallb_forall in Hl. by apply Hl, list_elem_of_In. Qed.

Lemma plain_field (l : list (string * value)) kv : forallb (fun kv => plain kv.2) l = true -> kv ∈ l -> plain kv.2 = true.
Proof. intros Hl Hx. rewrite forallb_forall in Hl. by apply Hl, list_elem_of_In. Qed.

Lemma obj_get_elem k l v : obj_get k l = Some v -> exists k', (k', v) ∈ l.
Proof.
  induction l as [|[k' v'] l IH]; [done|]. simpl. destruct (String.eqb k k').
  - intros [= ->]. exists k'. by left.
  - intros [k2 H2]%IH. exists k2. by right.
Qed.

Lemma normalize_value_clean v s : plain v = true -> normalize_value v = Some s -> clean s.
Proof.
  destruct v as [|[]|n|t|[|x l]|l]; cbn [normalize_value plain]; intros Hp; try done; try (intros [= <-]; done).
  - destruct (is_empty t); [done|]. intros [= <-]. apply clean_stripped.
  - destruct (Nat.eqb _ _); intros Hs%(inj Some); subst s; [done|]. apply clean_app; [apply clean_show_int|done].
Qed.

End plain.

Section shown.
Context `{JsonText, UnicodeCase}.

Lemma entry_of_clean kv e : plain kv.2 = true -> entry_of kv = Some e -> entry_clean e.
Proof.
  intros Hp. unfold entry_of. destruct (normalize_value kv.2) as [s|] eqn:E; [|done]. intros [= <-]. by eapply normalize_value_clean.
Qed.

Lemma take_at_most_incl {A} limit (l : list A) : take_at_most limit l ⊆ l.
Proof. destruct limit as [n|]; [|done]. intros x Hx. simpl in Hx. rewrite <- (take_drop n l). apply elem_of_app. by left. Qed.

Lemma prioritized_clean o intent verbose : forallb (fun kv => plain kv.2) o = true ->
  Forall entry_clean (prioritize_fields o intent verbose).1 /\
  Forall (fun s => Forall entry_clean (section_fields s)) (prioritize_fields o intent verbose).2.
Proof.
  intros Hp. unfold prioritize_fields. cbn [fst snd]. split; rewrite Forall_forall; intros x Hx.
  - apply list_elem_of_fmap in Hx as (p & -> & Hp').
    apply take_at_most_incl in Hp'. rewrite sort_by_perm in Hp'. apply list_elem_of_omap in Hp' as (kv & Hkv & He).
    unfold scalar_entry in He. destruct (should_suppress_field _ _); [done|].
    assert (Hv := plain_field _ _ Hp Hkv).
    destruct kv as [k v]. destruct v; try done;
      (destruct (entry_of _) as [e|] eqn:E; [|done]); injection He as <-; by eapply entry_of_clean.
  - apply take_at_most_incl, list_elem_of_omap in Hx as (kv & Hkv & He).
    unfold candidate_section in He. destruct (should_suppress_field _ _); [done|].
    assert (Hv := plain_field _ _ Hp Hkv). destruct (kv.2) as [| | | | |nested]; try done.
    unfold section_of in He. set (children := if verbose then _ else _) in He.
    destruct (_ || _); [done|]. injection He as <-. simpl. rewrite Forall_forall. intros e Hin.
    assert (exists kv', kv' ∈ nested /\ entry_of kv' = Some e) as (kv' & Hin' & He').
    { unfold children in Hin. destruct verbose; apply list_elem_of_omap in Hin as (kv' & Hin & He); exists kv'; [done|].
      apply list_elem_of_In, filter_In in Hin as [Hin _]. by apply list_elem_of_In in Hin. }
    by eapply entry_of_clean, He'; eapply plain_field.
Qed.

Lemma item_fields_clean intent verbose item : plain item = true -> Forall entry_clean (item_fields intent verbose item).
Proof. destruct item; intros Hp; try by constructor. by apply prioritized_clean. Qed.

Lemma by_label_clean fields h : Forall entry_clean fields -> clean (by_label fields h).
Proof.
  intros Hf. unfold by_label. destruct (List.find _ _) as [f|] eqn:E; [|done].
  apply List.find_some in E as [Hin%in_rev _]. rewrite Forall_forall in Hf. by apply Hf, list_elem_of_In.
Qed.

Lemma scalar_row_clean item row : plain item = true -> option_map (fun v => [v]) (normalize_value item) = Some row -> Forall clean row.
Proof.
  intros Hp. destruct (normalize_value item) as [s|] eqn:E; [|done]. intros [= <-]. constructor; [|done]. by eapply normalize_value_clean.
Qed.

Lemma table_clean items h intent verbose : forallb plain items = true ->
  Forall (Forall clean) (table_rows (build_list_table items h intent verbose)).
Proof.
  intros Hp. unfold build_list_table. destruct (first_headers intent verbose items) as [|h0 hs].
  - destruct (omap _ items) as [|r rs] eqn:E; [done|]. cbn [table_rows]. rewrite <- E, Forall_forall. intros row Hrow.
    apply list_elem_of_omap in Hrow as (item & Hin & Hr). by eapply scalar_row_clean, Hr; eapply plain_in.
  - cbn [table_rows]. rewrite Forall_forall. intros row (item & Hin & Hr)%list_elem_of_omap.
    assert (Hi := plain_in _ _ Hp Hin). unfold table_row in Hr. pose proof (item_fields_clean intent verbose item Hi) as Hf.
    destruct item; try (by eapply scalar_row_clean, Hr). destruct (item_fields _ _ _) as [|f fs] eqn:E; [done|].
    injection Hr as <-. rewrite <- E in *. constructor; [by apply by_label_clean|].
    rewrite Forall_fmap, Forall_forall. intros x _. by apply by_label_clean.
Qed.
End shown.

(** The other texts of a result: kinds, labels, headings, notes, the identifier. *)
Definition other_texts (r : CommandResult) : list string :=
  match r with
  | Collection c => collection_kind c :: concat (map (fun col => [column_label col; column_key col]) (columns c)) ++ notes c
  | Entity e =>
      entity_kind e :: option_list (identifier e) ++ map rf_label (entity_fields e) ++
      concat (map (fun g => group_heading g :: map rf_label (group_fields g)) (sections e))
  | EmptyR e => [empty_status e]
  | Raw _ => []
  end.

Section sanitized.
Context `{JsonText, UnicodeCase}.

Lemma strip_field_value_clean v : cell_clean (strip_field_value v).
Proof. destruct v; simpl; auto with clean. rewrite Forall_fmap, Forall_forall. intros s _. apply clean_stripped. Qed.

Lemma Forall_strip_fields fields : Forall cell_clean (map rf_value (map strip_field fields)) /\ Forall clean (map rf_label (map strip_field fields)).
Proof.
  rewrite !map_map. split; rewrite Forall_fmap, Forall_forall; intros f _; [apply strip_field_value_clean|apply clean_stripped].
Qed.

Lemma Forall_concat_map {A B} (P : B -> Prop) (f : A -> list B) l : (forall x, Forall P (f x)) -> Forall P (concat (map f l)).
Proof. intros Hf. rewrite Forall_concat, Forall_fmap, Forall_forall. intros x _. apply Hf. Qed.

Lemma sanitized_clean r : Forall cell_clean (shown_values (sanitize_result r)) /\ Forall clean (other_texts (sanitize_result r)).
Proof.
  destruct r as [e|c|e|v]; cbn [sanitize_result shown_values other_texts];
    cbn [entity_fields sections entity_kind identifier collection_kind columns rows notes empty_status].
  - rewrite map_app, Forall_app. split; [split; [apply Forall_strip_fields|]|].
    + rewrite concat_map, !map_map. apply Forall_concat_map. intros g. apply Forall_strip_fields.
    + constructor; [apply clean_stripped|]. rewrite !Forall_app. split_and!.
      * destruct (identifier e); simpl; auto using clean_stripped.
      * apply Forall_strip_fields.
      * rewrite map_map. apply Forall_concat_map. intros g. constructor; [apply clean_stripped|apply Forall_strip_fields].
  - rewrite !map_map. split.
    + apply Forall_concat_map. intros row. simpl. rewrite Forall_fmap, Forall_forall. intros v _. apply strip_field_value_clean.
    + constructor; [apply clean_stripped|]. rewrite Forall_app. split.
      * apply Forall_concat_map. intros col. repeat constructor; apply clean_stripped.
      * rewrite Forall_fmap, Forall_forall. intros s _. apply clean_stripped.
  - split; [done|]. repeat constructor. apply clean_stripped.
  - done.
Qed.

Lemma collection_clean items pagination key intent verbose op resource : forallb plain items = true ->
  Forall cell_clean (shown_values (shape_collection items pagination key intent verbose op resource)).
Proof.
  intros Hp. cbn [shape_collection shown_values rows]. rewrite map_map. rewrite Forall_concat, Forall_fmap.
  eapply Forall_impl; [by apply table_clean|]. intros row Hrow. simpl. by rewrite Forall_fmap.
Qed.

Lemma entries_clean fields : Forall entry_clean fields -> Forall cell_clean (map rf_value (map field_entry_to_protocol fields)).
Proof. rewrite map_map, Forall_fmap. done. Qed.

Lemma dedupe_clean fields key : Forall entry_clean fields -> Forall entry_clean (dedupe_heading_field fields key).
Proof.
  intros Hf. destruct key; [|done]. rewrite Forall_forall in *. intros f (Hin & _)%list_elem_of_In%filter_In. by apply Hf, list_elem_of_In.
Qed.

Lemma entity_clean o intent verbose op resource : forallb (fun kv => plain kv.2) o = true ->
  Forall cell_clean (shown_values (shape_entity o intent verbose op resource)).
Proof.
  intros Hp. unfold shape_entity. destruct (prioritized_clean o intent verbose Hp) as [Hf Hs].
  destruct (prioritize_fields o intent verbose) as [entries secs]. destruct (derive_entity_heading _ _ _) as [[[kind ident] style] key].
  cbn [shown_values entity_fields sections fst snd] in *. rewrite map_app, Forall_app. split; [by apply entries_clean, dedupe_clean|].
  rewrite map_map, concat_map, map_map. rewrite Forall_concat, Forall_fmap. eapply Forall_impl; [exact Hs|]. intros s. apply entries_clean.
Qed.

(** The arrays a shape is read from are parts of the body. *)
Lemma detect_shape_plain body : plain body = true ->
  match detect_shape body with
  | ShapeArray items _ | PaginatedList items _ => forallb plain items = true
  | SingleObject o => forallb (fun kv => plain kv.2) o = true
  | Scalar => True
  end.
Proof.
  destruct body as [| | | |l|o]; try done. cbn [plain detect_shape]. intros Hp.
  assert (Harr : forall kv key items, kv ∈ o -> non_empty_array kv = Some (key, items) -> forallb plain items = true).
  { intros [k v] key items Hin%(plain_field _ _ Hp). unfold non_empty_array. simpl in *. destruct v as [| | | |[|x l]|]; try done. by intros [= <- <-]. }
  destruct (obj_get "data" o) as [v|] eqn:E.
  - apply obj_get_elem in E as [k Hin]. assert (Hv := plain_field _ _ Hp Hin). simpl in Hv.
    destruct v; try done; (destruct (omap non_empty_array o) as [|[key items] []] eqn:Eo; try done; destruct (Nat.leb _ _); [|done];
      assert ((key, items) ∈ omap non_empty_array o) as (kv & Hin' & He)%list_elem_of_omap by (rewrite Eo; by left); by eapply Harr).
  - destruct (omap non_empty_array o) as [|[key items] []] eqn:Eo; try done. destruct (Nat.leb _ _); [|done].
    assert ((key, items) ∈ omap non_empty_array o) as (kv & Hin' & He)%list_elem_of_omap by (rewrite Eo; by left). by eapply Harr.
Qed.

(** [C21] Nothing a response says reaches the terminal as an escape sequence through the
    values of a shaped result: every cell of a table and every field of an entity is clean — no
    escape character, no other C0 control character and no DEL but newline and tab —, whatever
    the body, when the texts that its floats are written as are clean; and an operation with
    columns of its own is clean in every text, its labels, notes and identifier included. (The
    C1 characters U+0080 to U+009F are kept: see [c1_control_kept].) *)
Theorem shown_values_clean body op resource verbose : plain body = true ->
  Forall cell_clean (shown_values (shape_response body op resource verbose)) /\
  (is_Some (find_override (op_id op) body) -> Forall clean (other_texts (shape_response body op resource verbose))).
Proof.
  intros Hp. unfold shape_response. destruct (find_override _ _) as [r|] eqn:E.
  - unfold find_override in E. destruct (List.find _ _) as [row|]; [|done]. simpl in E.
    destruct (row.2 body) as [r'|]; [|done]. injection E as <-. split; [|intros _]; apply sanitized_clean.
  - split; [|by intros []]. pose proof (detect_shape_plain body Hp) as Hd.
    destruct (detect_shape body); [by apply collection_clean|by apply collection_clean|by apply entity_clean|constructor].
Qed.
End sanitized.

(** * Tables *)

Section tables.
Context `{JsonText, UnicodeCase}.

Definition is_object (v : value) : bool := match v with Object _ => true | _ => false end.

Definition has_fields (intent : CommandIntent) (verbose : bool) (item : value) : bool := negb (bool_decide (item_fields intent verbose item = [])).

Lemma by_label_found fields f : NoDup (map entry_label fields) -> f ∈ fields -> by_label fields (entry_label f) = entry_value f.
Proof.
  intros Hnd Hf. unfold by_label. destruct (List.find _ _) as [g|] eqn:E.
  - apply List.find_some in E as [Hg%in_rev%list_elem_of_In Hl%String.eqb_eq]. f_equal.
    apply list_elem_of_lookup in Hf as [i Hi], Hg as [j Hj].
    assert (i = j) as <-; [|congruence]. eapply (NoDup_lookup _ _ _ (entry_label f)); [done| |]; rewrite list_lookup_fmap.
    + by rewrite Hi.
    + rewrite Hj. simpl. by rewrite Hl.
  - apply list_elem_of_In, in_rev in Hf. apply (List.find_none _ _ E) in Hf. by rewrite String.eqb_refl in Hf.
Qed.

Lemma object_rows intent verbose headers items : Forall (fun v => is_object v = true) items ->
  omap (table_row intent verbose headers) items =
  map (fun item => map (by_label (item_fields intent verbose item)) headers) (List.filter (has_fields intent verbose) items).
Proof.
  induction 1 as [|item items Hi _ IH]; [done|]. cbn [omap list_omap List.filter]. destruct item as [| | | | |o]; try done.
  unfold table_row at 1. unfold has_fields at 1. destruct (item_fields intent verbose (Object o)) as [|f fs] eqn:E; [exact IH|].
  rewrite bool_decide_eq_false_2 by done. simpl. rewrite <- E. f_equal. exact IH.
Qed.

Lemma no_headers intent verbose items : first_headers intent verbose items = [] -> List.filter (has_fields intent verbose) items = [].
Proof.
  induction items as [|item items IH]; [done|]. simpl. unfold has_fields at 1.
  destruct (item_fields intent verbose item) as [|f fs]; [rewrite bool_decide_eq_true_2 by done; exact IH|done].
Qed.

(** A list of objects becomes a table whose rows are its items with something to show,
    in order, each with exactly one cell per column: the value of the item's field of that
    label (whatever fields other items have), or the mark of an absent one. *)
Theorem table_of_objects items header intent verbose : Forall (fun v => is_object v = true) items ->
  let t := build_list_table items header intent verbose in
  table_rows t = map (fun item => map (by_label (item_fields intent verbose item)) (table_headers t)) (List.filter (has_fields intent verbose) items) /\
  Forall (fun row => length row = length (table_headers t)) (table_rows t) /\
  forall item f, item ∈ items -> f ∈ item_fields intent verbose item -> NoDup (map entry_label (item_fields intent verbose item)) ->
    by_label (item_fields intent verbose item) (entry_label f) = entry_value f.
Proof.
  intros Ho t.
  assert (Hrows : table_rows t = map (fun item => map (by_label (item_fields intent verbose item)) (table_headers t)) (List.filter (has_fields intent verbose) items)).
  { unfold t, build_list_table. destruct (first_headers intent verbose items) as [|h hs] eqn:E; [|by apply object_rows].
    rewrite no_headers by done. assert (omap (fun item => option_map (fun v => [v]) (normalize_value item)) items = []) as ->; [|done].
    clear -Ho. induction Ho as [|item items Hi _ IH]; [done|]. by destruct item. }
  split; [exact Hrows|]. split.
  - rewrite Hrows, Forall_fmap, Forall_forall. intros item _. simpl. apply length_map.
  - intros item f _ Hf Hnd. by apply by_label_found.
Qed.

(** The fields that could be shown, with their priorities. *)
Definition showable (o : list (string * value)) : list (nat * FieldEntry) := omap scalar_entry o.

(** The fields shown are the most important ones: no field left out has a better
    priority than one shown, fields are shown by priority and, within one, in the order of
    the response, and as many are shown as the limit allows. *)
Theorem fields_by_priority o intent verbose :
  exists shown hidden, (prioritize_fields o intent verbose).1 = map snd shown /\ shown ++ hidden ≡ₚ showable o /\
    StronglySorted (fun a b => a.1 <= b.1)%nat (shown ++ hidden) /\
    (forall p, List.filter (fun e => Nat.eqb e.1 p) (shown ++ hidden) = List.filter (fun e => Nat.eqb e.1 p) (showable o)) /\
    length shown = match field_limit intent verbose with Some n => Nat.min n (length (showable o)) | None => length (showable o) end.
Proof.
  set (sorted := sort_by by_priority (showable o)).
  assert (Hs : exists shown hidden, take_at_most (field_limit intent verbose) sorted = shown /\ sorted = shown ++ hidden /\
    length shown = match field_limit intent verbose with Some n => Nat.min n (length (showable o)) | None => length (showable o) end).
  { assert (Hl : length sorted = length (showable o)) by (unfold sorted; by rewrite sort_by_perm).
    destruct (field_limit intent verbose) as [n|]; simpl.
    - exists (take n sorted), (drop n sorted). by rewrite take_drop, length_take, Hl.
    - exists sorted, []. by rewrite app_nil_r. }
  destruct Hs as (shown & hidden & Ht & He & Hlen). exists shown, hidden. split; [|rewrite <- He; split_and!].
  - unfold prioritize_fields. cbn [fst]. f_equal. exact Ht.
  - apply sort_by_perm.
  - assert (StronglySorted (fun a b => by_priority a b = true) sorted) as Hsort.
    { apply sort_by_sorted; unfold by_priority; intros *; rewrite ?Nat.leb_le, ?Nat.leb_gt; lia. }
    clear -Hsort. induction Hsort as [|x l _ IH Hx]; constructor; [done|]. eapply Forall_impl; [exact Hx|]. intros y. apply Nat.leb_le.
  - intros p. apply sort_by_filter. unfold by_priority. intros a b ->%Nat.eqb_eq ->%Nat.eqb_eq. by apply Nat.leb_refl.
  - done.
Qed.
End tables.

(** * Examples *)

#[local] Instance shape_case : UnicodeCase := ascii_case.
#[local] Instance shape_json : JsonText := bits_json_text.

Example label_examples :
  map normalize_label ["userId"; "displayName"; "emailVerified"; "statCode"; "x"] = ["User ID"; "Display Name"; "Email verified"; "Stat code"; "X"].
Proof. vm_compute. reflexivity. Qed.

Definition list_users : OperationSchema :=
  mk_operation "iam/admin/user/v1/list" "list" EmptyString None ReadOnly Get "/users" [] None None [] "admin" 1 false None.

Definition user_a : value := Object [("createdAt", Str "2026-01-01"); ("id", Str "a"); ("name", Str (String ESC "[31mann")); ("tags", Array [])].
Definition user_b : value := Object [("age", Number (NInt 7)); ("id", Str "b")].
Definition users_body : value := Object [("data", Array [user_a; user_b]); ("paging", Object [("next", Str "p2")])].

Example users_table : shape_response users_body list_users "users" false =
  Collection (mk_collection "users" [mk_column "ID" "ID"; mk_column "Name" "Name"; mk_column "Created" "Created"]
    [mk_row [CellText "a"; CellText "ann"; CellText "2026-01-01"]; mk_row [CellText "b"; CellText MISSING; CellText MISSING]]
    (Some (mk_page_info 1 None None true)) []).
Proof. vm_compute. reflexivity. Qed.

Lemma shown_values_clean_witness : Forall cell_clean (shown_values (shape_response users_body list_users "users" false)).
Proof. apply (@shown_values_clean shape_json shape_case users_body list_users "users" false). reflexivity. Defined.

Lemma table_of_objects_witness :
  Forall (fun row => length row = 3%nat) (table_rows (build_list_table [user_a; user_b] "User" List_ false)).
Proof. apply (@table_of_objects shape_json shape_case [user_a; user_b] "User" List_ false). repeat constructor. Defined.

(** The heading is not stripped: the name of an entity reaches it as it is. *)
Lemma heading_not_clean : exists e, shape_response user_a (mk_operation "o" "get" EmptyString None ReadOnly Get "/users/{id}" [] None None [] "admin" 1 false None) "users" false = Entity e /\
  identifier e = Some (String ESC "[31mann") /\ ~ Forall clean (other_texts (Entity e)).
Proof.
  eexists. split; [vm_compute; reflexivity|]. split; [reflexivity|].
  intros Hc. rewrite Forall_forall in Hc. specialize (Hc (String ESC "[31mann")). cbn in Hc.
  discriminate Hc. right. left.
Qed.

(** An array of objects and scalars makes rows of one cell in a table of more columns. *)
Lemma mixed_rows_short : map (@length _) (table_rows (build_list_table [user_a; Str "x"] "User" List_ false)) = [3%nat; 1%nat].
Proof. vm_compute. reflexivity. Qed.
