(* ===== verification/Dispatch.v ===== *)
(** Executing one operation ([dispatch/execute.rs], [dispatch/confirmation.rs],
    [facade/service.rs]): the request, the response in its variants, previews and dry runs. *)

From stdpp Require Import base gmap strings list.
From Stdlib Require Import ZArith Lia Ascii Strings.Byte.
From S2P Require Import Prelude Text Kebab Nouns Json Catalogue Sanitise Results Workflow Request Url Http Pagination ErrorCodes Classify Shape.

#[local] Arguments String.append !_ _ /.

(** * Confirmation *)

Definition RISKY_KEYWORDS : list string := ["delete"; "ban"; "revoke"; "reset"; "disable"; "remove"; "force"; "stop"].

Definition requires_confirmation (m : HttpMethod) (operation_name : string) : bool :=
  match m with
  | Delete => true
  | Post | Put | Patch => existsb (fun keyword => contains keyword (to_ascii_lowercase operation_name)) RISKY_KEYWORDS
  | _ => false
  end.

(** * Names of what is done *)

Definition progress_verb_for_operation (http_method : string) (c : MutationClass) : string :=
  match c with
  | ReadOnly | Diagnostic => "Fetching"
  | Mutating =>
      if existsb (String.eqb http_method) ["GET"; "HEAD"; "OPTIONS"] then "Fetching"
      else if String.eqb http_method "POST" then "Creating"
      else if existsb (String.eqb http_method) ["PUT"; "PATCH"] then "Updating"
      else if String.eqb http_method "DELETE" then "Deleting"
      else "Requesting"
  end.

Definition derive_success_noun (method_name resource_name : string) : string :=
  match split_once "-" method_name with
  | Some (_, after) => replace "-" " " after
  | None => singularize resource_name
  end.

Definition success_verb (m : HttpMethod) : string :=
  match m with Post => "Created" | Put | Patch => "Updated" | Delete => "Deleted" | _ => "Completed" end.

Definition map_output_sink_error (e : OutputSinkError) : RuntimeError :=
  match e with Usage message => validation message | SinkInternal message => internal_error message end.

(** A [BTreeMap] in the order of its keys. *)
Definition entries (m : gmap string string) : list (string * string) := sort_by (fun a b => String.leb a.1 b.1) (map_to_list m).

Definition success_status (status : Z) : bool := (200 <=? status) && (status <? 300).

Definition is_verbose (v : Verbosity) : bool := match v with Verbose => true | _ => false end.
Definition is_quiet (v : Verbosity) : bool := match v with Quiet => true | _ => false end.

(** The two variants of [CommandOutput] a dispatch returns. *)
Inductive DispatchOutput : Type := Service (o : ApiOutput) | BinaryWritten (o : BinaryWrittenOutput).

Record ApiCallContext : Type := mk_ctx {
  ctx_base_url : string;
  ctx_token : string;
  ctx_service_name : string;
  ctx_resource_name : string;
  ctx_resolution_trace : option ResolutionTrace;
  ctx_alternate_versions : bool
}.

(** * Previews and dry runs *)

Record CommandPreview : Type := mk_command_preview {
  preview_service : string;
  preview_operation_id : string;
  preview_summary : string;
  preview_http_method : HttpMethod;
  preview_url : string;
  preview_mutation_class : MutationClass;
  confirmation_required : bool;
  preview_warnings : list string
}.

Record DryRunResult : Type := mk_dry_run {
  dry_http_method : HttpMethod;
  dry_url : string;
  dry_headers : list (string * string);
  dry_query : list (string * string);
  dry_body : option RequestBody
}.

(** * The runtime's context *)

Inductive ProfileSource : Type := ProfileFlag | ProfileEnvironment | GlobalConfig.
Inductive BaseUrlSource : Type := UrlEnvironment | UrlConfiguration | UrlKeystore | UrlDefault.
Inductive AccessTokenSource : Type := TokenNone | TokenEnvironment | TokenStored | TokenRefreshed | TokenClientCredentials | TokenDryRun.
Inductive NamespaceSource : Type := NamespaceFlag | NamespaceEnvironment | NamespaceConfiguration.

Definition profile_label (s : ProfileSource) : string :=
  match s with ProfileFlag => "--profile flag" | ProfileEnvironment => "AGS_PROFILE env" | GlobalConfig => "global config" end.
Definition base_url_label (s : BaseUrlSource) : string :=
  match s with UrlEnvironment => "AGS_BASE_URL env" | UrlConfiguration => "profile config" | UrlKeystore => "keystore" | UrlDefault => "default" end.
Definition token_label (s : AccessTokenSource) : string :=
  match s with
  | TokenNone => "none" | TokenEnvironment => "AGS_ACCESS_TOKEN env" | TokenStored => "stored" | TokenRefreshed => "refreshed"
  | TokenClientCredentials => "client-credentials grant" | TokenDryRun => "dry-run"
  end.
Definition namespace_label (s : NamespaceSource) : string :=
  match s with NamespaceFlag => "--namespace flag" | NamespaceEnvironment => "AGS_NAMESPACE env" | NamespaceConfiguration => "profile config" end.

Record ExecutionContext : Type := mk_execution_context {
  profile : string;
  profile_source : ProfileSource;
  namespace : option string;
  namespace_source : option NamespaceSource;
  base_url : string;
  base_url_source : BaseUrlSource;
  access_token : string;
  access_token_source : AccessTokenSource;
  access_token_expiry : option string;
  access_token_warnings : list string
}.

(** [lookup_operation]: the first contract with the id, in the order of the schema. *)
Definition entry_alternates (s : ScopeEntry) : bool := Nat.ltb 1 (length (contracts s)).

Definition contract_rows (schema : ServiceSchema) : list (string * OperationSchema * bool) :=
  r ← resources schema; m ← methods r; s ← scopes m; c ← contracts s; [(resource_name r, c, entry_alternates s)].

Definition lookup_operation (schema : ServiceSchema) (operation_id : string) : option (string * OperationSchema * bool) :=
  List.find (fun row => String.eqb (op_id row.1.2) operation_id) (contract_rows schema).

Section dispatch.
Context `{JsonText, UnicodeCase, PercentEncoding, WordChars, Transport}.
(** The message of a [serde_json] error. *)
Variable json_error : string -> string.

(** * The request *)

Definition build_base_request (ctx : ApiCallContext) (op : OperationSchema) (r : CommandRequest)
  : result (string * list (string * string) * HttpRequest) RuntimeError :=
  let? path := substitute_path_params (path_template op) (path_params r) in
  let url := trim_end_matches "/" (ctx_base_url ctx) +:+ path in
  let query_params := entries (query_params r) in
  Ok (url, query_params, mk_http_request (http_method op) url (bearer (ctx_token ctx)) query_params None).

Definition with_body (r : HttpRequest) (b : option RequestBody) : HttpRequest :=
  mk_http_request (method r) (url r) (headers r) (query r) b.

(** * Errors *)

Definition error_object (body_text : string) : value :=
  match parse_json body_text with
  | Some v => v
  | None =>
      let cleaned := strip_terminal_control_sequences body_text in
      if is_empty cleaned then Null else Object [("errorMessage", Str cleaned)]
  end.

(** [None] is a panic of the classification. *)
Definition classify_error_body (status : Z) (body_text service resource method : string) : option RuntimeError :=
  classify_to_runtime_error status (error_object body_text) service resource method.

(** * Bodies written to a destination *)

Definition written_destination (s : OutputSink) : BinaryWrittenDestination :=
  match s with SinkStdout => WrittenToStdout | SinkFile path => WrittenToFile path end.

(** Resolve the destination, write, report. *)
Definition write_body (r : CommandRequest) (is_binary : bool) (b : bytes) (content_type : string) : Io DispatchOutput := fun c =>
  match map_err map_output_sink_error (resolve_output_sink (req_output r) is_binary (stdout_tty (net c))) with
  | Err e => (Err (Failed e), c)
  | Ok sink =>
      let '(written, c) := sink_write sink b c in
      (map_err Failed
         (let? _ := map_err map_output_sink_error written in
          Ok (BinaryWritten (mk_binary_written (written_destination sink) (Z.of_nat (length b)) content_type))), c)
  end.

(** Run a computation, then emit [Finished], whatever it gave. *)
Definition then_finished {A} (m : Io A) : Io A := fun c =>
  let '(r, c) := m c in (r, (emit Finished c).2).

Definition write_binary_response (status : Z) (content_type : string) (b : bytes) (r : CommandRequest) : Io DispatchOutput :=
  then_finished
    (if negb (success_status status)
     then io_fail (upstream status ("HTTP " +:+ show_int status +:+ " with binary body (" +:+ content_type +:+ ", " +:+
                                    show_int (Z.of_nat (length b)) +:+ " bytes)."))
     else write_body r true b content_type).

Definition write_text_response (body_text : string) (op : OperationSchema) (r : CommandRequest) : Io DispatchOutput :=
  then_finished (write_body r false (as_bytes body_text) (default "application/json" (response_content_type op))).

(** * Traces *)

(** The size of a request body; a file counts what its metadata says. *)
Definition body_size (b : RequestBody) (n : Net) : Z :=
  match b with
  | BodyJson v => Z.of_nat (length (to_vec v))
  | BodyMultipart parts =>
      foldr Z.add 0 (map (fun part => match part with
                                      | FormText _ value => Z.of_nat (String.length value)
                                      | FormFile _ path _ => default 0 (file_length path n)
                                      end) parts)
  end.

Definition trace_of (ctx : ApiCallContext) (op : OperationSchema) (url : string) (query_params : list (string * string))
    (request_size : option Z) (status : Z) (body_text : string) : ExecutionTrace :=
  mk_trace (ctx_resolution_trace ctx) (mk_request_trace (method_as_str (http_method op)) url query_params true request_size)
    (Some (mk_response_trace status None (Some (Z.of_nat (String.length body_text))))).

(** * The pipeline *)

Definition success_of (ctx : ApiCallContext) (op : OperationSchema) (v : Verbosity) : option ApiSuccess :=
  match mutation_class op with
  | Mutating =>
      if is_quiet v then None
      else Some (mk_success (success_verb (http_method op) +:+ " " +:+ derive_success_noun (op_name op) (ctx_resource_name ctx)) (api_version op))
  | _ => None
  end.

(** The pages a request asks for; [None] when only the first. *)
Definition requested_pages (h : PaginationHint) : option Z :=
  match h with PageAll => Some 0 | PageLimit n => Some n | _ => None end.

Definition shaped_body (ctx : ApiCallContext) (op : OperationSchema) (r : CommandRequest) (v : value) : CommandResult :=
  match req_output_format r with
  | JsonFormat => Raw v
  | Human => shape_response v op (ctx_resource_name ctx) (is_verbose (req_verbosity r))
  end.

(** The body of a successful answer, and its JSON. *)
Definition answer_body (ctx : ApiCallContext) (op : OperationSchema) (r : CommandRequest) (url : string) (query_params : list (string * string))
    (body_text : string) : Io (ApiBody * option value) :=
  match parse_json body_text with
  | Some v =>
      let! final := match requested_pages (req_pagination r) with
                    | Some limit => fetch_all_pages url (ctx_token ctx) op v query_params limit
                    | None => io_ret v
                    end in
      io_ret (BodyShaped (shaped_body ctx op r final), Some final)
  | None =>
      if negb (is_empty body_text) then io_ret (BodyText (strip_terminal_control_sequences body_text), None) else io_ret (BodyEmpty, None)
  end.

Definition asks (f : Net -> Z) : Io Z := fun c => (Ok (f (net c)), c).

Definition success_trace (ctx : ApiCallContext) (op : OperationSchema) (r : CommandRequest) (url : string)
    (query_params : list (string * string)) (status : Z) (body_text : string) : Io (option ExecutionTrace) :=
  if is_verbose (req_verbosity r) then
    let! size := match req_body r with
                 | Some b => let! n := asks (body_size b) in io_ret (Some n)
                 | None => io_ret None
                 end in
    io_ret (Some (trace_of ctx op url query_params size status body_text))
  else io_ret None.

Definition succeed (ctx : ApiCallContext) (op : OperationSchema) (r : CommandRequest) (url : string)
    (query_params : list (string * string)) (status : Z) (body_text : string) : Io DispatchOutput :=
  let! answer := answer_body ctx op r url query_params body_text in
  let! trace := success_trace ctx op r url query_params status body_text in
  do! emit Finished;
  io_ret (Service (mk_api_output op (ctx_resource_name ctx) answer.1 (success_of ctx op (req_verbosity r)) trace answer.2
                     (ctx_alternate_versions ctx))).

Definition with_trace (e : RuntimeError) (t : ExecutionTrace) : RuntimeError :=
  mk_error (kind e) (message e) (details e) (hint e) (Some t).

Definition fail_classified (ctx : ApiCallContext) (op : OperationSchema) (r : CommandRequest) (url : string)
    (query_params : list (string * string)) (status : Z) (body_text : string) : Io DispatchOutput :=
  do! emit Finished;
  match classify_error_body status body_text (ctx_service_name ctx) (ctx_resource_name ctx) (op_name op) with
  | None => io_panic
  | Some e => io_fail (if is_verbose (req_verbosity r) then with_trace e (trace_of ctx op url query_params None status body_text) else e)
  end.

(** What [execute_operation] does with the response. *)
Definition respond (ctx : ApiCallContext) (op : OperationSchema) (r : CommandRequest) (url : string) (query_params : list (string * string))
    (response : HttpResponse) : Io DispatchOutput :=
  match body response with
  | Binary content_type b => write_binary_response (status response) content_type b r
  | HttpText body_text =>
      if success_status (status response) then
        match req_output r, req_output_format r with
        | Some _, Human => write_text_response body_text op r
        | _, _ => succeed ctx op r url query_params (status response) body_text
        end
      else fail_classified ctx op r url query_params (status response) body_text
  end.

Definition execute_operation (ctx : ApiCallContext) (op : OperationSchema) (r : CommandRequest) : Io DispatchOutput :=
  let! base := io_lift (build_base_request ctx op r) in
  let '(url, query_params, http_request) := base in
  do! emit (Started (progress_verb_for_operation (method_as_str (http_method op)) (mutation_class op) +:+ "..."));
  let! response := send (with_body http_request (req_body r)) in
  respond ctx op r url query_params response.

Definition fetch_raw_body (ctx : ApiCallContext) (op : OperationSchema) (r : CommandRequest) (items_path : string) : Io value :=
  let! base := io_lift (build_base_request ctx op r) in
  let '(url, query_params, http_request) := base in
  let! response := send http_request in
  match body response with
  | Binary content_type b =>
      io_fail (upstream (status response) ("options fetch returned a binary body (" +:+ content_type +:+ ", " +:+
                                           show_int (Z.of_nat (length b)) +:+ " bytes)"))
  | HttpText body_text =>
      if negb (success_status (status response)) then
        match classify_error_body (status response) body_text (ctx_service_name ctx) (ctx_resource_name ctx) (op_name op) with
        | None => io_panic
        | Some e => io_fail e
        end
      else
        match parse_json body_text with
        | None => io_fail (internal_error ("options fetch returned a non-JSON body: " +:+ json_error body_text))
        | Some v => fetch_all_pages_at_path url (ctx_token ctx) op v query_params 0 items_path
        end
  end.

(** * The facade *)

(** The schema of a service, bundled or fetched. *)
Variable get_or_load : string -> result ServiceSchema RuntimeError.
Variable context : ExecutionContext.

Definition runtime_find_operation (r : CommandRequest) : result (string * OperationSchema * bool) RuntimeError :=
  let? schema := get_or_load (req_service r) in
  ok_or (lookup_operation schema (req_operation_id r))
    (validation ("Operation '" +:+ req_operation_id r +:+ "' not found in service '" +:+ req_service r +:+ "'")).

Definition display_service_name (r : CommandRequest) : string := default (req_service r) (display_name (req_service r)).

Definition resolution_of (service_name : string) : ResolutionTrace :=
  mk_resolution (to_uppercase service_name +:+ " loaded from cache")
    (profile context, profile_label (profile_source context))
    (base_url context, base_url_label (base_url_source context))
    (n ← namespace context; source ← namespace_source context; Some (n, namespace_label source))
    (token_label (access_token_source context))
    (option_map (fun d => "expires in " +:+ d) (access_token_expiry context)).

Definition call_context (r : CommandRequest) (resource : string) (alternate : bool) (t : option ResolutionTrace) : ApiCallContext :=
  mk_ctx (base_url context) (access_token context) (display_service_name r) resource t alternate.

Definition run_command (r : CommandRequest) : Io DispatchOutput :=
  let! found := io_lift (runtime_find_operation r) in
  let '(resource, op, alternate) := found in
  let t := if is_verbose (req_verbosity r) then Some (resolution_of (display_service_name r)) else None in
  execute_operation (call_context r resource alternate t) op r.

Definition fetch_options_body (r : CommandRequest) (items_path : string) : Io value :=
  let! found := io_lift (runtime_find_operation r) in
  let '(resource, op, alternate) := found in
  fetch_raw_body (call_context r resource alternate None) op r items_path.

Definition build_request_url (path : string) : string := trim_end_matches "/" (base_url context) +:+ path.

(** The placeholder of a parameter. *)
Definition token_of (name : string) : string := "{" +:+ name +:+ "}".

(** The URL of the confirmation card: the values unencoded, and stripped. *)
Definition preview_path (r : CommandRequest) (template : string) : string :=
  foldl (fun path nv => replace (token_of nv.1) (strip_terminal_control_sequences nv.2) path) template (entries (path_params r)).

Definition preview_command (r : CommandRequest) : result CommandPreview RuntimeError :=
  let? found := runtime_find_operation r in
  let '(_, op, _) := found in
  Ok (mk_command_preview (req_service r) (req_operation_id r) ("This will issue a " +:+ method_as_str (http_method op) +:+ " request")
        (http_method op) (build_request_url (preview_path r (path_template op))) (mutation_class op)
        (requires_confirmation (http_method op) (op_name op)) []).

Definition dry_run_command (r : CommandRequest) : result DryRunResult RuntimeError :=
  let? found := runtime_find_operation r in
  let '(_, op, _) := found in
  let? path := substitute_path_params (path_template op) (path_params r) in
  Ok (mk_dry_run (http_method op) (build_request_url path) [("Authorization", "Bearer <token>")] (entries (query_params r)) (req_body r)).
End dispatch.
