(* ===== verification/DispatchProps.v ===== *)
(** What a dispatched command does to the outside: the requests it sends, the progress it
    reports, and how a dry run foretells them. *)

From stdpp Require Import base gmap strings list.
From Stdlib Require Import ZArith Lia Ascii Strings.Byte.
From S2P Require Import Prelude Text Kebab Nouns Json Catalogue Sanitise Results Workflow Request Url Http Pagination ErrorCodes Classify Shape Dispatch.

#[local] Arguments String.append !_ _ /.

(** * Traces of a computation *)

Section traces.
Context `{Transport}.

(** A computation that only sends requests of [P] and only reports events of [E]. *)
Definition traces (P : HttpRequest -> Prop) (E : ProgressEvent -> Prop) {A} (m : Io A) : Prop := forall c, exists rs es,
  sent (m c).2 = sent c ++ rs /\ progress (m c).2 = progress c ++ es /\ Forall P rs /\ Forall E es.

Definition nothing {A} (x : A) : Prop := False.

Context {P : HttpRequest -> Prop} {E : ProgressEvent -> Prop}.

Lemma traces_still {A} (m : Io A) : (forall c, (m c).2 = c) -> traces P E m.
Proof. intros Hm c. exists [], []. by rewrite Hm, !app_nil_r. Qed.

Lemma traces_ret {A} (x : A) : traces P E (io_ret x).
Proof. by apply traces_still. Qed.
Lemma traces_fail {A} e : traces P E (@io_fail _ A e).
Proof. by apply traces_still. Qed.
Lemma traces_panic {A} : traces P E (@io_panic _ A).
Proof. by apply traces_still. Qed.
Lemma traces_lift {A} (r : result A RuntimeError) : traces P E (io_lift r).
Proof. by apply traces_still. Qed.
Lemma traces_asks f : traces P E (asks f).
Proof. by apply traces_still. Qed.

Lemma traces_bind {A B} (m : Io A) (k : A -> Io B) : traces P E m -> (forall x, traces P E (k x)) -> traces P E (io_bind m k).
Proof.
  intros Hm Hk c. unfold io_bind. specialize (Hm c). destruct (m c) as [[x|e] c1]; [|exact Hm].
  destruct Hm as (r1 & e1 & Hs1 & Hp1 & HP1 & HE1). destruct (Hk x c1) as (r2 & e2 & Hs2 & Hp2 & HP2 & HE2). simpl in *.
  exists (r1 ++ r2), (e1 ++ e2). rewrite Hs2, Hp2, Hs1, Hp1, !app_assoc. split_and!; try done; by apply Forall_app.
Qed.

Lemma traces_emit e : E e -> traces P E (emit e).
Proof. intros He c. exists [], [e]. simpl. rewrite app_nil_r. split_and!; auto. Qed.

Lemma traces_send r : P r -> traces P E (send r).
Proof.
  intros Hr c. unfold send. destruct (open_parts _ _) as [u|e]; [|exists [], []; by rewrite !app_nil_r].
  destruct (exchange r (net c)) as [answer n]. exists [r], []. simpl. rewrite app_nil_r. split_and!; auto.
Qed.

Lemma traces_write_body r is_binary b ct : traces P E (write_body r is_binary b ct).
Proof.
  intros c. exists [], []. rewrite !app_nil_r. unfold write_body. destruct (map_err _ (resolve_output_sink _ _ _)) as [sink|e]; [|done].
  unfold sink_write. by destruct sink; [destruct (write_stdout _ _)|destruct (write_file _ _ _)].
Qed.

Lemma traces_then_finished {A} (m : Io A) : E Finished -> traces P E m -> traces P E (then_finished m).
Proof.
  intros HE Hm c. unfold then_finished. specialize (Hm c). destruct (m c) as [x c1]. destruct Hm as (rs & es & Hs & Hp & HP & HEs).
  exists rs, (es ++ [Finished]). simpl in *. rewrite Hs, Hp, app_assoc. split_and!; try done. apply Forall_app. auto.
Qed.
End traces.

Lemma lift_bind `{Transport} {A B} (r : result A RuntimeError) (k : A -> Io B) c :
  io_bind (io_lift r) k c = match r with Ok x => k x c | Err e => (Err (Failed e), c) end.
Proof. by destruct r. Qed.

Create HintDb traces.
#[export] Hint Resolve traces_ret traces_fail traces_panic traces_lift traces_asks traces_bind traces_emit traces_send traces_write_body : traces.

Lemma traces_impl `{Transport} (P P' : HttpRequest -> Prop) (E E' : ProgressEvent -> Prop) {A} (m : Io A) :
  (forall r, P r -> P' r) -> (forall e, E e -> E' e) -> traces P E m -> traces P' E' m.
Proof. intros HP HE Hm c. destruct (Hm c) as (rs & es & ? & ? & ? & ?). exists rs, es. split_and!; try done; by eapply Forall_impl. Qed.

(** * Pages *)

(** An event between the first and the last. *)
Definition midway (e : ProgressEvent) : Prop := match e with Page _ _ | Message _ => True | _ => False end.

(** A request for a further page: a GET without a body, with the token. *)
Definition page_of (url token : string) (r : HttpRequest) : Prop :=
  method r = Get /\ Http.url r = url /\ headers r = bearer token /\ http_body r = None.

Section pages.
Context `{JsonText, Transport}.

Lemma traces_next_page l cursor pages : traces (page_of (resolved_url l) (token l)) midway (next_page l cursor pages).
Proof. unfold next_page, fetch_next_page. apply traces_bind; [by apply traces_emit|intros _]. apply traces_bind; auto with traces. by apply traces_send. Qed.

Lemma traces_paginate_loop fuel l cursor items paging pages :
  traces (page_of (resolved_url l) (token l)) midway (paginate_loop fuel l cursor items paging pages).
Proof.
  revert cursor items paging pages. induction fuel as [|fuel IH]; intros cursor items paging pages; cbn [paginate_loop]; [apply traces_ret|].
  destruct (_ <=? _); [apply traces_bind; [by apply traces_emit|intros _; apply traces_ret]|].
  apply traces_bind; [apply traces_next_page|intros response].
  destruct (extract_data_array response) as [[|x data]|]; try apply traces_ret.
  destruct (extract_next_cursor response); [apply IH|apply traces_ret].
Qed.

Lemma traces_fetch_all_pages url token op v q limit : traces (page_of url token) midway (fetch_all_pages url token op v q limit).
Proof.
  unfold fetch_all_pages. destruct (extract_next_cursor v); [|apply traces_ret]. destruct (detect_strategy op); [|apply traces_ret].
  apply (traces_paginate_loop _ (mk_listing _ _ _ _ _ _)).
Qed.
End pages.

(** * The answer *)

Section dispatch.
Context `{JsonText, UnicodeCase, PercentEncoding, WordChars, Transport}.
Variable get_or_load : string -> result ServiceSchema RuntimeError.
Variable context : ExecutionContext.

Lemma traces_answer_body ctx op r url q text : traces (page_of url (ctx_token ctx)) midway (answer_body ctx op r url q text).
Proof.
  unfold answer_body. destruct (parse_json text); [|destruct (negb _); apply traces_ret].
  apply traces_bind; [|intros final; apply traces_ret]. destruct (requested_pages _); [apply traces_fetch_all_pages|apply traces_ret].
Qed.

Lemma traces_success_trace P E ctx op r url q status text : traces P E (success_trace ctx op r url q status text).
Proof.
  unfold success_trace. destruct (is_verbose _); [|apply traces_ret]. apply traces_bind; [|intros; apply traces_ret].
  destruct (req_body r); auto with traces.
Qed.

Lemma traces_respond ctx op r url q response : traces (page_of url (ctx_token ctx)) (fun e => midway e \/ e = Finished) (respond ctx op r url q response).
Proof.
  unfold respond. destruct (body response) as [text|ct b].
  - destruct (success_status _).
    + assert (Hs : traces (page_of url (ctx_token ctx)) (fun e => midway e \/ e = Finished) (succeed ctx op r url q (status response) text)).
      { apply traces_bind; [eapply traces_impl, traces_answer_body; auto|intros answer].
        apply traces_bind; [apply traces_success_trace|intros t]. apply traces_bind; [by apply traces_emit; right|intros; apply traces_ret]. }
      destruct (req_output r), (req_output_format r); try exact Hs. apply traces_then_finished; [by right|apply traces_write_body].
    + apply traces_bind; [by apply traces_emit; right|intros _]. destruct (classify_error_body _ _ _ _ _); auto with traces.
  - apply traces_then_finished; [by right|]. destruct (negb _); auto with traces.
Qed.

(** ** The last event *)

(** The events of a computation: some in the middle, then [Finished] at most, and always
    when it succeeds. *)
Definition finishing {A} (m : Io A) : Prop := forall c, exists mid tail,
  progress (m c).2 = progress c ++ mid ++ tail /\ Forall midway mid /\ (tail = [] \/ tail = [Finished]) /\
  (is_ok (m c).1 = true -> tail = [Finished]).

Lemma finishing_bind {A B} P (m : Io A) (k : A -> Io B) : traces P midway m -> (forall x, finishing (k x)) -> finishing (io_bind m k).
Proof.
  intros Hm Hk c. unfold io_bind. destruct (Hm c) as (rs & es & _ & Hp & _ & HE). destruct (m c) as [[x|e] c1]; simpl in *.
  - destruct (Hk x c1) as (mid & tail & Hp' & Hmid & Ht & Hok). exists (es ++ mid), tail. rewrite Hp', Hp, !app_assoc. split_and!; try done.
    by apply Forall_app.
  - exists es, []. rewrite app_nil_r. split_and!; auto. done.
Qed.

Lemma finishing_then_finished {A} P (m : Io A) : traces P midway m -> finishing (then_finished m).
Proof.
  intros Hm c. unfold then_finished. destruct (Hm c) as (rs & es & _ & Hp & _ & HE). destruct (m c) as [x c1]. simpl in *.
  exists es, [Finished]. rewrite Hp, app_assoc. auto.
Qed.

Lemma finishing_emit {A} (m : Io A) : (forall c, (m c).2 = c) -> finishing (io_bind (emit Finished) (fun _ => m)).
Proof. intros Hm c. unfold io_bind, emit. rewrite Hm. exists [], [Finished]. auto. Qed.

Lemma finishing_respond ctx op r url q response : finishing (respond ctx op r url q response).
Proof.
  unfold respond. destruct (body response) as [text|ct b].
  - destruct (success_status _).
    + assert (Hs : finishing (succeed ctx op r url q (status response) text)).
      { eapply finishing_bind; [apply traces_answer_body|intros answer].
        eapply (finishing_bind (fun _ => True)); [apply traces_success_trace|intros t]. by apply finishing_emit. }
      destruct (req_output r), (req_output_format r); try exact Hs. apply (finishing_then_finished (fun _ => True)), traces_write_body.
    + apply finishing_emit. intros c. by destruct (classify_error_body _ _ _ _ _).
  - apply (finishing_then_finished (fun _ => True)). destruct (negb _); auto with traces.
Qed.

(** ** The first request *)

Definition first_request (r : CommandRequest) (d : DryRunResult) : HttpRequest :=
  mk_http_request (dry_http_method d) (dry_url d) (bearer (access_token context)) (dry_query d) (dry_body d).

Notation run := (run_command get_or_load context).
Notation dry_run := (dry_run_command get_or_load context).

(** A run is the request of its dry run, and what is made of the answer. *)
Lemma run_command_eq r c :
  match dry_run r with
  | Err e => run r c = (Err (Failed e), c)
  | Ok d => exists ctx op verb, ctx_token ctx = access_token context /\
      run r c = io_bind (emit (Started verb)) (fun _ => io_bind (send (first_request r d)) (respond ctx op r (dry_url d) (dry_query d))) c
  end.
Proof.
  unfold dry_run_command, run_command. rewrite lift_bind. destruct (runtime_find_operation get_or_load r) as [[[resource op] alternate]|e]; [|done].
  cbn [result_bind]. set (ctx := call_context context r resource alternate _).
  unfold execute_operation. rewrite lift_bind. unfold build_base_request.
  destruct (substitute_path_params (path_template op) (path_params r)) as [path|e] eqn:E; cbn [result_bind]; [|done].
  by exists ctx, op, (progress_verb_for_operation (method_as_str (http_method op)) (mutation_class op) +:+ "...").
Qed.

(** [C10] A dry run foretells the run. A request that it rejects is not sent, and fails with
    the same error. Otherwise the run sends first exactly the request the dry run shows,
    same method, URL, query and body, with the access token in place of its mark, unless a
    file of the body cannot be opened, and then nothing is sent; whatever follows is a page
    of the listing, a GET without a body of the same URL. So a command changes the
    remote state through at most the one request shown. *)
Theorem dry_run_foretells r c :
  match dry_run r with
  | Err e => run r c = (Err (Failed e), c)
  | Ok d =>
      map fst (headers (first_request r d)) = map fst (dry_headers d) /\
      match open_parts (dry_body d) (net c) with
      | Err e => (run r c).1 = Err (Failed e) /\ sent (run r c).2 = sent c
      | Ok _ => exists pages, sent (run r c).2 = sent c ++ first_request r d :: pages /\ Forall (page_of (dry_url d) (access_token context)) pages
      end
  end.
Proof.
  pose proof (run_command_eq r c) as Hrun. destruct (dry_run r) as [d|e] eqn:Hd; [|exact Hrun]. split.
  { unfold dry_run_command in Hd. destruct (runtime_find_operation get_or_load r) as [[[resource op] alternate]|]; [|done]. cbn [result_bind] in Hd.
    destruct (substitute_path_params _ _); [|done]. by injection Hd as <-. }
  destruct Hrun as (ctx & op & verb & Htoken & ->). unfold io_bind, emit, send. cbn [http_body first_request net].
  destruct (open_parts _ _); [|done]. destruct (exchange _ _) as [answer n]. simpl.
  destruct (map_err Failed _) as [response|e]; [|by exists []].
  destruct (traces_respond ctx op r (dry_url d) (dry_query d) response (mk_conn n (sent c ++ [first_request r d]) (progress c ++ [Started verb])))
    as (rs & es & Hs & _ & HP & _). exists rs. rewrite Hs. simpl. rewrite <- app_assoc, <- Htoken. done.
Qed.

(** The progress of a command: it starts once, then reports pages and messages, and
    [Finished] is its last event if at all, and always there when the command succeeds. A
    request that is rejected before it is sent reports nothing. *)
Theorem progress_finishes r c :
  progress (run r c).2 = progress c /\ is_ok (run r c).1 = false \/
  exists verb mid tail, progress (run r c).2 = progress c ++ Started verb :: mid ++ tail /\ Forall midway mid /\
    (tail = [] \/ tail = [Finished]) /\ (is_ok (run r c).1 = true -> tail = [Finished]).
Proof.
  pose proof (run_command_eq r c) as Hrun. destruct (dry_run r) as [d|e]; [|left; by rewrite Hrun].
  right. destruct Hrun as (ctx & op & verb & _ & Hrun). exists verb.
  destruct (finishing_bind (fun _ => True) (send (first_request r d)) (respond ctx op r (dry_url d) (dry_query d))
              ltac:(by apply traces_send) ltac:(intros; apply finishing_respond) (mk_conn (net c) (sent c) (progress c ++ [Started verb])))
    as (mid & tail & Hp & Hmid & Ht & Hok).
  exists mid, tail. rewrite Hrun. unfold io_bind at 1 3. cbn [emit]. rewrite Hp. simpl. rewrite <- app_assoc. done.
Qed.
End dispatch.

(** * What is not sent *)

Definition set_header_params (h : gmap string string) (r : CommandRequest) : CommandRequest :=
  mk_request (req_service r) (req_operation_id r) (req_namespace r) (path_params r) (query_params r) h (form_params r) (req_body r)
    (req_output_format r) (req_pagination r) (req_verbosity r) (req_output r).

(** The header parameters of a request are collected and never used: a run does the same
    whatever they are. *)
Lemma header_params_not_sent `{JsonText, UnicodeCase, PercentEncoding, WordChars, Transport} get_or_load context h r c :
  run_command get_or_load context (set_header_params h r) c = run_command get_or_load context r c.
Proof. done. Qed.

(** * An example *)

Section example.
#[local] Existing Instances bits_json_text ascii_case example_encoding example_words.

(** A server that answers every request; uploads fail to open. *)
Definition answering (answer : result RawResponse string) : Transport := {|
  Net := unit;
  exchange _ n := (answer, n);
  open_file _ _ := Err "no such file";
  file_length _ _ := None;
  stdout_tty _ := false;
  write_stdout _ n := (Ok tt, n);
  write_file _ _ n := (Ok tt, n)
|}.

Definition ban_user : OperationSchema :=
  mk_operation "BanUser" "ban-user" EmptyString None Mutating Post "/users/{userId}/{reason}" [] None None [] "admin" 1 false None.

Definition example_schema : ServiceSchema :=
  mk_service "iam" EmptyString [mk_resource "users" EmptyString [mk_method "ban-user" EmptyString None [mk_scope "admin" 1 [ban_user]]]].

Definition example_context : ExecutionContext :=
  mk_execution_context "default" GlobalConfig None None "https://ags.example/" UrlConfiguration "t0k" TokenStored None [].

Definition example_request (user reason : string) : CommandRequest :=
  mk_request "iam" "BanUser" None {["userId" := user; "reason" := reason]} {["dryRun" := "no"]} ∅ ∅ (Some (BodyJson Null)) Human PageAuto Normal None.

Definition load (_ : string) : result ServiceSchema RuntimeError := Ok example_schema.

#[local] Instance up : Transport := answering (Ok (mk_raw_response 204 None None (Ok []))).

Example ban_sent :
  let c := mk_conn tt [] [] in
  let '(r, c) := run_command load example_context (example_request "a b" "spam") c in
  is_ok r = true /\
  sent c = [mk_http_request Post "https://ags.example/users/a%20b/spam" [("Authorization", "Bearer t0k")] [("dryRun", "no")] (Some (BodyJson Null))] /\
  progress c = [Started "Creating..."; Finished].
Proof. vm_compute. done. Qed.

(** The confirmation card of a value that looks like a placeholder shows another URL than
    the one the request goes to. *)
Example preview_substitutes_twice :
  result_ok (preview_command load example_context (example_request "ann" "{userId}")) =
    Some (mk_command_preview "iam" "BanUser" "This will issue a POST request" Post "https://ags.example/users/ann/ann" Mutating true []) /\
  option_map dry_url (result_ok (dry_run_command load example_context (example_request "ann" "{userId}"))) =
    Some "https://ags.example/users/ann/%7BuserId%7D".
Proof. vm_compute. done. Qed.
End example.

(** A request that does not get through leaves the progress unfinished. *)
Section example_down.
#[local] Existing Instances bits_json_text ascii_case example_encoding example_words.
#[local] Instance down : Transport := answering (Err "timed out").

Lemma network_failure_unfinished :
  progress (run_command load example_context (example_request "a" "b") (mk_conn tt [] [])).2 = [Started "Creating..."].
Proof. vm_compute. done. Qed.
End example_down.
