(* ===== verification/ParserProps.v ===== *)
(** The parsed catalogue: it does not depend on the order of the hash maps, it holds exactly the
    live operations of the document, and it is well-formed. *)

From Stdlib Require Import ZArith Lia Ascii Sorting.Sorted.
From stdpp Require Import base gmap strings list sorting.
From S2P Require Import Prelude Text Kebab Nouns Json JsonNormal Catalogue Workflow AutoDerive ErrorCodes Descriptions Swagger Parser Dispatch.

(** * Sorting what a map holds *)

Lemma walk_elem `{HashOrder} {K} `{Countable K} {A} (m : gmap K A) k x : (k, x) ∈ walk m <-> m !! k = Some x.
Proof. by rewrite walk_perm, elem_of_map_to_list. Qed.

Lemma walk_keys `{HashOrder} {K} `{Countable K} {A} (m : gmap K A) : NoDup (walk m).*1.
Proof. rewrite walk_perm. apply NoDup_fst_map_to_list. Qed.

Lemma leb_flip a b : String.leb a b = false -> String.leb b a = true.
Proof. intros H. by destruct (String.leb_total a b) as [E|E]; [rewrite E in H|]. Qed.

Lemma leb_trans a b c : String.leb a b = true -> String.leb b c = true -> String.leb a c = true.
Proof.
  unfold String.leb. intros Hab Hbc.
  destruct (String.compare a b) eqn:E1; try done; [by apply string_compare_eq in E1 as ->|].
  destruct (String.compare b c) eqn:E2; try done; [apply string_compare_eq in E2 as <-; by rewrite E1|].
  by rewrite (string_compare_trans _ _ _ E1 E2).
Qed.

Lemma leb_antisym a b : String.leb a b = true -> String.leb b a = true -> a = b.
Proof. apply String.leb_antisym. Qed.

(** An order by a name. *)
Record named_order {B N} (le : B -> B -> bool) (name : B -> N) : Prop := {
  order_flip a b : le a b = false -> le b a = true;
  order_trans a b c : le a b = true -> le b c = true -> le a c = true;
  order_antisym a b : le a b = true -> le b a = true -> name a = name b
}.

Lemma by_name {B} (name : B -> string) : named_order (fun a b => String.leb (name a) (name b)) name.
Proof. split; intros *; [apply leb_flip|apply leb_trans|apply leb_antisym]. Qed.

Lemma field_order : named_order field_le field_name.
Proof.
  split; unfold field_le.
  - intros a b. destruct (field_required a), (field_required b); try done; apply leb_flip.
  - intros a b c. destruct (field_required a), (field_required b), (field_required c); try done; apply leb_trans.
  - intros a b. destruct (field_required a), (field_required b); try done; apply leb_antisym.
Qed.

Lemma version_order : named_order version_le api_version.
Proof. split; unfold version_le; intros *; rewrite ?Z.leb_gt, ?Z.leb_le; lia. Qed.

(** An element is determined by its name. *)
Lemma named_once {B N} (name : B -> N) l a b : NoDup (map name l) -> a ∈ l -> b ∈ l -> name a = name b -> a = b.
Proof.
  intros Hn [i Hi]%list_elem_of_lookup [j Hj]%list_elem_of_lookup Hab. assert (i = j) as <-; [|congruence].
  apply (NoDup_lookup (map name l) i j (name a)); [done| |]; rewrite list_lookup_fmap; [by rewrite Hi|by rewrite Hj, Hab].
Qed.

(** Lists with the same elements, all of different names, are sorted to the same list. *)
Lemma sort_unique {B N} (le : B -> B -> bool) (name : B -> N) (l1 l2 : list B) : named_order le name ->
  NoDup (map name l1) -> NoDup (map name l2) -> (forall b, b ∈ l1 <-> b ∈ l2) -> sort_by le l1 = sort_by le l2.
Proof.
  intros [Hf Ht Ha] H1 H2 Hin. pose proof (NoDup_fmap_1 _ _ H1) as Hn1. pose proof (NoDup_fmap_1 _ _ H2) as Hn2.
  assert (Hp : l1 ≡ₚ l2) by (by apply NoDup_Permutation).
  apply (StronglySorted_unique_strong (fun a b => le a b = true)).
  - intros a b. rewrite !sort_by_perm, <- Hp. intros Hina Hinb Hab Hba. by apply (named_once name l1); [..|apply Ha].
  - by apply sort_by_sorted.
  - by apply sort_by_sorted.
  - by rewrite !sort_by_perm.
Qed.

Lemma walk_names `{HashOrder} {K} `{Countable K} {A B} (name : B -> K) (f : K * A -> B) (m : gmap K A) :
  (forall k x, m !! k = Some x -> name (f (k, x)) = k) -> NoDup (map name (map f (walk m))).
Proof.
  intros Hn. rewrite map_map. replace (map (fun x => name (f x)) (walk m)) with (walk m).*1; [apply walk_keys|].
  apply map_ext_in. intros [k x] Hin%list_elem_of_In%walk_elem. symmetry. by apply Hn.
Qed.

(** The same for what is made of the entries of two maps. *)
Lemma sort_walk (O1 O2 : HashOrder) {K} `{Countable K} {A1 A2 B} (le : B -> B -> bool) (name : B -> K)
    (f1 : K * A1 -> B) (f2 : K * A2 -> B) (m1 : gmap K A1) (m2 : gmap K A2) :
  named_order le name -> (forall k x, m1 !! k = Some x -> name (f1 (k, x)) = k) ->
  (forall k, (fun x => f1 (k, x)) <$> m1 !! k = (fun x => f2 (k, x)) <$> m2 !! k) ->
  sort_by le (map f1 (@walk O1 _ _ _ _ m1)) = sort_by le (map f2 (@walk O2 _ _ _ _ m2)).
Proof.
  intros Ho Hn Hf.
  assert (Hn2 : forall k x, m2 !! k = Some x -> name (f2 (k, x)) = k).
  { intros k x Hx. specialize (Hf k). rewrite Hx in Hf. destruct (m1 !! k) as [y|] eqn:Ey; [|done]. injection Hf as <-. by apply Hn. }
  apply (sort_unique _ name); [done|by apply walk_names..|]. intros b. rewrite !list_elem_of_fmap. split.
  - intros ([k x] & -> & Hx%walk_elem). specialize (Hf k). rewrite Hx in Hf. destruct (m2 !! k) as [y|] eqn:Ey; [|done].
    injection Hf as Hf. exists (k, y). by rewrite walk_elem.
  - intros ([k x] & -> & Hx%walk_elem). specialize (Hf k). rewrite Hx in Hf. destruct (m1 !! k) as [y|] eqn:Ey; [|done].
    injection Hf as Hf. exists (k, y). by rewrite walk_elem.
Qed.

(** * The bodies of requests *)

Section body.
Context `{UnicodeCase}.
Variable spec : SwaggerSpec.

Lemma expand_ext f1 f2 r visited : (forall d v, f1 d v = f2 d v) -> expand spec f1 r visited = expand spec f2 r visited.
Proof. intros Hf. unfold expand. destruct (existsb _ _); [done|]. destruct (spec_definitions spec !! _); simpl; [by rewrite Hf|done]. Qed.

Lemma nested_ext f1 f2 prop visited : (forall d v, f1 d v = f2 d v) -> resolve_nested spec f1 prop visited = resolve_nested spec f2 prop visited.
Proof.
  intros Hf. unfold resolve_nested. destruct (pr_ref_path prop) as [r|]; cbn [mbind option_bind].
  - rewrite (expand_ext f1 f2 r visited Hf). destruct (expand spec f2 r visited); [done|]. destruct (String.eqb _ _); [|done].
    destruct (pr_items prop) as [i|]; [|done]. cbn [mbind option_bind]. destruct (pr_ref_path i) as [r'|]; [|done].
    cbn [mbind option_bind]. by rewrite (expand_ext f1 f2 r' visited Hf).
  - destruct (String.eqb _ _); [|done]. destruct (pr_items prop) as [i|]; [|done]. cbn [mbind option_bind].
    destruct (pr_ref_path i) as [r'|]; [|done]. cbn [mbind option_bind]. by rewrite (expand_ext f1 f2 r' visited Hf).
Qed.

Lemma fields_order (O1 O2 : HashOrder) levels : forall def visited,
  @resolve_definition_fields_recursive O1 spec levels def visited = @resolve_definition_fields_recursive O2 spec levels def visited.
Proof.
  induction levels as [|levels IH]; intros def visited; cbn [resolve_definition_fields_recursive].
  - by apply (sort_walk _ _ _ field_name); [apply field_order|..].
  - apply (sort_walk _ _ _ field_name); [apply field_order|done|]. intros k. destruct (df_properties def !! k) as [x|]; [|done].
    simpl. do 2 f_equal. by apply nested_ext.
Qed.

Lemma body_order (O1 O2 : HashOrder) path m : @resolve_body_schema O1 _ spec path m = @resolve_body_schema O2 _ spec path m.
Proof.
  assert (Ho : forall n b, @resolve_object_body O1 spec n b = @resolve_object_body O2 spec n b).
  { intros n b. unfold resolve_object_body. destruct (spec_definitions spec !! n); [|done]. cbn [mbind option_bind].
    unfold resolve_definition_fields. by rewrite (fields_order O1 O2). }
  unfold resolve_body_schema. destruct (operation_at spec path m) as [op|]; [|done]. cbn [mbind option_bind].
  destruct (List.find is_body _) as [b|]; [|done]. cbn [mbind option_bind]. destruct (sp_schema b) as [s|]; [|done]. cbn [mbind option_bind].
  destruct (sr_ref_path s); [done|]. destruct (bool_decide _); [|done]. destruct (sr_items s) as [i|]; [|done]. cbn [mbind option_bind].
  by destruct (ir_ref_path i).
Qed.

Lemma parse_operation_order (O1 O2 : HashOrder) path name op : @parse_operation O1 _ spec path name op = @parse_operation O2 _ spec path name op.
Proof.
  unfold parse_operation. destruct (_ ≫= non_empty) as [id|]; [|done]. cbn [mbind option_bind]. repeat case_match; try done.
  destruct (parse_api_version _) as [v|]; [|done]. cbn [mbind option_bind]. destruct (parse_http_method _); [|done]. cbn [mbind option_bind].
  unfold operation_schema. by rewrite (body_order O1 O2).
Qed.
End body.

(** * The live operations *)

(** What tells the contract of an operation: its resource, method, scope and version. *)
Notation Contract := (string * string * string * Z)%type.

Definition contract_of (op : SwaggerOperation) : option Contract :=
  if so_is_deprecated op then None
  else
    id ← (s ← so_x_operation_id op; non_empty s);
    match split_char "/" id with
    | [_; scope; resource; version; method] =>
        if String.eqb resource "internal" then None else v ← parse_api_version version; Some (resource, method, scope, v)
    | _ => None
    end.

Definition po_contract (p : ParsedOperation) : Contract := (po_resource p, po_method_name p, po_scope p, po_api_version p).

(** The document has the operation at the path and the method. *)
Definition has_operation (spec : SwaggerSpec) (path name : string) (op : SwaggerOperation) : Prop :=
  name ∈ HTTP_METHOD_NAMES /\ exists item, spec_paths spec !! path = Some item /\ item !! name = Some op.

(** No two of its operations have the same contract. *)
Definition distinct_contracts (spec : SwaggerSpec) : Prop := forall path1 name1 op1 path2 name2 op2 k,
  has_operation spec path1 name1 op1 -> has_operation spec path2 name2 op2 -> contract_of op1 = Some k -> contract_of op2 = Some k ->
  path1 = path2 /\ name1 = name2.

Section live.
Context `{HashOrder, UnicodeCase}.
Variable spec : SwaggerSpec.

Lemma upper_name name : name ∈ HTTP_METHOD_NAMES -> exists m, parse_http_method (to_uppercase name) = Some m /\ to_lowercase (to_uppercase name) = name.
Proof.
  intros Hin. assert (Ha : contains_char (fun c => negb (is_ascii c)) name = false /\ contains_char (fun c => negb (is_ascii c)) (to_ascii_uppercase name) = false).
  { repeat (apply elem_of_cons in Hin as [->|Hin]; [done|]). by apply elem_of_nil in Hin. }
  destruct Ha as [Ha Hu]. rewrite to_uppercase_ascii, to_lowercase_ascii by done.
  repeat (apply elem_of_cons in Hin as [->|Hin]; [by eexists|]). by apply elem_of_nil in Hin.
Qed.

Definition parsed_from (path name : string) (op : SwaggerOperation) (p : ParsedOperation) : Prop :=
  has_operation spec path name op /\ so_is_deprecated op = false /\ parse_operation spec path name op = Some p.

Lemma spec_operations_elem p : p ∈ spec_operations spec <-> exists path name op, parsed_from path name op p.
Proof.
  unfold spec_operations. rewrite list_elem_of_In, in_concat. setoid_rewrite in_map_iff. split.
  - intros (l & ([path item] & <- & Hin%list_elem_of_In%walk_elem) & Hp%list_elem_of_In). apply list_elem_of_omap in Hp as (name & Hname & Hp).
    unfold live_operation in Hp. simpl in Hp. destruct (item !! name) as [op|] eqn:Eop; [|done]. cbn [mbind option_bind] in Hp.
    destruct (so_is_deprecated op) eqn:Ed; [done|]. exists path, name, op. split_and!; [split; [done|by exists item]|done..].
  - intros (path & name & op & (Hname & item & Hitem & Hop) & Hd & Hp).
    exists (omap (fun n => live_operation spec path n item) HTTP_METHOD_NAMES). split.
    + exists (path, item). split; [done|]. by apply list_elem_of_In, walk_elem.
    + apply list_elem_of_In, list_elem_of_omap. exists name. split; [done|]. unfold live_operation. rewrite Hop. simpl. by rewrite Hd.
Qed.

(** A parsed operation has the contract of the document, and the schema says so. *)
Lemma parsed_contract path name op p : parsed_from path name op p ->
  contract_of op = Some (po_contract p) /\ op_name (po_schema p) = po_method_name p /\ op_scope (po_schema p) = po_scope p /\
  api_version (po_schema p) = po_api_version p /\ so_x_operation_id op = Some (op_id (po_schema p)).
Proof.
  intros (_ & Hd & Hp). unfold contract_of, parse_operation in *. rewrite Hd. destruct (so_x_operation_id op) as [id|]; [|done].
  unfold non_empty in *. cbn [mbind option_bind] in *. destruct (is_empty id); [done|]. cbn [mbind option_bind] in *.
  destruct (split_char "/" id) as [|s0 [|scope [|resource [|version [|method [|]]]]]]; try done.
  destruct (String.eqb resource "internal"); [done|]. destruct (parse_api_version version) as [v|]; [|done]. cbn [mbind option_bind] in *.
  destruct (parse_http_method _) as [m|]; [|done]. cbn [mbind option_bind] in *. by apply (inj Some) in Hp as <-.
Qed.

Lemma contract_parsed path name op k : has_operation spec path name op -> contract_of op = Some k ->
  exists p, parsed_from path name op p /\ po_contract p = k.
Proof.
  intros Hop Hk. destruct (upper_name name (proj1 Hop)) as (m & Hm & _).
  unfold contract_of in Hk. destruct (so_is_deprecated op) eqn:Hd; [done|].
  assert (Hp : exists p, parse_operation spec path name op = Some p).
  { unfold parse_operation. destruct (so_x_operation_id op ≫= non_empty) as [id|]; [|done]. cbn [mbind option_bind] in *.
    destruct (split_char "/" id) as [|s0 [|scope [|resource [|version [|method [|]]]]]]; try done.
    destruct (String.eqb resource "internal"); [done|]. destruct (parse_api_version version) as [v|]; [|done]. cbn [mbind option_bind] in *.
    rewrite Hm. by eexists. }
  destruct Hp as [p Hp]. exists p. assert (Hf : parsed_from path name op p) by (by split_and!). split; [done|].
  destruct (parsed_contract _ _ _ _ Hf) as [Hc _]. unfold contract_of in Hc. rewrite Hd in Hc. congruence.
Qed.

(** The operation that is read again by path and method is the one at hand. *)
Lemma operation_at_name path name op : has_operation spec path name op -> operation_at spec path (to_uppercase name) = Some op.
Proof.
  intros (Hname & item & Hitem & Hop). unfold operation_at. rewrite Hitem. cbn [mbind option_bind].
  by destruct (upper_name name Hname) as (_ & _ & ->).
Qed.

Lemma operations_distinct p q : distinct_contracts spec -> p ∈ spec_operations spec -> q ∈ spec_operations spec ->
  po_contract p = po_contract q -> p = q.
Proof.
  intros Hd (path1 & name1 & op1 & H1)%spec_operations_elem (path2 & name2 & op2 & H2)%spec_operations_elem Hk.
  destruct (parsed_contract _ _ _ _ H1) as [Hk1 _]. destruct (parsed_contract _ _ _ _ H2) as [Hk2 _]. rewrite <- Hk in Hk2.
  destruct H1 as (Hop1 & _ & Hp1), H2 as (Hop2 & _ & Hp2).
  destruct (Hd _ _ _ _ _ _ _ Hop1 Hop2 Hk1 Hk2) as [<- <-].
  destruct Hop1 as (_ & i1 & Hi1 & Ho1), Hop2 as (_ & i2 & Hi2 & Ho2). congruence.
Qed.
End live.

(** * The accumulator *)

(** The contract it holds at a key. *)
Definition held (acc : Accumulator) (k : Contract) : option OperationSchema :=
  scopes ← acc !! k.1.1; versions ← scopes !! k.1.2; versions !! k.2.

(** No bucket is empty. *)
Definition no_empty_bucket (acc : Accumulator) : Prop :=
  forall k scopes, acc !! k = Some scopes -> scopes <> ∅ /\ forall s versions, scopes !! s = Some versions -> versions <> ∅.

Lemma insert_version_at v op (b : Versions) v' : insert_version v op b !! v' = if decide (v' = v) then Some (default op (b !! v)) else b !! v'.
Proof.
  unfold insert_version. destruct (b !! v) as [e|] eqn:E; case_decide as Hv; subst; simpl.
  - by rewrite lookup_insert_eq.
  - by rewrite !lookup_insert_ne.
  - by rewrite lookup_insert_eq.
  - by rewrite lookup_insert_ne.
Qed.

Lemma held_accumulate acc p k : held (accumulate acc p) k =
  if decide (k = po_contract p) then Some (default (po_schema p) (held acc k)) else held acc k.
Proof.
  destruct k as [[[r m] s] v]. unfold held, accumulate, po_contract. cbn [fst snd].
  destruct (decide ((r, m) = (po_resource p, po_method_name p))) as [[= -> ->]|Hne].
  - rewrite lookup_insert_eq. cbn [mbind option_bind]. destruct (decide (s = po_scope p)) as [->|Hs].
    + rewrite lookup_insert_eq. cbn [mbind option_bind]. rewrite insert_version_at. destruct (decide (v = po_api_version p)) as [->|Hv].
      * rewrite decide_True by done. f_equal. f_equal. destruct (acc !! _) as [ss|]; simpl; [|by rewrite lookup_empty].
        destruct (ss !! _) as [vs|]; simpl; [done|by rewrite lookup_empty].
      * rewrite decide_False by congruence. destruct (acc !! _) as [ss|]; simpl; [|by rewrite lookup_empty].
        destruct (ss !! _) as [vs|]; simpl; [done|by rewrite lookup_empty].
    + rewrite lookup_insert_ne by done. rewrite decide_False by congruence. by destruct (acc !! _).
  - rewrite lookup_insert_ne by done. by rewrite decide_False by congruence.
Qed.

(** The first operation of each contract. *)
Lemma held_all ops : forall acc k, held (foldl accumulate acc ops) k =
  match held acc k with Some e => Some e | None => po_schema <$> List.find (fun p => bool_decide (k = po_contract p)) ops end.
Proof.
  induction ops as [|p ops IH]; intros acc k; simpl; [by destruct (held acc k)|]. rewrite IH, held_accumulate.
  case_decide as Hk.
  - rewrite bool_decide_true by done. by destruct (held acc k).
  - by rewrite bool_decide_false by done.
Qed.

Lemma no_empty_accumulate acc p : no_empty_bucket acc -> no_empty_bucket (accumulate acc p).
Proof.
  intros Ha k scopes. unfold accumulate. rewrite lookup_insert. case_decide as Hk; [|by apply Ha]. subst k. intros [= <-].
  split; [apply insert_non_empty|]. intros s versions. rewrite lookup_insert. case_decide as Hs.
  - intros [= <-]. unfold insert_version. by destruct (_ !! _); apply insert_non_empty.
  - destruct (acc !! _) as [ss|] eqn:E; simpl; [by apply (Ha _ _ E)|by rewrite lookup_empty].
Qed.

Lemma no_empty_all ops acc : no_empty_bucket acc -> no_empty_bucket (foldl accumulate acc ops).
Proof. revert acc. induction ops as [|p ops IH]; [done|]. intros acc Ha. by apply IH, no_empty_accumulate. Qed.

Lemma bucket_key (acc : Accumulator) k scopes : no_empty_bucket acc -> acc !! k = Some scopes -> exists s v, is_Some (held acc (k, s, v)).
Proof.
  intros Ha Hk. destruct (Ha k scopes Hk) as [Hs Hv]. apply map_choose in Hs as (s & versions & Hs).
  specialize (Hv s versions Hs) as (v & op & Hv)%map_choose. exists s, v, op. unfold held. simpl. rewrite Hk. simpl. rewrite Hs. done.
Qed.

(** Accumulators that hold the same are equal. *)
Lemma held_ext a b : no_empty_bucket a -> no_empty_bucket b -> (forall k, held a k = held b k) -> a = b.
Proof.
  intros Ha Hb He. apply map_eq. intros k.
  assert (Hsome : is_Some (a !! k) <-> is_Some (b !! k)).
  { split; intros [scopes Hs].
    - destruct (bucket_key a k scopes Ha Hs) as (s & v & op & Hop). rewrite He in Hop. unfold held in Hop. simpl in Hop. by destruct (b !! k).
    - destruct (bucket_key b k scopes Hb Hs) as (s & v & op & Hop). rewrite <- He in Hop. unfold held in Hop. simpl in Hop. by destruct (a !! k). }
  destruct (a !! k) as [sa|] eqn:Ea, (b !! k) as [sb|] eqn:Eb; [|by destruct (proj1 Hsome ltac:(eauto))|by destruct (proj2 Hsome ltac:(eauto))|done].
  f_equal. apply map_eq. intros s.
  assert (Hv : forall v, (sa !! s ≫= fun m : Versions => m !! v) = (sb !! s ≫= fun m : Versions => m !! v)).
  { intros v. specialize (He (k, s, v)). unfold held in He. simpl in He. by rewrite Ea, Eb in He. }
  destruct (sa !! s) as [va|] eqn:Eva, (sb !! s) as [vb|] eqn:Evb; try done; simpl in Hv.
  - f_equal. apply map_eq. done.
  - destruct (Ha k sa Ea) as [_ Hne]. destruct (map_choose va (Hne _ _ Eva)) as (v & op & Hop). by rewrite Hv in Hop.
  - destruct (Hb k sb Eb) as [_ Hne]. destruct (map_choose vb (Hne _ _ Evb)) as (v & op & Hop). by rewrite <- Hv in Hop.
Qed.

(** * Grouping *)

(** What an accumulator holds under a key has the scope, version and name of the key. *)
Definition named_by_key (acc : Accumulator) : Prop := forall k op, held acc k = Some op ->
  op_name op = k.1.1.2 /\ op_scope op = k.1.2 /\ api_version op = k.2.

Definition versions_named (versions : Versions) : Prop := forall v op, versions !! v = Some op -> api_version op = v.

Lemma versions_of (acc : Accumulator) k scopes s versions : named_by_key acc -> acc !! k = Some scopes -> scopes !! s = Some versions -> versions_named versions.
Proof.
  intros Ha Hk Hs v op Hv. apply (Ha (k, s, v)). unfold held. simpl. rewrite Hk. simpl. by rewrite Hs.
Qed.

Lemma only_entry `{HashOrder} {K} `{Countable K} {A} (m : gmap K A) kx : walk m = [kx] <-> map_to_list m = [kx].
Proof.
  split; intros Hw.
  - apply Permutation_singleton_r. by rewrite <- Hw, walk_perm.
  - apply Permutation_singleton_r. by rewrite walk_perm, Hw.
Qed.

Lemma default_scope_order (O1 O2 : HashOrder) (scopes : Scopes) : @choose_default_scope O1 scopes = @choose_default_scope O2 scopes.
Proof.
  unfold choose_default_scope. case_bool_decide; [done|].
  pose proof (@only_entry O1 _ _ _ _ scopes) as H1. pose proof (@only_entry O2 _ _ _ _ scopes) as H2.
  assert (Hw : forall kx, @walk O1 _ _ _ _ scopes = [kx] <-> @walk O2 _ _ _ _ scopes = [kx]) by (intros kx; by rewrite H1, H2).
  clear H1 H2. revert Hw. generalize (@walk O1 _ _ _ _ scopes), (@walk O2 _ _ _ _ scopes). intros l1 l2 Hw.
  destruct l1 as [|[n1 x1] [|? ?]], l2 as [|[n2 x2] [|? ?]]; try done;
    try (discriminate (proj1 (Hw _) eq_refl)); try (discriminate (proj2 (Hw _) eq_refl)).
  by injection (proj1 (Hw _) eq_refl) as -> ->.
Qed.

Lemma scope_entry_order (O1 O2 : HashOrder) name (versions : Versions) : versions_named versions ->
  @scope_entry O1 name versions = @scope_entry O2 name versions.
Proof.
  intros Hv. unfold scope_entry. by rewrite (sort_walk O1 O2 version_le api_version snd snd versions versions version_order Hv).
Qed.

Lemma method_order (O1 O2 : HashOrder) name (scopes : Scopes) : (forall s versions, scopes !! s = Some versions -> versions_named versions) ->
  @method_schema O1 name scopes = @method_schema O2 name scopes.
Proof.
  intros Hv. unfold method_schema. rewrite (default_scope_order O1 O2).
  rewrite (sort_walk O1 O2 scope_le scope _ (fun sv => @scope_entry O2 sv.1 sv.2) scopes scopes); [done|apply by_name|done|].
  intros s. destruct (scopes !! s) as [versions|] eqn:Es; [|done]. simpl. f_equal. by apply scope_entry_order, (Hv s).
Qed.

Lemma filter_sublist {A} (p : A -> bool) l : List.filter p l `sublist_of` l.
Proof. induction l as [|x l IH]; simpl; [done|]. destruct (p x); by constructor. Qed.

Section group.
Context `{HashOrder, UnicodeCase}.

Lemma group_methods_fold (l : list (string * string * Scopes)) : forall (rm : gmap string (list MethodSchema)) r,
  foldl (fun resource_map kv => <[kv.1.1 := default [] (resource_map !! kv.1.1) ++ [method_schema kv.1.2 kv.2]]> resource_map) rm l !! r =
  match List.filter (fun kv => String.eqb kv.1.1 r) l with
  | [] => rm !! r
  | here => Some (default [] (rm !! r) ++ map (fun kv => method_schema kv.1.2 kv.2) here)
  end.
Proof.
  induction l as [|[[r0 m0] ss] l IH]; intros rm r; [done|]. cbn [foldl List.filter fst snd]. rewrite IH.
  destruct (String.eqb_spec r0 r) as [->|Hne].
  - rewrite lookup_insert_eq. destruct (List.filter _ l); simpl; [done|]. by rewrite <- (assoc_L (++)).
  - by rewrite lookup_insert_ne.
Qed.

(** The methods of a resource, in the order in which they are met. *)
Lemma group_methods_lookup acc r ms : group_methods acc !! r = Some ms <->
  ms = map (fun kv => method_schema kv.1.2 kv.2) (List.filter (fun kv => String.eqb kv.1.1 r) (walk acc)) /\ ms <> [].
Proof.
  unfold group_methods. rewrite group_methods_fold, lookup_empty. destruct (List.filter _ _) as [|kv here]; simpl; [naive_solver|].
  split; [by intros [= <-]|]. by intros [-> _].
Qed.

Lemma group_methods_elem acc r ms m : group_methods acc !! r = Some ms ->
  (m ∈ ms <-> exists name scopes, acc !! (r, name) = Some scopes /\ m = method_schema name scopes).
Proof.
  intros [-> _]%group_methods_lookup. rewrite list_elem_of_fmap. setoid_rewrite list_elem_of_In. setoid_rewrite filter_In. split.
  - intros ([[r0 name] scopes] & -> & Hin%list_elem_of_In%walk_elem & Hr%String.eqb_eq). simpl in Hr. subst r0. by exists name, scopes.
  - intros (name & scopes & Ha & ->). exists (r, name, scopes). split; [done|]. split; [by apply list_elem_of_In, walk_elem|apply String.eqb_refl].
Qed.

Lemma group_methods_some acc r : is_Some (group_methods acc !! r) <-> exists name, is_Some (acc !! (r, name)).
Proof.
  split.
  - intros [ms Hms]. pose proof Hms as [_ Hne]%group_methods_lookup. destruct ms as [|m ms]; [done|].
    destruct (proj1 (group_methods_elem acc r _ m Hms) ltac:(left)) as (name & scopes & Ha & _). by exists name, scopes.
  - intros (name & scopes & Ha). exists (map (fun kv => method_schema kv.1.2 kv.2) (List.filter (fun kv => String.eqb kv.1.1 r) (walk acc))).
    apply group_methods_lookup. split; [done|]. intros Hnil%map_eq_nil.
    assert (Hin : In (r, name, scopes) (List.filter (fun kv => String.eqb kv.1.1 r) (walk acc))).
    { apply filter_In. split; [by apply list_elem_of_In, walk_elem|apply String.eqb_refl]. }
    by rewrite Hnil in Hin.
Qed.

Lemma group_methods_names acc r ms : group_methods acc !! r = Some ms -> NoDup (map method_name ms).
Proof.
  intros [-> _]%group_methods_lookup. rewrite map_map. simpl.
  assert (Hn : NoDup (map (fun kv : string * string * Scopes => kv.1) (List.filter (fun kv => String.eqb kv.1.1 r) (walk acc)))).
  { eapply sublist_NoDup; [apply (walk_keys acc)|]. apply fmap_sublist, filter_sublist. }
  remember (List.filter (fun kv : string * string * Scopes => String.eqb kv.1.1 r) (walk acc)) as l eqn:El.
  assert (Hr : Forall (fun kv : string * string * Scopes => kv.1.1 = r) l).
  { subst l. apply Forall_forall. intros kv Hin%list_elem_of_In%filter_In. by apply String.eqb_eq, (proj2 Hin). }
  clear El. induction l as [|[[r0 n0] ss] l IH]; [constructor|]. simpl in *. apply NoDup_cons in Hn as [Hni Hn]. apply Forall_cons in Hr as [Hr0 Hr].
  simpl in Hr0. subst r0. constructor; [|by apply IH]. contradict Hni. apply list_elem_of_fmap in Hni as ([[r1 n1] ss1] & -> & Hin).
  rewrite Forall_forall in Hr. specialize (Hr _ Hin). simpl in Hr. subst r1. apply list_elem_of_fmap. by exists (r, n1, ss1).
Qed.
End group.

Lemma group_order (O1 O2 : HashOrder) `{UnicodeCase} (service : string) (acc : Accumulator) : named_by_key acc ->
  @group_resources O1 _ service acc = @group_resources O2 _ service acc.
Proof.
  intros Ha. unfold group_resources. apply (sort_walk _ _ _ resource_name); [apply by_name|done|]. intros r.
  assert (Hm : forall name scopes, acc !! (r, name) = Some scopes -> @method_schema O1 name scopes = @method_schema O2 name scopes).
  { intros name scopes Hk. apply method_order. intros s versions Hs. by eapply versions_of. }
  destruct (@group_methods O1 acc !! r) as [ms1|] eqn:E1, (@group_methods O2 acc !! r) as [ms2|] eqn:E2; [|exfalso..|done]; simpl.
  - f_equal. unfold resource_schema.
    rewrite (sort_unique method_le method_name ms1 ms2); [done|apply by_name|by eapply (@group_methods_names O1)|by eapply (@group_methods_names O2)|].
    intros m. rewrite (@group_methods_elem O1 acc r ms1 m E1), (@group_methods_elem O2 acc r ms2 m E2).
    split; intros (name & scopes & Hk & ->); exists name, scopes; (split; [done|]); [|symmetry]; by apply Hm.
  - assert (is_Some (@group_methods O2 acc !! r)) as [? ?]; [|congruence]. apply (@group_methods_some O2), (@group_methods_some O1). by eexists.
  - assert (is_Some (@group_methods O1 acc !! r)) as [? ?]; [|congruence]. apply (@group_methods_some O1), (@group_methods_some O2). by eexists.
Qed.

(** * The contracts of a document *)

Section contracts.
Context `{UnicodeCase}.
Variable spec : SwaggerSpec.

Definition gathered `{HashOrder} : Accumulator := foldl accumulate ∅ (spec_operations spec).

Lemma gathered_full `{HashOrder} : no_empty_bucket gathered.
Proof. by apply no_empty_all. Qed.

(** What it holds is a live operation of the contract. *)
Lemma gathered_from `{HashOrder} k op : held gathered k = Some op -> exists p, p ∈ spec_operations spec /\ po_contract p = k /\ po_schema p = op.
Proof.
  unfold gathered. rewrite held_all. unfold held at 1. rewrite lookup_empty. cbn [mbind option_bind].
  intros (p & Hf & ->)%fmap_Some. apply List.find_some in Hf as [Hin%list_elem_of_In ->%bool_decide_eq_true]. by exists p.
Qed.

(** Of the live operations of a contract it holds one. *)
Lemma gathered_one `{HashOrder} p : p ∈ spec_operations spec ->
  exists q, q ∈ spec_operations spec /\ po_contract q = po_contract p /\ held gathered (po_contract p) = Some (po_schema q).
Proof.
  intros Hin. unfold gathered. rewrite held_all. unfold held at 1. rewrite lookup_empty. cbn [mbind option_bind].
  destruct (List.find _ _) as [q|] eqn:Eq.
  - apply List.find_some in Eq as [Hq%list_elem_of_In Hk%bool_decide_eq_true]. by exists q.
  - apply list_elem_of_In in Hin. eapply List.find_none in Eq; [|exact Hin]. by rewrite bool_decide_true in Eq.
Qed.

(** With distinct contracts it holds every live operation, and nothing else. *)
Lemma gathered_held `{HashOrder} k op : distinct_contracts spec ->
  (held gathered k = Some op <-> exists p, p ∈ spec_operations spec /\ po_contract p = k /\ po_schema p = op).
Proof.
  intros Hd. split; [apply gathered_from|]. intros (p & Hin & <- & <-). destruct (gathered_one p Hin) as (q & Hq & Hk & ->).
  do 2 f_equal. by eapply operations_distinct.
Qed.

Lemma gathered_named `{HashOrder} : named_by_key gathered.
Proof.
  intros k op (p & Hin & <- & <-)%gathered_from.
  apply spec_operations_elem in Hin as (path & name & sop & Hp). by destruct (parsed_contract _ _ _ _ _ Hp) as (_ & -> & -> & -> & _).
Qed.

Lemma gathered_order (O1 O2 : HashOrder) : distinct_contracts spec -> @gathered O1 = @gathered O2.
Proof.
  intros Hd. apply held_ext; [apply gathered_full..|]. intros k. apply option_eq. intros op. rewrite !gathered_held by done.
  setoid_rewrite spec_operations_elem. unfold parsed_from. by setoid_rewrite (parse_operation_order spec O1 O2).
Qed.
End contracts.

Lemma parse_order (O1 O2 : HashOrder) `{UnicodeCase} (service : string) spec : distinct_contracts spec -> @parse_spec O1 _ service spec = @parse_spec O2 _ service spec.
Proof.
  intros Hd. unfold parse_spec. f_equal. fold (@gathered _ spec O1) (@gathered _ spec O2).
  rewrite (gathered_order spec O1 O2 Hd). apply group_order, gathered_named.
Qed.

(** [C15] The schema of a service does not depend on the order in which the hash maps of the
    document are walked, as long as no two of its live operations have the same resource,
    method, scope and version. (Of two that have, the one that is met first is kept.) *)
Theorem parsed_in_any_order (O1 O2 : HashOrder) `{UnicodeCase} (service : string) spec : distinct_contracts spec ->
  @parse_spec O1 _ service spec = @parse_spec O2 _ service spec.
Proof. apply parse_order. Qed.

(** * What the schema holds *)

(** The list is in order and names are not repeated. *)
Definition ordered {B N} (le : B -> B -> bool) (name : B -> N) (l : list B) : Prop :=
  StronglySorted (fun a b => le a b = true) l /\ NoDup (map name l).

Lemma sort_ordered {B N} (le : B -> B -> bool) (name : B -> N) l : named_order le name -> NoDup (map name l) -> ordered le name (sort_by le l).
Proof.
  intros [Hf Ht _] Hn. split; [by apply sort_by_sorted|]. assert (Hp : map name (sort_by le l) ≡ₚ map name l) by (by rewrite sort_by_perm).
  by rewrite Hp.
Qed.

Section held.
Context `{HashOrder, UnicodeCase}.

Lemma scope_contracts name (versions : Versions) c : c ∈ contracts (scope_entry name versions) <-> exists v, versions !! v = Some c.
Proof.
  simpl. rewrite sort_by_perm, list_elem_of_fmap. split.
  - intros ([v op] & -> & Hv%walk_elem). by exists v.
  - intros [v Hv]. exists (v, c). by rewrite walk_elem.
Qed.

Lemma method_scopes name (ss : Scopes) e : e ∈ scopes (method_schema name ss) <-> exists s versions, ss !! s = Some versions /\ e = scope_entry s versions.
Proof.
  simpl. rewrite sort_by_perm, list_elem_of_fmap. split.
  - intros ([s versions] & -> & Hs%walk_elem). by exists s, versions.
  - intros (s & versions & Hs & ->). exists (s, versions). by rewrite walk_elem.
Qed.

Lemma service_resources (service : string) (acc : Accumulator) r : r ∈ group_resources service acc <->
  exists name ms, group_methods acc !! name = Some ms /\ r = resource_schema service name ms.
Proof.
  unfold group_resources. rewrite sort_by_perm, list_elem_of_fmap. split.
  - intros ([name ms] & -> & Hm%walk_elem). by exists name, ms.
  - intros (name & ms & Hm & ->). exists (name, ms). by rewrite walk_elem.
Qed.

Lemma resource_methods service name ms m : m ∈ methods (resource_schema service name ms) <-> m ∈ ms.
Proof. simpl. by rewrite sort_by_perm. Qed.

Lemma walk_length {K} `{Countable K} {A} (m : gmap K A) : length (walk m) = size m.
Proof. by rewrite walk_perm, length_map_to_list. Qed.

(** The rows are the contracts that the accumulator holds. *)
Lemma row_held service spec r c alt : (r, c, alt) ∈ contract_rows (parse_spec service spec) <->
  exists name s v ss versions, gathered spec !! (r, name) = Some ss /\ ss !! s = Some versions /\ versions !! v = Some c /\
    alt = Nat.ltb 1 (size versions).
Proof.
  unfold contract_rows. simpl. fold (gathered spec). repeat setoid_rewrite list_elem_of_bind. setoid_rewrite list_elem_of_singleton. split.
  - intros (res & (m & (e & (c' & [= -> -> ->] & Hc) & He) & Hm) & (rn & ms & Hg & ->)%service_resources).
    apply resource_methods, (group_methods_elem _ _ _ _ Hg) in Hm as (name & ss & Hss & ->).
    apply method_scopes in He as (s & versions & Hs & ->). apply scope_contracts in Hc as [v Hv].
    exists name, s, v, ss, versions. split_and!; [done..|]. unfold entry_alternates. simpl.
    by rewrite sort_by_perm, length_map, walk_length.
  - intros (name & s & v & ss & versions & Hss & Hs & Hv & ->).
    destruct (group_methods_some (gathered spec) r) as [_ Hsome]. destruct Hsome as [ms Hms]; [by exists name, ss|].
    exists (resource_schema service r ms). split; [|apply service_resources; by exists r, ms].
    exists (method_schema name ss). split; [|apply resource_methods, (group_methods_elem _ _ _ _ Hms); by exists name, ss].
    exists (scope_entry s versions). split; [|apply method_scopes; by exists s, versions].
    exists c. split; [|apply scope_contracts; by exists v]. unfold entry_alternates. simpl.
    by rewrite sort_by_perm, length_map, walk_length.
Qed.

Lemma find_unique {A} (f : A -> bool) l x : (forall y, y ∈ l -> f y = true -> y = x) -> x ∈ l -> f x = true -> List.find f l = Some x.
Proof.
  intros Hu Hin Hf. destruct (List.find f l) as [y|] eqn:E.
  - apply List.find_some in E as [Hy%list_elem_of_In Hfy]. f_equal. by apply Hu.
  - apply list_elem_of_In in Hin. by rewrite (List.find_none _ _ E _ Hin) in Hf.
Qed.

Lemma size_many {K} `{Countable K} {A} (m : gmap K A) k x : m !! k = Some x -> (Nat.ltb 1 (size m) = true <-> exists k', k' <> k /\ is_Some (m !! k')).
Proof.
  intros Hk. rewrite Nat.ltb_lt. rewrite <- (insert_delete_id m k x Hk), map_size_insert_None by apply lookup_delete_eq. split.
  - intros Hs. destruct (decide (delete k m = ∅)) as [He|Hne]; [rewrite He, map_size_empty in Hs; lia|].
    apply map_choose in Hne as (k' & y & Hy). apply lookup_delete_Some in Hy as [Hne Hy]. exists k'. split; [done|].
    rewrite insert_delete_id by done. by eexists.
  - intros (k' & Hne & [y Hy]). rewrite insert_delete_id in Hy by done.
    assert (Hd : delete k m !! k' = Some y) by (by rewrite lookup_delete_ne).
    pose proof (map_size_ne_0_lookup_2 (delete k m) k' ltac:(eauto)). lia.
Qed.

Lemma same_id_same_contract spec path1 name1 op1 p path2 name2 op2 q : parsed_from spec path1 name1 op1 p -> parsed_from spec path2 name2 op2 q ->
  op_id (po_schema p) = op_id (po_schema q) -> po_contract p = po_contract q.
Proof.
  intros H1 H2 Hid. destruct (parsed_contract _ _ _ _ _ H1) as (Hk1 & _ & _ & _ & Hi1). destruct (parsed_contract _ _ _ _ _ H2) as (Hk2 & _ & _ & _ & Hi2).
  destruct H1 as (_ & Hd1 & _), H2 as (_ & Hd2 & _). unfold contract_of in *. rewrite Hd1 in Hk1. rewrite Hd2 in Hk2.
  rewrite Hi1 in Hk1. rewrite Hi2, <- Hid in Hk2. congruence.
Qed.

(** The mark for other versions. *)
Lemma versions_many spec p (ss : Scopes) (versions : Versions) c : gathered spec !! (po_resource p, po_method_name p) = Some ss -> ss !! po_scope p = Some versions ->
  versions !! po_api_version p = Some c ->
  (Nat.ltb 1 (size versions) = true <-> exists q, q ∈ spec_operations spec /\ po_resource q = po_resource p /\ po_method_name q = po_method_name p /\
                                          po_scope q = po_scope p /\ po_api_version q <> po_api_version p).
Proof.
  intros Ess Ev Hc. rewrite (size_many _ _ _ Hc). split.
  - intros (v & Hne & [c' Hc']). destruct (gathered_from spec (po_resource p, po_method_name p, po_scope p, v) c') as (q & Hq & Hk & _).
    { unfold held. simpl. rewrite Ess. simpl. by rewrite Ev. }
    injection Hk as Hr Hm Hs Hv. exists q. by rewrite Hr, Hm, Hs, Hv.
  - intros (q & Hq & Hr & Hm & Hs & Hne). exists (po_api_version q). split; [done|]. destruct (gathered_one spec q Hq) as (q' & _ & _ & Hh).
    exists (po_schema q'). unfold held, po_contract in Hh. cbn [fst snd] in Hh. rewrite Hr, Hm, Hs, Ess in Hh. cbn [mbind option_bind] in Hh. by rewrite Ev in Hh.
Qed.

(** A live operation is in the rows, or another of its contract is. *)
Lemma live_row service spec p : p ∈ spec_operations spec -> exists q alt, q ∈ spec_operations spec /\ po_contract q = po_contract p /\
  (po_resource p, po_schema q, alt) ∈ contract_rows (parse_spec service spec).
Proof.
  intros Hin. destruct (gathered_one spec p Hin) as (q & Hq & Hk & Hh). unfold held, po_contract in Hh. cbn [fst snd] in Hh.
  destruct (gathered spec !! _) as [ss|] eqn:Ess; [|done]. cbn [mbind option_bind] in Hh.
  destruct (ss !! _) as [versions|] eqn:Ev; [|done]. cbn [mbind option_bind] in Hh. exists q, (Nat.ltb 1 (size versions)). split_and!; [done..|].
  apply row_held. by eexists _, _, _, ss, versions.
Qed.

(** A row is a live operation under its own contract. *)
Lemma row_live service spec r c alt : (r, c, alt) ∈ contract_rows (parse_spec service spec) -> exists path name op p,
  parsed_from spec path name op p /\ r = po_resource p /\ c = po_schema p /\ held (gathered spec) (po_contract p) = Some c /\
  (alt = true <-> exists q, q ∈ spec_operations spec /\ po_resource q = po_resource p /\ po_method_name q = po_method_name p /\
                            po_scope q = po_scope p /\ po_api_version q <> po_api_version p).
Proof.
  intros (name & s & v & ss & versions & Hss & Hs & Hv & ->)%row_held.
  assert (Hh : held (gathered spec) (r, name, s, v) = Some c) by (unfold held; simpl; rewrite Hss; simpl; by rewrite Hs).
  destruct (gathered_from _ _ _ Hh) as (p & Hp & Hk & Hc). rewrite <- Hk in Hh. injection Hk as Hr Hm Hsc Hver. subst r name s v.
  apply spec_operations_elem in Hp as (path & n & op & Hp). exists path, n, op, p. split_and!; [done..|]. by eapply versions_many.
Qed.

(** Two rows of the same id hold the same operation. *)
Lemma same_id_same_row service spec r c alt r' c' alt' : (r, c, alt) ∈ contract_rows (parse_spec service spec) ->
  (r', c', alt') ∈ contract_rows (parse_spec service spec) -> op_id c = op_id c' -> c = c'.
Proof.
  intros (path & name & op & p & Hp & _ & -> & Hh & _)%row_live (path' & name' & op' & p' & Hp' & _ & -> & Hh' & _)%row_live Hid.
  rewrite (same_id_same_contract _ _ _ _ _ _ _ _ _ Hp Hp' Hid) in Hh. congruence.
Qed.

(** [C14] What is found in the parsed schema by an id is a live operation of the document with
    this [x-operationId] — not deprecated, not internal, with an id of five segments and a
    numeric version —, marked exactly when the same method and scope has it in another version.
    Nothing is found only for an id without a live operation, or for operations each of which
    another live operation has displaced: one with another id and the same resource, method,
    scope and version, which is found by that id. *)
Theorem operations_found service spec id :
  match lookup_operation (parse_spec service spec) id with
  | Some (resource, found, alternates) => exists path name op p,
      parsed_from spec path name op p /\ so_x_operation_id op = Some id /\ resource = po_resource p /\ found = po_schema p /\
      (alternates = true <-> exists q, q ∈ spec_operations spec /\ po_resource q = po_resource p /\ po_method_name q = po_method_name p /\
                                       po_scope q = po_scope p /\ po_api_version q <> po_api_version p)
  | None => forall path name op k, has_operation spec path name op -> so_x_operation_id op = Some id -> contract_of op = Some k ->
      exists path' name' op' id', has_operation spec path' name' op' /\ contract_of op' = Some k /\ so_x_operation_id op' = Some id' /\ id' <> id /\
        is_Some (lookup_operation (parse_spec service spec) id')
  end.
Proof.
  destruct (lookup_operation _ id) as [[[r c] alt]|] eqn:El.
  - apply List.find_some in El as [Hin%list_elem_of_In Hid%String.eqb_eq]. simpl in Hid.
    apply row_live in Hin as (path & name & op & p & Hp & -> & -> & _ & Halt). exists path, name, op, p.
    destruct (parsed_contract _ _ _ _ _ Hp) as (_ & _ & _ & _ & Hi). by rewrite Hi, Hid.
  - intros path name op k Hop Hi Hk. destruct (contract_parsed spec path name op k Hop Hk) as (p & Hp & <-).
    destruct (live_row service spec p) as (q & alt & Hq & Hkq & Hrow); [apply spec_operations_elem; by exists path, name, op|].
    apply list_elem_of_In in Hrow. pose proof (List.find_none _ _ El _ Hrow) as Hne%String.eqb_neq. simpl in Hne.
    apply spec_operations_elem in Hq as (path' & name' & op' & Hq). destruct (parsed_contract _ _ _ _ _ Hq) as (Hk' & _ & _ & _ & Hi').
    exists path', name', op', (op_id (po_schema q)). split_and!; [apply Hq|by rewrite <- Hkq|done..|].
    unfold lookup_operation. destruct (List.find _ _) as [row|] eqn:Er; [by eexists|]. pose proof (List.find_none _ _ Er _ Hrow) as Hf.
    simpl in Hf. by rewrite String.eqb_refl in Hf.
Qed.
End held.

(** * Well-formed schemas *)

Record wf_scope (s : ScopeEntry) : Prop := {
  wf_contracts : ordered version_le api_version (contracts s);
  wf_in_scope c : c ∈ contracts s -> op_scope c = scope s;
  wf_newest : exists c, c ∈ contracts s /\ api_version c = default_version s;
  wf_older c : c ∈ contracts s -> api_version c <= default_version s
}.

Record wf_method (m : MethodSchema) : Prop := {
  wf_scopes : ordered scope_le scope (scopes m);
  wf_each_scope e : e ∈ scopes m -> wf_scope e;
  wf_in_method e c : e ∈ scopes m -> c ∈ contracts e -> op_name c = method_name m;
  wf_default :
    match default_scope m with
    | Some d => exists e, e ∈ scopes m /\ scope e = d /\ (d = "admin" \/ scopes m = [e])
    | None => (forall e, e ∈ scopes m -> scope e <> "admin") /\ (2 <= length (scopes m))%nat
    end
}.

Record wf_resource (r : ResourceSchema) : Prop := {
  wf_methods : ordered method_le method_name (methods r);
  wf_some_method : methods r <> [];
  wf_each_method m : m ∈ methods r -> wf_method m
}.

Record wf_service (s : ServiceSchema) : Prop := {
  wf_resources : ordered resource_le resource_name (resources s);
  wf_each_resource r : r ∈ resources s -> wf_resource r
}.

Lemma max_fold l : forall m, let n := foldl (fun m c => Z.max m (api_version c)) m l in
  (n = m \/ exists c, c ∈ l /\ api_version c = n) /\ m <= n /\ forall c, c ∈ l -> api_version c <= n.
Proof.
  induction l as [|c l IH]; intros m; simpl; [split_and!; [by left|lia|by intros c ?%elem_of_nil]|].
  destruct (IH (Z.max m (api_version c))) as (Hn & Hm & Hl). split_and!; [|lia|].
  - destruct Hn as [->|(d & Hd & <-)]; [|right; exists d; split; [by right|done]].
    destruct (Z.max_spec m (api_version c)) as [[_ ->]|[_ ->]]; [right; exists c; split; [by left|done]|by left].
  - intros d [->|Hd]%elem_of_cons; [lia|by apply Hl].
Qed.

Lemma max_version_spec l : l <> [] -> (exists c, c ∈ l /\ api_version c = max_version l) /\ forall c, c ∈ l -> api_version c <= max_version l.
Proof.
  destruct l as [|c l]; [done|]. intros _. simpl. destruct (max_fold l (api_version c)) as (Hn & Hm & Hl). split.
  - destruct Hn as [->|(d & Hd & <-)]; [exists c; split; [by left|done]|exists d; split; [by right|done]].
  - intros d [->|Hd]%elem_of_cons; [done|by apply Hl].
Qed.

Section wf.
Context `{HashOrder, UnicodeCase}.

Lemma scope_wf name (versions : Versions) : versions <> ∅ ->
  (forall v c, versions !! v = Some c -> api_version c = v /\ op_scope c = name) -> wf_scope (scope_entry name versions).
Proof.
  intros Hne Hv. destruct (map_choose versions Hne) as (v0 & c0 & Hc0).
  assert (Hc : contracts (scope_entry name versions) <> []).
  { assert (Hin : c0 ∈ contracts (scope_entry name versions)) by (apply scope_contracts; by exists v0). by destruct (contracts _); [apply elem_of_nil in Hin|]. }
  destruct (max_version_spec _ Hc) as [Hmax Hle]. split; [|intros c [v Hvc]%scope_contracts; by apply (Hv v)|exact Hmax|exact Hle].
  apply sort_ordered; [apply version_order|]. apply (walk_names api_version snd). intros v c Hvc. by apply Hv.
Qed.

Lemma default_scope_wf name (ss : Scopes) : ss <> ∅ ->
  match choose_default_scope ss with
  | Some d => exists e, e ∈ scopes (method_schema name ss) /\ scope e = d /\ (d = "admin" \/ scopes (method_schema name ss) = [e])
  | None => (forall e, e ∈ scopes (method_schema name ss) -> scope e <> "admin") /\ (2 <= length (scopes (method_schema name ss)))%nat
  end.
Proof.
  intros Hne. unfold choose_default_scope. case_bool_decide as Ha.
  - destruct Ha as [versions Hs]. exists (scope_entry "admin" versions). split_and!; [|done|by left]. apply method_scopes. by exists "admin", versions.
  - destruct (walk ss) as [|[n versions] [|x l]] eqn:Ew.
    + exfalso. apply Hne, map_size_empty_inv. by rewrite <- walk_length, Ew.
    + exists (scope_entry n versions). simpl. rewrite Ew. simpl. split_and!; [by left|done|by right].
    + split.
      * intros e (s & vs & Hs & ->)%method_scopes. simpl. intros ->. by apply Ha.
      * simpl. rewrite sort_by_perm, length_map, Ew. simpl. lia.
Qed.

Lemma method_wf (acc : Accumulator) r name ss : no_empty_bucket acc -> named_by_key acc -> acc !! (r, name) = Some ss -> wf_method (method_schema name ss).
Proof.
  intros Hf Hn Hss. destruct (Hf _ _ Hss) as [Hne Hvs].
  assert (Hheld : forall s versions v c, ss !! s = Some versions -> versions !! v = Some c -> op_name c = name /\ op_scope c = s /\ api_version c = v).
  { intros s versions v c Hs Hv. apply (Hn (r, name, s, v)). unfold held. simpl. rewrite Hss. simpl. by rewrite Hs. }
  split.
  - apply sort_ordered; [apply by_name|]. by apply (walk_names scope).
  - intros e (s & versions & Hs & ->)%method_scopes. apply scope_wf; [by apply (Hvs s)|]. intros v c Hv. by destruct (Hheld s versions v c Hs Hv) as (_ & ? & ?).
  - intros e c (s & versions & Hs & ->)%method_scopes [v Hv]%scope_contracts. by destruct (Hheld s versions v c Hs Hv) as (? & _).
  - by apply default_scope_wf.
Qed.

Lemma service_wf service spec : wf_service (parse_spec service spec).
Proof.
  assert (Hf : no_empty_bucket (gathered spec)) by apply gathered_full. assert (Hn : named_by_key (gathered spec)) by apply gathered_named.
  split; [apply sort_ordered; [apply by_name|by apply (walk_names resource_name)]|].
  intros r (name & ms & Hms & ->)%service_resources. split.
  - apply sort_ordered; [apply by_name|]. by eapply group_methods_names.
  - pose proof Hms as [_ Hne]%group_methods_lookup. intros Hnil. apply Hne, Permutation_nil_r. change (sort_by method_le ms = []) in Hnil.
    by rewrite <- Hnil, sort_by_perm.
  - intros m Hm%resource_methods. apply (group_methods_elem _ _ _ _ Hms) in Hm as (n & ss & Hss & ->). by eapply method_wf.
Qed.

Lemma default_operation_newest m d : wf_method m -> default_scope m = Some d -> exists op,
  default_operation m = Some op /\ op_scope op = d /\
  forall e c, e ∈ scopes m -> c ∈ contracts e -> op_scope c = d -> api_version c <= api_version op.
Proof.
  intros [[_ Hnd] Hwf _ Hd] Hs. rewrite Hs in Hd. destruct Hd as (e & He & <- & _).
  assert (Hfind : List.find (fun s => bool_decide (scope s = scope e)) (scopes m) = Some e).
  { apply find_unique; [|done|by apply bool_decide_true]. intros e' He' Hsc%bool_decide_eq_true. by apply (named_once scope (scopes m)). }
  destruct (Hwf e He) as [_ Hin (c & Hc & Hv) Hold].
  destruct (List.find (fun c => api_version c =? default_version e) (contracts e)) as [op|] eqn:Ef.
  - exists op. pose proof Ef as [Hop%list_elem_of_In Hver%Z.eqb_eq]%List.find_some. unfold default_operation. rewrite Hs. cbn [mbind option_bind].
    rewrite Hfind. cbn [mbind option_bind]. split_and!; [done|by apply Hin|]. intros e' c' He' Hc' Hsc. rewrite Hver.
    assert (e' = e) as ->; [|by apply Hold]. destruct (Hwf e' He') as [_ Hin' _ _]. rewrite (Hin' c' Hc') in Hsc.
    by apply (named_once scope (scopes m)).
  - exfalso. apply list_elem_of_In in Hc. pose proof (List.find_none _ _ Ef _ Hc) as Hn. simpl in Hn. by apply Z.eqb_neq in Hn.
Qed.
End wf.

(** [C16] Every parsed schema is well-formed: resources, methods and scopes are in order of their
    names and contracts in order of their versions, nothing occurs twice, no resource is empty, every contract is
    under its own scope and method, and the default version of a scope is the newest it has.
    A method has a default scope unless it has several without [admin], and then its default
    operation is there: the newest contract of that scope. *)
Theorem parsed_schema_well_formed `{HashOrder, UnicodeCase} service spec :
  wf_service (parse_spec service spec) /\
  forall r m, r ∈ resources (parse_spec service spec) -> m ∈ methods r ->
    match default_scope m with
    | Some d => exists op, default_operation m = Some op /\ op_scope op = d /\
        forall e c, e ∈ scopes m -> c ∈ contracts e -> op_scope c = d -> api_version c <= api_version op
    | None => default_operation m = None /\ (2 <= length (scopes m))%nat
    end.
Proof.
  split; [apply service_wf|]. intros r m Hr Hm. assert (Hwf : wf_method m).
  { apply (wf_each_method r); [|done]. apply (wf_each_resource _ (service_wf service spec) r Hr). }
  destruct (default_scope m) as [d|] eqn:Ed; [by apply default_operation_newest|].
  split; [unfold default_operation; by rewrite Ed|]. pose proof (wf_default m Hwf) as Hd. rewrite Ed in Hd. apply Hd.
Qed.

(** * The fields of a body *)

(** The definition that a reference names, and the one a property refers to: by itself, or by the
    items of an array. *)
Definition named_by (spec : SwaggerSpec) (reference : option string) : option (string * SwaggerDefinition) :=
  r ← reference; d ← spec_definitions spec !! ref_short_name r; Some (ref_short_name r, d).

Definition referred (spec : SwaggerSpec) (prop : SwaggerProperty) : option (string * SwaggerDefinition) :=
  match named_by spec (pr_ref_path prop) with
  | Some nd => Some nd
  | None => if String.eqb (pr_property_type prop) "array" then items ← pr_items prop; named_by spec (pr_ref_path items) else None
  end.

(** The fields of a definition, in order, and below each field those of the definition its own
    property refers to, for at most [n] levels and down to a name that is met again on the way. *)
Fixpoint fields_of_definition (spec : SwaggerSpec) (n : nat) (above : list string) (def : SwaggerDefinition) (fs : list BodyField) : Prop :=
  ordered field_le field_name fs /\
  (forall name, is_Some (df_properties def !! name) <-> name ∈ map field_name fs) /\
  forall f, f ∈ fs -> exists prop, df_properties def !! field_name f = Some prop /\
    field_required f = existsb (String.eqb (field_name f)) (df_required def) /\
    field_type f = match pr_enum_values prop with Some values => FEnum values | None => compute_field_type prop end /\
    field_default f = pr_default prop /\
    match n, referred spec prop with
    | S n, Some (name, d) => if bool_decide (name ∈ above) then children f = [] else fields_of_definition spec n (name :: above) d (children f)
    | _, _ => children f = []
    end.

Section fields.
Context `{HashOrder}.
Variable spec : SwaggerSpec.

Lemma expand_some f r visited fs : expand spec f r visited = Some fs ->
  fs = [] \/ exists d visited', spec_definitions spec !! ref_short_name r = Some d /\ fs = f d visited'.
Proof.
  unfold expand. destruct (existsb _ _); [intros [= <-]; by left|]. destruct (spec_definitions spec !! _) as [d|]; [|done].
  intros [= <-]. right. by eexists _, _.
Qed.

Lemma nested_some f prop visited : resolve_nested spec f prop visited = [] \/
  exists name d visited', spec_definitions spec !! name = Some d /\ resolve_nested spec f prop visited = f d visited'.
Proof.
  assert (He : forall r fs, expand spec f r visited = Some fs -> fs = [] \/
    exists name d visited', spec_definitions spec !! name = Some d /\ fs = f d visited').
  { intros r fs [->|(d & v & Hd & ->)]%expand_some; [by left|right; by eexists _, _, _]. }
  unfold resolve_nested. destruct (pr_ref_path prop ≫= _) as [fs|] eqn:E1.
  - destruct (pr_ref_path prop) as [r|]; [|done]. by apply (He r).
  - destruct (String.eqb _ _); [|by left]. destruct (pr_items prop) as [i|]; [|by left]. cbn [mbind option_bind].
    destruct (pr_ref_path i) as [r|]; [|by left]. cbn [mbind option_bind].
    destruct (expand spec f r visited) as [fs|] eqn:E2; [|by left]. by apply (He r).
Qed.

Lemma referred_defined prop name d : referred spec prop = Some (name, d) -> spec_definitions spec !! name = Some d.
Proof.
  assert (Hn : forall r, named_by spec r = Some (name, d) -> spec_definitions spec !! name = Some d).
  { intros [r|]; [|done]. unfold named_by. cbn [mbind option_bind]. destruct (spec_definitions spec !! ref_short_name r) as [d'|] eqn:Ed; [|done].
    cbn [mbind option_bind]. intros [= <- <-]. exact Ed. }
  unfold referred. destruct (named_by spec (pr_ref_path prop)) as [nd|] eqn:E1; [intros [= ->]; by eapply Hn|].
  destruct (String.eqb _ _); [|done]. destruct (pr_items prop) as [i|]; [|done]. cbn [mbind option_bind]. apply Hn.
Qed.

Lemma named_expand f r above : Forall (fun name => is_Some (spec_definitions spec !! name)) above -> expand spec f r above =
  match named_by spec (Some r) with Some (name, d) => Some (if bool_decide (name ∈ above) then [] else f d (name :: above)) | None => None end.
Proof.
  intros Ha. unfold expand, named_by. cbn [mbind option_bind]. destruct (existsb _ above) eqn:Ee.
  - apply existsb_exists in Ee as (name & Hin%list_elem_of_In & ->%String.eqb_eq). rewrite Forall_forall in Ha. destruct (Ha name Hin) as [d ->].
    cbn [mbind option_bind]. by rewrite bool_decide_true.
  - destruct (spec_definitions spec !! ref_short_name r) as [d|]; [|done]. cbn [mbind option_bind option_map]. rewrite bool_decide_false; [done|].
    intros Hin%list_elem_of_In. assert (Ht : existsb (String.eqb (ref_short_name r)) above = true) by (apply existsb_exists; eexists; split; [exact Hin|apply String.eqb_refl]).
    congruence.
Qed.

Lemma nested_referred f prop above : Forall (fun name => is_Some (spec_definitions spec !! name)) above -> resolve_nested spec f prop above =
  match referred spec prop with Some (name, d) => if bool_decide (name ∈ above) then [] else f d (name :: above) | None => [] end.
Proof.
  intros Ha. unfold resolve_nested, referred.
  assert (Hitems : default [] (items ← pr_items prop; ref_path ← pr_ref_path items; expand spec f ref_path above) =
    match (items ← pr_items prop; named_by spec (pr_ref_path items)) with Some (name, d) => if bool_decide (name ∈ above) then [] else f d (name :: above) | None => [] end).
  { destruct (pr_items prop) as [i|]; [|done]. cbn [mbind option_bind]. destruct (pr_ref_path i) as [r|]; [|done]. cbn [mbind option_bind].
    rewrite named_expand by done. by destruct (named_by spec (Some r)) as [[name d]|]. }
  destruct (pr_ref_path prop) as [r|]; cbn [mbind option_bind].
  - rewrite named_expand by done. destruct (named_by spec (Some r)) as [[name d]|]; [done|]. destruct (String.eqb _ _); [exact Hitems|done].
  - cbn [named_by mbind option_bind]. destruct (String.eqb _ _); [exact Hitems|done].
Qed.

Lemma fields_resolved levels : forall def above, Forall (fun name => is_Some (spec_definitions spec !! name)) above ->
  fields_of_definition spec levels above def (resolve_definition_fields_recursive spec levels def above).
Proof.
  assert (Hsort : forall (def : SwaggerDefinition) (below : SwaggerProperty -> list BodyField),
    let fs := sort_by field_le (map (fun np => body_field (df_required def) np.1 np.2 (below np.2)) (walk (df_properties def))) in
    ordered field_le field_name fs /\ (forall name, is_Some (df_properties def !! name) <-> name ∈ map field_name fs) /\
    forall f, f ∈ fs -> exists prop, df_properties def !! field_name f = Some prop /\ f = body_field (df_required def) (field_name f) prop (below prop)).
  { intros def below fs. assert (Hf : forall f, f ∈ fs <-> exists name prop, df_properties def !! name = Some prop /\ f = body_field (df_required def) name prop (below prop)).
    { intros f. unfold fs. rewrite sort_by_perm, list_elem_of_fmap. split.
      - intros ([name prop] & -> & Hp%walk_elem). by exists name, prop.
      - intros (name & prop & Hp & ->). exists (name, prop). by rewrite walk_elem. }
    split_and!; [apply sort_ordered; [apply field_order|by apply (walk_names field_name)]| |].
    - intros name. rewrite list_elem_of_fmap. split.
      + intros [prop Hp]. exists (body_field (df_required def) name prop (below prop)). split; [done|]. apply Hf. by exists name, prop.
      + intros (f & -> & (n & prop & Hp & ->)%Hf). by exists prop.
    - intros f (name & prop & Hp & ->)%Hf. by exists prop. }
  induction levels as [|levels IH]; intros def above Ha; cbn [resolve_definition_fields_recursive fields_of_definition].
  - destruct (Hsort def (fun _ => [])) as (Ho0 & Hn0 & Hf0). split_and!; [done..|]. intros f Hin. destruct (Hf0 f Hin) as (prop & Hp & ->). by exists prop.
  - destruct (Hsort def (fun prop => resolve_nested spec (resolve_definition_fields_recursive spec levels) prop above)) as (Ho0 & Hn0 & Hf0).
    split_and!; [done..|]. intros f Hin. destruct (Hf0 f Hin) as (prop & Hp & ->). exists prop. split_and!; [done..|]. simpl.
    rewrite nested_referred by done. destruct (referred spec prop) as [[name d]|] eqn:Er; [|done]. case_bool_decide; [done|]. apply IH.
    constructor; [|done]. apply referred_defined in Er. by exists d.
Qed.

(** [C17] The fields of a body are the properties of its definition, required ones first and
    each in order of the names; below a field are the fields of the definition that its property
    refers to, by itself or by its items, for at most three levels and down to a definition that
    is met again below itself: resolving ends on documents whose definitions refer to
    themselves. *)
Theorem body_fields_resolved def : fields_of_definition spec 3 [] def (resolve_definition_fields spec def).
Proof. by apply fields_resolved. Qed.
End fields.

(** * Examples *)

(** The contracts of a document, by path and method. *)
Definition contracts_by_path (spec : SwaggerSpec) : list (string * string * option Contract) :=
  concat (map (fun pi => omap (fun name => op ← pi.2 !! name; Some (pi.1, name, contract_of op)) HTTP_METHOD_NAMES) (map_to_list (spec_paths spec))).

Lemma contract_listed spec path name op k : has_operation spec path name op -> contract_of op = Some k -> (path, name, Some k) ∈ contracts_by_path spec.
Proof.
  intros (Hname & item & Hi & Ho) Hk. apply list_elem_of_In, in_concat. eexists. split.
  - apply in_map. apply list_elem_of_In, elem_of_map_to_list, Hi.
  - apply list_elem_of_In, list_elem_of_omap. exists name. split; [done|]. simpl. by rewrite Ho; simpl; rewrite Hk.
Qed.

Section example.
#[local] Instance order_example : HashOrder := {| walk K _ _ A m := map_to_list m; walk_perm K _ _ A m := reflexivity _ |}.
#[local] Instance case_example : UnicodeCase := ascii_case.

Definition scalar_property (ty : string) : SwaggerProperty := mk_property ty "" None None None None.
Definition ref_property (name : string) : SwaggerProperty := mk_property "" "" (Some ("#/definitions/" +:+ name)) None None None.
Definition body_parameter (name : string) : SwaggerParameter :=
  mk_swagger_parameter "body" "body" true "" "" "" None (Some (mk_schema_ref (Some ("#/definitions/" +:+ name)) None None)) None.
Definition sample_operation (id : string) (ps : list SwaggerParameter) : SwaggerOperation :=
  mk_swagger_operation false "" "" ps Null (Some id) [].

(** A document with two versions of an operation, one deprecated, and a definition that
    refers to itself. *)
Definition sample_spec : SwaggerSpec := mk_spec "2.0" (mk_info "" "")
  {[ "/v1/users" := {[ "get" := sample_operation "iam/admin/users/v1/list" [];
                       "post" := sample_operation "iam/admin/users/v1/create" [body_parameter "Node"] ]};
     "/v3/users" := {[ "get" := sample_operation "iam/admin/users/v3/list" [];
                       "delete" := mk_swagger_operation true "" "" [] Null (Some "iam/admin/users/v3/delete") [] ]} ]}
  {[ "Node" := mk_definition {[ "value" := scalar_property "string"; "next" := ref_property "Node" ]} ["value"] ]}.

Lemma sample_contracts_eq : contracts_by_path sample_spec =
  [("/v3/users", "get", Some ("users", "list", "admin", 3)); ("/v3/users", "delete", None);
   ("/v1/users", "get", Some ("users", "list", "admin", 1)); ("/v1/users", "post", Some ("users", "create", "admin", 1))].
Proof. by vm_compute. Qed.

Lemma sample_distinct : distinct_contracts sample_spec.
Proof.
  intros path1 name1 op1 path2 name2 op2 k H1 H2 Hk1 Hk2.
  pose proof (contract_listed _ _ _ _ _ H1 Hk1) as L1. pose proof (contract_listed _ _ _ _ _ H2 Hk2) as L2. rewrite sample_contracts_eq in L1, L2.
  clear -L1 L2. repeat (apply elem_of_cons in L1 as [L1|L1]); try (by apply elem_of_nil in L1); try discriminate L1; injection L1 as -> -> ->;
    repeat (apply elem_of_cons in L2 as [L2|L2]); try (by apply elem_of_nil in L2); try discriminate L2; by injection L2 as -> ->.
Qed.

Lemma parsed_in_any_order_witness :
  let reversed := {| walk K _ _ A m := reverse (map_to_list m); walk_perm K _ _ A m := reverse_Permutation _ |} in
  distinct_contracts sample_spec /\ @parse_spec reversed _ "iam" sample_spec = @parse_spec order_example _ "iam" sample_spec.
Proof. split; [exact sample_distinct|]. exact (parsed_in_any_order _ order_example "iam" sample_spec sample_distinct). Defined.

Lemma operations_found_witness : exists op,
  lookup_operation (parse_spec "iam" sample_spec) "iam/admin/users/v3/list" = Some ("users", op, true) /\
  exists path name sop p, parsed_from sample_spec path name sop p /\ so_x_operation_id sop = Some "iam/admin/users/v3/list" /\
    "users" = po_resource p /\ op = po_schema p /\
    (true = true <-> exists q, q ∈ spec_operations sample_spec /\ po_resource q = po_resource p /\ po_method_name q = po_method_name p /\
                               po_scope q = po_scope p /\ po_api_version q <> po_api_version p).
Proof.
  destruct (lookup_operation (parse_spec "iam" sample_spec) "iam/admin/users/v3/list") as [[[r op] alt]|] eqn:El; [|by vm_compute in El].
  pose proof (operations_found "iam" sample_spec "iam/admin/users/v3/list") as Hf. rewrite El in Hf.
  assert (r = "users" /\ alt = true) as [-> ->].
  { assert (Hra : option_map (fun row => (row.1.1, row.2)) (lookup_operation (parse_spec "iam" sample_spec) "iam/admin/users/v3/list") = Some ("users", true))
      by by vm_compute. rewrite El in Hra. simpl in Hra. injection Hra as -> ->. split; reflexivity. }
  exists op. split; [reflexivity|exact Hf].
Defined.

(** Two operations of the same contract: one is kept, and what is found by its id says which. *)
Definition doubled_spec : SwaggerSpec := mk_spec "2.0" (mk_info "" "")
  {[ "/v1/users" := {[ "get" := sample_operation "iam/admin/users/v1/list" [] ]}; "/v01/users" := {[ "get" := sample_operation "iam/admin/users/v01/list" [] ]} ]} ∅.

Example one_is_kept : map (fun id => bool_decide (is_Some (lookup_operation (parse_spec "iam" doubled_spec) id))) ["iam/admin/users/v1/list"; "iam/admin/users/v01/list"] = [true; false].
Proof. by vm_compute. Qed.

(** The body of [create]: two levels of [Node], the second cut. *)
Example sample_body : option_map (fun op => (map (fun f => (field_name f, field_required f, length (children f))) (from_option body_fields [] (request_body op))))
    (option_map (fun row => row.1.2) (lookup_operation (parse_spec "iam" sample_spec) "iam/admin/users/v1/create")) =
  Some [("value", true, 0%nat); ("next", false, 2%nat)].
Proof. by vm_compute. Qed.

(** The actions of a permission are those of its last bracket. *)
Example last_bracket : extract_bracketed_actions "ADMIN[READ]:NAMESPACE[CREATE, UPDATE]" = ["CREATE"; "UPDATE"].
Proof. by vm_compute. Qed.
End example.
