(* ===== verification/Options.v ===== *)
(** Picker options ([workflows/options.rs]): one read operation is run, all its pages, and
    its body is projected to the choices of a picker. *)

From stdpp Require Import base gmap strings list.
From Stdlib Require Import ZArith Lia Ascii Strings.Byte Sorting.Sorted.
From S2P Require Import Prelude Text Kebab Json JsonNormal Catalogue Paths Results Workflow AutoDerive Bindings Request Url Http Pagination ErrorCodes Classify Shape Dispatch DispatchProps.

#[local] Arguments String.append !_ _ /.

Definition OPTION_ITEM_CAP : nat := 500.

Record OptionChoice : Type := mk_choice { choice_label : string; choice_value : string }.
Record ResolvedOptions : Type := mk_resolved { choices : list OptionChoice; truncated : bool }.

Section projection.
Context `{JsonText}.

Definition scalar_to_string (v : value) : option string :=
  match v with
  | Str s => Some s
  | Number n => Some (number_text n)
  | Bool b => Some (if b then "true" else "false")
  | _ => None
  end.

(** * Projection *)

(** The detail path: fixed, or chosen by the current value of an input. *)
Definition detail_path (source : OptionsSource) (inputs : gmap string value) : option string :=
  match opt_label_detail source with
  | Some (LabelPath p) => Some p
  | Some (LabelByInput input paths) =>
      v ← inputs !! input;
      key ← as_str v;
      row ← List.find (fun row => String.eqb row.1 key) paths;
      Some row.2
  | None => None
  end.

(** A non-blank scalar at a path. *)
Definition text_under (path : option string) (elem : value) : option string :=
  p ← path;
  node ← apply_jsonpath_subset elem p;
  s ← scalar_to_string node;
  if is_empty (trim s) then None else Some s.

Definition passes_filter (source : OptionsSource) (elem : value) : bool :=
  match opt_filter source with
  | Some (path, equals) => bool_decide (apply_jsonpath_subset elem path = Some equals)
  | None => true
  end.

Definition choice_of (source : OptionsSource) (detail : option string) (elem : value) : option OptionChoice :=
  if negb (passes_filter source elem) then None
  else
    node ← apply_jsonpath_subset elem (opt_value source);
    value ← scalar_to_string node;
    let label := default value (text_under (opt_label source) elem) in
    Some (mk_choice (match text_under detail elem with Some d => label +:+ " (" +:+ d +:+ ")" | None => label end) value).

Definition option_elements (source : OptionsSource) (body : value) : list value :=
  default [] (v ← apply_jsonpath_subset body (opt_items_path source); as_array v).

End projection.

Section options.
Context `{JsonText, UnicodeCase, PercentEncoding, WordChars, Transport}.

(** By lower-cased label, then by value. *)
Definition choice_le (a b : OptionChoice) : bool :=
  match String.compare (to_lowercase (choice_label a)) (to_lowercase (choice_label b)) with
  | Lt => true
  | Gt => false
  | Eq => match String.compare (choice_value a) (choice_value b) with Gt => false | _ => true end
  end.

Definition project_options (source : OptionsSource) (inputs : gmap string value) (body : value) : ResolvedOptions :=
  let sorted := sort_by choice_le (omap (choice_of source (detail_path source inputs)) (option_elements source body)) in
  mk_resolved (take OPTION_ITEM_CAP sorted) (Nat.ltb OPTION_ITEM_CAP (length sorted)).

(** * The request *)

Definition option_value (inputs : gmap string value) (b : OptionParameterBinding) : option value :=
  match b with
  | OFromInput name | OFromInputOptional name => inputs !! name
  | OLiteral v => Some v
  end.

Definition option_location (op : OperationSchema) (name : string) : ParameterLocation :=
  match List.find (fun p => String.eqb (param_name p) name) (parameters op) with Some p => param_location p | None => InQuery end.

(** The parameters that go to the locations of [here], in a map. *)
Definition option_params (op : OperationSchema) (source : OptionsSource) (inputs : gmap string value) (here : ParameterLocation -> bool)
  : gmap string string :=
  foldl (fun m nb =>
    match option_value inputs nb.2 with
    | Some v => if here (option_location op nb.1) then <[nb.1 := json_to_param_string v]> m else m
    | None => m
    end) ∅ (opt_parameters source).

Definition in_path (l : ParameterLocation) : bool := match l with InPath => true | _ => false end.
Definition in_header (l : ParameterLocation) : bool := match l with InHeader => true | _ => false end.

Definition build_options_request (op : OperationSchema) (source : OptionsSource) (inputs : gmap string value) : CommandRequest :=
  mk_request (service (opt_operation source)) (operation (opt_operation source)) (v ← inputs !! "namespace"; as_str v)
    (option_params op source inputs in_path)
    (option_params op source inputs (fun l => negb (in_path l) && negb (in_header l)))
    (option_params op source inputs in_header)
    ∅ None JsonFormat PageAll Quiet None.

(** * The fetch *)

Variable json_error : string -> string.
Variable get_or_load : string -> result ServiceSchema RuntimeError.
(** [resolve_access_token] of a profile: a token unless it fails, over connections of its own. *)
Variable resolve_token : string -> Net -> option string * Net.

Definition with_token (context : ExecutionContext) (token : string) : ExecutionContext :=
  mk_execution_context (profile context) (profile_source context) (namespace context) (namespace_source context) (base_url context)
    (base_url_source context) token (access_token_source context) (access_token_expiry context) (access_token_warnings context).

Definition refresh_access_token_best_effort (context : ExecutionContext) : Io ExecutionContext := fun c =>
  if is_empty (profile context) then (Ok context, c)
  else
    let '(token, n) := resolve_token (profile context) (net c) in
    (Ok (match token with Some t => with_token context t | None => context end), mk_conn n (sent c) (progress c)).

(** With the sink that drops its events. *)
Definition silently {A} (m : Io A) : Io A := fun c =>
  let '(r, c') := m c in (r, mk_conn (net c') (sent c') (progress c)).

Definition token_source_debug (s : AccessTokenSource) : string :=
  match s with
  | TokenNone => "None" | TokenEnvironment => "Environment" | TokenStored => "Stored" | TokenRefreshed => "Refreshed"
  | TokenClientCredentials => "ClientCredentials" | TokenDryRun => "DryRun"
  end.

Definition fetch_failed (context : ExecutionContext) (display_path : string) (e : RuntimeError) : RuntimeError :=
  internal ("profile=" +:+ profile context +:+ " token=" +:+ token_source_debug (access_token_source context) +:+ " GET " +:+
            trim_end_matches "/" (base_url context) +:+ display_path +:+ " :: " +:+ message e).

(** Change the error of a computation. *)
Definition io_map_err {A} (f : RuntimeError -> RuntimeError) (m : Io A) : Io A := fun c =>
  match m c with (Err (Failed e), c) => (Err (Failed (f e)), c) | other => other end.

Definition display_path (op : OperationSchema) (inputs : gmap string value) : string :=
  replace "{namespace}" (default "?" (v ← inputs !! "namespace"; as_str v)) (path_template op).

Definition resolve_options (context : ExecutionContext) (source : OptionsSource) (inputs : gmap string value) : Io ResolvedOptions :=
  let! context := refresh_access_token_best_effort context in
  let! schema := io_lift (get_or_load (service (opt_operation source))) in
  let! op := io_lift (find_operation_or_error schema (opt_operation source) "options_source") in
  let! body := io_map_err (fetch_failed context (display_path op inputs))
                 (silently (fetch_options_body json_error get_or_load context (build_options_request op source inputs) (opt_items_path source))) in
  io_ret (project_options source inputs body).
End options.

(** * The order of choices *)

Section order.
Context `{UnicodeCase}.

Lemma choice_le_total a b : choice_le a b = false -> choice_le b a = true.
Proof.
  unfold choice_le. rewrite (String.compare_antisym (to_lowercase (choice_label b)) (to_lowercase (choice_label a))),
    (String.compare_antisym (choice_value b) (choice_value a)).
  destruct (String.compare (to_lowercase (choice_label a)) _); try done. by destruct (String.compare _ _).
Qed.

Lemma choice_le_trans a b c : choice_le a b = true -> choice_le b c = true -> choice_le a c = true.
Proof.
  unfold choice_le.
  destruct (String.compare (to_lowercase (choice_label a)) (to_lowercase (choice_label b))) eqn:E1; [|intros _|done];
    (destruct (String.compare (to_lowercase (choice_label b)) (to_lowercase (choice_label c))) eqn:E2; [|intros Hx|done]).
  - apply string_compare_eq in E1 as ->. rewrite E2.
    destruct (String.compare (choice_value a) (choice_value b)) eqn:F1; [|intros _|done];
      (destruct (String.compare (choice_value b) (choice_value c)) eqn:F2; [|intros _|done]).
    + apply string_compare_eq in F1 as ->. by rewrite F2.
    + apply string_compare_eq in F1 as ->. by rewrite F2.
    + apply string_compare_eq in F2 as <-. by rewrite F1.
    + by rewrite (string_compare_trans _ _ _ F1 F2).
  - apply string_compare_eq in E1 as ->. by rewrite E2.
  - apply string_compare_eq in E2 as <-. by rewrite E1.
  - by rewrite (string_compare_trans _ _ _ E1 E2).
Qed.
End order.

(** The choices of a picker: the projections of the elements that pass the filter,
    each once per element, in the order of their lower-cased labels and then of their
    values; at most 500, and when there are more the first ones in this order, and the
    result says so. *)
Theorem options_projected `{JsonText, UnicodeCase} source inputs body :
  let all := omap (choice_of source (detail_path source inputs)) (option_elements source body) in
  let r := project_options source inputs body in
  exists rest, choices r ++ rest ≡ₚ all /\ StronglySorted (fun a b => choice_le a b = true) (choices r ++ rest) /\
    (length (choices r) <= OPTION_ITEM_CAP)%nat /\ (truncated r = true <-> (OPTION_ITEM_CAP < length all)%nat) /\
    (truncated r = false -> rest = []).
Proof.
  intros all r. set (sorted := sort_by choice_le all). exists (drop OPTION_ITEM_CAP sorted).
  assert (Hr : choices r = take OPTION_ITEM_CAP sorted) by done. rewrite Hr, take_drop.
  assert (Hl : length sorted = length all) by (unfold sorted; by rewrite sort_by_perm).
  assert (Ht : truncated r = Nat.ltb OPTION_ITEM_CAP (length all)) by (rewrite <- Hl; done).
  split_and!.
  - apply sort_by_perm.
  - apply sort_by_sorted; [apply choice_le_total|apply choice_le_trans].
  - rewrite length_take. lia.
  - rewrite Ht. apply Nat.ltb_lt.
  - rewrite Ht. intros Hle%Nat.ltb_ge. apply drop_ge. lia.
Qed.

(** * Only reads *)

Lemma map_bind {A B C} (f : B -> C) (g : A -> list B) (l : list A) : map f (l ≫= g) = l ≫= (fun x => map f (g x)).
Proof. induction l as [|x l IH]; [done|]. cbn [mbind list_bind]. rewrite map_app. f_equal. exact IH. Qed.

Lemma bind_concat {A B} (g : A -> list B) (l : list A) : l ≫= g = concat (map g l).
Proof. induction l as [|x l IH]; [done|]. cbn [mbind list_bind map concat]. f_equal. exact IH. Qed.

Lemma find_map {A B} (f : A -> B) p l : option_map f (List.find (fun x => p (f x)) l) = List.find p (map f l).
Proof. induction l as [|x l IH]; [done|]. simpl. by destruct (p (f x)). Qed.

(** The catalogue walks of the compiler and of the facade find the same operation. *)
Lemma lookup_find schema id : option_map (fun row => row.1.2) (lookup_operation schema id) = find_operation schema id.
Proof.
  unfold lookup_operation, find_operation. rewrite (find_map (fun row => row.1.2) (fun op => String.eqb (op_id op) id)). f_equal.
  unfold contract_rows. rewrite map_bind, bind_concat. f_equal. apply map_ext. intros r. unfold operations.
  assert (Hc : forall s, map (fun row => row.1.2) (contracts s ≫= (fun c => [(resource_name r, c, entry_alternates s)])) = contracts s).
  { intros s. induction (contracts s) as [|c cs IH]; [done|]. cbn [mbind list_bind]. rewrite map_app. simpl. f_equal. exact IH. }
  assert (Hs : forall ss, map (fun row => row.1.2) (ss ≫= (fun s => contracts s ≫= (fun c => [(resource_name r, c, entry_alternates s)]))) =
                          concat (map contracts ss)).
  { intros ss. rewrite map_bind, bind_concat. f_equal. by apply map_ext. }
  induction (methods r) as [|m ms IH]; [done|]. cbn [mbind list_bind map concat]. rewrite !map_app, concat_app. f_equal; [apply Hs|exact IH].
Qed.

Definition reads (r : HttpRequest) : Prop := method r = Get /\ http_body r = None.

Section reading.
Context `{JsonText, UnicodeCase, PercentEncoding, WordChars, Transport}.

Lemma traces_paginate_at_path E fuel l key cursor items last pages : (forall e, midway e -> E e) ->
  traces reads E (paginate_at_path fuel l key cursor items last pages).
Proof.
  intros HE. revert cursor items last pages. induction fuel as [|fuel IH]; intros cursor items last pages; cbn [paginate_at_path]; [apply traces_ret|].
  destruct (_ <=? _); [apply traces_bind; [by apply traces_emit, HE|intros _; apply traces_ret]|].
  apply traces_bind; [eapply traces_impl, traces_next_page; [|done]; intros r (? & ? & ? & ?); done|intros response].
  destruct (items_at key response); [apply traces_ret|]. destruct (extract_next_cursor response); [apply IH|apply traces_ret].
Qed.

Lemma traces_fetch_raw_body E json_error ctx op r path : http_method op = Get -> (forall e, midway e -> E e) ->
  traces reads E (fetch_raw_body json_error ctx op r path).
Proof.
  intros Hget HE c. unfold fetch_raw_body. rewrite lift_bind. unfold build_base_request.
  destruct (substitute_path_params _ _) as [p|e]; cbn [result_bind]; [|exists [], []; by rewrite !app_nil_r].
  revert c. apply (traces_bind (P := reads) (E := E)); [apply traces_send; by split|intros response].
  destruct (body response); [|apply traces_fail]. destruct (negb _).
  - destruct (classify_error_body _ _ _ _ _); auto with traces.
  - destruct (parse_json _); [|apply traces_fail]. unfold fetch_all_pages_at_path.
    destruct (single_key _); [|apply traces_ret]. destruct (extract_next_cursor _); [|apply traces_ret].
    destruct (detect_strategy op); [by apply traces_paginate_at_path|apply traces_ret].
Qed.

Lemma traces_silently {A} E (m : Io A) : traces reads (fun _ => True) m -> traces reads E (silently m).
Proof.
  intros Hm c. destruct (Hm c) as (rs & es & Hs & _ & HP & _). unfold silently. destruct (m c) as [r c']. exists rs, [].
  simpl in *. by rewrite app_nil_r.
Qed.

Lemma traces_map_err {A} P E f (m : Io A) : traces P E m -> traces P E (io_map_err f m).
Proof. intros Hm c. unfold io_map_err. specialize (Hm c). by destruct (m c) as [[x|[e|]] c']. Qed.

(** Filling a picker changes nothing: when the operation of the picker is a GET, which
    the compiler requires, every request sent is a GET without a body, whatever the
    catalogue, the server and the inputs, and the run's progress is not touched. *)
Theorem options_only_read json_error get_or_load resolve_token context source inputs c :
  (forall schema op, get_or_load (service (opt_operation source)) = Ok schema -> find_operation schema (operation (opt_operation source)) = Some op ->
     http_method op = Get) ->
  exists rs, sent (resolve_options json_error get_or_load resolve_token context source inputs c).2 = sent c ++ rs /\ Forall reads rs /\
    progress (resolve_options json_error get_or_load resolve_token context source inputs c).2 = progress c.
Proof.
  intros Hget.
  assert (Ht : traces reads (fun _ => False) (resolve_options json_error get_or_load resolve_token context source inputs)).
  { unfold resolve_options. apply traces_bind.
    { intros c'. exists [], []. rewrite !app_nil_r. unfold refresh_access_token_best_effort. destruct (is_empty _); [done|].
      by destruct (resolve_token _ _). }
    intros context'. apply traces_bind; [apply traces_lift|intros schema]. apply traces_bind; [apply traces_lift|intros op].
    apply traces_bind; [|intros; apply traces_ret]. apply traces_map_err, traces_silently.
    intros c'. unfold fetch_options_body. rewrite lift_bind. unfold runtime_find_operation. cbn [req_service req_operation_id build_options_request].
    destruct (get_or_load _) as [schema'|e] eqn:Eg; cbn [result_bind]; [|exists [], []; by rewrite !app_nil_r].
    pose proof (lookup_find schema' (operation (opt_operation source))) as Hfind.
    destruct (lookup_operation _ _) as [[[resource op'] alternate]|]; cbn [ok_or]; [|exists [], []; by rewrite !app_nil_r].
    apply (traces_fetch_raw_body (fun _ => True)); [by eapply Hget|done]. }
  destruct (Ht c) as (rs & es & Hs & Hp & HP & HE). exists rs. split_and!; try done.
  destruct es as [|e es]; [by rewrite Hp, app_nil_r|]. by inversion HE.
Qed.
End reading.

(** * An example *)

Section example.
#[local] Existing Instances bits_json_text ascii_case example_encoding example_words.

Definition options_body : value :=
  Object [("data", Array [Object [("id", Str "u2"); ("name", Str "bob"); ("on", Bool true)]; Object [("id", Str "u1"); ("name", Str "Ada"); ("on", Bool true)];
                          Object [("id", Str "u3"); ("name", Str "cyd"); ("on", Bool false)]; Object [("id", Number (NInt 7)); ("name", Str " "); ("on", Bool true)]])].

#[local] Instance users_up : Transport := answering (Ok (mk_raw_response 200 (Some "application/json") None (Ok (to_vec options_body)))).

Definition list_op : OperationSchema :=
  mk_operation "ListUsers" "list" EmptyString None ReadOnly Get "/ns/{namespace}/users" [mk_parameter "namespace" InPath true VString false None None]
    None None [] "admin" 1 false None.

Definition users_schema : ServiceSchema :=
  mk_service "iam" EmptyString [mk_resource "users" EmptyString [mk_method "list" EmptyString None [mk_scope "admin" 1 [list_op]]]].

Definition users_source : OptionsSource :=
  mk_options (mk_op_ref "iam" "ListUsers") [("namespace", OFromInput "namespace")] "$.data" "$.id" (Some "$.name") None None (Some ("$.on", Bool true)).

Definition load_users (_ : string) : result ServiceSchema RuntimeError := Ok users_schema.
Definition no_token (_ : string) (n : unit) : option string * unit := (None, n).
Definition start : @Conn users_up := @mk_conn users_up tt [] [].
Definition options_run : result ResolvedOptions Failure * Conn :=
  resolve_options (fun e => e) load_users no_token example_context users_source {["namespace" := Str "dev"]} start.

Example users_resolved :
  options_run.1 = Ok (mk_resolved [mk_choice "7" "7"; mk_choice "Ada" "u1"; mk_choice "bob" "u2"] false) /\
  map Http.url (sent options_run.2) = ["https://ags.example/ns/dev/users"].
Proof. vm_compute. done. Qed.

Lemma options_only_read_witness : exists rs, sent options_run.2 = [] ++ rs /\ Forall reads rs /\ progress options_run.2 = [].
Proof.
  apply (@options_only_read bits_json_text ascii_case example_encoding example_words users_up (fun e => e) load_users no_token example_context
           users_source {["namespace" := Str "dev"]} start).
  intros schema op [= <-]. vm_compute. by intros [= <-].
Defined.
End example.
