(* ===== verification/Tokens.v ===== *)
(** OAuth tokens ([auth/errors.rs], [auth/tokens.rs], the client ids of
    [config/keys.rs]): the errors of authentication, the requests to the token endpoint
    and the reading of its answers. *)

From stdpp Require Import base gmap strings list.
From Stdlib Require Import ZArith Lia Ascii Strings.Byte.
From S2P Require Import Prelude Text Kebab Nouns Json Catalogue Sanitise Results Workflow Request Http Pagination.

#[local] Arguments String.append !_ _ /.

(** * Errors *)

Inductive AuthResource : Type := ClientSecret | Token.
Inductive StorageOperation : Type := Read | Write | DeleteOp.

Definition keychain_operation_message (r : AuthResource) (op : StorageOperation) : string :=
  match r, op with
  | ClientSecret, Write => "Failed to store client secret in OS keychain"
  | ClientSecret, Read => "Failed to read client secret from OS keychain"
  | ClientSecret, DeleteOp => "Failed to delete client secret from OS keychain"
  | Token, Write => "Failed to store tokens in OS keychain"
  | Token, Read => "Failed to read tokens from OS keychain"
  | Token, DeleteOp => "Failed to delete tokens from OS keychain"
  end.

Definition file_operation_message (r : AuthResource) (op : StorageOperation) : string :=
  match r, op with
  | ClientSecret, Write => "Failed to write secret file"
  | ClientSecret, Read => "Failed to read secret file"
  | ClientSecret, DeleteOp => "Failed to delete secret file"
  | Token, Write => "Failed to write token file"
  | Token, Read => "Failed to read token file"
  | Token, DeleteOp => "Failed to delete token file"
  end.

Definition dir_message (r : AuthResource) : string :=
  match r with ClientSecret => "Cannot determine secret file directory" | Token => "Cannot determine token file directory" end.

Definition keychain_runtime_suggestion (op : StorageOperation) : string :=
  match op with
  | Read | Write => "Check OS keychain access or set AGS_NO_KEYCHAIN=1 to use file storage."
  | DeleteOp => "Check OS keychain access and retry 'ags auth logout'."
  end.

(** The errors of other libraries are their texts. *)
Inductive AuthError : Type :=
| BaseUrlMissing
| InvalidBaseUrl (url : string)
| ClientIdMissing
| ClientSecretMissing
| SessionExpiredRefreshFailed (reason : string)
| SessionExpiredRefreshTokenExpired
| SessionExpiredNoRefreshToken
| StoredSessionClientMismatch (profile stored_client_id current_client_id : string)
| RefreshRejected (reason : string)
| RefreshNoRefreshToken
| RefreshTokenExpired
| TokenRequestFailed (status : Z) (body : string)
| TokenRefreshFailed (status : Z) (body : string)
| TokenExchangeFailed (status : Z) (body : string)
| TokenParseFailed (error : string)
| CallbackAcceptFailed (error : string)
| CallbackReadFailed (error : string)
| CallbackEmpty
| CallbackMalformed
| CallbackMissingQuery
| CallbackMissingCode
| CallbackMissingState
| AuthorizationFailed (error description : string)
| CallbackServerError (error : string)
| OAuthStateMismatch
| PortInUse (port : Z)
| CallbackTimeout (timeout_secs : Z)
| KeychainOperationFailed (r : AuthResource) (op : StorageOperation) (source : string)
| KeychainTokenParseFailed (source : string)
| FileOperationFailed (r : AuthResource) (op : StorageOperation) (source : string)
| TokenSerializeFailed (source : string)
| TokenFileParseFailed (source : string)
| CannotDetermineDir (r : AuthResource).

(** The [Display] strings. *)
Definition auth_message (e : AuthError) : string :=
  match e with
  | BaseUrlMissing | ClientIdMissing | ClientSecretMissing => "Not authenticated"
  | InvalidBaseUrl url => "Invalid base URL: '" +:+ url +:+ "'"
  | SessionExpiredRefreshFailed _ => "Session expired and token refresh failed"
  | SessionExpiredRefreshTokenExpired => "Session expired — refresh token expired"
  | SessionExpiredNoRefreshToken => "Session expired — no refresh token"
  | StoredSessionClientMismatch profile _ _ => "Stored session for profile '" +:+ profile +:+ "' was created with a different client"
  | RefreshRejected _ => "Token refresh was rejected by the server"
  | RefreshNoRefreshToken => "No refresh token stored for this profile"
  | RefreshTokenExpired => "The stored refresh token has expired"
  | TokenRequestFailed _ _ => "Token request failed"
  | TokenRefreshFailed _ _ => "Token refresh failed"
  | TokenExchangeFailed _ _ => "Token exchange failed"
  | TokenParseFailed e => "Failed to parse token response: " +:+ e
  | CallbackAcceptFailed e => "Failed to accept callback connection: " +:+ e
  | CallbackReadFailed e => "Failed to read callback request: " +:+ e
  | CallbackEmpty => "Empty callback request"
  | CallbackMalformed => "Malformed callback request"
  | CallbackMissingQuery => "Callback URL missing query parameters"
  | CallbackMissingCode => "Callback URL missing 'code' parameter"
  | CallbackMissingState => "Callback URL missing 'state' parameter"
  | AuthorizationFailed e _ => "Authorization failed: " +:+ e
  | CallbackServerError e => "Callback server error: " +:+ e
  | OAuthStateMismatch => "State mismatch in OAuth callback"
  | PortInUse p => "Port " +:+ show_int p +:+ " is already in use"
  | CallbackTimeout _ => "Authentication error"
  | KeychainOperationFailed r op source => keychain_operation_message r op +:+ ": " +:+ source
  | KeychainTokenParseFailed _ => "Stored credentials in the OS keychain are corrupted"
  | FileOperationFailed r op source => file_operation_message r op +:+ ": " +:+ source
  | TokenSerializeFailed e => "Failed to serialize token data: " +:+ e
  | TokenFileParseFailed e => "Failed to parse token file: " +:+ e
  | CannotDetermineDir r => dir_message r
  end.

Definition build_auth_runtime_error (message : string) (reason suggestion detail tip : option string) : RuntimeError :=
  let has_details := bool_decide (is_Some reason) || bool_decide (is_Some detail) || bool_decide (is_Some tip) in
  mk_error NotAuthenticated message
    (if has_details then Some (mk_details None reason detail (option_map (fun _ => Fix_) suggestion) tip) else None) suggestion None.

Definition login_again : string := "Run 'ags auth login' to re-authenticate.".
Definition login_or_administrator : string := "Run `ags auth login` again, or contact your administrator if this persists.".

(** [From<AuthError> for RuntimeError]. *)
Definition auth_error (e : AuthError) : RuntimeError :=
  let build := build_auth_runtime_error (auth_message e) in
  match e with
  | BaseUrlMissing => build (Some "No base_url configured.") (Some "Run 'ags auth login' or set AGS_BASE_URL.") None None
  | InvalidBaseUrl _ => build (Some "Base URL must be an absolute http(s) URL.") (Some "Provide a URL like https://development.accelbyte.io.") None None
  | ClientIdMissing => build (Some "No client_id configured.") (Some "Run 'ags auth login' or set AGS_CLIENT_ID.") None None
  | ClientSecretMissing => build (Some "No client_secret configured.") (Some "Run 'ags auth login' or set AGS_CLIENT_SECRET.") None None
  | SessionExpiredRefreshFailed reason | RefreshRejected reason => build (Some reason) (Some login_again) None None
  | SessionExpiredRefreshTokenExpired | SessionExpiredNoRefreshToken | RefreshNoRefreshToken | RefreshTokenExpired =>
      build None (Some login_again) None None
  | StoredSessionClientMismatch _ stored current =>
      build (Some ("The cached token belongs to client '" +:+ stored +:+ "', but '" +:+ current +:+ "' is configured now."))
        (Some "Run 'ags auth login' for this client, or select the matching profile with --profile/AGS_PROFILE.") None None
  | TokenRequestFailed status body | TokenExchangeFailed status body => build (Some body) None (Some ("HTTP " +:+ show_int status)) None
  | TokenRefreshFailed status body => build (Some body) (Some login_again) (Some ("HTTP " +:+ show_int status)) None
  | AuthorizationFailed _ description => build (Some description) (Some login_or_administrator) None None
  | OAuthStateMismatch => build (Some "Possible CSRF attack.") (Some login_or_administrator) None None
  | PortInUse _ =>
      build None (Some "Use --port to specify a different port, and update the redirect URI in the AccelByte Admin Portal to match.") None None
  | CallbackTimeout secs =>
      build (Some ("Timed out waiting for browser callback (" +:+ show_int secs +:+ "s).")) (Some "Run 'ags auth login' again.") None
        (Some "Set AGS_AUTH_TIMEOUT to change the timeout duration (default: 120s).")
  | KeychainOperationFailed _ op _ => build None (Some (keychain_runtime_suggestion op)) None None
  | KeychainTokenParseFailed source =>
      build (Some ("Token data could not be parsed: " +:+ source)) (Some "Run 'ags auth logout' and 'ags auth login' to restore valid credentials.")
        None None
  | TokenParseFailed _ | CallbackAcceptFailed _ | CallbackReadFailed _ | CallbackEmpty | CallbackMalformed | CallbackMissingQuery
  | CallbackMissingCode | CallbackMissingState | CallbackServerError _ | FileOperationFailed _ _ _ | TokenSerializeFailed _
  | TokenFileParseFailed _ | CannotDetermineDir _ => build None None None None
  end.

(** * Client ids *)

Fixpoint drop_hyphens (s : string) : string :=
  match s with
  | EmptyString => EmptyString
  | String c r => if Ascii.eqb c "-" then drop_hyphens r else String c (drop_hyphens r)
  end.

Definition normalise_client_id (s : string) : string := to_ascii_lowercase (drop_hyphens s).
Definition client_ids_match (a b : string) : bool := String.eqb (normalise_client_id a) (normalise_client_id b).

(** * Tokens *)

Inductive GrantType : Type := AuthorizationCode | ClientCredentials.

Definition grant_name (g : GrantType) : string := match g with AuthorizationCode => "authorization-code" | ClientCredentials => "client-credentials" end.

Definition grant_of_name (s : string) : option GrantType :=
  if String.eqb s "authorization-code" then Some AuthorizationCode else if String.eqb s "client-credentials" then Some ClientCredentials else None.

(** A unit variant: its name, or an object with the name and [null]. *)
Definition read_grant (v : value) : option GrantType :=
  match v with
  | Str s | Object [(s, Null)] => grant_of_name s
  | _ => None
  end.

Record TokenData : Type := mk_token_data {
  access_token : string;
  expires_at : Z;
  refresh_token : option string;
  refresh_expires_at : option Z;
  grant_type : option GrantType;
  client_id : option string
}.

Definition DEFAULT_EXPIRES_IN : Z := 3600.
Definition TOKEN_ERROR_BODY_LIMIT : nat := 200.

Definition truncate_token_error_body (body : string) : string := truncate_display_text body TOKEN_ERROR_BODY_LIMIT.

Definition normalize_expires_in (expires_in : Z) : Z * option string :=
  if expires_in =? 0
  then (DEFAULT_EXPIRES_IN, Some ("Server did not return an expiry — assuming " +:+ show_int DEFAULT_EXPIRES_IN +:+ "s"))
  else (expires_in, None).

Record TokenResponse : Type := mk_token_response {
  tr_access_token : string;
  tr_expires_in : Z;
  tr_token_type : string;
  tr_refresh_token : option string;
  tr_refresh_expires_in : option Z
}.

Definition token_response_of_json (v : value) : option TokenResponse :=
  f ← read_struct ["access_token"; "expires_in"; "token_type"; "refresh_token"; "refresh_expires_in"] v;
  access ← req read_string f "access_token" 0;
  expires ← dflt 0 read_u64 f "expires_in" 1;
  ty ← dflt EmptyString read_string f "token_type" 2;
  refresh ← dflt None (read_option read_string) f "refresh_token" 3;
  refresh_expires ← dflt None (read_option read_u64) f "refresh_expires_in" 4;
  Some (mk_token_response access expires ty refresh refresh_expires).

Record TokenResult : Type := mk_token_result {
  res_access_token : string;
  res_expires_in : Z;
  res_refresh_token : option string;
  res_refresh_expires_in : option Z;
  expires_in_warning : option string
}.

Definition saturating_add_u64 (a b : Z) : Z := Z.min u64_max (a + b).

Definition token_result_to_token_data (r : TokenResult) (g : GrantType) (now : Z) (client : string) : TokenData :=
  mk_token_data (res_access_token r) (saturating_add_u64 now (res_expires_in r)) (res_refresh_token r)
    (option_map (saturating_add_u64 now) (res_refresh_expires_in r)) (Some g) (Some client).

(** * The token endpoint *)

(** [reqwest::Url::parse], and the URL as it is sent. *)
Class UrlParse : Type := { url_parse : string -> option string }.

(** A POST of a form, with basic authentication or without. *)
Record TokenRequest : Type := mk_token_request {
  token_endpoint : string;
  basic_auth : option (string * string);
  form : list (string * string)
}.

Section tokens.
Context `{JsonText, UrlParse}.
Variable json_error : string -> string.

Definition token_url (base_url : string) : result string AuthError :=
  match url_parse base_url with
  | None => Err (InvalidBaseUrl base_url)
  | Some _ => ok_or (url_parse (trim_end_matches "/" base_url +:+ "/iam/v3/oauth/token")) (InvalidBaseUrl base_url)
  end.

Definition parse_token_result (body : string) : result TokenResult RuntimeError :=
  let? r := ok_or (v ← parse_json body; token_response_of_json v) (auth_error (TokenParseFailed (json_error body))) in
  let '(expires_in, warning) := normalize_expires_in (tr_expires_in r) in
  Ok (mk_token_result (tr_access_token r) expires_in (tr_refresh_token r) (tr_refresh_expires_in r) warning).

(** The answer of the endpoint, the failure of a status other than 2xx being [failed]. *)
Definition token_answer (failed : Z -> string -> AuthError) (answer : result RawResponse string) : result TokenResult RuntimeError :=
  let? raw := map_err network_error answer in
  let? body := read_response_body raw in
  if (200 <=? raw_status raw) && (raw_status raw <? 300) then parse_token_result body
  else Err (auth_error (failed (raw_status raw) (truncate_token_error_body body))).

Definition client_credentials_request (url client secret : string) : TokenRequest :=
  mk_token_request url (Some (client, secret)) [("grant_type", "client_credentials")].

Definition refresh_request (url client : string) (secret : option string) (refresh_token : string) : TokenRequest :=
  mk_token_request url (Some (client, default EmptyString secret)) [("grant_type", "refresh_token"); ("refresh_token", refresh_token)].

Definition exchange_request (url client : string) (secret : option string) (code code_verifier : string) : TokenRequest :=
  mk_token_request url (option_map (fun s => (client, s)) secret)
    ([("grant_type", "authorization_code"); ("code", code); ("code_verifier", code_verifier)] ++
     match secret with None => [("client_id", client)] | Some _ => [] end).
End tokens.

(** * Token storage *)

Definition token_wf (t : TokenData) : Prop := in_u64 (expires_at t) /\ forall z, refresh_expires_at t = Some z -> in_u64 z.

(** What sessions ask of the storage of a profile's token. A write gives the warning to show. *)
Class TokenStorage : Type := {
  Sto : Type;
  sto_read : Sto -> result (option TokenData) RuntimeError;
  sto_write : TokenData -> Sto -> result (option string) RuntimeError * Sto;
  sto_delete : Sto -> result unit RuntimeError * Sto
}.
