(* ===== verification/Vault.v ===== *)
(** The machine underneath configuration and credentials: the OS keychain ([keyring]), the
    files, the environment variables, and computations over them. *)

From stdpp Require Import base gmap strings list.
From Stdlib Require Import ZArith Lia Ascii.
From S2P Require Import Prelude Text Workflow Http.

(** [keyring::Error], with the texts. *)
Inductive KeyringError : Type := NoEntry | NoStorageAccess (e : string) | PlatformFailure (e : string) | OtherKeyring (e : string).

Definition keyring_text (e : KeyringError) : string :=
  match e with NoEntry => "No matching entry found in secure storage" | NoStorageAccess e | PlatformFailure e | OtherKeyring e => e end.

Definition is_keychain_unavailable (e : KeyringError) : bool := match e with NoStorageAccess _ => true | _ => false end.
Definition is_keychain_init_unavailable (e : KeyringError) : bool := match e with NoStorageAccess _ | PlatformFailure _ => true | _ => false end.

(** [std::io::ErrorKind], as far as the callers tell kinds apart. *)
Inductive IoErrorKind : Type := IoNotFound | IoPermissionDenied | IoOther.

(** * The backends *)

(** The OS keychain and the files of a machine. A keychain entry is named by its service
    and its user. *)
Class Vault : Type := {
  Vt : Type;
  (** [Entry::new]: the error, if any. *)
  entry_error : string -> string -> Vt -> option KeyringError;
  get_password : string -> string -> Vt -> result string KeyringError;
  set_password : string -> string -> string -> Vt -> result unit KeyringError * Vt;
  delete_credential : string -> string -> Vt -> result unit KeyringError * Vt;
  (** [path.exists()], [path.is_dir()], and the operations on files with their error texts. *)
  file_exists : string -> Vt -> bool;
  read_to_string : string -> Vt -> result string string;
  (** The kind of the error of [read_to_string], when it fails. *)
  read_error_kind : string -> Vt -> IoErrorKind;
  is_file : string -> Vt -> bool;
  create_dir_restricted : string -> Vt -> result unit string * Vt;
  write_file_restricted : string -> string -> Vt -> result unit string * Vt;
  remove_file : string -> Vt -> result unit string * Vt;
  is_dir : string -> Vt -> bool;
  (** The names of the directories in a directory. *)
  read_dirs : string -> Vt -> result (list string) string;
  (** [read_dir]: the names of the entries, each read or not. *)
  read_entries : string -> Vt -> result (list (result string string)) string;
  remove_dir_all : string -> Vt -> result unit string * Vt;
  rename_dir : string -> string -> Vt -> result unit string * Vt;
  (** [FileLock::acquire], the lock being given back at the end of the operation. *)
  acquire_lock : string -> Vt -> result unit string * Vt
}.

(** [std::env::var], the directories of the [dirs] crate and the suffix of the platform. *)
Class Environment : Type := {
  env_var : string -> option string;
  dirs_config_dir : option string;
  dirs_home_dir : option string;
  dirs_cache_dir : option string;
  app_path : string
}.

(** [Path::join], of Unix. *)
Definition path_join (a b : string) : string :=
  if starts_with "/" b || String.eqb a EmptyString then b
  else if ends_with "/" a then a +:+ b else a +:+ "/" +:+ b.

(** * Computations *)

Section computations.
Context `{Vault}.

(** A computation over the backends. *)
Definition Store (A : Type) : Type := Vt -> result A RuntimeError * Vt.

#[global] Instance store_ret : MRet Store := fun A x v => (Ok x, v).
#[global] Instance store_bind : MBind Store := fun A B k m v => match m v with (Ok x, v) => k x v | (Err e, v) => (Err e, v) end.

Definition store_fail {A} (e : RuntimeError) : Store A := fun v => (Err e, v).
Definition store_lift {A} (r : result A RuntimeError) : Store A := fun v => (r, v).
Definition store_ask {A} (f : Vt -> A) : Store A := fun v => (Ok (f v), v).
(** [let _ = m] and [m.ok()]: the failure is dropped. *)
Definition store_try {A} (m : Store A) : Store (result A RuntimeError) := fun v => let '(x, v) := m v in (Ok x, v).
Definition store_op {A} (error : string -> RuntimeError) (m : Vt -> result A string * Vt) : Store A := fun v =>
  let '(x, v) := m v in (map_err error x, v).
End computations.

(** * A concrete machine *)

(** A keychain that works, is locked, is missing, takes no password, or neither takes one
    nor forgets one. *)
Inductive KeychainMode : Type := Healthy | Locked | Missing | ReadOnlyEntries | Stubborn.

(** Passwords by service and user, files by path, directories; a file is written wherever
    it is asked for. *)
Record Disk : Type := mk_disk {
  passwords : gmap (string * string) string;
  files : gmap string string;
  dirs : gset string
}.

Definition denied : KeyringError := PlatformFailure "denied".

(** A path and the directories it is in. *)
Fixpoint ancestors_from (seen rest : string) : list string :=
  match rest with
  | EmptyString => [seen]
  | String c r =>
      (if Ascii.eqb c "/" && negb (String.eqb seen EmptyString) then [seen] else []) ++ ancestors_from (seen +:+ String c EmptyString) r
  end.

Definition inside (dir path : string) : bool := String.eqb dir path || starts_with (dir +:+ "/") path.

(** The names right below a directory. *)
Definition child_name (dir path : string) : option string :=
  match strip_prefix (dir +:+ "/") path with
  | Some n => if contains_char (is_char "/") n || String.eqb n EmptyString then None else Some n
  | None => None
  end.

Definition moved (old new path : string) : string :=
  if inside old path then new +:+ default EmptyString (strip_prefix old path) else path.

Definition disk_vault (mode : KeychainMode) : Vault := {|
  Vt := Disk;
  entry_error s u v := match mode with Missing => Some (PlatformFailure "Unknown(38)") | _ => None end;
  get_password s u v :=
    match mode with Locked => Err (NoStorageAccess "locked") | _ => match passwords v !! (s, u) with Some p => Ok p | None => Err NoEntry end end;
  set_password s u p v :=
    match mode with
    | Locked => (Err (NoStorageAccess "locked"), v)
    | Missing | ReadOnlyEntries | Stubborn => (Err denied, v)
    | Healthy => (Ok tt, mk_disk (<[(s, u) := p]> (passwords v)) (files v) (dirs v))
    end;
  delete_credential s u v :=
    match mode with
    | Locked => (Err (NoStorageAccess "locked"), v)
    | Stubborn => (Err denied, v)
    | _ => (if decide (is_Some (passwords v !! (s, u))) then Ok tt else Err NoEntry, mk_disk (delete (s, u) (passwords v)) (files v) (dirs v))
    end;
  file_exists p v := bool_decide (is_Some (files v !! p)) || bool_decide (p ∈ dirs v);
  read_to_string p v := match files v !! p with Some s => Ok s | None => Err "No such file or directory" end;
  read_error_kind p v := IoNotFound;
  is_file p v := bool_decide (is_Some (files v !! p));
  create_dir_restricted p v := (Ok tt, mk_disk (passwords v) (files v) (list_to_set (ancestors_from EmptyString p) ∪ dirs v));
  write_file_restricted p s v := (Ok tt, mk_disk (passwords v) (<[p := s]> (files v)) (dirs v));
  remove_file p v := (Ok tt, mk_disk (passwords v) (delete p (files v)) (dirs v ∖ {[ p ]}));
  is_dir p v := bool_decide (p ∈ dirs v);
  read_dirs p v := Ok (omap (child_name p) (elements (dirs v)));
  read_entries p v := Ok (map Ok (omap (child_name p) (elements (dirs v) ++ (map_to_list (files v)).*1)));
  remove_dir_all p v :=
    (Ok tt, mk_disk (passwords v) (filter (fun kv => inside p kv.1 = false) (files v)) (filter (fun d => inside p d = false) (dirs v)));
  rename_dir p q v :=
    (Ok tt, mk_disk (passwords v) (list_to_map (map (fun kv => (moved p q kv.1, kv.2)) (map_to_list (files v)))) (set_map (moved p q) (dirs v)));
  acquire_lock _ v := (Ok tt, v)
|}.

Definition empty_disk : Disk := mk_disk ∅ ∅ ∅.
