(* ===== verification/Config.v ===== *)
(** Configuration and profiles ([config/environment.rs], [config/keys.rs],
    [config/paths.rs], [config/store.rs]): the environment variables, the keys and the
    values they admit, where things are kept, the files of the global configuration and of
    a profile, and which profile is in use. *)

From stdpp Require Import base gmap strings list sorting.
From Stdlib Require Import ZArith Lia Ascii Strings.Byte.
From S2P Require Import Prelude Text Kebab Nouns Json Catalogue Sanitise Results Workflow Request Http Pagination Tokens Vault.

#[local] Arguments String.append !_ _ /.

(** * Environment variables *)

Definition ENV_ACCESS_TOKEN : string := "AGS_ACCESS_TOKEN".
Definition ENV_BASE_URL : string := "AGS_BASE_URL".
Definition ENV_CLIENT_ID : string := "AGS_CLIENT_ID".
Definition ENV_CLIENT_SECRET : string := "AGS_CLIENT_SECRET".
Definition ENV_HOME : string := "AGS_HOME".
Definition ENV_NAMESPACE : string := "AGS_NAMESPACE".
Definition ENV_NO_KEYCHAIN : string := "AGS_NO_KEYCHAIN".
Definition ENV_PROFILE : string := "AGS_PROFILE".
Definition DEFAULT_PROFILE : string := "default".

(** * Keys *)

Inductive ConfigScope : Type := GlobalScope | ProfileScope.

#[global] Instance config_scope_eq_dec : EqDecision ConfigScope.
Proof. solve_decision. Defined.

Record ConfigKeyDef : Type := mk_key { cli_name : string; json_name : string; scope : ConfigScope }.

Definition KNOWN_KEYS : list ConfigKeyDef :=
  [mk_key "active-profile" "active_profile" GlobalScope; mk_key "format" "format" GlobalScope; mk_key "no-color" "no_color" GlobalScope;
   mk_key "timeout" "timeout" GlobalScope; mk_key "page-limit" "page_limit" GlobalScope;
   mk_key "first-run-hint-seen" "first_run_hint_seen" GlobalScope; mk_key "base-url" "base_url" ProfileScope;
   mk_key "client-id" "client_id" ProfileScope; mk_key "namespace" "namespace" ProfileScope;
   mk_key "grant-type" "grant_type" ProfileScope; mk_key "update-check" "update_check" GlobalScope].

Definition CLIENT_SECRET_ALIASES : list string := ["client-secret"; "secret"].

Definition is_client_secret_key (name : string) : bool :=
  existsb (fun alias => String.eqb (to_ascii_lowercase alias) (to_ascii_lowercase name)) CLIENT_SECRET_ALIASES.

Definition find_key (name : string) : option ConfigKeyDef := List.find (fun k => String.eqb (cli_name k) name) KNOWN_KEYS.

Definition env_var_name_for_key (name : string) : option string :=
  if String.eqb name "base-url" then Some ENV_BASE_URL
  else if String.eqb name "client-id" then Some ENV_CLIENT_ID
  else if String.eqb name "namespace" then Some ENV_NAMESPACE
  else if String.eqb name "active-profile" then Some ENV_PROFILE
  else None.

(** * Values of keys *)

Definition is_hexdigit (c : ascii) : bool :=
  let n := nat_of_ascii c in is_digit c || (Nat.leb 97 n && Nat.leb n 102) || (Nat.leb 65 n && Nat.leb n 70).

(** [url::Url::parse], and the scheme of what it gives. *)
Class UrlScheme : Type := { url_scheme : string -> option string }.

Definition is_valid_base_url `{UrlScheme} (s : string) : bool :=
  match url_scheme s with Some scheme => String.eqb scheme "https" || String.eqb scheme "http" | None => false end.

Definition is_valid_client_id (s : string) : bool :=
  let stripped := drop_hyphens s in Nat.eqb (String.length stripped) 32 && all_chars is_hexdigit stripped.

Definition profile_char (c : ascii) : bool := is_lower c || is_digit c || Ascii.eqb c "-".

Definition is_valid_namespace (s : string) : bool :=
  negb (String.eqb s EmptyString) && Nat.leb (String.length s) 48 && negb (starts_with "-" s) && negb (ends_with "-" s) && all_chars profile_char s.

(** * Paths *)

Section paths.
Context `{Environment}.

Definition home_override : option string := env_var ENV_HOME.

Definition resolve_platform_config_root (config_dir home_dir : option string) : result string RuntimeError :=
  match config_dir, home_dir with
  | Some d, _ | None, Some d => Ok (path_join d app_path)
  | None, None => Err (internal_error "Cannot determine config directory.")
  end.

Definition platform_config_root : result string RuntimeError := resolve_platform_config_root dirs_config_dir dirs_home_dir.

Definition config_dir : result string RuntimeError := match home_override with Some home => Ok home | None => platform_config_root end.

Definition cache_dir : result string RuntimeError :=
  match home_override with
  | Some home => Ok (path_join home "cache")
  | None => let? d := ok_or dirs_cache_dir (internal_error "Cannot determine cache directory.") in Ok (path_join d app_path)
  end.

Definition shared_lock_dir : result string RuntimeError := let? d := platform_config_root in Ok (path_join d "locks").
Definition global_config_lock_path : result string RuntimeError := let? d := config_dir in Ok (path_join d ".config.lock").
Definition profiles_dir : result string RuntimeError := let? d := config_dir in Ok (path_join d "profiles").
Definition workflows_dir : result string RuntimeError := let? d := config_dir in Ok (path_join d "workflows").
Definition profile_dir (name : string) : result string RuntimeError := let? d := profiles_dir in Ok (path_join d name).
Definition profile_config_path (name : string) : result string RuntimeError := let? d := profile_dir name in Ok (path_join d "config.json").
Definition profile_config_lock_path (name : string) : result string RuntimeError := let? d := profile_dir name in Ok (path_join d ".config.lock").

Definition is_keychain_disabled : bool := match env_var ENV_NO_KEYCHAIN with Some v => String.eqb v "1" | None => false end.
Definition is_env_var_set (name : string) : bool := match env_var name with Some v => negb (String.eqb v EmptyString) | None => false end.
End paths.

(** * What the files hold *)

Record GlobalConfig : Type := mk_global {
  active_profile : option string;
  g_format : option OutputFormat;
  no_color : option bool;
  timeout : option Z;
  g_page_limit : option Z;
  update_check : option bool;
  first_run_hint_seen : option bool
}.

Record ProfileConfig : Type := mk_profile_config {
  c_base_url : option string;
  c_client_id : option string;
  c_namespace : option string;
  c_grant_type : option GrantType
}.

Definition default_global : GlobalConfig := mk_global None None None None None None None.
Definition default_profile_config : ProfileConfig := mk_profile_config None None None None.

Definition format_name (f : OutputFormat) : string := match f with Human => "human" | JsonFormat => "json" end.
Definition format_of_name (s : string) : option OutputFormat :=
  if String.eqb s "human" then Some Human else if String.eqb s "json" then Some JsonFormat else None.
Definition read_format (v : value) : option OutputFormat := match v with Str s | Object [(s, Null)] => format_of_name s | _ => None end.

Definition global_to_json (g : GlobalConfig) : value :=
  Object (entry_some "active_profile" Str (active_profile g) ++ entry_some "format" (fun f => Str (format_name f)) (g_format g) ++
          entry_some "no_color" Bool (no_color g) ++ entry_some "timeout" int (timeout g) ++ entry_some "page_limit" int (g_page_limit g) ++
          entry_some "update_check" Bool (update_check g) ++ entry_some "first_run_hint_seen" Bool (first_run_hint_seen g)).

Definition global_of_json (v : value) : option GlobalConfig :=
  f ← read_struct ["active_profile"; "format"; "no_color"; "timeout"; "page_limit"; "update_check"; "first_run_hint_seen"] v;
  active ← opt read_string f "active_profile" 0;
  format ← opt read_format f "format" 1;
  color ← opt read_bool f "no_color" 2;
  timeout ← opt read_u64 f "timeout" 3;
  limit ← opt read_u64 f "page_limit" 4;
  check ← opt read_bool f "update_check" 5;
  seen ← opt read_bool f "first_run_hint_seen" 6;
  Some (mk_global active format color timeout limit check seen).

Definition profile_to_json (c : ProfileConfig) : value :=
  Object (entry_some "base_url" Str (c_base_url c) ++ entry_some "client_id" Str (c_client_id c) ++ entry_some "namespace" Str (c_namespace c) ++
          entry_some "grant_type" (fun g => Str (grant_name g)) (c_grant_type c)).

Definition profile_of_json (v : value) : option ProfileConfig :=
  f ← read_struct ["base_url"; "client_id"; "namespace"; "grant_type"] v;
  base ← opt read_string f "base_url" 0;
  client ← opt read_string f "client_id" 1;
  namespace ← opt read_string f "namespace" 2;
  grant ← opt read_grant f "grant_type" 3;
  Some (mk_profile_config base client namespace grant).

(** * The files *)

Record ConfigStore : Type := mk_store { store_path : string; store_dir : string; lock_path : string; label : string }.

Section config.
Context `{JsonText, !JsonPretty, Environment, Vault, UnicodeCase}.
Variable json_error : string -> string.

Definition global_store : result ConfigStore RuntimeError :=
  let? d := config_dir in let? lock := global_config_lock_path in Ok (mk_store (path_join d "config.json") d lock "global config").

Definition profile_store (profile : string) : result ConfigStore RuntimeError :=
  let? d := profile_dir profile in
  let? path := profile_config_path profile in
  let? lock := profile_config_lock_path profile in
  Ok (mk_store path d lock ("profile config for '" +:+ profile +:+ "'")).

Definition make_dir (dir : string) : Store unit :=
  store_op (fun e => internal_error ("Failed to create directory '" +:+ dir +:+ "': " +:+ e)) (create_dir_restricted dir).
Definition write_config (path data : string) : Store unit :=
  store_op (fun e => internal_error ("Failed to write '" +:+ path +:+ "': " +:+ e)) (write_file_restricted path data).

Definition lock_store (s : ConfigStore) : Store unit :=
  _ ← make_dir (store_dir s); store_op internal_error (acquire_lock (lock_path s)).

(** The text of the file, if there is one. *)
Definition config_text (path label : string) : Store (option string) :=
  there ← store_ask (file_exists path);
  if (there : bool)
  then text ← store_op (fun e => internal_error ("Failed to read " +:+ label +:+ ": " +:+ e)) (fun v => (read_to_string path v, v)); mret (Some text)
  else mret None.

Definition parse_failed (label text : string) : RuntimeError := internal_error ("Failed to parse " +:+ label +:+ ": " +:+ json_error text).

Definition load_struct_unlocked {T} (read : value -> option T) (dflt : T) (s : ConfigStore) : Store T :=
  text ← config_text (store_path s) (label s);
  match text with
  | None => mret dflt
  | Some text => store_lift (ok_or (v ← parse_json text; read v) (parse_failed (label s) text))
  end.

Definition save_struct_unlocked {T} (write : T -> value) (s : ConfigStore) (x : T) : Store unit :=
  write_config (store_path s) (of_bytes (to_vec_pretty (write x))).

Definition save_struct {T} (write : T -> value) (s : ConfigStore) (x : T) : Store unit :=
  _ ← lock_store s; save_struct_unlocked write s x.

(** The closures that are passed here do not fail. *)
Definition update_struct {T R} (read : value -> option T) (write : T -> value) (dflt : T) (s : ConfigStore) (f : T -> R * T) : Store R :=
  _ ← lock_store s;
  x ← load_struct_unlocked read dflt s;
  let '(r, x) := f x in
  _ ← save_struct_unlocked write s x;
  mret r.

Definition value_to_string (v : value) : option string :=
  match v with
  | Str s => Some s
  | Bool b => Some (if b then "true" else "false")
  | Number (NInt z) => Some (show_int z)
  | Number (NFloat r) => Some r
  | Null => None
  | _ => Some (of_bytes (to_vec v))
  end.

Definition parse_json_value (s : string) : value :=
  if String.eqb s "true" then Bool true
  else if String.eqb s "false" then Bool false
  else match parse_unsigned u64_max s with Some n => int n | None => Str s end.

Definition load_json_value (path label name : string) : Store (option string) :=
  text ← config_text path label;
  match text with
  | None => mret None
  | Some text =>
      object ← store_lift (ok_or (normalize <$> parse_json text) (parse_failed label text));
      mret (v ← get_key name object; value_to_string v)
  end.

(** [object[name] = value]: [null] becomes an object, and any other value that is not one
    panics. *)
Definition index_set (name : string) (x : value) (object : value) : option value :=
  match object with
  | Object l => Some (Object (obj_insert name x l))
  | Null => Some (Object [(name, x)])
  | _ => None
  end.

Definition remove_key (name : string) (object : value) : value :=
  match object with Object l => Object (filter (fun kv => kv.1 <> name) l) | _ => object end.

(** A panic, which ends the process; no code handles this value. *)
Definition panicked : RuntimeError := internal_error "cannot access key in JSON value".

Definition update_json_file_field (path label name : string) (x : option string) : Store unit :=
  text ← config_text path label;
  let object := match text with Some text => default (Object []) (normalize <$> parse_json text) | None => Object [] end in
  object ← store_lift (match x with Some s => ok_or (index_set name (parse_json_value s) object) panicked | None => Ok (remove_key name object) end);
  write_config path (of_bytes (to_vec_pretty object)).

Definition set_json_value (s : ConfigStore) (name x : string) : Store unit :=
  _ ← lock_store s; update_json_file_field (store_path s) (label s) name (Some x).
Definition unset_json_value (s : ConfigStore) (name : string) : Store unit :=
  _ ← lock_store s; update_json_file_field (store_path s) (label s) name None.

(** * The two configurations *)

Definition global_load : Store GlobalConfig := s ← store_lift global_store; load_struct_unlocked global_of_json default_global s.
Definition global_update {R} (f : GlobalConfig -> R * GlobalConfig) : Store R :=
  s ← store_lift global_store; update_struct global_of_json global_to_json default_global s f.
Definition global_get_value (name : string) : Store (option string) :=
  s ← store_lift global_store; load_json_value (store_path s) (label s) name.
Definition global_set_value (name x : string) : Store unit := s ← store_lift global_store; set_json_value s name x.
Definition global_unset_value (name : string) : Store unit := s ← store_lift global_store; unset_json_value s name.

Definition profile_load (profile : string) : Store ProfileConfig :=
  s ← store_lift (profile_store profile); load_struct_unlocked profile_of_json default_profile_config s.
Definition profile_save (profile : string) (c : ProfileConfig) : Store unit :=
  s ← store_lift (profile_store profile); save_struct profile_to_json s c.
Definition profile_update {R} (profile : string) (f : ProfileConfig -> R * ProfileConfig) : Store R :=
  s ← store_lift (profile_store profile); update_struct profile_of_json profile_to_json default_profile_config s f.
Definition profile_get_value (profile name : string) : Store (option string) :=
  s ← store_lift (profile_store profile); load_json_value (store_path s) (label s) name.
Definition profile_set_value (profile name x : string) : Store unit := s ← store_lift (profile_store profile); set_json_value s name x.
Definition profile_unset_value (profile name : string) : Store unit := s ← store_lift (profile_store profile); unset_json_value s name.

(** * Resolved values *)

Inductive ConfigSource : Type := FromEnvironment | FromProfile (name : string) | FromGlobal | FromKeychain | NotSet.

Record ResolvedEntry : Type := mk_entry { e_key : string; e_value : option string; e_source : ConfigSource; e_read_only : bool }.

(** The environment variable of a key, when it says something. *)
Definition env_value (k : ConfigKeyDef) : option string :=
  v ← (name ← env_var_name_for_key (cli_name k); env_var name); if String.eqb v EmptyString then None else Some v.

Definition resolve_key (profile : string) (k : ConfigKeyDef) : Store (option string * ConfigSource) :=
  match env_value k with
  | Some v => mret (Some v, FromEnvironment)
  | None =>
      found ← store_try (match scope k with ProfileScope => profile_get_value profile (json_name k) | GlobalScope => global_get_value (json_name k) end);
      match found with
      | Ok (Some v) => mret (Some v, match scope k with ProfileScope => FromProfile profile | GlobalScope => FromGlobal end)
      | _ => mret (None, NotSet)
      end
  end.

Definition resolved_config_entry (profile : string) (k : ConfigKeyDef) : Store ResolvedEntry :=
  '(v, source) ← resolve_key profile k; mret (mk_entry (cli_name k) v source false).

Fixpoint resolved_entries (profile : string) (keys : list ConfigKeyDef) : Store (list ResolvedEntry) :=
  match keys with
  | [] => mret []
  | k :: r => e ← resolved_config_entry profile k; es ← resolved_entries profile r; mret (e :: es)
  end.

Definition resolved_config_entries (profile : string) : Store (list ResolvedEntry) := resolved_entries profile KNOWN_KEYS.

(** * Profiles *)

Definition profile_exists (name : string) : Store bool := d ← store_lift (profile_dir name); store_ask (is_dir d).

Definition name_le (a b : string) : Prop := String.leb a b = true.
#[global] Instance name_le_dec : RelDecision name_le := fun a b => decide (String.leb a b = true).

Definition list_profiles : Store (list string) :=
  d ← store_lift profiles_dir;
  there ← store_ask (is_dir d);
  if (there : bool)
  then names ← store_op (fun e => internal_error ("Failed to read profiles directory: " +:+ e)) (fun v => (read_dirs d v, v)); mret (merge_sort name_le names)
  else mret [].

Definition profile_name_error (message : string) (hint : string) : RuntimeError := mk_error Validation message None (Some hint) None.

Definition validate_profile_name (name : string) : result string RuntimeError :=
  let normalised := to_lowercase name in
  match normalised with
  | EmptyString => Err (profile_name_error "Profile name cannot be empty" "Use a name like 'default', 'staging', or 'prod-us'.")
  | String c _ =>
      if all_chars profile_char normalised && (is_lower c || is_digit c || is_upper c) then Ok normalised
      else Err (profile_name_error ("Invalid profile name '" +:+ name +:+ "'.")
                  "Profile names must start with a letter or digit and contain only lowercase letters, digits, and hyphens.")
  end.

Definition ensure_profile_exists (name : string) : Store unit :=
  d ← store_lift (profile_dir name);
  there ← store_ask (is_dir d);
  if (there : bool) then mret tt else _ ← make_dir d; profile_save name default_profile_config.

Definition set_active (name : option string) (g : GlobalConfig) : unit * GlobalConfig :=
  (tt, mk_global name (g_format g) (no_color g) (timeout g) (g_page_limit g) (update_check g) (first_run_hint_seen g)).

Definition no_active_profile : RuntimeError :=
  profile_name_error "No active profile" "Run 'ags profile create <name>' and 'ags profile use <name>' to get started.".

(** A name that is given and is not empty. *)
Definition given (name : option string) : option string := n ← name; if String.eqb n EmptyString then None else Some n.

Definition resolve_profile_name (flag : option string) : Store string :=
  match flag with
  | Some name => store_lift (validate_profile_name name)
  | None =>
      match given (env_var ENV_PROFILE) with
      | Some name => store_lift (validate_profile_name name)
      | None =>
          global ← global_load;
          match given (active_profile global) with
          | Some name => store_lift (validate_profile_name name)
          | None =>
              profiles ← store_lift profiles_dir;
              there ← store_ask (file_exists profiles);
              if (there : bool) then store_fail no_active_profile
              else _ ← ensure_profile_exists DEFAULT_PROFILE; _ ← global_update (set_active (Some DEFAULT_PROFILE)); mret DEFAULT_PROFILE
          end
      end
  end.
End config.
