(* ===== verification/Repository.v ===== *)
(** The bundled documents, the cache of parsed schemas on disk and the one in memory
    ([catalogue/bundled.rs], [cache.rs], [repository.rs], [memory_cache.rs], [mod.rs]). *)

From Stdlib Require Import ZArith Lia Ascii Strings.Byte.
From stdpp Require Import base gmap strings list.
From S2P Require Import Prelude Text Kebab Json Workflow Catalogue Http Pagination ErrorCodes Swagger Parser CatalogueJson Vault Config.

(** * Bundled documents *)

(** The bytes of [specs/<service>.json.gz] and the [gzip] decoder with [read_to_string]. *)
Class Bundle : Type := {
  spec_bytes : string -> bytes;
  gunzip : bytes -> result string string
}.

Definition BUNDLED_SPECS `{Bundle} : list (string * bytes) :=
  map (fun service => (service, spec_bytes service))
    ["achievement"; "ams"; "basic"; "challenge"; "chat"; "cloudsave"; "csm"; "ehs"; "gametelemetry"; "gdpr"; "group"; "iam"; "inventory";
     "leaderboard"; "legal"; "lobby"; "loginqueue"; "match2"; "platform"; "reporting"; "seasonpass"; "session"; "sessionhistory"; "social"; "ugc"].

(** [CARGO_PKG_VERSION] of the workspace. *)
Definition CARGO_PKG_VERSION : string := "0.5.1".

Inductive SpecSource : Type := FromCache | FromBundle.

Record RefreshReport : Type := mk_report {
  succeeded : list string;
  failed : list (string * RuntimeError);
  cache_clear_error : option RuntimeError
}.

(** [Path::parent] of a path written without [.] components: what stands before its last
    component, without the slashes between them. *)
Definition path_parent (p : string) : option string :=
  let p := trim_end_matches "/" p in
  if String.eqb p EmptyString then None
  else match before_last "/" p with
       | None => Some EmptyString
       | Some d => let d' := trim_end_matches "/" d in Some (if String.eqb d' EmptyString then "/" else d')
       end.

(** [path.extension() == "json"], of a file name. *)
Definition has_json_extension (name : string) : bool :=
  match strip_suffix ".json" name with Some stem => negb (String.eqb stem EmptyString) | None => false end.

(** * The cache on disk *)

Section repository.
Context `{JsonText, Environment, Vault, UnicodeCase, HashOrder, Bundle} (json_error : string -> string).

Definition decompress_and_parse (data : bytes) : result SwaggerSpec RuntimeError :=
  let? text := map_err (fun e => internal_error ("Failed to decompress spec: " +:+ e)) (gunzip data) in
  ok_or (v ← parse_json text; spec_of_json v) (internal_error ("Failed to parse spec JSON: " +:+ json_error text)).

Definition load_bundled_spec (service : string) : result SwaggerSpec RuntimeError :=
  let? data := ok_or (option_map snd (List.find (fun entry => String.eqb entry.1 service) BUNDLED_SPECS))
                     (internal_error ("No bundled spec for service '" +:+ service +:+ "'")) in
  decompress_and_parse data.

(** [manifest::find_id] with [ok_or_else]. *)
Definition known_service (service : string) : result string RuntimeError :=
  ok_or (internal_name service) (internal_error ("Unknown service in manifest: '" +:+ service +:+ "'")).

Definition cache_path (service : string) : result string RuntimeError := let? dir := cache_dir in Ok (path_join dir (service +:+ ".json")).
Definition cache_lock_path : result string RuntimeError := let? dir := cache_dir in Ok (path_join dir ".cache.lock").

Definition envelope_to_json (version : string) (schema : ServiceSchema) : value :=
  Object [("cli_version", Str version); ("schema", service_to_json schema)].

Definition envelope_of_json (v : value) : option (string * ServiceSchema) :=
  f ← read_struct ["cli_version"; "schema"] v;
  version ← req read_string f "cli_version" 0;
  schema ← req service_of_json f "schema" 1;
  Some (version, schema).

Definition envelope_text (schema : ServiceSchema) : string := of_bytes (to_vec (envelope_to_json CARGO_PKG_VERSION schema)).

(** A file that is not an envelope, or one of another version, is removed. *)
Definition load_from_cache (path : string) : Store (option ServiceSchema) := fun v =>
  match read_to_string path v with
  | Err e =>
      match read_error_kind path v with
      | IoNotFound | IoPermissionDenied => (Ok None, v)
      | IoOther => (Err (internal_error ("Failed to read spec cache: " +:+ e)), v)
      end
  | Ok data =>
      match v' ← parse_json data; envelope_of_json v' with
      | None => (Ok None, (remove_file path v).2)
      | Some (version, schema) => if String.eqb version CARGO_PKG_VERSION then (Ok (Some schema), v) else (Ok None, (remove_file path v).2)
      end
  end.

Definition write_to_cache (path : string) (schema : ServiceSchema) : Store unit :=
  _ ← (match path_parent path with
       | Some dir => store_op (fun e => internal_error ("Failed to create spec cache directory '" +:+ dir +:+ "': " +:+ e)) (create_dir_restricted dir)
       | None => mret tt
       end);
  store_op (fun e => internal_error ("Failed to write spec cache '" +:+ path +:+ "': " +:+ e)) (write_file_restricted path (envelope_text schema)).

(** The entries of a directory, one after another: the files named [*.json] are removed. *)
Fixpoint clear_entries (dir : string) (entries : list (result string string)) : Store unit :=
  match entries with
  | [] => mret tt
  | Err e :: _ => store_fail (internal_error ("Failed to inspect cache entry: " +:+ e))
  | Ok name :: rest =>
      let path := path_join dir name in
      file ← store_ask (is_file path);
      _ ← (if (file : bool) && has_json_extension name
           then store_op (fun e => internal_error ("Failed to clear cached spec '" +:+ path +:+ "': " +:+ e)) (remove_file path)
           else mret tt);
      clear_entries dir rest
  end.

Definition clear_definition_cache : Store unit :=
  dir ← store_lift cache_dir;
  there ← store_ask (file_exists dir);
  if (there : bool)
  then entries ← store_op (fun e => internal_error ("Failed to read spec cache dir: " +:+ e)) (fun v => (read_entries dir v, v));
       clear_entries dir entries
  else mret tt.

Definition lock_cache : Store unit := lock ← store_lift cache_lock_path; store_op internal_error (acquire_lock lock).

Definition try_cache_parsed_schema (path : string) (schema : ServiceSchema) : Store (option ServiceSchema) := fun v =>
  match lock_cache v with
  | (Err _, v) => (Ok None, v)
  | (Ok _, v) =>
      match load_from_cache path v with
      | (Ok (Some cached), v) => (Ok (Some cached), v)
      | (_, v) => (Ok None, (write_to_cache path schema v).2)
      end
  end.

Definition load_service (service : string) : Store (ServiceSchema * SpecSource) :=
  id ← store_lift (known_service service);
  path ← store_lift (cache_path id);
  cached ← load_from_cache path;
  match cached with
  | Some schema => mret (schema, FromCache)
  | None =>
      spec ← store_lift (load_bundled_spec service);
      let schema := parse_spec service spec in
      written ← try_cache_parsed_schema path schema;
      mret (match written with Some schema' => (schema', FromCache) | None => (schema, FromBundle) end)
  end.

Definition refresh_one (service : string) : Store unit :=
  spec ← store_lift (load_bundled_spec service);
  id ← store_lift (known_service service);
  path ← store_lift (cache_path id);
  _ ← lock_cache;
  write_to_cache path (parse_spec service spec).

Definition rebuild_one_inner (service : string) : Store unit :=
  id ← store_lift (known_service service);
  path ← store_lift (cache_path id);
  spec ← store_lift (load_bundled_spec service);
  write_to_cache path (parse_spec service spec).

Fixpoint rebuild_each (services : list string) (r : RefreshReport) (v : Vt) : RefreshReport * Vt :=
  match services with
  | [] => (r, v)
  | service :: rest =>
      match rebuild_one_inner service v with
      | (Ok _, v) => rebuild_each rest (mk_report (succeeded r ++ [service]) (failed r) (cache_clear_error r)) v
      | (Err e, v) => rebuild_each rest (mk_report (succeeded r) (failed r ++ [(service, e)]) (cache_clear_error r)) v
      end
  end.

Definition refresh_all (v : Vt) : RefreshReport * Vt :=
  match lock_cache v with
  | (Err e, v) => (mk_report [] [] (Some e), v)
  | (Ok _, v) =>
      match clear_definition_cache v with
      | (Err e, v) => (mk_report [] [] (Some e), v)
      | (Ok _, v) => rebuild_each (map fst BUNDLED_SPECS) (mk_report [] [] None) v
      end
  end.

Definition has_cached_service (service : string) (v : Vt) : bool :=
  match known_service service with
  | Ok id => match cache_path id with Ok path => file_exists path v | Err _ => false end
  | Err _ => false
  end.

(** * The cache in memory, and the catalogue *)

(** The schemas in memory, by the name they were asked for. *)
Definition get_or_load (service : string) (memory : gmap string ServiceSchema) (v : Vt) : result ServiceSchema RuntimeError * gmap string ServiceSchema * Vt :=
  match memory !! service with
  | Some schema => (Ok schema, memory, v)
  | None =>
      match load_service service v with
      | (Ok (schema, _), v) => (Ok schema, <[service := schema]> memory, v)
      | (Err e, v) => (Err e, memory, v)
      end
  end.

Definition load_bundled (service : string) : result ServiceSchema RuntimeError :=
  let? spec := load_bundled_spec service in Ok (parse_spec service spec).

Definition get_or_load_bundled (service : string) (memory : gmap string ServiceSchema) : result ServiceSchema RuntimeError * gmap string ServiceSchema :=
  match memory !! service with
  | Some schema => (Ok schema, memory)
  | None => match load_bundled service with Ok schema => (Ok schema, <[service := schema]> memory) | Err e => (Err e, memory) end
  end.
End repository.
