(* ===== verification/RepositoryProps.v ===== *)
(** The cache of parsed schemas ([catalogue/repository.rs], [cache.rs]): what is parsed can be
    written and read back, the catalogue serves the bundle or what another program has left in
    the cache under this version, and a refresh repairs the cache. *)

From Stdlib Require Import ZArith Lia Ascii Strings.Byte.
From stdpp Require Import base gmap strings list.
From S2P Require Import Prelude Text Kebab Json JsonNormal Workflow Catalogue Http Pagination ErrorCodes Swagger Parser CatalogueJson Vault Config Repository ParserProps.

(** * What is parsed can be written *)

Lemma dflt_from {T} d (read : value -> option T) f k i x : dflt d read f k i = Some x -> x = d \/ exists w, read w = Some x.
Proof. unfold dflt. destruct (field_at f k i) as [w|]; [by right; exists w|]. intros [= ->]. by left. Qed.

Lemma list_from {T} (read : value -> option T) v l : read_list read v = Some l -> Forall (fun x => exists w, read w = Some x) l.
Proof.
  destruct v; try done. unfold read_list. intros Hm. apply mapM_Some in Hm. induction Hm as [|w x ws xs Hx _ IH]; constructor; eauto.
Qed.

Lemma map_from {T} (read : value -> option T) v m : read_map read v = Some m -> forall k x, m !! k = Some x -> exists w, read w = Some x.
Proof.
  destruct v as [| | | | |l]; try done. unfold read_map.
  set (step := fun acc kv => m ← acc; x ← read kv.2; Some (<[kv.1:=x]> m)).
  assert (Hl : forall l acc, foldl step acc l = Some m -> exists a, acc = Some a /\
    ((forall k x, a !! k = Some x -> exists w, read w = Some x) -> forall k x, m !! k = Some x -> exists w, read w = Some x)).
  { induction l0 as [|[k w] l0 IH]; intros acc Hf; simpl in Hf; [by exists m|].
    destruct (IH _ Hf) as (b & Hb & Hgood). destruct acc as [a|]; [|done]. exists a. split; [done|]. intros Ha. apply Hgood.
    unfold step in Hb. simpl in Hb. destruct (read w) as [y|] eqn:Ey; [|done]. apply (inj Some) in Hb as <-.
    intros k' x. destruct (decide (k = k')) as [<-|Hne].
    - rewrite lookup_insert_eq. intros [= <-]. by exists w.
    - rewrite lookup_insert_ne by done. apply Ha. }
  intros Hf. destruct (Hl _ _ Hf) as (a & [= <-] & Hg). apply Hg. intros k x. by rewrite lookup_empty.
Qed.

Lemma default_from f k i d : dflt None (read_option read_value) f k i = Some d -> default_ok d.
Proof.
  intros Hd. apply dflt_from in Hd as [->|[w Hw]]; [by intros v|]. intros v ->.
  unfold read_option, read_value in Hw. destruct w; try done; apply (inj Some) in Hw; apply (inj Some) in Hw as <-; (split; [done|apply normalize_canonical, normalize_is_canonical]).
Qed.

(** The defaults of a document are values that were read. *)
Record spec_ok (spec : SwaggerSpec) : Prop := {
  parameters_ok path item name op : spec_paths spec !! path = Some item -> item !! name = Some op ->
    Forall (fun p => default_ok (sp_default p)) (so_parameters op);
  properties_ok name def key prop : spec_definitions spec !! name = Some def -> df_properties def !! key = Some prop -> default_ok (pr_default prop)
}.

Ltac opened H := unfold mbind, option_bind in H; repeat match type of H with (match ?m with _ => _ end) = Some _ => destruct m eqn:?; [|done] end; apply (inj Some) in H as <-.

Lemma spec_read_ok v spec : spec_of_json v = Some spec -> spec_ok spec.
Proof.
  unfold spec_of_json. intros Hs. opened Hs. split; simpl.
  - intros path item name op Hi Ho.
    match goal with E : dflt ∅ (read_map (read_map _)) _ _ _ = Some _ |- _ => apply dflt_from in E as [->|[w Hp]] end; [by rewrite lookup_empty in Hi|].
    destruct (map_from _ _ _ Hp _ _ Hi) as [w' Hp']. destruct (map_from _ _ _ Hp' _ _ Ho) as [w'' Hp'']. unfold operation_of_json in Hp''. opened Hp''. simpl.
    match goal with E : dflt [] (read_list parameter_of_json) _ _ _ = Some _ |- _ => apply dflt_from in E as [->|[u Hl]] end; [constructor|].
    apply list_from in Hl. eapply Forall_impl; [exact Hl|]. intros p [x Hx]. unfold parameter_of_json in Hx. opened Hx. simpl. by eapply default_from.
  - intros name def key prop Hd Hk.
    match goal with E : dflt ∅ (read_map definition_of_json) _ _ _ = Some _ |- _ => apply dflt_from in E as [->|[w Hp]] end; [by rewrite lookup_empty in Hd|].
    destruct (map_from _ _ _ Hp _ _ Hd) as [w' Hw]. unfold definition_of_json in Hw. opened Hw. simpl in Hk.
    match goal with E : dflt ∅ (read_map property_of_json) _ _ _ = Some _ |- _ => apply dflt_from in E as [->|[u Hq]] end; [by rewrite lookup_empty in Hk|].
    destruct (map_from _ _ _ Hq _ _ Hk) as [x Hx]. unfold property_of_json in Hx. cbn [property_at] in Hx. opened Hx. simpl. by eapply default_from.
Qed.

Section parsed.
Context `{HashOrder, UnicodeCase}.
Variable spec : SwaggerSpec.
Hypothesis Hspec : spec_ok spec.

Lemma fields_ok levels : forall name def visited, spec_definitions spec !! name = Some def ->
  Forall field_ok (resolve_definition_fields_recursive spec levels def visited).
Proof.
  induction levels as [|levels IH]; intros name def visited Hd; cbn [resolve_definition_fields_recursive]; rewrite sort_by_perm, Forall_forall;
    intros f ([key prop] & -> & Hk%walk_elem)%list_elem_of_fmap; constructor; simpl; try (by eapply (properties_ok spec Hspec)); [constructor|].
  destruct (nested_some spec (resolve_definition_fields_recursive spec levels) prop visited) as [->|(n & d & v & Hn & ->)]; [constructor|].
  by eapply IH.
Qed.

Lemma object_body_ok name array b : resolve_object_body spec name array = Some b -> Forall field_ok (body_fields b).
Proof.
  unfold resolve_object_body. destruct (spec_definitions spec !! name) as [d|] eqn:Ed; [|done]. cbn [mbind option_bind].
  destruct (bool_decide _); [done|]. intros [= <-]. by eapply fields_ok.
Qed.

Lemma body_ok path m b : resolve_body_schema spec path m = Some b -> Forall field_ok (body_fields b).
Proof.
  unfold resolve_body_schema. destruct (operation_at spec path m) as [op|]; [|done]. cbn [mbind option_bind].
  destruct (List.find is_body _) as [p|]; [|done]. cbn [mbind option_bind]. destruct (sp_schema p) as [r|]; [|done]. cbn [mbind option_bind].
  destruct (sr_ref_path r); [apply object_body_ok|]. destruct (bool_decide _); [|done]. destruct (sr_items r) as [i|]; [|done]. cbn [mbind option_bind].
  destruct (ir_ref_path i); [apply object_body_ok|]. destruct (ir_schema_type i) as [ty|]; [|done]. cbn [mbind option_bind].
  unfold scalar_array. destruct (scalar_type_from_swagger ty); try done; intros [= <-]; constructor.
Qed.

Lemma parsed_parameters_ok path m : Forall parameter_ok (get_operation_params spec path m).
Proof.
  unfold get_operation_params, operation_at. destruct (spec_paths spec !! path) as [item|] eqn:Ei; [|constructor]. cbn [mbind option_bind].
  destruct (item !! to_lowercase m) as [op|] eqn:Eo; [|constructor]. pose proof (parameters_ok spec Hspec _ _ _ _ Ei Eo) as Hp.
  apply Forall_forall. intros q (p & Hin & Hq)%list_elem_of_omap. apply list_elem_of_In, List.filter_In in Hin as [Hin%list_elem_of_In _].
  rewrite Forall_forall in Hp. specialize (Hp p Hin). unfold parse_parameter in Hq. opened Hq. done.
Qed.

Lemma live_ok p : p ∈ spec_operations spec -> operation_ok (po_schema p).
Proof.
  intros (path & name & op & _ & _ & Hp)%spec_operations_elem. unfold parse_operation in Hp.
  destruct (so_x_operation_id op ≫= non_empty) as [id|]; [|done]. cbn [mbind option_bind] in Hp.
  destruct (split_char "/" id) as [|? [|sc [|r [|version [|m [|]]]]]]; try done. destruct (String.eqb r "internal"); [done|].
  destruct (parse_api_version version) as [v|] eqn:Ev; [|done]. cbn [mbind option_bind] in Hp.
  destruct (parse_http_method _) as [hm|]; [|done]. apply (inj Some) in Hp as <-. split; simpl.
  - apply parse_unsigned_range in Ev; [|done]. unfold u32_max, in_u32 in *. lia.
  - apply parsed_parameters_ok.
  - intros b. destruct (existsb is_body _); [|done]. apply body_ok.
Qed.

Lemma held_ok k op : held (gathered spec) k = Some op -> operation_ok op.
Proof.
  unfold gathered. rewrite held_all. unfold held at 1. rewrite lookup_empty. cbn [mbind option_bind].
  intros (p & Hf & ->)%fmap_Some. apply List.find_some in Hf as [Hin%list_elem_of_In _]. by apply live_ok.
Qed.

(** What the parser makes of a document can be written. *)
Lemma parsed_ok service : service_ok (parse_spec service spec).
Proof.
  apply Forall_forall. intros r (rn & ms & Hg & ->)%service_resources. apply Forall_forall.
  intros m (name & ss & Hss & ->)%resource_methods%(group_methods_elem _ _ _ _ Hg). apply Forall_forall.
  intros e (s & versions & Hs & ->)%method_scopes.
  assert (Hc : Forall operation_ok (contracts (scope_entry s versions))).
  { apply Forall_forall. intros c [v Hv]%scope_contracts. apply (held_ok (rn, name, s, v)). unfold held, gathered in *. simpl.
    rewrite Hss. cbn [mbind option_bind]. by rewrite Hs. }
  split; [|exact Hc]. change (in_u32 (max_version (contracts (scope_entry s versions)))). destruct (contracts (scope_entry s versions)) as [|c l] eqn:Ec; [done|].
  destruct (max_version_spec (c :: l)) as [(c' & Hin & <-) _]; [done|]. rewrite Forall_forall in Hc. by apply ok_version, Hc.
Qed.
End parsed.

(** * Files of the cache *)

Section cache.
Context `{JsonText, Environment, Vault, UnicodeCase, Bundle} (json_error : string -> string).

Notation load_bundled_spec := (load_bundled_spec json_error).
Notation load_bundled := (load_bundled json_error).
Notation load_service := (load_service json_error).
Notation refresh_one := (refresh_one json_error).
Notation refresh_all := (refresh_all json_error).
Notation get_or_load := (get_or_load json_error).
Notation get_or_load_bundled := (get_or_load_bundled json_error).

(** The bundled documents: no default is a float, or nested too deeply to be written. *)
Class GoodBundle : Prop := {
  bundle_fits (O : HashOrder) service spec : load_bundled_spec service = Ok spec ->
    fits max_nesting (envelope_to_json CARGO_PKG_VERSION (@parse_spec O _ service spec)) = true
}.

Definition known (service : string) : Prop := internal_name service = Some service.

(** The texts that other processes may put at a path, whichever they are. *)
Variable foreign : string -> string -> Prop.

(** What they do between two steps of this process: each text is an old one or one of theirs. *)
Definition interference (before after : Vt) : Prop := forall q t,
  read_to_string q after = Ok t -> read_to_string q before = Ok t \/ foreign q t.

(** Files as the cache needs them. A write puts its text in place at once or leaves the file;
    while this process waits for the lock, others do as they like. *)
Class CacheFiles : Prop := {
  remove_keeps p v q t : read_to_string q (remove_file p v).2 = Ok t -> read_to_string q v = Ok t;
  create_same p v q : read_to_string q (create_dir_restricted p v).2 = read_to_string q v;
  write_reads p s v v' : write_file_restricted p s v = (Ok tt, v') -> read_to_string p v' = Ok s;
  write_atomic p s v t : read_to_string p (write_file_restricted p s v).2 = Ok t -> t = s \/ read_to_string p v = Ok t;
  write_same p s v q : q <> p -> read_to_string q (write_file_restricted p s v).2 = read_to_string q v;
  lock_waits p v : interference v (acquire_lock p v).2
}.

Context `{!GoodBundle, !CacheFiles}.

(** * The bundle *)

Lemma bundled_known service spec : load_bundled_spec service = Ok spec -> known service /\ exists w, spec_of_json w = Some spec.
Proof.
  unfold Repository.load_bundled_spec. destruct (List.find _ BUNDLED_SPECS) as [[n data]|] eqn:Ef; [|done]. simpl. intros Hd. split.
  - apply List.find_some in Ef as [Hin Hn%String.eqb_eq]. simpl in Hn. subst n.
    assert (Hall : Forall known (map fst BUNDLED_SPECS)) by (repeat constructor).
    rewrite Forall_forall in Hall. apply Hall, list_elem_of_In, in_map_iff. by exists (service, data).
  - unfold decompress_and_parse in Hd. destruct (gunzip data) as [text|]; [|done]. simpl in Hd.
    destruct (parse_json text) as [w|]; [|done]. simpl in Hd. destruct (spec_of_json w) as [spec'|] eqn:Ew; [|done]. simpl in Hd. exists w. congruence.
Qed.

Lemma read_envelope (O : HashOrder) service spec : load_bundled_spec service = Ok spec ->
  parse_json (envelope_text (@parse_spec O _ service spec)) ≫= envelope_of_json = Some (CARGO_PKG_VERSION, @parse_spec O _ service spec).
Proof.
  intros Hs. unfold envelope_text, parse_json. rewrite as_bytes_of_bytes, from_slice_to_vec by (by apply bundle_fits). cbn [mbind option_bind].
  destruct (bundled_known _ _ Hs) as [_ [w Hw]]. unfold envelope_of_json, envelope_to_json. simpl.
  pose proof (service_read _ (@parsed_ok O _ spec (spec_read_ok _ _ Hw) service)) as Hr.
  rewrite (req_at service_of_json _ _ _ _ _ Hr) by reflexivity. done.
Qed.

(** * Honest caches *)

(** What the bundled document of a service parses to, in some order of its hash maps. *)
Definition parsed (service : string) (schema : ServiceSchema) : Prop :=
  exists (O : HashOrder) spec, load_bundled_spec service = Ok spec /\ schema = @parse_spec O _ service spec.

(** What another process has left in the cache file of the service under this very version. *)
Definition planted (service : string) (schema : ServiceSchema) : Prop := exists path text,
  cache_path service = Ok path /\ foreign path text /\ parse_json text ≫= envelope_of_json = Some (CARGO_PKG_VERSION, schema).

(** A file that is read as the cache of this version holds what is parsed from the bundle. *)
Definition honest_text (service text : string) : Prop := forall schema,
  parse_json text ≫= envelope_of_json = Some (CARGO_PKG_VERSION, schema) -> parsed service schema.

Definition honest (v : Vt) : Prop := forall service path text,
  known service -> cache_path service = Ok path -> read_to_string path v = Ok text -> honest_text service text \/ foreign path text.

#[local] Arguments String.append !_ _ /.

Lemma append_append (a b c : string) : (a +:+ b) +:+ c = a +:+ b +:+ c.
Proof. induction a as [|d a IH]; [done|]. simpl. by rewrite IH. Qed.

Lemma append_suffix a b s : a +:+ s = b +:+ s -> a = b.
Proof.
  intros He. assert (Hl : String.length a = String.length b). { apply (f_equal String.length) in He. rewrite !length_app_str in He. lia. }
  revert b He Hl. induction a as [|c a IH]; intros [|d b] He Hl; simpl in *; try done. injection He as -> He. f_equal. apply IH; [done|lia].
Qed.

Lemma known_plain service : known service -> exists c r, service = String c r /\ c <> "/"%char.
Proof.
  intros Hk. unfold known, internal_name in Hk. destruct (List.find _ SERVICES) as [e|] eqn:Ef; [|done]. apply List.find_some in Ef as [Hin _].
  simpl in Hk. apply (inj Some) in Hk as <-.
  assert (Hall : forallb (fun e => match sm_internal e with String c _ => negb (Ascii.eqb c "/") | EmptyString => false end) SERVICES = true) by reflexivity.
  rewrite forallb_forall in Hall. specialize (Hall e Hin). destruct (sm_internal e) as [|c r]; [done|]. exists c, r. split; [done|].
  intros ->. by rewrite Ascii.eqb_refl in Hall.
Qed.

Lemma internal_known service id : internal_name service = Some id -> known id.
Proof.
  unfold known, internal_name at 1. destruct (List.find _ SERVICES) as [e|] eqn:Ef; [|done]. simpl. intros He. apply (inj Some) in He as <-.
  apply List.find_some in Ef as [Hin _].
  assert (Hall : forallb (fun e => bool_decide (internal_name (sm_internal e) = Some (sm_internal e))) SERVICES = true) by reflexivity.
  rewrite forallb_forall in Hall. by apply Hall, bool_decide_eq_true in Hin.
Qed.

Lemma cache_path_inj a b path : known a -> known b -> cache_path a = Ok path -> cache_path b = Ok path -> a = b.
Proof.
  intros (ca & ra & -> & Ha)%known_plain (cb & rb & -> & Hb)%known_plain. unfold cache_path. destruct cache_dir as [dir|]; [|done].
  simpl. assert (Hj : exists before, forall c r, c <> "/"%char -> path_join dir (String c r) = before +:+ String c r).
  { exists (if String.eqb dir EmptyString then EmptyString else if ends_with "/" dir then dir else dir +:+ "/"). intros c r Hc. unfold path_join.
    assert (Hs : starts_with "/" (String c r) = false) by (cbn [starts_with]; rewrite (proj2 (Ascii.eqb_neq "/"%char c)); [done|congruence]).
    rewrite Hs. cbn [orb]. destruct (String.eqb dir EmptyString); [done|]. destruct (ends_with "/" dir); [done|]. by rewrite append_append. }
  destruct Hj as [before Hj]. intros He1 He2.
  assert (He : path_join dir (String ca (ra +:+ ".json")) = path_join dir (String cb (rb +:+ ".json"))) by congruence.
  rewrite !Hj in He by done. apply (inj (String.append before)) in He. injection He as -> He. by apply append_suffix in He as ->.
Qed.

(** A state is honest when every text in it is an honest one or was in an honest state. *)
Lemma honest_from v v' : honest v ->
  (forall path text, read_to_string path v' = Ok text -> read_to_string path v = Ok text \/
     forall service, known service -> cache_path service = Ok path -> honest_text service text \/ foreign path text) -> honest v'.
Proof. intros Hv Hn service path text Hk Hp Ht. destruct (Hn _ _ Ht) as [Hold|Hnew]; [by eapply Hv|by apply Hnew]. Qed.

Lemma honest_interference v v' : honest v -> interference v v' -> honest v'.
Proof. intros Hv Hi. apply (honest_from v); [done|]. intros path text [Ht|Hf]%Hi; [by left|by right; right]. Qed.

Lemma own_text (O : HashOrder) service spec path other : load_bundled_spec service = Ok spec -> cache_path service = Ok path ->
  known other -> cache_path other = Ok path -> honest_text other (envelope_text (@parse_spec O _ service spec)).
Proof.
  intros Hs Hp Ho Hq schema. rewrite (read_envelope O service spec Hs). intros [= <-]. exists O, spec.
  destruct (bundled_known _ _ Hs) as [Hk _]. by rewrite (cache_path_inj other service path).
Qed.

Lemma honest_remove p v : honest v -> honest (remove_file p v).2.
Proof. intros Hv. apply (honest_from v); [done|]. intros path text Ht. left. by eapply remove_keeps. Qed.

Lemma honest_create p v : honest v -> honest (create_dir_restricted p v).2.
Proof. intros Hv. apply (honest_from v); [done|]. intros path text. rewrite create_same. by left. Qed.

Lemma honest_lock p v : honest v -> honest (acquire_lock p v).2.
Proof. intros Hv. by eapply honest_interference, lock_waits. Qed.

Lemma honest_write (O : HashOrder) service spec path v : load_bundled_spec service = Ok spec -> cache_path service = Ok path ->
  honest v -> honest (write_file_restricted path (envelope_text (@parse_spec O _ service spec)) v).2.
Proof.
  intros Hs Hp Hv. apply (honest_from v); [done|]. intros q text Ht. destruct (decide (q = path)) as [->|Hne].
  - apply write_atomic in Ht as [->|Ht]; [|by left]. right. intros other Hk Hq. left. by eapply own_text.
  - rewrite write_same in Ht by done. by left.
Qed.

(** * The operations keep it honest *)

Context `{HashOrder}.

(** What the catalogue may answer for a service. *)
Definition served (service : string) (schema : ServiceSchema) : Prop := parsed service schema \/ planted service schema.

Lemma bundle_served (O : HashOrder) service spec : load_bundled_spec service = Ok spec -> served service (@parse_spec O _ service spec).
Proof. intros Hs. left. by exists O, spec. Qed.

Lemma cache_read_honest service path v : known service -> cache_path service = Ok path -> honest v ->
  honest (load_from_cache path v).2 /\ (forall schema, (load_from_cache path v).1 = Ok (Some schema) -> served service schema).
Proof.
  intros Hk Hp Hv. unfold load_from_cache. destruct (read_to_string path v) as [text|e] eqn:Et; [|by destruct (read_error_kind path v)].
  destruct (parse_json text ≫= envelope_of_json) as [[version schema]|] eqn:Ee; [|by split; [apply honest_remove|]].
  destruct (String.eqb_spec version CARGO_PKG_VERSION) as [->|Hne]; [|by split; [apply honest_remove|]].
  split; [done|]. intros schema' Hq. assert (schema' = schema) as -> by (simpl in Hq; congruence).
  destruct (Hv service path text Hk Hp Et) as [Hh|Hf]; [by left; apply Hh|by right; exists path, text].
Qed.

Lemma cache_write_honest service spec path v : load_bundled_spec service = Ok spec -> cache_path service = Ok path -> honest v ->
  honest (write_to_cache path (parse_spec service spec) v).2.
Proof.
  intros Hs Hp Hv. unfold write_to_cache, mbind, store_bind, store_op. destruct (path_parent path) as [dir|].
  - pose proof (honest_create dir v Hv) as Hc. destruct (create_dir_restricted dir v) as [[[]|e] v']; [|done]. simpl in *.
    pose proof (honest_write _ service spec path v' Hs Hp Hc) as Hw. by destruct (write_file_restricted path _ v') as [[[]|e] v''].
  - simpl. pose proof (honest_write _ service spec path v Hs Hp Hv) as Hw. by destruct (write_file_restricted path _ v) as [[[]|e] v''].
Qed.

Lemma lock_cache_honest v : honest v -> honest (lock_cache v).2.
Proof.
  intros Hv. unfold lock_cache, mbind, store_bind, store_op, store_lift. destruct cache_lock_path as [lock|]; [|done].
  pose proof (honest_lock lock v Hv) as Hl. by destruct (acquire_lock lock v) as [[[]|e] v'].
Qed.

Lemma populate_honest service spec path v : load_bundled_spec service = Ok spec -> cache_path service = Ok path -> honest v ->
  honest (try_cache_parsed_schema path (parse_spec service spec) v).2 /\
  exists found, (try_cache_parsed_schema path (parse_spec service spec) v).1 = Ok found /\ (forall schema, found = Some schema -> served service schema).
Proof.
  intros Hs Hp Hv. unfold try_cache_parsed_schema. pose proof (lock_cache_honest v Hv) as Hl. destruct (lock_cache v) as [[[]|e] v1]; [|by split; [done|exists None]]. simpl in Hl.
  destruct (cache_read_honest service path v1) as [Hr Hc]; [by eapply bundled_known|done..|].
  destruct (load_from_cache path v1) as [[[schema|]|e] v2]; simpl in *.
  { split; [done|]. exists (Some schema). split; [done|]. intros schema' Hq. apply Hc. congruence. }
  all: split; [by apply cache_write_honest|by exists None].
Qed.

(** Loading answers with what the bundle parses to, and only fails for a reason. *)
Lemma load_honest service v : honest v -> honest (load_service service v).2 /\
  match (load_service service v).1 with
  | Ok (schema, _) => exists id, internal_name service = Some id /\ served id schema
  | Err e => known_service service = Err e \/ cache_dir = Err e \/ load_bundled_spec service = Err e \/
      exists id path text, internal_name service = Some id /\ cache_path id = Ok path /\ read_to_string path v = Err text /\
        read_error_kind path v = IoOther /\ e = internal_error ("Failed to read spec cache: " +:+ text)
  end.
Proof.
  intros Hv. unfold Repository.load_service, mbind, store_bind, store_lift. destruct (known_service service) as [id|e] eqn:Ek; [|by split; [done|left]].
  assert (Hid : internal_name service = Some id) by (unfold known_service in Ek; destruct (internal_name service); simpl in Ek; congruence).
  destruct (cache_path id) as [path|e] eqn:Ep.
  2: { split; [done|]. right. left. unfold cache_path in Ep. destruct cache_dir; simpl in Ep; congruence. }
  assert (Hk : known id) by by eapply internal_known.
  destruct (cache_read_honest id path v Hk Ep Hv) as [Hr Hc]. destruct (load_from_cache path v) as [[[schema|]|e] v1] eqn:Er; cbn [fst snd] in *.
  - split; [done|]. exists id. split; [done|by apply Hc].
  - destruct (load_bundled_spec service) as [spec|e] eqn:Es; [|by split; [done|right; right; left]].
    assert (id = service) as -> by (destruct (bundled_known _ _ Es); unfold known in *; congruence).
    destruct (populate_honest service spec path v1 Es Ep Hr) as (Hp & found & Hf & Hg).
    destruct (try_cache_parsed_schema path _ v1) as [r v2]. simpl in Hp, Hf. subst r. split; [done|]. destruct found as [schema|]; simpl; exists service; [split; [done|by apply Hg]|].
    split; [done|]. by apply bundle_served.
  - split; [done|]. do 3 right. unfold load_from_cache in Er. destruct (read_to_string path v) as [text|text] eqn:Et.
    + destruct (_ ≫= envelope_of_json) as [[version schema]|]; [|done]. by destruct (String.eqb version CARGO_PKG_VERSION).
    + exists id, path, text. destruct (read_error_kind path v); [done..|]. split_and!; [done..|congruence].
Qed.

(** * Refreshing *)

(** The cache file of a service holds what its bundled document parses to. *)
Definition fresh (v : Vt) (service : string) : Prop := exists spec path, load_bundled_spec service = Ok spec /\ cache_path service = Ok path /\
  read_to_string path v = Ok (envelope_text (parse_spec service spec)).

Lemma write_fresh path schema v v' : write_to_cache path schema v = (Ok tt, v') ->
  read_to_string path v' = Ok (envelope_text schema) /\ forall q, q <> path -> read_to_string q v' = read_to_string q v.
Proof.
  unfold write_to_cache, mbind, store_bind, store_op. destruct (path_parent path) as [dir|].
  - pose proof (create_same dir v) as Hc. destruct (create_dir_restricted dir v) as [[[]|e] v1]; [|done]. simpl in Hc. simpl.
    destruct (write_file_restricted path _ v1) as [[[]|e] v2] eqn:Ew; simpl; [|done]. intros [= <-]. split; [by eapply write_reads|].
    intros q Hq. pose proof (write_same path (envelope_text schema) v1 q Hq) as Hs. rewrite Ew in Hs. simpl in Hs. by rewrite Hs.
  - simpl. destruct (write_file_restricted path _ v) as [[[]|e] v2] eqn:Ew; simpl; [|done]. intros [= <-]. split; [by eapply write_reads|].
    intros q Hq. pose proof (write_same path (envelope_text schema) v q Hq) as Hs. by rewrite Ew in Hs.
Qed.

Lemma write_elsewhere path schema v q : q <> path -> read_to_string q (write_to_cache path schema v).2 = read_to_string q v.
Proof.
  intros Hq. unfold write_to_cache, mbind, store_bind, store_op. destruct (path_parent path) as [dir|].
  - pose proof (create_same dir v q) as Hc. destruct (create_dir_restricted dir v) as [[[]|e] v1]; [|done]. simpl in Hc. simpl.
    pose proof (write_same path (envelope_text schema) v1 q Hq) as Hs. destruct (write_file_restricted path _ v1) as [[[]|e] v2]; simpl in *; by rewrite Hs.
  - simpl. pose proof (write_same path (envelope_text schema) v q Hq) as Hs. by destruct (write_file_restricted path _ v) as [[[]|e] v2].
Qed.

(** What is fresh is loaded from the cache. *)
Lemma load_fresh v service : fresh v service -> exists schema, load_bundled service = Ok schema /\ load_service service v = (Ok (schema, FromCache), v).
Proof.
  intros (spec & path & Hs & Hp & Ht). exists (parse_spec service spec). split; [unfold Repository.load_bundled; by rewrite Hs|].
  unfold Repository.load_service, mbind, store_bind, store_lift, known_service. destruct (bundled_known _ _ Hs) as [Hk _]. unfold known in Hk.
  rewrite Hk. simpl. rewrite Hp. unfold load_from_cache. rewrite Ht, (read_envelope _ service spec Hs), String.eqb_refl. done.
Qed.

Lemma refresh_one_cases service v : 
  (exists spec path, load_bundled_spec service = Ok spec /\ cache_path service = Ok path /\
    refresh_one service v = (_ ← lock_cache; write_to_cache path (parse_spec service spec)) v) \/ (refresh_one service v).2 = v /\ exists e, (refresh_one service v).1 = Err e.
Proof.
  unfold Repository.refresh_one, mbind, store_bind, store_lift. destruct (load_bundled_spec service) as [spec|e] eqn:Es; [|by right; eauto].
  destruct (bundled_known _ _ Es) as [Hk _]. unfold known_service. unfold known in Hk. rewrite Hk. simpl.
  destruct (cache_path service) as [path|e] eqn:Ep; [|by right; eauto]. left. by exists spec, path.
Qed.

Lemma refresh_one_honest service v : honest v -> honest (refresh_one service v).2.
Proof.
  intros Hv. destruct (refresh_one_cases service v) as [(spec & path & Hs & Hp & ->)|[-> _]]; [|done].
  unfold mbind, store_bind. pose proof (lock_cache_honest v Hv) as Hl. destruct (lock_cache v) as [[[]|e] v1]; [|done]. by apply cache_write_honest.
Qed.

Lemma refresh_one_fresh service v v' : refresh_one service v = (Ok tt, v') -> fresh v' service.
Proof.
  intros Hr. destruct (refresh_one_cases service v) as [(spec & path & Hs & Hp & He)|[_ [e He]]]; [|by rewrite Hr in He].
  rewrite He in Hr. unfold mbind, store_bind in Hr. destruct (lock_cache v) as [[[]|e] v1]; [|done].
  exists spec, path. split_and!; [done..|]. by eapply write_fresh.
Qed.

Lemma rebuild_cases service v :
  (exists spec path, load_bundled_spec service = Ok spec /\ cache_path service = Ok path /\
    rebuild_one_inner json_error service v = write_to_cache path (parse_spec service spec) v) \/
  (rebuild_one_inner json_error service v).2 = v /\ exists e, (rebuild_one_inner json_error service v).1 = Err e.
Proof.
  unfold rebuild_one_inner, mbind, store_bind, store_lift. destruct (known_service service) as [id|e] eqn:Ek; [|by right; eauto].
  destruct (cache_path id) as [path|e] eqn:Ep; [|by right; eauto]. destruct (load_bundled_spec service) as [spec|e] eqn:Es; [|by right; eauto].
  left. exists spec, path. split_and!; [done| |done]. destruct (bundled_known _ _ Es) as [Hk _]. unfold known_service, known in *. rewrite Hk in Ek. simpl in Ek. congruence.
Qed.

Lemma rebuild_each_spec services : NoDup services -> forall r v, let '(r', v') := rebuild_each json_error services r v in
  exists done bad, succeeded r' = succeeded r ++ done /\ failed r' = failed r ++ bad /\ cache_clear_error r' = cache_clear_error r /\
    done ++ bad.*1 ≡ₚ services /\ (forall s, s ∈ done -> fresh v' s) /\ (forall s, s ∉ services -> fresh v s -> fresh v' s) /\ (honest v -> honest v').
Proof.
  induction 1 as [|service services Hnew _ IH]; intros r v; cbn [rebuild_each].
  { exists [], []. rewrite !app_nil_r. split_and!; try done. intros s. by rewrite elem_of_nil. }
  assert (Hother : forall s, s <> service -> fresh v s -> fresh (rebuild_one_inner json_error service v).2 s).
  { intros s Hs (spec & path & Hsp & Hp & Ht). exists spec, path. split_and!; [done..|].
    destruct (rebuild_cases service v) as [(spec' & path' & Hsp' & Hp' & ->)|[-> _]]; [|done]. rewrite write_elsewhere; [done|].
    intros ->. apply Hs. apply (cache_path_inj s service path'); [by eapply bundled_known..|done|done]. }
  assert (Hh : honest v -> honest (rebuild_one_inner json_error service v).2).
  { intros Hv. destruct (rebuild_cases service v) as [(spec' & path' & Hsp' & Hp' & ->)|[-> _]]; [|done]. by apply cache_write_honest. }
  destruct (rebuild_one_inner json_error service v) as [[[]|e] v1] eqn:Er; cbn [fst snd] in *.
  - assert (Hf : fresh v1 service).
    { destruct (rebuild_cases service v) as [(spec & path & Hs & Hp & He)|[_ [e He]]]; [|by rewrite Er in He].
      rewrite Er in He. symmetry in He. exists spec, path. split_and!; [done..|]. by eapply write_fresh. }
    specialize (IH (mk_report (succeeded r ++ [service]) (failed r) (cache_clear_error r)) v1). destruct (rebuild_each _ services _ v1) as [r' v'].
    destruct IH as (ok & bad & Hok & Hbad & Hc & Hp & Hfr & Hkeep & Hhon). exists (service :: ok), bad. simpl in *.
    rewrite <- app_assoc in Hok. split_and!; [done..|by f_equiv| | |by auto].
    + intros s [->|Hs]%elem_of_cons; [by apply Hkeep|by apply Hfr].
    + intros s [Hs1 Hs2]%not_elem_of_cons Hs. apply Hkeep; [done|by apply Hother].
  - specialize (IH (mk_report (succeeded r) (failed r ++ [(service, e)]) (cache_clear_error r)) v1). destruct (rebuild_each _ services _ v1) as [r' v'].
    destruct IH as (ok & bad & Hok & Hbad & Hc & Hp & Hfr & Hkeep & Hhon). exists ok, ((service, e) :: bad). simpl in *.
    rewrite <- app_assoc in Hbad. split_and!; [done..| |done| |by auto].
    + by rewrite <- Permutation_middle, Hp.
    + intros s [Hs1 Hs2]%not_elem_of_cons Hs. apply Hkeep; [done|by apply Hother].
Qed.

Lemma clear_entries_honest dir entries : forall v, honest v -> honest (clear_entries dir entries v).2.
Proof.
  induction entries as [|[name|e] entries IH]; intros v Hv; [done| |done]. cbn [clear_entries].
  unfold mbind, store_bind, store_ask, store_op. simpl. destruct (is_file _ v && has_json_extension name).
  - pose proof (honest_remove (path_join dir name) v Hv) as Hr. destruct (remove_file _ v) as [[[]|e] v1]; [|done]. by apply IH.
  - by apply IH.
Qed.

Lemma clear_cache_honest v : honest v -> honest (clear_definition_cache v).2.
Proof.
  intros Hv. unfold clear_definition_cache, mbind, store_bind, store_lift, store_ask, store_op. destruct cache_dir as [dir|]; [|done].
  destruct (file_exists dir v); [|done]. simpl. destruct (read_entries dir v) as [es|]; [|done]. simpl. by apply clear_entries_honest.
Qed.

Lemma refresh_all_spec v : let '(r, v') := refresh_all v in
  (honest v -> honest v') /\
  (cache_clear_error r = None -> succeeded r ++ (failed r).*1 ≡ₚ map fst BUNDLED_SPECS /\ forall s, s ∈ succeeded r -> fresh v' s) /\
  (forall e, cache_clear_error r = Some e -> succeeded r = [] /\ failed r = []).
Proof.
  unfold Repository.refresh_all. pose proof (lock_cache_honest v) as Hl. destruct (lock_cache v) as [[[]|e] v1]; [|by split_and!].
  pose proof (clear_cache_honest v1) as Hc. destruct (clear_definition_cache v1) as [[[]|e] v2]; [|split_and!; [by auto|done|done]].
  pose proof (rebuild_each_spec (map fst BUNDLED_SPECS)) as Hr. 
  assert (Hnd : NoDup (map fst BUNDLED_SPECS)) by (apply (bool_decide_unpack (NoDup _)); by vm_compute).
  specialize (Hr Hnd (mk_report [] [] None) v2). destruct (rebuild_each _ _ _ v2) as [r v3]. destruct Hr as (ok & bad & Hok & Hbad & Hce & Hp & Hf & _ & Hh).
  simpl in *. split_and!; [by auto| |].
  - intros _. rewrite Hok, Hbad. split; done.
  - intros e. by rewrite Hce.
Qed.

(** * The catalogue *)

(** Calls of the facade ([catalogue/mod.rs], [Catalogue]). *)
Inductive CatalogueCall : Type :=
| GetOrLoad (service : string) | GetOrLoadBundled (service : string) | LoadUncached (service : string) | LoadBundled (service : string)
| Refresh (service : string) | RefreshAll.

(** The answer, when it is a schema or the failure to give one. *)
Definition catalogue_call (c : CatalogueCall) (memory : gmap string ServiceSchema) (v : Vt)
  : option (string * result ServiceSchema RuntimeError) * gmap string ServiceSchema * Vt :=
  match c with
  | GetOrLoad s => let '(r, memory, v) := get_or_load s memory v in (Some (s, r), memory, v)
  | GetOrLoadBundled s => let '(r, memory) := get_or_load_bundled s memory in (Some (s, r), memory, v)
  | LoadUncached s => let '(r, v) := load_service s v in (Some (s, let? x := r in Ok x.1), memory, v)
  | LoadBundled s => (Some (s, load_bundled s), memory, v)
  | Refresh s => (None, memory, (refresh_one s v).2)
  | RefreshAll => (None, memory, (refresh_all v).2)
  end.

(** Calls one after another; before each of them the files may have been changed by others. *)
Fixpoint catalogue_calls (cs : list ((Vt -> Vt) * CatalogueCall)) (memory : gmap string ServiceSchema) (v : Vt) : list (string * result ServiceSchema RuntimeError) :=
  match cs with
  | [] => []
  | (others, c) :: cs => let '(answer, memory, v) := catalogue_call c memory (others v) in option_list answer ++ catalogue_calls cs memory v
  end.

(** The bundle's schema of the service that the name stands for, or one that others have left
    in its cache, or one of the four reasons to have none. *)
Definition allowed (a : string * result ServiceSchema RuntimeError) : Prop :=
  match a.2 with
  | Ok schema => exists id, internal_name a.1 = Some id /\ served id schema
  | Err e => known_service a.1 = Err e \/ cache_dir = Err e \/ load_bundled_spec a.1 = Err e \/ exists text, e = internal_error ("Failed to read spec cache: " +:+ text)
  end.

Definition memory_honest (memory : gmap string ServiceSchema) : Prop :=
  forall service schema, memory !! service = Some schema -> allowed (service, Ok schema).

Lemma load_allowed service v : honest v -> honest (load_service service v).2 /\ allowed (service, let? x := (load_service service v).1 in Ok x.1).
Proof.
  intros Hv. destruct (load_honest service v Hv) as [Hh Hl]. split; [done|]. unfold allowed. simpl.
  destruct (load_service service v).1 as [[schema source]|e]; [done|].
  destruct Hl as [Hl|[Hl|[Hl|(id & path & text & _ & _ & _ & _ & ->)]]]; [by left|by right; left|by right; right; left|].
  do 3 right. by exists text.
Qed.

Lemma bundled_allowed service : allowed (service, load_bundled service).
Proof.
  unfold allowed, Repository.load_bundled. simpl. destruct (load_bundled_spec service) as [spec|e] eqn:Es; simpl; [|by right; right; left].
  destruct (bundled_known _ _ Es) as [Hk _]. exists service. split; [done|]. by apply bundle_served.
Qed.

Lemma memory_insert memory service schema : memory_honest memory -> allowed (service, Ok schema) -> memory_honest (<[service := schema]> memory).
Proof.
  intros Hm Ha s x. destruct (decide (s = service)) as [->|Hne]; [|rewrite lookup_insert_ne by done; apply Hm].
  rewrite lookup_insert_eq. intros Hx. apply (inj Some) in Hx as <-. done.
Qed.

Lemma catalogue_call_honest c memory v : memory_honest memory -> honest v -> let '(answer, memory', v') := catalogue_call c memory v in
  memory_honest memory' /\ honest v' /\ forall a, answer = Some a -> allowed a.
Proof.
  intros Hm Hv. destruct c as [s|s|s|s|s|]; unfold catalogue_call.
  - unfold Repository.get_or_load. destruct (memory !! s) as [schema|] eqn:Es; [split_and!; [done..|intros a [= <-]; by apply Hm]|].
    destruct (load_allowed s v Hv) as [Hh Ha]. destruct (load_service s v) as [[[schema source]|e] v']; cbn [fst snd] in *;
      (split_and!; [by auto using memory_insert|done|intros a Hx; apply (inj Some) in Hx as <-; exact Ha]).
  - unfold Repository.get_or_load_bundled. destruct (memory !! s) as [schema|] eqn:Es; [split_and!; [done..|intros a [= <-]; by apply Hm]|].
    pose proof (bundled_allowed s) as Ha. destruct (load_bundled s) as [schema|e];
      (split_and!; [by auto using memory_insert|done|intros a Hx; apply (inj Some) in Hx as <-; exact Ha]).
  - destruct (load_allowed s v Hv) as [Hh Ha]. destruct (load_service s v) as [r v']. split_and!; [done..|]. intros a Hx. apply (inj Some) in Hx as <-. exact Ha.
  - split_and!; [done..|]. intros a Hx. apply (inj Some) in Hx as <-. apply bundled_allowed.
  - split_and!; [done|by apply refresh_one_honest|done].
  - split_and!; [done| |done]. pose proof (refresh_all_spec v) as Hr. destruct (refresh_all v) as [r v']. by apply Hr.
Qed.

(** [C13] What the catalogue says: whatever is called, one after another and while other
    processes do what they like to the files of the cache, every schema that is answered is the
    one the bundled document of the service parses to, or one that another process has put into
    the cache file of this very service marked with the version of this program — the version is
    all that the cache asks for —; and a failure is that the service is unknown, that there is no
    cache directory, that the bundled document cannot be read, or that the cache file cannot be
    read. *)
Theorem catalogue_serves_bundle cs v : honest v -> Forall (fun oc => forall v, interference v (oc.1 v)) cs -> Forall allowed (catalogue_calls cs ∅ v).
Proof.
  assert (Hm : memory_honest ∅) by (intros s x; by rewrite lookup_empty). revert Hm. generalize (∅ : gmap string ServiceSchema) as memory. revert v.
  induction cs as [|[others c] cs IH]; intros v memory Hm Hv Hi; [constructor|]. apply Forall_cons in Hi as [Ho Hi]. cbn [catalogue_calls].
  pose proof (catalogue_call_honest c memory (others v) Hm (honest_interference _ _ Hv (Ho v))) as Hc.
  destruct (catalogue_call c memory (others v)) as [[answer memory'] v']. destruct Hc as (Hm' & Hv' & Ha). apply Forall_app. split; [|by apply IH].
  destruct answer as [a|]; [|constructor]. repeat constructor. by apply Ha.
Qed.

(** A refresh repairs the cache whatever was in it: the report names every bundled service
    once, as done or as failed, and each one that is done is loaded from the cache as its
    document parses, without touching the disk. *)
Theorem refresh_all_repairs v r v' : refresh_all v = (r, v') -> cache_clear_error r = None ->
  succeeded r ++ (failed r).*1 ≡ₚ map fst BUNDLED_SPECS /\
  forall service, service ∈ succeeded r -> exists schema, load_bundled service = Ok schema /\ load_service service v' = (Ok (schema, FromCache), v').
Proof.
  intros Hr Hc. pose proof (refresh_all_spec v) as Hs. rewrite Hr in Hs. destruct Hs as (_ & Hn & _). destruct (Hn Hc) as [Hp Hf].
  split; [exact Hp|]. intros service Hin. by apply load_fresh, Hf.
Qed.
End cache.

(** * An example *)

Section example.
#[local] Instance repo_json : JsonText := bits_json_text.
#[local] Instance repo_case : UnicodeCase := ascii_case.
#[local] Instance repo_vault : Vault := disk_vault Healthy.
#[local] Instance repo_order : HashOrder := {| walk K _ _ A m := map_to_list m; walk_perm K _ _ A m := reflexivity _ |}.
#[local] Instance repo_env : Environment := {|
  env_var name := if String.eqb name ENV_HOME then Some "/ags" else None;
  dirs_config_dir := None; dirs_home_dir := None; dirs_cache_dir := None; app_path := "ags" |}.

Definition records_document : value := Object [("swagger", Str "2.0"); ("paths", Object [("/records", Object [("get", Object
  [("summary", Str "List records"); ("x-operationId", Str "cloudsave/admin/records/v1/list")])])])].

(** Only one document can be read. *)
#[local] Instance repo_bundle : Bundle := {|
  spec_bytes service := if String.eqb service "cloudsave" then to_vec records_document else [];
  gunzip b := match b with [] => Err "unexpected end of file" | _ => Ok (of_bytes b) end |}.

Definition parse_error (text : string) : string := "expected value".

Lemma records_only service spec : load_bundled_spec parse_error service = Ok spec ->
  service = "cloudsave" /\ Ok spec = load_bundled_spec parse_error "cloudsave".
Proof.
  intros Hs. destruct (String.eqb_spec service "cloudsave") as [->|Hne]; [by rewrite Hs|].
  exfalso. unfold load_bundled_spec in Hs. destruct (List.find _ BUNDLED_SPECS) as [[n data]|] eqn:Ef; [|done].
  apply List.find_some in Ef as [Hin Hn%String.eqb_eq]. simpl in Hn. subst n. apply in_map_iff in Hin as (n & [= -> <-] & _). simpl in Hs.
  rewrite (proj2 (String.eqb_neq service "cloudsave") Hne) in Hs. done.
Qed.

Definition records_spec : SwaggerSpec :=
  Eval vm_compute in match load_bundled_spec parse_error "cloudsave" with Ok spec => spec | Err _ => mk_spec "" (mk_info "" "") ∅ ∅ end.

Lemma records_loaded : load_bundled_spec parse_error "cloudsave" = Ok records_spec.
Proof. by vm_compute. Qed.

Lemma records_distinct : distinct_contracts records_spec.
Proof.
  intros path1 name1 op1 path2 name2 op2 k H1 H2 Hk1 Hk2.
  pose proof (contract_listed _ _ _ _ _ H1 Hk1) as L1. pose proof (contract_listed _ _ _ _ _ H2 Hk2) as L2.
  assert (Hc : contracts_by_path records_spec = [("/records", "get", Some ("records", "list", "admin", 1))]) by by vm_compute.
  rewrite Hc in L1, L2. apply list_elem_of_singleton in L1, L2. split; congruence.
Qed.

#[local] Instance repo_good : GoodBundle parse_error.
Proof.
  split. intros O service spec [-> Hs]%records_only. rewrite records_loaded in Hs. injection Hs as ->.
  rewrite (parse_order O repo_order "cloudsave" records_spec records_distinct). by vm_compute.
Qed.

(** Another program of the same version leaves an empty catalogue in the cache. *)
Definition empty_catalogue : string := envelope_text (mk_service "cloudsave" EmptyString []).
Definition leaves_empty (path text : string) : Prop := path = "/ags/cache/cloudsave.json" /\ text = empty_catalogue.
Definition leave_empty (d : Disk) : Disk := mk_disk (passwords d) (<["/ags/cache/cloudsave.json" := empty_catalogue]> (files d)) (dirs d).

#[local] Instance repo_files : CacheFiles leaves_empty.
Proof.
  split; simpl.
  - intros p v q t. destruct (decide (q = p)) as [->|Hne]; [by rewrite lookup_delete_eq|by rewrite lookup_delete_ne].
  - done.
  - intros p s v v' [= <-]. simpl. by rewrite lookup_insert_eq.
  - intros p s v t. rewrite lookup_insert_eq. intros [= <-]. by left.
  - intros p s v q Hne. by rewrite lookup_insert_ne.
  - by left.
Qed.

(** Three times from the disk, then from memory; between them the other program is at work and
    everything is refreshed. *)
Lemma catalogue_serves_bundle_witness :
  let cs := [(id, LoadUncached "cloudsave"); (leave_empty, LoadUncached "cloudsave"); (id, RefreshAll); (id, LoadUncached "cloud-save");
             (id, GetOrLoad "cloudsave"); (leave_empty, GetOrLoad "cloudsave"); (id, GetOrLoad "iam"); (id, GetOrLoad "nothing")] in
  honest parse_error leaves_empty empty_disk /\ Forall (fun oc => forall v, interference leaves_empty v (oc.1 v)) cs /\
  Forall (allowed parse_error leaves_empty) (catalogue_calls parse_error cs ∅ empty_disk) /\
  map (fun a => (a.1, match a.2 with Ok schema => map resource_name (resources schema) | Err e => [message e] end)) (catalogue_calls parse_error cs ∅ empty_disk) =
    [("cloudsave", ["records"]); ("cloudsave", []); ("cloud-save", ["records"]); ("cloudsave", ["records"]); ("cloudsave", ["records"]);
     ("iam", ["Failed to decompress spec: unexpected end of file"]); ("nothing", ["Unknown service in manifest: 'nothing'"])].
Proof.
  intros cs. assert (Hh : honest parse_error leaves_empty empty_disk) by (intros service path text _ _; simpl; rewrite lookup_empty; discriminate).
  assert (Hid : forall v, interference leaves_empty v (id v)) by (intros v q t Ht; left; exact Ht).
  assert (Hl : forall v, interference leaves_empty v (leave_empty v)).
  { intros v q t. simpl. destruct (decide (q = "/ags/cache/cloudsave.json")) as [->|Hne].
    - rewrite lookup_insert_eq. intros Ht. right. split; [reflexivity|]. injection Ht as <-. reflexivity.
    - rewrite lookup_insert_ne by (intros He; exact (Hne (eq_sym He))). intros Ht. left. exact Ht. }
  assert (Hi : Forall (fun oc => forall v, interference leaves_empty v (oc.1 v)) cs) by (repeat (apply Forall_cons_2; [first [exact Hid|exact Hl]|]); apply Forall_nil_2).
  split; [exact Hh|]. split; [exact Hi|]. split; [exact (catalogue_serves_bundle parse_error leaves_empty cs empty_disk Hh Hi)|]. by vm_compute.
Defined.

(** The document is cached under the internal name, but only looked up under the name given:
    the display name works only once the cache has been filled. *)
Example display_name_needs_cache : let first := load_service parse_error "cloudsave" empty_disk in
  (match (load_service parse_error "cloud-save" empty_disk).1 with Err e => message e | Ok _ => EmptyString end) = "No bundled spec for service 'cloud-save'" /\
  (match (load_service parse_error "cloud-save" first.2).1 with Ok (schema, FromCache) => service_name schema | _ => EmptyString end) = "cloudsave".
Proof. by vm_compute. Qed.

(** A damaged file. *)
Definition damaged_disk : Disk := mk_disk ∅ {[ "/ags/cache/cloudsave.json" := "{" ]} {[ "/ags"; "/ags/cache" ]}.

Lemma refresh_all_repairs_witness :
  let done := refresh_all parse_error damaged_disk in
  (map fst (failed done.1), succeeded done.1) = (filter (fun s => s <> "cloudsave") (map fst BUNDLED_SPECS), ["cloudsave"]) /\
  exists schema, load_bundled parse_error "cloudsave" = Ok schema /\ load_service parse_error "cloudsave" done.2 = (Ok (schema, FromCache), done.2).
Proof.
  intros done. assert (Hr : (map fst (failed done.1), succeeded done.1) = (filter (fun s => s <> "cloudsave") (map fst BUNDLED_SPECS), ["cloudsave"]))
    by by vm_compute.
  split; [exact Hr|]. assert (Hs : succeeded done.1 = ["cloudsave"]) by exact (f_equal snd Hr).
  assert (Hc : cache_clear_error done.1 = None) by by vm_compute.
  destruct (@refresh_all_repairs _ _ repo_vault _ _ parse_error leaves_empty repo_good repo_files _ damaged_disk done.1 done.2 (surjective_pairing _) Hc) as [_ Hf].
  apply Hf. rewrite Hs. apply list_elem_of_here.
Defined.
End example.
