(* ===== verification/TokenStore.v ===== *)
(** Credential storage ([auth/store.rs]): the client secret and the tokens of a profile, in
    the OS keychain first and in a file otherwise; what is read after a token was stored or
    deleted, whatever the keychain does; the [Tokens.TokenStorage] of the sessions. *)

From stdpp Require Import base gmap strings list sorting.
From Stdlib Require Import ZArith Lia Ascii Strings.Byte.
From S2P Require Import Prelude Text Kebab Nouns Json Catalogue Sanitise Results Workflow Request Http Pagination Tokens Vault Config.

#[local] Arguments String.append !_ _ /.

Definition KEYRING_USER : string := "client-secret".
Definition KEYRING_TOKEN_USER : string := "token-data".
Definition WINDOWS_CREDMAN_PASSWORD_LIMIT_BYTES : nat := 2560.

(** The code units of [encode_utf16]: two for a character of four bytes. *)
Fixpoint utf16_units (s : string) : nat :=
  match s with
  | EmptyString => 0
  | String c r => (if is_continuation c then 0 else if Nat.leb 240 (nat_of_ascii c) then 2 else 1) + utf16_units r
  end.

Definition credman_blob_bytes (s : string) : nat := utf16_units s * 2.

Definition keyring_service (profile : string) : string := "ags:accelbyte.io:" +:+ profile.

(** * The JSON of a token *)

Definition token_to_json (t : TokenData) : value :=
  Object ([("access_token", Str (access_token t)); ("expires_at", int (expires_at t))] ++
          entry_some "refresh_token" Str (refresh_token t) ++ entry_some "refresh_expires_at" int (refresh_expires_at t) ++
          entry_some "grant_type" (fun g => Str (grant_name g)) (grant_type t) ++ entry_some "client_id" Str (client_id t)).

Definition token_of_json (v : value) : option TokenData :=
  f ← read_struct ["access_token"; "expires_at"; "refresh_token"; "refresh_expires_at"; "grant_type"; "client_id"] v;
  access ← req read_string f "access_token" 0;
  expires ← req read_u64 f "expires_at" 1;
  refresh ← opt read_string f "refresh_token" 2;
  refresh_expires ← opt read_u64 f "refresh_expires_at" 3;
  grant ← opt read_grant f "grant_type" 4;
  client ← opt read_string f "client_id" 5;
  Some (mk_token_data access expires refresh refresh_expires grant client).

Section store.
Context `{JsonText, Vault}.
Variable json_error : string -> string.
(** [is_keychain_disabled], [cfg!(windows)], [Config.profile_dir]. *)
Variable keychain_disabled : bool.
Variable windows : bool.
Variable profile_dir : string -> result string RuntimeError.

Definition exceeds_windows_credman_limit (json : string) : bool :=
  windows && Nat.ltb WINDOWS_CREDMAN_PASSWORD_LIMIT_BYTES (credman_blob_bytes json).

Definition file_op {A} (r : AuthResource) (op : StorageOperation) (m : Vt -> result A string * Vt) : Store A := fun v =>
  let '(x, v) := m v in (map_err (fun source => auth_error (FileOperationFailed r op source)) x, v).

(** Whether there is an entry to work with. *)
Definition keychain_entry_opt (profile user : string) : Store bool := fun v =>
  match entry_error (keyring_service profile) user v with
  | None => (Ok true, v)
  | Some e =>
      if is_keychain_init_unavailable e then (Ok false, v)
      else (Err (internal ("Failed to initialize OS keychain entry for '" +:+ user +:+ "' (profile '" +:+ profile +:+ "'): " +:+ keyring_text e)), v)
  end.

(** The entry, unless the keychain is disabled. *)
Definition keychain_in_use (profile user : string) : Store bool :=
  if keychain_disabled then mret false else keychain_entry_opt profile user.

Definition keychain_failed (r : AuthResource) (op : StorageOperation) (e : KeyringError) : RuntimeError :=
  auth_error (KeychainOperationFailed r op (keyring_text e)).

(** * The client secret *)

Definition secret_file_path (profile : string) : result string RuntimeError :=
  let? d := profile_dir profile in Ok (path_join d "credentials.json").

(** Write to a file of the profile directory, which is created. *)
Definition write_profile_file (r : AuthResource) (profile path text : string) : Store unit :=
  d ← store_lift (profile_dir profile);
  _ ← file_op r Write (create_dir_restricted d);
  file_op r Write (write_file_restricted path text).

(** Delete from the keychain, if there is an entry, and the file, if it exists. *)
Definition delete_keychain (r : AuthResource) (profile user : string) : Store unit := fun v =>
  match delete_credential (keyring_service profile) user v with
  | (Ok _, v) | (Err NoEntry, v) => (Ok tt, v)
  | (Err e, v) => if is_keychain_unavailable e then (Ok tt, v) else (Err (keychain_failed r DeleteOp e), v)
  end.

Definition delete_file (r : AuthResource) (path : string) : Store unit :=
  there ← store_ask (file_exists path);
  if (there : bool) then file_op r DeleteOp (remove_file path) else mret tt.

(** What a keychain read says: a password, a failure, or look elsewhere. *)
Definition read_keychain (r : AuthResource) (profile user : string) : Store (option string) := fun v =>
  match get_password (keyring_service profile) user v with
  | Ok s => (Ok (Some s), v)
  | Err NoEntry => (Ok None, v)
  | Err e => if is_keychain_unavailable e then (Ok None, v) else (Err (keychain_failed r Read e), v)
  end.

Definition read_file (r : AuthResource) (path : string) : Store (option string) :=
  there ← store_ask (file_exists path);
  if (there : bool) then s ← file_op r Read (fun v => (read_to_string path v, v)); mret (Some s) else mret None.

Definition store_secret (profile secret : string) : Store unit :=
  entry ← keychain_in_use profile KEYRING_USER;
  stored ← (if (entry : bool) then fun v =>
              match set_password (keyring_service profile) KEYRING_USER secret v with
              | (Ok _, v) => (Ok true, v)
              | (Err e, v) => if is_keychain_unavailable e then (Ok false, v) else (Err (keychain_failed ClientSecret Write e), v)
              end
            else mret false) : Store bool;
  if (stored : bool) then mret tt
  else path ← store_lift (secret_file_path profile); write_profile_file ClientSecret profile path secret.

Definition get_secret (profile : string) : Store (option string) :=
  entry ← keychain_in_use profile KEYRING_USER;
  found ← (if (entry : bool) then read_keychain ClientSecret profile KEYRING_USER else mret None) : Store (option string);
  match found with
  | Some s => mret (Some s)
  | None => path ← store_lift (secret_file_path profile); read_file ClientSecret path
  end.

Definition delete_secret (profile : string) : Store unit :=
  entry ← keychain_in_use profile KEYRING_USER;
  _ ← (if (entry : bool) then delete_keychain ClientSecret profile KEYRING_USER else mret tt) : Store unit;
  path ← store_lift (secret_file_path profile);
  delete_file ClientSecret path.

(** * Tokens *)

Definition token_file_path (profile : string) : result string RuntimeError :=
  let? d := profile_dir profile in Ok (path_join d "token.json").

(** [clear_keychain_token_entry]: best effort. *)
Definition clear_keychain_token_entry (profile : string) (v : Vt) : Vt :=
  if keychain_disabled then v
  else
    match entry_error (keyring_service profile) KEYRING_TOKEN_USER v with
    | None => (delete_credential (keyring_service profile) KEYRING_TOKEN_USER v).2
    | Some _ => v
    end.

Definition suppress : string := String (ascii_of_nat 10) "Set AGS_NO_KEYCHAIN=1 to skip keychain and suppress this warning.".

Definition limit_warning : string :=
  "Token exceeds the Windows Credential Manager limit (" +:+ show_int (Z.of_nat WINDOWS_CREDMAN_PASSWORD_LIMIT_BYTES) +:+
  " bytes); storing in file fallback." +:+ suppress.

(** Where the keychain leaves a token: [None] is stored, otherwise the warning of the
    fallback, if any. *)
Definition try_keychain (profile json : string) : Store (option (option string)) :=
  if exceeds_windows_credman_limit json then mret (Some (Some limit_warning))
  else if keychain_disabled then mret (Some None)
  else
    entry ← keychain_entry_opt profile KEYRING_TOKEN_USER;
    (if (entry : bool) then fun v =>
       match set_password (keyring_service profile) KEYRING_TOKEN_USER json v with
       | (Ok _, v) => (Ok None, v)
       | (Err e, v) =>
           (Ok (Some (if is_keychain_unavailable e then None
                      else Some ("OS keychain write failed, falling back to file storage: " +:+ keyring_text e +:+ suppress))), v)
       end
     else mret (Some (Some ("OS keychain unavailable, storing token in file fallback." +:+ suppress)))) : Store (option (option string)).

(** The text stored for a token. *)
Definition token_text (t : TokenData) : string := of_bytes (to_vec (token_to_json t)).

(** [store_token_data_unlocked]; the result is the warning of the outcome. *)
Definition store_token_data_unlocked (profile : string) (t : TokenData) : Store (option string) :=
  fallback ← try_keychain profile (token_text t);
  match fallback with
  | None => mret None
  | Some warning =>
      _ ← (fun v => (Ok tt, clear_keychain_token_entry profile v)) : Store unit;
      path ← store_lift (token_file_path profile);
      _ ← write_profile_file Token profile path (token_text t);
      mret warning
  end.

Definition parse_token (failed : string -> AuthError) (json : string) : result TokenData RuntimeError :=
  ok_or (v ← parse_json json; token_of_json v) (auth_error (failed (json_error json))).

Definition get_token_data (profile : string) : Store (option TokenData) :=
  entry ← keychain_in_use profile KEYRING_TOKEN_USER;
  found ← (if (entry : bool) then read_keychain Token profile KEYRING_TOKEN_USER else mret None) : Store (option string);
  match found with
  | Some json => t ← store_lift (parse_token KeychainTokenParseFailed json); mret (Some t)
  | None =>
      path ← store_lift (token_file_path profile);
      text ← read_file Token path;
      match text with
      | Some json => t ← store_lift (parse_token TokenFileParseFailed json); mret (Some t)
      | None => mret None
      end
  end.

Definition delete_token_data_unlocked (profile : string) : Store unit :=
  entry ← keychain_in_use profile KEYRING_TOKEN_USER;
  _ ← (if (entry : bool) then delete_keychain Token profile KEYRING_TOKEN_USER else mret tt) : Store unit;
  path ← store_lift (token_file_path profile);
  delete_file Token path.
End store.

(** * Token locks *)

(** The [URL_SAFE_NO_PAD] engine of [base64]. *)
Class Base64Url : Type := { b64_url : string -> string }.

Section locks.
Context `{JsonText, Vault, Environment, Base64Url}.

Definition token_lock_path (profile : string) : result string RuntimeError :=
  let? dir := (if is_keychain_disabled then let? d := config_dir in Ok (path_join d "locks") else shared_lock_dir) in
  Ok (path_join dir (b64_url profile +:+ ".token.lock")).

Definition lock_from_path (path : string) : Store unit := store_op internal (acquire_lock path).

Definition acquire_token_lock (profile : string) : Store unit := path ← store_lift (token_lock_path profile); lock_from_path path.

Definition with_token_lock {A} (profile : string) (m : Store A) : Store A := _ ← acquire_token_lock profile; m.

Fixpoint lock_paths (profiles : list string) : result (list string) RuntimeError :=
  match profiles with
  | [] => Ok []
  | p :: r => let? path := token_lock_path p in let? paths := lock_paths r in Ok (path :: paths)
  end.

(** [Vec::dedup]: equal neighbours are one. *)
Fixpoint dedup_sorted (l : list string) : list string :=
  match l with
  | a :: (b :: _) as r => if String.eqb a b then dedup_sorted r else a :: dedup_sorted r
  | _ => l
  end.

Definition lock_order (profiles : list string) : result (list string) RuntimeError :=
  let? paths := lock_paths profiles in Ok (dedup_sorted (merge_sort name_le paths)).

Fixpoint lock_each (paths : list string) : Store unit :=
  match paths with [] => mret tt | p :: r => _ ← lock_from_path p; lock_each r end.

Definition with_token_locks {A} (profiles : list string) (m : Store A) : Store A :=
  paths ← store_lift (lock_order profiles); _ ← lock_each paths; m.

(** [store_token_data] and [delete_token_data]. *)
Definition store_token_data (windows : bool) (dir : string -> result string RuntimeError) (profile : string) (t : TokenData) : Store (option string) :=
  with_token_lock profile (store_token_data_unlocked is_keychain_disabled windows dir profile t).
Definition delete_token_data (dir : string -> result string RuntimeError) (profile : string) : Store unit :=
  with_token_lock profile (delete_token_data_unlocked is_keychain_disabled dir profile).
End locks.

(** * Round trips *)

Lemma token_of_json_to_json t : token_wf t -> token_of_json (token_to_json t) = Some t.
Proof.
  intros [He Hr]. destruct t as [a e r re g c]; cbn [expires_at refresh_expires_at] in *.
  destruct r, re as [re|], g as [[]|], c; unfold token_of_json, token_to_json, entry_some, req, opt; simpl;
    rewrite (read_u64_ok e) by done; simpl; try done; by rewrite (read_u64_ok re) by (by apply Hr).
Qed.

Lemma parse_token_text `{JsonText} json_error failed t : token_wf t -> parse_token json_error failed (token_text t) = Ok t.
Proof.
  intros Ht. unfold parse_token, token_text, parse_json. rewrite as_bytes_of_bytes, from_slice_to_vec.
  - simpl. by rewrite token_of_json_to_json.
  - destruct Ht as [He Hr], t as [a e r re g c]; cbn [expires_at refresh_expires_at] in *. unfold in_u64 in *.
    destruct r, re as [re|], g, c; unfold token_to_json, entry_some, int; simpl; try specialize (Hr re eq_refl);
      repeat (apply andb_true_intro; split); lia || done.
Qed.

(** What is documented of the keychain and the files, for a profile's token: a password that is
    set is shown; an entry that is deleted, or was not there, is not; an entry opens or does not,
    whatever was done to it; files and directories do not touch the keychain; a file that is
    written is there with its text, and one that is removed is not. Every operation may fail,
    and a failed one may do anything else. *)
Class VaultLaws `{Vault} (profile dir : string) : Prop := {
  shown_once_set v p v' : set_password (keyring_service profile) KEYRING_TOKEN_USER p v = (Ok tt, v') ->
    get_password (keyring_service profile) KEYRING_TOKEN_USER v' = Ok p;
  gone_once_deleted v r v' : delete_credential (keyring_service profile) KEYRING_TOKEN_USER v = (r, v') -> r = Ok tt \/ r = Err NoEntry ->
    get_password (keyring_service profile) KEYRING_TOKEN_USER v' = Err NoEntry;
  opens_alike_set v p :
    entry_error (keyring_service profile) KEYRING_TOKEN_USER (set_password (keyring_service profile) KEYRING_TOKEN_USER p v).2 =
    entry_error (keyring_service profile) KEYRING_TOKEN_USER v;
  opens_alike_deleted v :
    entry_error (keyring_service profile) KEYRING_TOKEN_USER (delete_credential (keyring_service profile) KEYRING_TOKEN_USER v).2 =
    entry_error (keyring_service profile) KEYRING_TOKEN_USER v;
  dir_apart v : let v' := (create_dir_restricted dir v).2 in
    entry_error (keyring_service profile) KEYRING_TOKEN_USER v' = entry_error (keyring_service profile) KEYRING_TOKEN_USER v /\
    get_password (keyring_service profile) KEYRING_TOKEN_USER v' = get_password (keyring_service profile) KEYRING_TOKEN_USER v;
  file_apart v text : let v' := (write_file_restricted (path_join dir "token.json") text v).2 in
    entry_error (keyring_service profile) KEYRING_TOKEN_USER v' = entry_error (keyring_service profile) KEYRING_TOKEN_USER v /\
    get_password (keyring_service profile) KEYRING_TOKEN_USER v' = get_password (keyring_service profile) KEYRING_TOKEN_USER v;
  removal_apart v : let v' := (remove_file (path_join dir "token.json") v).2 in
    entry_error (keyring_service profile) KEYRING_TOKEN_USER v' = entry_error (keyring_service profile) KEYRING_TOKEN_USER v /\
    get_password (keyring_service profile) KEYRING_TOKEN_USER v' = get_password (keyring_service profile) KEYRING_TOKEN_USER v;
  written_file v text v' : write_file_restricted (path_join dir "token.json") text v = (Ok tt, v') ->
    file_exists (path_join dir "token.json") v' = true /\ read_to_string (path_join dir "token.json") v' = Ok text;
  removed_file v v' : remove_file (path_join dir "token.json") v = (Ok tt, v') -> file_exists (path_join dir "token.json") v' = false
}.

Section stored.
Context `{JsonText, Vault} (profile dir : string) `{!VaultLaws profile dir}.
Variable json_error : string -> string.
Variable disabled windows : bool.
Let where_ : string -> result string RuntimeError := fun _ => Ok dir.
Let service : string := keyring_service profile.

(** The entry fails to open otherwise than by the keychain being missing. *)
Definition opens_oddly (v : Vt) : Prop := exists e, entry_error service KEYRING_TOKEN_USER v = Some e /\ is_keychain_init_unavailable e = false.

(** It opens, and the keychain fails to delete it. *)
Definition refuses_to_forget (v : Vt) : Prop :=
  entry_error service KEYRING_TOKEN_USER v = None /\ exists e, (delete_credential service KEYRING_TOKEN_USER v).1 = Err e /\ e <> NoEntry.

(** A reading ends at the keychain, with the password that it shows or with an error. *)
Definition overshadowed (v : Vt) : Prop :=
  disabled = false /\
  (opens_oddly v \/
   entry_error service KEYRING_TOKEN_USER v = None /\
   match get_password service KEYRING_TOKEN_USER v with Ok _ => True | Err e => e <> NoEntry /\ is_keychain_unavailable e = false end).

Lemma read_from_file v : overshadowed v \/ get_token_data json_error disabled where_ profile v =
  (path ← store_lift (token_file_path where_ profile);
   text ← read_file Token path;
   match text with
   | Some json => t ← store_lift (parse_token json_error TokenFileParseFailed json); mret (Some t)
   | None => mret None
   end) v.
Proof.
  unfold overshadowed, opens_oddly, get_token_data, keychain_in_use, keychain_entry_opt, mbind, store_bind, mret, store_ret. fold service.
  destruct disabled; [by right|]. destruct (entry_error service KEYRING_TOKEN_USER v) as [e|].
  - destruct (is_keychain_init_unavailable e) eqn:Ei; [by right|left; split; [done|left; by exists e]].
  - unfold read_keychain. fold service. destruct (get_password service KEYRING_TOKEN_USER v) as [s|e]; [left; split; [done|by right]|].
    destruct e as [|e|e|e]; [by right|by right|left; split; [done|by right]|left; split; [done|by right]].
Qed.

(** What shows in the keychain is what showed before the file was written. *)
Lemma overshadowed_same v v' : entry_error service KEYRING_TOKEN_USER v' = entry_error service KEYRING_TOKEN_USER v /\
  get_password service KEYRING_TOKEN_USER v' = get_password service KEYRING_TOKEN_USER v -> overshadowed v' -> overshadowed v.
Proof. intros [He Hp]. unfold overshadowed, opens_oddly. by rewrite He, Hp. Qed.

(** After a deletion the keychain shows nothing, unless it was refused. *)
Lemma deleted_shows v r v' : delete_credential service KEYRING_TOKEN_USER v = (r, v') -> entry_error service KEYRING_TOKEN_USER v = None -> overshadowed v' ->
  exists e, r = Err e /\ e <> NoEntry.
Proof.
  intros Hd Hn [_ Ho]. pose proof (opens_alike_deleted v) as Ha. fold service in Ha. rewrite Hd in Ha. simpl in Ha. rewrite Hn in Ha.
  assert (Hshow : r = Ok tt \/ r = Err NoEntry -> False).
  { intros Hr. pose proof (gone_once_deleted v r v' Hd Hr) as Hg. fold service in Hg. destruct Ho as [(e & He & _)|[_ Ho]]; [congruence|].
    rewrite Hg in Ho. by destruct Ho. }
  destruct r as [[]|e]; [destruct Hshow; by left|]. exists e. split; [done|]. intros ->. apply Hshow. by right.
Qed.

Lemma cleared_shows v : overshadowed (clear_keychain_token_entry disabled profile v) -> opens_oddly v \/ refuses_to_forget v.
Proof.
  unfold clear_keychain_token_entry. fold service. intros Ho. pose proof Ho as [Hd _]. rewrite Hd in Ho.
  destruct (entry_error service KEYRING_TOKEN_USER v) as [e|] eqn:He.
  - left. destruct Ho as [_ [Ho|[Hn _]]]; [done|congruence].
  - right. split; [done|]. destruct (delete_credential service KEYRING_TOKEN_USER v) as [r v'] eqn:Hr. by apply (deleted_shows v r v').
Qed.

(** Writing the file: then it is what is read, unless the keychain is in front of it. *)
Lemma fallback_is_read v t : token_wf t ->
  match write_profile_file where_ Token profile (path_join dir "token.json") (token_text t) v with
  | (Ok _, v') => get_token_data json_error disabled where_ profile v' = (Ok (Some t), v') \/ overshadowed v' /\ overshadowed v
  | (Err _, _) => (exists e, (create_dir_restricted dir v).1 = Err e) \/ exists v1 e, (write_file_restricted (path_join dir "token.json") (token_text t) v1).1 = Err e
  end.
Proof.
  intros Ht. unfold write_profile_file, file_op, store_lift, mbind, store_bind. simpl. pose proof (dir_apart v) as Hd. fold service in Hd.
  destruct (create_dir_restricted dir v) as [[[]|e] v1]; simpl in *; [|left; by exists e]. pose proof (file_apart v1 (token_text t)) as Hf. fold service in Hf.
  destruct (write_file_restricted _ (token_text t) v1) as [[[]|e] v2] eqn:Hw; simpl in *; [|right; exists v1, e; by rewrite Hw].
  destruct (written_file _ _ _ Hw) as [Hex Hr]. destruct (read_from_file v2) as [Ho|Hget].
  - right. split; [done|]. by apply (overshadowed_same _ v1), (overshadowed_same _ v2).
  - left. rewrite Hget. unfold read_file, file_op, store_ask, store_lift, token_file_path, mbind, store_bind, mret, store_ret. simpl.
    rewrite Hex. simpl. rewrite Hr. simpl. by rewrite parse_token_text.
Qed.

(** What [try_keychain] does: the keychain has the token, or it has to go to the file. *)
Lemma try_keychain_spec v t : let '(r, v') := try_keychain disabled windows profile (token_text t) v in
  entry_error service KEYRING_TOKEN_USER v' = entry_error service KEYRING_TOKEN_USER v /\
  match r with
  | Ok None => disabled = false /\ entry_error service KEYRING_TOKEN_USER v' = None /\ get_password service KEYRING_TOKEN_USER v' = Ok (token_text t)
  | Ok (Some _) => True
  | Err _ => opens_oddly v
  end.
Proof.
  unfold try_keychain, keychain_entry_opt, opens_oddly, mbind, store_bind, mret, store_ret. fold service.
  destruct (exceeds_windows_credman_limit windows (token_text t)); [done|]. destruct disabled; [done|].
  destruct (entry_error service KEYRING_TOKEN_USER v) as [e|] eqn:He; [destruct (is_keychain_init_unavailable e) eqn:Ei; simpl; rewrite ?He; eauto|].
  pose proof (opens_alike_set v (token_text t)) as Ha. fold service in Ha. simpl.
  destruct (set_password service KEYRING_TOKEN_USER (token_text t) v) as [[[]|e] v'] eqn:Hs; simpl in *; rewrite Ha, He; [|done].
  split; [done|]. split; [done|]. split; [done|]. by apply (shown_once_set v (token_text t)).
Qed.

Lemma file_deleted v :
  match delete_file Token (path_join dir "token.json") v with
  | (Ok _, v') => get_token_data json_error disabled where_ profile v' = (Ok None, v') \/ overshadowed v' /\ overshadowed v
  | (Err _, _) => exists e, (remove_file (path_join dir "token.json") v).1 = Err e
  end.
Proof.
  assert (Hread : forall v', file_exists (path_join dir "token.json") v' = false -> overshadowed v' \/ get_token_data json_error disabled where_ profile v' = (Ok None, v')).
  { intros v' Hex. destruct (read_from_file v') as [Ho|Hget]; [by left|right]. rewrite Hget.
    unfold token_file_path, store_lift, read_file, store_ask, mbind, store_bind. simpl. by rewrite Hex. }
  unfold delete_file, store_ask, mbind, store_bind, file_op, mret, store_ret.
  destruct (file_exists (path_join dir "token.json") v) eqn:Hf; [|destruct (Hread v Hf); auto].
  pose proof (removal_apart v) as Ha. fold service in Ha. destruct (remove_file (path_join dir "token.json") v) as [[[]|e] v'] eqn:Hr; simpl in *; [|by exists e].
  destruct (Hread v' (removed_file v v' Hr)) as [Ho|Hg]; [right; split; [done|by apply (overshadowed_same _ v')]|by left].
Qed.

Lemma delete_spec v :
  match delete_token_data_unlocked disabled where_ profile v with
  | (Ok _, v') => get_token_data json_error disabled where_ profile v' = (Ok None, v') \/
      overshadowed v' /\ exists e, (delete_credential service KEYRING_TOKEN_USER v).1 = Err e /\ is_keychain_unavailable e = true
  | (Err _, _) => opens_oddly v \/
      (exists e, (delete_credential service KEYRING_TOKEN_USER v).1 = Err e /\ e <> NoEntry /\ is_keychain_unavailable e = false) \/
      exists v1 e, (remove_file (path_join dir "token.json") v1).1 = Err e
  end.
Proof.
  unfold delete_token_data_unlocked, keychain_in_use, keychain_entry_opt, token_file_path, store_lift, mbind, store_bind, mret, store_ret. fold service.
  assert (Hno : overshadowed v -> opens_oddly v \/ entry_error service KEYRING_TOKEN_USER v = None /\ disabled = false) by (intros [? [?|[? _]]]; auto).
  assert (Hskip : (overshadowed v -> False) -> match delete_file Token (path_join dir "token.json") v with
    | (Ok _, v') => get_token_data json_error disabled where_ profile v' = (Ok None, v') \/
        overshadowed v' /\ exists e, (delete_credential service KEYRING_TOKEN_USER v).1 = Err e /\ is_keychain_unavailable e = true
    | (Err _, _) => opens_oddly v \/
        (exists e, (delete_credential service KEYRING_TOKEN_USER v).1 = Err e /\ e <> NoEntry /\ is_keychain_unavailable e = false) \/
        exists v1 e, (remove_file (path_join dir "token.json") v1).1 = Err e
    end).
  { intros Hn. pose proof (file_deleted v) as Hf. destruct (delete_file _ _ v) as [[[]|e] v']; [|right; right; by exists v].
    destruct Hf as [Hf|[_ Hf]]; [by left|by destruct Hn]. }
  destruct disabled eqn:Hd; [apply Hskip; intros [? _]; congruence|].
  destruct (entry_error service KEYRING_TOKEN_USER v) as [e|] eqn:He.
  { destruct (is_keychain_init_unavailable e) eqn:Ei; [|left; exists e; by rewrite He].
    apply Hskip. intros Ho%Hno. destruct Ho as [(e' & He' & Hi)|[? _]]; congruence. }
  unfold delete_keychain. fold service. destruct (delete_credential service KEYRING_TOKEN_USER v) as [r v1] eqn:Hr.
  assert (Hgo : (forall e, r = Err e -> e <> NoEntry -> is_keychain_unavailable e = true) -> match delete_file Token (path_join dir "token.json") v1 with
    | (Ok _, v') => get_token_data json_error false where_ profile v' = (Ok None, v') \/
        overshadowed v' /\ exists e, r = Err e /\ is_keychain_unavailable e = true
    | (Err _, _) => opens_oddly v \/ (exists e, r = Err e /\ e <> NoEntry /\ is_keychain_unavailable e = false) \/
        exists v1 e, (remove_file (path_join dir "token.json") v1).1 = Err e
    end).
  { intros Hu. pose proof (file_deleted v1) as Hf. rewrite Hd in Hf. destruct (delete_file _ _ v1) as [[[]|e] v']; [|right; right; by exists v1].
    destruct Hf as [Hf|[Ho Hf]]; [by left|right]. split; [done|]. destruct (deleted_shows v r v1 Hr He Hf) as (e & -> & Hne). exists e. auto. }
  destruct r as [[]|e]; [by apply Hgo|]. destruct e as [|e|e|e]; try (by apply Hgo; intros ? [= <-]); right; left; by eexists.
Qed.


(** The store as sessions use it. *)
Definition vault_storage : TokenStorage := {|
  Sto := Vt;
  sto_read v := (get_token_data json_error disabled where_ profile v).1;
  sto_write := store_token_data_unlocked disabled windows where_ profile;
  sto_delete := delete_token_data_unlocked disabled where_ profile
|}.
End stored.

(** * Concrete keychains *)

Lemma disk_laws (mode : KeychainMode) profile dir : @VaultLaws (disk_vault mode) profile dir.
Proof.
  split; simpl.
  - intros v p v'. destruct mode; try done. intros [= <-]. simpl. by rewrite lookup_insert_eq.
  - intros v r v'. destruct mode; intros [= <- <-] Hr; simpl; try (by rewrite lookup_delete_eq); by destruct Hr.
  - intros v p. by destruct mode.
  - intros v. by destruct mode.
  - done.
  - done.
  - done.
  - intros v text v' [= <-]. simpl. by rewrite lookup_insert_eq.
  - intros v v' [= <-]. simpl. by rewrite lookup_delete_eq, (bool_decide_eq_false_2 (_ ∈ _)) by set_solver.
Qed.

Definition sample_token (access refresh : string) : TokenData :=
  mk_token_data access 5000 (Some refresh) (Some 90000) (Some AuthorizationCode) (Some "abc").

Lemma sample_token_wf access refresh : token_wf (sample_token access refresh).
Proof. split; [vm_compute; by split|]. intros z [= <-]. vm_compute. by split. Qed.

#[local] Instance store_json : JsonText := bits_json_text.


(** The clearing is best effort: when the keychain refuses the new token and does not
    forget the old one either, the old one is what is read. *)
Lemma stale_entry_shadows :
  let vault := disk_vault Stubborn in
  let old := mk_disk {[ (keyring_service "dev", KEYRING_TOKEN_USER) := token_text (sample_token "a1" "r1") ]} ∅ ∅ in
  exists w v',
    @store_token_data_unlocked _ vault false false (fun _ => Ok "/ags/profiles/dev") "dev" (sample_token "a2" "r2") old = (Ok w, v') /\
    (@get_token_data _ vault (fun s => s) false (fun _ => Ok "/ags/profiles/dev") "dev" v').1 = Ok (Some (sample_token "a1" "r1")).
Proof. eexists _, _. split; [reflexivity|]. by vm_compute. Qed.

(** A token that went to the keychain leaves an older file where it is: once the keychain
    is out of reach, the older token is read again. *)
Lemma old_file_resurfaces :
  let where_ := fun _ => Ok "/ags/profiles/dev" in
  let written := (@store_token_data_unlocked _ (disk_vault Locked) false false where_ "dev" (sample_token "a1" "r1") empty_disk).2 in
  let renewed := (@store_token_data_unlocked _ (disk_vault Healthy) false false where_ "dev" (sample_token "a2" "r2") written).2 in
  (@get_token_data _ (disk_vault Healthy) (fun s => s) false where_ "dev" renewed).1 = Ok (Some (sample_token "a2" "r2")) /\
  (@get_token_data _ (disk_vault Locked) (fun s => s) false where_ "dev" renewed).1 = Ok (Some (sample_token "a1" "r1")).
Proof. by vm_compute. Qed.
