(* ===== verification/Profiles.v ===== *)
(** The configuration and profile commands ([facade/config.rs], [facade/profile.rs]): reading,
    setting and unsetting a key; listing, creating, selecting, showing, deleting and renaming
    profiles, with the credentials they keep. *)

From stdpp Require Import base gmap strings list sorting.
From Stdlib Require Import ZArith Lia Ascii Strings.Byte.
From S2P Require Import Prelude Text Kebab Nouns Json Catalogue Sanitise Results Workflow Request Http Pagination Tokens Vault Config TokenStore.

#[local] Arguments String.append !_ _ /.

(** * Values of keys *)

Definition TIMEOUT_MIN_SECS : Z := 1.
Definition TIMEOUT_MAX_SECS : Z := 3600.
Definition PAGE_LIMIT_MAX : Z := 100.

Definition validation_error (message : string) (hint : option string) : RuntimeError := mk_error Validation message None hint None.

Definition unknown_key_error (name : string) : RuntimeError :=
  validation_error ("Unknown config key '" +:+ name +:+ "'.") (Some ("Valid keys: " +:+ join ", " (map cli_name KNOWN_KEYS) +:+ ".")).

Definition secret_managed_error : RuntimeError :=
  validation_error "client-secret is stored in your OS keychain, not the config file, so it cannot be managed with 'ags config'"
    (Some ("Set it with 'ags auth login --client-secret <value>' or the AGS_CLIENT_SECRET environment variable; " +:+
           "'ags config get' shows whether it is set")).

(** A replacement, when the value is not the one to keep. *)
Definition replaced (normalised value : string) : option string := if String.eqb normalised value then None else Some normalised.

Definition validate_base_url `{UrlScheme} (value : string) : result (option string) RuntimeError :=
  if is_valid_base_url value then Ok (replaced (trim_end_matches "/" value) value)
  else Err (validation_error ("Invalid URL: " +:+ value) (Some "base-url must be a valid URL (e.g. https://demo.accelbyte.io)")).

Definition validate_client_id (value : string) : result (option string) RuntimeError :=
  if is_valid_client_id value then Ok (replaced (normalise_client_id value) value)
  else Err (validation_error ("Invalid client-id: " +:+ value)
              (Some "client-id must be a 32-character hex string (e.g. d39a8bb104e545a7a4b1ef6ec3d55a3c)")).

Definition validate_namespace (value : string) : result (option string) RuntimeError :=
  if is_valid_namespace value then Ok None
  else Err (validation_error ("Invalid namespace: " +:+ value)
              (Some "namespace must be lowercase alphanumeric or hyphens, max 48 chars (e.g. my-game-name)")).

Definition validate_format (value : string) : result (option string) RuntimeError :=
  if String.eqb value "json" then Ok None else Err (validation_error ("Invalid format '" +:+ value +:+ "'") (Some "Valid formats: json")).

Definition validate_boolean (value key : string) : result (option string) RuntimeError :=
  if String.eqb value "true" || String.eqb value "false" then Ok None
  else Err (validation_error ("Invalid value '" +:+ value +:+ "' for " +:+ key) (Some "Use 'true' or 'false'")).

Definition validate_timeout (value : string) : result (option string) RuntimeError :=
  match parse_unsigned u64_max value with
  | Some n =>
      if n <? TIMEOUT_MIN_SECS then Err (validation_error ("Timeout must be at least " +:+ show_int TIMEOUT_MIN_SECS +:+ " second (minimum)") None)
      else if TIMEOUT_MAX_SECS <? n then Err (validation_error ("Timeout must not exceed " +:+ show_int TIMEOUT_MAX_SECS +:+ " seconds (maximum)") None)
      else Ok None
  | None =>
      Err (validation_error ("Invalid timeout '" +:+ value +:+ "'")
             (Some ("Provide a number of seconds (" +:+ show_int TIMEOUT_MIN_SECS +:+ "-" +:+ show_int TIMEOUT_MAX_SECS +:+ ")")))
  end.

Definition validate_page_limit (value : string) : result (option string) RuntimeError :=
  let failed := Err (validation_error ("Invalid page limit '" +:+ value +:+ "'") (Some ("Use a value between 1 and " +:+ show_int PAGE_LIMIT_MAX))) in
  match parse_unsigned u64_max value with
  | Some n => if (1 <=? n) && (n <=? PAGE_LIMIT_MAX) then Ok None else failed
  | None => failed
  end.

Definition validate_grant_type (value : string) : result (option string) RuntimeError :=
  if String.eqb value "authorization-code" || String.eqb value "client-credentials" then Ok None
  else Err (validation_error ("Invalid grant type '" +:+ value +:+ "'") (Some "Valid grant types: authorization-code, client-credentials")).

(** * Views *)

Inductive ConfigView : Type :=
| GetAll (profile : string) (entries : list ResolvedEntry)
| GetOne (key : string) (value : option string) (source : ConfigSource) (read_only : bool)
| SetView (key value : string)
| UnsetView (key : string).

Record OperationWarning : Type := mk_warning { w_message : string; w_reason : option string; w_fix : string }.

Record ProfileShowData : Type := mk_show {
  s_base_url : option string;
  s_client_id : option string;
  s_namespace : option string;
  s_grant_type : option string;
  has_secret : bool;
  has_token : bool
}.

Inductive ProfileView : Type :=
| ProfileList (profiles : list (string * bool)) (active : option string)
| Created (name : string)
| Switched (name : string)
| NoActiveProfile
| ShowProfile (name : string) (is_active : bool) (config : ProfileShowData)
| Deleted (name : string) (warnings : list OperationWarning) (tips : list string)
| Renamed (old new : string) (warnings : list OperationWarning).

Definition ok_some {A} (r : result (option A) RuntimeError) : option A := match r with Ok o => o | Err _ => None end.

Section facade.
Context `{JsonText, !JsonPretty, Environment, Vault, UnicodeCase, UrlScheme, Base64Url}.
Variable json_error : string -> string.
Variable windows : bool.

(** * Configuration *)

Definition validate_active_profile (value : string) : Store (option string) :=
  found ← store_try list_profiles;
  let profiles := match found with Ok l => l | Err _ => [] end in
  if existsb (String.eqb value) profiles then mret None
  else store_fail (validation_error ("Profile '" +:+ value +:+ "' does not exist")
                     (Some "Run 'ags profile list' to see available profiles, or 'ags profile create' to create one")).

Definition validate_config_value (key value : string) : Store (option string) :=
  if String.eqb key "base-url" then store_lift (validate_base_url value)
  else if String.eqb key "client-id" then store_lift (validate_client_id value)
  else if String.eqb key "namespace" then store_lift (validate_namespace value)
  else if String.eqb key "format" then store_lift (validate_format value)
  else if String.eqb key "no-color" || String.eqb key "first-run-hint-seen" || String.eqb key "update-check" then store_lift (validate_boolean value key)
  else if String.eqb key "timeout" then store_lift (validate_timeout value)
  else if String.eqb key "page-limit" then store_lift (validate_page_limit value)
  else if String.eqb key "grant-type" then store_lift (validate_grant_type value)
  else if String.eqb key "active-profile" then validate_active_profile value
  else mret None.

(** Presence of the client secret, never the secret. *)
Definition client_secret_entry (profile : string) : Store ResolvedEntry :=
  match env_var ENV_CLIENT_SECRET with
  | Some _ => mret (mk_entry "client-secret" None FromEnvironment true)
  | None =>
      found ← store_try (get_secret is_keychain_disabled profile_dir profile);
      mret (mk_entry "client-secret" None (match ok_some found with Some _ => FromKeychain | None => NotSet end) true)
  end.

Definition config_get (profile : string) (key : option string) : Store ConfigView :=
  match key with
  | None =>
      entries ← resolved_config_entries json_error profile;
      secret ← client_secret_entry profile;
      mret (GetAll profile (entries ++ [secret]))
  | Some name =>
      if is_client_secret_key name
      then e ← client_secret_entry profile; mret (GetOne (e_key e) (e_value e) (e_source e) true)
      else
        k ← store_lift (ok_or (find_key name) (unknown_key_error name));
        v ← (match scope k with
             | GlobalScope => global_get_value json_error (json_name k)
             | ProfileScope => profile_get_value json_error profile (json_name k)
             end : Store (option string));
        mret (GetOne name v
                (match v, scope k with Some _, GlobalScope => FromGlobal | Some _, ProfileScope => FromProfile profile | None, _ => NotSet end) false)
  end.

Definition config_set (profile key value : string) : Store ConfigView :=
  if is_client_secret_key key then store_fail secret_managed_error
  else
    k ← store_lift (ok_or (find_key key) (unknown_key_error key));
    normalised ← validate_config_value (cli_name k) value;
    let save_value := default value normalised in
    _ ← (match scope k with
         | GlobalScope => global_set_value (json_name k) save_value
         | ProfileScope => _ ← ensure_profile_exists profile; profile_set_value profile (json_name k) save_value
         end : Store unit);
    mret (SetView key save_value).

Definition config_unset (profile key : string) : Store ConfigView :=
  if is_client_secret_key key then store_fail secret_managed_error
  else
    k ← store_lift (ok_or (find_key key) (unknown_key_error key));
    _ ← (match scope k with
         | GlobalScope => global_unset_value (json_name k)
         | ProfileScope => profile_unset_value profile (json_name k)
         end : Store unit);
    mret (UnsetView key).

(** * Profiles *)

Definition profile_list : Store ProfileView :=
  global ← global_load json_error;
  d ← store_lift profiles_dir;
  there ← store_ask (is_dir d);
  names ← (if (there : bool)
           then names ← store_op (fun e => internal_error ("Failed to read profiles directory: " +:+ e)) (fun v => (read_dirs d v, v));
                mret (merge_sort name_le names)
           else mret []) : Store (list string);
  mret (ProfileList (map (fun n => (n, bool_decide (active_profile global = Some n))) names) (active_profile global)).

Definition profile_missing (name : string) (hint : option string) : RuntimeError :=
  validation_error ("Profile '" +:+ name +:+ "' does not exist.") hint.
Definition create_first (name : string) : option string := Some ("Run 'ags profile create " +:+ name +:+ "' first.").

(** The profile must be there. *)
Definition must_exist (name : string) (hint : option string) : Store unit :=
  there ← profile_exists name; if (there : bool) then mret tt else store_fail (profile_missing name hint).

Definition profile_create (name : string) : Store ProfileView :=
  name ← store_lift (validate_profile_name name);
  there ← profile_exists name;
  if (there : bool)
  then store_fail (validation_error ("Profile '" +:+ name +:+ "' already exists.")
                     (Some ("Use 'ags profile show " +:+ name +:+ "' to inspect it or choose a different name.")))
  else _ ← ensure_profile_exists name; mret (Created name).

Definition profile_use (name : string) : Store ProfileView :=
  name ← store_lift (validate_profile_name name);
  _ ← must_exist name (create_first name);
  _ ← global_update json_error (set_active (Some name));
  mret (Switched name).

Definition profile_show (name : option string) : Store ProfileView :=
  found ← (match name with
           | Some name => n ← store_lift (validate_profile_name name); mret (Some n)
           | None => r ← store_try (resolve_profile_name json_error None); mret (match r with Ok n => Some n | Err _ => None end)
           end : Store (option string));
  match found with
  | None => mret NoActiveProfile
  | Some name =>
      _ ← must_exist name (create_first name);
      global ← global_load json_error;
      c ← profile_load json_error name;
      secret ← store_try (get_secret is_keychain_disabled profile_dir name);
      token ← store_try (get_token_data json_error is_keychain_disabled profile_dir name);
      mret (ShowProfile name (bool_decide (active_profile global = Some name))
              (mk_show (c_base_url c) (c_client_id c) (c_namespace c) (option_map grant_name (c_grant_type c))
                 (bool_decide (is_Some (ok_some secret))) (bool_decide (is_Some (ok_some token)))))
  end.

(** A warning for a failure. *)
Definition warn_on {A} (r : result A RuntimeError) (text fix_ : string) : list OperationWarning :=
  match r with Ok _ => [] | Err e => [mk_warning text (Some (message e)) fix_] end.

Definition orphan_harmless : string := "The orphaned keychain entry is harmless and can be ignored.".

Definition profile_delete (name : string) : Store ProfileView :=
  name ← store_lift (validate_profile_name name);
  _ ← must_exist name None;
  secret ← store_try (delete_secret is_keychain_disabled profile_dir name);
  token ← store_try (delete_token_data profile_dir name);
  dir ← store_lift (profile_dir name);
  _ ← store_op (fun e => internal_error ("Failed to delete profile directory: " +:+ e)) (remove_dir_all dir);
  updated ← store_try (global_update json_error
              (fun g => if bool_decide (active_profile g = Some name) then (true, (set_active None g).2) else (false, g)));
  let cleared :=
    match updated with
    | Err _ => warn_on updated "Could not clear active profile reference" "Run 'ags profile use <name>' to set a new active profile."
    | Ok true => [mk_warning ("'" +:+ name +:+ "' was the active profile") None "Run 'ags profile use <name>' to set a new active profile."]
    | Ok false => []
    end in
  mret (Deleted name
          (warn_on secret "Could not remove stored secret from keychain" orphan_harmless ++
           warn_on token "Could not remove stored tokens from keychain" orphan_harmless ++ cleared)
          (if String.eqb name DEFAULT_PROFILE
           then ["The default profile will not be recreated automatically. Run 'ags profile create default' if needed."] else [])).

Definition migrate_secret (old new : string) : Store (list OperationWarning) :=
  found ← store_try (get_secret is_keychain_disabled profile_dir old);
  match ok_some found with
  | None => mret []
  | Some secret =>
      stored ← store_try (store_secret is_keychain_disabled profile_dir new secret);
      match stored with
      | Err _ => mret (warn_on stored "Could not migrate stored secret to new profile" ("Run 'ags auth login --profile " +:+ new +:+ "' to re-authenticate."))
      | Ok _ =>
          deleted ← store_try (delete_secret is_keychain_disabled profile_dir old);
          mret (warn_on deleted "Could not remove old keychain entry for secret" "The orphaned entry is harmless and can be ignored.")
      end
  end.

Definition migrate_token (old new : string) : Store (list OperationWarning) :=
  found ← store_try (get_token_data json_error is_keychain_disabled profile_dir old);
  match ok_some found with
  | None => mret []
  | Some t =>
      moved ← store_try (with_token_locks [old; new]
                (_ ← store_token_data_unlocked is_keychain_disabled windows profile_dir new t;
                 delete_token_data_unlocked is_keychain_disabled profile_dir old));
      mret (warn_on moved "Could not migrate stored tokens to new profile" ("Run 'ags auth login --profile " +:+ new +:+ "' to re-authenticate."))
  end.

Definition profile_rename (old new : string) : Store ProfileView :=
  old ← store_lift (validate_profile_name old);
  new ← store_lift (validate_profile_name new);
  _ ← must_exist old None;
  there ← profile_exists new;
  if (there : bool) then store_fail (validation_error ("Profile '" +:+ new +:+ "' already exists.") None)
  else
    old_dir ← store_lift (profile_dir old);
    new_dir ← store_lift (profile_dir new);
    _ ← store_op (fun e => internal_error ("Failed to rename profile directory: " +:+ e)) (rename_dir old_dir new_dir);
    secrets ← migrate_secret old new;
    tokens ← migrate_token old new;
    updated ← store_try (global_update json_error (fun g => if bool_decide (active_profile g = Some old) then set_active (Some new) g else (tt, g)));
    mret (Renamed old new (secrets ++ tokens ++ warn_on updated "Could not update active profile reference" ("Run 'ags profile use " +:+ new +:+ "'."))).
End facade.
