(* ===== verification/AuthSession.v ===== *)
(** Sessions ([auth/session.rs], [auth/credentials.rs], [auth/operations.rs]): how an access
    token is found or renewed, and how a profile logs in and out, as programs over the
    clock, the environment, the storage, the locks and the network. *)

From stdpp Require Import base gmap strings list.
From Stdlib Require Import ZArith Lia Ascii Strings.Byte.
From S2P Require Import Prelude Text Kebab Nouns Json Catalogue Sanitise Results Workflow Request Http Pagination Tokens Vault Config.

#[local] Arguments String.append !_ _ /.

(** * Programs *)

(** What a session asks of the world: each is one step, between which others may act. The
    commands on storage and configuration are about one profile. *)
Inductive cmd : Type :=
| GetEnv (name : string)
| Now
| ReadToken
| WriteToken (t : TokenData)
| DeleteToken
| LoadConfig
| UpdateConfig (f : ProfileConfig -> ProfileConfig)
| ReadSecret
| StoreSecret (secret : string)
| DeleteSecret
| AcquireMutex
| ReleaseMutex
| AcquireLock
| ReleaseLock
| Post (r : TokenRequest)
| Emit (e : ProgressEvent).

Definition answer (c : cmd) : Type :=
  match c with
  | GetEnv _ => option string
  | Now => Z
  | ReadToken => result (option TokenData) RuntimeError
  | WriteToken _ => result (option string) RuntimeError
  | LoadConfig => result ProfileConfig RuntimeError
  | ReadSecret => result (option string) RuntimeError
  | DeleteToken | UpdateConfig _ | StoreSecret _ | DeleteSecret | AcquireLock => result unit RuntimeError
  | AcquireMutex | ReleaseMutex | ReleaseLock | Emit _ => unit
  | Post _ => result RawResponse string
  end.

Inductive prog (A : Type) : Type :=
| Done (r : result A RuntimeError)
| Do (c : cmd) (k : answer c -> prog A).
Arguments Done {A} r.
Arguments Do {A} c k.

#[global] Instance prog_ret : MRet prog := fun A x => Done (Ok x).
#[global] Instance prog_bind : MBind prog := fun A B f =>
  fix bind m := match m with Done (Ok x) => f x | Done (Err e) => Done (Err e) | Do c k => Do c (fun a => bind (k a)) end.

Definition op (c : cmd) : prog (answer c) := Do c (fun a => Done (Ok a)).
Definition lift {A} (r : result A RuntimeError) : prog A := Done r.
Definition throw {A} (e : RuntimeError) : prog A := Done (Err e).

Fixpoint catch {A} (m : prog A) : prog (result A RuntimeError) :=
  match m with Done r => Done (Ok r) | Do c k => Do c (fun a => catch (k a)) end.

(** A command whose failure is the program's. *)
Definition must {A} (c : prog (result A RuntimeError)) : prog A := r ← c; lift r.

(** [r.ok().flatten()]. *)
Definition flatten {A} (r : result (option A) RuntimeError) : option A := match r with Ok o => o | Err _ => None end.

(** The mutex of the profile in this process, then the file lock between processes; the
    guards are dropped in the reverse order, whatever happens. *)
Definition locked {A} (m : prog A) : prog A :=
  _ ← op AcquireMutex;
  l ← op AcquireLock;
  match l with
  | Err e => _ ← op ReleaseMutex; throw e
  | Ok _ => r ← catch m; _ ← op ReleaseLock; _ ← op ReleaseMutex; lift r
  end.

(** [locking::with_token_lock]: the file lock only. *)
Definition with_file_lock {A} (m : prog A) : prog A :=
  l ← op AcquireLock;
  match l with Err e => throw e | Ok _ => r ← catch m; _ ← op ReleaseLock; lift r end.

Definition store_token (t : TokenData) : prog (option string) := with_file_lock (must (op (WriteToken t))).
Definition delete_token : prog unit := with_file_lock (must (op DeleteToken)).

(** * Credentials *)

Inductive CredentialSource : Type := FromEnv | FromConfiguration | FromKeystore.

Record Credentials : Type := mk_credentials {
  cr_base_url : option string;
  cr_base_url_source : option CredentialSource;
  cr_client_id : option string;
  cr_client_id_source : option CredentialSource;
  cr_client_secret : option string;
  cr_client_secret_source : option CredentialSource
}.

(** From the environment, or else from the configuration if it can be read. *)
Definition resolve_setting (name : string) (field : ProfileConfig -> option string) : prog (option (string * CredentialSource)) :=
  e ← op (GetEnv name);
  match (e : option string) with
  | Some v => mret (Some (v, FromEnv))
  | None => c ← op LoadConfig; mret (match c with Ok c => option_map (fun v => (v, FromConfiguration)) (field c) | Err _ => None end)
  end.

Definition resolve_base_url : prog (option (string * CredentialSource)) := resolve_setting ENV_BASE_URL c_base_url.
Definition resolve_client_id : prog (option (string * CredentialSource)) := resolve_setting ENV_CLIENT_ID c_client_id.

Definition resolve_client_secret : prog (option (string * CredentialSource)) :=
  e ← op (GetEnv ENV_CLIENT_SECRET);
  match (e : option string) with
  | Some v => mret (Some (v, FromEnv))
  | None => s ← op ReadSecret; mret (option_map (fun v => (v, FromKeystore)) (flatten s))
  end.

Definition resolve_credentials : prog Credentials :=
  base ← resolve_base_url;
  id ← resolve_client_id;
  secret ← resolve_client_secret;
  mret (mk_credentials (option_map fst base) (option_map snd base) (option_map fst id) (option_map snd id)
          (option_map fst secret) (option_map snd secret)).

Definition resolve_client_id_value : prog (option string) := id ← resolve_client_id; mret (option_map fst id).
Definition resolve_stored_client_secret : prog (option string) := s ← op ReadSecret; mret (flatten s).

(** * Refreshing *)

Definition TOKEN_EXPIRY_BUFFER_SECS : Z := 60.

Inductive TokenSource : Type := SourceEnvironment | SourceStored | SourceRefreshed | SourceClientCredentials.

Record TokenResolution : Type := mk_token_resolution {
  token : string;
  source : TokenSource;
  expires_in_secs : option Z;
  warnings : list string
}.

Inductive UnavailableReason : Type :=
| NoStoredToken
| NoRefreshToken
| RefreshTokenExpiredLocally
| ClientMismatch (stored_client_id : string).

Inductive RefreshOutcome : Type :=
| Refreshed (token : string) (source : TokenSource) (expires_in_secs : Z) (warnings : list string)
| Unavailable (reason : UnavailableReason)
| Rejected (message : string).

Inductive RefreshMode : Type := Probe | Force.

(** The id of the stored client, when it is another. *)
Definition client_matches (expected : option string) (t : TokenData) : option string :=
  match expected, client_id t with
  | Some e, Some s => if client_ids_match e s then None else Some s
  | _, _ => None
  end.

Definition refresh_token_availability (t : TokenData) (now : Z) : result string UnavailableReason :=
  match refresh_token t with
  | None => Err NoRefreshToken
  | Some r => if match refresh_expires_at t with Some e => now <? e | None => true end then Ok r else Err RefreshTokenExpiredLocally
  end.

Definition saturating_sub (a b : Z) : Z := Z.max 0 (a - b).

(** The sum does not overflow: the clock is far from [u64::MAX]. *)
Definition refreshed_from_fresh_stored (t : TokenData) (now : Z) : option RefreshOutcome :=
  if now + TOKEN_EXPIRY_BUFFER_SECS <? expires_at t
  then Some (Refreshed (access_token t) SourceStored (saturating_sub (expires_at t) now) [])
  else None.

Definition is_network (e : RuntimeError) : bool := match kind e with Network => true | _ => false end.

Definition classify_refresh_error (e : RuntimeError) : result RefreshOutcome RuntimeError :=
  if is_network e then Err e else Ok (Rejected (message e)).

Definition merge_warnings (a b : option string) : list string := match a with Some x => [x] | None => [] end ++ match b with Some x => [x] | None => [] end.

Section session.
Context `{JsonText, UrlParse}.
Variable json_error : string -> string.
Variable profile : string.

(** A request to the token endpoint of a base URL. *)
Definition fetch_token (base_url : string) (request : string -> TokenRequest) (failed : Z -> string -> AuthError) : prog TokenResult :=
  url ← lift (map_err auth_error (token_url base_url));
  a ← op (Post (request url));
  lift (token_answer json_error failed a).

Definition fetch_client_credentials_token (base_url client secret : string) : prog TokenResult :=
  fetch_token base_url (fun url => client_credentials_request url client secret) TokenRequestFailed.
Definition fetch_refresh_token (base_url client : string) (secret : option string) (refresh : string) : prog TokenResult :=
  fetch_token base_url (fun url => refresh_request url client secret refresh) TokenRefreshFailed.
Definition exchange_authorization_code (base_url client : string) (secret : option string) (code verifier : string) : prog TokenResult :=
  fetch_token base_url (fun url => exchange_request url client secret code verifier) TokenExchangeFailed.

(** A stored token that may be used for the client and, when probing, is still fresh, ends
    the attempt; otherwise the refresh token to send. *)
Definition inspect_stored (mode : RefreshMode) (expected : option string) (stored : option TokenData) (now : Z) :
    result (TokenData * string) RefreshOutcome :=
  match stored with
  | None => Err (Unavailable NoStoredToken)
  | Some t =>
      match client_matches expected t with
      | Some other => Err (Unavailable (ClientMismatch other))
      | None =>
          match match mode with Probe => refreshed_from_fresh_stored t now | Force => None end with
          | Some outcome => Err outcome
          | None => match refresh_token_availability t now with Ok r => Ok (t, r) | Err reason => Err (Unavailable reason) end
          end
      end
  end.

(** With both locks held: the stored token is read again, and what it says now is sent. *)
Definition refresh_locked (mode : RefreshMode) (expected : option string) : prog RefreshOutcome :=
  stored ← op ReadToken;
  now ← op Now;
  match inspect_stored mode expected (flatten stored) now with
  | Err outcome => mret outcome
  | Ok (t, refresh) =>
      credentials ← resolve_credentials;
      base_url ← lift (ok_or (cr_base_url credentials) (auth_error BaseUrlMissing));
      client ← lift (ok_or (cr_client_id credentials) (auth_error ClientIdMissing));
      fetched ← catch (fetch_refresh_token base_url client (cr_client_secret credentials) refresh);
      match fetched with
      | Err e => lift (classify_refresh_error e)
      | Ok r =>
          let renewed := token_result_to_token_data r (default AuthorizationCode (grant_type t)) now client in
          warning ← must (op (WriteToken renewed));
          mret (Refreshed (res_access_token r) SourceRefreshed (res_expires_in r) (merge_warnings (expires_in_warning r) warning))
      end
  end.

Definition try_refresh_stored_session (mode : RefreshMode) (expected : option string) : prog RefreshOutcome :=
  stored ← op ReadToken;
  now ← op Now;
  match inspect_stored mode expected (flatten stored) now with
  | Err outcome => mret outcome
  | Ok _ => locked (refresh_locked mode expected)
  end.

(** * Access tokens *)

Definition is_authorization_code (t : option TokenData) : bool :=
  match t ≫= grant_type with None | Some AuthorizationCode => true | Some ClientCredentials => false end.

(** The last resort. *)
Definition client_credentials_grant : prog TokenResolution :=
  credentials ← resolve_credentials;
  base_url ← lift (ok_or (cr_base_url credentials) (auth_error BaseUrlMissing));
  client ← lift (ok_or (cr_client_id credentials) (auth_error ClientIdMissing));
  secret ← lift (ok_or (cr_client_secret credentials) (auth_error ClientSecretMissing));
  locked (r ← fetch_client_credentials_token base_url client secret;
          now ← op Now;
          warning ← must (op (WriteToken (token_result_to_token_data r ClientCredentials now client)));
          mret (mk_token_resolution (res_access_token r) SourceClientCredentials (Some (res_expires_in r))
                  (merge_warnings (expires_in_warning r) warning))).

(** Whether a secret can be found for the configured client. *)
Definition can_remint : prog bool :=
  e ← op (GetEnv ENV_CLIENT_SECRET);
  match (e : option string) with Some _ => mret true | None => s ← resolve_stored_client_secret; mret (bool_decide (is_Some s)) end.

(** The error of a session that is over, or none when a new grant is to be tried. *)
Definition session_over (authorization_code : bool) (outcome : RefreshOutcome) : option AuthError :=
  match outcome with
  | Rejected message => if authorization_code then Some (SessionExpiredRefreshFailed message) else None
  | Unavailable NoRefreshToken => if authorization_code then Some SessionExpiredNoRefreshToken else None
  | Unavailable RefreshTokenExpiredLocally => if authorization_code then Some SessionExpiredRefreshTokenExpired else None
  | _ => None
  end.

Definition resolve_access_token : prog TokenResolution :=
  e ← op (GetEnv ENV_ACCESS_TOKEN);
  match (e : option string) with
  | Some t => mret (mk_token_resolution t SourceEnvironment None [])
  | None =>
      stored ← op ReadToken;
      let authorization_code := is_authorization_code (flatten stored) in
      current ← resolve_client_id_value;
      outcome ← try_refresh_stored_session Probe current;
      match outcome with
      | Refreshed t source secs warnings => mret (mk_token_resolution t source (Some secs) warnings)
      | Unavailable (ClientMismatch other) =>
          can ← can_remint;
          if (can : bool) then client_credentials_grant
          else throw (auth_error (StoredSessionClientMismatch profile other (default EmptyString current)))
      | _ =>
          match session_over authorization_code outcome with
          | Some e => throw (auth_error e)
          | None => client_credentials_grant
          end
      end
  end.

Definition force_refresh_session : prog bool :=
  outcome ← try_refresh_stored_session Force None;
  mret (match outcome with Refreshed _ _ _ _ => true | _ => false end).

(** * Logging in *)

Inductive LoginOutcomeKind : Type := LoggedIn | AlreadyAuthenticated (tip : string) | RefreshedInPlace.

Record LoginOutcome : Type := mk_login_outcome {
  login_kind : LoginOutcomeKind;
  login_base_url : string;
  login_client_id : string;
  login_type : string;
  login_expires_in : option Z
}.

(** Show a warning, if there is one. *)
Definition emit_warning (w : option string) : prog unit := match w with Some text => op (Emit (Message text)) | None => mret tt end.

Definition record_login (base_url client : string) (g : option GrantType) (c : ProfileConfig) : ProfileConfig :=
  mk_profile_config (Some base_url) (Some client) (c_namespace c) (match g with Some g => Some g | None => c_grant_type c end).

Definition persist_login (base_url client : string) (t : TokenData) (secret : option string) : prog unit :=
  warning ← store_token t;
  _ ← emit_warning warning;
  _ ← must (op (UpdateConfig (record_login base_url client (grant_type t))));
  match secret with Some s => must (op (StoreSecret s)) | None => mret tt end.

(** A grant whose progress is shown. *)
Definition shown_grant (started : string) (fetch : prog TokenResult) : prog TokenResult :=
  _ ← op (Emit (Started started));
  fetched ← catch fetch;
  _ ← op (Emit Finished);
  r ← lift fetched;
  _ ← emit_warning (expires_in_warning r);
  mret r.

Definition login_with_client_credentials (base_url client secret : string) : prog LoginOutcome :=
  r ← shown_grant "Authenticating (client credentials)..." (fetch_client_credentials_token base_url client secret);
  now ← op Now;
  _ ← persist_login base_url client (token_result_to_token_data r ClientCredentials now client) (Some secret);
  mret (mk_login_outcome LoggedIn base_url client "client credentials" (Some (res_expires_in r))).

Definition login_with_authorization_code (base_url client code verifier : string) : prog LoginOutcome :=
  r ← shown_grant "Authenticating (authorization code)..." (exchange_authorization_code base_url client None code verifier);
  now ← op Now;
  _ ← persist_login base_url client (token_result_to_token_data r AuthorizationCode now client) None;
  mret (mk_login_outcome LoggedIn base_url client "authorization code" (Some (res_expires_in r))).

(** [format_duration]. *)
Definition format_duration (secs : Z) : string :=
  let hours := secs / 3600 in
  let minutes := secs mod 3600 / 60 in
  let seconds := secs mod 60 in
  if 0 <? hours then show_int hours +:+ "h " +:+ show_int minutes +:+ "m"
  else if 0 <? minutes then show_int minutes +:+ "m " +:+ show_int seconds +:+ "s"
  else show_int seconds +:+ "s".

Definition stored_identity_matches (base_url client : string) : prog bool :=
  c ← op LoadConfig;
  mret (match (c : result ProfileConfig RuntimeError) with
        | Err _ => false
        | Ok c =>
            match c_base_url c with Some stored => String.eqb stored base_url | None => true end &&
            match c_client_id c with Some stored => client_ids_match stored client | None => true end
        end).

Definition existing_access_token_still_valid (expected : string) : prog (option string) :=
  stored ← op ReadToken;
  match flatten stored with
  | None => mret None
  | Some t =>
      if match client_id t with Some stored => client_ids_match stored expected | None => true end
      then
        now ← op Now;
        mret (if now + TOKEN_EXPIRY_BUFFER_SECS <? expires_at t
              then Some ("Already authenticated (token expires in " +:+ format_duration (expires_at t - now) +:+
                         "). Run 'ags auth logout' first to re-authenticate.")
              else None)
      else mret None
  end.

Definition probe_existing_session (base_url client login_type : string) : prog (option LoginOutcome) :=
  same ← stored_identity_matches base_url client;
  if negb (same : bool) then mret None
  else
    tip ← existing_access_token_still_valid client;
    match (tip : option string) with
    | Some tip => mret (Some (mk_login_outcome (AlreadyAuthenticated tip) base_url client login_type None))
    | None =>
        outcome ← try_refresh_stored_session Probe (Some client);
        match outcome with
        | Refreshed _ _ secs _ => mret (Some (mk_login_outcome RefreshedInPlace base_url client login_type (Some secs)))
        | Rejected _ =>
            _ ← op (Emit (Message "Existing session was invalid — starting fresh login..."));
            deleted ← catch delete_token;
            _ ← (match deleted with
                 | Err e => op (Emit (Message ("Warning: could not clear stale session data: " +:+ message e)))
                 | Ok _ => mret tt
                 end : prog unit);
            mret None
        | Unavailable _ => mret None
        end
    end.

(** * Logging out, renewing *)

Record LogoutOutcome : Type := mk_logout {
  had_client_id : bool;
  had_client_secret : bool;
  had_access_token : bool;
  had_refresh_token : bool
}.

Definition drop_client_id (c : ProfileConfig) : ProfileConfig := mk_profile_config (c_base_url c) None (c_namespace c) (c_grant_type c).

Definition logout_profile : prog LogoutOutcome :=
  c ← op LoadConfig;
  s ← op ReadSecret;
  t ← op ReadToken;
  _ ← op DeleteSecret;
  _ ← catch delete_token;
  _ ← must (op (UpdateConfig drop_client_id));
  mret (mk_logout (match (c : result ProfileConfig RuntimeError) with Ok c => bool_decide (is_Some (c_client_id c)) | Err _ => false end)
          (bool_decide (is_Some (flatten s))) (bool_decide (is_Some (flatten t))) (bool_decide (is_Some (flatten t ≫= refresh_token)))).

Record TokenRefreshOutcome : Type := mk_refresh_outcome {
  tro_grant_type : GrantType;
  tro_base_url : string;
  tro_client_id : string;
  tro_expires_in : Z;
  tro_note : option string
}.

Definition nothing_to_refresh_error : RuntimeError :=
  mk_error NotAuthenticated "Nothing to refresh for this profile" None (Some "Run `ags auth login` to authenticate") None.

Definition external_token_error : RuntimeError :=
  mk_error Validation "Access token is set via AGS_ACCESS_TOKEN, so there is nothing to refresh" None
    (Some "Unset AGS_ACCESS_TOKEN to use stored credentials") None.

(** The error of a forced refresh that did not take place. *)
Definition forced_refresh_error (client : string) (reason : UnavailableReason) : RuntimeError :=
  match reason with
  | NoRefreshToken => auth_error RefreshNoRefreshToken
  | RefreshTokenExpiredLocally => auth_error RefreshTokenExpired
  | NoStoredToken => nothing_to_refresh_error
  | ClientMismatch stored => auth_error (StoredSessionClientMismatch profile stored client)
  end.

Fixpoint emit_all (ws : list string) : prog unit :=
  match ws with [] => mret tt | w :: r => _ ← op (Emit (Message w)); emit_all r end.

Definition permission_note : string := "If you added permissions, they may need a full `ags auth login` to take effect".

Definition refresh_by_client_credentials (creds : Credentials) : prog TokenRefreshOutcome :=
  base_url ← lift (ok_or (cr_base_url creds) (auth_error BaseUrlMissing));
  client ← lift (ok_or (cr_client_id creds) (auth_error ClientIdMissing));
  secret ← lift (ok_or (cr_client_secret creds) (auth_error ClientSecretMissing));
  r ← shown_grant "Refreshing token (client credentials)..." (fetch_client_credentials_token base_url client secret);
  now ← op Now;
  _ ← persist_login base_url client (token_result_to_token_data r ClientCredentials now client) (Some secret);
  mret (mk_refresh_outcome ClientCredentials base_url client (res_expires_in r) None).

Definition refresh_by_refresh_token (creds : Credentials) : prog TokenRefreshOutcome :=
  base_url ← lift (ok_or (cr_base_url creds) (auth_error BaseUrlMissing));
  client ← lift (ok_or (cr_client_id creds) (auth_error ClientIdMissing));
  _ ← op (Emit (Started "Refreshing token (authorization code)..."));
  outcome ← try_refresh_stored_session Force (Some client);
  _ ← op (Emit Finished);
  match outcome with
  | Refreshed _ _ secs warnings =>
      _ ← emit_all warnings;
      mret (mk_refresh_outcome AuthorizationCode base_url client secs (Some permission_note))
  | Rejected message => throw (auth_error (RefreshRejected message))
  | Unavailable reason => throw (forced_refresh_error client reason)
  end.

Definition is_grant (g : GrantType) (o : option GrantType) : bool :=
  match g, o with AuthorizationCode, Some AuthorizationCode | ClientCredentials, Some ClientCredentials => true | _, _ => false end.

Definition refresh_profile : prog TokenRefreshOutcome :=
  e ← op (GetEnv ENV_ACCESS_TOKEN);
  match (e : option string) with
  | Some _ => throw external_token_error
  | None =>
      creds ← resolve_credentials;
      c ← op LoadConfig;
      let grant := match (c : result ProfileConfig RuntimeError) with Ok c => c_grant_type c | Err _ => None end in
      stored ← op ReadToken;
      let has_refresh_token := bool_decide (is_Some (flatten stored ≫= refresh_token)) in
      let no_grant := bool_decide (grant = None) in
      let has_secret := bool_decide (is_Some (cr_client_secret creds)) in
      if is_grant ClientCredentials grant || (no_grant && has_secret) then refresh_by_client_credentials creds
      else if is_grant AuthorizationCode grant || (no_grant && negb has_secret && has_refresh_token) then refresh_by_refresh_token creds
      else throw nothing_to_refresh_error
  end.

(** * Status *)

Inductive RefreshTokenState : Type := RefreshValid (expires_in : Z) | RefreshPresent | RefreshExpired | RefreshMissing.

Inductive StoredTokenState : Type :=
| TokenValid (expires_in : Z) (login_type : option string) (refresh : RefreshTokenState)
| TokenExpired (login_type : option string) (refresh : RefreshTokenState)
| TokenMissing.

Inductive AuthSnapshot : Type :=
| EnvironmentToken
| EnvironmentCredentials (base_url client : string)
| StoredSnapshot (base_url client : string) (has_client_secret : bool) (token_state : StoredTokenState) (namespace : option string)
| NoCredentials.

Definition refresh_token_state (has_refresh : bool) (expires : option Z) (now : Z) : RefreshTokenState :=
  match has_refresh, expires with
  | false, _ => RefreshMissing
  | true, Some e => if now <? e then RefreshValid (e - now) else RefreshExpired
  | true, None => RefreshPresent
  end.

Definition stored_token_state (stored : result (option TokenData) RuntimeError) (now : Z) : StoredTokenState :=
  match flatten stored with
  | None => TokenMissing
  | Some t =>
      let refresh := refresh_token_state (bool_decide (is_Some (refresh_token t))) (refresh_expires_at t) now in
      let label := option_map grant_name (grant_type t) in
      if now <? expires_at t then TokenValid (expires_at t - now) label refresh else TokenExpired label refresh
  end.

Definition is_from_env (s : option CredentialSource) : bool := match s with Some FromEnv => true | _ => false end.

Definition auth_snapshot : prog AuthSnapshot :=
  e ← op (GetEnv ENV_ACCESS_TOKEN);
  match (e : option string) with
  | Some _ => mret EnvironmentToken
  | None =>
      creds ← resolve_credentials;
      if is_from_env (cr_client_id_source creds) && is_from_env (cr_client_secret_source creds)
      then mret (EnvironmentCredentials (default "unset" (cr_base_url creds)) (default EmptyString (cr_client_id creds)))
      else
        c ← op LoadConfig;
        let namespace := match (c : result ProfileConfig RuntimeError) with Ok c => c_namespace c | Err _ => None end in
        match cr_base_url creds, cr_client_id creds with
        | Some base_url, Some client =>
            now ← op Now;
            stored ← op ReadToken;
            mret (StoredSnapshot base_url client (bool_decide (is_Some (cr_client_secret creds))) (stored_token_state stored now) namespace)
        | _, _ => mret NoCredentials
        end
  end.
End session.
