(* ===== verification/AuthRules.v ===== *)
(** What a session may do and when ([auth/session.rs], [auth/operations.rs]): which locks it
    holds, which refresh token it may send, what it has to store; every operation of
    [AuthSession] keeps to it. *)

From stdpp Require Import base gmap strings list relations.
From Stdlib Require Import ZArith Lia Ascii Strings.Byte Wellfounded.
From S2P Require Import Prelude Text Kebab Nouns Json Catalogue Sanitise Results Workflow Request Http Pagination Tokens Vault Config AuthSession.

#[local] Arguments String.append !_ _ /.

(** * Who may do what *)

(** What a thread knows: the locks it holds, the refresh token it read while holding both,
    the refresh token it was given and has not stored, and whether what it was given
    replaces one that the server has taken. *)
Record Local : Type := mk_local {
  has_mutex : bool;
  has_lock : bool;
  sendable : option string;
  fresh : option string;
  owed : bool
}.

Definition idle : Local := mk_local false false None None false.

Fixpoint assoc (k : string) (l : list (string * string)) : option string :=
  match l with [] => None | (k', v) :: r => if String.eqb k k' then Some v else assoc k r end.

(** The refresh token of a request to refresh. *)
Definition sent_refresh_token (r : TokenRequest) : option string :=
  match assoc "grant_type" (form r) with Some g => if String.eqb g "refresh_token" then assoc "refresh_token" (form r) else None | None => None end.

Section rules.
Context `{JsonText}.
Variable json_error : string -> string.

(** What the server granted: the failures of the three requests differ in their errors only. *)
Definition granted (a : result RawResponse string) : option TokenResult :=
  match token_answer json_error TokenRequestFailed a with Ok r => Some r | Err _ => None end.

Definition stored_refresh (r : result (option TokenData) RuntimeError) : option string := flatten r ≫= refresh_token.

(** The discipline of a thread. *)
Definition may (l : Local) (c : cmd) : Prop :=
  match c with
  | ReadToken => owed l = false
  | WriteToken t => has_lock l = true /\ token_wf t /\ (refresh_token t = None \/ refresh_token t = fresh l)
  | DeleteToken => has_lock l = true
  | AcquireMutex => has_mutex l = false /\ has_lock l = false
  | ReleaseMutex => has_mutex l = true /\ has_lock l = false
  | AcquireLock => has_lock l = false
  | ReleaseLock => has_lock l = true /\ owed l = false
  | Post r => owed l = false /\ match sent_refresh_token r with Some t => sendable l = Some t | None => True end
  | _ => True
  end.

(** What it knows after a command and its answer. *)
Definition after (l : Local) (c : cmd) : answer c -> Local :=
  match c return answer c -> Local with
  | ReadToken => fun a => if has_mutex l && has_lock l then mk_local true true (stored_refresh a) (fresh l) (owed l) else l
  | WriteToken _ => fun _ => mk_local (has_mutex l) (has_lock l) (sendable l) None false
  | AcquireMutex => fun _ => mk_local true (has_lock l) (sendable l) (fresh l) (owed l)
  | ReleaseMutex => fun _ => mk_local false (has_lock l) None (fresh l) (owed l)
  | AcquireLock => fun a => match a with Ok _ => mk_local (has_mutex l) true (sendable l) (fresh l) (owed l) | Err _ => l end
  | ReleaseLock => fun _ => mk_local (has_mutex l) false None (fresh l) (owed l)
  | Post r => fun a =>
      match granted a with
      | Some res => mk_local (has_mutex l) (has_lock l) None (res_refresh_token res) (bool_decide (is_Some (sent_refresh_token r)))
      | None => l
      end
  | _ => fun _ => l
  end.

(** The answers that are to be expected: the clock is a [u64]. Everything else may fail. *)
Definition plausible (c : cmd) : answer c -> Prop :=
  match c return answer c -> Prop with Now => in_u64 | _ => fun _ => True end.

(** The program keeps to the discipline, and [Q] holds when it is done. *)
Fixpoint wp {A} (l : Local) (m : prog A) (Q : result A RuntimeError -> Local -> Prop) : Prop :=
  match m with
  | Done r => Q r l
  | Do c k => may l c /\ forall a, plausible c a -> wp (after l c a) (k a) Q
  end.

Lemma wp_mono {A} (m : prog A) : forall l (P Q : result A RuntimeError -> Local -> Prop),
  (forall r l', P r l' -> Q r l') -> wp l m P -> wp l m Q.
Proof. induction m as [r|c k IH]; intros l P Q HPQ Hm; simpl in *; [by auto|]. destruct Hm as [Hc Hk]. split; [done|]. intros a Ha. eapply IH; eauto. Qed.

Lemma wp_bind {A B} (f : A -> prog B) (m : prog A) : forall l Q,
  wp l m (fun r l' => match r with Ok x => wp l' (f x) Q | Err e => Q (Err e) l' end) -> wp l (m ≫= f) Q.
Proof.
  induction m as [[x|e]|c k IH]; intros l Q Hm; simpl in *; [done|done|].
  destruct Hm as [Hc Hk]. split; [done|]. intros a Ha. by apply IH, Hk.
Qed.

Lemma wp_op {A} l c (k : answer c -> prog A) Q :
  may l c -> (forall a, plausible c a -> wp (after l c a) (k a) Q) -> wp l (op c ≫= k) Q.
Proof. intros Hc Hk. by split. Qed.

Lemma wp_catch {A} (m : prog A) : forall l Q, wp l m (fun r l' => Q (Ok r) l') -> wp l (catch m) Q.
Proof. induction m as [r|c k IH]; intros l Q Hm; simpl in *; [done|]. destruct Hm as [Hc Hk]. split; [done|]. intros a Ha. by apply IH, Hk. Qed.

Lemma wp_must {A} l (m : prog (result A RuntimeError)) Q :
  wp l m (fun r l' => match r with Ok (Ok x) => Q (Ok x) l' | Ok (Err e) | Err e => Q (Err e) l' end) -> wp l (must m) Q.
Proof. intros Hm. apply wp_bind. eapply wp_mono; [|exact Hm]. by intros [[x|e]|e] l'. Qed.

(** ** Programs that only look *)

(** A program that changes nothing of what the thread knows. *)
Definition quiet {A} (m : prog A) : Prop := forall l, wp l m (fun _ l' => l' = l).

Lemma session_quiet_ret {A} (x : A) : quiet (mret x).
Proof. by intros l. Qed.
Lemma session_quiet_lift {A} (r : result A RuntimeError) : quiet (lift r).
Proof. by intros l. Qed.
Lemma session_quiet_bind {A B} (m : prog A) (f : A -> prog B) : quiet m -> (forall x, quiet (f x)) -> quiet (m ≫= f).
Proof. intros Hm Hf l. apply wp_bind. eapply wp_mono; [|apply Hm]. intros [x|e] l' ->; [apply Hf|done]. Qed.
Lemma quiet_op c : match c with GetEnv _ | Now | LoadConfig | UpdateConfig _ | ReadSecret | StoreSecret _ | DeleteSecret | Emit _ => True | _ => False end ->
  quiet (op c).
Proof. intros Hc l. by destruct c. Qed.
Lemma quiet_must {A} (m : prog (result A RuntimeError)) : quiet m -> quiet (must m).
Proof. intros Hm. apply session_quiet_bind; [done|]. intros r. apply session_quiet_lift. Qed.
Lemma quiet_wp {A} (m : prog A) l (Q : result A RuntimeError -> Local -> Prop) : quiet m -> (forall r, Q r l) -> wp l m Q.
Proof. intros Hm HQ. eapply wp_mono; [|apply Hm]. by intros r l' ->. Qed.

Create HintDb quiet.
Hint Resolve session_quiet_ret session_quiet_lift quiet_must : quiet.
Hint Extern 1 (quiet (op _)) => (by apply quiet_op) : quiet.
Hint Extern 2 (quiet (_ ≫= _)) => (apply session_quiet_bind; [|intros ?]) : quiet.
Hint Extern 3 (quiet (match ?x with _ => _ end)) => destruct x : quiet.
Hint Extern 4 (quiet ?m) => progress (unfold resolve_credentials, resolve_base_url, resolve_client_id, resolve_client_secret, resolve_setting,
  resolve_client_id_value, resolve_stored_client_secret, can_remint, emit_warning, stored_identity_matches) : quiet.

Lemma quiet_credentials : quiet resolve_credentials.
Proof. eauto 20 with quiet. Qed.
Lemma quiet_client_id_value : quiet resolve_client_id_value.
Proof. eauto 20 with quiet. Qed.
Lemma quiet_can_remint : quiet can_remint.
Proof. eauto 20 with quiet. Qed.
Lemma quiet_emit_warning w : quiet (emit_warning w).
Proof. eauto 20 with quiet. Qed.
Lemma quiet_emit_all ws : quiet (emit_all ws).
Proof. induction ws; [apply session_quiet_ret|]. apply session_quiet_bind; [by apply quiet_op|done]. Qed.
Lemma quiet_identity base client : quiet (stored_identity_matches base client).
Proof. eauto 20 with quiet. Qed.

(** ** Programs that act *)

Context `{UrlParse}.

(** The postcondition of most programs: no lock is held and nothing is owed, whether they
    succeed or fail. *)
Definition at_rest (l : Local) : Prop := has_mutex l = false /\ has_lock l = false /\ sendable l = None /\ owed l = false.

Lemma granted_failed failed a res : token_answer json_error failed a = Ok res -> granted a = Some res.
Proof.
  unfold granted, token_answer. destruct (map_err network_error a) as [raw|]; [|done]. simpl. destruct (read_response_body raw); [|done]. simpl.
  destruct (_ && _); [|done]. by intros ->.
Qed.

Lemma refused_failed failed a e : token_answer json_error failed a = Err e -> granted a = None.
Proof.
  unfold granted, token_answer. destruct (map_err network_error a) as [raw|]; [|done]. simpl. destruct (read_response_body raw); [|done]. simpl.
  destruct (_ && _); [|done]. by intros ->.
Qed.

Lemma read_u64_range v z : read_u64 v = Some z -> in_u64 z.
Proof.
  unfold read_u64, read_int. destruct v as [| |[i|]| | |]; try done. destruct (_ && _) eqn:E; [|done]. intros [= <-].
  apply andb_true_iff in E as [?%Z.leb_le ?%Z.ltb_lt]. by split.
Qed.

Definition result_wf (r : TokenResult) : Prop :=
  in_u64 (res_expires_in r) /\ forall z, res_refresh_expires_in r = Some z -> in_u64 z.

Lemma token_response_wf v r : token_response_of_json v = Some r ->
  in_u64 (tr_expires_in r) /\ forall z, tr_refresh_expires_in r = Some z -> in_u64 z.
Proof.
  unfold token_response_of_json, dflt, req. intros E.
  repeat (apply bind_Some in E as (? & ? & E)). simplify_eq. cbn [tr_expires_in tr_refresh_expires_in]. split.
  - destruct (field_at _ "expires_in" 1); [by eapply read_u64_range|]. simplify_eq. by split.
  - intros z ->. destruct (field_at _ "refresh_expires_in" 4) as [w|]; [|done]. destruct w; simpl in *; simplify_eq;
      (destruct (read_u64 _) eqn:Er in *; simplify_eq; by eapply read_u64_range).
Qed.

Lemma granted_wf a res : granted a = Some res -> result_wf res.
Proof.
  unfold granted, token_answer. destruct (map_err network_error a) as [raw|]; [|done]. simpl. destruct (read_response_body raw) as [body|]; [|done]. simpl.
  destruct (_ && _); [|done]. unfold parse_token_result. destruct (parse_json body ≫= token_response_of_json) as [r|] eqn:Ep; [|done]. simpl.
  apply bind_Some in Ep as (v & _ & Er). apply token_response_wf in Er as [He Hr]. unfold normalize_expires_in.
  destruct (tr_expires_in r =? 0); intros [= <-]; by split.
Qed.

Lemma saturating_wf a b : in_u64 a -> in_u64 b -> in_u64 (saturating_add_u64 a b).
Proof. unfold in_u64, saturating_add_u64, u64_max. lia. Qed.

Lemma renewed_wf r g now client : result_wf r -> in_u64 now -> token_wf (token_result_to_token_data r g now client).
Proof.
  intros [He Hr] Hn. split; simpl; [by apply saturating_wf|]. intros z.
  destruct (res_refresh_expires_in r) as [e|] eqn:E; [|done]. intros [= <-]. apply saturating_wf; [done|]. by apply Hr.
Qed.

(** A request to the token endpoint: what is granted becomes what the thread has to store. *)
Lemma wp_fetch base_url request failed l (Q : result TokenResult RuntimeError -> Local -> Prop) :
  (forall url, may l (Post (request url))) ->
  (forall e, Q (Err e) l) ->
  (forall url res, result_wf res ->
     Q (Ok res) (mk_local (has_mutex l) (has_lock l) None (res_refresh_token res) (bool_decide (is_Some (sent_refresh_token (request url)))))) ->
  wp l (fetch_token json_error base_url request failed) Q.
Proof.
  intros Hm He Hr. unfold fetch_token. destruct (token_url base_url) as [url|e]; [|apply He].
  apply wp_op; [apply Hm|]. intros a _. change (wp (after l (Post (request url)) a) (lift (token_answer json_error failed a)) Q).
  unfold after, lift. simpl. destruct (token_answer json_error failed a) as [res|e] eqn:E.
  - rewrite (granted_failed _ _ _ E). apply Hr. by apply granted_wf with a, granted_failed with failed.
  - by rewrite (refused_failed _ _ _ E).
Qed.

(** Both locks, taken and given back; the body must not leave anything owed. *)
Lemma wp_locked {A} (m : prog A) f (Q : result A RuntimeError -> Local -> Prop) :
  (forall e, Q (Err e) (mk_local false false None f false)) ->
  wp (mk_local true true None f false) m
    (fun r l => has_mutex l = true /\ has_lock l = true /\ owed l = false /\ Q r (mk_local false false None (fresh l) false)) ->
  wp (mk_local false false None f false) (locked m) Q.
Proof.
  intros He Hm. apply wp_op; [done|]. intros [] _. apply wp_op; [done|]. intros [[]|e] _; [|apply wp_op; [done|]; intros [] _; apply He].
  apply wp_bind, wp_catch. eapply wp_mono; [|exact Hm]. intros r [mu lo s fr ow]. cbn. intros (-> & -> & -> & HQ).
  do 2 (split; [done|]; intros [] _). exact HQ.
Qed.

Lemma wp_file_lock {A} (m : prog A) f (Q : result A RuntimeError -> Local -> Prop) :
  (forall e, Q (Err e) (mk_local false false None f false)) ->
  wp (mk_local false true None f false) m
    (fun r l => has_mutex l = false /\ has_lock l = true /\ owed l = false /\ Q r (mk_local false false None (fresh l) false)) ->
  wp (mk_local false false None f false) (with_file_lock m) Q.
Proof.
  intros He Hm. apply wp_op; [done|]. intros [[]|e] _; [|apply He].
  apply wp_bind, wp_catch. eapply wp_mono; [|exact Hm]. intros r [mu lo s fr ow]. cbn. intros (-> & -> & -> & HQ).
  split; [done|]. intros [] _. exact HQ.
Qed.

(** Nothing is held and nothing is owed, whatever token was not stored. *)
Definition rests {A} (r : result A RuntimeError) (l : Local) : Prop := exists f, l = mk_local false false None f false.

Local Ltac rest := split_and!; [done..|by eexists].

(** A program that starts and ends at rest. *)
Definition fair {A} (m : prog A) : Prop := forall f, wp (mk_local false false None f false) m rests.

Lemma fair_quiet {A} (m : prog A) : quiet m -> fair m.
Proof. intros Hm f. apply quiet_wp; [done|]. intros r. by exists f. Qed.

Lemma fair_bind {A B} (m : prog A) (k : A -> prog B) : fair m -> (forall x, fair (k x)) -> fair (m ≫= k).
Proof. intros Hm Hk f. apply wp_bind. eapply wp_mono; [|apply Hm]. intros [x|e] l [f' ->]; [apply Hk|by exists f']. Qed.

Lemma fair_catch {A} (m : prog A) : fair m -> fair (catch m).
Proof. intros Hm f. apply wp_catch. eapply wp_mono; [|apply Hm]. intros r l [f' ->]. by exists f'. Qed.

Lemma fair_throw {A} e : fair (@throw A e).
Proof. intros f. by exists f. Qed.
Lemma fair_ret {A} (x : A) : fair (mret x).
Proof. intros f. by exists f. Qed.
Lemma fair_lift {A} (r : result A RuntimeError) : fair (lift r).
Proof. intros f. by exists f. Qed.

Lemma fair_read : fair (op ReadToken).
Proof. intros f. split; [done|]. intros a _. by exists f. Qed.

(** ** The operations of a session *)

Lemma wp_refresh_locked mode expected f :
  wp (mk_local true true None f false) (refresh_locked json_error mode expected)
    (fun _ l => has_mutex l = true /\ has_lock l = true /\ owed l = false).
Proof.
  apply wp_op; [done|]. intros stored _. apply wp_op; [done|]. intros now Hnow. simpl after.
  unfold inspect_stored, stored_refresh. destruct (flatten stored) as [t|]; [|done]. destruct (client_matches expected t); [done|].
  destruct (match mode with Probe => refreshed_from_fresh_stored t now | Force => None end); [done|].
  unfold refresh_token_availability. simpl (Some t ≫= refresh_token). destruct (refresh_token t) as [rt|] eqn:Ert; [|done].
  destruct (match refresh_expires_at t with Some e => now <? e | None => true end); [|done].
  apply wp_bind, quiet_wp; [apply quiet_credentials|]. intros [creds|e]; [|done].
  destruct (cr_base_url creds) as [base|]; [|done]. destruct (cr_client_id creds) as [client|]; [|done]. simpl.
  apply wp_bind, wp_catch, wp_fetch; [done| |].
  - intros e. simpl. unfold classify_refresh_error. by destruct (is_network e).
  - intros url res Hres. simpl. split; [|by intros [w|e] _]. split; [done|]. split; [by apply renewed_wf|by right].
Qed.

Lemma fair_try_refresh mode expected : fair (try_refresh_stored_session json_error mode expected).
Proof.
  apply fair_bind; [apply fair_read|]. intros stored. apply fair_bind; [by apply fair_quiet, quiet_op|]. intros now.
  destruct (inspect_stored _ _ _ _); [|apply fair_ret]. intros f. apply wp_locked; [by exists f|].
  eapply wp_mono; [|apply wp_refresh_locked]. intros r l (Hm & Hl & Ho). rest.
Qed.

(** The two grants send no refresh token; what they give is the thread's to store. *)
Definition granted_rests (r : result TokenResult RuntimeError) (l : Local) : Prop :=
  match r with Ok res => result_wf res /\ l = mk_local false false None (res_refresh_token res) false | Err e => rests (@Err unit _ e) l end.

Lemma wp_grant base_url request failed f : (forall url, sent_refresh_token (request url) = None) ->
  wp (mk_local false false None f false) (fetch_token json_error base_url request failed) granted_rests.
Proof.
  intros Hn. apply wp_fetch; [|by exists f|].
  - intros url. simpl. by rewrite Hn.
  - intros url res Hr. rewrite Hn. by split.
Qed.

Lemma wp_client_credentials base client secret f :
  wp (mk_local false false None f false) (fetch_client_credentials_token json_error base client secret) granted_rests.
Proof. by apply wp_grant. Qed.

Lemma wp_exchange base client code verifier f :
  wp (mk_local false false None f false) (exchange_authorization_code json_error base client None code verifier) granted_rests.
Proof. by apply wp_grant. Qed.

Lemma wp_shown_grant text m f : wp (mk_local false false None f false) m granted_rests ->
  wp (mk_local false false None f false) (shown_grant text m) granted_rests.
Proof.
  intros Hm. apply wp_op; [done|]. intros [] _. apply wp_bind, wp_catch. eapply wp_mono; [|exact Hm].
  intros [res|e] l Hl; (apply wp_op; [done|]; intros [] _; simpl after).
  - destruct Hl as [Hr ->]. apply wp_bind. unfold lift. cbn [wp]. apply wp_bind, quiet_wp; [apply quiet_emit_warning|]. intros [[]|e]; [by split|by eexists].
  - exact Hl.
Qed.

(** Storing what was granted. *)
Lemma wp_store r g now client : result_wf r -> in_u64 now ->
  wp (mk_local false false None (res_refresh_token r) false) (store_token (token_result_to_token_data r g now client)) rests.
Proof.
  intros Hr Hn. apply wp_file_lock; [by eexists|]. split; [|intros [w|e] _; rest].
  split; [done|]. split; [by apply renewed_wf|by right].
Qed.

Lemma wp_persist base client r g now client' secret : result_wf r -> in_u64 now ->
  wp (mk_local false false None (res_refresh_token r) false) (persist_login base client (token_result_to_token_data r g now client') secret) rests.
Proof.
  intros Hr Hn. apply wp_bind. eapply wp_mono; [|by apply wp_store]. intros [w|e] l [f ->]; [|by exists f].
  apply fair_bind; [apply fair_quiet, quiet_emit_warning|]. intros _.
  apply fair_bind; [by apply fair_quiet, quiet_must, quiet_op|]. intros _.
  destruct secret; [by apply fair_quiet, quiet_must, quiet_op|apply fair_ret].
Qed.

(** A grant, the time, and the token stored. *)
Lemma wp_login {A} (m : prog TokenResult) f g base client secret (k : TokenResult -> A) :
  wp (mk_local false false None f false) m granted_rests ->
  wp (mk_local false false None f false)
    (r ← m; now ← op Now; _ ← persist_login base client (token_result_to_token_data r g now client) secret; mret (k r)) rests.
Proof.
  intros Hm. apply wp_bind. eapply wp_mono; [|exact Hm]. intros [r|e] l Hl; [|exact Hl]. destruct Hl as [Hr ->].
  apply wp_op; [done|]. intros now Hnow. simpl after. apply wp_bind. eapply wp_mono; [|by apply wp_persist].
  intros [[]|e] l [f' ->]; by exists f'.
Qed.

Lemma fair_client_credentials_login base client secret : fair (login_with_client_credentials json_error base client secret).
Proof. intros f. apply wp_login, wp_shown_grant, wp_client_credentials. Qed.

Lemma fair_authorization_code_login base client code verifier : fair (login_with_authorization_code json_error base client code verifier).
Proof. intros f. apply wp_login, wp_shown_grant, wp_exchange. Qed.

Lemma fair_client_credentials_grant : fair (client_credentials_grant json_error).
Proof.
  apply fair_bind; [apply fair_quiet, quiet_credentials|]. intros creds. do 3 (apply fair_bind; [apply fair_lift|]; intros ?).
  intros f. apply wp_locked; [by exists f|]. apply wp_bind, wp_fetch; [done|intros e; rest|].
  intros url r Hr. apply wp_op; [done|]. intros now Hnow. simpl after. split; [|intros [w|e] _; rest].
  split; [done|]. split; [by apply renewed_wf|by right].
Qed.

Lemma fair_resolve profile : fair (resolve_access_token json_error profile).
Proof.
  apply fair_bind; [by apply fair_quiet, quiet_op|]. intros [t|]; [apply fair_ret|].
  apply fair_bind; [apply fair_read|]. intros stored. apply fair_bind; [apply fair_quiet, quiet_client_id_value|]. intros current.
  apply fair_bind; [apply fair_try_refresh|]. intros outcome.
  assert (Hover : forall b, fair (match session_over b outcome with Some e => throw (auth_error e) | None => client_credentials_grant json_error end)).
  { intros b. destruct (session_over b outcome); [apply fair_throw|apply fair_client_credentials_grant]. }
  destruct outcome as [|[]|]; try apply Hover; [apply fair_ret|].
  apply fair_bind; [apply fair_quiet, quiet_can_remint|]. intros []; [apply fair_client_credentials_grant|apply fair_throw].
Qed.

Lemma fair_force : fair (force_refresh_session json_error).
Proof. apply fair_bind; [apply fair_try_refresh|]. intros o. apply fair_ret. Qed.

Lemma fair_delete : fair delete_token.
Proof.
  intros f. apply wp_file_lock; [by exists f|]. split; [done|]. intros [[]|e] _; simpl; rest.
Qed.

Lemma fair_logout : fair logout_profile.
Proof.
  do 2 (apply fair_bind; [by apply fair_quiet, quiet_op|]; intros ?). apply fair_bind; [apply fair_read|]. intros stored.
  apply fair_bind; [by apply fair_quiet, quiet_op|]. intros _. apply fair_bind; [apply fair_catch, fair_delete|]. intros _.
  apply fair_bind; [by apply fair_quiet, quiet_must, quiet_op|]. intros _. apply fair_ret.
Qed.

Lemma fair_probe base client login_type : fair (probe_existing_session json_error base client login_type).
Proof.
  apply fair_bind; [apply fair_quiet, quiet_identity|]. intros []; [|apply fair_ret]. cbn [negb].
  apply fair_bind.
  { apply fair_bind; [apply fair_read|]. intros stored. destruct (flatten stored) as [t|]; [|apply fair_ret].
    destruct (match client_id t with Some s => client_ids_match s client | None => true end); [|apply fair_ret].
    apply fair_bind; [by apply fair_quiet, quiet_op|]. intros now. apply fair_ret. }
  intros [tip|]; [apply fair_ret|]. apply fair_bind; [apply fair_try_refresh|]. intros [|reason|text]; [apply fair_ret|apply fair_ret|].
  apply fair_bind; [by apply fair_quiet, quiet_op|]. intros _. apply fair_bind; [apply fair_catch, fair_delete|]. intros deleted.
  apply fair_bind; [|intros _; apply fair_ret]. destruct deleted; [apply fair_ret|by apply fair_quiet, quiet_op].
Qed.

Lemma fair_refresh_profile profile : fair (refresh_profile json_error profile).
Proof.
  apply fair_bind; [by apply fair_quiet, quiet_op|]. intros [t|]; [apply fair_throw|].
  apply fair_bind; [apply fair_quiet, quiet_credentials|]. intros creds. apply fair_bind; [by apply fair_quiet, quiet_op|]. intros c.
  apply fair_bind; [apply fair_read|]. intros stored. cbv zeta. destruct (is_grant ClientCredentials _ || _); [|destruct (is_grant AuthorizationCode _ || _); [|apply fair_throw]].
  - do 3 (apply fair_bind; [apply fair_lift|]; intros ?). intros f. apply wp_login, wp_shown_grant, wp_client_credentials.
  - do 2 (apply fair_bind; [apply fair_lift|]; intros ?). apply fair_bind; [by apply fair_quiet, quiet_op|]. intros _.
    apply fair_bind; [apply fair_try_refresh|]. intros outcome. apply fair_bind; [by apply fair_quiet, quiet_op|]. intros _.
    destruct outcome; try apply fair_throw. apply fair_bind; [apply fair_quiet, quiet_emit_all|]. intros _. apply fair_ret.
Qed.

Lemma fair_snapshot : fair auth_snapshot.
Proof.
  apply fair_bind; [by apply fair_quiet, quiet_op|]. intros [t|]; [apply fair_ret|].
  apply fair_bind; [apply fair_quiet, quiet_credentials|]. intros creds. destruct (is_from_env _ && _); [apply fair_ret|].
  apply fair_bind; [by apply fair_quiet, quiet_op|]. intros c. destruct (cr_base_url creds), (cr_client_id creds); try apply fair_ret.
  apply fair_bind; [by apply fair_quiet, quiet_op|]. intros now. apply fair_bind; [apply fair_read|]. intros stored. apply fair_ret.
Qed.
End rules.
