(* ===== verification/AuthRace.v ===== *)
(** Sessions that run at the same time, in one process or in several: each step of one may
    come between the steps of another. Answers may be lost, the storage may fail or change
    by itself, and a session may be killed at any point. A refresh token that the server has
    taken is only sent again after such a fault, no one waits for ever, and every session
    ends. *)

From stdpp Require Import base gmap strings list relations.
From Stdlib Require Import ZArith Lia Ascii Strings.Byte Wellfounded.
From S2P Require Import Prelude Text Kebab Nouns Json Catalogue Sanitise Results Workflow Request Http Pagination Tokens Vault Config TokenStore AuthSession AuthRules.

#[local] Arguments String.append !_ _ /.

(** * The system *)

(** A session: the process it runs in, whether it has the mutex of that process and the
    file lock, and what is left of its program. *)
Record Thread : Type := mk_thread { process : nat; t_mutex : bool; t_lock : bool; code : prog unit }.

Section system.
Context `{JsonText, UrlParse, TokenStorage}.
Variable json_error : string -> string.

(** The storage, the refresh tokens that the server has given and has taken, and those that
    a fault has spoiled: the server took them and its answer was lost, or the storage came to
    show them otherwise than by the storing of a token. *)
Record Shared : Type := mk_shared { storage : Sto; issued : gset string; used : gset string; spoiled : gset string }.

Record World : Type := mk_world { shared : Shared; threads : list Thread }.

(** The refresh token that a storage shows. *)
Definition shown (st : Sto) : option string := stored_refresh (sto_read st).
Definition kept (s : Shared) : option string := shown (storage s).

(** What a storage shows that was not meant: a token other than [meant], unless it was there
    before and the server still takes it. *)
Definition surfaces (s : Shared) (st : Sto) (meant : option string) : gset string :=
  match shown st with
  | Some r => if decide (meant = Some r \/ (kept s = Some r /\ r ∉ used s)) then ∅ else {[ r ]}
  | None => ∅
  end.

(** The storage is changed, by a command that means it to show [meant]. *)
Definition restored (s : Shared) (st : Sto) (meant : option string) : Shared :=
  mk_shared st (issued s) (used s) (surfaces s st meant ∪ spoiled s).

(** The storage changes by itself: the keychain is locked or unlocked, another program writes. *)
Definition drift (s s' : Shared) : Prop := exists st, s' = restored s st (kept s).

(** The server exchanges a refresh token once, for another that it has not given before. It may
    do so and its answer be lost, or not be understood. *)
Definition serve (s : Shared) (r : TokenRequest) (a : result RawResponse string) (s' : Shared) : Prop :=
  storage s' = storage s /\
  match granted json_error a with
  | None =>
      issued s ⊆ issued s' /\
      (used s' = used s /\ spoiled s' = spoiled s \/
       exists t, sent_refresh_token r = Some t /\ t ∈ issued s /\ t ∉ used s /\ used s' = {[ t ]} ∪ used s /\ spoiled s' = {[ t ]} ∪ spoiled s)
  | Some res =>
      spoiled s' = spoiled s /\
      match sent_refresh_token r with
      | Some t => t ∈ issued s /\ t ∉ used s /\ used s' = {[ t ]} ∪ used s
      | None => used s' = used s
      end /\
      match res_refresh_token res with
      | Some n => n ∉ issued s /\ issued s' = {[ n ]} ∪ issued s
      | None => issued s' = issued s
      end
  end.

(** All the other sessions. *)
Definition others (w : World) (i : nat) (P : Thread -> Prop) : Prop := forall j o, threads w !! j = Some o -> j <> i -> P o.

(** One command of session [i]: the answer, and the storage and the locks after it. A read
    may fail, and a write or deletion do what the storage makes of it; the file lock excludes
    other processes, the mutex the sessions of its own. *)
Definition effect (w : World) (i : nat) (t : Thread) (c : cmd) : answer c -> Shared -> bool -> bool -> Prop :=
  let s := shared w in
  match c return answer c -> Shared -> bool -> bool -> Prop with
  | Now => fun a s' mu lo => in_u64 a /\ s' = s /\ mu = t_mutex t /\ lo = t_lock t
  | ReadToken => fun a s' mu lo => (a = sto_read (storage s) \/ exists e, a = Err e) /\ s' = s /\ mu = t_mutex t /\ lo = t_lock t
  | WriteToken d => fun a s' mu lo =>
      exists st, sto_write d (storage s) = (a, st) /\ s' = restored s st (refresh_token d) /\ mu = t_mutex t /\ lo = t_lock t
  | DeleteToken => fun a s' mu lo =>
      exists st, sto_delete (storage s) = (a, st) /\ s' = restored s st None /\ mu = t_mutex t /\ lo = t_lock t
  | AcquireMutex => fun _ s' mu lo =>
      others w i (fun o => process o = process t -> t_mutex o = false) /\ s' = s /\ mu = true /\ lo = t_lock t
  | ReleaseMutex => fun _ s' mu lo => s' = s /\ mu = false /\ lo = t_lock t
  | AcquireLock => fun a s' mu lo =>
      match a with
      | Ok _ => others w i (fun o => t_lock o = true -> process o = process t) /\ lo = true
      | Err _ => lo = t_lock t
      end /\ s' = s /\ mu = t_mutex t
  | ReleaseLock => fun _ s' mu lo => s' = s /\ mu = t_mutex t /\ lo = false
  | Post r => fun a s' mu lo => serve s r a s' /\ mu = t_mutex t /\ lo = t_lock t
  | _ => fun _ s' mu lo => s' = s /\ mu = t_mutex t /\ lo = t_lock t
  end.

(** A command, before which the storage may have changed; or the end of a session that is
    killed, which gives its locks back. *)
Inductive step (w : World) : World -> Prop :=
| step_thread i t c k a s s' mu lo :
    threads w !! i = Some t -> code t = Do c k -> drift (shared w) s -> effect (mk_world s (threads w)) i t c a s' mu lo ->
    step w (mk_world s' (<[i := mk_thread (process t) mu lo (k a)]> (threads w)))
| step_killed i t c k e :
    threads w !! i = Some t -> code t = Do c k ->
    step w (mk_world (restored (shared w) (storage (shared w)) None) (<[i := mk_thread (process t) false false (throw e)]> (threads w))).

(** * The callers *)

Inductive Caller : Type :=
| CallResolve (profile : string)
| CallTryRefresh (mode : RefreshMode) (expected : option string)
| CallForce
| CallClientCredentialsLogin (base_url client secret : string)
| CallAuthorizationCodeLogin (base_url client code verifier : string)
| CallProbe (base_url client login_type : string)
| CallLogout
| CallRefreshProfile (profile : string)
| CallSnapshot.

Definition forget {A} (m : prog A) : prog unit := _ ← m; mret tt.

Definition call (c : Caller) : prog unit :=
  match c with
  | CallResolve profile => forget (resolve_access_token json_error profile)
  | CallTryRefresh mode expected => forget (try_refresh_stored_session json_error mode expected)
  | CallForce => forget (force_refresh_session json_error)
  | CallClientCredentialsLogin base client secret => forget (login_with_client_credentials json_error base client secret)
  | CallAuthorizationCodeLogin base client code verifier => forget (login_with_authorization_code json_error base client code verifier)
  | CallProbe base client ty => forget (probe_existing_session json_error base client ty)
  | CallLogout => forget logout_profile
  | CallRefreshProfile profile => forget (refresh_profile json_error profile)
  | CallSnapshot => forget auth_snapshot
  end.

(** Sessions about to start, each in a process. *)
Definition start (s : Shared) (calls : list (nat * Caller)) : World :=
  mk_world s (map (fun pc => mk_thread pc.1 false false (call pc.2)) calls).

(** The refresh token in the storage, if any, is one that the server takes. *)
Definition sound_start (s : Shared) : Prop :=
  used s ⊆ issued s /\ spoiled s = ∅ /\ forall r, kept s = Some r -> r ∈ issued s /\ r ∉ used s.

Lemma forget_fair {A} (m : prog A) : fair json_error m -> fair json_error (forget m).
Proof. intros Hm. apply fair_bind; [done|]. intros _. apply fair_ret. Qed.

Lemma call_fair c : fair json_error (call c).
Proof.
  destruct c; apply forget_fair; [apply fair_resolve|apply fair_try_refresh|apply fair_force|apply fair_client_credentials_login|
    apply fair_authorization_code_login|apply fair_probe|apply fair_logout|apply fair_refresh_profile|apply fair_snapshot].
Qed.

(** * The invariant *)

Definition critical (l : Local) : Prop := has_mutex l = true /\ has_lock l = true.

(** What the sessions know, together with the world. *)
Record inv (w : World) (L : nat -> Local) : Prop := {
  inv_code i t : threads w !! i = Some t -> wp json_error (L i) (code t) rests /\ t_mutex t = has_mutex (L i) /\ t_lock t = has_lock (L i);
  inv_mutex i j t u : threads w !! i = Some t -> threads w !! j = Some u -> i <> j -> process t = process u ->
    has_mutex (L i) = true -> has_mutex (L j) = true -> False;
  inv_lock i j t u : threads w !! i = Some t -> threads w !! j = Some u -> has_lock (L i) = true -> has_lock (L j) = true ->
    process t = process u;
  inv_critical i t r : threads w !! i = Some t -> sendable (L i) = Some r -> critical (L i);
  inv_sendable i t r : threads w !! i = Some t -> sendable (L i) = Some r -> r ∉ spoiled (shared w) -> r ∈ issued (shared w) /\ r ∉ used (shared w);
  inv_fresh i t r : threads w !! i = Some t -> fresh (L i) = Some r -> r ∉ spoiled (shared w) ->
    r ∈ issued (shared w) /\ r ∉ used (shared w) /\ kept (shared w) <> Some r;
  inv_apart i j t u r : threads w !! i = Some t -> threads w !! j = Some u -> r ∉ spoiled (shared w) -> fresh (L i) = Some r -> sendable (L j) <> Some r;
  inv_own i j t u r : threads w !! i = Some t -> threads w !! j = Some u -> i <> j -> r ∉ spoiled (shared w) -> fresh (L i) = Some r -> fresh (L j) <> Some r;
  inv_owed i t : threads w !! i = Some t -> owed (L i) = true -> critical (L i);
  inv_kept r : kept (shared w) = Some r -> r ∉ spoiled (shared w) ->
    r ∈ issued (shared w) /\ (r ∉ used (shared w) \/ exists i t, threads w !! i = Some t /\ owed (L i) = true);
  inv_used r : r ∈ used (shared w) -> r ∈ issued (shared w)
}.

Lemma critical_unique w L i j t u : inv w L -> threads w !! i = Some t -> threads w !! j = Some u -> critical (L i) -> critical (L j) -> i = j.
Proof.
  intros I Hi Hj [Hmi Hli] [Hmj Hlj]. destruct (decide (i = j)) as [|Hne]; [done|]. exfalso.
  eapply (inv_mutex w L I i j); eauto. by eapply (inv_lock w L I i j).
Qed.

(** What session [i] knows after a step, the others knowing what they knew. *)
Definition upd (L : nat -> Local) (i : nat) (l : Local) : nat -> Local := fun j => if decide (j = i) then l else L j.

Lemma upd_same L i l : upd L i l i = l.
Proof. unfold upd. by case_decide. Qed.
Lemma upd_other L i j l : j <> i -> upd L i l j = L j.
Proof. intros. unfold upd. by case_decide. Qed.

(** What a step of session [i] has to satisfy for the invariant to go on. *)
Record allowed (w : World) (L : nat -> Local) (i : nat) (t : Thread) (s' : Shared) (l' : Local) : Prop := {
  al_mutex : has_mutex l' = true -> has_mutex (L i) = true \/ others w i (fun o => process o = process t -> t_mutex o = false);
  al_lock : has_lock l' = true -> has_lock (L i) = true \/ others w i (fun o => t_lock o = true -> process o = process t);
  al_spoiled r : r ∉ spoiled s' -> r ∉ spoiled (shared w);
  al_issued r : r ∈ issued (shared w) -> r ∈ issued s';
  al_used r : r ∈ used s' -> r ∈ used (shared w) \/ (sendable (L i) = Some r /\ r ∈ issued (shared w));
  al_critical r : sendable l' = Some r -> critical l';
  al_sendable r : sendable l' = Some r -> r ∉ spoiled s' -> r ∈ issued s' /\ r ∉ used s' /\ (sendable (L i) = Some r \/ kept (shared w) = Some r);
  al_fresh r : fresh l' = Some r -> r ∉ spoiled s' -> r ∈ issued s' /\ r ∉ used s' /\ kept s' <> Some r /\ sendable l' <> Some r /\
    (fresh (L i) = Some r \/ r ∉ issued (shared w));
  al_kept r : kept s' = Some r -> r ∉ spoiled s' -> kept (shared w) = Some r \/ fresh (L i) = Some r;
  al_owed : owed l' = true -> critical l';
  al_taken r : kept s' = Some r -> r ∉ spoiled s' -> r ∈ used s' ->
    owed l' = true \/ (kept (shared w) = Some r /\ r ∈ used (shared w) /\ owed (L i) = false)
}.

Lemma lookup_upd (ts : list Thread) i j th o : <[i := th]> ts !! j = Some o -> (j = i /\ o = th) \/ (j <> i /\ ts !! j = Some o).
Proof. intros Hl. apply list_lookup_insert_Some in Hl as [(-> & <- & _)|[Hne Hl]]; [by left|by right]. Qed.

(** Case analysis: the session that took the step, or another. *)
Ltac who Hl := apply lookup_upd in Hl as [[-> ->]|[? Hl]]; rewrite ?upd_same, ?upd_other by done; cbn [process t_mutex t_lock code].

Section inv_step.
Context (w : World) (L : nat -> Local) (i : nat) (t : Thread) (s' : Shared) (l' : Local) (m : prog unit).
Hypothesis I : inv w L.
Hypothesis Hi : threads w !! i = Some t.
Hypothesis Hm : wp json_error l' m rests.
Hypothesis Al : allowed w L i t s' l'.

Let w' := mk_world s' (<[i := mk_thread (process t) (has_mutex l') (has_lock l') m]> (threads w)).
Let L' := upd L i l'.

(** The mutex of a process, and the lock, against what another session holds. *)
Lemma step_mutex j u : threads w !! j = Some u -> j <> i -> process t = process u -> has_mutex l' = true -> has_mutex (L j) = true -> False.
Proof.
  intros Hj Hne Hp Hl HL. destruct (al_mutex _ _ _ _ _ _ Al Hl) as [Hold|Hfree].
  - by eapply (inv_mutex w L I i j).
  - pose proof (Hfree j u Hj Hne (eq_sym Hp)) as Hf. destruct (inv_code w L I j u Hj) as (_ & Hc & _). by rewrite Hf, HL in Hc.
Qed.

Lemma step_lock j u : threads w !! j = Some u -> j <> i -> has_lock l' = true -> has_lock (L j) = true -> process u = process t.
Proof.
  intros Hj Hne Hl HL. destruct (al_lock _ _ _ _ _ _ Al Hl) as [Hold|Hfree].
  - by eapply (inv_lock w L I j i).
  - destruct (inv_code w L I j u Hj) as (_ & _ & Hc). apply (Hfree j u Hj Hne). by rewrite Hc.
Qed.

(** What another session may send or has to store stays good. *)
Lemma step_unused j u r : threads w !! j = Some u -> j <> i -> sendable (L j) = Some r \/ fresh (L j) = Some r -> r ∉ spoiled s' ->
  r ∈ issued s' /\ r ∉ used s'.
Proof.
  intros Hj Hne Hr Hsp. pose proof (al_spoiled _ _ _ _ _ _ Al r Hsp) as Hsw. assert (Hold : r ∈ issued (shared w) /\ r ∉ used (shared w)).
  { destruct Hr as [Hr|Hr]; [by apply (inv_sendable w L I j u r)|]. by destruct (inv_fresh w L I j u r Hj Hr Hsw) as (? & ? & _). }
  destruct Hold as [Hin Hout]. split; [by apply (al_issued _ _ _ _ _ _ Al)|]. intros Hu.
  apply (al_used _ _ _ _ _ _ Al) in Hu as [Hu|[Hs _]]; [done|]. destruct Hr as [Hr|Hr].
  - apply Hne. eapply (critical_unique w L); eauto; [by apply (inv_critical w L I j u r)|by apply (inv_critical w L I i t r)].
  - by apply (inv_apart w L I j i u t r).
Qed.

Lemma step_kept r : kept s' = Some r -> r ∉ spoiled s' ->
  r ∈ issued s' /\ (r ∉ used s' \/ exists j u, threads w' !! j = Some u /\ owed (L' j) = true).
Proof.
  intros Hk Hsp. pose proof (al_spoiled _ _ _ _ _ _ Al r Hsp) as Hsw. assert (Hin : r ∈ issued (shared w)).
  { destruct (al_kept _ _ _ _ _ _ Al r Hk Hsp) as [Hk'|Hf]; [by apply (inv_kept w L I)|by apply (inv_fresh w L I i t r)]. }
  split; [by apply (al_issued _ _ _ _ _ _ Al)|]. destruct (decide (r ∈ used s')) as [Hu|]; [right|by left].
  assert (Hlen : (i < length (threads w))%nat) by (by eapply lookup_lt_Some).
  destruct (al_taken _ _ _ _ _ _ Al r Hk Hsp Hu) as [Ho|(Hk' & Hu' & Hno)].
  - exists i. eexists. split; [by apply list_lookup_insert_eq|]. unfold L'. by rewrite upd_same.
  - destruct (inv_kept w L I r Hk' Hsw) as [_ [|(j & u & Hj & Ho)]]; [done|]. exists j, u.
    assert (j <> i) by congruence. split; [simpl; by rewrite list_lookup_insert_ne|]. unfold L'. by rewrite upd_other.
Qed.

Lemma inv_step : inv w' L'.
Proof.
  split; unfold w', L'; cbn [shared threads].
  - intros j u Hj. who Hj; [done|by apply (inv_code w L I)].
  - intros j k u v Hj Hk Hne. who Hj; who Hk; intros Hp Ha Hb; [done|by eapply (step_mutex k v)|by eapply (step_mutex j u)|by eapply (inv_mutex w L I j k)].
  - intros j k u v Hj Hk. who Hj; who Hk; intros Ha Hb; [done|symmetry; by eapply (step_lock k v)|by eapply (step_lock j u)|by eapply (inv_lock w L I j k)].
  - intros j u r Hj. who Hj; [apply (al_critical _ _ _ _ _ _ Al)|by apply (inv_critical w L I j u)].
  - intros j u r Hj. who Hj; intros Hs Hsp; [by destruct (al_sendable _ _ _ _ _ _ Al r Hs Hsp) as (? & ? & _)|]. apply (step_unused j u r); auto.
  - intros j u r Hj. who Hj; intros Hf Hsp; [by destruct (al_fresh _ _ _ _ _ _ Al r Hf Hsp) as (? & ? & ? & _)|].
    pose proof (al_spoiled _ _ _ _ _ _ Al r Hsp) as Hsw.
    destruct (step_unused j u r) as [? ?]; auto. split_and!; [done..|]. intros Hk.
    destruct (al_kept _ _ _ _ _ _ Al r Hk Hsp) as [Hk'|Hf']; [by apply (inv_fresh w L I j u r)|]. by eapply (inv_own w L I i j t u r).
  - intros j k u v r Hj Hk Hsp. pose proof (al_spoiled _ _ _ _ _ _ Al r Hsp) as Hsw. who Hj; who Hk; intros Hf Hs.
    + by destruct (al_fresh _ _ _ _ _ _ Al r Hf Hsp) as (_ & _ & _ & ? & _).
    + destruct (al_fresh _ _ _ _ _ _ Al r Hf Hsp) as (_ & _ & _ & _ & [Hf'|Hn]); [by apply (inv_apart w L I i k t v r)|].
      apply Hn. by apply (inv_sendable w L I k v r).
    + destruct (al_sendable _ _ _ _ _ _ Al r Hs Hsp) as (_ & _ & [Hs'|Hk']); [by apply (inv_apart w L I j i u t r)|by apply (inv_fresh w L I j u r)].
    + by apply (inv_apart w L I j k u v r).
  - intros j k u v r Hj Hk Hne Hsp. pose proof (al_spoiled _ _ _ _ _ _ Al r Hsp) as Hsw. who Hj; who Hk; intros Hf Hg; try done.
    + destruct (al_fresh _ _ _ _ _ _ Al r Hf Hsp) as (_ & _ & _ & _ & [Hf'|Hn]); [by apply (inv_own w L I i k t v r)|].
      apply Hn. by apply (inv_fresh w L I k v r).
    + destruct (al_fresh _ _ _ _ _ _ Al r Hg Hsp) as (_ & _ & _ & _ & [Hf'|Hn]); [by apply (inv_own w L I j i u t r)|].
      apply Hn. by apply (inv_fresh w L I j u r).
    + by apply (inv_own w L I j k u v r).
  - intros j u Hj. who Hj; [apply (al_owed _ _ _ _ _ _ Al)|by apply (inv_owed w L I j u)].
  - apply step_kept.
  - intros r Hr. apply (al_issued _ _ _ _ _ _ Al). by apply (al_used _ _ _ _ _ _ Al) in Hr as [Hr|[_ Hr]]; [apply (inv_used w L I)|].
Qed.
End inv_step.

(** ** The storage *)

Lemma surfaces_shown s st meant r : shown st = Some r -> r ∉ surfaces s st meant -> meant = Some r \/ (kept s = Some r /\ r ∉ used s).
Proof. unfold surfaces. intros ->. case_decide; [done|]. set_solver. Qed.

Lemma restored_spoiled s st meant r : r ∉ spoiled (restored s st meant) -> r ∉ surfaces s st meant /\ r ∉ spoiled s.
Proof. simpl. set_solver. Qed.

Lemma drift_refl s : drift s s.
Proof.
  exists (storage s). unfold restored, surfaces. fold (kept s). destruct (kept s) as [r|]; [rewrite decide_True by auto|];
    destruct s; simpl; f_equal; set_solver.
Qed.

Lemma inv_drift w L s : inv w L -> drift (shared w) s -> inv (mk_world s (threads w)) L.
Proof.
  intros I [st ->]. split; cbn [shared threads]; try apply I.
  - intros i t r Hi Hs [_ Hsp]%restored_spoiled. by apply (inv_sendable w L I i t).
  - intros i t r Hi Hf [Hsu Hsp]%restored_spoiled. destruct (inv_fresh w L I i t r Hi Hf Hsp) as (? & ? & Hk). split_and!; [done..|].
    intros Hk'. by destruct (surfaces_shown _ _ _ _ Hk' Hsu) as [|[? _]].
  - intros i j t u r Hi Hj [_ Hsp]%restored_spoiled. by apply (inv_apart w L I i j t u).
  - intros i j t u r Hi Hj Hne [_ Hsp]%restored_spoiled. by apply (inv_own w L I i j t u).
  - intros r Hk [Hsu Hsp]%restored_spoiled. apply (inv_kept w L I); [|done]. by destruct (surfaces_shown _ _ _ _ Hk Hsu) as [|[? _]].
Qed.

(** A step that leaves the shared state alone and asks for no more than the session has. *)
Lemma allowed_same w L i t l' : inv w L -> threads w !! i = Some t ->
  (has_mutex l' = true -> has_mutex (L i) = true \/ others w i (fun o => process o = process t -> t_mutex o = false)) ->
  (has_lock l' = true -> has_lock (L i) = true \/ others w i (fun o => t_lock o = true -> process o = process t)) ->
  (forall r, sendable l' = Some r -> critical l' /\ sendable (L i) = Some r) -> fresh l' = fresh (L i) -> owed l' = owed (L i) ->
  (owed l' = true -> critical l') ->
  allowed w L i t (shared w) l'.
Proof.
  intros I Hi Hmu Hlo Hs Hf Ho Hc. split; auto.
  - intros r Hr. by destruct (Hs r Hr).
  - intros r Hr Hsp. destruct (Hs r Hr) as [_ Hr']. destruct (inv_sendable w L I i t r Hi Hr' Hsp) as (? & ?). auto.
  - intros r Hr Hsp. rewrite Hf in Hr. destruct (inv_fresh w L I i t r Hi Hr Hsp) as (? & ? & ?). split_and!; auto.
    intros Hs'. destruct (Hs r Hs') as [_ Hs'']. by apply (inv_apart w L I i i t t r).
  - intros r Hk _ Hu. destruct (owed l') eqn:E; [by left|right]. by rewrite <- Ho.
Qed.

(** ** Commands *)

Section commands.
Context (w : World) (L : nat -> Local) (i : nat) (t : Thread).
Hypothesis I : inv w L.
Hypothesis Hi : threads w !! i = Some t.

Lemma allowed_id : allowed w L i t (shared w) (L i).
Proof.
  apply allowed_same; auto.
  - intros r Hr. split; [by apply (inv_critical w L I i t r)|done].
  - by apply (inv_owed w L I i t).
Qed.

Lemma allowed_read a : may (L i) ReadToken -> a = sto_read (storage (shared w)) \/ (exists e, a = Err e) ->
  allowed w L i t (shared w) (after json_error (L i) ReadToken a).
Proof.
  simpl. intros Hno Ha. destruct (has_mutex (L i)) eqn:Emu, (has_lock (L i)) eqn:Elo; try apply allowed_id. simpl.
  assert (Hc : critical (L i)) by by split.
  assert (Hk : forall r, stored_refresh a = Some r -> kept (shared w) = Some r).
  { intros r. destruct Ha as [->|[e ->]]; [done|]. done. }
  split; simpl; auto.
  - by split.
  - intros r Hr Hsp. specialize (Hk r Hr). destruct (inv_kept w L I r Hk Hsp) as [? [?|(j & u & Hj & Ho)]]; [by split_and!; auto|]. exfalso.
    assert (i = j) by (eapply (critical_unique w L); eauto; by apply (inv_owed w L I j u)). congruence.
  - intros r Hr Hsp. destruct (inv_fresh w L I i t r Hi Hr Hsp) as (? & ? & ?). split_and!; auto.
  - intros Ho. by rewrite Ho in Hno.
Qed.

Lemma allowed_write d a st : may (L i) (WriteToken d) ->
  allowed w L i t (restored (shared w) st (refresh_token d)) (after json_error (L i) (WriteToken d) a).
Proof.
  intros (Hl & Hwf & Hr). split; cbn [after has_mutex has_lock sendable fresh owed issued used]; auto; try done.
  - intros r Hsp. by apply restored_spoiled in Hsp as [_ ?].
  - intros r Hsr. by destruct (inv_critical w L I i t r Hi Hsr).
  - intros r Hsr [_ Hsp]%restored_spoiled. destruct (inv_sendable w L I i t r Hi Hsr Hsp). auto.
  - intros r Hk [Hsu _]%restored_spoiled. destruct (surfaces_shown _ _ _ _ Hk Hsu) as [Hd|[? _]]; [|by left].
    right. destruct Hr as [Hr|Hr]; congruence.
  - intros r Hk [Hsu Hsp]%restored_spoiled Hu. destruct (surfaces_shown _ _ _ _ Hk Hsu) as [Hd|[_ ?]]; [|done].
    destruct Hr as [Hr|Hr]; [congruence|]. rewrite Hd in Hr. by destruct (inv_fresh w L I i t r Hi (eq_sym Hr) Hsp) as (_ & ? & _).
Qed.

(** Nothing is stored: what the session knows is still so, or less. *)
Lemma allowed_clear st l' : (forall r, sendable l' = Some r -> sendable (L i) = Some r) -> (forall r, fresh l' = Some r -> fresh (L i) = Some r) ->
  (has_mutex l' = true -> has_mutex (L i) = true) -> (has_lock l' = true -> has_lock (L i) = true) ->
  (forall r, sendable l' = Some r -> critical l') -> (owed l' = true -> critical l') ->
  allowed w L i t (restored (shared w) st None) l'.
Proof.
  intros Hs Hf Hm Hl Hcs Hco. split; cbn [issued used]; auto.
  - intros r Hsp. by apply restored_spoiled in Hsp as [_ ?].
  - intros r Hsr [_ Hsp]%restored_spoiled. destruct (inv_sendable w L I i t r Hi (Hs r Hsr) Hsp). auto.
  - intros r Hfr [Hsu Hsp]%restored_spoiled. destruct (inv_fresh w L I i t r Hi (Hf r Hfr) Hsp) as (? & ? & Hk). split_and!; auto.
    + intros Hk'. by destruct (surfaces_shown _ _ _ _ Hk' Hsu) as [|[? _]].
    + intros Hsr. by apply (inv_apart w L I i i t t r Hi Hi Hsp (Hf r Hfr)), Hs.
  - intros r Hk [Hsu _]%restored_spoiled. destruct (surfaces_shown _ _ _ _ Hk Hsu) as [|[? _]]; [done|by left].
  - intros r Hk [Hsu _]%restored_spoiled Hu. by destruct (surfaces_shown _ _ _ _ Hk Hsu) as [|[_ ?]].
Qed.

Lemma allowed_delete st : allowed w L i t (restored (shared w) st None) (L i).
Proof. apply allowed_clear; auto; [intros r; by apply (inv_critical w L I i t)|by apply (inv_owed w L I i t)]. Qed.

Lemma allowed_killed st : allowed w L i t (restored (shared w) st None) idle.
Proof. by apply allowed_clear. Qed.

(** An answer that grants nothing, whatever the server did. *)
Lemma allowed_lost r s' : may (L i) (Post r) -> storage s' = storage (shared w) -> issued (shared w) ⊆ issued s' ->
  (used s' = used (shared w) /\ spoiled s' = spoiled (shared w) \/
   exists t, sent_refresh_token r = Some t /\ t ∈ issued (shared w) /\ t ∉ used (shared w) /\ used s' = {[ t ]} ∪ used (shared w) /\
     spoiled s' = {[ t ]} ∪ spoiled (shared w)) ->
  allowed w L i t s' (L i).
Proof.
  intros [Hno Hs] Hst His Hcase.
  assert (Hsp : forall x, x ∉ spoiled s' -> x ∉ spoiled (shared w) /\ (x ∈ used s' -> x ∈ used (shared w))).
  { intros x Hx. destruct Hcase as [[-> Hsp]|(rt & _ & _ & _ & Hu & Hsp)]; rewrite Hsp in Hx; [done|]. rewrite Hu. set_solver. }
  assert (Hk : kept s' = kept (shared w)) by (unfold kept; by rewrite Hst).
  split; auto.
  - intros x Hx. by destruct (Hsp x Hx).
  - intros x Hx. destruct Hcase as [[Hu _]|(rt & Hrt & Hin & _ & Hu & _)]; rewrite Hu in Hx; [by left|].
    apply elem_of_union in Hx as [->%elem_of_singleton|Hx]; [|by left]. right. by rewrite Hrt in Hs.
  - intros x. by apply (inv_critical w L I i t).
  - intros x Hx Hxs. destruct (Hsp x Hxs) as [Hxw Hux]. destruct (inv_sendable w L I i t x Hi Hx Hxw). split_and!; auto.
  - intros x Hx Hxs. destruct (Hsp x Hxs) as [Hxw Hux]. destruct (inv_fresh w L I i t x Hi Hx Hxw) as (? & ? & ?). rewrite Hk. split_and!; auto.
    by apply (inv_apart w L I i i t t x).
  - intros x. rewrite Hk. auto.
  - by apply (inv_owed w L I i t).
  - intros x. rewrite Hk. intros Hkx Hxs Hx. right. destruct (Hsp x Hxs) as [_ Hux]. auto.
Qed.

Lemma allowed_post r a s' : may (L i) (Post r) -> serve (shared w) r a s' -> allowed w L i t s' (after json_error (L i) (Post r) a).
Proof.
  unfold serve. intros Hmay [Hst Ha]. pose proof Hmay as [Hno Hs]. simpl. destruct (granted json_error a) as [res|]; [|by destruct Ha; eapply allowed_lost].
  destruct Ha as (Hsp & Hu & Hn).
  assert (Hk : kept s' = kept (shared w)) by (unfold kept; by rewrite Hst).
  assert (Hsub : forall x, x ∈ issued (shared w) -> x ∈ issued s').
  { intros x Hx. destruct (res_refresh_token res); [destruct Hn as [_ ->]; set_solver|by rewrite Hn]. }
  assert (Hused : forall x, x ∈ used s' -> x ∈ used (shared w) \/ (sendable (L i) = Some x /\ x ∈ issued (shared w))).
  { intros x Hx. destruct (sent_refresh_token r) as [rt|]; [|rewrite Hu in Hx; by left]. destruct Hu as (Hin & _ & Hu). rewrite Hu in Hx.
    apply elem_of_union in Hx as [->%elem_of_singleton|Hx]; [by right|by left]. }
  split; cbn [has_mutex has_lock sendable fresh owed]; auto; try done.
  - intros x. by rewrite Hsp.
  - intros n Hf Hns. rewrite Hf in Hn. destruct Hn as [Hnew ->]. rewrite Hsp in Hns. split_and!; auto; [set_solver| |].
    + intros Hx. apply Hnew. destruct (Hused n Hx) as [|[_ ?]]; [by apply (inv_used w L I)|done].
    + rewrite Hk. intros Hkn. by apply Hnew, (inv_kept w L I).
  - intros x. rewrite Hk. auto.
  - intros Ho. apply bool_decide_eq_true_1 in Ho as [rt Hrt]. rewrite Hrt in Hs. by destruct (inv_critical w L I i t rt Hi Hs).
  - intros x. rewrite Hk. intros Hkx _ Hx. destruct (sent_refresh_token r) as [rt|] eqn:Ert; [by left; apply bool_decide_eq_true_2; eexists|].
    right. rewrite Hu in Hx. auto.
Qed.

(** Every command that the session may give. *)
Lemma allowed_effect c a s' mu lo : may (L i) c -> effect w i t c a s' mu lo ->
  t_mutex t = has_mutex (L i) -> t_lock t = has_lock (L i) ->
  plausible c a /\ mu = has_mutex (after json_error (L i) c a) /\ lo = has_lock (after json_error (L i) c a) /\
  allowed w L i t s' (after json_error (L i) c a).
Proof.
  intros Hm He Hmu Hlo. pose proof allowed_id as Hid.
  destruct c; simpl in He; try (destruct He as (-> & -> & ->); by split_and!).
  - destruct He as (? & -> & -> & ->). by split_and!.
  - destruct He as (Ha & -> & -> & ->). split; [done|]. rewrite Hmu, Hlo.
    split_and!; [| |by apply allowed_read]; simpl; destruct (has_mutex (L i)) eqn:E1, (has_lock (L i)) eqn:E2; simpl; by rewrite ?E1, ?E2.
  - destruct He as (st & Hs & -> & -> & ->). rewrite Hmu, Hlo. split_and!; try done. by apply allowed_write.
  - destruct He as (st & Hs & -> & -> & ->). rewrite Hmu, Hlo. split_and!; try done. apply allowed_delete.
  - destruct He as (Hfree & -> & -> & ->). rewrite Hlo. split_and!; try done. destruct Hm as [Hm1 Hm2].
    apply allowed_same; simpl; auto.
    + intros r Hr. destruct (inv_critical w L I i t r Hi Hr). congruence.
    + intros Ho. destruct (inv_owed w L I i t Hi Ho). congruence.
  - destruct He as (-> & -> & ->). rewrite Hlo. split_and!; try done. destruct Hm as [Hm1 Hm2].
    apply allowed_same; simpl; auto; try done. intros Ho. destruct (inv_owed w L I i t Hi Ho). congruence.
  - destruct He as (Ha & -> & ->). rewrite Hmu. destruct a as [[]|e]; simpl in *; [|subst; by split_and!].
    destruct Ha as [Hfree ->]. split_and!; try done. apply allowed_same; simpl; auto.
    + intros r Hr. destruct (inv_critical w L I i t r Hi Hr). congruence.
    + intros Ho. destruct (inv_owed w L I i t Hi Ho). congruence.
  - destruct He as (-> & -> & ->). rewrite Hmu. destruct Hm as [Hm1 Hm2]. split_and!; try done.
    apply allowed_same; simpl; auto; try done. intros Ho. congruence.
  - destruct He as (Hs & -> & ->). rewrite Hmu, Hlo. split_and!; [done| | |by apply allowed_post]; simpl; by destruct (granted json_error a).
Qed.
End commands.

(** * Safety *)

Lemma inv_preserved w w' : (exists L, inv w L) -> step w w' -> exists L, inv w' L.
Proof.
  intros [L I] [i t c k a s s' mu lo Hi Hc Hd He|i t c k e Hi Hc].
  - pose proof (inv_drift w L s I Hd) as I'. change (threads w !! i = Some t) with (threads (mk_world s (threads w)) !! i = Some t) in Hi.
    destruct (inv_code _ L I' i t Hi) as (Hwp & Hmu & Hlo). rewrite Hc in Hwp. destruct Hwp as [Hm Hk].
    destruct (allowed_effect _ L i t I' Hi c a s' mu lo Hm He Hmu Hlo) as (Hp & -> & -> & Hal).
    eexists. apply (inv_step (mk_world s (threads w)) L i t s' _ _ I' Hi); eauto.
  - exists (upd L i idle). apply (inv_step w L i t _ idle _ I Hi); [by exists None|by apply allowed_killed].
Qed.

Lemma inv_start s calls : sound_start s -> inv (start s calls) (fun _ => idle).
Proof.
  intros (Hsub & _ & Hk). split; simpl; try done.
  - intros i t Hi. rewrite list_lookup_fmap in Hi. destruct (calls !! i) as [[p c]|]; [|done]. injection Hi as <-. simpl.
    split; [apply call_fair|done].
  - intros r Hr _. destruct (Hk r Hr). auto.
Qed.

Lemma inv_reachable s calls w : sound_start s -> rtc step (start s calls) w -> exists L, inv w L.
Proof.
  intros Hs Hr. assert (Hstart : exists L, inv (start s calls) L) by (eexists; by apply inv_start).
  induction Hr as [|x y z Hxy _ IH]; [done|]. apply IH. by eapply inv_preserved.
Qed.

(** [C5] However many sessions run in however many processes, and however their steps
    interleave, whenever a session is about to ask for a refresh, the token it sends is one
    the server has given and has not taken, or one that a fault has spoiled: the server took
    it and the answer was lost (or granted nothing), or the storage showed it after a write
    or deletion that did not do what it should, after a session was killed between the
    exchange and the storing, or by a change of its own. Without such a fault no refresh
    token is sent again once the server has exchanged it. *)
Theorem no_refresh_token_is_replayed s calls w i t r k token :
  sound_start s -> rtc step (start s calls) w ->
  threads w !! i = Some t -> code t = Do (Post r) k -> sent_refresh_token r = Some token ->
  (token ∈ issued (shared w) /\ token ∉ used (shared w)) \/ token ∈ spoiled (shared w).
Proof.
  intros Hs Hr Hi Hc Ht. destruct (inv_reachable s calls w Hs Hr) as [L I].
  destruct (inv_code w L I i t Hi) as [Hwp _]. rewrite Hc in Hwp. destruct Hwp as [[_ Hm] _]. rewrite Ht in Hm.
  destruct (decide (token ∈ spoiled (shared w))); [by right|left]. by apply (inv_sendable w L I i t token).
Qed.

(** When every session is done, the refresh token in the storage, if there is one, is
    one that the server still takes, or spoiled by a fault: no interleaving leaves a profile
    with a token that has been exchanged. *)
Theorem stored_token_stays_usable s calls w token :
  sound_start s -> rtc step (start s calls) w -> (forall i t, threads w !! i = Some t -> exists r, code t = Done r) ->
  kept (shared w) = Some token -> (token ∈ issued (shared w) /\ token ∉ used (shared w)) \/ token ∈ spoiled (shared w).
Proof.
  intros Hs Hr Hdone Hk. destruct (inv_reachable s calls w Hs Hr) as [L I].
  destruct (decide (token ∈ spoiled (shared w))) as [|Hsp]; [by right|left].
  destruct (inv_kept w L I token Hk Hsp) as [Hin [|(i & t & Hi & Ho)]]; [done|]. destruct (Hdone i t Hi) as [x Hx].
  destruct (inv_code w L I i t Hi) as [Hwp _]. rewrite Hx in Hwp. destruct Hwp as [f Hf]. by rewrite Hf in Ho.
Qed.

(** * Progress *)

(** A step that is not the failure of a lock. *)
Definition succeeds (c : cmd) : answer c -> Prop := match c return answer c -> Prop with AcquireLock => fun a => a = Ok tt | _ => fun _ => True end.

Inductive smooth (w : World) : World -> Prop :=
| smooth_thread i t c k a s' mu lo :
    threads w !! i = Some t -> code t = Do c k -> effect w i t c a s' mu lo -> succeeds c a ->
    smooth w (mk_world s' (<[i := mk_thread (process t) mu lo (k a)]> (threads w))).

Lemma enabled w i t c k : threads w !! i = Some t -> code t = Do c k ->
  (c = AcquireMutex -> others w i (fun o => t_mutex o = false)) -> (c = AcquireLock -> others w i (fun o => t_lock o = false)) ->
  exists w', smooth w w'.
Proof.
  intros Hi Hc Hmu Hlo.
  assert (He : exists a s' mu lo, effect w i t c a s' mu lo /\ succeeds c a).
  { destruct c; simpl; try (by eexists None, _, _, _); try (by eexists (Err (internal "")), _, _, _); try (by eexists tt, _, _, _).
    - by eexists 0, _, _, _.
    - eexists _, _, _, _. split; [|done]. split; [by left|done].
    - destruct (sto_write t0 (storage (shared w))) as [a st] eqn:E. eexists a, _, _, _. split; [by exists st|done].
    - destruct (sto_delete (storage (shared w))) as [a st] eqn:E. eexists a, _, _, _. split; [by exists st|done].
    - eexists tt, _, _, _. split; [|done]. split; [|done]. intros j o Hj Hne _. by apply (Hmu eq_refl j).
    - eexists (Ok tt), _, _, _. split; [|done]. split; [|done]. split; [|done]. intros j o Hj Hne Ho.
      by rewrite (Hlo eq_refl j o Hj Hne) in Ho.
    - eexists (Err "offline"), (shared w), _, _. split; [|done]. split_and!; [|done..]. split; [done|]. split; [done|by left]. }
  destruct He as (a & s' & mu & lo & He & Ha). eexists. by eapply smooth_thread.
Qed.

Lemma done_rests w L i t r : inv w L -> threads w !! i = Some t -> code t = Done r -> t_mutex t = false /\ t_lock t = false.
Proof.
  intros I Hi Hc. destruct (inv_code w L I i t Hi) as (Hwp & -> & ->). rewrite Hc in Hwp. destruct Hwp as [f Hf]. by rewrite Hf.
Qed.

(** Whoever holds the file lock can go on; else whoever holds a mutex; else anyone. *)
Lemma some_session_moves w i t c k : (exists L, inv w L) -> threads w !! i = Some t -> code t = Do c k -> exists w', smooth w w'.
Proof.
  intros [L I] Hi Hc.
  destruct (decide (Exists (fun u => t_lock u = true) (threads w))) as [[u [[j Hj]%list_elem_of_lookup Hu]]%Exists_exists|Hnolock].
  { destruct (code u) as [r|c' k'] eqn:Hcu; [destruct (done_rests w L j u r I Hj Hcu); congruence|].
    destruct (inv_code w L I j u Hj) as (Hwp & Hmu & Hlo). rewrite Hcu in Hwp. destruct Hwp as [Hm _].
    apply (enabled w j u c' k' Hj Hcu); intros ->; simpl in Hm; [destruct Hm|]; congruence. }
  assert (Hlock : forall j u, threads w !! j = Some u -> t_lock u = false).
  { intros j u Hj. destruct (t_lock u) eqn:E; [|done]. exfalso. apply Hnolock, Exists_exists. exists u. split; [|done]. by eapply list_elem_of_lookup_2. }
  destruct (decide (Exists (fun u => t_mutex u = true) (threads w))) as [[u [[j Hj]%list_elem_of_lookup Hu]]%Exists_exists|Hnomutex].
  { destruct (code u) as [r|c' k'] eqn:Hcu; [destruct (done_rests w L j u r I Hj Hcu); congruence|].
    destruct (inv_code w L I j u Hj) as (Hwp & Hmu & Hlo). rewrite Hcu in Hwp. destruct Hwp as [Hm _].
    apply (enabled w j u c' k' Hj Hcu); intros ->; [simpl in Hm; destruct Hm; congruence|]. intros j' o Hj' _. by eapply Hlock. }
  apply (enabled w i t c k Hi Hc); intros _ j u Hj _; [|by eapply Hlock].
  destruct (t_mutex u) eqn:E; [|done]. exfalso. apply Hnomutex, Exists_exists. exists u. split; [|done]. by eapply list_elem_of_lookup_2.
Qed.

(** ** Every run ends *)

(** What is left after one more answer. *)
Definition rest_of (m' m : prog unit) : Prop := match m with Done _ => False | Do c k => (exists a, m' = k a) \/ exists e, m' = throw e end.

Lemma rest_of_wf : well_founded rest_of.
Proof. intros m. induction m as [r|c k IH]; constructor; intros m' Hm; [done|]. destruct Hm as [[a ->]|[e ->]]; [apply IH|]. by constructor. Qed.

(** One session has taken a step. *)
Definition one_less (l' l : list (prog unit)) : Prop := exists i m m', l !! i = Some m /\ rest_of m' m /\ l' = <[i := m']> l.

Lemma one_less_cons m : forall l, Acc one_less l -> Acc one_less (m :: l).
Proof.
  induction (rest_of_wf m) as [m _ IHm]. intros l Hl. pose proof Hl as Hacc. induction Hl as [l Hl IHl]. constructor.
  intros l' ([|i] & x & x' & Hx & Hr & ->); simpl in *; [injection Hx as ->; by apply IHm|].
  assert (Hless : one_less (<[i := x']> l) l) by by exists i, x, x'. apply IHl; [done|by apply Hl].
Qed.

Lemma one_less_wf : well_founded one_less.
Proof. intros l. induction l as [|m l IH]; [|by apply one_less_cons]. constructor. intros l' (i & x & x' & Hx & _). done. Qed.

Lemma step_one_less w w' : step w w' -> one_less (map code (threads w')) (map code (threads w)).
Proof.
  assert (Hl : forall i t c k m mu lo, threads w !! i = Some t -> code t = Do c k -> rest_of m (Do c k) ->
    one_less (map code (<[i := mk_thread (process t) mu lo m]> (threads w))) (map code (threads w))).
  { intros i t c k m mu lo Hi Hc Hm. exists i, (Do c k), m. split_and!; [|done|by rewrite list_fmap_insert].
    by rewrite list_lookup_fmap, Hi; simpl; rewrite Hc. }
  intros [i t c k a s s' mu lo Hi Hc _ _|i t c k e Hi Hc]; (eapply Hl; [exact Hi|exact Hc|]); [left; by exists a|right; by exists e].
Qed.

(** [C7] Every session comes to an end: there is no endless run, and as long as a session is
    not done, some session can take a step that is not the failure of a lock, so that no
    interleaving of the two locks is a deadlock; at the end no lock is held. *)
Theorem every_session_ends s calls w :
  sound_start s -> rtc step (start s calls) w ->
  Acc (fun w2 w1 => step w1 w2) w /\
  ((forall w', ~ smooth w w') -> forall i t, threads w !! i = Some t -> (exists r, code t = Done r) /\ t_mutex t = false /\ t_lock t = false).
Proof.
  intros Hs Hr. pose proof (inv_reachable s calls w Hs Hr) as HI. split.
  - assert (Hacc : Acc (fun w2 w1 => one_less (map code (threads w2)) (map code (threads w1))) w).
    { apply (wf_inverse_image _ _ one_less (fun w => map code (threads w)) one_less_wf). }
    clear -Hacc. induction Hacc as [w _ IH]. constructor. intros w' Hw. by apply IH, step_one_less.
  - intros Hstuck i t Hi. destruct (code t) as [r|c k] eqn:Hc.
    + destruct HI as [L I]. destruct (done_rests w L i t r I Hi Hc). by split; [exists r|].
    + exfalso. destruct (some_session_moves w i t c k HI Hi Hc) as [w' Hw]. by apply (Hstuck w').
Qed.
End system.

(** * A run *)

Section run.
Context `{JsonText, UrlParse, TokenStorage}.
Variable json_error : string -> string.
Variable env : string -> option string.
Variable clock : Z.

(** The session is alone with the locks. *)
Definition alone (w : World) (i : nat) : bool := forallb (fun o => negb (t_mutex o) && negb (t_lock o)) (delete i (threads w)).

(** The answer to a command other than a request, where nothing fails. *)
Definition reply (w : World) (i : nat) (t : Thread) (c : cmd) : option (answer c * Shared * bool * bool) :=
  let s := shared w in
  match c return option (answer c * Shared * bool * bool) with
  | GetEnv name => Some (env name, s, t_mutex t, t_lock t)
  | Now => Some (clock, s, t_mutex t, t_lock t)
  | ReadToken => Some (sto_read (storage s), s, t_mutex t, t_lock t)
  | WriteToken d => let '(a, st) := sto_write d (storage s) in Some (a, restored s st (refresh_token d), t_mutex t, t_lock t)
  | DeleteToken => let '(a, st) := sto_delete (storage s) in Some (a, restored s st None, t_mutex t, t_lock t)
  | LoadConfig => Some (Ok default_profile_config, s, t_mutex t, t_lock t)
  | UpdateConfig _ | StoreSecret _ | DeleteSecret => Some (Ok tt, s, t_mutex t, t_lock t)
  | ReadSecret => Some (Ok None, s, t_mutex t, t_lock t)
  | AcquireMutex => if alone w i then Some (tt, s, true, t_lock t) else None
  | ReleaseMutex => Some (tt, s, false, t_lock t)
  | AcquireLock => if alone w i then Some (Ok tt, s, t_mutex t, true) else None
  | ReleaseLock => Some (tt, s, t_mutex t, false)
  | Post _ => None
  | Emit _ => Some (tt, s, t_mutex t, t_lock t)
  end.

Lemma alone_others w i : alone w i = true -> others w i (fun o => t_mutex o = false /\ t_lock o = false).
Proof.
  unfold alone. intros Ha j o Hj Hne. assert (Ho : o ∈ delete i (threads w)).
  { apply list_elem_of_lookup. destruct (decide (j < i)%nat).
    - exists j. by rewrite list_lookup_delete_lt.
    - exists (pred j). rewrite list_lookup_delete_ge by lia. replace (S (pred j)) with j by lia. done. }
  apply list_elem_of_In in Ho. rewrite forallb_forall in Ha. specialize (Ha o Ho). apply andb_true_iff in Ha as [?%negb_true_iff ?%negb_true_iff]. done.
Qed.

Lemma reply_effect w i t c a s' mu lo : in_u64 clock -> reply w i t c = Some (a, s', mu, lo) -> effect json_error w i t c a s' mu lo.
Proof.
  intros Hn. destruct c; simpl; try (intros [= <- <- <- <-]; by auto); try done.
  - destruct (sto_write t0 (storage (shared w))) as [r st]. intros [= <- <- <- <-]. by exists st.
  - destruct (sto_delete (storage (shared w))) as [r st]. intros [= <- <- <- <-]. by exists st.
  - destruct (alone w i) eqn:E; [|done]. intros [= <- <- <- <-]. split; [|done]. intros j o Hj Hne _. by apply (alone_others w i E j o).
  - destruct (alone w i) eqn:E; [|done]. intros [= <- <- <- <-]. split; [|done]. split; [|done]. intros j o Hj Hne Ho.
    destruct (alone_others w i E j o Hj Hne) as [_ Hl]. congruence.
Qed.

(** Session [i] for at most [n] steps, up to its next request. *)
Fixpoint drive (n : nat) (i : nat) (w : World) : World :=
  match n, threads w !! i with
  | S n, Some t =>
      match code t with
      | Do c k =>
          match reply w i t c with
          | Some (a, s', mu, lo) => drive n i (mk_world s' (<[i := mk_thread (process t) mu lo (k a)]> (threads w)))
          | None => w
          end
      | Done _ => w
      end
  | _, _ => w
  end.

Lemma drive_steps n i w : in_u64 clock -> rtc (step json_error) w (drive n i w).
Proof.
  intros Hn. revert w. induction n as [|n IH]; intros w; simpl; [done|]. destruct (threads w !! i) as [t|] eqn:Hi; [|done].
  destruct (code t) as [r|c k] eqn:Hc; [done|]. destruct (reply w i t c) as [[[[a s'] mu] lo]|] eqn:Hr; [|done].
  eapply rtc_l; [|apply IH]. eapply step_thread; eauto using drift_refl. apply reply_effect; [done|]. by destruct w.
Qed.

(** The request that session [i] is about to make is answered. *)
Definition answered (i : nat) (raw : result RawResponse string) (s' : Shared) (w : World) : World :=
  match threads w !! i with
  | Some t =>
      match code t with
      | Do c k =>
          match c return (answer c -> prog unit) -> World with
          | Post _ => fun k => mk_world s' (<[i := mk_thread (process t) (t_mutex t) (t_lock t) (k raw)]> (threads w))
          | _ => fun _ => w
          end k
      | Done _ => w
      end
  | None => w
  end.

(** The request that session [i] is about to make. *)
Definition asking (i : nat) (w : World) : option TokenRequest :=
  match threads w !! i with Some t => match code t with Do (Post r) _ => Some r | _ => None end | None => None end.

Lemma asking_post i w r : asking i w = Some r -> exists t k, threads w !! i = Some t /\ code t = Do (Post r) k.
Proof.
  unfold asking. destruct (threads w !! i) as [t|] eqn:Hi; [|done]. destruct (code t) as [|c k] eqn:Hc; [done|].
  destruct c; try done. intros [= ->]. by exists t, k.
Qed.

Lemma answered_steps i raw s' w r : asking i w = Some r -> serve json_error (shared w) r raw s' -> rtc (step json_error) w (answered i raw s' w).
Proof.
  intros Ha Hs. destruct (asking_post i w r Ha) as (t & k & Hi & Hc). unfold answered. rewrite Hi, Hc. apply rtc_once.
  eapply (step_thread json_error w i t (Post r) k raw (shared w) s'); eauto using drift_refl. by split.
Qed.
Definition all_done (w : World) : bool := forallb (fun t => match code t with Done _ => true | Do _ _ => false end) (threads w).

Lemma all_done_done w i t : all_done w = true -> threads w !! i = Some t -> exists r, code t = Done r.
Proof.
  unfold all_done. intros Hf Hi. rewrite forallb_forall in Hf. specialize (Hf t). destruct (code t) as [r|]; [by exists r|].
  discriminate Hf. apply list_elem_of_In. by eapply list_elem_of_lookup_2.
Qed.
End run.

(** Two processes find the same token expired; the second has already decided to refresh
    when the first takes the locks. *)
Section example.
#[local] Instance run_json : JsonText := bits_json_text.
#[local] Instance run_url : UrlParse := {| url_parse := Some |}.
#[local] Instance run_vault : Vault := disk_vault Healthy.
#[local] Instance run_storage : TokenStorage := vault_storage "dev" "/ags/profiles/dev" (fun s => s) false false.

Definition run_env (name : string) : option string :=
  if String.eqb name ENV_BASE_URL then Some "https://demo.accelbyte.io" else if String.eqb name ENV_CLIENT_ID then Some "A-BC" else None.

Definition run_calls : list (nat * Caller) := [(0%nat, CallResolve "dev"); (1%nat, CallTryRefresh Probe (Some "abc"))].

Definition run_shared : Shared :=
  mk_shared (sto_write (sample_token "a1" "r1") empty_disk).2 {[ "r1" ]} ∅ ∅.

Definition run_answer : result RawResponse string :=
  Ok (mk_raw_response 200 None None
        (Ok (to_vec (Object [("access_token", Str "a2"); ("expires_in", int 3600); ("refresh_token", Str "r2")])))).

(** The second process reads the token and the clock; the first goes up to its request. *)
Definition run_asking : World := drive run_env 6000 50 0 (drive run_env 6000 2 1 (start (fun s => s) run_shared run_calls)).
Definition run_granted : World :=
  answered 0 run_answer (mk_shared (storage (shared run_asking)) {[ "r2"; "r1" ]} {[ "r1" ]} ∅) run_asking.
Definition run_finished : World := drive run_env 6000 50 1 (drive run_env 6000 50 0 run_granted).

Lemma run_sound : sound_start run_shared.
Proof. split; [set_solver|]. split; [done|]. intros r. vm_compute kept. intros [= <-]. split; set_solver. Qed.

Lemma run_reaches_asking : rtc (step (fun s => s)) (start (fun s => s) run_shared run_calls) run_asking.
Proof. etransitivity; apply drive_steps; by vm_compute. Qed.

Lemma run_is_asking : asking 0 run_asking = Some (refresh_request "https://demo.accelbyte.io/iam/v3/oauth/token" "A-BC" None "r1").
Proof. by vm_compute. Qed.

Lemma run_served : serve (fun s => s) (shared run_asking) (refresh_request "https://demo.accelbyte.io/iam/v3/oauth/token" "A-BC" None "r1") run_answer
  (mk_shared (storage (shared run_asking)) {[ "r2"; "r1" ]} {[ "r1" ]} ∅).
Proof.
  unfold serve. assert (Hg : granted (fun s => s) run_answer = Some (mk_token_result "a2" 3600 (Some "r2") None None)) by by vm_compute.
  rewrite Hg. split; [done|]. cbn [used issued res_refresh_token].
  assert (Hu : used (shared run_asking) = ∅ /\ issued (shared run_asking) = {[ "r1" ]}) by by vm_compute. destruct Hu as [-> ->].
  simpl. split; [|split]; set_solver.
Qed.

Lemma run_reaches_end : rtc (step (fun s => s)) (start (fun s => s) run_shared run_calls) run_finished.
Proof.
  etransitivity; [apply run_reaches_asking|].
  etransitivity; [eapply answered_steps; [apply run_is_asking|apply run_served]|].
  etransitivity; apply drive_steps; by vm_compute.
Qed.

Lemma run_is_done : all_done run_finished = true.
Proof. by vm_compute. Qed.

Lemma run_done i t : threads run_finished !! i = Some t -> exists r, code t = Done r.
Proof. apply all_done_done, run_is_done. Qed.

Lemma no_refresh_token_is_replayed_witness : exists w t r k,
  rtc (step (fun s => s)) (start (fun s => s) run_shared run_calls) w /\ threads w !! 0%nat = Some t /\ code t = Do (Post r) k /\
  sent_refresh_token r = Some "r1" /\ "r1" ∈ issued (shared w) /\ "r1" ∉ used (shared w).
Proof.
  destruct (asking_post 0 run_asking _ run_is_asking) as (t & k & Hi & Hc). exists run_asking, t. do 2 eexists.
  split; [apply run_reaches_asking|]. split; [exact Hi|]. split; [exact Hc|]. split; [reflexivity|].
  destruct (no_refresh_token_is_replayed (fun s => s) run_shared run_calls run_asking 0 t _ k "r1" run_sound run_reaches_asking Hi Hc eq_refl) as [Hgood|Hsp];
    [exact Hgood|].
  assert (He : spoiled (shared run_asking) = ∅) by by vm_compute. rewrite He in Hsp. destruct (not_elem_of_empty _ Hsp).
Defined.

(** The fault is needed: the server takes the token and the answer is lost; the first session
    gives up, and the second sends the token again. *)
Definition run_lost : World :=
  answered 0 (Err "connection reset") (mk_shared (storage (shared run_asking)) {[ "r1" ]} {[ "r1" ]} {[ "r1" ]}) run_asking.

Definition run_replayed : World := drive run_env 6000 50 1 (drive run_env 6000 50 0 run_lost).

Lemma run_lost_served : serve (fun s => s) (shared run_asking) (refresh_request "https://demo.accelbyte.io/iam/v3/oauth/token" "A-BC" None "r1")
  (Err "connection reset") (mk_shared (storage (shared run_asking)) {[ "r1" ]} {[ "r1" ]} {[ "r1" ]}).
Proof.
  assert (Hu : used (shared run_asking) = ∅ /\ issued (shared run_asking) = {[ "r1" ]} /\ spoiled (shared run_asking) = ∅) by by vm_compute.
  destruct Hu as (Hu & Hi & Hs). split; [done|].
  assert (Hg : granted (fun s => s) (Err "connection reset") = None) by by vm_compute. rewrite Hg, Hu, Hi, Hs. cbn [issued used spoiled]. split; [set_solver|].
  right. exists "r1". split; [done|]. clear. split_and!; set_solver.
Qed.

Lemma run_reaches_replay : rtc (step (fun s => s)) (start (fun s => s) run_shared run_calls) run_replayed.
Proof.
  etransitivity; [apply run_reaches_asking|].
  etransitivity; [eapply answered_steps; [apply run_is_asking|apply run_lost_served]|].
  etransitivity; apply drive_steps; by vm_compute.
Qed.

Example lost_answer_replayed :
  asking 1 run_replayed = Some (refresh_request "https://demo.accelbyte.io/iam/v3/oauth/token" "A-BC" None "r1") /\
  used (shared run_replayed) = {[ "r1" ]}.
Proof. by vm_compute. Qed.

Lemma stored_token_stays_usable_witness :
  kept (shared run_finished) = Some "r2" /\ "r2" ∈ issued (shared run_finished) /\ "r2" ∉ used (shared run_finished).
Proof.
  assert (Hk : kept (shared run_finished) = Some "r2") by by vm_compute. split; [exact Hk|].
  destruct (stored_token_stays_usable (fun s => s) run_shared run_calls run_finished "r2" run_sound run_reaches_end run_done Hk) as [Hgood|Hsp]; [exact Hgood|].
  assert (He : spoiled (shared run_finished) = ∅) by by vm_compute. rewrite He in Hsp. destruct (not_elem_of_empty _ Hsp).
Defined.

Lemma every_session_ends_witness :
  Acc (fun w2 w1 => step (fun s => s) w1 w2) run_asking /\
  ((forall w', ~ smooth (fun s => s) run_asking w') ->
   forall i t, threads run_asking !! i = Some t -> (exists r, code t = Done r) /\ t_mutex t = false /\ t_lock t = false).
Proof. exact (every_session_ends (fun s => s) run_shared run_calls run_asking run_sound run_reaches_asking). Defined.
End example.
