(* ===== verification/AuthProps.v ===== *)
(** What a session gives back: where an access token comes from, that a stored one is fresh
    and of the configured client, that a renewed one has been stored. *)

From stdpp Require Import base gmap strings list.
From Stdlib Require Import ZArith Lia Ascii Strings.Byte.
From S2P Require Import Prelude Text Kebab Nouns Json Catalogue Sanitise Results Workflow Request Http Pagination Tokens Vault Config AuthSession AuthRules.

#[local] Arguments String.append !_ _ /.

(** * Runs *)

(** A command that was given, with its answer. *)
Definition event : Type := {c : cmd & answer c}.
Definition ev (c : cmd) (a : answer c) : event := existT c a.

(** A program, the commands of one of its runs, and the result. *)
Fixpoint runs {A} (m : prog A) (tr : list event) (r : result A RuntimeError) : Prop :=
  match m with
  | Done x => tr = [] /\ r = x
  | Do c k => exists a tr', tr = ev c a :: tr' /\ runs (k a) tr' r
  end.

Lemma runs_bind {A B} (f : A -> prog B) (m : prog A) tr r : runs (m ≫= f) tr r ->
  (exists e, runs m tr (Err e) /\ r = Err e) \/ (exists x tr1 tr2, tr = tr1 ++ tr2 /\ runs m tr1 (Ok x) /\ runs (f x) tr2 r).
Proof.
  revert tr. induction m as [[x|e]|c k IH]; intros tr Hr.
  - right. by exists x, [], tr.
  - destruct Hr as [-> ->]. left. by exists e.
  - destruct Hr as (a & tr' & -> & Hr). apply IH in Hr as [(e & Hr & ->)|(x & tr1 & tr2 & -> & H1 & H2)].
    + left. exists e. split; [by exists a, tr'|done].
    + right. exists x, (ev c a :: tr1), tr2. split; [done|]. split; [by exists a, tr1|done].
Qed.

Lemma runs_bind_ok {A B} (f : A -> prog B) (m : prog A) tr y : runs (m ≫= f) tr (Ok y) ->
  exists x tr1 tr2, tr = tr1 ++ tr2 /\ runs m tr1 (Ok x) /\ runs (f x) tr2 (Ok y).
Proof. intros Hr. by apply runs_bind in Hr as [(e & _ & ?)|Hr]. Qed.

Lemma runs_op {A} c (k : answer c -> prog A) tr r : runs (op c ≫= k) tr r -> exists a tr', tr = ev c a :: tr' /\ runs (k a) tr' r.
Proof. done. Qed.

Lemma runs_lift {A} (x : result A RuntimeError) tr r : runs (lift x) tr r -> tr = [] /\ r = x.
Proof. done. Qed.

Lemma runs_catch {A} (m : prog A) tr r : runs (catch m) tr r -> exists x, r = Ok x /\ runs m tr x.
Proof.
  revert tr. induction m as [x|c k IH]; intros tr Hr; simpl in Hr.
  - destruct Hr as [-> ->]. by exists x.
  - destruct Hr as (a & tr' & -> & Hr). apply IH in Hr as (x & -> & Hr). exists x. split; [done|by exists a, tr'].
Qed.

Lemma runs_locked {A} (m : prog A) tr x : runs (locked m) tr (Ok x) ->
  exists tr', runs m tr' (Ok x) /\ tr = [ev AcquireMutex tt; ev AcquireLock (Ok tt)] ++ tr' ++ [ev ReleaseLock tt; ev ReleaseMutex tt].
Proof.
  intros Hr. apply runs_op in Hr as ([] & tr1 & -> & Hr). apply runs_op in Hr as ([[]|e] & tr2 & -> & Hr).
  - apply runs_bind_ok in Hr as (y & tr3 & tr4 & -> & Hm & Hr). apply runs_catch in Hm as (z & [= ->] & Hm).
    apply runs_op in Hr as ([] & tr5 & -> & Hr). apply runs_op in Hr as ([] & tr6 & -> & Hr).
    apply runs_lift in Hr as [-> <-]. by exists tr3.
  - apply runs_op in Hr as ([] & tr3 & -> & Hr). by destruct Hr.
Qed.

Lemma sub_middle (l1 l l2 : list event) : l ⊆ l1 ++ l ++ l2.
Proof. intros e He. apply elem_of_app. right. apply elem_of_app. by left. Qed.

(** * Outcomes *)

Section outcomes.
Context `{JsonText, UrlParse}.
Variable json_error : string -> string.

(** The stored token that was handed out: as it was read, more than a minute before its
    end, and for the expected client. *)
Definition handed_out (tr : list event) (expected : option string) (token : string) (secs : Z) : Prop :=
  exists t now, ev ReadToken (Ok (Some t)) ∈ tr /\ ev Now now ∈ tr /\ token = access_token t /\
    now + TOKEN_EXPIRY_BUFFER_SECS < expires_at t /\ secs = expires_at t - now /\ client_matches expected t = None.

(** The token that was renewed: the refresh token that was read was sent, and what the
    server gave for it was stored before it was handed out. *)
Definition renewed (tr : list event) (token : string) (secs : Z) : Prop :=
  exists t rt url client secret a res new w,
    ev ReadToken (Ok (Some t)) ∈ tr /\ refresh_token t = Some rt /\ ev (Post (refresh_request url client secret rt)) a ∈ tr /\
    granted json_error a = Some res /\ token = res_access_token res /\ secs = res_expires_in res /\
    ev (WriteToken new) (Ok w) ∈ tr /\ access_token new = token /\ refresh_token new = res_refresh_token res /\ client_id new = Some client.

(** A command that says which client is configured. *)
Definition names_client (e : event) : bool := match projT1 e with GetEnv n => String.eqb n ENV_CLIENT_ID | LoadConfig => true | _ => false end.

Lemma inspect_refreshed mode expected stored now tok src secs ws :
  inspect_stored mode expected stored now = Err (Refreshed tok src secs ws) ->
  exists t, stored = Some t /\ src = SourceStored /\ tok = access_token t /\ now + TOKEN_EXPIRY_BUFFER_SECS < expires_at t /\
    secs = expires_at t - now /\ client_matches expected t = None.
Proof.
  unfold inspect_stored, refreshed_from_fresh_stored, saturating_sub. destruct stored as [t|]; [|done]. destruct (client_matches expected t) eqn:Ec; [done|].
  destruct mode; [destruct (Z.ltb_spec (now + TOKEN_EXPIRY_BUFFER_SECS) (expires_at t)) as [Hlt|]|].
  - intros [= <- <- <- <-]. exists t. unfold TOKEN_EXPIRY_BUFFER_SECS in *. split_and!; try done. lia.
  - by destruct (refresh_token_availability t now).
  - by destruct (refresh_token_availability t now).
Qed.

Lemma inspect_sends mode expected stored now t rt : inspect_stored mode expected stored now = Ok (t, rt) ->
  stored = Some t /\ refresh_token t = Some rt.
Proof.
  unfold inspect_stored, refresh_token_availability. destruct stored as [t'|]; [|done]. destruct (client_matches expected t'); [done|].
  destruct (match mode with Probe => refreshed_from_fresh_stored t' now | Force => None end); [done|].
  destruct (refresh_token t') as [r|] eqn:E; [|done]. destruct (match refresh_expires_at t' with Some e => now <? e | None => true end); [|done].
  by intros [= <- <-].
Qed.

(** The token was read, and the clock. *)
Lemma flatten_some (a : answer ReadToken) t : flatten a = Some t -> a = Ok (Some t).
Proof. destruct a as [o|e]; [|done]. simpl. by intros ->. Qed.

Lemma runs_inspect {A} mode expected (k : result (TokenData * string) RefreshOutcome -> prog A) tr r :
  runs (stored ← op ReadToken; now ← op Now; k (inspect_stored mode expected (flatten stored) now)) tr r ->
  exists a now tr', tr = [ev ReadToken a; ev Now now] ++ tr' /\ runs (k (inspect_stored mode expected (flatten a) now)) tr' r.
Proof.
  intros Hr. apply runs_op in Hr as (a & tr1 & -> & Hr). apply runs_op in Hr as (now & tr2 & -> & Hr). by exists a, now, tr2.
Qed.

Lemma runs_fetch base request failed tr r : runs (fetch_token json_error base request failed) tr (Ok r) ->
  exists url a, tr = [ev (Post (request url)) a] /\ granted json_error a = Some r.
Proof.
  unfold fetch_token. intros Hr. apply runs_bind_ok in Hr as (url & tr1 & tr2 & -> & H1 & Hr). apply runs_lift in H1 as [-> _].
  apply runs_op in Hr as (a & tr3 & -> & Hr). apply runs_lift in Hr as [-> Ha]. exists url, a. split; [done|]. by eapply granted_failed.
Qed.

(** A refresh that gives a token hands out the stored one, and then asks nothing about the
    client, or renews it. *)
Definition refreshed_by (tr : list event) (expected : option string) (tok : string) (src : TokenSource) (secs : Z) : Prop :=
  (src = SourceStored /\ handed_out tr expected tok secs /\ Forall (fun e => names_client e = false) tr) \/
  (src = SourceRefreshed /\ renewed tr tok secs).

Lemma handed_out_weaken tr tr' expected tok secs : tr ⊆ tr' -> handed_out tr expected tok secs -> handed_out tr' expected tok secs.
Proof. intros Hs (t & now & ? & ? & ?). exists t, now. auto. Qed.

Lemma renewed_weaken tr tr' tok secs : tr ⊆ tr' -> renewed tr tok secs -> renewed tr' tok secs.
Proof.
  intros Hs (t & rt & url & client & secret & a & res & new & w & ? & ? & ? & ? & ? & ? & ? & ?).
  exists t, rt, url, client, secret, a, res, new, w. split_and!; auto; tauto.
Qed.

Lemma refreshed_stored mode expected a now tok src secs ws :
  inspect_stored mode expected (flatten a) now = Err (Refreshed tok src secs ws) ->
  refreshed_by [ev ReadToken a; ev Now now] expected tok src secs.
Proof.
  intros Hi. apply inspect_refreshed in Hi as (t & Ht & -> & -> & Hlt & -> & Hc). apply flatten_some in Ht as ->. left. split; [done|]. split.
  - exists t, now. split_and!; try done; set_solver.
  - by repeat constructor.
Qed.

Lemma runs_refresh_locked mode expected tr tok src secs ws :
  runs (refresh_locked json_error mode expected) tr (Ok (Refreshed tok src secs ws)) -> refreshed_by tr expected tok src secs.
Proof.
  intros Hr. unfold refresh_locked in Hr. apply runs_op in Hr as (a & tr1 & -> & Hr). apply runs_op in Hr as (now & tr2 & -> & Hr).
  destruct (inspect_stored mode expected (flatten a) now) as [[t rt]|o] eqn:Ei.
  - apply inspect_sends in Ei as [Ha%flatten_some Ht]. subst a. right.
    apply runs_bind_ok in Hr as (creds & tr3 & tr4 & -> & _ & Hr).
    apply runs_bind_ok in Hr as (base & tr5 & tr6 & -> & [-> _]%runs_lift & Hr).
    apply runs_bind_ok in Hr as (client & tr7 & tr8 & -> & [-> _]%runs_lift & Hr).
    apply runs_bind_ok in Hr as (fetched & tr9 & tr10 & -> & Hf & Hr). apply runs_catch in Hf as (x & [= ->] & Hf).
    destruct x as [res|e]; [|apply runs_lift in Hr as [_ Hr]; unfold classify_refresh_error in Hr; by destruct (is_network e)].
    apply runs_fetch in Hf as (url & b & -> & Hg). unfold must in Hr.
    apply runs_bind_ok in Hr as (w & tr11 & tr12 & -> & Hw & [-> Hx]). injection Hx as -> -> -> _.
    apply runs_op in Hw as (v & tr13 & -> & [-> Hv]%runs_lift). subst v. split; [done|].
    exists t, rt, url, client, (cr_client_secret creds), b, res, (token_result_to_token_data res (default AuthorizationCode (grant_type t)) now client), w.
    split_and!; try done; set_solver.
  - destruct Hr as [-> [= <-]]. by eapply refreshed_stored.
Qed.

Lemma runs_try_refresh mode expected tr tok src secs ws :
  runs (try_refresh_stored_session json_error mode expected) tr (Ok (Refreshed tok src secs ws)) -> refreshed_by tr expected tok src secs.
Proof.
  intros Hr. unfold try_refresh_stored_session in Hr. apply runs_op in Hr as (a & tr1 & -> & Hr). apply runs_op in Hr as (now & tr2 & -> & Hr).
  destruct (inspect_stored mode expected (flatten a) now) as [[t rt]|o] eqn:Ei.
  - apply runs_locked in Hr as (tr' & Hr & ->). apply runs_refresh_locked in Hr as [(-> & Hh & Hn)|[-> Hren]].
    + left. split; [done|]. split; [exact (handed_out_weaken _ _ _ _ _ (sub_middle [_; _; _; _] tr' _) Hh)|].
      do 4 (constructor; [done|]). apply Forall_app. split; [done|]. by repeat constructor.
    + right. split; [done|]. exact (renewed_weaken _ _ _ _ (sub_middle [_; _; _; _] tr' _) Hren).
  - destruct Hr as [-> [= <-]]. by eapply refreshed_stored.
Qed.

(** * Access tokens *)

(** The token of a fresh grant, stored before it is handed out. *)
Definition newly_granted (tr : list event) (tok : string) : Prop :=
  exists url client secret a res new w,
    ev (Post (client_credentials_request url client secret)) a ∈ tr /\ granted json_error a = Some res /\ tok = res_access_token res /\
    ev (WriteToken new) (Ok w) ∈ tr /\ access_token new = tok /\ refresh_token new = res_refresh_token res /\
    grant_type new = Some ClientCredentials /\ client_id new = Some client.

Lemma runs_grant tr res : runs (client_credentials_grant json_error) tr (Ok res) ->
  source res = SourceClientCredentials /\ newly_granted tr (token res).
Proof.
  intros Hr. unfold client_credentials_grant in Hr.
  apply runs_bind_ok in Hr as (creds & tr1 & tr2 & -> & _ & Hr).
  apply runs_bind_ok in Hr as (base & tr3 & tr4 & -> & [-> _]%runs_lift & Hr).
  apply runs_bind_ok in Hr as (client & tr5 & tr6 & -> & [-> _]%runs_lift & Hr).
  apply runs_bind_ok in Hr as (secret & tr7 & tr8 & -> & [-> _]%runs_lift & Hr).
  apply runs_locked in Hr as (tr' & Hr & ->).
  apply runs_bind_ok in Hr as (r & tr9 & tr10 & -> & Hf & Hr). apply runs_fetch in Hf as (url & a & -> & Hg).
  apply runs_op in Hr as (now & tr11 & -> & Hr). unfold must in Hr.
  apply runs_bind_ok in Hr as (w & tr12 & tr13 & -> & Hw & [-> Hx]). injection Hx as ->.
  apply runs_op in Hw as (v & tr14 & -> & [-> Hv]%runs_lift). subst v. split; [done|].
  exists url, client, secret, a, r, (token_result_to_token_data r ClientCredentials now client), w.
  split_and!; try done; set_solver.
Qed.

(** The client that the environment or the configuration names. *)
Definition configured (tr : list event) (client : string) : Prop :=
  ev (GetEnv ENV_CLIENT_ID) (Some client) ∈ tr \/
  ev (GetEnv ENV_CLIENT_ID) None ∈ tr /\ exists c, ev LoadConfig (Ok c) ∈ tr /\ c_client_id c = Some client.

Lemma runs_client_id tr current : runs resolve_client_id_value tr (Ok current) ->
  (exists v, current = Some v /\ tr = [ev (GetEnv ENV_CLIENT_ID) (Some v)]) \/
  (exists c, tr = [ev (GetEnv ENV_CLIENT_ID) None; ev LoadConfig c] /\ current = match c with Ok c => c_client_id c | Err _ => None end).
Proof.
  intros Hr. unfold resolve_client_id_value in Hr. apply runs_bind_ok in Hr as (id & tr1 & tr2 & -> & Hr & [-> Hx]). injection Hx as ->.
  apply runs_op in Hr as ([v|] & tr3 & -> & Hr).
  - destruct Hr as [-> [= ->]]. left. by exists v.
  - apply runs_op in Hr as (c & tr4 & -> & [-> [= ->]]). right. exists c. split; [done|].
    destruct c as [c|e]; [|done]. by destruct (c_client_id c).
Qed.

Definition env_answer (e : event) : option (option string) := match e with existT (GetEnv _) a => Some a | _ => None end.
Definition config_answer (e : event) : option (result ProfileConfig RuntimeError) := match e with existT LoadConfig a => Some a | _ => None end.

Lemma ev_env_inj n m a b : ev (GetEnv n) a = ev (GetEnv m) b -> a = b.
Proof. intros E. apply (f_equal env_answer) in E. by injection E. Qed.
Lemma ev_config_inj a b : ev LoadConfig a = ev LoadConfig b -> a = b.
Proof. intros E. apply (f_equal config_answer) in E. by injection E. Qed.

(** What was resolved is what is configured. *)
Lemma configured_current before tr current rest client : runs resolve_client_id_value tr (Ok current) ->
  Forall (fun e => names_client e = false) before -> Forall (fun e => names_client e = false) rest ->
  configured (before ++ tr ++ rest) client -> current = Some client.
Proof.
  intros Hr Hb Hn Hc. rewrite Forall_forall in Hb, Hn.
  assert (Hin : forall e, names_client e = true -> e ∈ before ++ tr ++ rest -> e ∈ tr).
  { intros e He [Hx|[?|Hx]%elem_of_app]%elem_of_app; [|done|]; [specialize (Hb e Hx)|specialize (Hn e Hx)]; congruence. }
  apply runs_client_id in Hr as [(v & -> & ->)|(c & -> & ->)]; destruct Hc as [H1%Hin|[H1%Hin (c' & H2%Hin & <-)]]; try done;
    repeat match goal with
    | H : _ ∈ [_] |- _ => apply list_elem_of_In in H; simpl in H; destruct H as [H|[]]
    | H : _ ∈ [_; _] |- _ => apply list_elem_of_In in H; simpl in H; destruct H as [H|[H|[]]]
    end; try (apply ev_env_inj in H1); try (apply ev_config_inj in H2); try congruence; try done. by subst.
Qed.

(** Where a token that is resolved comes from. *)
Definition provenance (tr : list event) (res : TokenResolution) : Prop :=
  match source res with
  | SourceEnvironment => tr = [ev (GetEnv ENV_ACCESS_TOKEN) (Some (token res))]
  | SourceStored =>
      exists t now, ev ReadToken (Ok (Some t)) ∈ tr /\ ev Now now ∈ tr /\ token res = access_token t /\
        now + TOKEN_EXPIRY_BUFFER_SECS < expires_at t /\ expires_in_secs res = Some (expires_at t - now) /\
        forall client stored, configured tr client -> client_id t = Some stored -> client_ids_match client stored = true
  | SourceRefreshed => exists secs, expires_in_secs res = Some secs /\ renewed tr (token res) secs
  | SourceClientCredentials => newly_granted tr (token res)
  end.

Lemma newly_granted_weaken tr tr' tok : tr ⊆ tr' -> newly_granted tr tok -> newly_granted tr' tok.
Proof.
  intros Hs (url & client & secret & a & res & new & w & ? & ? & ? & ? & ? & ?).
  exists url, client, secret, a, res, new, w. split_and!; auto; tauto.
Qed.

Lemma provenance_grant tr tr' res : runs (client_credentials_grant json_error) tr' (Ok res) -> tr' ⊆ tr -> provenance tr res.
Proof. intros [Hs Hg]%runs_grant Hsub. unfold provenance. rewrite Hs. by eapply newly_granted_weaken. Qed.

Lemma provenance_refreshed before tr tr1 current tok src secs ws :
  runs resolve_client_id_value tr1 (Ok current) -> Forall (fun e => names_client e = false) before ->
  refreshed_by tr current tok src secs -> provenance (before ++ tr1 ++ tr) (mk_token_resolution tok src (Some secs) ws).
Proof.
  intros Hid Hb [(-> & (t & now & Hr & Hn & -> & Hlt & -> & Hm) & Hq)|[-> Hren]]; unfold provenance; simpl.
  - exists t, now. split_and!; try done; [set_solver|set_solver|]. intros client stored Hc Hst.
    apply (configured_current _ _ _ _ _ Hid Hb Hq) in Hc as ->. unfold client_matches in Hm. rewrite Hst in Hm.
    by destruct (client_ids_match client stored).
  - exists secs. split; [done|]. eapply renewed_weaken; [|exact Hren]. set_solver.
Qed.

(** [C6] Where an access token comes from: from the environment, and then nothing else is
    looked at; from the storage, and then it was read more than a minute before its end and,
    when it names a client and one is configured, belongs to that client; from a refresh or a
    new grant of the server, and then it was stored before it is handed out, with the refresh
    token of the same answer, if it had one, and the client that asked. *)
Theorem access_token_provenance profile tr res :
  runs (resolve_access_token json_error profile) tr (Ok res) -> provenance tr res.
Proof.
  intros Hr. unfold resolve_access_token in Hr. apply runs_op in Hr as ([tok|] & tr1 & -> & Hr); [by destruct Hr as [-> [= ->]]|].
  apply runs_op in Hr as (stored & tr2 & -> & Hr). cbv zeta in Hr.
  apply runs_bind_ok in Hr as (current & tr3 & tr4 & -> & Hid & Hr). apply runs_bind_ok in Hr as (outcome & tr5 & tr6 & -> & Ho & Hr).
  assert (Hover : forall b, runs (match session_over b outcome with Some e => throw (auth_error e) | None => client_credentials_grant json_error end)
    tr6 (Ok res) -> provenance (ev (GetEnv ENV_ACCESS_TOKEN) None :: ev ReadToken stored :: tr3 ++ tr5 ++ tr6) res).
  { intros b. destruct (session_over b outcome); [by intros []|]. intros Hg. eapply provenance_grant; [exact Hg|]. set_solver. }
  destruct outcome as [tok src secs ws|[]|text]; try by eapply Hover.
  - destruct Hr as [-> [= ->]]. rewrite app_nil_r. apply runs_try_refresh in Ho.
    apply (provenance_refreshed [ev (GetEnv ENV_ACCESS_TOKEN) None; ev ReadToken stored] tr5 tr3 current); [done|by repeat constructor|done].
  - apply runs_bind_ok in Hr as (can & tr7 & tr8 & -> & _ & Hr). destruct can; [|by destruct Hr].
    eapply provenance_grant; [exact Hr|]. set_solver.
Qed.
End outcomes.

(** A stored token that is fresh, of a client that the environment names in another spelling. *)
Section example.
#[local] Instance props_json : JsonText := bits_json_text.
#[local] Instance props_url : UrlParse := {| url_parse := Some |}.

Definition fresh_token : TokenData := mk_token_data "a1" 5000 (Some "r1") None (Some AuthorizationCode) (Some "abc").

Definition fresh_run : list event :=
  [ev (GetEnv ENV_ACCESS_TOKEN) None; ev ReadToken (Ok (Some fresh_token)); ev (GetEnv ENV_CLIENT_ID) (Some "A-BC");
   ev ReadToken (Ok (Some fresh_token)); ev Now 1000].

Lemma access_token_provenance_witness :
  runs (resolve_access_token (fun s => s) "dev") fresh_run (Ok (mk_token_resolution "a1" SourceStored (Some 4000) [])) /\
  provenance (fun s => s) fresh_run (mk_token_resolution "a1" SourceStored (Some 4000) []).
Proof.
  assert (Hr : runs (resolve_access_token (fun s => s) "dev") fresh_run (Ok (mk_token_resolution "a1" SourceStored (Some 4000) []))).
  { do 5 (eexists _, _; split; [reflexivity|]). by vm_compute. }
  split; [exact Hr|]. exact (access_token_provenance (fun s => s) "dev" fresh_run _ Hr).
Defined.
End example.
