(* ===== verification/ConfigProps.v ===== *)
(** Configuration: what setting a key does to the file and to the profile that is loaded
    from it; which profile names are admitted, and where they lead. *)

From stdpp Require Import base gmap strings list sorting.
From Stdlib Require Import ZArith Lia Ascii Strings.Byte Sorting.Sorted.
From S2P Require Import Prelude Text Kebab Nouns Json JsonNormal Catalogue Sanitise Results Workflow Request Http Pagination Tokens Vault Config.

#[local] Arguments String.append !_ _ /.

(** * Setting a key *)

(** A file that can be locked, written and read back. *)
Class WorkingFile `{Vault} (s : ConfigStore) : Type := {
  file_good : Vt -> Prop;
  file_locks v : file_good v -> exists v', lock_store s v = (Ok tt, v') /\ file_good v' /\
    file_exists (store_path s) v' = file_exists (store_path s) v /\ read_to_string (store_path s) v' = read_to_string (store_path s) v;
  file_saves v text : file_good v -> exists v', write_file_restricted (store_path s) text v = (Ok tt, v') /\ file_good v' /\
    file_exists (store_path s) v' = true /\ read_to_string (store_path s) v' = Ok text
}.

(** The profile's configuration with one field set. *)
Definition set_field (name x : string) (c : ProfileConfig) : ProfileConfig :=
  if String.eqb name "base_url" then mk_profile_config (Some x) (c_client_id c) (c_namespace c) (c_grant_type c)
  else if String.eqb name "client_id" then mk_profile_config (c_base_url c) (Some x) (c_namespace c) (c_grant_type c)
  else mk_profile_config (c_base_url c) (c_client_id c) (Some x) (c_grant_type c).

(** The settings of a profile that are texts. *)
Definition text_fields : list string := ["base_url"; "client_id"; "namespace"].

(** A text that is a whole number of 64 bits: digits, perhaps after a plus sign. *)
Definition whole_number (x : string) : option Z :=
  let digits := default x (strip_prefix "+" x) in
  if is_empty digits then None else match decimal 0 digits with Some n => if n <=? u64_max then Some n else None | None => None end.

(** A text that stays one in the file: neither a number nor [true] nor [false]; and the text
    that is read for it afterwards. *)
Definition kept_as_text (x : string) : bool := negb (String.eqb x "true" || String.eqb x "false" || bool_decide (is_Some (whole_number x))).
Definition read_back (x : string) : string := match whole_number x with Some n => show_int n | None => x end.

Lemma parse_whole_number x : parse_unsigned u64_max x = whole_number x.
Proof.
  unfold parse_unsigned, whole_number. destruct x as [|c r]; [done|]. cbn [strip_prefix].
  destruct (Ascii.eqb_spec c "+") as [->|Hne].
  - rewrite Ascii.eqb_refl. destruct r as [|d r]; [done|]. cbn [default is_empty]. by rewrite parse_digits_decimal.
  - destruct (Ascii.eqb_spec "+"%char c) as [<-|_]; [done|]. cbn [default is_empty]. by rewrite parse_digits_decimal.
Qed.

(** What is written for a text. *)
Lemma parse_json_value_cases x :
  (kept_as_text x = true /\ parse_json_value x = Str x) \/
  (kept_as_text x = false /\ exists w, parse_json_value x = w /\ read_option read_string w = None /\ (forall `{JsonText}, value_to_string w = Some (read_back x)) /\
     normalize w = w /\ forall d, fits d w = true).
Proof.
  unfold kept_as_text, parse_json_value, read_back. rewrite parse_whole_number.
  destruct (String.eqb_spec x "true") as [->|Ht]; [right; split; [done|]; eexists; split_and!; try done; by intros []|].
  destruct (String.eqb_spec x "false") as [->|Hf]; [right; split; [done|]; eexists; split_and!; try done; by intros []|].
  destruct (whole_number x) as [n|] eqn:En; [right|by left]. split; [done|]. eexists. split_and!; try done.
  rewrite <- parse_whole_number in En. apply parse_unsigned_range in En; [|done]. intros d. unfold int, u64_max in *. destruct d; simpl; lia.
Qed.

Lemma kept_as_text_str x : kept_as_text x = true -> parse_json_value x = Str x.
Proof. intros Hk. destruct (parse_json_value_cases x) as [[_ Hp]|[Hn _]]; [done|congruence]. Qed.

Lemma parse_json_value_plain x : normalize (parse_json_value x) = parse_json_value x /\ forall d, fits d (parse_json_value x) = true.
Proof. destruct (parse_json_value_cases x) as [[_ ->]|(_ & w & -> & _ & _ & Hn & Hf)]; [by split; [|intros []]|done]. Qed.

Lemma not_text_unread x : kept_as_text x = false -> read_option read_string (parse_json_value x) = None.
Proof. intros Hk. destruct (parse_json_value_cases x) as [[Hp _]|(_ & w & -> & Hr & _)]; [congruence|done]. Qed.

Lemma written_reads_back `{JsonText} x : value_to_string (parse_json_value x) = Some (read_back x).
Proof.
  destruct (parse_json_value_cases x) as [[Hk ->]|(_ & w & -> & _ & Hv & _)]; [|done]. unfold kept_as_text, read_back in *. simpl.
  apply negb_true_iff, orb_false_iff in Hk as [_ Hk%bool_decide_eq_false]. destruct (whole_number x); [by destruct Hk|done].
Qed.

(** ** Reading fields of an object *)

Lemma opt_insert {T} (read : value -> option T) k n v l i :
  opt read (FMap (obj_insert n v l)) k i = if String.eqb k n then read_option read v else opt read (FMap l) k i.
Proof. unfold opt. simpl. rewrite obj_get_insert. by destruct (String.eqb k n). Qed.

Lemma opt_collect {T} (read : value -> option T) k l i o : (forall v x, read v = Some x -> read (normalize v) = Some x) ->
  (count_key k l <= 1)%nat -> opt read (FMap l) k i = Some o -> opt read (FMap (collect l [])) k i = Some o.
Proof.
  intros Hn Hc. unfold opt. simpl. rewrite obj_get_collect by done. destruct (obj_get k l) as [v|]; [|done].
  intros Ho. destruct v; try done; unfold read_option in Ho; (destruct (read _) eqn:E in Ho; [|done]); injection Ho as <-;
    (apply read_option_some; [done|by apply Hn]).
Qed.

Lemma read_string_normalize v x : read_string v = Some x -> read_string (normalize v) = Some x.
Proof. by destruct v. Qed.

Lemma read_grant_normalize v g : read_grant v = Some g -> read_grant (normalize v) = Some g.
Proof. destruct v as [| | | | |l]; try done. destruct l as [|[k []] []]; done. Qed.

Lemma forallb_count l : forallb (fun k => Nat.leb (count_key k l) 1) ["base_url"; "client_id"; "namespace"; "grant_type"] = true ->
  (count_key "base_url" l <= 1 /\ count_key "client_id" l <= 1 /\ count_key "namespace" l <= 1 /\ count_key "grant_type" l <= 1)%nat.
Proof. simpl. intros H. repeat (apply andb_true_iff in H as [?%Nat.leb_le H]). done. Qed.

Lemma sorted_opens l : StronglySorted key_lt l ->
  read_struct ["base_url"; "client_id"; "namespace"; "grant_type"] (Object l) = Some (FMap l).
Proof.
  intros Hs. unfold read_struct. rewrite (proj2 (forallb_forall _ _)); [done|]. intros k _. apply Nat.leb_le. by apply count_sorted.
Qed.

(** A profile that was read is read again from the normal form, with one field replaced. *)
Lemma profile_of_inserted name x l c : name ∈ text_fields -> profile_of_json (Object l) = Some c ->
  profile_of_json (Object (obj_insert name (parse_json_value x) (collect l []))) =
  if kept_as_text x then Some (set_field name x c) else None.
Proof.
  intros Hname Hp. unfold profile_of_json in *.
  assert (Hs : StronglySorted key_lt (collect l [])).
  { pose proof (normalize_is_canonical (Object l)) as Hc. inversion Hc; subst. done. }
  rewrite sorted_opens by (by apply obj_insert_sorted). unfold read_struct in Hp.
  destruct (forallb _ _) eqn:Hc in Hp; [|done]. apply forallb_count in Hc as (H1 & H2 & H3 & H4).
  cbn [mbind option_bind] in *. apply bind_Some in Hp as (b & Hb & Hp). apply bind_Some in Hp as (ci & Hci & Hp).
  apply bind_Some in Hp as (n & Hn & Hp). apply bind_Some in Hp as (g & Hg & Hp). injection Hp as <-.
  apply (opt_collect _ _ _ _ _ read_string_normalize H1) in Hb. apply (opt_collect _ _ _ _ _ read_string_normalize H2) in Hci.
  apply (opt_collect _ _ _ _ _ read_string_normalize H3) in Hn. apply (opt_collect _ _ _ _ _ read_grant_normalize H4) in Hg.
  rewrite !opt_insert. unfold text_fields in Hname.
  destruct (kept_as_text x) eqn:Hk; [apply kept_as_text_str in Hk; rewrite Hk|pose proof (not_text_unread x Hk) as Hu];
    repeat (apply elem_of_cons in Hname as [->|Hname]); try (by apply not_elem_of_nil in Hname); cbn [String.eqb Ascii.eqb Bool.eqb];
    rewrite ?Hu, ?Hb, ?Hci, ?Hn, ?Hg; simpl; done.
Qed.

(** ** The file *)

Section set_value.
Context `{JsonText, !JsonPretty, Vault}.
Variable json_error : string -> string.
Context (s : ConfigStore) `{!WorkingFile s}.

(** The document of the file; without a file, an empty object. *)
Definition document (v : Vt) : option value :=
  if file_exists (store_path s) v then match read_to_string (store_path s) v with Ok t => parse_json t | Err _ => None end else Some (Object []).

Lemma document_text v d : document v = Some d -> exists text, config_text (store_path s) (label s) v = (Ok text, v) /\
  d = match text with Some t => default (Object []) (parse_json t) | None => Object [] end /\ (forall t, text = Some t -> is_Some (parse_json t)).
Proof.
  unfold document, config_text, store_ask, store_op, mbind, store_bind, mret, store_ret. destruct (file_exists (store_path s) v).
  - destruct (read_to_string (store_path s) v) as [t|]; [|done]. intros Hd. exists (Some t). simpl. rewrite Hd. split_and!; try done.
    intros t' [= <-]. by rewrite Hd.
  - intros [= <-]. by exists None.
Qed.

Lemma get_value_document v d name : document v = Some d ->
  load_json_value json_error (store_path s) (label s) name v = (Ok (get_key name (normalize d) ≫= value_to_string), v).
Proof.
  intros (text & Ht & -> & Hs)%document_text. unfold load_json_value, mbind at 1, store_bind. rewrite Ht. destruct text as [t|]; [|done].
  destruct (Hs t eq_refl) as [d Hd]. rewrite Hd. done.
Qed.

Lemma load_document v d : document v = Some d -> file_exists (store_path s) v = true ->
  exists text, load_struct_unlocked json_error profile_of_json default_profile_config s v =
    (match profile_of_json d with Some c => Ok c | None => Err (parse_failed json_error (label s) text) end, v).
Proof.
  intros Hd He. unfold document in Hd. rewrite He in Hd. destruct (read_to_string (store_path s) v) as [t|] eqn:Hr; [|done]. exists t.
  unfold load_struct_unlocked, config_text, store_ask, store_op, mbind, store_bind, mret, store_ret. rewrite He, Hr. simpl. rewrite Hd. simpl.
  by destruct (profile_of_json d).
Qed.

(** What [set_json_value] does to the document. *)
Lemma set_document v l name x : file_good v -> document v = Some (Object l) -> fits max_nesting (Object l) = true ->
  exists v', set_json_value s name x v = (Ok tt, v') /\ file_exists (store_path s) v' = true /\
    document v' = Some (Object (obj_insert name (parse_json_value x) (collect l []))).
Proof.
  intros Hg Hd Hf. destruct (file_locks v Hg) as (v1 & Hl & Hg1 & He1 & Hr1).
  assert (Hd1 : document v1 = Some (Object l)) by (unfold document in *; by rewrite He1, Hr1).
  destruct (document_text v1 _ Hd1) as (text & Ht & Hdoc & Hparse).
  set (new := Object (obj_insert name (parse_json_value x) (collect l []))).
  assert (Hfit : fits max_nesting new = true).
  { apply fits_insert; [apply parse_json_value_plain|]. by apply (normalize_fits (Object l) max_nesting). }
  destruct (file_saves v1 (of_bytes (to_vec_pretty new)) Hg1) as (v' & Hs & _ & He & Hr). exists v'.
  split; [|split; [done|]]; [|unfold document; rewrite He, Hr; unfold parse_json; by rewrite as_bytes_of_bytes, from_slice_pretty].
  unfold set_json_value, mbind, store_bind. rewrite Hl. unfold update_json_file_field, mbind, store_bind. rewrite Ht. cbv zeta.
  assert (Hobj : match text with Some t => default (Object []) (normalize <$> parse_json t) | None => Object [] end = normalize (Object l)).
  { destruct text as [t|]; [|by rewrite Hdoc]. destruct (Hparse t eq_refl) as [d Hp]. rewrite Hp in Hdoc |- *. change (Object l = d) in Hdoc. by subst d. }
  rewrite Hobj. change (normalize (Object l)) with (Object (collect l [])). unfold store_lift. cbn [index_set ok_or].
  unfold write_config, store_op. fold new. rewrite Hs. reflexivity.
Qed.

(** [C24] Setting a text field of a profile, in a file whose numbers are integers: the field
    reads back as the text that was set — a number without leading zeros and plus sign —, the
    other fields of the file read back as before, and the profile that is loaded has this one
    field changed, provided that the text is not a whole number of 64 bits and not [true] or
    [false]. Such a text is stored as a JSON number or boolean, and from then on the profile
    cannot be loaded. *)
Theorem config_set_effect v l c name x :
  file_good v -> document v = Some (Object l) -> fits max_nesting (Object l) = true -> profile_of_json (Object l) = Some c ->
  name ∈ text_fields ->
  exists v' text, set_json_value s name x v = (Ok tt, v') /\
    (forall other, (load_json_value json_error (store_path s) (label s) other v').1 =
       if String.eqb other name then Ok (Some (read_back x))
       else (load_json_value json_error (store_path s) (label s) other v).1) /\
    load_struct_unlocked json_error profile_of_json default_profile_config s v' =
      (if kept_as_text x then Ok (set_field name x c) else Err (parse_failed json_error (label s) text), v').
Proof.
  intros Hg Hd Hf Hc Hname. destruct (set_document v l name x Hg Hd Hf) as (v' & Hs & He & Hd').
  destruct (load_document v' _ Hd' He) as [text Hl]. exists v', text. split; [done|]. split.
  - intros other. rewrite (get_value_document v' _ other Hd'), (get_value_document v _ other Hd). cbn [fst].
    rewrite normalize_canonical.
    + unfold get_key. simpl. rewrite obj_get_insert. destruct (String.eqb other name); [|done]. simpl. by rewrite written_reads_back.
    + pose proof (normalize_is_canonical (Object l)) as Hcan. inversion Hcan; subst.
      constructor; [by apply obj_insert_sorted|]. apply obj_insert_Forall; [|done].
      destruct (parse_json_value_plain x) as [<- _]. apply normalize_is_canonical.
  - rewrite Hl, (profile_of_inserted name x l c Hname Hc). by destruct (kept_as_text x).
Qed.
End set_value.

(** * Names of profiles *)

(** A name that is its own normal form: lowercase letters, digits and hyphens, the first
    not a hyphen. *)
Definition plain_name (name : string) : Prop :=
  all_chars profile_char name = true /\ match name with EmptyString => False | String c _ => is_lower c || is_digit c = true end.

Lemma profile_char_lower c : profile_char c = true -> is_ascii c = true /\ ascii_lower c = c /\ is_upper c = false /\ Ascii.eqb "/" c = false /\ Ascii.eqb "." c = false.
Proof. destruct c as [[] [] [] [] [] [] [] []]; vm_compute; intros; try discriminate; repeat split. Qed.

Lemma plain_chars name : all_chars profile_char name = true ->
  contains_char (fun c => negb (is_ascii c)) name = false /\ to_ascii_lowercase name = name /\
  contains_char (is_char "/") name = false /\ contains_char (is_char ".") name = false.
Proof.
  induction name as [|c r IH]; [done|]. cbn [all_chars contains_char to_ascii_lowercase]. intros [Hc Hr]%andb_true_iff.
  destruct (IH Hr) as (-> & -> & -> & ->). destruct (profile_char_lower c Hc) as (-> & -> & _ & Hs & Hd). unfold is_char. by rewrite Hs, Hd.
Qed.

Section names.
Context `{JsonText, !JsonPretty, Environment, Vault, UnicodeCase}.
Variable json_error : string -> string.

Lemma validated_plain name n : validate_profile_name name = Ok n -> plain_name n.
Proof.
  unfold validate_profile_name, plain_name. destruct (to_lowercase name) as [|c r] eqn:E; [done|].
  destruct (all_chars profile_char (String c r) && _) eqn:Ec; [|done]. intros [= <-]. apply andb_true_iff in Ec as [Hall Hc].
  split; [done|]. simpl in Hall. apply andb_true_iff in Hall as [Hp _]. destruct (profile_char_lower c Hp) as (_ & _ & Hu & _).
  by rewrite Hu, orb_false_r in Hc.
Qed.

Lemma plain_validated n : plain_name n -> validate_profile_name n = Ok n.
Proof.
  intros [Hall Hc]. unfold validate_profile_name. destruct (plain_chars n Hall) as (Ha & Hl & _).
  rewrite to_lowercase_ascii, Hl by done. destruct n as [|c r]; [done|]. rewrite Hall, Hc. done.
Qed.

(** Whatever it was taken from, the name of the profile in use is plain. *)
Lemma resolved_plain flag v name v' : resolve_profile_name json_error flag v = (Ok name, v') -> plain_name name.
Proof.
  assert (Hv : forall n w w', store_lift (validate_profile_name n) w = (Ok name, w') -> plain_name name).
  { intros n w w' [= Hn _]. by apply validated_plain with n. }
  unfold resolve_profile_name. destruct flag as [f|]; [apply Hv|]. destruct (given (env_var ENV_PROFILE)); [apply Hv|].
  unfold mbind, store_bind. destruct (global_load json_error v) as [[g|] v1]; [|done]. destruct (given (active_profile g)); [apply Hv|].
  unfold store_lift at 1. destruct profiles_dir; [|done]. unfold store_ask at 1. destruct (file_exists _ v1); [done|].
  destruct (ensure_profile_exists _ v1) as [[[]|] v2]; [|done]. destruct (global_update json_error _ v2) as [[[]|] v3]; [|done].
  unfold mret, store_ret. intros [= <- <-]. by split.
Qed.

Lemma path_join_nonempty a b : b <> EmptyString -> path_join a b <> EmptyString.
Proof. unfold path_join. destruct (_ || _); [done|]. destruct (ends_with "/" a), a; try done; by destruct b. Qed.

(** The profile in use, from the flag, the environment or the configuration, always has
    a name that validation accepts as it is, and its directory is right inside the
    directory of the profiles: no name can lead elsewhere. *)
Theorem profile_stays_inside flag v name v' d :
  resolve_profile_name json_error flag v = (Ok name, v') -> profiles_dir = Ok d ->
  validate_profile_name name = Ok name /\ contains_char (is_char "/") name = false /\ contains_char (is_char ".") name = false /\
  profile_dir name = Ok (d +:+ (if ends_with "/" d then name else "/" +:+ name)).
Proof.
  intros Hr Hd. pose proof (resolved_plain _ _ _ _ Hr) as Hp. split; [by apply plain_validated|]. destruct Hp as [Hall Hc].
  destruct (plain_chars name Hall) as (_ & _ & Hs & Hdot). split_and!; [done..|]. unfold profile_dir. rewrite Hd. simpl. f_equal.
  assert (Hne : d <> EmptyString).
  { unfold profiles_dir in Hd. destruct config_dir; [|done]. injection Hd as <-. by apply path_join_nonempty. }
  unfold path_join. destruct name as [|c r]; [done|]. cbn [contains_char] in Hs. apply orb_false_iff in Hs as [Hs _]. unfold is_char in Hs.
  rewrite (proj2 (String.eqb_neq _ _) Hne). cbn [starts_with]. rewrite Hs. cbn [andb orb]. by destruct (ends_with "/" d).
Qed.
End names.

(** * Examples *)

Section example.
#[local] Instance config_json : JsonText := bits_json_text.
#[local] Instance config_pretty : JsonPretty := bits_json_pretty.
#[local] Instance config_case : UnicodeCase := ascii_case.
#[local] Instance config_vault : Vault := disk_vault Healthy.
#[local] Instance config_env : Environment := {|
  env_var name := if String.eqb name ENV_HOME then Some "/ags" else if String.eqb name ENV_PROFILE then Some "Staging" else None;
  dirs_config_dir := None; dirs_home_dir := None; dirs_cache_dir := None; app_path := "ags" |}.

Definition dev_store : ConfigStore := mk_store "/ags/profiles/dev/config.json" "/ags/profiles/dev" "/ags/profiles/dev/.config.lock" "profile config for 'dev'".

#[local] Program Instance dev_works : WorkingFile dev_store := {| file_good v := "/ags/profiles/dev/config.json" ∉ dirs v |}.
Next Obligation.
  intros v Hv. eexists. split; [reflexivity|]. cbn -[ancestors_from list_to_set].
  assert (Hn : "/ags/profiles/dev/config.json" ∉@{gset string} list_to_set (ancestors_from EmptyString "/ags/profiles/dev")) by by vm_compute.
  split; [set_solver|]. split; [|done]. f_equal. by rewrite !(bool_decide_eq_false_2 (_ ∈ _)) by set_solver.
Qed.
Next Obligation.
  intros v text Hv. eexists. split; [reflexivity|]. split; [exact Hv|]. simpl. by rewrite lookup_insert_eq.
Qed.

Definition dev_document : list (string * value) := [("base_url", Str "https://demo.accelbyte.io"); ("namespace", Str "game")].
Definition dev_disk : Disk := mk_disk ∅ {[ "/ags/profiles/dev/config.json" := of_bytes (to_vec (Object dev_document)) ]} ∅.
Definition dev_config : ProfileConfig := mk_profile_config (Some "https://demo.accelbyte.io") None (Some "game") None.

(** A namespace of digits only passes validation, and makes the profile unreadable. *)
Lemma config_set_effect_witness : is_valid_namespace "2024" = true /\
  exists v' text, set_json_value dev_store "namespace" "2024" dev_disk = (Ok tt, v') /\
    (forall other, (load_json_value (fun s => s) (store_path dev_store) (label dev_store) other v').1 =
       if String.eqb other "namespace" then Ok (Some (read_back "2024"))
       else (load_json_value (fun s => s) (store_path dev_store) (label dev_store) other dev_disk).1) /\
    load_struct_unlocked (fun s => s) profile_of_json default_profile_config dev_store v' =
      (if kept_as_text "2024" then Ok (set_field "namespace" "2024" dev_config) else Err (parse_failed (fun s => s) (label dev_store) text), v').
Proof.
  split; [by vm_compute|].
  refine (config_set_effect (fun s => s) dev_store dev_disk dev_document dev_config "namespace" "2024" _ _ _ _ _).
  - vm_compute. intros Hx. inversion Hx.
  - by vm_compute.
  - by vm_compute.
  - by vm_compute.
  - set_solver.
Defined.

Lemma profile_stays_inside_witness :
  validate_profile_name "staging" = Ok "staging" /\ contains_char (is_char "/") "staging" = false /\ contains_char (is_char ".") "staging" = false /\
  profile_dir "staging" = Ok ("/ags/profiles" +:+ (if ends_with "/" "/ags/profiles" then "staging" else "/" +:+ "staging")).
Proof.
  refine (profile_stays_inside (fun s => s) None dev_disk "staging" dev_disk "/ags/profiles" _ _); by vm_compute.
Defined.
End example.
