(* ===== verification/ProfileProps.v ===== *)
(** Locks and profiles: the order in which several token locks are taken; what a deleted
    profile leaves in a keychain that could not be reached. *)

From Stdlib Require Import ZArith Lia Ascii Strings.Byte Sorting.Sorted.
From stdpp Require Import base gmap strings list sorting.
From S2P Require Import Prelude Text Kebab Nouns Json JsonNormal Catalogue Sanitise Results Workflow Request Http Pagination Tokens Vault Config TokenStore Profiles.

#[local] Arguments String.append !_ _ /.

(** * The order of locks *)

Definition path_lt (a b : string) : Prop := String.ltb a b = true.

#[global] Instance name_le_total : Total name_le.
Proof. intros a b. apply String.leb_total. Qed.

#[global] Instance name_le_trans : Transitive name_le.
Proof.
  intros a b c. unfold name_le, String.leb. intros Hab Hbc.
  destruct (String.compare a b) eqn:E1; try done; [by apply string_compare_eq in E1 as ->|].
  destruct (String.compare b c) eqn:E2; try done; [apply string_compare_eq in E2 as <-; by rewrite E1|].
  by rewrite (string_compare_trans _ _ _ E1 E2).
Qed.

Lemma le_neq_lt a b : name_le a b -> a <> b -> path_lt a b.
Proof.
  unfold name_le, path_lt, String.leb, String.ltb. intros Hle Hne. destruct (String.compare a b) eqn:E; try done. by apply string_compare_eq in E.
Qed.

Lemma dedup_cons a b r : dedup_sorted (a :: b :: r) = if String.eqb a b then dedup_sorted (b :: r) else a :: dedup_sorted (b :: r).
Proof. done. Qed.

Lemma dedup_in l x : x ∈ dedup_sorted l <-> x ∈ l.
Proof.
  induction l as [|a [|b r] IH]; try done. rewrite dedup_cons. destruct (String.eqb_spec a b) as [->|Hne]; [|set_solver].
  rewrite IH. set_solver.
Qed.

Lemma dedup_sorted_strict l : StronglySorted name_le l -> StronglySorted path_lt (dedup_sorted l).
Proof.
  intros Hs. induction l as [|a [|b r] IH]; [constructor|by repeat constructor|]. rewrite dedup_cons.
  apply StronglySorted_inv in Hs as [Hs Ha]. specialize (IH Hs). destruct (String.eqb_spec a b) as [->|Hne]; [done|].
  constructor; [done|]. apply Forall_forall. intros x Hx. rewrite dedup_in in Hx. apply le_neq_lt; [rewrite Forall_forall in Ha; by apply Ha|].
  intros <-. apply Forall_cons in Ha as [Hab _]. apply StronglySorted_inv in Hs as [_ Hb].
  rewrite elem_of_cons in Hx; destruct Hx as [->|Hx]; [done|]. rewrite Forall_forall in Hb. specialize (Hb _ Hx).
  assert (H1 : path_lt a b) by (by apply le_neq_lt). assert (H2 : path_lt b a) by (apply le_neq_lt; [done|by apply not_eq_sym]). unfold path_lt in *. by rewrite (ltb_asym _ _ H1) in H2.
Qed.

Section locks.
Context `{Environment, Base64Url}.

Lemma lock_paths_spec profiles paths : lock_paths profiles = Ok paths ->
  forall p, p ∈ paths <-> exists name, name ∈ profiles /\ token_lock_path name = Ok p.
Proof.
  revert paths. induction profiles as [|n r IH]; intros paths; simpl.
  - intros [= <-] p. split; [by intros ?%not_elem_of_nil|]. by intros (? & ?%not_elem_of_nil & _).
  - destruct (token_lock_path n) as [q|] eqn:Eq; [|done]. simpl. destruct (lock_paths r) as [qs|]; [|done]. simpl. intros [= <-] p.
    rewrite elem_of_cons, (IH qs eq_refl). split.
    + intros [->|(m & Hm & Hp)]; [exists n|exists m]; split; auto; set_solver.
    + intros (m & [->|Hm]%elem_of_cons & Hp); [left; congruence|right; by exists m].
Qed.

(** However the profiles are listed, the locks that [with_token_locks] takes are those of
    the profiles, each once, in the one order of their paths: two callers cannot hold a lock
    each and wait for the other's. *)
Theorem token_locks_ordered profiles paths : lock_order profiles = Ok paths ->
  StronglySorted path_lt paths /\
  (forall p, p ∈ paths <-> exists name, name ∈ profiles /\ token_lock_path name = Ok p) /\
  forall other paths', lock_order other = Ok paths' -> forall a b, path_lt a b ->
    forall l1 l2 l3, paths' <> l1 ++ b :: l2 ++ a :: l3.
Proof.
  assert (Hsort : forall ps l, lock_order ps = Ok l -> StronglySorted path_lt l /\ exists q, lock_paths ps = Ok q /\ forall p, p ∈ l <-> p ∈ q).
  { intros ps l. unfold lock_order. destruct (lock_paths ps) as [q|]; [|done]. simpl. intros [= <-]. split.
    - apply dedup_sorted_strict, StronglySorted_merge_sort; apply _.
    - exists q. split; [done|]. intros p. by rewrite dedup_in, merge_sort_Permutation. }
  intros Hl. destruct (Hsort _ _ Hl) as (Hs & q & Hq & Hin). split; [done|]. split.
  - intros p. rewrite Hin. by apply lock_paths_spec.
  - intros other paths' Ho a b Hab l1 l2 l3 ->. destruct (Hsort _ _ Ho) as [Hs' _]. clear -Hs' Hab.
    induction l1 as [|c l1 IH]; simpl in Hs'; apply StronglySorted_inv in Hs' as [Hs' Hf]; [|by apply IH].
    rewrite Forall_forall in Hf. assert (Hba : path_lt b a) by (apply Hf; set_solver). unfold path_lt in *. by rewrite (ltb_asym _ _ Hab) in Hba.
Qed.
End locks.

(** * Examples *)

Section example.
#[local] Instance profile_json : JsonText := bits_json_text.
#[local] Instance profile_pretty : JsonPretty := bits_json_pretty.
#[local] Instance profile_case : UnicodeCase := ascii_case.
#[local] Instance profile_url : UrlScheme := {| url_scheme _ := Some "https" |}.
#[local] Instance profile_b64 : Base64Url := {| b64_url s := s |}.
#[local] Instance profile_env : Environment := {|
  env_var name := if String.eqb name ENV_HOME then Some "/ags" else None;
  dirs_config_dir := Some "/home/config"; dirs_home_dir := None; dirs_cache_dir := None; app_path := "ags" |}.

Lemma token_locks_ordered_witness : exists paths, lock_order ["staging"; "dev"; "staging"] = Ok paths /\
  StronglySorted path_lt paths /\
  (forall p, p ∈ paths <-> exists name, name ∈ ["staging"; "dev"; "staging"] /\ token_lock_path name = Ok p) /\
  forall other paths', lock_order other = Ok paths' -> forall a b, path_lt a b ->
    forall l1 l2 l3, paths' <> l1 ++ b :: l2 ++ a :: l3.
Proof.
  exists ["/home/config/ags/locks/dev.token.lock"; "/home/config/ags/locks/staging.token.lock"].
  assert (Hl : lock_order ["staging"; "dev"; "staging"] = Ok ["/home/config/ags/locks/dev.token.lock"; "/home/config/ags/locks/staging.token.lock"])
    by by vm_compute.
  split; [exact Hl|]. exact (token_locks_ordered ["staging"; "dev"; "staging"] _ Hl).
Defined.

Definition run_of {V A} (m : result A RuntimeError * V) : V := m.2.

(** A profile is created and logged in, deleted while the keychain is locked — without a
    warning — and created again: it has the token of the deleted one. *)
Lemma deleted_profile_leaves_token :
  let json_error := fun s : string => s in
  let created := run_of (@profile_create _ _ _ (disk_vault Healthy) _ "dev" empty_disk) in
  let logged_in := run_of (@store_token_data _ (disk_vault Healthy) _ _ false profile_dir "dev" (sample_token "a1" "r1") created) in
  let deleted := @profile_delete _ _ _ (disk_vault Locked) _ _ json_error "dev" logged_in in
  let again := run_of (@profile_create _ _ _ (disk_vault Healthy) _ "dev" deleted.2) in
  deleted.1 = Ok (Deleted "dev" [] []) /\
  (@get_token_data _ (disk_vault Healthy) json_error false profile_dir "dev" again).1 = Ok (Some (sample_token "a1" "r1")).
Proof. by vm_compute. Qed.
End example.
