(* ===== verification/ReviewPlan.v ===== *)
(** The field plan of an API step ([resolve_step_fields] in [resolve.rs]): what a
    review shows of the request, field by field, with where each value comes from. *)

From stdpp Require Import base gmap strings list.
From Stdlib Require Import ZArith Lia Ascii.
From S2P Require Import Prelude Text Kebab Json Catalogue Paths Results Workflow AutoDerive Bindings Request.

(** * Data *)

Inductive StepFieldSource : Type :=
| SrcWorkflowInput (name : string)
| SrcDefault (name : string)
| SrcPriorOutput
| SrcLiteral
| SrcUnset
| SrcDerived (sources : list string).

Record StepField : Type := mk_field {
  f_id : nat;
  f_field : string;
  f_label : string;
  f_description : option string;
  f_location : StepFieldLocation;
  f_schema : value;
  f_value : value;
  f_source : StepFieldSource;
  f_required : bool;
  f_workflow_input : option string;
  f_body_overflow : bool;
  f_show_in_review : bool
}.

Record StepFieldPlan : Type := mk_plan {
  plan_step_index : nat;
  plan_step_label : string;
  plan_step_description : option string;
  plan_fields : list StepField;
  plan_optional : bool
}.

(** The value of a field, its provenance, and the workflow input its edits go to. *)
Definition FieldResolution : Type := option value * StepFieldSource * option string.

(** * Provenance *)

(** [format_placeholders(..).unwrap_or_default()]. *)
Definition template_names (template : string) : list string :=
  match format_placeholders template with Ok names => names | Err _ => [] end.

Definition classify_binding_source (source : BindingSource) (transform : option TransformKind) : StepFieldSource :=
  match source with
  | BFormat template => SrcDerived (template_names template)
  | BReference r =>
      match ref_from r, transform with
      | FromWorkflow input, Some (TArithmetic _ operand) =>
          SrcDerived (input :: match operand with OperandInput name => [name] | OperandInteger _ => [] end)
      | FromWorkflow input, _ => SrcWorkflowInput input
      | FromStep _, _ => SrcPriorOutput
      end
  | BLiteral _ _ | BMirror _ => SrcLiteral
  end.

Definition wf_source (defaults : gset string) (name : string) : StepFieldSource :=
  if bool_decide (name ∈ defaults) then SrcDefault name else SrcWorkflowInput name.

Definition push_unique (sources : list string) (name : string) : list string :=
  if bool_decide (name ∈ sources) then sources else sources ++ [name].

(** The sources a binding adds, and whether it is a literal. *)
Definition collect_binding_sources (source : BindingSource) (sources : list string) : list string * bool :=
  match source with
  | BLiteral _ _ => (sources, true)
  | BReference r =>
      (match ref_from r with
       | FromWorkflow input =>
           let sources := push_unique sources input in
           match ref_transform r with
           | Some (TArithmetic _ (OperandInput name)) => push_unique sources name
           | _ => sources
           end
       | FromStep _ => sources
       end, false)
  | BFormat template => (foldl push_unique sources (template_names template), false)
  | BMirror _ => (sources, false)
  end.

Section plan.
Context `{JsonText, UnicodeCase}.

(** What has been merged of a field's nested bindings so far. *)
Record Synthesis : Type := mk_synthesis {
  synthesized : value;
  syn_sources : list string;
  has_nested : bool;
  all_literal : bool
}.

(** The path below [name] that a nested binding of it writes. *)
Definition path_below (name field : string) : option (list PathSegment) :=
  match nested_path field with
  | Some (Key k :: rest) => if String.eqb k name then Some rest else None
  | _ => None
  end.

Definition add_synthesis (sv : StepValues) (bc : RequestBuildCtx) (name : string) (syn : Synthesis) (b : StepInputBinding)
  : result Synthesis RuntimeError :=
  match path_below name (bind_field b) with
  | None => Ok syn
  | Some rest =>
      let? resolved := binding_value sv (bc_bindings bc) (bind_source b) in
      let '(sources, literal) := collect_binding_sources (bind_source b) (syn_sources syn) in
      Ok (mk_synthesis
            (match resolved with Some v => merge_nested_binding rest v (synthesized syn) | None => synthesized syn end)
            sources true (all_literal syn && literal))
  end.

Definition synthesize_nested_field (sv : StepValues) (bc : RequestBuildCtx) (name : string)
  : result (option FieldResolution) RuntimeError :=
  let? syn := result_fold (add_synthesis sv bc name) (step_inputs (sv_step sv)) (mk_synthesis Null [] false true) in
  Ok (if negb (has_nested syn) then None
      else Some (if is_null (synthesized syn) then None else Some (synthesized syn),
                 if all_literal syn || bool_decide (syn_sources syn = []) then SrcLiteral else SrcDerived (syn_sources syn),
                 None)).

(** The provenance and edit target of a field bound to a workflow input. *)
Definition reference_source (defaults : gset string) (source : BindingSource) (transform : option TransformKind) (v : option value)
  : StepFieldSource * option string :=
  let src := if bool_decide (is_Some v) || bool_decide (is_Some transform) then
               match classify_binding_source source transform with
               | SrcWorkflowInput name => wf_source defaults name
               | classified => classified
               end
             else SrcUnset in
  (src, match src with SrcWorkflowInput name | SrcDefault name => Some name | _ => None end).

Definition resolve_field_with_source (sv : StepValues) (bc : RequestBuildCtx) (defaults : gset string) (name : string)
  : result FieldResolution RuntimeError :=
  match sv_local sv !! name with
  | Some v => Ok (Some v, SrcLiteral, None)
  | None =>
      match bc_bindings bc !! name with
      | Some source =>
          let? v := binding_value sv (bc_bindings bc) source in
          Ok (match source with
              | BMirror _ | BLiteral _ _ => (v, SrcLiteral, None)
              | BReference r =>
                  match ref_from r with
                  | FromWorkflow _ =>
                      let '(src, input) := reference_source defaults source (ref_transform r) v in (v, src, input)
                  | FromStep _ => (v, SrcPriorOutput, None)
                  end
              | BFormat _ => (v, classify_binding_source source None, None)
              end)
      | None =>
          if bool_decide (name ∈ workflow_input_names bc) then
            Ok (match sv_supplied sv !! name with
                | Some v => (Some v, wf_source defaults name, Some name)
                | None => (None, SrcUnset, Some name)
                end)
          else
            let? nested := synthesize_nested_field sv bc name in
            Ok (match nested with Some resolution => resolution | None => (None, SrcUnset, None) end)
      end
  end.

(** * Review flags *)

(** The root as [build_review_roots] reads it: up to the first dot, else up to the
    first bracket. *)
Definition review_root (field : string) : string :=
  match split_once "." field with
  | Some (root, _) => root
  | None => match split_once "[" field with Some (root, _) => root | None => field end
  end.

Definition bound_roots (step : CompiledStep) : gset string := list_to_set (map (fun b => review_root (bind_field b)) (step_inputs step)).

(** Only top-level bindings set the flag of their root. *)
Definition show_in_review_by_root (step : CompiledStep) (name : string) : bool :=
  existsb (fun b => String.eqb (review_root (bind_field b)) name && negb (is_nested (bind_field b)) && bind_show_in_review b)
    (step_inputs step).

(** The top-level bindings; the last one of a name wins. *)
Definition full_bindings_by_field (step : CompiledStep) : gmap string StepInputBinding :=
  list_to_map (rev (map (fun b => (bind_field b, b)) (List.filter (fun b => negb (is_nested (bind_field b))) (step_inputs step)))).

Definition find_workflow_input_description (step : CompiledStep) (specs : list WorkflowInputSpec) (name : string) : option string :=
  b ← full_bindings_by_field step !! name;
  match bind_source b with
  | BReference r =>
      match ref_from r, ref_transform r with
      | FromWorkflow _, Some (TArithmetic _ _) => None
      | FromWorkflow input, _ => spec ← List.find (fun s => String.eqb (in_name s) input) specs; in_description spec
      | FromStep _, _ => None
      end
  | _ => None
  end.

Definition or_else {A} (o o' : option A) : option A := match o with Some _ => o | None => o' end.

(** * The plan *)

(** The fields so far, and the names seen; an id is the number of fields before it. *)
Definition plan_state : Type := list StepField * gset string.

(** [push]: one field per name. *)
Definition push_field (sv : StepValues) (bc : RequestBuildCtx) (defaults : gset string) (st : plan_state) (name : string)
    (description : option string) (location : StepFieldLocation) (schema : value) (required show : bool)
  : result plan_state RuntimeError :=
  if bool_decide (name ∈ st.2) then Ok st
  else
    let? resolution := resolve_field_with_source sv bc defaults name in
    let '(v, source, input) := resolution in
    Ok (st.1 ++ [mk_field (length st.1) name (to_kebab_case name) description location schema (default Null v) source required
                   input false show],
        {[name]} ∪ st.2).

Definition file_description : string := "Path to local file to upload".

Definition push_param (sv : StepValues) (bc : RequestBuildCtx) (defaults : gset string) (specs : list WorkflowInputSpec)
    (st : plan_state) (p : ParameterSchema) : result plan_state RuntimeError :=
  match param_location p with
  | InBody => Ok st
  | location =>
      let description := if is_file p then Some file_description
                         else or_else (find_workflow_input_description (sv_step sv) specs (param_name p)) (param_description p) in
      push_field sv bc defaults st (param_name p) description (parameter_location location) (parameter_schema p) (param_required p)
        (show_in_review_by_root (sv_step sv) (param_name p))
  end.

(** Whether a body field has a row of its own. *)
Definition individual (sv : StepValues) (bc : RequestBuildCtx) (f : BodyField) : bool :=
  bool_decide (is_Some (bc_bindings bc !! field_name f)) || bool_decide (field_name f ∈ bound_roots (sv_step sv)) ||
  bool_decide (field_name f ∈ workflow_input_names bc) || field_required f.

(** The other optional fields: their names, and the properties of the one row they share. *)
Definition overflow_state : Type := list string * list (string * value).

Definition push_body_field (sv : StepValues) (bc : RequestBuildCtx) (defaults : gset string) (specs : list WorkflowInputSpec)
    (st : plan_state * overflow_state) (f : BodyField) : result (plan_state * overflow_state) RuntimeError :=
  if individual sv bc f then
    let? plan := push_field sv bc defaults st.1 (field_name f)
      (or_else (find_workflow_input_description (sv_step sv) specs (field_name f)) (field_description f)) LBody
      (body_field_schema f) (field_required f) (show_in_review_by_root (sv_step sv) (field_name f)) in
    Ok (plan, st.2)
  else if bool_decide (field_name f ∈ st.1.2) then Ok st
  else Ok (st.1, (st.2.1 ++ [field_name f], obj_insert (field_name f) (body_field_schema f) st.2.2)).

Definition overflow_field (id : nat) (o : overflow_state) : StepField :=
  mk_field id EmptyString "Additional Parameters" (Some ("Optional body fields you can add: " +:+ join ", " o.1)) LBody
    (Object [("properties", Object o.2); ("type", Str "object")]) (Object []) SrcUnset false None true false.

Definition push_overflow (st : plan_state * overflow_state) : list StepField :=
  match st.2.2 with
  | [] => st.1.1
  | _ => st.1.1 ++ [overflow_field (length st.1.1) st.2]
  end.

(** The schema of a literal's own row. *)
Definition literal_schema (v : value) : value :=
  match v with
  | Bool _ => typed "boolean"
  | Number (NInt z) => if bool_decide (in_i64 z) then typed "integer" else typed "number"
  | Number (NFloat _) => typed "number"
  | Str _ => typed "string"
  | Array _ => typed "array"
  | Object _ => typed "object"
  | Null => typed "string"
  end.

Definition last_key (path : list PathSegment) : option string :=
  head (omap (fun seg => match seg with Key name => Some name | Index _ => None end) (rev path)).

(** One binding's row, when it is a nested literal marked for review. *)
Definition push_literal_row (sv : StepValues) (fields : list StepField) (b : StepInputBinding) : list StepField :=
  if negb (is_nested (bind_field b)) || negb (bind_show_in_review b) then fields
  else
    match bind_source b, FieldPath_parse (bind_field b) with
    | BLiteral v _, Some (Ok path) =>
        fields ++ [mk_field (length fields) (bind_field b) (default (path_root (bind_field b)) (last_key path)) (bind_description b)
                     LBody (literal_schema v) (default v (sv_local sv !! bind_field b)) SrcLiteral false None false true]
    | _, _ => fields
    end.

Definition push_nested_literal_review_fields (sv : StepValues) (fields : list StepField) : list StepField :=
  foldl (push_literal_row sv) fields (step_inputs (sv_step sv)).

Definition plan_without_operation (step : CompiledStep) : RuntimeError :=
  internal (compiled_context step +:+ ": API step reached resolve_step_fields without an operation").

(** The rows of the operation's fields. *)
Definition operation_rows (sv : StepValues) (bc : RequestBuildCtx) (defaults : gset string) (specs : list WorkflowInputSpec)
    (op : OperationSchema) : result (plan_state * overflow_state) RuntimeError :=
  let? st := result_fold (push_param sv bc defaults specs) (parameters op) ([], ∅) in
  result_fold (push_body_field sv bc defaults specs) (request_fields op) (st, ([], [])).

Definition resolve_step_fields (step : CompiledStep) (ctx : WorkflowContext) (supplied step_local : gmap string value)
    (specs : list WorkflowInputSpec) (schema : ServiceSchema) (defaults : gset string) : result StepFieldPlan RuntimeError :=
  let sv := mk_values step ctx supplied step_local in
  let? op_ref := ok_or (step_operation step) (plan_without_operation step) in
  let? op := find_operation_or_error schema op_ref (compiled_context step) in
  let? rows := operation_rows sv (build_ctx_of step specs) defaults specs op in
  Ok (mk_plan (step_index step) (step_id step) (step_description step)
        (push_nested_literal_review_fields sv (push_overflow rows)) (is_optional step)).
End plan.
