(* ===== verification/Agreement.v ===== *)
(** What a review shows is what the request sends: the plan of [resolve_step_fields]
    against the request of [assemble_command_request], for the same step, context,
    inputs and edits. *)

From stdpp Require Import base gmap strings list.
From Stdlib Require Import ZArith Lia Ascii.
From S2P Require Import Prelude Text Kebab Json Catalogue Paths Results Workflow AutoDerive Bindings Request ReviewPlan.

Lemma bind_ok {A B E} (r : result A E) (k : A -> result B E) y :
  result_bind r k = Ok y -> exists x, r = Ok x /\ k x = Ok y.
Proof. destruct r; simpl; naive_solver. Qed.

Lemma Ok_inj {A E} (x y : A) : Ok (E := E) x = Ok y -> x = y.
Proof. by intros [= ->]. Qed.

Section agreement.
Context `{JsonText, UnicodeCase}.

(** * Values *)

(** A field none of whose bindings lies below it. *)
Definition flat (step : CompiledStep) (name : string) : Prop :=
  forall b, b ∈ step_inputs step -> path_below name (bind_field b) = None.

(** A field bound only from below, untouched by edits. *)
Definition only_below (sv : StepValues) (bc : RequestBuildCtx) (name : string) : Prop :=
  sv_local sv !! name = None /\ bc_bindings bc !! name = None /\ name ∉ workflow_input_names bc /\
  forall b, b ∈ step_inputs (sv_step sv) -> is_Some (path_below name (bind_field b)) -> sv_local sv !! bind_field b = None.

(** No binding writes below an index at the root. *)
Definition paths_keyed (step : CompiledStep) : Prop :=
  forall b i rest, b ∈ step_inputs step -> nested_path (bind_field b) <> Some (Index i :: rest).

Section values.
Context (sv : StepValues) (bc : RequestBuildCtx) (defaults : gset string).

Lemma synthesis_flat name : flat (sv_step sv) name -> synthesize_nested_field sv bc name = Ok None.
Proof.
  intros Hf. unfold synthesize_nested_field.
  assert (Hr : forall bs syn, bs ⊆ step_inputs (sv_step sv) -> result_fold (add_synthesis sv bc name) bs syn = Ok syn).
  { induction bs as [|b bs IH]; intros syn Hsub; [done|]. simpl. unfold add_synthesis at 1. rewrite Hf by set_solver.
    apply IH. set_solver. }
  by rewrite Hr by done.
Qed.

(** The plan shows the value the request resolves. *)
Lemma same_value name v src input : flat (sv_step sv) name ->
  resolve_field_with_source sv bc defaults name = Ok (v, src, input) -> resolve_field_value sv bc name = Ok v.
Proof.
  intros Hf. unfold resolve_field_with_source, resolve_field_value. destruct (sv_local sv !! name); [naive_solver|].
  destruct (bc_bindings bc !! name) as [source|].
  - intros (w & -> & Hw)%bind_ok. destruct source as [l s|r|t|m]; [naive_solver| |naive_solver..].
    destruct (ref_from r); [|naive_solver]. destruct (reference_source _ _ _ _). naive_solver.
  - case_bool_decide; [destruct (sv_supplied sv !! name); naive_solver|]. rewrite synthesis_flat by done. naive_solver.
Qed.

Lemma below_value name v : only_below sv bc name -> resolve_field_value sv bc name = Ok v -> v = None.
Proof.
  intros (Hl & Hb & Hi & _). unfold resolve_field_value. rewrite Hl, Hb, bool_decide_false by done. naive_solver.
Qed.

(** ** Nested values *)

Lemma nested_rest field seg rest : nested_path field = Some (seg :: rest) -> rest <> [].
Proof.
  unfold nested_path. destruct (FieldPath_parse field) as [[segs|]|]; [|done..].
  destruct (Nat.ltb_spec 1 (length segs)) as [Hl|]; [|done]. intros [= ->]. by destruct rest; [simpl in Hl; lia|].
Qed.

Lemma merge_not_null path v cur : path <> [] -> is_null (merge_nested_binding path v cur) = false.
Proof. destruct path as [|[k|i] [|seg rest]]; done. Qed.

Lemma parse_plain fuel input rest i start key segs out : contains_char is_name_end rest = false ->
  parse_loop fuel input rest i start key segs = Some (Ok out) -> (length out <= S (length segs))%nat.
Proof.
  revert rest i start key. induction fuel as [|fuel IH]; intros rest i start key Hp; [done|]. destruct rest as [|c r]; cbn [parse_loop].
  - destruct (ends_with_dot input); [done|]. destruct (Nat.ltb start i).
    + destruct (segs ++ [Key key]) eqn:E; [done|]. intros [= <-]. rewrite <- E, length_app. simpl. lia.
    + destruct segs; [done|]. intros [= <-]. lia.
  - simpl in Hp. apply orb_false_iff in Hp as [Hc Hp]. unfold is_name_end, is_char in Hc. apply orb_false_iff in Hc as [H1 H2].
    rewrite Ascii.eqb_sym in H1, H2. rewrite H1, H2. by apply IH.
Qed.

Lemma nested_path_nested field path : nested_path field = Some path -> is_nested field = true.
Proof.
  unfold nested_path, FieldPath_parse. destruct (is_empty field); [done|]. destruct (parse_loop _ _ _ _ _ _ _) as [[segs|]|] eqn:E; [|done..].
  destruct (Nat.ltb_spec 1 (length segs)) as [Hl|]; [|done]. intros _. destruct (is_nested field) eqn:En; [done|].
  apply parse_plain in E; [simpl in E; lia|done].
Qed.

(** An object is replaced by what its first segment needs, just as [null] is. *)
Lemma merge_empty path v : path <> [] -> merge_nested_binding path v (Object []) = merge_nested_binding path v Null.
Proof. destruct path as [|[k|i] [|seg rest]]; done. Qed.

Lemma merge_key k rest v o : rest <> [] -> merge_nested_binding (Key k :: rest) v (Object o) =
  Object (obj_insert k (merge_nested_binding rest v (default (Object []) (obj_get k o))) o).
Proof. by destruct rest. Qed.

(** What the second pass makes of a body object. *)
Lemma add_nested_object body b body' : paths_keyed (sv_step sv) -> b ∈ step_inputs (sv_step sv) ->
  add_nested sv bc (Object body) b = Ok body' -> exists body1, body' = Object body1 /\
    forall name, path_below name (bind_field b) = None -> obj_get name body1 = obj_get name body.
Proof.
  intros Hk Hb. unfold add_nested. destruct (is_nested _); [|intros [= <-]; by exists body].
  destruct (nested_path (bind_field b)) as [[|[k|i] rest]|] eqn:Ep; cbn [negb].
  - unfold nested_path in Ep. by destruct (FieldPath_parse _) as [[[|? [|? ?]]|]|].
  - intros (resolved & _ & [= <-])%bind_ok. destruct resolved as [v|]; [|by exists body].
    pose proof (nested_rest _ _ _ Ep) as Hr.
    eexists. split; [by apply merge_key|]. intros name Hp. rewrite obj_get_insert. unfold path_below in Hp. rewrite Ep in Hp.
    rewrite String.eqb_sym. by destruct (String.eqb k name).
  - by destruct (Hk b i rest Hb).
  - intros [= <-]. by exists body.
Qed.

(** The second pass leaves the other fields of the body alone. *)
Lemma nested_pass body body' name : paths_keyed (sv_step sv) -> flat (sv_step sv) name ->
  result_fold (add_nested sv bc) (step_inputs (sv_step sv)) (Object body) = Ok body' ->
  exists body1, body' = Object body1 /\ obj_get name body1 = obj_get name body.
Proof.
  intros Hk Hf Hr. revert Hr. apply (result_fold_ind (fun b => exists body1, b = Object body1 /\ obj_get name body1 = obj_get name body)).
  - by exists body.
  - intros b acc acc' Hb (body1 & -> & He) Ha. destruct (add_nested_object _ _ _ Hk Hb Ha) as (body2 & -> & Hn).
    exists body2. split; [done|]. by rewrite Hn, He by (by apply Hf).
Qed.

(** Below a field, it merges what the plan synthesizes. *)
Lemma below_pass name syn body body' bs syn' : paths_keyed (sv_step sv) -> only_below sv bc name -> bs ⊆ step_inputs (sv_step sv) ->
  obj_get name body = (if is_null (synthesized syn) then None else Some (synthesized syn)) ->
  result_fold (add_synthesis sv bc name) bs syn = Ok syn' ->
  result_fold (add_nested sv bc) bs (Object body) = Ok body' ->
  exists body1, body' = Object body1 /\ obj_get name body1 = if is_null (synthesized syn') then None else Some (synthesized syn').
Proof.
  intros Hk Ho. revert syn body. induction bs as [|b bs IH]; intros syn body Hsub Hg; cbn [result_fold].
  { intros [= <-] [= <-]. by exists body. }
  assert (Hb : b ∈ step_inputs (sv_step sv)) by set_solver. assert (Hbs : bs ⊆ step_inputs (sv_step sv)) by set_solver.
  destruct (add_synthesis sv bc name syn b) as [syn1|e] eqn:Es; [|done].
  destruct (add_nested sv bc (Object body) b) as [body1|e] eqn:En; [|done].
  unfold add_synthesis in Es. destruct (path_below name (bind_field b)) as [rest|] eqn:Ep.
  - destruct Ho as (_ & _ & _ & Hl). assert (Hlocal : sv_local sv !! bind_field b = None) by (apply Hl; [done|by eexists]).
    pose proof Ep as Ep'. unfold path_below in Ep'. destruct (nested_path (bind_field b)) as [[|[k|i] rest']|] eqn:Enp; try done.
    destruct (String.eqb_spec k name) as [->|]; [|done]. injection Ep' as ->.
    unfold add_nested in En. rewrite (nested_path_nested _ _ Enp), Enp, Hlocal in En. cbn [negb] in En.
    apply bind_ok in Es as (resolved & Hres & Es). rewrite Hres in En. cbn [result_bind] in En. apply Ok_inj in En as <-.
    destruct (collect_binding_sources _ _) as [sources literal]. injection Es as <-.
    pose proof (nested_rest _ _ _ Enp) as Hne. destruct resolved as [v|]; [|by apply IH].
    cbv iota. rewrite merge_key by done. apply IH; [done|]. cbn [synthesized].
    rewrite obj_get_insert, String.eqb_refl, merge_not_null by done. f_equal. rewrite Hg.
    destruct (is_null (synthesized syn)) eqn:Enull; [|done]. destruct (synthesized syn); try done. cbn [default]. by rewrite merge_empty.
  - injection Es as <-. destruct (add_nested_object _ _ _ Hk Hb En) as (body2 & -> & Hn). apply IH; [done|]. by rewrite Hn.
Qed.

(** ** Parameters *)

Definition params_at (l : StepFieldLocation) (ps : NonBodyParams) : gmap string string :=
  match l with LPath => pp_path ps | LQuery => pp_query ps | LHeader => pp_header ps | LBody | LFormData => ∅ end.

(** The parameters hold resolved values only. *)
Definition params_resolved (ps : NonBodyParams) : Prop :=
  forall l name s, params_at l ps !! name = Some s ->
    exists v, resolve_field_value sv bc name = Ok (Some v) /\ s = json_to_param_string v.

(** The parameters a request carries in its path, query or headers. *)
Definition carried (p : ParameterSchema) (l : StepFieldLocation) : bool :=
  match param_location p, l with InPath, LPath | InQuery, LQuery | InHeader, LHeader => true | _, _ => false end.

Lemma params_at_insert l p s ps : params_at l (insert_param p s ps) =
  if carried p l then <[param_name p := s]> (params_at l ps) else params_at l ps.
Proof. unfold insert_param, carried. by destruct (param_location p), l. Qed.

Lemma add_param_inv p ps ps' : add_param sv bc ps p = Ok ps' ->
  ps' = ps /\ (forall l, carried p l = true -> resolve_field_value sv bc (param_name p) = Ok None) \/
  exists v, resolve_field_value sv bc (param_name p) = Ok (Some v) /\ ps' = insert_param p (json_to_param_string v) ps.
Proof.
  intros Ha. unfold add_param in Ha.
  destruct (param_location p) eqn:El; try (injection Ha as <-; left; split; [done|]; intros l; unfold carried; by rewrite El);
    apply bind_ok in Ha as (resolved & Hr & Ha); destruct resolved as [v|]; [by injection Ha as <-; right; exists v| |
      by injection Ha as <-; right; exists v| |by injection Ha as <-; right; exists v|];
    destruct (param_required p); try done; injection Ha as <-; by left.
Qed.

Lemma add_param_resolved p ps ps' : params_resolved ps -> add_param sv bc ps p = Ok ps' -> params_resolved ps'.
Proof.
  intros Hp [(-> & _)|(v & Hv & ->)]%add_param_inv; [done|]. intros l name s. rewrite params_at_insert.
  destruct (carried p l); [|by apply Hp]. destruct (decide (param_name p = name)) as [<-|Hne].
  - rewrite lookup_insert_eq. intros [= <-]. by exists v.
  - rewrite lookup_insert_ne by done. apply Hp.
Qed.

(** Each parameter is in the request, as text, exactly when it has a value. *)
Lemma params_sent op ps l p v : resolve_non_body_params sv bc op = Ok ps -> p ∈ parameters op -> carried p l = true ->
  resolve_field_value sv bc (param_name p) = Ok v -> params_at l ps !! param_name p = option_map json_to_param_string v.
Proof.
  intros Hr Hin Hl Hv. assert (Hinv : params_resolved ps).
  { eapply (result_fold_ind params_resolved); [|intros x a a' _; apply add_param_resolved|exact Hr]. by intros [] ? ?. }
  destruct v as [v|]; simpl.
  - revert p Hin Hl Hv.
    cut (forall p, p ∈ parameters op -> forall l, carried p l = true -> forall v, resolve_field_value sv bc (param_name p) = Ok (Some v) ->
      params_at l ps !! param_name p = Some (json_to_param_string v)); [eauto|].
    eapply (result_fold_each (fun p ps => forall l, carried p l = true -> forall v, resolve_field_value sv bc (param_name p) = Ok (Some v) ->
      params_at l ps !! param_name p = Some (json_to_param_string v))); [| |exact Hr].
    + intros p acc acc' _ [(_ & Hn)|(w & Hw & ->)]%add_param_inv l' Hl' v' Hv'; [rewrite (Hn l' Hl') in Hv'; done|].
      rewrite params_at_insert, Hl', lookup_insert_eq. congruence.
    + intros p q acc acc' _ _ Hp [(-> & _)|(w & Hw & ->)]%add_param_inv l' Hl' v' Hv'; [by apply Hp|].
      rewrite params_at_insert. destruct (carried q l'); [|by apply Hp].
      destruct (decide (param_name q = param_name p)) as [He|Hne]; [rewrite He, lookup_insert_eq|rewrite lookup_insert_ne by done; by apply Hp].
      congruence.
  - destruct (params_at l ps !! param_name p) as [s|] eqn:E; [|done]. destruct (Hinv _ _ _ E) as (v & Hv' & _). congruence.
Qed.

(** ** Form parts *)

Definition part_name (part : FormPart) : string := match part with FormText name _ | FormFile name _ _ => name end.
(** The text of a part: its value, or the path of its file. *)
Definition part_text (part : FormPart) : string := match part with FormText _ v => v | FormFile _ path _ => path end.

Lemma add_form_part_inv files parts p parts' : add_form_part files sv bc parts p = Ok parts' ->
  parts' = parts /\ (param_location p = InFormData -> resolve_field_value sv bc (param_name p) = Ok None) \/
  exists v part, resolve_field_value sv bc (param_name p) = Ok (Some v) /\ parts' = parts ++ [part] /\
    part_name part = param_name p /\ part_text part = json_to_param_string v.
Proof.
  intros Ha. unfold add_form_part in Ha. case_bool_decide as El; cbn [negb] in Ha; [|injection Ha as <-; by left].
  apply bind_ok in Ha as ([v|] & Hr & Ha).
  - right. destruct (is_file p); [|injection Ha as <-; by eexists v, (FormText _ _)].
    apply bind_ok in Ha as (part & Hp & Ha). injection Ha as <-. unfold validate_and_build_file_part in Hp.
    destruct (files _) as [[]|]; try done. injection Hp as <-. by eexists v, (FormFile _ _ _).
  - left. destruct (param_required p); [done|]. injection Ha as <-. by split.
Qed.

Lemma form_sent files op parts p v : resolve_form_data_params files sv bc op = Ok parts -> p ∈ parameters op ->
  param_location p = InFormData -> resolve_field_value sv bc (param_name p) = Ok v ->
  match v with
  | Some w => exists part, part ∈ default [] parts /\ part_name part = param_name p /\ part_text part = json_to_param_string w
  | None => forall part, part ∈ default [] parts -> part_name part <> param_name p
  end.
Proof.
  intros Hr Hin Hl Hv. apply bind_ok in Hr as (l & Hr & Hparts).
  assert (default [] parts = l) as ->. { apply Ok_inj in Hparts as <-. by destruct l. }
  destruct v as [w|].
  - assert (Hall : forall p, p ∈ parameters op -> param_location p = InFormData ->
      forall w, resolve_field_value sv bc (param_name p) = Ok (Some w) ->
      exists part, part ∈ l /\ part_name part = param_name p /\ part_text part = json_to_param_string w); [|by apply (Hall p)].
    eapply (result_fold_each (fun p l => param_location p = InFormData -> forall w, resolve_field_value sv bc (param_name p) = Ok (Some w) ->
      exists part, part ∈ l /\ part_name part = param_name p /\ part_text part = json_to_param_string w)); [| |exact Hr].
    + intros q acc acc' _ [(_ & Hn)|(u & part & Hu & -> & Hname & Ht)]%add_form_part_inv Hq w' Hw; [rewrite Hn in Hw; done|].
      exists part. split_and!; [set_solver|done|congruence].
    + intros q q' acc acc' _ _ Hq [(-> & _)|(u & part & Hu & -> & _)]%add_form_part_inv Hloc w' Hw; [by apply Hq|].
      destruct (Hq Hloc w' Hw) as (part' & Hpart & ?). exists part'. split; [set_solver|done].
  - assert (Hinv : Forall (fun part => exists u, resolve_field_value sv bc (part_name part) = Ok (Some u)) l).
    { eapply (result_fold_ind (Forall _)); [|intros q acc acc' _ Hall Ha|exact Hr]; [constructor|].
      apply add_form_part_inv in Ha as [(-> & _)|(u & part & Hu & -> & Hname & _)]; [done|].
      apply Forall_app. split; [done|]. constructor; [|done]. exists u. by rewrite Hname. }
    rewrite Forall_forall in Hinv. intros part Hpart Hname. destruct (Hinv part Hpart) as (u & Hu). congruence.
Qed.

(** ** The body *)

Lemma add_body_field_inv body f body' : add_body_field sv bc body f = Ok body' ->
  exists v, resolve_field_value sv bc (field_name f) = Ok v /\
    body' = match v with Some w => obj_insert (field_name f) w body | None => body end.
Proof.
  intros ([w|] & Hr & Ha)%bind_ok; [exists (Some w); split; [done|congruence]|]. exists None. split; [done|].
  destruct (field_required f && _); [done|]. congruence.
Qed.

(** The first pass holds each field's value and nothing else. *)
Lemma top_pass fields top : result_fold (add_body_field sv bc) fields [] = Ok top ->
  (forall name w, obj_get name top = Some w -> resolve_field_value sv bc name = Ok (Some w)) /\
  (forall f, f ∈ fields -> forall v, resolve_field_value sv bc (field_name f) = Ok v -> obj_get (field_name f) top = v).
Proof.
  intros Hr. assert (Hinv : forall name w, obj_get name top = Some w -> resolve_field_value sv bc name = Ok (Some w)).
  { eapply (result_fold_ind (fun top => forall name w, obj_get name top = Some w -> resolve_field_value sv bc name = Ok (Some w)));
      [| |exact Hr]; [intros name w Hx; discriminate Hx|].
    intros f acc acc' _ Hacc ([u|] & Hu & ->)%add_body_field_inv name w; [|apply Hacc]. rewrite obj_get_insert.
    destruct (String.eqb_spec name (field_name f)) as [->|]; [|apply Hacc]. by intros [= <-]. }
  split; [done|]. intros f Hf v Hv. destruct v as [v|].
  - assert (Hall : forall f, f ∈ fields -> forall v, resolve_field_value sv bc (field_name f) = Ok (Some v) -> obj_get (field_name f) top = Some v);
      [|by apply Hall].
    eapply (result_fold_each (fun f top => forall v, resolve_field_value sv bc (field_name f) = Ok (Some v) -> obj_get (field_name f) top = Some v));
      [| |exact Hr].
    + intros g acc acc' _ (u & Hu & ->)%add_body_field_inv w Hw. rewrite Hu in Hw. injection Hw as ->.
      by rewrite obj_get_insert, String.eqb_refl.
    + intros g g' acc acc' _ _ Hg (u & Hu & ->)%add_body_field_inv w Hw. destruct u as [u|]; [|by apply Hg].
      rewrite obj_get_insert. destruct (String.eqb_spec (field_name g) (field_name g')) as [He|]; [|by apply Hg]. rewrite He in Hw. congruence.
  - destruct (obj_get (field_name f) top) as [w|] eqn:E; [|done]. apply Hinv in E. congruence.
Qed.

(** The body holds the value of a field no binding lies below, and what the plan
    synthesizes for a field bound only from below. *)
Lemma body_sent op body f v src input : paths_keyed (sv_step sv) -> gather_body sv bc op = Ok body -> f ∈ request_fields op ->
  flat (sv_step sv) (field_name f) \/ only_below sv bc (field_name f) ->
  resolve_field_with_source sv bc defaults (field_name f) = Ok (v, src, input) -> obj_get (field_name f) body = v.
Proof.
  intros Hk Hg Hf Hcase Hv. apply bind_ok in Hg as (top & Ht & Hg). apply bind_ok in Hg as (body1 & Hn & Hg).
  destruct (top_pass _ _ Ht) as [Hinv Heach]. destruct Hcase as [Hflat|Hbelow].
  - destruct (nested_pass _ _ _ Hk Hflat Hn) as (body2 & -> & He). apply Ok_inj in Hg as <-. rewrite He.
    apply Heach; [done|]. by eapply same_value.
  - assert (Htop : obj_get (field_name f) top = None).
    { destruct (obj_get (field_name f) top) eqn:E; [|done]. apply Hinv, below_value in E; done. }
    unfold resolve_field_with_source in Hv. pose proof Hbelow as (Hl & Hb & Hi & _). rewrite Hl, Hb, bool_decide_false in Hv by done.
    apply bind_ok in Hv as (nested & Hs & Hv). unfold synthesize_nested_field in Hs. apply bind_ok in Hs as (syn & Hs & Hn').
    destruct (below_pass _ (mk_synthesis Null [] false true) _ _ _ _ Hk Hbelow (fun _ Hb => Hb) Htop Hs Hn) as (body2 & -> & He). apply Ok_inj in Hg as <-. rewrite He.
    apply Ok_inj in Hn' as <-. destruct (has_nested syn) eqn:Eh; cbn [negb] in Hv; apply Ok_inj in Hv; [congruence|].
    injection Hv as <- _ _. assert (Hnull : has_nested syn = false -> synthesized syn = Null); [|by rewrite (Hnull Eh)].
    eapply (result_fold_ind (fun syn => has_nested syn = false -> synthesized syn = Null)); [| |exact Hs]; [done|].
    intros b acc acc' _ Ha. unfold add_synthesis. destruct (path_below _ _); [|by intros [= <-]].
    intros (r & _ & Hx)%bind_ok. destruct (collect_binding_sources _ _). apply Ok_inj in Hx as <-. done.
Qed.

(** ** Rows *)

Section rows.
Context (op : OperationSchema) (specs : list WorkflowInputSpec).

(** A row shows the resolution of a field of the operation. *)
Definition row_ok (f : StepField) : Prop :=
  (exists v input, resolve_field_with_source sv bc defaults (f_field f) = Ok (v, f_source f, input) /\ f_value f = default Null v) /\
  ((exists p, p ∈ parameters op /\ param_name p = f_field f /\ param_location p <> InBody /\
     f_location f = parameter_location (param_location p)) \/
   (f_location f = LBody /\ exists bf, bf ∈ request_fields op /\ field_name bf = f_field f)).

Lemma push_field_rows st name description location schema required show st' :
  Forall row_ok st.1 ->
  ((exists p, p ∈ parameters op /\ param_name p = name /\ param_location p <> InBody /\ location = parameter_location (param_location p)) \/
   (location = LBody /\ exists bf, bf ∈ request_fields op /\ field_name bf = name)) ->
  push_field sv bc defaults st name description location schema required show = Ok st' -> Forall row_ok st'.1.
Proof.
  intros Hall Hfrom. unfold push_field. case_bool_decide; [by intros [= <-]|].
  intros ([[v src] input] & Hr & Hst)%bind_ok. apply Ok_inj in Hst as <-. simpl. apply Forall_app. split; [done|].
  constructor; [|done]. split; [|done]. by exists v, input.
Qed.

Lemma operation_rows_ok rows : operation_rows sv bc defaults specs op = Ok rows -> Forall row_ok rows.1.1.
Proof.
  intros (st & Hp & Hb)%bind_ok. assert (Hst : Forall row_ok st.1).
  { eapply (result_fold_ind (fun st => Forall row_ok st.1)); [| |exact Hp]; [constructor|].
    intros p acc acc' Hin Hacc. unfold push_param. destruct (param_location p) eqn:El; try (by intros [= <-]);
      apply push_field_rows; try done; left; exists p; by rewrite El. }
  eapply (result_fold_ind (fun st => Forall row_ok st.1.1)); [| |exact Hb]; [done|].
  intros f acc acc' Hin Hacc. unfold push_body_field. destruct (individual _ _ _).
  - intros (plan & Hplan & Hx)%bind_ok. apply Ok_inj in Hx as <-. simpl.
    eapply push_field_rows; [exact Hacc| |exact Hplan]. right. split; [done|]. by exists f.
  - case_bool_decide; intros Hx; apply Ok_inj in Hx as <-; done.
Qed.

(** The other rows of a plan are the shared one and the nested literals. *)
Lemma plan_rows rows f : operation_rows sv bc defaults specs op = Ok rows ->
  f ∈ push_nested_literal_review_fields sv (push_overflow rows) ->
  is_nested (f_field f) = false -> f_body_overflow f = false -> row_ok f.
Proof.
  intros Hr Hf Hn Ho. apply operation_rows_ok in Hr. rewrite Forall_forall in Hr. apply Hr.
  assert (Hl : forall bs fields, f ∈ foldl (push_literal_row sv) fields bs -> f ∈ fields).
  { induction bs as [|b bs IH]; intros fields; [done|]. cbn [foldl]. intros Hin%IH. unfold push_literal_row in Hin.
    destruct (is_nested (bind_field b)) eqn:En; [|done]. destruct (bind_show_in_review b); [|done]. cbn [negb orb] in Hin.
    destruct (bind_source b); try done. destruct (FieldPath_parse _) as [[path|]|]; try done.
    apply elem_of_app in Hin as [?|Hin%list_elem_of_singleton]; [done|]. rewrite Hin in Hn. simpl in Hn. congruence. }
  apply Hl in Hf. unfold push_overflow in Hf. destruct (rows.2.2); [done|].
  apply elem_of_app in Hf as [?|Hf%list_elem_of_singleton]; [done|]. by rewrite Hf in Ho.
Qed.
End rows.
End values.

(** * The agreement *)

(** The JSON object a request sends. *)
Definition sent_body (r : CommandRequest) : list (string * value) :=
  match req_body r with
  | Some (BodyJson (Object o)) => o
  | Some (BodyJson (Array [Object o])) => o
  | _ => []
  end.

Definition sent_parts (r : CommandRequest) : list FormPart :=
  match req_body r with Some (BodyMultipart parts) => parts | _ => [] end.

(** A parameter is sent as the text of the value shown; [null] is shown for one that is
    not sent. *)
Definition sends_text (sent : option string) (f : StepField) : Prop :=
  match sent with Some s => s = json_to_param_string (f_value f) | None => f_value f = Null end.

Definition sends (r : CommandRequest) (options : RunOptions) (f : StepField) : Prop :=
  match f_location f with
  | LPath => sends_text (path_params r !! f_field f) f
  | LQuery => sends_text (query_params r !! f_field f) f
  | LHeader => sends_text (header_params r !! f_field f) f
  | LFormData =>
      (exists part, part ∈ sent_parts r /\ part_name part = f_field f /\ part_text part = json_to_param_string (f_value f)) \/
      (f_value f = Null /\ forall part, part ∈ sent_parts r -> part_name part <> f_field f)
  | LBody =>
      explicit_body options = None -> sent_parts r = [] ->
      match obj_get (f_field f) (sent_body r) with Some v => v = f_value f | None => f_value f = Null end
  end.

Lemma assembled_body sv bc op options body : explicit_body options = None -> assemble_body sv bc op options = Ok body ->
  exists o, gather_body sv bc op = Ok o /\
    match body with Some (Object o') => o' = o | Some (Array [Object o']) => o' = o | Some _ => False | None => o = [] end.
Proof.
  intros He Ha. unfold assemble_body in Ha. rewrite He in Ha. apply bind_ok in Ha as (o & Ho & Ha). apply Ok_inj in Ha as <-.
  exists o. split; [done|]. destruct o; [by destruct (_ && _)|]. by destruct (request_body op) as [b|]; [destruct (is_array b)|].
Qed.

Section components.
Context (files : Files) (sv : StepValues) (bc : RequestBuildCtx) (defaults : gset string) (op : OperationSchema) (options : RunOptions).
Context (params : NonBodyParams) (parts : option (list FormPart)) (body : option RequestBody) (r : CommandRequest).
Context (Hparams : resolve_non_body_params sv bc op = Ok params) (Hparts : resolve_form_data_params files sv bc op = Ok parts).
Context (Hbody : match parts with
                 | Some parts => Ok (Some (BodyMultipart parts))
                 | None => let? body := assemble_body sv bc op options in Ok (option_map BodyJson body)
                 end = Ok body).
Context (Hpath : path_params r = pp_path params) (Hquery : query_params r = pp_query params) (Hheader : header_params r = pp_header params).
Context (Hreq : req_body r = body).
Context (f : StepField) (v : option value) (Hshown : f_value f = default Null v).

Lemma sent_parts_of : sent_parts r = default [] parts.
Proof.
  unfold sent_parts. rewrite Hreq. destruct parts as [l|]; [by apply Ok_inj in Hbody as <-|].
  apply bind_ok in Hbody as (b & _ & Hb). apply Ok_inj in Hb as <-. by destruct b.
Qed.

(** The row of a parameter. *)
Lemma param_row_sent p : p ∈ parameters op -> param_name p = f_field f -> param_location p <> InBody ->
  f_location f = parameter_location (param_location p) -> resolve_field_value sv bc (f_field f) = Ok v -> sends r options f.
Proof.
  intros Hp Hname Hnb Hloc Hval. rewrite <- Hname in Hval.
  assert (Htext : forall l, carried p l = true -> sends_text (params_at l params !! f_field f) f).
  { intros l Hl. rewrite <- Hname, (params_sent sv bc op params l p v Hparams Hp Hl Hval). unfold sends_text.
    rewrite Hshown. by destruct v. }
  unfold carried in Htext. unfold sends. rewrite Hloc. destruct (param_location p) eqn:El; cbn [parameter_location]; try done.
  - rewrite Hpath. by apply (Htext LPath).
  - rewrite Hquery. by apply (Htext LQuery).
  - rewrite Hheader. by apply (Htext LHeader).
  - pose proof (form_sent sv bc files op parts p v Hparts Hp El Hval) as Hform. rewrite Hname in Hform.
    rewrite sent_parts_of, Hshown. destruct v; [by left|by right].
Qed.

(** The row of a body field. *)
Lemma body_row_sent bf src input : paths_keyed (sv_step sv) -> bf ∈ request_fields op -> field_name bf = f_field f ->
  f_location f = LBody -> flat (sv_step sv) (f_field f) \/ only_below sv bc (f_field f) ->
  resolve_field_with_source sv bc defaults (f_field f) = Ok (v, src, input) -> sends r options f.
Proof.
  intros Hk Hbf Hname Hloc Hcase Hv. unfold sends. rewrite Hloc, sent_parts_of. intros Hexp Hnone.
  destruct parts as [l|]. { simpl in Hnone. subst l. apply bind_ok in Hparts as (l & _ & Hl). by destruct l. }
  apply bind_ok in Hbody as (b & Hb & Hjson). apply Ok_inj in Hjson.
  destruct (assembled_body _ _ _ _ _ Hexp Hb) as (o & Hgather & Hshape).
  assert (sent_body r = o) as ->.
  { unfold sent_body. rewrite Hreq, <- Hjson. destruct b as [[| | | |[|[| | | | |?] [|]]|]|]; simpl; try done; by rewrite Hshape. }
  rewrite <- Hname in Hv, Hcase |- *. rewrite (body_sent sv bc defaults op o bf v src input Hk Hgather Hbf Hcase Hv), Hshown.
  by destruct v.
Qed.
End components.

End agreement.

(** * Examples *)

#[local] Instance agreement_json : JsonText := bits_json_text.
#[local] Instance agreement_case : UnicodeCase := ascii_case.

Definition bound_step (inputs : list StepInputBinding) : CompiledStep :=
  mk_step "create" 0 None Api None (Some (mk_op_ref "iam" "CreateUser")) [] true false false true None inputs [] [].

Definition literal (field : string) (v : value) : StepInputBinding := mk_binding field (BLiteral v false) true None.

Definition example_options : RunOptions := mk_options_ false false false true false Human None Normal PageAuto None false.

Definition plan_for (inputs : list StepInputBinding) : result StepFieldPlan RuntimeError :=
  resolve_step_fields (bound_step inputs) WorkflowContext_new ∅ ∅ [] sample_service ∅.

Definition request_for (inputs : list StepInputBinding) : result CommandRequest RuntimeError :=
  assemble_command_request (fun _ => None) None (bound_step inputs) WorkflowContext_new ∅ ∅ [] sample_service example_options.

Definition example_inputs : list StepInputBinding :=
  [literal "namespace" (Str "game"); literal "email" (Str "ann@example.com"); literal "address.city" (Str "Oslo")].

Definition address_row : StepField :=
  mk_field 2 "address" "address" None LBody (body_field_schema (mk_body_field "address" FObject true None [mk_body_field "city" FString true None [] None] None))
    (Object [("city", Str "Oslo")]) SrcLiteral true None false false.


(** A field bound as a whole and from below shows its base only, and sends both. *)
Example base_and_below :
  let inputs := [literal "namespace" (Str "game"); literal "email" (Str "e"); literal "address" (Object [("zip", int 1)]);
                 literal "address.city" (Str "Oslo")] in
  match plan_for inputs, request_for inputs with
  | Ok plan, Ok request =>
      option_map f_value (List.find (fun f => String.eqb (f_field f) "address") (plan_fields plan)) = Some (Object [("zip", int 1)]) /\
      obj_get "address" (sent_body request) = Some (Object [("city", Str "Oslo"); ("zip", int 1)])
  | _, _ => False
  end.
Proof. vm_compute. done. Qed.

(** A path that starts with an index, which the compiler accepts, loses the body. *)
Lemma leading_index_drops_body :
  resolve_against_schema [Index 0; Key "email"] (request_fields sample_operation) =
    Some (Ok (SchemaLeaf (mk_body_field "email" FString true None [] None))) /\
  match request_for (example_inputs ++ [literal "[0].email" (Str "bob@example.com")]) with
  | Ok request => req_body request = None
  | Err _ => False
  end.
Proof. vm_compute. done. Qed.

(** Only the part before the first dot is a root: an indexed field bound from below is
    not one of the bound roots. *)
Lemma indexed_root_unbound :
  review_root "tags[0].name" = "tags[0]" /\ "tags" ∉ bound_roots (bound_step [literal "tags[0].name" (Str "a")]).
Proof. split; [reflexivity|]. vm_compute. set_solver. Qed.

(** A template without placeholders is derived from nothing. *)
Lemma derived_from_nothing : classify_binding_source (BFormat "constant") None = SrcDerived [].
Proof. reflexivity. Qed.
