(* ===== verification/Redaction.v ===== *)
(** What a failed step tells telemetry about its inputs
    ([workflows/telemetry_fields.rs]), and that no value under a sensitive name is in
    it. *)

From stdpp Require Import base gmap strings list.
From Stdlib Require Import ZArith Lia Ascii.
From S2P Require Import Prelude Text Kebab Json Paths Results Workflow AutoDerive Request ReviewPlan.

Record StepInputField : Type := mk_input_field {
  if_field : string;
  if_location : StepFieldLocation;
  if_source : string;
  if_required : bool;
  if_value : option value
}.

Definition MAX_INPUT_FIELD_VALUE_BYTES : nat := 2048.
Definition OVERSIZED_VALUE_MARKER : string := "<oversized-value-omitted>".
Definition NESTED_REDACTED_MARKER : string := "<redacted>".

Definition SENSITIVE_NAME_NEEDLES : list string :=
  ["secret"; "password"; "token"; "key"; "credential"; "auth"; "passwd"; "pwd"; "bearer"; "signature"; "session"; "cookie";
   "salt"; "private"].

Section redaction.
Context `{JsonText, UnicodeCase}.

Definition is_sensitive_name (name : string) : bool :=
  existsb (fun needle => contains needle (to_lowercase name)) SENSITIVE_NAME_NEEDLES.

Definition schema_get (k : string) (schema : value) : option value := o ← as_object schema; obj_get k o.

Definition schema_marks_sensitive (schema : value) : bool :=
  default false (v ← schema_get "writeOnly" schema; read_bool v) ||
  bool_decide ((v ← schema_get "format" schema; as_str v) = Some "password").

Fixpoint redact_all_leaves (v : value) : value :=
  match v with
  | Object l => Object (map (fun kv => (kv.1, redact_all_leaves kv.2)) l)
  | Array l => Array (map redact_all_leaves l)
  | _ => Str NESTED_REDACTED_MARKER
  end.

Fixpoint redact_nested (v : value) : value :=
  match v with
  | Object l => Object (map (fun kv => (kv.1, if is_sensitive_name kv.1 then redact_all_leaves kv.2 else redact_nested kv.2)) l)
  | Array l => Array (map redact_nested l)
  | _ => v
  end.

Definition cap_value_size (v : value) : value :=
  if Nat.ltb MAX_INPUT_FIELD_VALUE_BYTES (length (to_vec v)) then Str OVERSIZED_VALUE_MARKER else v.

Definition redact_field_value (name : string) (schema v : value) : option value :=
  if is_sensitive_name name || schema_marks_sensitive schema then None else Some (cap_value_size (redact_nested v)).

Definition source_label (source : StepFieldSource) (flags : gset string) : string :=
  match source with
  | SrcWorkflowInput name => if bool_decide (name ∈ flags) then "flag" else "prompt"
  | SrcDefault _ => "default"
  | SrcPriorOutput => "prior_output"
  | SrcLiteral => "literal"
  | SrcUnset => "unset"
  | SrcDerived _ => "derived"
  end.

(** [disabled] is the operator's kill switch, read from the environment. *)
Definition build_step_input_fields (disabled : bool) (fields : list StepField) (flags : gset string) (bundled : bool)
  : list StepInputField :=
  let transmit_values := bundled && negb disabled in
  map (fun f =>
    mk_input_field (f_field f) (f_location f) (source_label (f_source f) flags) (f_required f)
      (if transmit_values then redact_field_value (f_field f) (f_schema f) (f_value f) else None)) fields.

(** * Nothing sensitive leaves *)

Definition is_scalar (v : value) : bool := match v with Object _ | Array _ => false | _ => true end.

(** [w] is the scalar at the end of a path into [v]. *)
Inductive leaf : value -> list PathSegment -> value -> Prop :=
| leaf_scalar v : is_scalar v = true -> leaf v [] v
| leaf_key l k v p w : (k, v) ∈ l -> leaf v p w -> leaf (Object l) (Key k :: p) w
| leaf_index l i v p w : l !! i = Some v -> leaf v p w -> leaf (Array l) (Index (Z.of_nat i) :: p) w.

(** A path through a sensitive name. *)
Definition sensitive_path (p : list PathSegment) : bool :=
  existsb (fun seg => match seg with Key k => is_sensitive_name k | Index _ => false end) p.

Lemma leaf_object l p w : leaf (Object l) p w <-> exists k v q, p = Key k :: q /\ (k, v) ∈ l /\ leaf v q w.
Proof. split; [intros Hl; inversion Hl; subst; [done|naive_solver]|]. intros (k & v & q & -> & Hin & Hl). by econstructor. Qed.

Lemma leaf_array l p w : leaf (Array l) p w <-> exists i v q, p = Index (Z.of_nat i) :: q /\ l !! i = Some v /\ leaf v q w.
Proof. split; [intros Hl; inversion Hl; subst; [done|naive_solver]|]. intros (k & v & q & -> & Hin & Hl). by econstructor. Qed.

Lemma leaf_of_scalar v p w : is_scalar v = true -> leaf v p w <-> p = [] /\ w = v.
Proof.
  intros Hs. split; [intros Hl; inversion Hl; subst; [done|simpl in Hs; done..]|]. intros [-> ->]. by constructor.
Qed.

(** The leaves of a container whose members are rewritten one by one. *)
Lemma leaf_map_object (f : string -> value -> value) l p w :
  leaf (Object (map (fun kv => (kv.1, f kv.1 kv.2)) l)) p w <->
  exists k v q, p = Key k :: q /\ (k, v) ∈ l /\ leaf (f k v) q w.
Proof.
  rewrite leaf_object. split.
  - intros (k & v & q & -> & ([k0 v0] & [= -> ->] & Hin)%list_elem_of_fmap & Hl). by exists k0, v0, q.
  - intros (k & v & q & -> & Hin & Hl). exists k, (f k v), q. split_and!; [done| |done].
    by apply (list_elem_of_fmap_2 (fun kv => (kv.1, f kv.1 kv.2)) l (k, v)).
Qed.

Lemma leaf_map_array (f : value -> value) l p w :
  leaf (Array (map f l)) p w <-> exists i v q, p = Index (Z.of_nat i) :: q /\ l !! i = Some v /\ leaf (f v) q w.
Proof.
  rewrite leaf_array. change map with (@fmap list _). setoid_rewrite list_lookup_fmap. split.
  - intros (i & v & q & -> & Hi & Hl). destruct (l !! i) as [v0|] eqn:E; [|done]. injection Hi as <-. by exists i, v0, q.
  - intros (i & v & q & -> & Hi & Hl). exists i, (f v), q. by rewrite Hi.
Qed.

Lemma redact_all_spec v p w :
  leaf (redact_all_leaves v) p w <-> w = Str NESTED_REDACTED_MARKER /\ exists w0, leaf v p w0.
Proof.
  revert p w. induction v as [| | | |l IH|l IH] using value_ind'; intros p w;
    try (simpl; rewrite leaf_of_scalar by done; setoid_rewrite leaf_of_scalar; [naive_solver|done]).
  - cbn [redact_all_leaves]. rewrite leaf_map_array. setoid_rewrite leaf_array. rewrite Forall_lookup in IH. split.
    + intros (i & v & q & -> & Hi & Hl). apply (IH i v Hi) in Hl as (-> & w0 & Hw). split; [done|]. by exists w0, i, v, q.
    + intros (-> & w0 & i & v & q & -> & Hi & Hl). exists i, v, q. split_and!; [done..|]. apply (IH i v Hi). by split; [|exists w0].
  - cbn [redact_all_leaves]. rewrite (leaf_map_object (fun _ => redact_all_leaves)). setoid_rewrite leaf_object.
    rewrite Forall_forall in IH. split.
    + intros (k & v & q & -> & Hi & Hl). apply (IH (k, v) Hi) in Hl as (-> & w0 & Hw). split; [done|]. by exists w0, k, v, q.
    + intros (-> & w0 & k & v & q & -> & Hi & Hl). exists k, v, q. split_and!; [done..|]. apply (IH (k, v) Hi). by split; [|exists w0].
Qed.

Lemma redact_nested_spec v p w :
  leaf (redact_nested v) p w <->
  exists w0, leaf v p w0 /\ w = if sensitive_path p then Str NESTED_REDACTED_MARKER else w0.
Proof.
  revert p w. induction v as [| | | |l IH|l IH] using value_ind'; intros p w;
    try (simpl; rewrite leaf_of_scalar by done; setoid_rewrite leaf_of_scalar; [naive_solver|done]).
  - cbn [redact_nested]. rewrite leaf_map_array. setoid_rewrite leaf_array. rewrite Forall_lookup in IH. split.
    + intros (i & v & q & -> & Hi & Hl). apply (IH i v Hi) in Hl as (w0 & Hw & ->). exists w0. split; [|done]. by exists i, v, q.
    + intros (w0 & (i & v & q & -> & Hi & Hl) & ->). exists i, v, q. split_and!; [done..|]. apply (IH i v Hi). by exists w0.
  - cbn [redact_nested].
    rewrite (leaf_map_object (fun k v => if is_sensitive_name k then redact_all_leaves v else redact_nested v)).
    setoid_rewrite leaf_object. rewrite Forall_forall in IH. split.
    + intros (k & v & q & -> & Hi & Hl). simpl. destruct (is_sensitive_name k) eqn:Ek.
      * apply redact_all_spec in Hl as (-> & w0 & Hw). exists w0. split; [|done]. by exists k, v, q.
      * apply (IH (k, v) Hi) in Hl as (w0 & Hw & ->). exists w0. split; [|done]. by exists k, v, q.
    + intros (w0 & (k & v & q & -> & Hi & Hl) & ->). exists k, v, q. split_and!; [done..|]. simpl.
      destruct (is_sensitive_name k) eqn:Ek; [apply redact_all_spec; by split; [|exists w0]|]. apply (IH (k, v) Hi). by exists w0.
Qed.

(** [C12] Telemetry of a failed step never carries a sensitive input. A value is sent
    only for a bundled workflow while the kill switch is off, and only for a field
    whose own name and schema are not sensitive; unless it is the marker for an
    oversized value, it has exactly the leaves of the field's value, each one below a
    sensitive name replaced by the redaction marker and every other one unchanged. *)
Theorem telemetry_redacted disabled fields flags bundled f v :
  f ∈ build_step_input_fields disabled fields flags bundled -> if_value f = Some v ->
  bundled = true /\ disabled = false /\ is_sensitive_name (if_field f) = false /\
  exists sf, sf ∈ fields /\ f_field sf = if_field f /\ schema_marks_sensitive (f_schema sf) = false /\
    (v = Str OVERSIZED_VALUE_MARKER \/
     forall p w, leaf v p w <->
       exists w0, leaf (f_value sf) p w0 /\ w = if sensitive_path p then Str NESTED_REDACTED_MARKER else w0).
Proof.
  unfold build_step_input_fields. intros (sf & -> & Hsf)%list_elem_of_fmap. simpl.
  destruct bundled; [|done]. destruct disabled; [done|]. unfold redact_field_value, cap_value_size. simpl.
  destruct (is_sensitive_name (f_field sf)) eqn:En; [done|]. destruct (schema_marks_sensitive (f_schema sf)) eqn:Es; [done|].
  simpl. intros [= <-]. split_and!; [done..|]. exists sf. split_and!; [done..|].
  destruct (Nat.ltb _ _); [by left|]. right. intros p w. apply redact_nested_spec.
Qed.
End redaction.

(** * An example *)

#[local] Instance example_json : JsonText := bits_json_text.
#[local] Instance example_case : UnicodeCase := ascii_case.

Definition example_body : value :=
  Object [("Auth", Object [("blob", Str "eyJ"); ("user", Str "ann")]); ("region", Str "eu"); ("tags", Array [Object [("apiKey", int 7)]])].

Definition example_row : StepField :=
  mk_field 0 "config" "config" None LBody (typed "object") example_body SrcLiteral false None false true.

Example redacted_body :
  redact_nested example_body =
  Object [("Auth", Object [("blob", Str "<redacted>"); ("user", Str "<redacted>")]); ("region", Str "eu");
          ("tags", Array [Object [("apiKey", Str "<redacted>")]])].
Proof. vm_compute. reflexivity. Qed.

Definition key_path : list PathSegment := [Key "tags"; Index 0; Key "apiKey"].

Lemma key_path_redacted : leaf (redact_nested example_body) key_path (Str NESTED_REDACTED_MARKER).
Proof.
  rewrite redacted_body. eapply leaf_key; [by do 2 right; left|].
  apply (leaf_index _ 0 (Object [("apiKey", Str "<redacted>")])); [done|]. eapply leaf_key; [by left|]. by constructor.
Qed.

Lemma telemetry_redacted_witness :
  exists w0, leaf example_body key_path w0 /\ (Str NESTED_REDACTED_MARKER = if sensitive_path key_path then Str NESTED_REDACTED_MARKER else w0).
Proof.
  destruct (@telemetry_redacted example_json example_case false [example_row] ∅ true
    (mk_input_field "config" LBody "literal" false (Some (redact_nested example_body))) (redact_nested example_body))
    as (_ & _ & _ & sf & Hsf & _ & _ & [Hv|Hv]).
  - apply list_elem_of_In. vm_compute. left. reflexivity.
  - reflexivity.
  - vm_compute in Hv. discriminate Hv.
  - apply list_elem_of_singleton in Hsf as ->. apply Hv, key_path_redacted.
Defined.
