(* ===== verification/Compile.v ===== *)
(** The workflow compiler ([workflows/compile.rs]): its validation rules, the
    resolution of input schemas, and the compiled workflow they produce.

    The catalogue is a function from service names to schemas: within one compile, a
    service loaded twice is the same. *)

From stdpp Require Import base gmap strings list.
From Stdlib Require Import ZArith Lia Ascii.
From S2P Require Import Prelude Text Json Catalogue Paths Results Workflow AutoDerive Bindings.

(** A string between double quotes. *)
Definition quoted (s : string) : string := String (ascii_of_nat 34) (s +:+ String (ascii_of_nat 34) EmptyString).

Definition Catalogue : Type := string -> result ServiceSchema RuntimeError.

(** [format!("step '{}' input '{}' ..")]. *)
Definition input_context (step : StepDefinition) (b : StepInputBinding) : string :=
  step_context step +:+ " input '" +:+ bind_field b +:+ "'".

(** Check every binding of every step. *)
Definition for_each_binding (f : StepDefinition -> StepInputBinding -> result unit RuntimeError) (d : WorkflowDefinition)
  : result unit RuntimeError :=
  for_each (fun step => for_each (f step) (sd_inputs step)) (wd_steps d).

Definition declared_inputs (d : WorkflowDefinition) : gset string := list_to_set (map in_name (wd_inputs d)).

(** * Step structure *)

Fixpoint unique_loop (d : WorkflowDefinition) (steps : list StepDefinition) (seen : gset string) : result unit RuntimeError :=
  match steps with
  | [] => Ok tt
  | step :: steps =>
      if bool_decide (sd_id step ∈ seen)
      then Err (internal ("workflow '" +:+ wd_id d +:+ "' has duplicate step id '" +:+ sd_id step +:+ "'"))
      else unique_loop d steps ({[sd_id step]} ∪ seen)
  end.

Definition validate_unique_step_ids (d : WorkflowDefinition) : result unit RuntimeError := unique_loop d (wd_steps d) ∅.

Definition local_flags (step : StepDefinition) : list (string * bool) :=
  [("confirm", sd_confirm step); ("is_optional", sd_optional step);
   ("continue_on_failure", sd_continue_on_failure step); ("skip_if_exists", sd_skip_if_exists step)].

Definition check_local_flag (step : StepDefinition) (flag : string * bool) : result unit RuntimeError :=
  if flag.2 then
    let rationale := if String.eqb flag.1 "skip_if_exists"
                     then " (it responds to HTTP 409, which local actions do not produce)" else EmptyString in
    Err (internal (step_context step +:+ ": '" +:+ flag.1 +:+ "' is not supported on kind 'local' steps" +:+ rationale))
  else Ok tt.

Definition check_step_kind (step : StepDefinition) : result unit RuntimeError :=
  let fail (why : string) := Err (internal (step_context step +:+ why)) in
  match sd_kind step with
  | Api =>
      match sd_operation step, sd_action step with
      | None, _ => fail ": kind 'api' requires an 'operation' field"
      | Some _, Some _ => fail ": kind 'api' must not have an 'action' field"
      | Some _, None => Ok tt
      end
  | Local =>
      match sd_action step, sd_operation step with
      | None, _ => fail ": kind 'local' requires an 'action' field"
      | Some _, Some _ => fail ": kind 'local' must not have an 'operation' field"
      | Some _, None => for_each (check_local_flag step) (local_flags step)
      end
  end.

Definition validate_step_kinds (d : WorkflowDefinition) : result unit RuntimeError := for_each check_step_kind (wd_steps d).

(** * References between steps *)

Definition positions (d : WorkflowDefinition) : gmap string nat :=
  list_to_map (rev (map (fun e => (sd_id e.2, e.1)) (enumerate (wd_steps d)))).

Definition outputs_by_step (d : WorkflowDefinition) : gmap string (gset string) :=
  list_to_map (rev (map (fun s => (sd_id s, list_to_set (map cap_name (sd_outputs s)))) (wd_steps d))).

Definition check_dependency (d : WorkflowDefinition) (i : nat) (step : StepDefinition) (dep : string) : result unit RuntimeError :=
  match positions d !! dep with
  | Some j =>
      if Nat.ltb j i then Ok tt
      else Err (internal (step_context step +:+ " depends on '" +:+ dep +:+ "' which is not declared earlier"))
  | None => Err (internal (step_context step +:+ " depends on unknown step '" +:+ dep +:+ "'"))
  end.

Definition validate_dependencies (d : WorkflowDefinition) : result unit RuntimeError :=
  for_each (fun e => for_each (check_dependency d e.1 e.2) (sd_dependencies e.2)) (enumerate (wd_steps d)).

(** One step reference of a binding; the two tables share their keys. *)
Definition check_step_reference (d : WorkflowDefinition) (i : nat) (step : StepDefinition) (b : StepInputBinding)
    (id : string) (output : option string) : result unit RuntimeError :=
  let fail (why : string) := Err (internal (input_context step b +:+ why)) in
  match positions d !! id with
  | None => fail (" references unknown step '" +:+ id +:+ "'")
  | Some j =>
      if Nat.leb i j then fail (" references step '" +:+ id +:+ "' which is not declared earlier")
      else
        match output with
        | None => fail (" references step '" +:+ id +:+ "' without naming an output")
        | Some name =>
            if bool_decide (name ∈ default ∅ (outputs_by_step d !! id)) then Ok tt
            else fail (" references undeclared output '" +:+ name +:+ "' of step '" +:+ id +:+ "'")
        end
  end.

Definition check_output_reference (d : WorkflowDefinition) (i : nat) (step : StepDefinition) (b : StepInputBinding)
  : result unit RuntimeError :=
  match bind_source b with
  | BReference r =>
      match ref_from r with
      | FromStep id => check_step_reference d i step b id (ref_output r)
      | FromWorkflow _ => Ok tt
      end
  | _ => Ok tt
  end.

Definition validate_step_output_references (d : WorkflowDefinition) : result unit RuntimeError :=
  for_each (fun e => for_each (check_output_reference d e.1 e.2) (sd_inputs e.2)) (enumerate (wd_steps d)).

(** * References to workflow inputs *)

Definition check_workflow_reference (d : WorkflowDefinition) (step : StepDefinition) (b : StepInputBinding) : result unit RuntimeError :=
  match bind_source b with
  | BReference r =>
      match ref_from r with
      | FromWorkflow input =>
          if negb (bool_decide (input ∈ declared_inputs d))
          then Err (internal (input_context step b +:+ " references undeclared workflow input '" +:+ input +:+ "'"))
          else match ref_output r with
               | Some _ => Err (internal (input_context step b +:+ " may not name an `output:` when targeting a workflow input"))
               | None => Ok tt
               end
      | FromStep _ => Ok tt
      end
  | _ => Ok tt
  end.

Definition validate_workflow_references (d : WorkflowDefinition) : result unit RuntimeError :=
  for_each_binding (check_workflow_reference d) d.

Definition check_format (d : WorkflowDefinition) (step : StepDefinition) (b : StepInputBinding) : result unit RuntimeError :=
  match bind_source b with
  | BFormat template =>
      let? names := format_placeholders template in
      for_each (fun name =>
        if bool_decide (name ∈ declared_inputs d) then Ok tt
        else Err (internal ("Format template '" +:+ template +:+ "' references undeclared workflow input '" +:+ name +:+ "'"))) names
  | _ => Ok tt
  end.

Definition validate_format_bindings (d : WorkflowDefinition) : result unit RuntimeError := for_each_binding (check_format d) d.

(** * Mirrors *)

(** [is_path_prefix]: up to a segment boundary. *)
Fixpoint is_path_prefix (path other : string) : bool :=
  match path, other with
  | EmptyString, String c _ => Ascii.eqb c "." || Ascii.eqb c "["
  | String c p, String c' o => Ascii.eqb c c' && is_path_prefix p o
  | _, EmptyString => false
  end.

Definition sources_by_field (inputs : list StepInputBinding) : gmap string BindingSource :=
  list_to_map (rev (map (fun b => (bind_field b, bind_source b)) inputs)).

Definition check_mirror (step : StepDefinition) (b : StepInputBinding) : result unit RuntimeError :=
  match bind_source b with
  | BMirror mirror_of =>
      let fail (why : string) := Err (internal (input_context step b +:+ why)) in
      if String.eqb mirror_of (bind_field b) then fail " mirrors itself"
      else if bind_show_in_review b then
        fail (" is a mirror binding and must not set show_in_review (the mirrored target field owns the review row; "
              +:+ "edit it there instead)")
      else
        match sources_by_field (sd_inputs step) !! mirror_of with
        | None =>
            let why := " mirrors '" +:+ mirror_of +:+ "', which is not bound in that step" in
            match List.find (fun field => is_path_prefix mirror_of field || is_path_prefix field mirror_of)
                    (map bind_field (sd_inputs step)) with
            | Some candidate => fail (why +:+ " (did you mean '" +:+ candidate +:+ "'?)")
            | None => fail why
            end
        | Some (BMirror _) =>
            fail (" mirrors '" +:+ mirror_of +:+ "', which is itself a mirror; mirrors must target a non-mirror binding")
        | Some _ => Ok tt
        end
  | _ => Ok tt
  end.

Definition validate_mirror_bindings (d : WorkflowDefinition) : result unit RuntimeError := for_each_binding check_mirror d.

(** * Completion *)

Definition check_completion_template (d : WorkflowDefinition) (template : string) : result unit RuntimeError :=
  let? names := format_placeholders template in
  for_each (fun name =>
    if bool_decide (name ∈ declared_inputs d) then Ok tt
    else Err (internal ("workflow '" +:+ wd_id d +:+ "' completion references undeclared workflow input '" +:+ name +:+ "'"))) names.

Definition validate_completion (d : WorkflowDefinition) : result unit RuntimeError :=
  match wd_completion d with
  | None => Ok tt
  | Some completion =>
      if Nat.ltb (length (wd_steps d)) 2 then
        Err (internal ("workflow '" +:+ wd_id d +:+ "' declares a completion, which requires at least two steps; "
                       +:+ "single-step workflows do not surface one"))
      else
        match created completion, next_steps completion with
        | [], [] =>
            Err (internal ("workflow '" +:+ wd_id d +:+ "' declares a completion with no content; "
                           +:+ "at least one of `created` or `next_steps` must be non-empty"))
        | created, next => for_each (check_completion_template d) (map snd created ++ map snd next)
        end
  end.

(** * Transforms *)

Definition json_get (k : string) (v : value) : option value := o ← as_object v; obj_get k o.

(** [schema.get("type").and_then(as_str)] of an optional schema. *)
Definition schema_type (schema : option value) : option string := s ← schema; t ← json_get "type" s; as_str t.

Definition is_integer_schema (schema : option value) : bool := bool_decide (schema_type schema = Some "integer").
Definition is_string_schema (schema : option value) : bool := bool_decide (schema_type schema = Some "string").

Definition schema_type_name (schema : option value) : string := default "<unspecified>" (schema_type schema).

(** The declared inputs by name; the last declaration of a name wins. *)
Definition input_specs (d : WorkflowDefinition) : gmap string WorkflowInputSpec :=
  list_to_map (rev (map (fun i => (in_name i, i)) (wd_inputs d))).

Definition check_integer_input (d : WorkflowDefinition) (field name undeclared role : string) : result unit RuntimeError :=
  let prefix := "Arithmetic transform on field '" +:+ field +:+ "'" in
  match input_specs d !! name with
  | None => Err (internal (prefix +:+ " references undeclared workflow input '" +:+ name +:+ "'" +:+ undeclared))
  | Some spec =>
      if is_integer_schema (in_schema spec) then Ok tt
      else Err (internal (prefix +:+ " requires an integer-typed " +:+ role +:+ " input ('" +:+ name +:+ "' is "
                          +:+ schema_type_name (in_schema spec) +:+ ")"))
  end.

Definition check_arithmetic (d : WorkflowDefinition) (step : StepDefinition) (b : StepInputBinding) : result unit RuntimeError :=
  match bind_source b with
  | BReference r =>
      match ref_transform r with
      | Some (TArithmetic _ operand) =>
          match ref_from r with
          | FromStep _ =>
              Err (internal ("Arithmetic transform on field '" +:+ bind_field b
                             +:+ "' requires a workflow-input source (step references not supported)"))
          | FromWorkflow src =>
              let? _ := check_integer_input d (bind_field b) src EmptyString "source" in
              match operand with
              | OperandInput op => check_integer_input d (bind_field b) op " as operand" "operand"
              | OperandInteger _ => Ok tt
              end
          end
      | _ => Ok tt
      end
  | _ => Ok tt
  end.

Definition validate_arithmetic_bindings (d : WorkflowDefinition) : result unit RuntimeError :=
  for_each_binding (check_arithmetic d) d.

(** * Sensitive values and skippable steps *)

Definition sensitive_binding (b : StepInputBinding) : bool := match bind_source b with BLiteral _ s => s | _ => false end.

Definition has_sensitive (d : WorkflowDefinition) : bool :=
  existsb in_sensitive (wd_inputs d) || existsb alias_sensitive (wd_outputs d) ||
  existsb (fun step => existsb cap_sensitive (sd_outputs step) || existsb sensitive_binding (sd_inputs step)) (wd_steps d).

Definition validate_no_sensitive (d : WorkflowDefinition) : result unit RuntimeError :=
  if has_sensitive d
  then Err (internal ("workflow '" +:+ wd_id d +:+ "' declares a sensitive value, which is not yet supported"))
  else Ok tt.

Definition check_skippable (step : StepDefinition) : result unit RuntimeError :=
  if sd_optional step || sd_continue_on_failure step || sd_skip_if_exists step then
    for_each (fun out =>
      match cap_default out with
      | Some _ => Ok tt
      | None => Err (internal (step_context step +:+ " is skippable but its output '" +:+ cap_name out +:+ "' has no default"))
      end) (sd_outputs step)
  else Ok tt.

Definition validate_skippable_outputs_have_defaults (d : WorkflowDefinition) : result unit RuntimeError :=
  for_each check_skippable (wd_steps d).

Definition validate_no_cycles (d : WorkflowDefinition) : result unit RuntimeError := Ok tt.

(** * Input schemas *)

Definition infer_schema_from_value (v : value) : value :=
  match v with
  | Null => typed "null"
  | Bool _ => typed "boolean"
  | Number (NInt _) => typed "integer"
  | Number (NFloat _) => typed "number"
  | Str _ => typed "string"
  | Array _ => typed "array"
  | Object _ => typed "object"
  end.

(** The schemas one step gives an input: of the fields bound to it, then of the
    field of its own name, unless that is bound. *)
Definition step_sites (catalogue : Catalogue) (input : WorkflowInputSpec) (step : StepDefinition) : result (list value) RuntimeError :=
  match sd_operation step with
  | None => Ok []
  | Some op_ref =>
      let? schema := catalogue (service op_ref) in
      let? op := find_operation_or_error schema op_ref (step_context step) in
      Ok (omap (fun b =>
            match bind_source b with
            | BReference r =>
                match ref_from r with
                | FromWorkflow target =>
                    if String.eqb target (in_name input) then operation_field_schema op (bind_field b) else None
                | FromStep _ => None
                end
            | _ => None
            end) (sd_inputs step)
          ++ (if bool_decide (in_name input ∈ map bind_field (sd_inputs step)) then []
              else match operation_field_schema op (in_name input) with Some s => [s] | None => [] end))
  end.

Definition collect_use_site_schemas (catalogue : Catalogue) (input : WorkflowInputSpec) (d : WorkflowDefinition)
  : result (list value) RuntimeError :=
  let? sites := result_map (step_sites catalogue input) (wd_steps d) in Ok (concat sites).

Definition reconcile_use_site_schemas (name : string) (candidates : list value) : result (option value) RuntimeError :=
  match candidates with
  | [] => Ok None
  | first :: others =>
      if forallb (fun o => bool_decide (o = first)) others then Ok (Some first)
      else Err (internal ("workflow input '" +:+ name
             +:+ "' has conflicting schemas across use sites; declare an explicit `schema:` to disambiguate"))
  end.

Fixpoint any_format (name : string) (bindings : list StepInputBinding) : result bool RuntimeError :=
  match bindings with
  | [] => Ok false
  | b :: bindings =>
      match bind_source b with
      | BFormat template =>
          let? names := format_placeholders template in
          if bool_decide (name ∈ names) then Ok true else any_format name bindings
      | _ => any_format name bindings
      end
  end.

Definition input_referenced_by_format (input : WorkflowInputSpec) (d : WorkflowDefinition) : result bool RuntimeError :=
  any_format (in_name input) (concat (map sd_inputs (wd_steps d))).

Definition with_schema (input : WorkflowInputSpec) (schema : value) : WorkflowInputSpec :=
  mk_input (in_name input) (in_description input) (Some schema) (in_required input) (in_default input) (in_sensitive input)
    (in_options input) (in_file_picker input) (in_location input).

Definition resolve_input_schema (catalogue : Catalogue) (d : WorkflowDefinition) (input : WorkflowInputSpec)
  : result WorkflowInputSpec RuntimeError :=
  match in_schema input with
  | Some _ => Ok input
  | None =>
      let? candidates := collect_use_site_schemas catalogue input d in
      let? resolved := reconcile_use_site_schemas (in_name input) candidates in
      match resolved, in_default input with
      | Some schema, _ => Ok (with_schema input schema)
      | None, Some default => Ok (with_schema input (infer_schema_from_value default))
      | None, None =>
          let? by_format := input_referenced_by_format input d in
          if by_format then Ok (with_schema input (typed "string"))
          else Err (internal ("workflow input '" +:+ in_name input
                 +:+ "' has no resolvable schema; bind it to a step field, declare a schema, or provide a default"))
      end
  end.

Definition resolve_input_schemas (catalogue : Catalogue) (d : WorkflowDefinition) : result (list WorkflowInputSpec) RuntimeError :=
  result_map (resolve_input_schema catalogue d) (wd_inputs d).

(** * Field paths *)

Definition show_path_error (e : FieldPathError) : string :=
  match e with
  | PathEmpty => "Field path is empty"
  | UnbalancedBrackets path n => "Field path '" +:+ path +:+ "' has unbalanced brackets at byte " +:+ show_int (Z.of_nat n)
  | InvalidIndex path n => "Field path '" +:+ path +:+ "' has invalid index at byte " +:+ show_int (Z.of_nat n)
  | EmptyKey path n => "Field path '" +:+ path +:+ "' has empty key segment at byte " +:+ show_int (Z.of_nat n)
  end.

Definition show_resolve_error (e : PathResolveError) : string :=
  match e with
  | UnknownSegment parent segment => "Path segment '" +:+ segment +:+ "' not found under '" +:+ parent +:+ "'"
  | SegmentUnderNonObject parent segment =>
      "Path segment '" +:+ segment +:+ "' addresses a non-object field '" +:+ parent +:+ "'"
  end.

(** Both [None]s are never reached: [field_path_parse_total], [resolve_sound]. *)
Definition check_nested_path (root_fields : list BodyField) (b : StepInputBinding) : result unit RuntimeError :=
  match FieldPath_parse (bind_field b) with
  | Some (Ok segments) =>
      if Nat.ltb 1 (length segments) then
        match resolve_against_schema segments root_fields with
        | Some (Err e) =>
            Err (internal ("Binding field '" +:+ bind_field b +:+ "' could not be resolved against the operation schema: "
                           +:+ show_resolve_error e))
        | Some (Ok _) | None => Ok tt
        end
      else Ok tt
  | Some (Err e) => Err (internal ("Binding field '" +:+ bind_field b +:+ "' is not a valid path: " +:+ show_path_error e))
  | None => Ok tt
  end.

Definition check_step_paths (catalogue : Catalogue) (step : StepDefinition) : result unit RuntimeError :=
  match sd_operation step with
  | None => Ok tt
  | Some op_ref =>
      let? schema := catalogue (service op_ref) in
      let? op := find_operation_or_error schema op_ref (step_context step) in
      for_each (check_nested_path (match request_body op with Some b => body_fields b | None => [] end)) (sd_inputs step)
  end.

Definition validate_nested_paths (catalogue : Catalogue) (d : WorkflowDefinition) : result unit RuntimeError :=
  for_each (check_step_paths catalogue) (wd_steps d).

(** The paths of the leaves of a literal: scalars and empty containers. *)
Fixpoint walk_value_leaves (v : value) (path : string) : list string :=
  match v with
  | Object [] | Array [] => [path]
  | Object l => concat (map (fun kv => walk_value_leaves kv.2 (path +:+ "." +:+ kv.1)) l)
  | Array l =>
      (fix go (i : Z) (l : list value) : list string :=
         match l with
         | [] => []
         | x :: r => walk_value_leaves x (path +:+ "[" +:+ show_int i +:+ "]") ++ go (i + 1) r
         end) 0 l
  | _ => [path]
  end.

Definition binding_claimed_leaves (b : StepInputBinding) : list string :=
  match bind_source b with
  | BLiteral v _ => match walk_value_leaves v (bind_field b) with [] => [bind_field b] | leaves => leaves end
  | _ => [bind_field b]
  end.

Definition collision (step : StepDefinition) (leaf first second : string) : RuntimeError :=
  internal ("Step '" +:+ sd_id step +:+ "': leaf '" +:+ leaf +:+ "' is bound by both binding '" +:+ first
            +:+ "' and binding '" +:+ second
            +:+ "' — each leaf must be bound at most once across literal-base and nested bindings").

(** The claims of one step, leaf by leaf, with the binding that makes each. *)
Fixpoint claim_loop (step : StepDefinition) (claims : list (string * string)) (claimed : gmap string string) : result unit RuntimeError :=
  match claims with
  | [] => Ok tt
  | (leaf, field) :: claims =>
      match claimed !! leaf with
      | Some existing => Err (collision step leaf existing field)
      | None => claim_loop step claims (<[leaf := field]> claimed)
      end
  end.

Definition step_claims (step : StepDefinition) : list (string * string) :=
  concat (map (fun b => map (fun leaf => (leaf, bind_field b)) (binding_claimed_leaves b)) (sd_inputs step)).

Definition validate_leaf_collisions (d : WorkflowDefinition) : result unit RuntimeError :=
  for_each (fun step => claim_loop step (step_claims step) ∅) (wd_steps d).

(** * Pickers *)

Definition literal_matches_schema_type (v schema : value) : bool :=
  match schema_type (Some schema) with
  | None => true
  | Some expected =>
      if String.eqb expected "string" then match v with Str _ => true | _ => false end
      else if String.eqb expected "integer" then match v with Number (NInt _) => true | _ => false end
      else if String.eqb expected "number" then match v with Number _ => true | _ => false end
      else if String.eqb expected "boolean" then match v with Bool _ => true | _ => false end
      else if String.eqb expected "array" then match v with Array _ => true | _ => false end
      else if String.eqb expected "object" then match v with Object _ => true | _ => false end
      else true
  end.

(** ["input '{}' options_source"]. *)
Definition options_context (input : WorkflowInputSpec) : string := "input '" +:+ in_name input +:+ "' options_source".

Definition check_option_parameter (d : WorkflowDefinition) (input : WorkflowInputSpec) (op : OperationSchema) (source : OptionsSource)
    (p : string * OptionParameterBinding) : result unit RuntimeError :=
  let? field_schema := ok_or (operation_field_schema op p.1)
    (internal (options_context input +:+ " binds unknown parameter '" +:+ p.1 +:+ "' on operation '"
               +:+ operation (opt_operation source) +:+ "'")) in
  match p.2 with
  | OLiteral v =>
      if literal_matches_schema_type v field_schema then Ok tt
      else Err (internal (options_context input +:+ " Literal for parameter '" +:+ p.1
                          +:+ "' is type-incompatible with the operation field schema"))
  | OFromInput name | OFromInputOptional name =>
      if bool_decide (name ∈ declared_inputs d) then Ok tt
      else Err (internal (options_context input +:+ " FromInput('" +:+ name +:+ "') references an undeclared workflow input"))
  end.

Definition check_projection (input : WorkflowInputSpec) (label path : string) : result unit RuntimeError :=
  if jsonpath_is_valid path then Ok tt
  else Err (internal (options_context input +:+ " " +:+ label +:+ " '" +:+ path
                      +:+ "' is not a valid JSONPath subset expression")).

(** [$], or [$.] and one segment. *)
Definition is_simple_items_path (path : string) : bool :=
  match path with
  | String "$" EmptyString => true
  | String "$" (String "." key) =>
      negb (is_empty key) && negb (contains_char (fun c => Ascii.eqb c "." || Ascii.eqb c "[") key)
  | _ => false
  end.

Definition check_options_source (catalogue : Catalogue) (d : WorkflowDefinition) (input : WorkflowInputSpec) : result unit RuntimeError :=
  match in_options input with
  | None => Ok tt
  | Some source =>
      if negb (is_string_schema (in_schema input)) then
        Err (internal ("input '" +:+ in_name input +:+ "' declares an options_source but is not string-typed; "
                       +:+ "options_source attaches only to {" +:+ quoted "type" +:+ ":" +:+ quoted "string" +:+ "} inputs"))
      else
        let? schema := catalogue (service (opt_operation source)) in
        let? op := find_operation_or_error schema (opt_operation source) (options_context input) in
        if negb (bool_decide (http_method op = Get)) then
          Err (internal (options_context input +:+ " operation '" +:+ operation (opt_operation source) +:+ "' is "
                         +:+ method_as_str (http_method op) +:+ ", not GET; "
                         +:+ "a dynamic-enum fetch must never run a mutating operation"))
        else
          let? _ := for_each (check_option_parameter d input op source) (opt_parameters source) in
          let? _ := check_projection input "items_path" (opt_items_path source) in
          let? _ := check_projection input "value" (opt_value source) in
          let? _ := match opt_label source with Some path => check_projection input "label" path | None => Ok tt end in
          let? _ := match opt_filter source with Some filter => check_projection input "filter path" filter.1 | None => Ok tt end in
          if is_simple_items_path (opt_items_path source) then Ok tt
          else Err (internal (options_context input +:+ " items_path '" +:+ opt_items_path source
                      +:+ "' must be `$` (root array) or a single-segment path like `$.images` "
                      +:+ "(nested item-array paths are not supported in v1)"))
  end.

Definition validate_options_sources (catalogue : Catalogue) (d : WorkflowDefinition) (inputs : list WorkflowInputSpec)
  : result unit RuntimeError := for_each (check_options_source catalogue d) inputs.

Definition check_extension (input : WorkflowInputSpec) (ext : string) : result unit RuntimeError :=
  if is_empty ext || starts_with "." ext
  then Err (internal ("input '" +:+ in_name input +:+ "' file_picker extension '" +:+ ext
                      +:+ "' must be non-empty and must not start with '.' (write " +:+ quoted "png" +:+ ", not " +:+ quoted ".png" +:+ ")"))
  else Ok tt.

Definition check_file_picker (input : WorkflowInputSpec) : result unit RuntimeError :=
  match in_file_picker input with
  | None => Ok tt
  | Some picker =>
      if negb (is_string_schema (in_schema input)) then
        Err (internal ("input '" +:+ in_name input +:+ "' declares a file_picker but is not string-typed; "
                       +:+ "file_picker attaches only to {" +:+ quoted "type" +:+ ":" +:+ quoted "string" +:+ "} inputs"))
      else if bool_decide (is_Some (in_options input)) then
        Err (internal ("input '" +:+ in_name input +:+ "' declares both a file_picker and an options_source; "
                       +:+ "these are alternate value-resolution mechanisms and cannot combine"))
      else
        let? _ := for_each (check_extension input) (default [] (extensions picker)) in
        match start_dir picker with
        | Some EmptyString => Err (internal ("input '" +:+ in_name input +:+ "' file_picker start_dir must not be empty when present"))
        | _ => Ok tt
        end
  end.

Definition validate_file_pickers (inputs : list WorkflowInputSpec) : result unit RuntimeError := for_each check_file_picker inputs.

(** * Compilation *)

Definition binds_action_input (step : StepDefinition) (input : LocalActionInput) : bool :=
  existsb (fun b => String.eqb (bind_field b) (ai_name input) || starts_with (ai_name input +:+ ".") (bind_field b)) (sd_inputs step).

(** The bindings of a local step against the inputs its action declares. *)
Definition check_action_inputs (step : StepDefinition) (action : string) (declared : list LocalActionInput) : result unit RuntimeError :=
  let? _ := for_each (fun b =>
    if existsb (fun input => String.eqb (ai_name input) (path_root (bind_field b))) declared then Ok tt
    else Err (internal (step_context step +:+ " binds '" +:+ bind_field b +:+ "', which local action '" +:+ action
                        +:+ "' does not accept"))) (sd_inputs step) in
  for_each (fun input =>
    if binds_action_input step input then Ok tt
    else Err (internal (step_context step +:+ " leaves required input '" +:+ ai_name input +:+ "' of local action '"
                        +:+ action +:+ "' unbound"))) (List.filter ai_required declared).

Definition derive_step (catalogue : Catalogue) (inputs : list WorkflowInputSpec) (step : StepDefinition)
  : result (list AutoDerivedField) RuntimeError :=
  match sd_kind step with
  | Api =>
      let? op_ref := ok_or (sd_operation step)
        (internal (step_context step +:+ ": API step reached compile_workflow without an operation")) in
      let? schema := catalogue (service op_ref) in
      auto_derive_step step schema inputs
  | Local =>
      let? action := ok_or (sd_action step)
        (internal (step_context step +:+ ": local step reached compile_workflow without an action")) in
      let? declared := ok_or (lookup_action action)
        (internal (step_context step +:+ ": unknown local action '" +:+ action +:+ "'; known actions: "
                   +:+ join ", " known_names)) in
      let? _ := check_action_inputs step action declared in
      Ok []
  end.

Definition compile_step (catalogue : Catalogue) (inputs : list WorkflowInputSpec) (e : nat * StepDefinition)
  : result CompiledStep RuntimeError :=
  let '(index, step) := e in
  let? auto_derived := derive_step catalogue inputs step in
  Ok (mk_step (sd_id step) index (sd_description step) (sd_kind step) (sd_action step) (sd_operation step)
        (sd_dependencies step) (sd_confirm step) (sd_optional step) (sd_continue_on_failure step) (sd_skip_if_exists step) (sd_reviewed step) (sd_inputs step)
        (sd_outputs step) auto_derived).

(** The rules that need the definition only, in order. *)
Definition validate_definition (d : WorkflowDefinition) : result unit RuntimeError :=
  let? _ := validate_unique_step_ids d in
  let? _ := validate_step_kinds d in
  let? _ := validate_dependencies d in
  let? _ := validate_step_output_references d in
  let? _ := validate_workflow_references d in
  let? _ := validate_format_bindings d in
  let? _ := validate_mirror_bindings d in
  let? _ := validate_completion d in
  let? _ := validate_arithmetic_bindings d in
  let? _ := validate_no_sensitive d in
  let? _ := validate_skippable_outputs_have_defaults d in
  validate_no_cycles d.

Definition compile_workflow (d : WorkflowDefinition) (catalogue : Catalogue) : result CompiledWorkflow RuntimeError :=
  let? _ := validate_definition d in
  let? inputs := resolve_input_schemas catalogue d in
  let? _ := validate_options_sources catalogue d inputs in
  let? _ := validate_file_pickers inputs in
  let? _ := validate_nested_paths catalogue d in
  let? _ := validate_leaf_collisions d in
  let? steps := result_map (compile_step catalogue inputs) (enumerate (wd_steps d)) in
  Ok (mk_workflow (wd_id d) (wd_name d) (wd_intent d) (wd_description d) (wd_briefing d) inputs (wd_reviewed_by_default d) steps
        (wd_outputs d) (wd_completion d)).
