(* ===== verification/Executor.v ===== *)
(** The workflow executor ([workflows/executor.rs]): one run of a compiled workflow,
    from the declared defaults to the final output.

    The run is a computation over [RunState] that can throw (the source's [?]) and
    that asks the outside world: the frontend's prompts, the HTTP dispatch, the local
    actions, the catalogue. [Platform] is that world, with arbitrary answers; every
    question and every lifecycle event is recorded in [trace]. *)

From stdpp Require Import base gmap strings list.
From Stdlib Require Import ZArith Lia Ascii.
From S2P Require Import Prelude Text Kebab Json Catalogue Paths Sanitise Results Workflow AutoDerive Bindings Request ReviewPlan Redaction.

(** * Data *)

Inductive RunMode : Type := ReviewInputSteps | ReviewEveryStep | RunWithoutStopping.
Inductive StepOutcome : Type := Success | Failed | Cancelled | Skipped.
Inductive RunOutcome : Type := RunSuccess | RunFailed | RunCancelled.
Inductive StepConfirmOutcome : Type := ConfirmProceed | ConfirmSkip | ConfirmCancel.
Inductive StepFailureAction : Type := ActionRetry | ActionSkip | ActionCancel.

Inductive StepOutcomeReason : Type :=
| AlreadyExists | ToleratedFailure | DeclinedAtReview | DeclinedAtConfirm | DeclinedAfterFailure
| SchemaLoad | Gather | Assembly | PreviewStage | ConfirmStage | Dispatch | Capture | FrontendContract
| AtBriefing | AtInputGather | AtReview | AtConfirm | AtFailureGate | NoInput.

(** The edits of a review, in the order of their field ids. *)
Definition StepFieldEdits : Type := list (nat * value).

Inductive StepReviewOutcome : Type :=
| ReviewProceed (edits : StepFieldEdits)
| ReviewSkip
| ReviewCancel.

Record CollectOutcome : Type := mk_collect { col_inputs : gmap string value; col_run_mode : RunMode }.

Inductive SuppliedSource : Type := FromFlag | FromDefault.

Record SuppliedInputView : Type := mk_supplied {
  sup_label : string;
  sup_value : value;
  sup_schema : value;
  sup_description : option string;
  sup_source : SuppliedSource;
  sup_location : StepFieldLocation
}.

Record GatherResult : Type := mk_gather {
  slot_values : gmap nat value;
  input_overrides : gmap string value
}.

Record StepErrorFacts : Type := mk_error_facts {
  ef_class : string;
  ef_http_status : option Z;
  ef_code : option string;
  ef_input_fields : list StepInputField
}.

Definition from_error (e : RuntimeError) : StepErrorFacts :=
  let '(status, kind_code) := match kind e with Upstream s c => (Some s, c) | _ => (None, None) end in
  mk_error_facts (telemetry_class (kind e)) status
    (match kind_code with Some c => Some c | None => d ← details e; err_code d end) [].

Definition with_input_fields (fs : list StepInputField) (f : StepErrorFacts) : StepErrorFacts :=
  mk_error_facts (ef_class f) (ef_http_status f) (ef_code f) fs.

Record RunFacts : Type := mk_facts {
  rf_run_mode : option RunMode;
  rf_reason : option StepOutcomeReason;
  steps_started : nat;
  steps_succeeded : nat;
  steps_failed : nat;
  steps_skipped : nat;
  steps_cancelled : nat;
  last_step_index : option nat;
  duration_ms : Z;
  inputs_from_flag : nat;
  inputs_from_prompt : nat;
  inputs_from_default : nat;
  inputs_edited_in_form : nat
}.

Definition RunFacts_default : RunFacts := mk_facts None None 0 0 0 0 0 None 0 0 0 0 0.

Record StepFinishedEvent : Type := mk_finished {
  sf_index : nat;
  sf_id : string;
  sf_summary : string;
  sf_captures : list (string * string);
  sf_outcome : StepOutcome;
  sf_reason : option StepOutcomeReason;
  sf_attempts : Z;
  sf_duration_ms : Z;
  sf_error : option StepErrorFacts
}.

Inductive WorkflowEvent : Type :=
| WorkflowStarted (compiled : CompiledWorkflow)
| StepStarted (index : nat) (id : string)
| StepFinished (e : StepFinishedEvent)
| WorkflowFinished (outcome : RunOutcome) (facts : RunFacts).

#[global] Instance RunMode_eq_dec : EqDecision RunMode.
Proof. solve_decision. Defined.
#[global] Instance StepOutcome_eq_dec : EqDecision StepOutcome.
Proof. solve_decision. Defined.
#[global] Instance StepKind_eq_dec : EqDecision StepKind.
Proof. solve_decision. Defined.

Record StepPreview (P : Type) : Type := mk_preview {
  pv_workflow_name : string;
  pv_step_id : string;
  pv_step_label : string;
  pv_step_index : nat;
  pv_step_total : nat;
  pv_command : P
}.
Arguments mk_preview {P}.

(** * The outside world *)

Class Platform : Type := {
  (** What the executor passes around without looking into it. *)
  World : Type;
  CommandPreview : Type;
  DryRunResult : Type;
  (** The envelopes of a dispatch other than a service answer or a binary file. *)
  OtherOutput : Type;
  describe_other : OtherOutput -> string;

  (** [WorkflowFrontend]. *)
  on_event : WorkflowEvent -> World -> World;
  present_briefing : WorkflowBriefing -> string -> World -> result bool RuntimeError * World;
  collect_workflow_inputs : list WorkflowInputSpec -> gmap string value -> World ->
    result (option CollectOutcome) RuntimeError * World;
  gather_workflow_inputs : list WorkflowInputNeeded -> CompiledStep -> list SuppliedInputView -> World ->
    result GatherResult RuntimeError * World;
  review_step : StepFieldPlan -> World -> result StepReviewOutcome RuntimeError * World;
  confirm_step : CompiledStep -> StepPreview CommandPreview -> World -> result StepConfirmOutcome RuntimeError * World;
  resolve_step_failure : CompiledStep -> RuntimeError -> bool -> World -> result StepFailureAction RuntimeError * World;

  (** [Runtime]: the catalogue, previews, dispatch with the step's index attached to
      its progress events, the registry of local actions, the clock. *)
  get_or_load : string -> World -> result ServiceSchema RuntimeError * World;
  preview_command : CommandRequest -> World -> result CommandPreview RuntimeError * World;
  dry_run_command : CommandRequest -> World -> result DryRunResult RuntimeError * World;
  run_command : nat -> CommandRequest -> World -> result (ApiOutput + string + OtherOutput) RuntimeError * World;
  run_action : string -> nat -> gmap string value -> bool -> World -> result value RuntimeError * World;
  instant : World -> Z;

  (** The rest of the environment: the profile's namespace, the local file system,
      the telemetry kill switch. *)
  runtime_namespace : World -> option string;
  files : World -> Files;
  input_values_disabled : World -> bool
}.

Declare Scope run_scope.
Delimit Scope run_scope with run.
#[global] Open Scope run_scope.

Section executor.
Context `{JsonText, UnicodeCase, Platform}.

Inductive StepDryRunAction : Type :=
| DryRequest (r : DryRunResult)
| DryLocal (action : string) (preview : value).

Record StepDryRunPreview : Type := mk_dry_preview {
  dp_step_id : string;
  dp_step_index : nat;
  dp_action : StepDryRunAction;
  dp_outputs : gmap string value
}.

(** [CommandOutput], as far as a run can produce it. *)
Inductive CommandOutput : Type :=
| OutService (o : ApiOutput)
| OutBinary (b : string)
| OutDryRun (r : DryRunResult)
| OutWorkflowDryRun (id : string) (previews : list StepDryRunPreview)
| OutWorkflow (id : string) (outputs : gmap string value) (summaries : list string)
    (completion : option WorkflowCompletion) (view : option (list WorkflowOutputItem)).

(** What is asked of the world, with the answers that decide what happens. *)
Inductive obs : Type :=
| OEvent (e : WorkflowEvent)
| OBriefing
| OCollect
| OGather (id : string)
| OReview (id : string)
| OConfirm (id : string) (answer : result StepConfirmOutcome RuntimeError)
| OFailureGate (id : string) (answer : result StepFailureAction RuntimeError)
| ODispatch (id : string)
| OAction (id : string) (dry : bool).

Record RunState : Type := mk_run {
  world : World;
  trace : list obs;
  rs_ctx : WorkflowContext;
  workflow_supplied : gmap string value;
  step_summaries : list string;
  dry_run_previews : list StepDryRunPreview;
  run_facts : RunFacts
}.

Inductive exec (A : Type) : Type := Ret (a : A) | Throw (e : RuntimeError) | OutOfFuel.
#[global] Arguments Ret {A} a.
#[global] Arguments Throw {A} e.
#[global] Arguments OutOfFuel {A}.

Definition M (A : Type) : Type := RunState -> exec A * RunState.

Definition ret {A} (a : A) : M A := fun s => (Ret a, s).
Definition throw {A} (e : RuntimeError) : M A := fun s => (Throw e, s).
Definition bind {A B} (m : M A) (k : A -> M B) : M B := fun s =>
  match m s with
  | (Ret a, s) => k a s
  | (Throw e, s) => (Throw e, s)
  | (OutOfFuel, s) => (OutOfFuel, s)
  end.
Definition gets {A} (f : RunState -> A) : M A := fun s => (Ret (f s), s).
Definition modify (f : RunState -> RunState) : M unit := fun s => (Ret tt, f s).

(** Ask the world, and record it. *)
Definition ask {A} (o : A -> obs) (f : World -> A * World) : M A := fun s =>
  let '(a, w) := f (world s) in
  (Ret a, mk_run w (trace s ++ [o a]) (rs_ctx s) (workflow_supplied s) (step_summaries s) (dry_run_previews s) (run_facts s)).

(** Ask the world something that is not a decision point. *)
Definition query {A} (f : World -> A * World) : M A := fun s =>
  let '(a, w) := f (world s) in
  (Ret a, mk_run w (trace s) (rs_ctx s) (workflow_supplied s) (step_summaries s) (dry_run_previews s) (run_facts s)).

(** [frontend.on_event]. *)
Definition emit (e : WorkflowEvent) : M unit := ask (fun _ => OEvent e) (fun w => (tt, on_event e w)).

Local Notation "'let*' x ':=' m 'in' k" := (bind m (fun x => k))
  (at level 10, x pattern, m at level 100, k at level 200) : run_scope.
Local Notation "'do' m ; k" := (bind m (fun _ => k))
  (at level 10, m at level 100, k at level 200) : run_scope.

(** [m?]. *)
Definition lift {A} (r : result A RuntimeError) : M A := match r with Ok a => ret a | Err e => throw e end.

Definition set_ctx (c : WorkflowContext) (s : RunState) : RunState :=
  mk_run (world s) (trace s) c (workflow_supplied s) (step_summaries s) (dry_run_previews s) (run_facts s).
Definition set_supplied (m : gmap string value) (s : RunState) : RunState :=
  mk_run (world s) (trace s) (rs_ctx s) m (step_summaries s) (dry_run_previews s) (run_facts s).
Definition push_summary (x : string) (s : RunState) : RunState :=
  mk_run (world s) (trace s) (rs_ctx s) (workflow_supplied s) (step_summaries s ++ [x]) (dry_run_previews s) (run_facts s).
Definition push_preview (p : StepDryRunPreview) (s : RunState) : RunState :=
  mk_run (world s) (trace s) (rs_ctx s) (workflow_supplied s) (step_summaries s) (dry_run_previews s ++ [p]) (run_facts s).
Definition set_facts (f : RunFacts -> RunFacts) (s : RunState) : RunState :=
  mk_run (world s) (trace s) (rs_ctx s) (workflow_supplied s) (step_summaries s) (dry_run_previews s) (f (run_facts s)).

Definition update_ctx (f : WorkflowContext -> WorkflowContext) : M unit := modify (fun s => set_ctx (f (rs_ctx s)) s).

(** * Small decisions *)

Definition resolved_step_review (step : CompiledStep) (compiled : CompiledWorkflow) : bool :=
  match is_reviewed step with Some b => b | None => is_reviewed_by_default compiled end.

Definition is_unset (src : StepFieldSource) : bool := match src with SrcUnset => true | _ => false end.

Definition plan_has_reviewable_fields (plan : StepFieldPlan) : bool :=
  existsb (fun f => f_show_in_review f || (f_required f && is_unset (f_source f))) (plan_fields plan).

Definition should_pause_for_review (run_mode : RunMode) (review_steps step_reviewed force_pause : bool)
    (plan : StepFieldPlan) : bool :=
  if negb review_steps || negb step_reviewed || bool_decide (run_mode = RunWithoutStopping) then false
  else if force_pause then true
  else match run_mode with
       | ReviewEveryStep => true
       | ReviewInputSteps => plan_has_reviewable_fields plan
       | RunWithoutStopping => false
       end.

Definition error_reason_tail (e : RuntimeError) : string :=
  match reason_detail e with Some r => r | None => message e end.

Definition is_conflict (e : RuntimeError) : bool :=
  let has_phrase s := contains "already exists" (to_ascii_lowercase s) in
  let opt_has o := match o with Some s => has_phrase s | None => false end in
  match kind e with
  | Upstream status _ =>
      if status =? 409 then
        if has_phrase (message e) then true
        else match details e with Some d => opt_has (err_reason d) || opt_has (err_detail d) | None => false end
      else false
  | _ => false
  end.

Definition is_safely_skippable (step : CompiledStep) : bool :=
  forallb (fun o => bool_decide (is_Some (cap_default o))) (step_outputs step).

Inductive FailureDisposition : Type :=
| DispSkip (reason : StepOutcomeReason) (summary_tail : option string)
| DispRetry
| DispFatal (reason : StepOutcomeReason).

Definition decide_step_failure (step : CompiledStep) (error : RuntimeError) (no_input : bool)
    (attempt_stage : StepOutcomeReason) : M FailureDisposition :=
  if continue_on_failure step then ret (DispSkip ToleratedFailure (Some (error_reason_tail error)))
  else if skip_if_exists step && is_conflict error then ret (DispSkip AlreadyExists (Some "already exists"))
  else if no_input then ret (DispFatal attempt_stage)
  else
    let safe := is_safely_skippable step in
    let* answer := ask (OFailureGate (step_id step)) (resolve_step_failure step error safe) in
    let* action := lift answer in
    match action with
    | ActionRetry => ret DispRetry
    | ActionSkip => ret (if safe then DispSkip DeclinedAfterFailure None else DispFatal FrontendContract)
    | ActionCancel => ret (DispFatal AtFailureGate)
    end.

(** * Bookkeeping *)

Definition tally_step_outcome (o : StepOutcome) (f : RunFacts) : RunFacts :=
  let '(mk_facts m r st su fa sk ca l d a b c e) := f in
  match o with
  | Success => mk_facts m r st (S su) fa sk ca l d a b c e
  | Failed => mk_facts m r st su (S fa) sk ca l d a b c e
  | Skipped => mk_facts m r st su fa (S sk) ca l d a b c e
  | Cancelled => mk_facts m r st su fa sk (S ca) l d a b c e
  end.

Definition count_start (index : nat) (f : RunFacts) : RunFacts :=
  let '(mk_facts m r st su fa sk ca l d a b c e) := f in mk_facts m r (S st) su fa sk ca (Some index) d a b c e.

(** [u64::try_from(started_at.elapsed().as_millis()).unwrap_or(u64::MAX)]. *)
Definition step_duration_ms (started_at : Z) : M Z :=
  gets (fun s => Z.min u64_max (Z.max 0 (instant (world s) - started_at))).

(** The end of a step: its summary, the tally, the event. *)
Definition finish_step (step : CompiledStep) (summary : string) (caps : list (string * string)) (outcome : StepOutcome)
    (reason : option StepOutcomeReason) (attempts started_at : Z) (error : option StepErrorFacts) : M unit :=
  do modify (push_summary summary);
  do modify (set_facts (tally_step_outcome outcome));
  let* ms := step_duration_ms started_at in
  emit (StepFinished (mk_finished (step_index step) (step_id step) summary caps outcome reason attempts ms error)).

Definition finish_step_terminal (step : CompiledStep) (summary : string) (outcome : StepOutcome)
    (reason : option StepOutcomeReason) (attempts started_at : Z) (error : option StepErrorFacts) : M unit :=
  finish_step step summary [] outcome reason attempts started_at error.

Definition skip_step (step : CompiledStep) (reason : StepOutcomeReason) (summary_tail : option string)
    (attempts started_at : Z) (error : option StepErrorFacts) : M unit :=
  let* bound := gets (fun s => bind_skipped_outputs (step_id step) (step_outputs step) (rs_ctx s)) in
  do update_ctx (fun _ => bound.1);
  do lift bound.2;
  let summary := match summary_tail with
                 | Some tail => step_id step +:+ " skipped — " +:+ tail
                 | None => step_id step +:+ " skipped"
                 end in
  finish_step_terminal step summary Skipped (Some reason) attempts started_at error.

(** How a step leaves the loop over the steps: go on, or stop the run with its
    outcome and the pending error. *)
Inductive step_flow : Type := Continue | Break (outcome : RunOutcome) (pending : option RuntimeError).

Definition failed_summary (step : CompiledStep) : string := step_id step +:+ " failed".

(** The arms that fail a step for good: terminal event, pending error, [break]. *)
Definition fail_step (step : CompiledStep) (reason : StepOutcomeReason) (started_at : Z)
    (facts : option StepErrorFacts) (error : RuntimeError) : M step_flow :=
  do finish_step_terminal step (failed_summary step) Failed (Some reason) 0 started_at facts;
  ret (Break RunFailed (Some error)).

Definition cancel_step (step : CompiledStep) (reason : StepOutcomeReason) (started_at : Z) : M step_flow :=
  do finish_step_terminal step (step_id step +:+ " cancelled") Cancelled (Some reason) 0 started_at None;
  ret (Break RunCancelled None).

(** [attempts.saturating_add(1)]. *)
Definition next_attempt (attempts : Z) : Z := saturating_add_u32 attempts 1.

(** How one dispatch of a step ended, for the loop around it. *)
Inductive attempt_result : Type :=
| AttemptOk (summary : string)
| AttemptFailed (error : RuntimeError) (stage : StepOutcomeReason).

(** What the retry loop hands to the code after it: the values of its [break]s, or
    a skip that has finished the step already. *)
Inductive loop_result : Type :=
| LoopSkipped
| LoopDone (outcome : StepOutcome) (summary : string) (reason : option StepOutcomeReason) (attempts : Z)
    (facts : option StepErrorFacts) (pending : option RuntimeError).

(** The retry loop of both kinds of step, around one [attempt]; [facts_of] builds
    the telemetry facts of a failure. *)
Fixpoint retry_loop (fuel : nat) (step : CompiledStep) (no_input : bool) (started_at : Z) (attempt : M attempt_result)
    (facts_of : RuntimeError -> M StepErrorFacts) (attempts : Z) : M loop_result :=
  match fuel with
  | O => fun s => (OutOfFuel, s)
  | S fuel =>
      let attempts := next_attempt attempts in
      let* r := attempt in
      match r with
      | AttemptOk summary => ret (LoopDone Success summary None attempts None None)
      | AttemptFailed error stage =>
          let* disposition := decide_step_failure step error no_input stage in
          match disposition with
          | DispSkip reason tail =>
              let* facts := facts_of error in
              do skip_step step reason tail attempts started_at (Some facts);
              ret LoopSkipped
          | DispRetry => retry_loop fuel step no_input started_at attempt facts_of attempts
          | DispFatal reason =>
              let* facts := facts_of error in
              ret (LoopDone Failed (failed_summary step) (Some reason) attempts (Some facts) (Some error))
          end
      end
  end.

(** Store a body's captures. *)
Definition bind_outputs (step : CompiledStep) : M (result unit RuntimeError) :=
  let* bound := gets (fun s =>
    bind_step_outputs (step_id step) (step_outputs step) (step_body_json (step_id step) (rs_ctx s)) (rs_ctx s)) in
  do update_ctx (fun _ => bound.1);
  ret bound.2.

(** * Local steps *)

Definition no_action (step : CompiledStep) : RuntimeError :=
  internal ("step '" +:+ step_id step +:+ "': local step reached executor without an action").
Definition unknown_action (step : CompiledStep) (name : string) : RuntimeError :=
  internal ("step '" +:+ step_id step +:+ "': unknown local action '" +:+ name +:+ "'").

Definition build_local_dry_run_preview (step : CompiledStep) (action : string) (produced : value)
    (outputs : gmap string value) : StepDryRunPreview :=
  mk_dry_preview (step_id step) (step_index step) (DryLocal action produced) outputs.

(** The declared outputs that resolve in the context. *)
Definition bound_outputs (step : CompiledStep) (c : WorkflowContext) : gmap string value :=
  list_to_map (rev (omap (fun cap => v ← resolve_step_reference (step_id step) (cap_name cap) c; Some (cap_name cap, v))
    (step_outputs step))).

Definition null_outputs (step : CompiledStep) : gmap string value :=
  list_to_map (rev (map (fun cap => (cap_name cap, Null)) (step_outputs step))).

(** The bindings laid over the supplied values. *)
Definition local_inputs (step : CompiledStep) : M (result (gmap string value) RuntimeError) :=
  gets (fun s =>
    match resolve_local_step_bindings step (rs_ctx s) (workflow_supplied s) with
    | Ok resolved => Ok (resolved ∪ workflow_supplied s)
    | Err e => Err e
    end).

Definition local_dry_run (step : CompiledStep) (action : string) (started_at : Z) : M step_flow :=
  let* inputs := local_inputs step in
  match inputs with
  | Err error => fail_step step Assembly started_at None error
  | Ok inputs =>
      let* r := ask (fun _ => OAction (step_id step) true) (run_action action (step_index step) inputs true) in
      match r with
      | Err error => fail_step step Dispatch started_at (Some (from_error error)) error
      | Ok produced =>
          do update_ctx (store_local_step_body (step_id step) produced);
          let* _ := bind_outputs step in
          let* outputs := gets (fun s => bound_outputs step (rs_ctx s)) in
          do modify (push_preview (build_local_dry_run_preview step action produced outputs));
          do update_ctx (inject_step_captures_for_dry_run (step_id step) (null_outputs step));
          do finish_step_terminal step (step_id step +:+ " dry-run") Success None 1 started_at None;
          ret Continue
      end
  end.

Definition local_attempt (step : CompiledStep) (action : string) (inputs : gmap string value) : M attempt_result :=
  let* r := ask (fun _ => OAction (step_id step) false) (run_action action (step_index step) inputs false) in
  match r with
  | Ok body =>
      do update_ctx (store_local_step_body (step_id step) body);
      let* bound := bind_outputs step in
      match bound with
      | Ok _ => ret (AttemptOk (step_id step +:+ " ok"))
      | Err error => ret (AttemptFailed error Capture)
      end
  | Err error => ret (AttemptFailed error Dispatch)
  end.

(** The end of a step that left its retry loop, given its captures. *)
Definition end_step (step : CompiledStep) (started_at : Z) (captures_of : StepOutcome -> M (list (string * string)))
    (r : loop_result) : M step_flow :=
  match r with
  | LoopSkipped => ret Continue
  | LoopDone outcome summary reason attempts facts pending =>
      do modify (push_summary summary);
      let* caps := captures_of outcome in
      do modify (set_facts (tally_step_outcome outcome));
      let* ms := step_duration_ms started_at in
      do emit (StepFinished (mk_finished (step_index step) (step_id step) summary caps outcome reason attempts ms facts));
      ret (if bool_decide (outcome = Failed) then Break RunFailed pending else Continue)
  end.

Definition local_run (fuel : nat) (options : RunOptions) (step : CompiledStep) (action : string) (started_at : Z) : M step_flow :=
  let* inputs := local_inputs step in
  match inputs with
  | Err error => fail_step step Assembly started_at None error
  | Ok inputs =>
      let* r := retry_loop fuel step (no_input options) started_at (local_attempt step action inputs)
                  (fun e => ret (from_error e)) 0 in
      end_step step started_at (fun _ => ret []) r
  end.

Definition run_local_step (fuel : nat) (options : RunOptions) (step : CompiledStep) (started_at : Z) : M step_flow :=
  let* action := lift (ok_or (step_action step) (no_action step)) in
  do lift (if bool_decide (is_Some (lookup_action action)) then Ok tt else Err (unknown_action step action));
  if dry_run options then local_dry_run step action started_at
  else local_run fuel options step action started_at.

(** * API steps *)

Definition no_operation (step : CompiledStep) : RuntimeError :=
  internal ("step '" +:+ step_id step +:+ "': API step reached executor without an operation").
Definition illegal_skip (step : CompiledStep) : RuntimeError :=
  internal ("frontend returned Skip for non-optional step '" +:+ step_id step +:+ "'").
Definition unexpected_envelope (step : CompiledStep) (other : OtherOutput) : RuntimeError :=
  internal ("step '" +:+ step_id step +:+ "' dispatch returned unexpected envelope " +:+ describe_other other).

(** What stays fixed while one API step runs. *)
Record StepEnv : Type := mk_env {
  env_compiled : CompiledWorkflow;
  env_options : RunOptions;
  env_flags : gset string;
  env_defaults : gset string;
  env_mode : RunMode;
  env_step : CompiledStep;
  env_started : Z;
  env_schema : ServiceSchema
}.

Definition plan_of (env : StepEnv) (step_local : gmap string value) (s : RunState) : result StepFieldPlan RuntimeError :=
  resolve_step_fields (env_step env) (rs_ctx s) (workflow_supplied s) step_local (wf_inputs (env_compiled env))
    (env_schema env) (env_defaults env).

Definition step_input_fields_on_failure (env : StepEnv) (step_local : gmap string value) : M (list StepInputField) :=
  gets (fun s =>
    match plan_of env step_local s with
    | Ok plan =>
        build_step_input_fields (input_values_disabled (world s)) (plan_fields plan) (env_flags env)
          (is_bundled_workflow (env_options env))
    | Err _ => []
    end).

Definition failure_facts (env : StepEnv) (step_local : gmap string value) (error : RuntimeError) : M StepErrorFacts :=
  let* fields := step_input_fields_on_failure env step_local in
  ret (with_input_fields fields (from_error error)).

Definition fail_api_step (env : StepEnv) (step_local : gmap string value) (reason : StepOutcomeReason) (error : RuntimeError)
  : M step_flow :=
  let* facts := failure_facts env step_local error in
  fail_step (env_step env) reason (env_started env) (Some facts) error.

(** One stage of a step: the step is over, or the stage's result. *)
Inductive stage (A : Type) : Type := Stop (f : step_flow) | Go (a : A).
#[global] Arguments Stop {A} f.
#[global] Arguments Go {A} a.

Definition stop {A} (m : M step_flow) : M (stage A) := let* f := m in ret (Stop f).

Definition then_stage {A B} (m : M (stage A)) (k : A -> M (stage B)) : M (stage B) :=
  let* r := m in match r with Stop f => ret (Stop f) | Go a => k a end.

(** ** Inputs *)

Definition build_supplied_views (compiled : CompiledWorkflow) (supplied : gmap string value) (flags defaults : gset string)
  : list SuppliedInputView :=
  omap (fun spec =>
    v ← supplied !! in_name spec;
    if is_null v then None
    else
      source ← (if bool_decide (in_name spec ∈ flags) then Some FromFlag
                else if bool_decide (in_name spec ∈ defaults) then Some FromDefault else None);
      Some (mk_supplied (in_name spec) v (match in_schema spec with Some w => w | None => Null end)
              (in_description spec) source (in_location spec))) (wf_inputs compiled).

(** Later fields with an id shadow earlier ones, as in the collected map. *)
Definition find_plan_field (plan : StepFieldPlan) (id : nat) : option StepField :=
  List.find (fun f => Nat.eqb (f_id f) id) (rev (plan_fields plan)).

Definition apply_edit (plan : StepFieldPlan) (step_local : gmap string value) (edit : nat * value) : gmap string value :=
  match find_plan_field plan edit.1 with
  | None => step_local
  | Some field =>
      if f_body_overflow field then
        match as_object edit.2 with
        | Some object => foldl (fun m kv => <[kv.1 := kv.2]> m) step_local object
        | None => step_local
        end
      else <[f_field field := edit.2]> step_local
  end.

Definition apply_step_review_edits (plan : StepFieldPlan) (edits : StepFieldEdits) (step_local : gmap string value)
  : gmap string value := foldl (apply_edit plan) step_local edits.

Definition take_review_path (env : StepEnv) : bool :=
  review_steps (env_options env) &&
  (resolved_step_review (env_step env) (env_compiled env) ||
   (is_optional (env_step env) && negb (step_confirm (env_step env)))) &&
  negb (bool_decide (env_mode env = RunWithoutStopping)).

(** The review branch: the step's own values after the review. *)
Definition review_inputs (env : StepEnv) : M (stage (gmap string value)) :=
  let step := env_step env in
  let* r := gets (plan_of env ∅) in
  let* plan := lift r in
  if should_pause_for_review (env_mode env) true true (is_optional step && negb (step_confirm step)) plan then
    let* answer := ask (fun _ => OReview (step_id step)) (review_step plan) in
    match answer with
    | Ok (ReviewProceed edits) => ret (Go (apply_step_review_edits plan edits ∅))
    | Ok ReviewSkip =>
        if is_optional step then
          do skip_step step DeclinedAtReview None 0 (env_started env) None;
          ret (Stop Continue)
        else stop (fail_api_step env ∅ FrontendContract (illegal_skip step))
    | Ok ReviewCancel => stop (cancel_step step AtReview (env_started env))
    | Err error => stop (fail_api_step env ∅ Gather error)
    end
  else ret (Go ∅).

(** One gathered slot. *)
Definition apply_slot (slots : gmap nat value) (acc : gmap string value * gmap string value) (entry : WorkflowInputNeeded)
  : gmap string value * gmap string value :=
  match slots !! need_id entry with
  | None => acc
  | Some v =>
      match need_scope entry with
      | ScopeInput name => (<[name := v]> acc.1, acc.2)
      | ScopeLocal field_name => (acc.1, <[field_name := v]> acc.2)
      end
  end.

(** The gather branch. *)
Definition gather_inputs (env : StepEnv) : M (stage (gmap string value)) :=
  let step := env_step env in
  let* supplied := gets workflow_supplied in
  match compute_needed_inputs step supplied (wf_inputs (env_compiled env)) with
  | [] => ret (Go ∅)
  | needed =>
      let views := build_supplied_views (env_compiled env) supplied (env_flags env) (env_defaults env) in
      let* answer := ask (fun _ => OGather (step_id step)) (gather_workflow_inputs needed step views) in
      match answer with
      | Ok gathered =>
          let '(supplied, step_local) := foldl (apply_slot (slot_values gathered)) (supplied, ∅) needed in
          do modify (set_supplied (input_overrides gathered ∪ supplied));
          ret (Go step_local)
      | Err error => stop (fail_api_step env ∅ Gather error)
      end
  end.

Definition collect_step_inputs (env : StepEnv) : M (stage (gmap string value)) :=
  if take_review_path env then review_inputs env else gather_inputs env.

(** ** Request and confirmation *)

Definition assemble (env : StepEnv) (step_local : gmap string value) : M (stage CommandRequest) :=
  let* r := gets (fun s =>
    assemble_command_request (files (world s)) (runtime_namespace (world s)) (env_step env) (rs_ctx s) (workflow_supplied s) step_local
      (wf_inputs (env_compiled env)) (env_schema env) (env_options env)) in
  match r with
  | Ok request => ret (Go request)
  | Err error => stop (fail_api_step env step_local Assembly error)
  end.

Definition build_step_preview (compiled : CompiledWorkflow) (step : CompiledStep) (request : CommandRequest)
  : M (result (StepPreview CommandPreview) RuntimeError) :=
  let* command := query (preview_command request) in
  ret (match command with
       | Ok command =>
           Ok (mk_preview (wf_name compiled) (step_id step)
                 (match step_description step with Some d => d | None => step_id step end)
                 (step_index step) (length (wf_steps compiled)) command)
       | Err e => Err e
       end).

Definition needs_confirmation (options : RunOptions) (step : CompiledStep) : bool :=
  step_confirm step && negb (assume_yes options) && negb (dry_run options).

Definition confirm_gate (env : StepEnv) (step_local : gmap string value) (request : CommandRequest) : M (stage unit) :=
  let step := env_step env in
  if needs_confirmation (env_options env) step then
    let* preview := build_step_preview (env_compiled env) step request in
    match preview with
    | Err error => stop (fail_api_step env step_local PreviewStage error)
    | Ok preview =>
        let* answer := ask (OConfirm (step_id step)) (confirm_step step preview) in
        match answer with
        | Ok ConfirmProceed => ret (Go tt)
        | Ok ConfirmSkip =>
            if is_optional step then
              do skip_step step DeclinedAtConfirm None 0 (env_started env) None;
              ret (Stop Continue)
            else stop (fail_api_step env step_local FrontendContract (illegal_skip step))
        | Ok ConfirmCancel => stop (cancel_step step AtConfirm (env_started env))
        | Err error => stop (fail_api_step env step_local ConfirmStage error)
        end
    end
  else ret (Go tt).

(** ** Dispatch *)

Definition format_step_summary (step : CompiledStep) : string := step_id step +:+ " ok".

Definition placeholder_for_body_path (step_id output_name : string) (dflt : option value) : value :=
  match dflt with
  | Some d => d
  | None => Str ("<placeholder-" +:+ step_id +:+ "-" +:+ output_name +:+ ">")
  end.

Definition synthesised_outputs (step : CompiledStep) : gmap string value :=
  list_to_map (rev (map (fun cap => (cap_name cap, placeholder_for_body_path (step_id step) (cap_name cap) (cap_default cap)))
    (step_outputs step))).

Definition synthesise_without_operation (step : CompiledStep) : RuntimeError :=
  internal ("step '" +:+ step_id step +:+ "': API step reached synthesise_dry_run_outputs without an operation").

Definition synthesise_dry_run_outputs (step : CompiledStep) : M (result (gmap string value) RuntimeError) :=
  match step_operation step with
  | None => ret (Err (synthesise_without_operation step))
  | Some op_ref =>
      let* schema := query (get_or_load (service op_ref)) in
      ret (let? schema := schema in
           let? _ := find_operation_or_error schema op_ref (compiled_context step) in
           Ok (synthesised_outputs step))
  end.

Definition dry_dispatch (env : StepEnv) (step_local : gmap string value) (request : CommandRequest) : M loop_result :=
  let step := env_step env in
  let failed error :=
    let* facts := failure_facts env step_local error in
    ret (LoopDone Failed (failed_summary step) (Some PreviewStage) 1 (Some facts) (Some error)) in
  let* r := synthesise_dry_run_outputs step in
  match r with
  | Err error => failed error
  | Ok synthesised =>
      do update_ctx (inject_step_captures_for_dry_run (step_id step) synthesised);
      let* command := query (dry_run_command request) in
      match command with
      | Err error => failed error
      | Ok command =>
          do modify (push_preview (mk_dry_preview (step_id step) (step_index step) (DryRequest command) synthesised));
          ret (LoopDone Success (step_id step +:+ " dry-run") None 1 None None)
      end
  end.

Definition dispatch_attempt (step : CompiledStep) (request : CommandRequest) : M attempt_result :=
  let* r := ask (fun _ => ODispatch (step_id step)) (run_command (step_index step) request) in
  match r with
  | Ok (inl (inl api_output)) =>
      do update_ctx (store_step_output (step_id step) api_output);
      let* bound := bind_outputs step in
      match bound with
      | Ok _ => ret (AttemptOk (format_step_summary step))
      | Err error => ret (AttemptFailed error Capture)
      end
  | Ok (inl (inr binary)) =>
      do update_ctx (store_binary_output (step_id step) binary);
      ret (AttemptOk (step_id step +:+ " ok"))
  | Ok (inr other) => ret (AttemptFailed (unexpected_envelope step other) FrontendContract)
  | Err error => ret (AttemptFailed error Dispatch)
  end.

Definition MAX_CAPTURE : nat := 40.

Definition format_capture_value (v : value) : string :=
  let raw := match v with
             | Null => "—"
             | Str s => strip_terminal_control_sequences s
             | Bool b => if b then "true" else "false"
             | other => json_to_string other
             end in
  if Nat.leb (count_chars raw) MAX_CAPTURE then raw
  else take_chars (MAX_CAPTURE - 1) raw +:+ "…".

Definition shown_in_captures (f : StepField) : bool :=
  negb (f_body_overflow f) &&
  match f_source f with
  | SrcPriorOutput => false
  | SrcLiteral => f_show_in_review f
  | SrcWorkflowInput _ | SrcDefault _ | SrcDerived _ => true
  | SrcUnset => false
  end.

Definition build_step_captures (env : StepEnv) (step_local : gmap string value) (s : RunState) : list (string * string) :=
  match plan_of env step_local s with
  | Ok plan =>
      map (fun f => (f_label f, format_capture_value (f_value f)))
        (List.filter shown_in_captures (plan_fields plan))
  | Err _ => []
  end.

Definition dispatch (fuel : nat) (env : StepEnv) (step_local : gmap string value) (request : CommandRequest) : M step_flow :=
  let step := env_step env in
  let* r := (if dry_run (env_options env) then dry_dispatch env step_local request
             else retry_loop fuel step (no_input (env_options env)) (env_started env) (dispatch_attempt step request)
                    (failure_facts env step_local) 0) in
  end_step step (env_started env)
    (fun outcome => match outcome with
                    | Success => gets (build_step_captures env step_local)
                    | _ => ret []
                    end) r.

Definition run_with_schema (fuel : nat) (env : StepEnv) : M step_flow :=
  let* r := then_stage (collect_step_inputs env) (fun step_local =>
              then_stage (assemble env step_local) (fun request =>
                then_stage (confirm_gate env step_local request) (fun _ =>
                  ret (Go (step_local, request))))) in
  match r with
  | Stop f => ret f
  | Go (step_local, request) => dispatch fuel env step_local request
  end.

(** What stays fixed for the whole run. *)
Record RunEnv : Type := mk_run_env {
  re_compiled : CompiledWorkflow;
  re_options : RunOptions;
  re_flags : gset string;
  re_defaults : gset string
}.

Definition run_api_step (fuel : nat) (renv : RunEnv) (run_mode : RunMode) (step : CompiledStep) (started_at : Z) : M step_flow :=
  let* op_ref := lift (ok_or (step_operation step) (no_operation step)) in
  let* schema := query (get_or_load (service op_ref)) in
  match schema with
  | Err error => fail_step step SchemaLoad started_at (Some (from_error error)) error
  | Ok schema =>
      run_with_schema fuel
        (mk_env (re_compiled renv) (re_options renv) (re_flags renv) (re_defaults renv) run_mode step started_at schema)
  end.

Definition run_step (fuel : nat) (renv : RunEnv) (run_mode : RunMode) (step : CompiledStep) : M step_flow :=
  let* started_at := gets (fun s => instant (world s)) in
  do emit (StepStarted (step_index step) (step_id step));
  do modify (set_facts (count_start (step_index step)));
  match step_kind step with
  | Local => run_local_step fuel (re_options renv) step started_at
  | Api => run_api_step fuel renv run_mode step started_at
  end.

(** ['step_loop]. *)
Fixpoint step_loop (fuel : nat) (renv : RunEnv) (run_mode : RunMode) (steps : list CompiledStep)
  : M (RunOutcome * option RuntimeError) :=
  match steps with
  | [] => ret (RunSuccess, None)
  | step :: steps =>
      let* flow := run_step fuel renv run_mode step in
      match flow with
      | Continue => step_loop fuel renv run_mode steps
      | Break outcome pending => ret (outcome, pending)
      end
  end.

(** * Non-interactive runs *)

Inductive NoInputViolation : Type :=
| MissingInput (name first_seen_at : string)
| ConfirmRequired (step : string)
| StepLocalGather (step field : string).

Definition violation_of (step : CompiledStep) (entry : WorkflowInputNeeded) : NoInputViolation :=
  match need_scope entry with
  | ScopeInput name => MissingInput name (step_id step)
  | ScopeLocal field_name => StepLocalGather (step_id step) field_name
  end.

(** The simulated supply after one entry: a missing input is reported once. *)
Definition simulate (sim : gmap string value) (entry : WorkflowInputNeeded) : gmap string value :=
  match need_scope entry with ScopeInput name => <[name := Null]> sim | ScopeLocal _ => sim end.

Fixpoint precheck_loop (compiled : CompiledWorkflow) (dry assume : bool) (steps : list CompiledStep)
    (sim : gmap string value) : list NoInputViolation :=
  match steps with
  | [] => []
  | step :: steps =>
      let needed := compute_needed_inputs step sim (wf_inputs compiled) in
      map (violation_of step) needed ++
      (if step_confirm step && negb dry && negb assume then [ConfirmRequired (step_id step)] else []) ++
      precheck_loop compiled dry assume steps (foldl simulate sim needed)
  end.

Definition no_input_precheck (compiled : CompiledWorkflow) (supplied : gmap string value) (dry assume : bool)
  : list NoInputViolation := precheck_loop compiled dry assume (wf_steps compiled) supplied.

Definition no_input_violation_code (v : NoInputViolation) : string :=
  match v with
  | MissingInput _ _ => "no_input.missing_input"
  | ConfirmRequired _ => "no_input.confirm_required"
  | StepLocalGather _ _ => "no_input.step_local_gather"
  end.

Definition violation_line (single_command : bool) (v : NoInputViolation) : string :=
  match v, single_command with
  | MissingInput name _, true => "input '" +:+ name +:+ "' is required"
  | ConfirmRequired _, true => "confirmation is required"
  | StepLocalGather _ field, true => "field '" +:+ field +:+ "' is unbound; cannot gather under --no-input"
  | MissingInput name first, false =>
      "workflow input '" +:+ name +:+ "' is required (first referenced by step '" +:+ first +:+ "')"
  | ConfirmRequired step, false => "step '" +:+ step +:+ "' requires confirmation; cannot run under --no-input"
  | StepLocalGather step field, false =>
      "step '" +:+ step +:+ "' field '" +:+ field +:+ "' is unbound; cannot gather under --no-input"
  end.

Definition MAX_LISTED : nat := 3.

Definition listed_lines (lines : list string) : list string :=
  if Nat.ltb (MAX_LISTED + 1) (length lines)
  then take MAX_LISTED lines ++ ["(+ " +:+ show_int (Z.of_nat (length lines - MAX_LISTED)) +:+ " more)"]
  else lines.

Definition newline : string := String (ascii_of_nat 10) EmptyString.

Definition no_input_violations_to_error (violations : list NoInputViolation) (single_command : bool) : RuntimeError :=
  let lines := listed_lines (map (violation_line single_command) violations) in
  mk_error Validation
    ((if single_command then "This command cannot run non-interactively:" else "Cannot run this workflow non-interactively:")
     +:+ newline +:+ "  " +:+ join (newline +:+ "  ") lines)
    (Some (mk_details (option_map no_input_violation_code (head violations))
      (Some "The run is non-interactive (--no-input, or stdin and stderr are not terminals).") None None None))
    (Some ("Pass the missing inputs as --<name> flags (use --yes to skip confirmations), or "
           +:+ "run interactively with stdin and stderr attached to a terminal.")) None.

Definition is_synthesised_single_command (id : string) : bool := starts_with "synth(" id.

(** * The order of the gather form *)

(** [usize::MAX]: never used. *)
Definition never : Z := usize_max.

Fixpoint first_use_from (i : Z) (steps : list CompiledStep) (name : string) : Z :=
  match steps with
  | [] => never
  | step :: steps => if bool_decide (name ∈ referenced_inputs step) then i else first_use_from (i + 1) steps name
  end.

Definition first_use (steps : list CompiledStep) (name : string) : Z := first_use_from 0 steps name.

(** The names a picker's parameters draw from. *)
Definition picker_dependencies (source : OptionsSource) : list string :=
  omap (fun kv => match kv.2 with OFromInput d | OFromInputOptional d => Some d | OLiteral _ => None end)
    (opt_parameters source).

Definition key_of (key : gmap string Z) (name : string) : Z := match key !! name with Some k => k | None => never end.

Definition pull_up (key : gmap string Z) (spec : WorkflowInputSpec) : gmap string Z :=
  match in_options spec with
  | None => key
  | Some source =>
      let picker_use := key_of key (in_name spec) in
      foldl (fun key dep => alter (fun k => Z.min k picker_use) dep key) key (picker_dependencies source)
  end.

Definition use_keys (inputs : list WorkflowInputSpec) (steps : list CompiledStep) : gmap string Z :=
  foldl pull_up (list_to_map (rev (map (fun spec => (in_name spec, first_use steps (in_name spec))) inputs))) inputs.

(** [sort_by_key]: stable. *)
Fixpoint insert_by (key : WorkflowInputSpec -> Z) (x : WorkflowInputSpec) (l : list WorkflowInputSpec)
  : list WorkflowInputSpec :=
  match l with
  | [] => [x]
  | y :: l' => if key x <=? key y then x :: l else y :: insert_by key x l'
  end.

Definition sort_by_key (key : WorkflowInputSpec -> Z) (l : list WorkflowInputSpec) : list WorkflowInputSpec :=
  foldr (insert_by key) [] l.

Definition order_inputs_by_first_use (inputs : list WorkflowInputSpec) (steps : list CompiledStep) : list WorkflowInputSpec :=
  let keys := use_keys inputs steps in
  sort_by_key (fun spec => key_of keys (in_name spec)) inputs.

Definition picker_names (spec : WorkflowInputSpec) : list string :=
  match in_options spec with
  | None => []
  | Some source =>
      picker_dependencies source ++
      match opt_label_detail source with Some (LabelByInput input _) => [input] | _ => [] end
  end.

Definition picker_support_input_names (inputs : list WorkflowInputSpec) (steps : list CompiledStep) : gset string :=
  list_to_set (concat (map picker_names inputs)) ∖ list_to_set (concat (map referenced_inputs steps)).

Definition with_fallback (spec : WorkflowInputSpec) : WorkflowInputSpec :=
  match (source ← in_options spec; opt_fallback_description source) with
  | Some fallback =>
      mk_input (in_name spec) (Some fallback) (in_schema spec) (in_required spec) (in_default spec) (in_sensitive spec)
        (in_options spec) (in_file_picker spec) (in_location spec)
  | None => spec
  end.

Definition gather_inputs_for_surface (inputs : list WorkflowInputSpec) (steps : list CompiledStep) (pickers : bool)
  : list WorkflowInputSpec :=
  let ordered := order_inputs_by_first_use inputs steps in
  if pickers then ordered
  else
    let support := picker_support_input_names inputs steps in
    map with_fallback (List.filter (fun spec => negb (bool_decide (in_name spec ∈ support))) ordered).

(** * The run *)

Definition build_final_output (compiled : CompiledWorkflow) (options : RunOptions) (s : RunState) : option CommandOutput :=
  let ctx := rs_ctx s in
  if dry_run options then
    match wf_steps compiled, dry_run_previews s with
    | [_], {| dp_action := DryRequest command |} :: _ => Some (OutDryRun command)
    | _, previews => Some (OutWorkflowDryRun (wf_id compiled) previews)
    end
  else
    match wf_steps compiled, wf_outputs compiled with
    | [], _ => None
    | [step], [] =>
        match binary_outputs ctx !! step_id step with
        | Some binary => Some (OutBinary binary)
        | None => option_map OutService (ctx_step_outputs ctx !! step_id step)
        end
    | _, aliases =>
        Some (OutWorkflow (wf_id compiled) (resolve_workflow_outputs aliases ctx) (step_summaries s)
          (resolve_completion (wf_completion compiled) (workflow_supplied s))
          (if existsb (fun a => bool_decide (is_Some (alias_section a)) || bool_decide (is_Some (alias_label a))) aliases
           then Some (resolve_workflow_output_view aliases ctx) else None))
    end.

(** Declared defaults for the names not supplied, and which names they filled. *)
Definition add_default (st : gmap string value * gset string) (spec : WorkflowInputSpec) : gmap string value * gset string :=
  match st.1 !! in_name spec, in_default spec with
  | None, Some d => (<[in_name spec := d]> st.1, {[in_name spec]} ∪ st.2)
  | _, _ => st
  end.

Definition seed_defaults (compiled : CompiledWorkflow) (pre_supplied : gmap string value) : gmap string value * gset string :=
  foldl add_default (pre_supplied, ∅) (wf_inputs compiled).

Definition set_reason (reason : StepOutcomeReason) (f : RunFacts) : RunFacts :=
  let '(mk_facts m r st su fa sk ca l d a b c e) := f in mk_facts m (Some reason) st su fa sk ca l d a b c e.
Definition set_mode (mode : RunMode) (f : RunFacts) : RunFacts :=
  let '(mk_facts m r st su fa sk ca l d a b c e) := f in mk_facts (Some mode) r st su fa sk ca l d a b c e.
Definition set_duration (ms : Z) (f : RunFacts) : RunFacts :=
  let '(mk_facts m r st su fa sk ca l d a b c e) := f in mk_facts m r st su fa sk ca l ms a b c e.

(** The provenance counts of one declared input. *)
Definition count_provenance (flags defaults : gset string) (before after : gmap string value) (f : RunFacts)
    (spec : WorkflowInputSpec) : RunFacts :=
  let '(mk_facts m r st su fa sk ca l d a b c e) := f in
  match after !! in_name spec with
  | None => f
  | Some current =>
      let e := if bool_decide (before !! in_name spec = Some current) then e else S e in
      if bool_decide (in_name spec ∈ flags) then mk_facts m r st su fa sk ca l d (S a) b c e
      else if bool_decide (in_name spec ∈ defaults) then mk_facts m r st su fa sk ca l d a b (S c) e
      else mk_facts m r st su fa sk ca l d a (S b) c e
  end.

Definition outcome_state : Type := RunOutcome * option RuntimeError.

(** Phase 0.5. *)
Definition briefing_phase (compiled : CompiledWorkflow) (options : RunOptions) : M outcome_state :=
  match wf_briefing compiled with
  | Some briefing =>
      if assume_yes options then ret (RunSuccess, None)
      else
        let* answer := ask (fun _ => OBriefing) (present_briefing briefing (wf_name compiled)) in
        match answer with
        | Ok true => ret (RunSuccess, None)
        | Ok false => do modify (set_facts (set_reason AtBriefing)); ret (RunCancelled, None)
        | Err error => ret (RunFailed, Some error)
        end
  | None => ret (RunSuccess, None)
  end.

(** Phase 1: the run-start form replaces the declared inputs. *)
Definition collect_phase (compiled : CompiledWorkflow) (options : RunOptions) : M (outcome_state * RunMode) :=
  let ordered := gather_inputs_for_surface (wf_inputs compiled) (wf_steps compiled) (pickers_available options) in
  let* supplied := gets workflow_supplied in
  let* answer := ask (fun _ => OCollect) (collect_workflow_inputs ordered supplied) in
  match answer with
  | Ok (Some collected) =>
      do modify (set_supplied (col_inputs collected ∪ foldl (fun m spec => delete (in_name spec) m) supplied (wf_inputs compiled)));
      do modify (set_facts (set_mode (col_run_mode collected)));
      ret ((RunSuccess, None), col_run_mode collected)
  | Ok None => do modify (set_facts (set_reason AtInputGather)); ret ((RunCancelled, None), ReviewInputSteps)
  | Err error => ret ((RunFailed, Some error), ReviewInputSteps)
  end.

Definition is_success (o : RunOutcome) : bool := match o with RunSuccess => true | _ => false end.

(** Phases 1 to 3, after the briefing. *)
Definition run_body (fuel : nat) (renv : RunEnv) (before : gmap string value) : M outcome_state :=
  let compiled := re_compiled renv in
  let options := re_options renv in
  let* briefed := briefing_phase compiled options in
  let* collected := (if is_success briefed.1 && review_steps options then collect_phase compiled options
                     else ret (briefed, ReviewInputSteps)) in
  let* after := gets workflow_supplied in
  do modify (set_facts (fun f => foldl (count_provenance (re_flags renv) (re_defaults renv) before after) f (wf_inputs compiled)));
  if is_success collected.1.1 then step_loop fuel renv collected.2 (wf_steps compiled)
  else ret collected.1.

(** Finalisation. *)
Definition finish_run (compiled : CompiledWorkflow) (options : RunOptions) (run_started_at : Z) (o : outcome_state)
  : M (RunOutcome * option CommandOutput * option RuntimeError) :=
  let* final_output := gets (fun s => if is_success o.1 then build_final_output compiled options s else None) in
  let* ms := step_duration_ms run_started_at in
  do modify (set_facts (set_duration ms));
  let* facts := gets run_facts in
  do emit (WorkflowFinished o.1 facts);
  ret (o.1, final_output, o.2).

(** [Executor::execute], from a world. *)
Definition start_state (w : World) (supplied : gmap string value) : RunState :=
  mk_run w [] WorkflowContext_new supplied [] [] RunFacts_default.

Definition execute (fuel : nat) (compiled : CompiledWorkflow) (pre_supplied : gmap string value) (options : RunOptions)
    (w : World) : exec (RunOutcome * option CommandOutput * option RuntimeError) * RunState :=
  let '(supplied, defaults) := seed_defaults compiled pre_supplied in
  let renv := mk_run_env compiled options (dom pre_supplied) defaults in
  let violations := if no_input options then no_input_precheck compiled supplied (dry_run options) (assume_yes options) else [] in
  match violations with
  | _ :: _ =>
      (Throw (no_input_violations_to_error violations (is_synthesised_single_command (wf_id compiled))), start_state w supplied)
  | [] =>
      (do emit (WorkflowStarted compiled);
       let* o := run_body fuel renv supplied in
       finish_run compiled options (instant w) o) (start_state w supplied)
  end.
End executor.
