(* ===== verification/CompileProps.v ===== *)
(** What the compiler promises the executor: the shape of every workflow it
    accepts. *)

From stdpp Require Import base gmap strings list.
From Stdlib Require Import ZArith Lia Ascii.
From S2P Require Import Prelude Text Json Catalogue Paths Results Workflow AutoDerive Bindings Compile Executor.

(** * The contract *)

Definition local_step_ok (step : CompiledStep) : Prop :=
  (exists action, step_action step = Some action /\ is_Some (lookup_action action)) /\
  step_operation step = None /\ step_confirm step = false /\ is_optional step = false /\
  continue_on_failure step = false /\ skip_if_exists step = false.

Definition kind_ok (step : CompiledStep) : Prop :=
  match step_kind step with
  | Api => is_Some (step_operation step) /\ step_action step = None
  | Local => local_step_ok step
  end.

(** Where a reference to a step may point: a declared output of an earlier step. *)
Definition reference_ok (c : CompiledWorkflow) (i : nat) (id : string) (output : option string) : Prop :=
  exists j earlier cap, (j < i)%nat /\ wf_steps c !! j = Some earlier /\ step_id earlier = id /\
    cap ∈ step_outputs earlier /\ output = Some (cap_name cap).

(** What the source of a binding of step [i] may be. *)
Definition source_ok (c : CompiledWorkflow) (i : nat) (step : CompiledStep) (b : StepInputBinding) : Prop :=
  match bind_source b with
  | BLiteral _ sensitive => sensitive = false
  | BReference r =>
      match ref_from r with
      | FromStep id => reference_ok c i id (ref_output r)
      | FromWorkflow name => name ∈ map in_name (wf_inputs c) /\ ref_output r = None
      end
  | BFormat template =>
      exists names, format_placeholders template = Ok names /\ forall n, n ∈ names -> n ∈ map in_name (wf_inputs c)
  | BMirror target =>
      target <> bind_field b /\ bind_show_in_review b = false /\
      exists source, bindings_by_field step !! target = Some source /\ (forall m, source <> BMirror m)
  end.

(** The operation of an API step is in the catalogue, and each field it requires is
    bound or derived. *)
Definition covered (catalogue : Catalogue) (step : CompiledStep) : Prop :=
  exists op_ref schema op, step_operation step = Some op_ref /\ catalogue (service op_ref) = Ok schema /\
    find_operation schema (operation op_ref) = Some op /\
    forall n, n ∈ required_names op -> n ∈ bound_fields (step_inputs step) \/ n ∈ map auto_field (auto_derived step).

(** The leaves the bindings of a step write. *)
Definition leaves (inputs : list StepInputBinding) : list string := concat (map binding_claimed_leaves inputs).

Record well_compiled (catalogue : Catalogue) (c : CompiledWorkflow) : Prop := {
  wc_ids : NoDup (map step_id (wf_steps c));
  wc_index : forall i step, wf_steps c !! i = Some step -> step_index step = i;
  wc_kind : forall step, step ∈ wf_steps c -> kind_ok step;
  wc_skippable : forall step, step ∈ wf_steps c ->
    is_optional step = true \/ continue_on_failure step = true \/ skip_if_exists step = true -> is_safely_skippable step = true;
  wc_sources : forall i step b, wf_steps c !! i = Some step -> b ∈ step_inputs step -> source_ok c i step b;
  wc_covered : forall step, step ∈ wf_steps c -> step_kind step = Api -> covered catalogue step;
  wc_leaves : forall step, step ∈ wf_steps c -> NoDup (leaves (step_inputs step));
  wc_schemas : forall input, input ∈ wf_inputs c -> is_Some (in_schema input)
}.

(** A picker: a string-typed input, whose options come from a [GET] operation of the
    catalogue; its parameters exist there and read declared inputs. *)
Definition picker_ok (catalogue : Catalogue) (c : CompiledWorkflow) (input : WorkflowInputSpec) (source : OptionsSource) : Prop :=
  is_string_schema (in_schema input) = true /\
  (exists schema op, catalogue (service (opt_operation source)) = Ok schema /\
     find_operation schema (operation (opt_operation source)) = Some op /\ http_method op = Get /\
     forall p, p ∈ opt_parameters source -> is_Some (operation_field_schema op p.1)) /\
  is_simple_items_path (opt_items_path source) = true /\
  (forall name, name ∈ picker_dependencies source -> name ∈ map in_name (wf_inputs c)).

(** * The rules *)

Lemma bind_Ok {A B E} (r : result A E) (k : A -> result B E) y :
  result_bind r k = Ok y <-> exists x, r = Ok x /\ k x = Ok y.
Proof. destruct r; simpl; naive_solver. Qed.

Lemma ok_or_Ok {A E} (o : option A) (e : E) x : ok_or o e = Ok x <-> o = Some x.
Proof. destruct o; simpl; naive_solver. Qed.

Lemma if_Ok {E} (b : bool) (e : E) : (if b then Ok tt else Err e) = Ok tt <-> b = true.
Proof. destruct b; naive_solver. Qed.

Lemma for_each_binding_Ok f d : for_each_binding f d = Ok tt <->
  forall step b, step ∈ wd_steps d -> b ∈ sd_inputs step -> f step b = Ok tt.
Proof.
  unfold for_each_binding. rewrite for_each_Ok. setoid_rewrite for_each_Ok. naive_solver.
Qed.

Lemma unique_loop_Ok d steps seen : unique_loop d steps seen = Ok tt ->
  NoDup (map sd_id steps) /\ forall id, id ∈ map sd_id steps -> id ∉ seen.
Proof.
  revert seen. induction steps as [|step steps IH]; intros seen; simpl.
  - intros _. split; [constructor|]. intros id Hid. by apply not_elem_of_nil in Hid.
  - case_bool_decide as Hin; [done|]. intros Hu. destruct (IH _ Hu) as [Hnd Hfresh]. split.
    + apply NoDup_cons. split; [|done]. intros Hm. apply (Hfresh _ Hm). set_solver.
    + intros id [->|Hid]%elem_of_cons; [done|]. specialize (Hfresh id Hid). set_solver.
Qed.

Lemma positions_Some d id j : positions d !! id = Some j -> exists sd, wd_steps d !! j = Some sd /\ sd_id sd = id.
Proof.
  unfold positions. intros Hl. apply elem_of_list_to_map_2 in Hl.
  apply list_elem_of_In, in_rev, in_map_iff in Hl as ([k sd] & Heq & Hin). simpl in Heq. injection Heq as <- <-.
  exists sd. split; [|done]. by apply enumerate_elem, list_elem_of_In.
Qed.

Lemma outputs_Some d id outs : outputs_by_step d !! id = Some outs ->
  exists sd, sd ∈ wd_steps d /\ sd_id sd = id /\ outs = list_to_set (map cap_name (sd_outputs sd)).
Proof.
  unfold outputs_by_step. intros Hl. apply elem_of_list_to_map_2 in Hl.
  apply list_elem_of_In, in_rev, in_map_iff in Hl as (sd & Heq & Hin). injection Heq as <- <-.
  exists sd. split; [by apply list_elem_of_In|done].
Qed.

Lemma claim_loop_Ok step claims claimed : claim_loop step claims claimed = Ok tt ->
  NoDup (map fst claims) /\ forall leaf, leaf ∈ map fst claims -> claimed !! leaf = None.
Proof.
  revert claimed. induction claims as [|[leaf field] claims IH]; intros claimed; simpl.
  - intros _. split; [constructor|]. intros leaf Hl. by apply not_elem_of_nil in Hl.
  - destruct (claimed !! leaf) eqn:El; [done|]. intros Hc. destruct (IH _ Hc) as [Hnd Hfree]. split.
    + apply NoDup_cons. split; [|done]. intros Hm. specialize (Hfree leaf Hm). by rewrite lookup_insert_eq in Hfree.
    + intros leaf' [->|Hl]%elem_of_cons; [done|]. specialize (Hfree leaf' Hl). by apply lookup_insert_None in Hfree as [? _].
Qed.

Lemma step_claims_leaves step : map fst (step_claims step) = leaves (sd_inputs step).
Proof.
  unfold step_claims, leaves. rewrite concat_map, map_map. f_equal. apply map_ext. intros b.
  rewrite map_map. apply map_id.
Qed.

Lemma resolve_input_schema_Ok catalogue d input input' : resolve_input_schema catalogue d input = Ok input' ->
  in_name input' = in_name input /\ is_Some (in_schema input').
Proof.
  unfold resolve_input_schema. destruct (in_schema input) eqn:Es; [intros [= <-]; rewrite Es; by split|].
  intros (cs & _ & Hx)%bind_Ok. apply bind_Ok in Hx as (r & _ & Hx).
  destruct r; [injection Hx as <-; by split|]. destruct (in_default input); [injection Hx as <-; by split|].
  apply bind_Ok in Hx as (by_format & _ & Hx). destruct by_format; [injection Hx as <-; by split|done].
Qed.

(** * From definition to compiled workflow *)

Section compiled.
Context (d : WorkflowDefinition) (catalogue : Catalogue) (c : CompiledWorkflow).
Context (Hc : compile_workflow d catalogue = Ok c).

(** Step [i] of the result is what [compile_step] made of step [i]. *)
Record compiled_from : Prop := {
  cf_valid : validate_definition d = Ok tt;
  cf_inputs : resolve_input_schemas catalogue d = Ok (wf_inputs c);
  cf_options : validate_options_sources catalogue d (wf_inputs c) = Ok tt;
  cf_paths : validate_nested_paths catalogue d = Ok tt;
  cf_leaves : validate_leaf_collisions d = Ok tt;
  cf_steps : Forall2 (fun e step => compile_step catalogue (wf_inputs c) e = Ok step) (enumerate (wd_steps d)) (wf_steps c)
}.

Lemma compile_inv : compiled_from.
Proof.
  unfold compile_workflow in Hc.
  apply bind_Ok in Hc as ([] & Hv & H1). apply bind_Ok in H1 as (inputs & Hi & H1).
  apply bind_Ok in H1 as ([] & Ho & H1). apply bind_Ok in H1 as ([] & Hf & H1).
  apply bind_Ok in H1 as ([] & Hn & H1). apply bind_Ok in H1 as ([] & Hl & H1).
  apply bind_Ok in H1 as (steps & Hs & H1). injection H1 as H1.
  constructor; rewrite <- ?H1; simpl; try done. by apply result_map_Ok.
Qed.

Record same_step (i : nat) (sd : StepDefinition) (step : CompiledStep) : Prop := {
  ss_id : step_id step = sd_id sd;
  ss_index : step_index step = i;
  ss_kind : step_kind step = sd_kind sd;
  ss_action : step_action step = sd_action sd;
  ss_operation : step_operation step = sd_operation sd;
  ss_flags : step_confirm step = sd_confirm sd /\ is_optional step = sd_optional sd /\
    continue_on_failure step = sd_continue_on_failure sd /\ skip_if_exists step = sd_skip_if_exists sd;
  ss_inputs : step_inputs step = sd_inputs sd;
  ss_outputs : step_outputs step = sd_outputs sd;
  ss_derive : exists derived, derive_step catalogue (wf_inputs c) sd = Ok derived /\ auto_derived step = derived
}.

Lemma compile_step_same i sd step : compile_step catalogue (wf_inputs c) (i, sd) = Ok step -> same_step i sd step.
Proof.
  unfold compile_step. intros (derived & Hd & [= <-])%bind_Ok. constructor; simpl; try done. by exists derived.
Qed.

Lemma step_at i step : wf_steps c !! i = Some step -> exists sd, wd_steps d !! i = Some sd /\ same_step i sd step.
Proof.
  intros Hs. destruct compile_inv. destruct (Forall2_lookup_r _ _ _ _ _ cf_steps0 Hs) as ([k sd] & He & Hstep).
  unfold enumerate in He. rewrite list_lookup_imap in He. destruct (wd_steps d !! i) as [sd'|] eqn:El; [|done].
  simpl in He. injection He as <- <-. exists sd'. split; [done|]. by apply compile_step_same.
Qed.

Lemma step_of i sd : wd_steps d !! i = Some sd -> exists step, wf_steps c !! i = Some step /\ same_step i sd step.
Proof.
  intros Hs. destruct compile_inv.
  assert (He : enumerate (wd_steps d) !! i = Some (i, sd)) by (unfold enumerate; by rewrite list_lookup_imap, Hs).
  destruct (Forall2_lookup_l _ _ _ _ _ cf_steps0 He) as (step & Hstep & Hcs).
  exists step. split; [done|]. by apply compile_step_same.
Qed.

Lemma step_elem step : step ∈ wf_steps c -> exists i sd, sd ∈ wd_steps d /\ same_step i sd step.
Proof.
  intros [i Hi]%list_elem_of_lookup. destruct (step_at i step Hi) as (sd & Hsd & Hsame). exists i, sd.
  split; [|done]. by eapply list_elem_of_lookup_2.
Qed.

Lemma ids_same : map step_id (wf_steps c) = map sd_id (wd_steps d).
Proof.
  apply list_eq. intros i. change map with (@fmap list _). rewrite !list_lookup_fmap.
  destruct (wf_steps c !! i) as [step|] eqn:Es.
  - destruct (step_at i step Es) as (sd & -> & Hsame). simpl. by rewrite (ss_id _ _ _ Hsame).
  - destruct (wd_steps d !! i) as [sd|] eqn:Ed; [|done]. destruct (step_of i sd Ed) as (step & ? & _). congruence.
Qed.

Lemma input_names_same : map in_name (wf_inputs c) = map in_name (wd_inputs d).
Proof.
  destruct compile_inv as [_ Hi _ _ _ _]. unfold resolve_input_schemas in Hi. apply result_map_Ok in Hi.
  induction Hi as [|x y l l' Hx _ IH]; [done|]. simpl. rewrite IH. f_equal. by destruct (resolve_input_schema_Ok _ _ _ _ Hx).
Qed.

Lemma declared_iff n : n ∈ declared_inputs d <-> n ∈ map in_name (wf_inputs c).
Proof. unfold declared_inputs. by rewrite elem_of_list_to_set, input_names_same. Qed.

(** ** The promises *)

Lemma valid_rules : validate_definition d = Ok tt ->
  validate_unique_step_ids d = Ok tt /\ validate_step_kinds d = Ok tt /\ validate_step_output_references d = Ok tt /\
  validate_workflow_references d = Ok tt /\ validate_format_bindings d = Ok tt /\ validate_mirror_bindings d = Ok tt /\
  validate_no_sensitive d = Ok tt /\ validate_skippable_outputs_have_defaults d = Ok tt.
Proof.
  unfold validate_definition. intros H.
  repeat (apply bind_Ok in H as ([] & ? & H)). done.
Qed.

Lemma ids_distinct : NoDup (map step_id (wf_steps c)).
Proof.
  rewrite ids_same. destruct (valid_rules (cf_valid compile_inv)) as (Hu & _). by apply unique_loop_Ok in Hu as [? _].
Qed.

Lemma kinds_ok step : step ∈ wf_steps c -> kind_ok step.
Proof.
  intros Hin. destruct (step_elem step Hin) as (i & sd & Hsd & []). destruct (valid_rules (cf_valid compile_inv)) as (_ & Hk & _).
  assert (Hck : check_step_kind sd = Ok tt) by (unfold validate_step_kinds in Hk; rewrite for_each_Ok in Hk; by apply Hk).
  unfold kind_ok, local_step_ok. rewrite ss_kind0, ss_operation0, ss_action0. unfold check_step_kind in Hck.
  destruct ss_flags0 as (-> & -> & -> & ->). destruct ss_derive0 as (derived & Hd & _). unfold derive_step in Hd.
  destruct (sd_kind sd).
  - destruct (sd_operation sd), (sd_action sd); done.
  - destruct (sd_action sd) as [a|]; [|done]. destruct (sd_operation sd); [done|].
    simpl in Hd. apply bind_Ok in Hd as (declared & Hl%ok_or_Ok & _).
    rewrite for_each_Ok in Hck.
    assert (Hflag : forall flag, flag ∈ local_flags sd -> flag.2 = false).
    { intros flag Hf. specialize (Hck flag Hf). unfold check_local_flag in Hck. by destruct flag.2. }
    unfold local_flags in Hflag.
    split_and!; [exists a; split; [done|by eexists]|done|..].
    + apply (Hflag ("confirm", _)). set_solver.
    + apply (Hflag ("is_optional", _)). set_solver.
    + apply (Hflag ("continue_on_failure", _)). set_solver.
    + apply (Hflag ("skip_if_exists", _)). set_solver.
Qed.

Lemma skippable_ok step : step ∈ wf_steps c ->
  is_optional step = true \/ continue_on_failure step = true \/ skip_if_exists step = true -> is_safely_skippable step = true.
Proof.
  intros Hin Hflags. destruct (step_elem step Hin) as (i & sd & Hsd & []).
  destruct (valid_rules (cf_valid compile_inv)) as (_ & _ & _ & _ & _ & _ & _ & Hs).
  unfold validate_skippable_outputs_have_defaults in Hs. rewrite for_each_Ok in Hs. specialize (Hs sd Hsd).
  destruct ss_flags0 as (_ & Ho & Hcf & Hse). rewrite Ho, Hcf, Hse in Hflags. unfold check_skippable in Hs.
  unfold is_safely_skippable. rewrite ss_outputs0.
  destruct (sd_optional sd || sd_continue_on_failure sd || sd_skip_if_exists sd) eqn:Eb.
  - rewrite for_each_Ok in Hs. apply forallb_forall. intros out Ho'. specialize (Hs out). rewrite list_elem_of_In in Hs.
    specialize (Hs Ho'). destruct (cap_default out); [|done]. apply bool_decide_eq_true. by eexists.
  - apply orb_false_iff in Eb as [[E1 E2]%orb_false_iff E3]. rewrite E1, E2, E3 in Hflags. naive_solver.
Qed.

Lemma reference_to_step i sd b r id :
  wd_steps d !! i = Some sd -> b ∈ sd_inputs sd -> bind_source b = BReference r -> ref_from r = FromStep id ->
  reference_ok c i id (ref_output r).
Proof.
  intros Hi Hb Hr Hf. destruct (valid_rules (cf_valid compile_inv)) as (Hu & _ & Ho & _).
  unfold validate_step_output_references in Ho. rewrite for_each_Ok in Ho.
  specialize (Ho (i, sd) (proj2 (enumerate_elem _ _ _) Hi)). rewrite for_each_Ok in Ho. specialize (Ho b Hb).
  unfold check_output_reference in Ho. rewrite Hr, Hf in Ho. unfold check_step_reference in Ho. simpl in Ho.
  destruct (positions d !! id) as [j|] eqn:Ej; [|done]. destruct (Nat.leb_spec i j) as [|Hlt]; [done|].
  destruct (ref_output r) as [name|]; [|done]. case_bool_decide as Hname; [|done].
  destruct (positions_Some d id j Ej) as (earlier & Hej & Hid).
  destruct (outputs_by_step d !! id) as [outs|] eqn:Eo; [|exfalso; simpl in Hname; set_solver].
  destruct (outputs_Some d id outs Eo) as (sd' & Hsd' & Hid' & ->). simpl in Hname.
  assert (sd' = earlier) as ->.
  { apply unique_loop_Ok in Hu as [Hnd _]. apply list_elem_of_lookup in Hsd' as [k Hk].
    assert (k = j) as ->; [|congruence]. eapply (NoDup_lookup _ k j (sd_id earlier) Hnd); change map with (@fmap list _);
      rewrite list_lookup_fmap; [rewrite Hk|rewrite Hej]; simpl; congruence. }
  apply elem_of_list_to_set, list_elem_of_fmap in Hname as (cap & -> & Hcap).
  destruct (step_of j earlier Hej) as (step & Hstep & Hsame). exists j, step, cap.
  split_and!; [done|done|by rewrite (ss_id _ _ _ Hsame)|by rewrite (ss_outputs _ _ _ Hsame)|done].
Qed.

Lemma sources_ok i step b : wf_steps c !! i = Some step -> b ∈ step_inputs step -> source_ok c i step b.
Proof.
  intros Hi Hb. destruct (step_at i step Hi) as (sd & Hsd & Hsame). rewrite (ss_inputs _ _ _ Hsame) in Hb.
  assert (Hin : sd ∈ wd_steps d) by (by eapply list_elem_of_lookup_2).
  destruct (valid_rules (cf_valid compile_inv)) as (_ & _ & _ & Hw & Hf & Hm & Hse & _). unfold source_ok.
  destruct (bind_source b) as [v s|r|template|target] eqn:Eb.
  - unfold validate_no_sensitive in Hse. destruct (has_sensitive d) eqn:Eh; [done|]. unfold has_sensitive in Eh.
    apply orb_false_iff in Eh as [_ Eh]. destruct s; [|done]. rewrite <- Eh. symmetry. apply existsb_exists.
    exists sd. split; [by apply list_elem_of_In|]. apply orb_true_iff. right. apply existsb_exists. exists b.
    split; [by apply list_elem_of_In|]. unfold sensitive_binding. by rewrite Eb.
  - destruct (ref_from r) as [name|id] eqn:Er; [|by eapply reference_to_step].
    unfold validate_workflow_references in Hw. rewrite for_each_binding_Ok in Hw. specialize (Hw sd b Hin Hb).
    unfold check_workflow_reference in Hw. rewrite Eb, Er in Hw.
    case_bool_decide as Hd; [|done]. simpl in Hw. split; [by apply declared_iff|]. by destruct (ref_output r).
  - unfold validate_format_bindings in Hf. rewrite for_each_binding_Ok in Hf. specialize (Hf sd b Hin Hb).
    unfold check_format in Hf. rewrite Eb in Hf. apply bind_Ok in Hf as (names & Hn & Hf). exists names. split; [done|].
    intros n Hnames. rewrite for_each_Ok in Hf. specialize (Hf n Hnames). case_bool_decide as Hd; [|done]. by apply declared_iff.
  - unfold validate_mirror_bindings in Hm. rewrite for_each_binding_Ok in Hm. specialize (Hm sd b Hin Hb).
    unfold check_mirror in Hm. rewrite Eb in Hm. destruct (String.eqb_spec target (bind_field b)) as [|Hne]; [done|].
    destruct (bind_show_in_review b); [done|]. unfold bindings_by_field. rewrite (ss_inputs _ _ _ Hsame).
    change (list_to_map _) with (sources_by_field (sd_inputs sd)).
    split_and!; [done|done|]. destruct (sources_by_field (sd_inputs sd) !! target) as [source|].
    + exists source. split; [done|]. intros m ->. done.
    + by destruct (List.find _ _).
Qed.
Lemma steps_covered step : step ∈ wf_steps c -> step_kind step = Api -> covered catalogue step.
Proof.
  intros Hin Hk. destruct (step_elem step Hin) as (i & sd & Hsd & []). destruct ss_derive0 as (derived & Hd & Hder).
  unfold derive_step in Hd. rewrite <- ss_kind0, Hk in Hd. apply bind_Ok in Hd as (op_ref & Ho%ok_or_Ok & Hd).
  apply bind_Ok in Hd as (schema & Hs & Hd). unfold auto_derive_step, find_operation_or_error in Hd.
  rewrite Ho in Hd. simpl in Hd. apply bind_Ok in Hd as (op & Hop%ok_or_Ok & [= Hf]).
  exists op_ref, schema, op. rewrite ss_operation0, ss_inputs0, Hder, <- Hf. split_and!; [done..|].
  intros n Hn. rewrite derived_names, list_elem_of_In, filter_In, <- list_elem_of_In, negb_true_iff, bool_decide_eq_false.
  destruct (decide (n ∈ bound_fields (sd_inputs sd))); auto.
Qed.

Lemma leaves_distinct step : step ∈ wf_steps c -> NoDup (leaves (step_inputs step)).
Proof.
  intros Hin. destruct (step_elem step Hin) as (i & sd & Hsd & []). pose proof (cf_leaves compile_inv) as Hl.
  unfold validate_leaf_collisions in Hl. rewrite for_each_Ok in Hl. specialize (Hl sd Hsd).
  apply claim_loop_Ok in Hl as [Hnd _]. by rewrite step_claims_leaves, <- ss_inputs0 in Hnd.
Qed.

Lemma schemas_resolved input : input ∈ wf_inputs c -> is_Some (in_schema input).
Proof.
  intros [i Hi]%list_elem_of_lookup. pose proof (cf_inputs compile_inv) as Hr.
  unfold resolve_input_schemas in Hr. apply result_map_Ok in Hr.
  destruct (Forall2_lookup_r _ _ _ _ _ Hr Hi) as (x & _ & Hx). by apply resolve_input_schema_Ok in Hx as [_ ?].
Qed.

Lemma pickers_checked input source : input ∈ wf_inputs c -> in_options input = Some source -> picker_ok catalogue c input source.
Proof.
  intros Hin Hsrc. pose proof (cf_options compile_inv) as Ho. unfold validate_options_sources in Ho.
  rewrite for_each_Ok in Ho. specialize (Ho input Hin). unfold check_options_source in Ho. rewrite Hsrc in Ho.
  destruct (is_string_schema (in_schema input)) eqn:Es; [|done]. cbn [negb] in Ho.
  apply bind_Ok in Ho as (schema & Hs & Ho). apply bind_Ok in Ho as (op & Hop & Ho).
  unfold find_operation_or_error in Hop. apply ok_or_Ok in Hop. case_bool_decide as Hget; [|done]. cbn [negb] in Ho.
  apply bind_Ok in Ho as ([] & Hparams & Ho). do 4 (apply bind_Ok in Ho as ([] & _ & Ho)).
  split_and!; [done| |by destruct (is_simple_items_path _)|].
  - exists schema, op. split_and!; [done..|]. intros p Hp. rewrite for_each_Ok in Hparams. specialize (Hparams p Hp).
    apply bind_Ok in Hparams as (f & Hf%ok_or_Ok & _). by eexists.
  - intros name Hname. unfold picker_dependencies in Hname. apply list_elem_of_omap in Hname as (p & Hp & Hname).
    rewrite for_each_Ok in Hparams. specialize (Hparams p Hp). apply bind_Ok in Hparams as (f & _ & Hparams).
    apply declared_iff. destruct p.2; [..|done]; injection Hname as ->; by case_bool_decide.
Qed.
End compiled.

Lemma compile_sound_rules d catalogue c : compile_workflow d catalogue = Ok c -> well_compiled catalogue c.
Proof.
  intros Hc. constructor.
  - by eapply ids_distinct.
  - intros i step Hi. destruct (step_at d catalogue c Hc i step Hi) as (sd & _ & Hsame). by destruct Hsame.
  - by eapply kinds_ok.
  - by eapply skippable_ok.
  - by eapply sources_ok.
  - by eapply steps_covered.
  - by eapply leaves_distinct.
  - by eapply schemas_resolved.
Qed.

(** [C4] Every workflow the compiler accepts is well-formed: step ids are distinct and
    indices are positions; an API step has an operation of the catalogue, all of whose
    required fields are bound or derived; a local step has a known action and none of
    the flags it does not support; a step that may be skipped has a default for each
    output; each binding's source makes sense (references reach declared outputs of
    earlier steps or declared inputs, templates parse and use declared inputs, mirrors
    copy a field of the same step that is not a mirror, no literal is sensitive); no
    two bindings of a step write the same leaf; and every input has a schema. *)
Theorem compile_sound d catalogue c : compile_workflow d catalogue = Ok c -> well_compiled catalogue c.
Proof. apply compile_sound_rules. Qed.

(** Fetching the options of a picker never runs a mutating operation: every picker
    of a compiled workflow lists a [GET] operation of the catalogue, with parameters
    that operation has, and depends on declared inputs only; it is string-typed, and
    its items lie at the root or one segment below. *)
Theorem pickers_read_only d catalogue c input source :
  compile_workflow d catalogue = Ok c -> input ∈ wf_inputs c -> in_options input = Some source ->
  picker_ok catalogue c input source.
Proof. intros Hc. by eapply pickers_checked. Qed.

(** * An example *)

Definition list_operation : OperationSchema :=
  mk_operation "ListRegions" "list" EmptyString None ReadOnly Get "/regions" [mk_parameter "namespace" InQuery false VString false None None]
    None None [] "admin" 1 false None.

Definition region_service : ServiceSchema :=
  mk_service "regions" EmptyString [mk_resource "regions" EmptyString
    [mk_method "list" EmptyString (Some "admin") [mk_scope "admin" 1 [list_operation]]]].

Definition example_catalogue : Catalogue := fun name =>
  if String.eqb name "iam" then Ok sample_service
  else if String.eqb name "regions" then Ok region_service
  else Err (internal ("unknown service " +:+ name)).

Definition example_source : OptionsSource :=
  mk_options (mk_op_ref "regions" "ListRegions") [("namespace", OFromInput "namespace")] "$.data" "$.name" None None None None.

Definition example_region : WorkflowInputSpec :=
  mk_input "region" None (Some (typed "string")) true None false (Some example_source) None LBody.

Definition example_create : StepDefinition :=
  mk_step_definition "create" None Api None (Some (mk_op_ref "iam" "CreateUser")) [] true false false true None
    [mk_binding "address.city" (BReference (mk_reference (FromWorkflow "region") None None)) true None;
     mk_binding "email" (BFormat "{user}@example.com") true None;
     mk_binding "note" (BMirror "email") false None]
    [mk_capture "userId" "$.id" (Some (Str "unknown")) false].

Definition example_login : StepDefinition :=
  mk_step_definition "login" None Local (Some "docker-login") None ["create"] false false false false None
    [mk_binding "registry" (BLiteral (Str "registry.example.com") false) true None;
     mk_binding "username" (BReference (mk_reference (FromStep "create") (Some "userId") None)) true None;
     mk_binding "password" (BReference (mk_reference (FromWorkflow "user") None None)) true None] [].

Definition example_definition : WorkflowDefinition :=
  mk_definition "onboard" "Onboard" None None None None
    [mk_input "user" None None true None false None None LBody;
     mk_input "namespace" None None true None false None None LBody; example_region]
    false [example_create; example_login] [] None.

(** What it compiles to. *)
Definition example_compiled : CompiledWorkflow :=
  match compile_workflow example_definition example_catalogue with
  | Ok c => c
  | Err _ => mk_workflow EmptyString EmptyString None None None [] false [] [] None
  end.

Lemma compile_sound_witness :
  compile_workflow example_definition example_catalogue = Ok example_compiled /\
  well_compiled example_catalogue example_compiled.
Proof.
  assert (Hc : compile_workflow example_definition example_catalogue = Ok example_compiled) by (vm_compute; reflexivity).
  split; [exact Hc|]. exact (compile_sound _ _ _ Hc).
Defined.

Lemma pickers_read_only_witness :
  map step_id (wf_steps example_compiled) = ["create"; "login"] /\
  picker_ok example_catalogue example_compiled example_region example_source.
Proof.
  split; [vm_compute; reflexivity|].
  apply (pickers_read_only example_definition example_catalogue); [vm_compute; reflexivity| |reflexivity].
  apply list_elem_of_In. vm_compute. right. right. left. reflexivity.
Defined.

(** The derived field of the first step, and three definitions the rules refuse. *)
Example example_derived :
  map (fun step => map auto_field (auto_derived step)) (wf_steps example_compiled) = [["namespace"]; []].
Proof. vm_compute. reflexivity. Qed.

Definition example_with (steps : list StepDefinition) : WorkflowDefinition :=
  mk_definition "onboard" "Onboard" None None None None (wd_inputs example_definition) false steps [] None.

Example refused_order :
  compile_workflow (example_with [example_login; example_create]) example_catalogue =
  Err (internal "step 'login' depends on 'create' which is not declared earlier").
Proof. vm_compute. reflexivity. Qed.

Example refused_duplicate :
  compile_workflow (example_with [example_create; example_create]) example_catalogue =
  Err (internal "workflow 'onboard' has duplicate step id 'create'").
Proof. vm_compute. reflexivity. Qed.
