(* ===== verification/Sample.v ===== *)
(** A scripted world and a two-step workflow, for the examples of the executor's
    theorems: the answers of the dispatches and of the failure gate are lists, and
    every prompt is accepted. *)

From stdpp Require Import base gmap strings list.
From Stdlib Require Import ZArith Ascii.
From S2P Require Import Prelude Text Kebab Json Codec Catalogue Paths Results Workflow AutoDerive Bindings Request ReviewPlan Executor.

Record Script : Type := mk_script {
  sc_dispatches : list (result value RuntimeError);
  sc_gate : list StepFailureAction;
  sc_clock : Z
}.

Definition tick (s : Script) : Script := mk_script (sc_dispatches s) (sc_gate s) (sc_clock s + 5).

Definition next_dispatch (s : Script) : result (ApiOutput + string + unit) RuntimeError * Script :=
  match sc_dispatches s with
  | [] => (Ok (inr tt), s)
  | r :: rs =>
      (match r with Ok v => Ok (inl (inl (mk_api_output sample_operation "users" (BodyShaped (Raw v)) None None (Some v) false))) | Err e => Err e end,
       tick (mk_script rs (sc_gate s) (sc_clock s)))
  end.

Definition next_gate (s : Script) : result StepFailureAction RuntimeError * Script :=
  match sc_gate s with
  | [] => (Ok ActionCancel, s)
  | a :: rest => (Ok a, mk_script (sc_dispatches s) rest (sc_clock s))
  end.

#[global] Instance sample_names : UnicodeCase := ascii_case.
#[global] Instance sample_json : JsonText := bits_json_text.

(** A platform that previews requests as they are and accepts every prompt. *)
#[global] Instance sample_platform : Platform := {|
  World := Script;
  CommandPreview := CommandRequest;
  DryRunResult := CommandRequest;
  OtherOutput := unit;
  describe_other _ := "other";
  on_event _ w := w;
  present_briefing _ _ w := (Ok true, w);
  collect_workflow_inputs _ supplied w := (Ok (Some (mk_collect supplied ReviewInputSteps)), w);
  gather_workflow_inputs needed _ _ w :=
    (Ok (mk_gather (list_to_map (map (fun n => (need_id n, Str "typed")) needed)) ∅), w);
  review_step _ w := (Ok (ReviewProceed []), w);
  confirm_step _ _ w := (Ok ConfirmProceed, w);
  resolve_step_failure _ _ _ w := next_gate w;
  get_or_load name w := (Ok sample_service, w);
  preview_command r w := (Ok r, w);
  dry_run_command r w := (Ok r, w);
  run_command _ _ w := next_dispatch w;
  run_action _ _ _ _ w := (Ok (Object [("path", Str "out.csv")]), w);
  instant := sc_clock;
  runtime_namespace _ := Some "game";
  files _ _ := None;
  input_values_disabled _ := false
|}.

Definition sample_capture : StepOutputCapture := mk_capture "userId" "$.id" (Some (Str "unknown")) false.

Definition create_step : CompiledStep :=
  mk_step "create" 0 None Api None (Some (mk_op_ref "iam" "CreateUser")) [] true false false true None
    [mk_binding "namespace" (BLiteral (Str "game") false) false None;
     mk_binding "email" (BReference (mk_reference (FromWorkflow "user") None None)) true None;
     mk_binding "address.city" (BLiteral (Str "Oslo") false) true None] [sample_capture] [].

Definition export_step : CompiledStep :=
  mk_step "export" 1 None Local (Some "docker-login") None [] false false false false None [] [] [].

Definition sample_workflow : CompiledWorkflow :=
  mk_workflow "onboard" "Onboard a user" None None None
    [mk_input "user" None None true None false None None LBody] false [create_step; export_step] [] None.

Definition sample_supply : gmap string value := {["user" := Str "ann"]}.

Definition options_of (dry assume unattended : bool) : RunOptions :=
  mk_options_ dry assume unattended false (negb unattended) Human None Normal PageAuto None false.
Definition interactive : RunOptions := options_of false false false.
Definition unattended : RunOptions := options_of false true true.
Definition previewing : RunOptions := options_of true false false.

Definition a_conflict : RuntimeError :=
  mk_error (Upstream 409 None) "the user already exists" None None None.
Definition a_timeout : RuntimeError := mk_error (Upstream 504 None) "gateway timeout" None None None.

(** One failure, a retry at the gate, then an answer. *)
Definition retried : Script := mk_script [Err a_timeout; Ok (Object [("id", Str "u-1")])] [ActionRetry] 1000.
(** The user exists already. *)
Definition conflicting : Script := mk_script [Err a_conflict] [] 1000.

Example retried_run :
  (execute 3 sample_workflow sample_supply interactive retried).1
  = Ret (RunSuccess, Some (OutWorkflow "onboard" ∅ ["create ok"; "export ok"] None None), None).
Proof. vm_compute. reflexivity. Qed.

Example conflicting_run :
  match execute 3 sample_workflow sample_supply interactive conflicting with
  | (Ret (o, _, _), s) => o = RunSuccess /\ resolve_step_reference "create" "userId" (rs_ctx s) = Some (Str "unknown")
  | _ => False
  end.
Proof. vm_compute. split; reflexivity. Qed.
