(* ===== verification/ExecutorProps.v ===== *)
(** What every run of the workflow executor guarantees: its lifecycle events, its
    outcome and tallies, safe skips, confirmed dispatches, dry runs and
    non-interactive runs. *)

From stdpp Require Import base gmap strings list.
From Stdlib Require Import ZArith Lia Ascii.
From S2P Require Import Prelude Text Kebab Json Paths Sanitise Results Workflow AutoDerive Bindings Request ReviewPlan Redaction Executor Sample.

(** * Bindings of a skipped step *)

Lemma record_capture_same id name v p c : resolve_step_reference id name (record_capture id name v p c) = Some v.
Proof. unfold resolve_step_reference, record_capture. simpl. by rewrite lookup_insert_eq; simpl; rewrite lookup_insert_eq. Qed.

Lemma record_capture_keeps id name v p c name' :
  is_Some (resolve_step_reference id name' c) ->
  is_Some (resolve_step_reference id name' (record_capture id name v p c)).
Proof.
  unfold resolve_step_reference, record_capture. simpl. rewrite lookup_insert_eq. simpl. unfold default_entry.
  intros Hs. destruct (decide (name = name')) as [->|Hne]; [rewrite lookup_insert_eq; by eexists|].
  rewrite lookup_insert_ne by done. destruct (captures c !! id); [done|]. by destruct Hs.
Qed.

Lemma bind_skipped_keeps id caps c c' name :
  bind_skipped_loop id caps c = (c', Ok tt) -> is_Some (resolve_step_reference id name c) ->
  is_Some (resolve_step_reference id name c').
Proof.
  revert c. induction caps as [|cap caps IH]; intros c; simpl; [naive_solver|].
  destruct (cap_default cap) as [d|]; [|done]. intros Hb Hs. eapply IH; [exact Hb|]. by apply record_capture_keeps.
Qed.

(** Every output of the list has a default, and is bound. *)
Lemma bind_skipped_spec id caps c c' :
  bind_skipped_loop id caps c = (c', Ok tt) ->
  forall cap, cap ∈ caps -> is_Some (cap_default cap) /\ is_Some (resolve_step_reference id (cap_name cap) c').
Proof.
  revert c. induction caps as [|cap0 caps IH]; intros c; simpl; [intros _ cap Hc; by apply not_elem_of_nil in Hc|].
  destruct (cap_default cap0) as [d|] eqn:Ed; [|done]. intros Hb cap Hc. apply elem_of_cons in Hc as [->|Hc].
  - split; [by eexists|]. eapply bind_skipped_keeps; [exact Hb|]. rewrite record_capture_same. by eexists.
  - by eapply IH.
Qed.

Section props.
Context `{JsonText, UnicodeCase, Platform}.

Local Notation "'let*' x ':=' m 'in' k" := (bind m (fun x => k))
  (at level 10, x pattern, m at level 100, k at level 200) : run_scope.
Local Notation "'do' m ; k" := (bind m (fun _ => k))
  (at level 10, m at level 100, k at level 200) : run_scope.

(** The lifecycle events of a state. *)
Definition event_of (o : obs) : option WorkflowEvent := match o with OEvent e => Some e | _ => None end.
Definition events (s : RunState) : list WorkflowEvent := omap event_of (trace s).

(** * Quiet computations *)

(** [m] emits no lifecycle event and leaves the tally alone. *)
Definition quiet {A} (m : M A) : Prop :=
  forall s, events (m s).2 = events s /\ run_facts (m s).2 = run_facts s.

Lemma quiet_ret {A} (a : A) : quiet (ret a).
Proof. by intros s. Qed.

Lemma quiet_throw {A} e : quiet (A := A) (throw e).
Proof. by intros s. Qed.

Lemma quiet_lift {A} (r : result A RuntimeError) : quiet (lift r).
Proof. destruct r; [apply quiet_ret|apply quiet_throw]. Qed.

Lemma quiet_gets {A} (f : RunState -> A) : quiet (gets f).
Proof. by intros s. Qed.

Lemma quiet_bind {A B} (m : M A) (k : A -> M B) : quiet m -> (forall a, quiet (k a)) -> quiet (bind m k).
Proof.
  intros Hm Hk s. unfold bind. destruct (Hm s) as [He Hf]. destruct (m s) as [[a|e|] s1]; simpl in *; [|done|done].
  destruct (Hk a s1) as [-> ->]. done.
Qed.

Lemma quiet_modify f :
  (forall s, trace (f s) = trace s /\ run_facts (f s) = run_facts s) -> quiet (modify f).
Proof. intros Hf s. unfold modify, events. simpl. by destruct (Hf s) as [-> ->]. Qed.

Lemma quiet_ask {A} (o : A -> obs) f : (forall a, event_of (o a) = None) -> quiet (ask o f).
Proof.
  intros Ho s. unfold ask, events. destruct (f (world s)) as [a w]. simpl. split; [|done].
  rewrite omap_app. simpl. rewrite Ho. by rewrite app_nil_r.
Qed.

Lemma quiet_query {A} (f : World -> A * World) : quiet (query f).
Proof. intros s. unfold query, events. destruct (f (world s)) as [a w]. done. Qed.

Create HintDb run.
#[local] Hint Resolve quiet_ret quiet_throw quiet_lift quiet_gets quiet_query : run.

Ltac quietly :=
  repeat first
    [ progress intros
    | solve [auto with run]
    | apply quiet_bind
    | apply quiet_ask; by intros
    | apply quiet_modify; by intros
    | match goal with |- quiet (match ?x with _ => _ end) => destruct x end ].

Lemma quiet_decide step e ni stage : quiet (decide_step_failure step e ni stage).
Proof. unfold decide_step_failure. quietly. Qed.

Lemma quiet_bind_outputs step : quiet (bind_outputs step).
Proof. unfold bind_outputs, update_ctx. quietly. Qed.

Lemma quiet_failure_facts env local e : quiet (failure_facts env local e).
Proof. unfold failure_facts, step_input_fields_on_failure. quietly. Qed.

#[local] Hint Resolve quiet_decide quiet_bind_outputs quiet_failure_facts : run.

Lemma quiet_local_attempt step action inputs : quiet (local_attempt step action inputs).
Proof. unfold local_attempt, update_ctx. quietly. Qed.

Lemma quiet_dispatch_attempt step request : quiet (dispatch_attempt step request).
Proof. unfold dispatch_attempt, update_ctx. quietly. Qed.

Lemma quiet_synthesise step : quiet (synthesise_dry_run_outputs step).
Proof. unfold synthesise_dry_run_outputs. quietly. Qed.

#[local] Hint Resolve quiet_synthesise : run.

Lemma quiet_dry_dispatch env local request : quiet (dry_dispatch env local request).
Proof. unfold dry_dispatch, update_ctx. quietly. Qed.

(** * How a step ends *)

(** All outputs of the step have defaults and are bound. *)
Definition safely_skipped (step : CompiledStep) (s : RunState) : Prop :=
  forall cap, cap ∈ step_outputs step ->
    is_Some (cap_default cap) /\ is_Some (resolve_step_reference (step_id step) (cap_name cap) (rs_ctx s)).

(** From [s] to [s'], the one lifecycle event is the end of [step], and it is
    tallied. *)
Definition finished (step : CompiledStep) (e : StepFinishedEvent) (s s' : RunState) : Prop :=
  events s' = events s ++ [StepFinished e] /\ sf_id e = step_id step /\ sf_index e = step_index step /\
  run_facts s' = tally_step_outcome (sf_outcome e) (run_facts s) /\
  (sf_outcome e = Skipped -> safely_skipped step s').

(** Which way on each outcome leads. *)
Definition flow_of (f : step_flow) (o : StepOutcome) : Prop :=
  match f with
  | Continue => o = Success \/ o = Skipped
  | Break RunFailed (Some _) => o = Failed
  | Break RunCancelled None => o = Cancelled
  | Break _ _ => False
  end.

Definition ends (step : CompiledStep) (m : M step_flow) : Prop :=
  forall s, match m s with
            | (Ret f, s') => exists e, finished step e s s' /\ flow_of f (sf_outcome e)
            | _ => True
            end.

Definition staged {A} (step : CompiledStep) (m : M (stage A)) : Prop :=
  forall s, match m s with
            | (Ret (Go _), s') => events s' = events s /\ run_facts s' = run_facts s
            | (Ret (Stop f), s') => exists e, finished step e s s' /\ flow_of f (sf_outcome e)
            | _ => True
            end.

Lemma finished_shift step e s s1 s' :
  events s1 = events s -> run_facts s1 = run_facts s -> finished step e s1 s' -> finished step e s s'.
Proof. intros He Hf (? & ? & ? & ? & ?). unfold finished. rewrite <- He, <- Hf. done. Qed.

Lemma ends_after {A} step (m : M A) k : quiet m -> (forall a, ends step (k a)) -> ends step (bind m k).
Proof.
  intros Hm Hk s. unfold bind. destruct (Hm s) as [He Hf]. destruct (m s) as [[a|e|] s1]; simpl in *; try done.
  specialize (Hk a s1). destruct (k a s1) as [[f|e|] s']; try done.
  destruct Hk as (e & Hfin & Hflow). exists e. split; [|done]. by eapply finished_shift.
Qed.

Lemma staged_after {A B} step (m : M A) (k : A -> M (stage B)) :
  quiet m -> (forall a, staged step (k a)) -> staged step (bind m k).
Proof.
  intros Hm Hk s. unfold bind. destruct (Hm s) as [He Hf]. destruct (m s) as [[a|e|] s1]; simpl in *; try done.
  specialize (Hk a s1). destruct (k a s1) as [[[f|b]|e|] s']; try done.
  - destruct Hk as (e & Hfin & Hflow). exists e. split; [|done]. by eapply finished_shift.
  - by rewrite <- He, <- Hf.
Qed.

Lemma staged_stop {A} step (m : M step_flow) : ends step m -> staged (A := A) step (stop m).
Proof. intros Hm s. specialize (Hm s). unfold stop, bind. by destruct (m s) as [[f|e|] s']. Qed.

Lemma staged_go {A} step (a : A) : staged step (ret (Go a)).
Proof. by intros s. Qed.

Lemma staged_then {A B} step (m : M (stage A)) (k : A -> M (stage B)) :
  staged step m -> (forall a, staged step (k a)) -> staged step (then_stage m k).
Proof.
  intros Hm Hk s. specialize (Hm s). unfold then_stage, bind. destruct (m s) as [[[f|a]|e|] s1]; simpl; try done.
  destruct Hm as [He Hf]. specialize (Hk a s1). destruct (k a s1) as [[[f|b]|e|] s']; try done.
  - destruct Hk as (e & Hfin & Hflow). exists e. split; [|done]. by eapply finished_shift.
  - by rewrite <- He, <- Hf.
Qed.

Lemma emit_finished step summary caps outcome reason attempts ms error s :
  let e := mk_finished (step_index step) (step_id step) summary caps outcome reason attempts ms error in
  outcome <> Skipped ->
  exists s', emit (StepFinished e) (set_facts (tally_step_outcome outcome) s) = (Ret tt, s') /\ finished step e s s'.
Proof.
  intros e Ho. eexists. split; [done|]. unfold finished, events. simpl.
  rewrite omap_app. split_and!; done.
Qed.

Lemma finish_terminal_spec step summary outcome reason attempts started error s :
  (outcome = Skipped -> safely_skipped step s) ->
  exists e s', finish_step_terminal step summary outcome reason attempts started error s = (Ret tt, s') /\
    finished step e s s' /\ sf_outcome e = outcome.
Proof.
  intros Hs. eexists (mk_finished _ _ _ _ outcome _ _ _ _), _. split; [done|].
  unfold finished, events. simpl. rewrite omap_app. split_and!; done.
Qed.

Lemma fail_step_ends step reason started facts error : ends step (fail_step step reason started facts error).
Proof.
  intros s. unfold fail_step.
  destruct (finish_terminal_spec step (failed_summary step) Failed (Some reason) 0 started facts s) as (e & s' & E & Hf & Ho);
    [done|]. unfold bind. rewrite E. exists e. by rewrite Ho.
Qed.

Lemma cancel_step_ends step reason started : ends step (cancel_step step reason started).
Proof.
  intros s. unfold cancel_step.
  destruct (finish_terminal_spec step (step_id step +:+ " cancelled") Cancelled (Some reason) 0 started None s)
    as (e & s' & E & Hf & Ho); [done|]. unfold bind. rewrite E. exists e. by rewrite Ho.
Qed.

(** A skip either throws or ends the step, safely. *)
Lemma skip_step_spec step reason tail attempts started error s :
  match skip_step step reason tail attempts started error s with
  | (Ret _, s') => exists e, finished step e s s' /\ sf_outcome e = Skipped
  | _ => True
  end.
Proof.
  unfold skip_step, update_ctx. unfold bind at 1, gets at 1.
  destruct (bind_skipped_outputs (step_id step) (step_outputs step) (rs_ctx s)) as [c [[]|err]] eqn:E; [|done].
  cbn [fst snd]. unfold bind at 1, modify at 1. unfold bind at 1, lift, ret at 1.
  set (s1 := set_ctx c s).
  assert (Hs : safely_skipped step s1).
  { intros cap Hc. unfold bind_skipped_outputs in E. by apply (bind_skipped_spec _ _ _ _ E). }
  destruct (finish_terminal_spec step
    match tail with Some tail => step_id step +:+ " skipped — " +:+ tail | None => step_id step +:+ " skipped" end
    Skipped (Some reason) attempts started error s1) as (e & s' & E' & Hf & Ho); [done|].
  rewrite E'. exists e. split; [|done]. by apply (finished_shift step e s s1 s').
Qed.

(** What the retry loop leaves: a finished skip, or an outcome still to announce. *)
Definition loop_ok (step : CompiledStep) (m : M loop_result) : Prop :=
  forall s, match m s with
            | (Ret LoopSkipped, s') => exists e, finished step e s s' /\ sf_outcome e = Skipped
            | (Ret (LoopDone o _ _ _ _ pending), s') =>
                events s' = events s /\ run_facts s' = run_facts s /\
                ((o = Success /\ pending = None) \/ (o = Failed /\ is_Some pending))
            | _ => True
            end.

Lemma loop_after {A} step (m : M A) k : quiet m -> (forall a, loop_ok step (k a)) -> loop_ok step (bind m k).
Proof.
  intros Hm Hk s. unfold bind. destruct (Hm s) as [He Hf]. destruct (m s) as [[a|e|] s1]; simpl in *; try done.
  specialize (Hk a s1). destruct (k a s1) as [[[|o sm re at_ fa pe]|e|] s']; try done.
  - destruct Hk as (e & Hfin & ?). exists e. split; [|done]. by eapply finished_shift.
  - by rewrite <- He, <- Hf.
Qed.

Lemma loop_done step o sm re at_ fa pe :
  (o = Success /\ pe = None) \/ (o = Failed /\ is_Some pe) -> loop_ok step (ret (LoopDone o sm re at_ fa pe)).
Proof. by intros Ho s. Qed.

Lemma retry_loop_ok fuel step ni started attempt facts_of attempts :
  quiet attempt -> (forall e, quiet (facts_of e)) ->
  loop_ok step (retry_loop fuel step ni started attempt facts_of attempts).
Proof.
  intros Ha Hf. revert attempts. induction fuel as [|fuel IH]; intros attempts; [by intros s|]. cbn [retry_loop].
  apply loop_after; [done|]. intros [summary|error stage]; [apply loop_done; by left|].
  apply loop_after; [apply quiet_decide|]. intros [reason tail| |reason].
  - apply loop_after; [apply Hf|]. intros facts s. unfold bind.
    pose proof (skip_step_spec step reason tail (next_attempt attempts) started (Some facts) s) as Hs.
    by destruct (skip_step _ _ _ _ _ _ s) as [[[]|e|] s'].
  - apply IH.
  - apply loop_after; [apply Hf|]. intros facts. apply loop_done. right. by split.
Qed.

Lemma end_step_ends step started captures_of m :
  (forall o, quiet (captures_of o)) -> loop_ok step m ->
  ends step (bind m (end_step step started captures_of)).
Proof.
  intros Hc Hm s. specialize (Hm s). unfold bind at 1. destruct (m s) as [[[|o sm re at_ fa pe]|e|] s1]; try done.
  - destruct Hm as (e & Hfin & Ho). exists e. split; [done|]. by right.
  - destruct Hm as (He & Hf & Ho). unfold end_step. unfold bind at 1, modify at 1.
    unfold bind at 1. destruct (Hc o (push_summary sm s1)) as [Hce Hcf].
    destruct (captures_of o (push_summary sm s1)) as [[caps|e|] s2]; simpl in *; try done.
    eexists (mk_finished _ _ _ _ o _ _ _ _). split.
    + unfold finished, events in *. simpl. rewrite omap_app. simpl. rewrite Hce, Hcf. unfold events. simpl.
      split_and!; try done; [by rewrite He|by rewrite Hf|]. intros ->. destruct Ho as [[? _]|[? _]]; done.
    + destruct Ho as [[-> ->]|[-> [x ->]]]; simpl; [by left|done].
Qed.

Lemma dry_dispatch_ok env local request : loop_ok (env_step env) (dry_dispatch env local request).
Proof.
  unfold dry_dispatch. apply loop_after; [apply quiet_synthesise|]. intros [synth|error].
  - unfold update_ctx. apply loop_after; [by apply quiet_modify|]. intros _.
    apply loop_after; [apply quiet_query|]. intros [command|error].
    + apply loop_after; [by apply quiet_modify|]. intros _. apply loop_done. by left.
    + apply loop_after; [apply quiet_failure_facts|]. intros facts. apply loop_done. right. by split.
  - apply loop_after; [apply quiet_failure_facts|]. intros facts. apply loop_done. right. by split.
Qed.

Lemma dispatch_ends fuel env local request : ends (env_step env) (dispatch fuel env local request).
Proof.
  unfold dispatch. apply end_step_ends.
  - intros []; [apply quiet_gets|apply quiet_ret..].
  - destruct (dry_run _); [apply dry_dispatch_ok|]. apply retry_loop_ok; [apply quiet_dispatch_attempt|apply quiet_failure_facts].
Qed.

Lemma fail_api_ends env local reason error : ends (env_step env) (fail_api_step env local reason error).
Proof. unfold fail_api_step. apply ends_after; [apply quiet_failure_facts|]. intros. apply fail_step_ends. Qed.

Lemma skip_staged {A} step reason tail started :
  staged (A := A) step (do skip_step step reason tail 0 started None; ret (Stop Continue)).
Proof.
  intros s. unfold bind. pose proof (skip_step_spec step reason tail 0 started None s) as Hs.
  destruct (skip_step _ _ _ _ _ _ s) as [[[]|e|] s']; try done. destruct Hs as (e & Hf & Ho).
  exists e. split; [done|]. by right.
Qed.

#[local] Hint Resolve fail_api_ends fail_step_ends cancel_step_ends skip_staged staged_go staged_stop : run.

Ltac stagewise :=
  repeat first
    [ progress intros
    | solve [auto with run]
    | apply staged_then
    | apply staged_after; [solve [quietly]|]
    | match goal with |- staged _ (match ?x with _ => _ end) => destruct x end
    | match goal with |- staged _ (if ?x then _ else _) => destruct x end ].

Lemma collect_staged env : staged (env_step env) (collect_step_inputs env).
Proof.
  unfold collect_step_inputs, review_inputs, gather_inputs. destruct (take_review_path env).
  - stagewise.
  - apply staged_after; [apply quiet_gets|]. intros supplied. destruct (compute_needed_inputs _ _ _) as [|n needed]; [stagewise|].
    apply staged_after; [by apply quiet_ask|]. intros [g|e]; [|stagewise].
    destruct (foldl _ _ _) as [sup local]. stagewise.
Qed.

Lemma assemble_staged env local : staged (env_step env) (assemble env local).
Proof. unfold assemble. stagewise. Qed.

Lemma confirm_staged env local request : staged (env_step env) (confirm_gate env local request).
Proof. unfold confirm_gate, build_step_preview. stagewise. Qed.

Lemma local_dry_run_ends step action started : ends step (local_dry_run step action started).
Proof.
  unfold local_dry_run, local_inputs, update_ctx.
  apply ends_after; [apply quiet_gets|]. intros [inputs|error]; [|apply fail_step_ends].
  apply ends_after; [by apply quiet_ask|]. intros [produced|error]; [|apply fail_step_ends].
  do 5 (apply ends_after; [quietly|intros]). intros s.
  destruct (finish_terminal_spec step (step_id step +:+ " dry-run") Success None 1 started None s)
    as (e & s' & E & Hf & Ho); [done|]. unfold bind. rewrite E. exists e. split; [done|]. by left.
Qed.

Lemma local_run_ends fuel options step action started : ends step (local_run fuel options step action started).
Proof.
  unfold local_run, local_inputs.
  apply ends_after; [apply quiet_gets|]. intros [inputs|error]; [|apply fail_step_ends].
  apply end_step_ends; [intros; apply quiet_ret|]. apply retry_loop_ok; [apply quiet_local_attempt|intros; apply quiet_ret].
Qed.

Lemma run_local_step_ends fuel options step started : ends step (run_local_step fuel options step started).
Proof.
  unfold run_local_step. apply ends_after; [apply quiet_lift|]. intros action.
  apply ends_after; [apply quiet_lift|]. intros _. destruct (dry_run options); [apply local_dry_run_ends|apply local_run_ends].
Qed.

Lemma run_with_schema_ends fuel env : ends (env_step env) (run_with_schema fuel env).
Proof.
  intros s. unfold run_with_schema. unfold bind.
  assert (Hst : staged (env_step env) (then_stage (collect_step_inputs env) (fun step_local =>
              then_stage (assemble env step_local) (fun request =>
                then_stage (confirm_gate env step_local request) (fun _ =>
                  ret (Go (step_local, request))))))).
  { apply staged_then; [apply collect_staged|intros l]. apply staged_then; [apply assemble_staged|intros r].
    apply staged_then; [apply confirm_staged|intros _]. apply staged_go. }
  specialize (Hst s). destruct (then_stage _ _ s) as [[[f|[l r]]|e|] s1]; try done.
  destruct Hst as [He Hf]. pose proof (dispatch_ends fuel env l r s1) as Hd.
  destruct (dispatch _ _ _ _ s1) as [[f|e|] s']; try done.
  destruct Hd as (e & Hfin & Ho). exists e. split; [|done]. by eapply finished_shift.
Qed.

Lemma run_api_step_ends fuel renv mode step started : ends step (run_api_step fuel renv mode step started).
Proof.
  unfold run_api_step. apply ends_after; [apply quiet_lift|]. intros op.
  apply ends_after; [apply quiet_query|]. intros [schema|error]; [|apply fail_step_ends].
  exact (run_with_schema_ends fuel (mk_env _ _ _ _ _ step _ _)).
Qed.

(** ** The whole step, and the loop over the steps *)

(** The two lifecycle events of one step, with what they say. *)
Definition step_events (step : CompiledStep) (e : StepFinishedEvent) : list WorkflowEvent :=
  [StepStarted (step_index step) (step_id step); StepFinished e].

Definition step_facts (step : CompiledStep) (f : RunFacts) (e : StepFinishedEvent) : RunFacts :=
  tally_step_outcome (sf_outcome e) (count_start (step_index step) f).

Lemma run_step_spec fuel renv mode step s :
  match run_step fuel renv mode step s with
  | (Ret f, s') => exists e,
      events s' = events s ++ step_events step e /\ sf_id e = step_id step /\ sf_index e = step_index step /\
      run_facts s' = step_facts step (run_facts s) e /\
      (sf_outcome e = Skipped -> safely_skipped step s') /\ flow_of f (sf_outcome e)
  | _ => True
  end.
Proof.
  unfold run_step. unfold bind at 1, gets at 1.
  set (k := match step_kind step with Api => _ | Local => _ end).
  assert (Hk : ends step k) by (unfold k; destruct (step_kind step); [apply run_api_step_ends|apply run_local_step_ends]).
  unfold bind at 1, emit, ask. unfold bind at 1, modify.
  set (s1 := set_facts _ _). specialize (Hk s1). destruct (k s1) as [[f|e|] s']; try done.
  destruct Hk as (e & (He & ? & ? & Hf & ?) & Ho). exists e. split_and!; try done.
  rewrite He. unfold s1, events. simpl. rewrite omap_app. simpl. by rewrite <- app_assoc.
Qed.

Definition reports (step : CompiledStep) (e : StepFinishedEvent) : Prop :=
  sf_id e = step_id step /\ sf_index e = step_index step.

(** How the loop over [steps] may end after the finished events [es]: every step
    done, or stopped at the first one that failed or was cancelled. *)
Inductive steps_end : list CompiledStep -> list StepFinishedEvent -> RunOutcome -> option RuntimeError -> Prop :=
| end_all : steps_end [] [] RunSuccess None
| end_go step e steps es o err :
    reports step e -> sf_outcome e = Success \/ sf_outcome e = Skipped ->
    steps_end steps es o err -> steps_end (step :: steps) (e :: es) o err
| end_failed step e steps err :
    reports step e -> sf_outcome e = Failed -> steps_end (step :: steps) [e] RunFailed (Some err)
| end_cancelled step e steps :
    reports step e -> sf_outcome e = Cancelled -> steps_end (step :: steps) [e] RunCancelled None.

Definition all_events (steps : list CompiledStep) (es : list StepFinishedEvent) : list WorkflowEvent :=
  concat (zip_with step_events steps es).

Definition all_facts (steps : list CompiledStep) (es : list StepFinishedEvent) (f : RunFacts) : RunFacts :=
  foldl (fun f p => step_facts p.1 f p.2) f (zip steps es).

Lemma step_loop_spec fuel renv mode steps s :
  match step_loop fuel renv mode steps s with
  | (Ret (o, err), s') => exists es, steps_end steps es o err /\
      events s' = events s ++ all_events steps es /\ run_facts s' = all_facts steps es (run_facts s)
  | _ => True
  end.
Proof.
  revert s. induction steps as [|step steps IH]; intros s.
  { exists []. split; [constructor|]. by rewrite app_nil_r. }
  cbn [step_loop]. unfold bind. pose proof (run_step_spec fuel renv mode step s) as Hs.
  destruct (run_step fuel renv mode step s) as [[f|?|] s1]; try done.
  destruct Hs as (e & He & Hid & Hix & Hfacts & _ & Hflow). destruct f as [|o err].
  - specialize (IH s1). destruct (step_loop fuel renv mode steps s1) as [[[o err]|?|] s']; try done.
    destruct IH as (es & Hend & Hev & Hf). exists (e :: es). split; [by constructor|].
    rewrite Hev, Hf, He, Hfacts. by rewrite <- app_assoc.
  - exists [e]. assert (reports step e) by done.
    split; [destruct o, err; try done; by constructor|].
    unfold all_events, all_facts. simpl. rewrite !zip_with_nil_r. split; [by rewrite He|done].
Qed.

(** ** The counters of a run *)

Definition count_outcome (o : StepOutcome) (es : list StepFinishedEvent) : nat :=
  length (List.filter (fun e => bool_decide (sf_outcome e = o)) es).

Definition counters (f : RunFacts) : nat * nat * nat * nat * nat :=
  (steps_started f, steps_succeeded f, steps_failed f, steps_skipped f, steps_cancelled f).

(** The counters of [f] after [es] more steps. *)
Definition counted (es : list StepFinishedEvent) (f : RunFacts) : nat * nat * nat * nat * nat :=
  (length es + steps_started f, count_outcome Success es + steps_succeeded f, count_outcome Failed es + steps_failed f,
   count_outcome Skipped es + steps_skipped f, count_outcome Cancelled es + steps_cancelled f)%nat.

Lemma counters_all steps es o err f : steps_end steps es o err -> counters (all_facts steps es f) = counted es f.
Proof.
  intros Hend. revert f. induction Hend as [|step e steps es o err Hr Ho Hend IH|step e steps err Hr Ho|step e steps Hr Ho]; intros f.
  - done.
  - unfold all_facts in *. cbn [zip zip_with foldl fst snd]. rewrite IH.
    unfold counted, count_outcome, step_facts. destruct f. cbn [List.filter].
    destruct Ho as [Ho|Ho]; rewrite Ho; simpl; repeat f_equal; lia.
  - unfold all_facts. cbn [zip zip_with foldl fst snd]. rewrite zip_with_nil_r.
    unfold counted, count_outcome, step_facts. destruct f. cbn [List.filter]. by rewrite Ho.
  - unfold all_facts. cbn [zip zip_with foldl fst snd]. rewrite zip_with_nil_r.
    unfold counted, count_outcome, step_facts. destruct f. cbn [List.filter]. by rewrite Ho.
Qed.

Lemma counters_provenance flags defaults before after specs f :
  counters (foldl (count_provenance flags defaults before after) f specs) = counters f.
Proof.
  revert f. induction specs as [|spec specs IH]; intros f; [done|]. simpl. rewrite IH.
  destruct f. unfold count_provenance. destruct (after !! in_name spec); [|done]. by repeat case_bool_decide.
Qed.

Lemma counted_start es f : counters f = counters RunFacts_default ->
  counted es f = (length es, count_outcome Success es, count_outcome Failed es, count_outcome Skipped es,
                  count_outcome Cancelled es).
Proof.
  destruct f. unfold counters, counted. simpl. intros Hc. simplify_eq. by rewrite !Nat.add_0_r.
Qed.

(** A phase before the steps: no event, no step counted, and a stop is an error or
    a cancellation. *)
Definition stopped_early (o : outcome_state) : Prop :=
  (o.1 = RunFailed /\ is_Some o.2) \/ (o.1 = RunCancelled /\ o.2 = None).

Definition phase {A} (proj : A -> outcome_state) (m : M A) : Prop :=
  forall s, match m s with
            | (Ret a, s') => events s' = events s /\ counters (run_facts s') = counters (run_facts s) /\
                (proj a = (RunSuccess, None) \/ stopped_early (proj a))
            | _ => True
            end.

Lemma briefing_is_phase compiled options : phase id (briefing_phase compiled options).
Proof.
  intros s. unfold briefing_phase. destruct (wf_briefing compiled) as [b|]; [|simpl; auto].
  destruct (assume_yes options); [simpl; auto|]. unfold bind, ask.
  destruct (present_briefing _ _ _) as [[[]|e] w]; simpl; unfold events; simpl; rewrite omap_app; simpl;
    rewrite app_nil_r; split_and!; try done; try (destruct (run_facts s); done); auto; right.
  - by right.
  - left. by split.
Qed.

Lemma collect_is_phase compiled options : phase fst (collect_phase compiled options).
Proof.
  intros s. unfold collect_phase, bind, gets, ask.
  destruct (collect_workflow_inputs _ _ _) as [[[c|]|e] w]; simpl; unfold events; simpl; rewrite omap_app; simpl;
    rewrite app_nil_r; split_and!; try done; try (destruct (run_facts s); done); auto; right.
  - by right.
  - left. by split.
Qed.

(** What the steps of a run may have come to. *)
Definition body_end (compiled : CompiledWorkflow) (es : list StepFinishedEvent) (o : outcome_state) : Prop :=
  steps_end (wf_steps compiled) es o.1 o.2 \/ (es = [] /\ stopped_early o).

Lemma counters_body compiled es o f : body_end compiled es o ->
  counters (all_facts (wf_steps compiled) es f) = counted es f.
Proof.
  intros [Hend|[-> _]]; [by eapply counters_all|]. unfold all_facts. rewrite zip_with_nil_r. by destruct f.
Qed.

Lemma opening_is_phase compiled options :
  phase fst (let* briefed := briefing_phase compiled options in
             if is_success briefed.1 && review_steps options then collect_phase compiled options
             else ret (briefed, ReviewInputSteps)).
Proof.
  intros s. unfold bind. pose proof (briefing_is_phase compiled options s) as Hb.
  destruct (briefing_phase compiled options s) as [[b|e|] s1]; try done. destruct Hb as (He & Hc & Hb).
  destruct (is_success b.1 && review_steps options); [|done].
  pose proof (collect_is_phase compiled options s1) as Hp.
  destruct (collect_phase compiled options s1) as [[c|e|] s2]; try done. destruct Hp as (He2 & Hc2 & Hp).
  by rewrite He2, Hc2.
Qed.

Lemma bind_assoc {A B C} (m : M A) (k : A -> M B) (k' : B -> M C) s :
  bind (bind m k) k' s = bind m (fun a => bind (k a) k') s.
Proof. unfold bind. by destruct (m s) as [[a|e|] s1]. Qed.

Lemma run_body_spec fuel renv before s :
  counters (run_facts s) = counters RunFacts_default ->
  match run_body fuel renv before s with
  | (Ret o, s') => exists es, body_end (re_compiled renv) es o /\
      events s' = events s ++ all_events (wf_steps (re_compiled renv)) es /\
      counters (run_facts s') = counted es RunFacts_default
  | _ => True
  end.
Proof.
  intros Hstart. unfold run_body.
  rewrite <- bind_assoc. pose proof (opening_is_phase (re_compiled renv) (re_options renv) s) as Hp.
  unfold bind at 1. destruct (bind (briefing_phase _ _) _ s) as [[[o mode]|e|] s2]; try done.
  destruct Hp as (He & Hc & Ho). cbn [fst snd] in *. unfold bind at 1, gets at 1. unfold bind at 1, modify at 1.
  set (s3 := set_facts _ s2).
  assert (Hc3 : counters (run_facts s3) = counters RunFacts_default).
  { unfold s3. simpl. by rewrite counters_provenance, Hc. }
  assert (He3 : events s3 = events s) by done.
  destruct (is_success o.1) eqn:Eo.
  - pose proof (step_loop_spec fuel renv mode (wf_steps (re_compiled renv)) s3) as Hl.
    destruct (step_loop _ _ _ _ s3) as [[[o' err]|e|] s']; try done. destruct Hl as (es & Hend & Hev & Hf).
    exists es. split_and!; [by left|by rewrite Hev, He3|]. rewrite Hf.
    erewrite counters_all by exact Hend. by rewrite !counted_start.
  - exists []. split_and!; [|by rewrite <- He3; unfold all_events; rewrite zip_with_nil_r, app_nil_r|].
    + right. split; [done|]. destruct Ho as [->|Ho]; done.
    + rewrite Hc3. by destruct (run_facts s3).
Qed.

Lemma finish_run_spec compiled options started o s :
  match finish_run compiled options started o s with
  | (Ret (outcome, out, err), s') =>
      outcome = o.1 /\ err = o.2 /\
      out = (if is_success o.1 then build_final_output compiled options s else None) /\
      events s' = events s ++ [WorkflowFinished o.1 (run_facts s')] /\
      counters (run_facts s') = counters (run_facts s)
  | _ => False
  end.
Proof.
  unfold finish_run, bind, gets, modify, emit, ask, step_duration_ms. simpl.
  split_and!; [done..| |by destruct (run_facts s)]. unfold events. simpl. by rewrite omap_app.
Qed.

(** [C1] The lifecycle of a run that returns: one [WorkflowStarted], then for a
    prefix of the steps, in order, exactly one [StepStarted] and one [StepFinished]
    each, then one [WorkflowFinished]. The run succeeds only when every step
    succeeded or was skipped; it stops at the first step that failed (with the
    pending error) or was cancelled (without one), or before the first step. The
    facts of the last event count what the finished events say, and there is a
    final output only for a success. *)
Theorem run_lifecycle fuel compiled supplied options w o out err s' :
  execute fuel compiled supplied options w = (Ret (o, out, err), s') ->
  exists es, body_end compiled es (o, err) /\
    events s' = WorkflowStarted compiled :: all_events (wf_steps compiled) es ++ [WorkflowFinished o (run_facts s')] /\
    counters (run_facts s') =
      (length es, count_outcome Success es, count_outcome Failed es, count_outcome Skipped es, count_outcome Cancelled es) /\
    (o <> RunSuccess -> out = None).
Proof.
  unfold execute. destruct (seed_defaults compiled supplied) as [seeded defaults].
  destruct (if no_input options then _ else _); [|done].
  unfold bind at 1, emit at 1, ask at 1. unfold bind at 1.
  set (s0 := mk_run _ _ _ _ _ _ _).
  pose proof (run_body_spec fuel (mk_run_env compiled options (dom supplied) defaults) seeded s0 eq_refl) as Hb.
  destruct (run_body _ _ _ s0) as [[ot|e|] s1]; try done. destruct Hb as (es & Hend & Hev & Hc).
  pose proof (finish_run_spec compiled options (instant w) ot s1) as Hfin.
  destruct (finish_run _ _ _ ot s1) as [[[[o' out'] err']|e|] s2]; try done.
  destruct Hfin as (-> & -> & -> & Hev' & Hc'). intros [= <- <- <- <-].
  exists es. split; [by destruct ot|]. split_and!.
  - by rewrite Hev', Hev.
  - by rewrite Hc', Hc, counted_start.
  - by destruct ot as [[] ?].
Qed.
End props.

Lemma run_lifecycle_witness :
  exists es, let s' := (execute 3 sample_workflow sample_supply interactive retried).2 in
    body_end sample_workflow es (RunSuccess, None) /\
    events s' = WorkflowStarted sample_workflow :: all_events (wf_steps sample_workflow) es
                  ++ [WorkflowFinished RunSuccess (run_facts s')].
Proof.
  assert (H1 : execute 3 sample_workflow sample_supply interactive retried =
    (Ret (RunSuccess, Some (OutWorkflow "onboard" ∅ ["create ok"; "export ok"] None None), None),
     (execute 3 sample_workflow sample_supply interactive retried).2)) by (vm_compute; reflexivity).
  destruct (@run_lifecycle sample_json sample_names sample_platform 3 sample_workflow sample_supply interactive retried RunSuccess _ None _ H1)
    as (es & Hend & Hev & _).
  exists es. split; [exact Hend|exact Hev].
Defined.
