(* ===== verification/ExecutorEffects.v ===== *)
(** What a run of the executor may ask of the world, and what it may change: the
    prompts, dispatches and local actions each option allows, the supplied inputs,
    and the captures of the steps. *)

From stdpp Require Import base gmap strings list.
From Stdlib Require Import ZArith Lia Ascii.
From S2P Require Import Prelude Text Kebab Json Paths Sanitise Results Workflow AutoDerive Bindings Request ReviewPlan Redaction Executor Sample ExecutorProps.

Lemma ids_unique (steps : list CompiledStep) step step' :
  NoDup (map step_id steps) -> step ∈ steps -> step' ∈ steps -> step_id step' = step_id step -> step' = step.
Proof.
  induction steps as [|s0 steps IH]; simpl; intros Hnd Hin Hin' Hid; [by apply not_elem_of_nil in Hin|].
  apply NoDup_cons in Hnd as [Hno Hnd].
  assert (Hmem : forall st, st ∈ steps -> step_id st ∈ map step_id steps) by (intros; by apply list_elem_of_fmap_2).
  apply elem_of_cons in Hin as [->|Hin]; apply elem_of_cons in Hin' as [->|Hin']; [done| | |by apply IH].
  - destruct Hno. rewrite <- Hid. by apply Hmem.
  - destruct Hno. rewrite Hid. by apply Hmem.
Qed.

(** * Captures of the other steps *)

Lemma record_capture_elsewhere id name v p c id' :
  id' <> id -> captures (record_capture id name v p c) !! id' = captures c !! id'.
Proof. intros Hne. unfold record_capture. simpl. by rewrite lookup_insert_ne. Qed.

Lemma touch_elsewhere id c id' : id' <> id -> captures (touch_entry id c) !! id' = captures c !! id'.
Proof. intros Hne. unfold touch_entry. simpl. by rewrite lookup_insert_ne. Qed.

Lemma bind_outputs_elsewhere id caps body c id' :
  id' <> id -> captures (bind_step_outputs id caps body c).1 !! id' = captures c !! id'.
Proof.
  intros Hne. unfold bind_step_outputs. rewrite <- (touch_elsewhere id c id' Hne). generalize (touch_entry id c). clear c.
  induction caps as [|cap caps IH]; intros c; simpl; [done|].
  destruct (body ≫= _); [|destruct (cap_default cap); [|done]]; rewrite IH; by apply record_capture_elsewhere.
Qed.

Lemma bind_skipped_elsewhere id caps c id' :
  id' <> id -> captures (bind_skipped_outputs id caps c).1 !! id' = captures c !! id'.
Proof.
  intros Hne. unfold bind_skipped_outputs. rewrite <- (touch_elsewhere id c id' Hne). generalize (touch_entry id c). clear c.
  induction caps as [|cap caps IH]; intros c; simpl; [done|].
  destruct (cap_default cap); [|done]. rewrite IH. by apply record_capture_elsewhere.
Qed.

Create HintDb moves.

Section effects.
Context `{JsonText, UnicodeCase, Platform}.

Local Notation "'let*' x ':=' m 'in' k" := (bind m (fun x => k))
  (at level 10, x pattern, m at level 100, k at level 200) : run_scope.
Local Notation "'do' m ; k" := (bind m (fun _ => k))
  (at level 10, m at level 100, k at level 200) : run_scope.

(** * Growth *)

Section growth.
(** What may be observed, whether the supplied inputs stay as they are, and whose
    captures stay as they are. *)
Context (P : obs -> Prop) (fixed : bool) (K : string -> Prop).

Record grows (s s' : RunState) : Prop := {
  grows_trace : exists ext, trace s' = trace s ++ ext /\ Forall P ext;
  grows_supplied : fixed = true -> workflow_supplied s' = workflow_supplied s;
  grows_captures : forall id, K id -> captures (rs_ctx s') !! id = captures (rs_ctx s) !! id
}.

#[global] Instance grows_preorder : PreOrder grows.
Proof.
  split.
  - intros s. split; [exists []; by rewrite app_nil_r|done|done].
  - intros s1 s2 s3 [(e1 & E1 & P1) S1 C1] [(e2 & E2 & P2) S2 C2]. split.
    + exists (e1 ++ e2). rewrite E2, E1, app_assoc. split; [done|by apply Forall_app].
    + intros Hf. by rewrite S2, S1.
    + intros id Hk. by rewrite C2, C1.
Qed.

(** Whatever its result, [m] only grows the state. *)
Definition moves {A} (m : M A) : Prop := forall s, grows s (m s).2.

Lemma moves_pure {A} (r : RunState -> exec A) : moves (fun s => (r s, s)).
Proof. by intros s. Qed.

Lemma moves_ret {A} (a : A) : moves (ret a).
Proof. apply moves_pure. Qed.

Lemma moves_throw {A} e : moves (A := A) (throw e).
Proof. apply moves_pure. Qed.

Lemma moves_gets {A} (f : RunState -> A) : moves (gets f).
Proof. apply moves_pure. Qed.

Lemma moves_lift {A} (r : result A RuntimeError) : moves (lift r).
Proof. destruct r; [apply moves_ret|apply moves_throw]. Qed.

Lemma moves_bind {A B} (m : M A) (k : A -> M B) : moves m -> (forall a, moves (k a)) -> moves (bind m k).
Proof.
  intros Hm Hk s. unfold bind. specialize (Hm s). destruct (m s) as [[a|e|] s1]; simpl in *; try done.
  etransitivity; [exact Hm|apply Hk].
Qed.

Lemma moves_modify f :
  (forall s, trace (f s) = trace s /\ (fixed = true -> workflow_supplied (f s) = workflow_supplied s) /\
    (forall id, K id -> captures (rs_ctx (f s)) !! id = captures (rs_ctx s) !! id)) -> moves (modify f).
Proof.
  intros Hf s. destruct (Hf s) as (Ht & Hs & Hc). split; [|done|done].
  exists []. by rewrite app_nil_r.
Qed.

Lemma moves_ask {A} (o : A -> obs) f : (forall a, P (o a)) -> moves (ask o f).
Proof.
  intros Ho s. unfold ask. destruct (f (world s)) as [a w]. split; [|done|done].
  exists [o a]. split; [done|]. by repeat constructor.
Qed.

Lemma moves_query {A} (f : World -> A * World) : moves (query f).
Proof. intros s. unfold query. destruct (f (world s)) as [a w]. split; [|done|done]. exists []. by rewrite app_nil_r. Qed.

(** A rebinding of the context computed from the state. *)
Lemma moves_rebind {A B} (f : RunState -> WorkflowContext * A) (k : A -> M B) :
  (forall s id, K id -> captures (f s).1 !! id = captures (rs_ctx s) !! id) -> (forall r, moves (k r)) ->
  moves (let* bound := gets f in do update_ctx (fun _ => bound.1); k bound.2).
Proof.
  intros Hf Hk s. unfold bind, gets, update_ctx, modify.
  etransitivity; [|apply Hk]. split; [exists []; by rewrite app_nil_r|done|]. intros id Hid. by apply Hf.
Qed.
End growth.

(** * What the options allow *)

Section permitted.
Context (options : RunOptions) (steps : list CompiledStep).

Definition step_with (id : string) (Q : CompiledStep -> Prop) : Prop :=
  exists step, step ∈ steps /\ step_id step = id /\ Q step.

(** The conditions on each question to the world. *)
Definition permitted (o : obs) : Prop :=
  match o with
  | OEvent _ => True
  | OBriefing => assume_yes options = false
  | OCollect => review_steps options = true
  | OGather id => step_with id (fun step => step_kind step = Api)
  | OReview id => review_steps options = true /\ step_with id (fun step => step_kind step = Api)
  | OConfirm id _ => assume_yes options = false /\ dry_run options = false /\
      step_with id (fun step => step_kind step = Api /\ step_confirm step = true)
  | OFailureGate id _ => no_input options = false /\ dry_run options = false /\
      step_with id (fun step => continue_on_failure step = false)
  | ODispatch id => dry_run options = false /\ step_with id (fun step => step_kind step = Api)
  | OAction id dry => dry = dry_run options /\ step_with id (fun step => step_kind step = Local)
  end.

(** The questions whose conditions depend on what happened before. *)
Definition is_gather (o : obs) : Prop := match o with OGather _ => True | _ => False end.
Definition is_dispatch (o : obs) : Prop := match o with ODispatch _ => True | _ => False end.

Context (P : obs -> Prop) (fixed : bool) (K : string -> Prop).
Context (Hp : forall o, permitted o -> ~ is_gather o -> ~ is_dispatch o -> P o).

Local Notation moves := (moves P fixed K).

Lemma moves_emit e : moves (emit e).
Proof. apply moves_ask. intros _. apply Hp; [done|intros []..]. Qed.

Lemma moves_facts f : moves (modify (set_facts f)).
Proof. by apply moves_modify. Qed.

Lemma moves_summary x : moves (modify (push_summary x)).
Proof. by apply moves_modify. Qed.

Lemma moves_preview x : moves (modify (push_preview x)).
Proof. by apply moves_modify. Qed.

#[local] Hint Resolve moves_ret moves_throw moves_gets moves_lift moves_query moves_emit moves_facts
  moves_summary moves_preview : moves.

Ltac moving :=
  repeat first
    [ progress intros
    | solve [auto with moves]
    | apply moves_bind
    | match goal with |- moves (match ?x with _ => _ end) => destruct x end ].

Section step.
Context (step : CompiledStep) (Hin : step ∈ steps) (Hk : ~ K (step_id step)).

Lemma kept_not_own id : K id -> id <> step_id step.
Proof. by intros Hid ->. Qed.

Lemma moves_update f :
  (forall c id, id <> step_id step -> captures (f c) !! id = captures c !! id) -> moves (update_ctx f).
Proof.
  intros Hf. apply moves_modify. intros s. split_and!; [done|done|]. intros id Hid. apply Hf. by apply kept_not_own.
Qed.

Lemma moves_finish summary outcome reason attempts started error :
  moves (finish_step_terminal step summary outcome reason attempts started error).
Proof. unfold finish_step_terminal, finish_step, step_duration_ms. moving. Qed.

Lemma moves_skip reason tail attempts started error : moves (skip_step step reason tail attempts started error).
Proof.
  unfold skip_step.
  apply (moves_rebind P fixed K _ (fun r => do lift r; finish_step_terminal step _ Skipped (Some reason) attempts started error)).
  - intros s id Hid. apply bind_skipped_elsewhere. by apply kept_not_own.
  - intros r. apply moves_bind; [apply moves_lift|intros; apply moves_finish].
Qed.

Lemma moves_bind_outputs : moves (bind_outputs step).
Proof.
  unfold bind_outputs. apply (moves_rebind P fixed K _ (fun r => ret r)); [|intros; apply moves_ret].
  intros s id Hid. apply bind_outputs_elsewhere. by apply kept_not_own.
Qed.

#[local] Hint Resolve moves_finish moves_skip moves_bind_outputs : moves.

Lemma moves_fail reason started facts error : moves (fail_step step reason started facts error).
Proof. unfold fail_step. moving. Qed.

Lemma moves_cancel reason started : moves (cancel_step step reason started).
Proof. unfold cancel_step. moving. Qed.

Lemma moves_end_step started captures_of m :
  (forall o, moves (captures_of o)) -> moves m -> moves (bind m (end_step step started captures_of)).
Proof.
  intros Hc Hm. apply moves_bind; [done|]. intros [|o sm re at_ fa pe]; unfold end_step, step_duration_ms; moving.
Qed.

Lemma in_step (Q : CompiledStep -> Prop) : Q step -> step_with (step_id step) Q.
Proof. intros Hq. by exists step. Qed.

Lemma moves_decide error stage :
  dry_run options = false -> moves (decide_step_failure step error (no_input options) stage).
Proof.
  intros Hd. unfold decide_step_failure. destruct (continue_on_failure step) eqn:Ec; [moving|].
  destruct (skip_if_exists step && is_conflict error); [moving|]. destruct (no_input options) eqn:En; [moving|].
  apply moves_bind; [|moving]. apply moves_ask. intros a. apply Hp; [|intros []..].
  split_and!; [done|done|by apply in_step].
Qed.

Lemma moves_retry fuel started attempt facts_of attempts :
  dry_run options = false -> moves attempt -> (forall e, moves (facts_of e)) ->
  moves (retry_loop fuel step (no_input options) started attempt facts_of attempts).
Proof.
  intros Hd Ha Hf. revert attempts. induction fuel as [|fuel IH]; intros attempts; [by intros s|]. cbn [retry_loop].
  apply moves_bind; [done|]. intros [summary|error stage]; [apply moves_ret|].
  apply moves_bind; [by apply moves_decide|]. intros [reason tail| |reason]; [|apply IH|moving]; moving.
Qed.

(** ** Local steps *)

Lemma moves_store_local body : moves (update_ctx (store_local_step_body (step_id step) body)).
Proof. by apply moves_update. Qed.

Lemma moves_inject m : moves (update_ctx (inject_step_captures_for_dry_run (step_id step) m)).
Proof. apply moves_update. intros c id Hne. simpl. by rewrite lookup_insert_ne. Qed.

Lemma moves_action dry name inputs :
  dry = dry_run options -> step_kind step = Local ->
  moves (ask (fun _ => OAction (step_id step) dry) (run_action name (step_index step) inputs dry)).
Proof. intros Hd Hl. apply moves_ask. intros a. apply Hp; [|intros []..]. split; [done|by apply in_step]. Qed.

#[local] Hint Resolve moves_fail moves_cancel moves_store_local moves_inject : moves.

Lemma moves_local fuel started :
  step_kind step = Local -> moves (run_local_step fuel options step started).
Proof.
  intros Hl. unfold run_local_step, local_dry_run, local_run, local_inputs.
  do 2 (apply moves_bind; [apply moves_lift|intros]). destruct (dry_run options) eqn:Hd.
  - apply moves_bind; [apply moves_gets|]. intros [inputs|error]; [|apply moves_fail].
    apply moves_bind; [by apply moves_action|]. moving.
  - apply moves_bind; [apply moves_gets|]. intros [inputs|error]; [|apply moves_fail].
    apply moves_end_step; [intros; apply moves_ret|]. apply moves_retry; [done| |intros; apply moves_ret].
    unfold local_attempt. apply moves_bind; [by apply moves_action|]. moving.
Qed.

(** ** API steps *)

Section api.
Context (env : StepEnv) (Hstep : env_step env = step) (Hopt : env_options env = options) (Hapi : step_kind step = Api).

Lemma moves_failure_facts local error : moves (failure_facts env local error).
Proof. unfold failure_facts, step_input_fields_on_failure. moving. Qed.

#[local] Hint Resolve moves_failure_facts : moves.

Lemma moves_fail_api local reason error : moves (fail_api_step env local reason error).
Proof. unfold fail_api_step. rewrite Hstep. moving. Qed.

#[local] Hint Resolve moves_fail_api : moves.

Lemma moves_stop {A} m : moves m -> moves (stop (A := A) m).
Proof. intros Hm. unfold stop. moving. Qed.

Lemma moves_then {A B} (m : M (stage A)) (k : A -> M (stage B)) :
  moves m -> (forall a, moves (k a)) -> moves (then_stage m k).
Proof. intros Hm Hf. unfold then_stage. apply moves_bind; [done|]. intros [f|a]; [apply moves_ret|apply Hf]. Qed.

#[local] Hint Resolve moves_stop : moves.

Lemma moves_review : take_review_path env = true -> moves (review_inputs env).
Proof.
  intros Hr. unfold review_inputs. rewrite Hstep.
  do 2 (apply moves_bind; [auto with moves|intros]). destruct (should_pause_for_review _ _ _ _ _); [|moving].
  apply moves_bind; [|moving]. apply moves_ask. intros r. apply Hp; [|intros []..].
  unfold take_review_path in Hr. rewrite Hopt in Hr. split; [|by apply in_step]. by destruct (review_steps options).
Qed.

Lemma moves_assemble local : moves (assemble env local).
Proof. unfold assemble. moving. Qed.

Lemma moves_confirm local request : moves (confirm_gate env local request).
Proof.
  unfold confirm_gate, build_step_preview. rewrite Hstep, Hopt. destruct (needs_confirmation options step) eqn:En; [|moving].
  apply andb_true_iff in En as [En Hd%negb_true_iff]. apply andb_true_iff in En as [Hc Ha%negb_true_iff].
  apply moves_bind; [moving|]. intros [preview|error]; [|moving].
  apply moves_bind; [|moving]. apply moves_ask. intros r. apply Hp; [|intros []..].
  split_and!; [done|done|by apply in_step].
Qed.

Lemma moves_dry_dispatch local request : moves (dry_dispatch env local request).
Proof. unfold dry_dispatch, synthesise_dry_run_outputs. rewrite Hstep. moving. Qed.

Lemma moves_attempt request : P (ODispatch (step_id step)) -> moves (dispatch_attempt step request).
Proof.
  intros Hd. unfold dispatch_attempt. apply moves_bind; [by apply moves_ask|].
  assert (Hs : forall o, moves (update_ctx (store_step_output (step_id step) o))) by (intros; by apply moves_update).
  assert (Hb : forall b, moves (update_ctx (store_binary_output (step_id step) b))) by (intros; by apply moves_update).
  moving.
Qed.

Lemma moves_dispatch fuel local request :
  (dry_run options = false -> P (ODispatch (step_id step))) -> moves (dispatch fuel env local request).
Proof.
  intros Hdisp. unfold dispatch. rewrite Hstep, Hopt. apply moves_end_step; [intros []; moving|].
  destruct (dry_run options) eqn:Hd; [apply moves_dry_dispatch|].
  apply moves_retry; [done|by apply moves_attempt, Hdisp|apply moves_failure_facts].
Qed.
End api.
End step.

(** ** Before and after the steps *)

Lemma moves_briefing compiled : moves (briefing_phase compiled options).
Proof.
  unfold briefing_phase. destruct (wf_briefing _) as [b|]; [|apply moves_ret].
  destruct (assume_yes options) eqn:Ea; [apply moves_ret|]. apply moves_bind; [|intros [[]|e]; moving].
  apply moves_ask. intros a. apply Hp; [done|intros []..].
Qed.

Lemma moves_collect compiled (briefed : outcome_state) :
  (fixed = true -> review_steps options = false) ->
  moves (if is_success briefed.1 && review_steps options then collect_phase compiled options
         else ret (briefed, ReviewInputSteps)).
Proof.
  intros Hr. destruct (is_success briefed.1 && review_steps options) eqn:Er; [|apply moves_ret].
  apply andb_true_iff in Er as [_ Er]. unfold collect_phase. apply moves_bind; [apply moves_gets|]. intros supplied.
  apply moves_bind; [apply moves_ask; intros a; apply Hp; [done|intros []..]|]. intros [[c|]|e]; [|moving..].
  apply moves_bind; [|moving]. apply moves_modify. intros s. split_and!; [done| |done].
  intros Hf. by rewrite Hr in Er.
Qed.

Lemma moves_finish_run compiled started o : moves (finish_run compiled options started o).
Proof. unfold finish_run, step_duration_ms. moving. Qed.

(** ** Whole steps, when the gather form is allowed or not needed *)

Section gathering.
Context (inputs : list WorkflowInputSpec) (Ready : gmap string value -> Prop).
Context (Hready : fixed = true \/ forall supplied, Ready supplied).
Context (Hgather : forall step supplied, step ∈ steps -> step_kind step = Api -> Ready supplied ->
  compute_needed_inputs step supplied inputs = [] \/ (fixed = false /\ P (OGather (step_id step)))).
Context (Hdispatch : forall step, step ∈ steps -> step_kind step = Api -> dry_run options = false ->
  P (ODispatch (step_id step))).

Definition moves_ready {A} (m : M A) : Prop :=
  forall s, Ready (workflow_supplied s) -> grows P fixed K s (m s).2.

Lemma ready_moves {A} (m : M A) : moves m -> moves_ready m.
Proof. intros Hm s _. apply Hm. Qed.

Lemma ready_grows s s' : grows P fixed K s s' -> Ready (workflow_supplied s) -> Ready (workflow_supplied s').
Proof. intros [_ Hs _] Hr. destruct Hready as [->|Ha]; [by rewrite Hs|apply Ha]. Qed.

Lemma ready_bind {A B} (m : M A) (k : A -> M B) :
  moves_ready m -> (forall a, moves_ready (k a)) -> moves_ready (bind m k).
Proof.
  intros Hm Hk s Hr. unfold bind. specialize (Hm s Hr). destruct (m s) as [[a|e|] s1]; simpl in *; try done.
  etransitivity; [exact Hm|]. apply Hk. by eapply ready_grows.
Qed.

Section step.
Context (step : CompiledStep) (Hin : step ∈ steps) (Hk : ~ K (step_id step)).

Section api.
Context (env : StepEnv) (Hstep : env_step env = step) (Hopt : env_options env = options) (Hapi : step_kind step = Api).
Context (Hinputs : wf_inputs (env_compiled env) = inputs).

Lemma gather_ready : moves_ready (gather_inputs env).
Proof.
  intros s Hr. unfold gather_inputs. unfold bind at 1, gets at 1. rewrite Hstep, Hinputs.
  destruct (Hgather step (workflow_supplied s) Hin Hapi Hr) as [->|[Hf HP]]; [apply moves_ret|].
  destruct (compute_needed_inputs _ _ _) as [|n needed]; [apply moves_ret|]. revert s Hr.
  cut (forall v supplied (needed := n :: needed), moves (
    let* answer := ask (fun _ => OGather (step_id step)) (gather_workflow_inputs needed step v) in
    match answer with
    | Ok gathered =>
        let '(supplied, step_local) := foldl (apply_slot (slot_values gathered)) (supplied, ∅) needed in
        do modify (set_supplied (input_overrides gathered ∪ supplied));
        ret (Go step_local)
    | Err error => stop (fail_api_step env ∅ Gather error)
    end)); [intros Hc s _; by apply Hc|].
  intros v supplied needed'. apply moves_bind; [by apply moves_ask|]. intros [g|e].
  - destruct (foldl _ _ _) as [sup local]. apply moves_bind; [|intros; apply moves_ret].
    apply moves_modify. intros s. split_and!; [done| |done]. by rewrite Hf.
  - apply moves_stop. by eapply moves_fail_api.
Qed.

Lemma api_ready fuel : moves_ready (run_with_schema fuel env).
Proof.
  unfold run_with_schema. apply ready_bind.
  - unfold then_stage at 1. apply ready_bind.
    + unfold collect_step_inputs. destruct (take_review_path env) eqn:Er; [|apply gather_ready].
      apply ready_moves. by eapply moves_review.
    + intros [f|local]; [apply ready_moves, moves_ret|]. apply ready_moves.
      apply moves_then; [by eapply moves_assemble|intros request].
      apply moves_then; [by eapply moves_confirm|intros _]. apply moves_ret.
  - intros [f|[local request]]; apply ready_moves; [apply moves_ret|]. eapply moves_dispatch; eauto.
Qed.
End api.

Lemma step_ready fuel renv mode :
  re_options renv = options -> wf_inputs (re_compiled renv) = inputs -> moves_ready (run_step fuel renv mode step).
Proof.
  intros Ho Hi. unfold run_step. apply ready_bind; [apply ready_moves, moves_gets|]. intros started.
  apply ready_bind; [apply ready_moves, moves_emit|intros _]. apply ready_bind; [apply ready_moves, moves_facts|intros _].
  destruct (step_kind step) eqn:Ek; [|apply ready_moves; rewrite Ho; by apply moves_local].
  unfold run_api_step. apply ready_bind; [apply ready_moves, moves_lift|]. intros op.
  apply ready_bind; [apply ready_moves, moves_query|]. intros [schema|error]; [|by apply ready_moves, moves_fail].
  by apply api_ready.
Qed.
End step.

Lemma loop_ready fuel renv mode todo :
  re_options renv = options -> wf_inputs (re_compiled renv) = inputs ->
  todo ⊆ steps -> (forall step, step ∈ todo -> ~ K (step_id step)) -> moves_ready (step_loop fuel renv mode todo).
Proof.
  intros Ho Hi. induction todo as [|step todo IH]; intros Hsub Hk; [apply ready_moves, moves_ret|]. cbn [step_loop].
  apply ready_bind.
  - apply step_ready; [apply Hsub; left|apply Hk; left|done|done].
  - intros [|o err]; [|apply ready_moves, moves_ret]. apply IH; [set_solver|]. intros st Hst. apply Hk. by right.
Qed.

Lemma body_ready fuel renv before :
  re_options renv = options -> wf_inputs (re_compiled renv) = inputs -> wf_steps (re_compiled renv) = steps ->
  (forall step, step ∈ steps -> ~ K (step_id step)) -> (fixed = true -> review_steps options = false) ->
  moves_ready (run_body fuel renv before).
Proof.
  intros Ho Hi Hs Hk Hr. unfold run_body. rewrite Ho, Hi, Hs. apply ready_bind; [apply ready_moves, moves_briefing|].
  intros briefed. apply ready_bind; [by apply ready_moves, moves_collect|]. intros [o mode]. apply ready_bind; [apply ready_moves, moves_gets|]. intros after.
  apply ready_bind; [apply ready_moves, moves_facts|]. intros _. destruct (is_success _); [|apply ready_moves, moves_ret].
  by apply loop_ready.
Qed.

(** A whole run, from the seeded inputs. *)
Lemma execute_ready fuel compiled supplied w :
  wf_inputs compiled = inputs -> wf_steps compiled = steps ->
  (forall step, step ∈ steps -> ~ K (step_id step)) -> (fixed = true -> review_steps options = false) ->
  (no_input options = true ->
   no_input_precheck compiled (seed_defaults compiled supplied).1 (dry_run options) (assume_yes options) = [] ->
   Ready (seed_defaults compiled supplied).1) ->
  (no_input options = false -> Ready (seed_defaults compiled supplied).1) ->
  let s0 := start_state w (seed_defaults compiled supplied).1 in
  grows P fixed K s0 (execute fuel compiled supplied options w).2.
Proof.
  intros Hi Hs Hk Hr Hpre Hfree s0. unfold execute, s0. destruct (seed_defaults compiled supplied) as [seeded defaults].
  cbn [fst] in *. destruct (if no_input options then _ else _) eqn:Ev; [|reflexivity].
  assert (Hready0 : Ready seeded) by (destruct (no_input options); auto).
  cut (moves_ready (do emit (WorkflowStarted compiled);
    let* o := run_body fuel (mk_run_env compiled options (dom supplied) defaults) seeded in
    finish_run compiled options (instant w) o)); [intros Hm; by apply Hm|].
  apply ready_bind; [apply ready_moves, moves_emit|]. intros _. apply ready_bind; [by apply body_ready|].
  intros o. apply ready_moves, moves_finish_run.
Qed.
End gathering.
End permitted.

(** * Every question of a run *)

(** Whatever the world answers and however the run ends, each question it asked
    was allowed: a dry run never dispatches an API step, runs its local actions in
    dry mode only and never asks for confirmation or at the failure gate;
    [assume_yes] removes the briefing and the confirmations; [no_input] removes the
    failure gate; without [review_steps] no form is shown at the start and no step
    is reviewed; a confirmation is asked only for a step that declares one, and the
    failure gate only for a step that does not tolerate failures. *)
Theorem questions_permitted fuel compiled supplied options w o :
  o ∈ trace (execute fuel compiled supplied options w).2 -> permitted options (wf_steps compiled) o.
Proof.
  destruct (execute_ready options (wf_steps compiled) (permitted options (wf_steps compiled)) false (fun _ => False)
    (fun o Ho _ _ => Ho) (wf_inputs compiled) (fun _ => True) (or_intror (fun _ => I))) with
    (fuel := fuel) (compiled := compiled) (supplied := supplied) (w := w) as [(ext & -> & Hall) _ _]; try done.
  - intros step sup Hs Ha _. right. split; [done|]. by exists step.
  - intros step Hs Ha Hd. split; [done|]. by exists step.
  - intros step _ [].
  - simpl. intros Ho. by eapply Forall_forall in Hall.
Qed.

(** * Non-interactive runs *)

Lemma simulate_nothing_needed compiled dry assume steps supplied :
  precheck_loop compiled dry assume steps supplied = [] ->
  forall step, step ∈ steps ->
    compute_needed_inputs step supplied (wf_inputs compiled) = [] /\
    (step_confirm step && negb dry && negb assume = false).
Proof.
  induction steps as [|s0 steps IH]; simpl; intros Hn step Hs; [by apply not_elem_of_nil in Hs|].
  apply app_eq_nil in Hn as [Hm Hn]. apply map_eq_nil in Hm. rewrite Hm in Hn. simpl in Hn.
  apply app_eq_nil in Hn as [Hc Hn]. apply elem_of_cons in Hs as [->|Hs]; [|by apply IH].
  split; [done|]. by destruct (_ && _).
Qed.

(** The prompts of a frontend. *)
Definition is_prompt (o : obs) : Prop :=
  match o with OCollect | OGather _ | OReview _ | OConfirm _ _ | OFailureGate _ _ => True | _ => False end.

Lemma unprompted options compiled supplied o :
  no_input options = true -> review_steps options = false ->
  no_input_precheck compiled supplied (dry_run options) (assume_yes options) = [] ->
  permitted options (wf_steps compiled) o -> ~ is_gather o -> ~ is_prompt o.
Proof.
  intros Hn Hr Hpre. pose proof (simulate_nothing_needed _ _ _ _ _ Hpre) as Hall.
  destruct o; simpl; try tauto; try (rewrite Hr; intros; naive_solver).
  - intros (Ha & Hd & step & Hs & _ & _ & Hc) _ _. destruct (Hall step Hs) as [_ Hx]. by rewrite Hc, Ha, Hd in Hx.
  - intros (Hx & _) _ _. by rewrite Hn in Hx.
Qed.

(** An unattended run ([no_input], without reviews) shows no form and asks
    nothing, whether or not the precheck lets it start: no collection, gather,
    review, confirmation or failure prompt. *)
Theorem unattended_never_prompts fuel compiled supplied options w o :
  no_input options = true -> review_steps options = false ->
  o ∈ trace (execute fuel compiled supplied options w).2 -> ~ is_prompt o.
Proof.
  intros Hn Hr. set (seeded := (seed_defaults compiled supplied).1).
  destruct (no_input_precheck compiled seeded (dry_run options) (assume_yes options)) as [|v vs] eqn:Hpre.
  2:{ unfold execute. subst seeded. destruct (seed_defaults compiled supplied) as [sd df]. simpl in Hpre.
      rewrite Hn, Hpre. simpl. intros Ho. by apply not_elem_of_nil in Ho. }
  pose proof (simulate_nothing_needed _ _ _ _ _ Hpre) as Hall.
  destruct (execute_ready options (wf_steps compiled) (fun o => ~ is_prompt o) true (fun _ => False)
    (fun o Ho Hg _ => unprompted options compiled seeded o Hn Hr Hpre Ho Hg) (wf_inputs compiled) (eq seeded)
    (or_introl eq_refl)) with (fuel := fuel) (compiled := compiled) (supplied := supplied) (w := w)
    as [(ext & -> & Hno) _ _]; try done.
  - intros step sup Hs Ha <-. left. by apply Hall.
  - intros step Hs Ha Hd. by intros [].
  - intros step _ [].
  - simpl. intros Ho. by eapply (proj1 (Forall_forall _ _) Hno).
Qed.

(** * Confirmed dispatches *)

Section confirmed.
Context (options : RunOptions) (steps : list CompiledStep).

Definition confirmed_by (id : string) (tr : list obs) : Prop :=
  step_with steps id (fun step => needs_confirmation options step = true -> OConfirm id (Ok ConfirmProceed) ∈ tr).

(** Each dispatch comes after its confirmation. *)
Definition confirmed (tr : list obs) : Prop :=
  forall pre post id, tr = pre ++ ODispatch id :: post -> confirmed_by id pre.

Lemma confirmed_grows P fixed K s s' :
  grows P fixed K s s' -> (forall id, P (ODispatch id) -> confirmed_by id (trace s)) ->
  confirmed (trace s) -> confirmed (trace s').
Proof.
  intros [(ext & -> & Hall) _ _] Hd Hc pre post id Ht.
  destruct (decide (length (trace s) <= length pre)%nat) as [Hle|Hlt].
  - destruct (app_eq_inv _ _ _ _ Ht) as [(l & Hs & He)|(l & Hs & He)].
    + rewrite Hs in Hle. rewrite length_app in Hle. destruct l; [|simpl in Hle; lia].
      rewrite app_nil_r in Hs. subst pre. simpl in He. apply Hd.
      rewrite <- He in Hall. by apply Forall_cons in Hall as [? _].
    + rewrite He in Hall. apply Forall_app in Hall as [_ [Hi _]%Forall_cons].
      destruct (Hd id Hi) as (step & Hst & Hid & Hn). exists step. split_and!; [done|done|].
      intros Hnc. rewrite Hs. apply elem_of_app. left. by apply Hn.
  - destruct (app_eq_inv _ _ _ _ Ht) as [(l & Hs & He)|(l & Hs & He)].
    + destruct l as [|o l]; [rewrite app_nil_r in Hs; subst pre; lia|]. injection He as <- He.
      by apply (Hc pre l id).
    + rewrite Hs, length_app in Hlt. lia.
Qed.

Definition keeps_confirmed {A} (m : M A) : Prop := forall s, confirmed (trace s) -> confirmed (trace (m s).2).

Lemma confirmed_bind {A B} (m : M A) (k : A -> M B) :
  keeps_confirmed m -> (forall a, keeps_confirmed (k a)) -> keeps_confirmed (bind m k).
Proof.
  intros Hm Hk s Hs. unfold bind. specialize (Hm s Hs). destruct (m s) as [[a|e|] s1]; simpl in *; try done.
  by apply Hk.
Qed.

Definition silent (o : obs) : Prop := ~ is_dispatch o.

Lemma silent_confirmed {A} (m : M A) : moves silent false (fun _ => False) m -> keeps_confirmed m.
Proof. intros Hm s Hs. eapply confirmed_grows; [apply Hm| |done]. intros id []. done. Qed.

Lemma silent_all o : permitted options steps o -> ~ is_gather o -> ~ is_dispatch o -> silent o.
Proof. done. Qed.

(** The gate opens for a step that needs it only after [ConfirmProceed]. *)
Lemma confirm_gate_asks env local request s s' :
  confirm_gate env local request s = (Ret (Go tt), s') ->
  needs_confirmation (env_options env) (env_step env) = true ->
  OConfirm (step_id (env_step env)) (Ok ConfirmProceed) ∈ trace s'.
Proof.
  intros Hg Hn. unfold confirm_gate in Hg. rewrite Hn in Hg. unfold bind at 1 in Hg.
  destruct (build_step_preview _ _ _ s) as [[[preview|error]|e|] s1]; try done.
  unfold bind, ask in Hg. destruct (confirm_step _ _ _) as [[[| |]|e] w]; try done.
  - injection Hg as <-. simpl. apply elem_of_app. right. by left.
  - destruct (is_optional _); [|done]. by destruct (skip_step _ _ _ _ _ _ _) as [[?|?|] ?].
Qed.

Section step.
Context (env : StepEnv) (Hin : env_step env ∈ steps) (Hopt : env_options env = options) (Hapi : step_kind (env_step env) = Api).

Lemma silent_collect : keeps_confirmed (collect_step_inputs env).
Proof.
  apply silent_confirmed. unfold collect_step_inputs. destruct (take_review_path env) eqn:Er.
  - eapply (moves_review options steps silent false _ silent_all (env_step env)); auto.
  - intros s. eapply (gather_ready options steps silent false (fun _ => False) silent_all (wf_inputs (env_compiled env))
      (fun _ => True)); [|eauto..]. intros step sup _ _ _. right. split; [done|intros []].
Qed.

Lemma silent_assemble local : keeps_confirmed (assemble env local).
Proof. apply silent_confirmed. eapply (moves_assemble options steps silent false _ silent_all (env_step env)); auto. Qed.

Lemma silent_confirm local request : keeps_confirmed (confirm_gate env local request).
Proof. apply silent_confirmed. eapply (moves_confirm options steps silent false _ silent_all (env_step env)); auto. Qed.

Lemma dispatch_confirmed fuel local request s :
  (needs_confirmation options (env_step env) = true -> OConfirm (step_id (env_step env)) (Ok ConfirmProceed) ∈ trace s) ->
  confirmed (trace s) -> confirmed (trace (dispatch fuel env local request s).2).
Proof.
  intros Hn. set (P o := match o with ODispatch id => id = step_id (env_step env) | _ => True end).
  assert (HP : forall o, permitted options steps o -> ~ is_gather o -> ~ is_dispatch o -> P o).
  { intros [] _ _ Ho; try exact I. by destruct Ho. }
  apply (confirmed_grows P false (fun _ => False)); [|intros id ->; by exists (env_step env)].
  eapply (moves_dispatch options steps P false _ HP (env_step env)); auto. by intros _.
Qed.

Lemma schema_confirmed fuel : keeps_confirmed (run_with_schema fuel env).
Proof.
  intros s Hs. unfold run_with_schema, then_stage, bind.
  pose proof (silent_collect s Hs) as H1'. destruct (collect_step_inputs env s) as [[[f|local]|e|] s1]; try done. simpl in H1'.
  pose proof (silent_assemble local s1 H1') as H2'. destruct (assemble env local s1) as [[[f|request]|e|] s2]; try done. simpl in H2'.
  pose proof (silent_confirm local request s2 H2') as H3'.
  destruct (confirm_gate env local request s2) as [[[f|[]]|e|] s3] eqn:Ec; try done. simpl in H3'.
  apply dispatch_confirmed; [|done]. rewrite <- Hopt. by eapply confirm_gate_asks.
Qed.
End step.

Lemma step_confirmed fuel renv mode step :
  step ∈ steps -> re_options renv = options -> keeps_confirmed (run_step fuel renv mode step).
Proof.
  intros Hin Ho. unfold run_step.
  do 3 (apply confirmed_bind; [apply silent_confirmed; first [apply moves_gets|apply moves_facts|apply moves_ask; intros _ []]|intros]).
  destruct (step_kind step) eqn:Ek.
  - unfold run_api_step. apply confirmed_bind; [apply silent_confirmed, moves_lift|]. intros op.
    apply confirmed_bind; [apply silent_confirmed, moves_query|]. intros [schema|error].
    + by apply schema_confirmed.
    + apply silent_confirmed. eapply (moves_fail options steps silent false _ silent_all step); auto.
  - apply silent_confirmed. rewrite Ho. eapply (moves_local options steps silent false _ silent_all step); auto.
Qed.

Lemma loop_confirmed fuel renv mode todo :
  todo ⊆ steps -> re_options renv = options -> keeps_confirmed (step_loop fuel renv mode todo).
Proof.
  intros Hsub Ho. induction todo as [|step todo IH]; [by intros s|]. cbn [step_loop].
  apply confirmed_bind; [apply step_confirmed; [apply Hsub; left|done]|].
  intros [|o err]; [apply IH; set_solver|by intros s].
Qed.

Lemma body_confirmed fuel renv before :
  wf_steps (re_compiled renv) = steps -> re_options renv = options -> keeps_confirmed (run_body fuel renv before).
Proof.
  intros Hs Ho. unfold run_body. rewrite Hs, Ho.
  apply confirmed_bind; [apply silent_confirmed, (moves_briefing options steps), silent_all|]. intros briefed.
  apply confirmed_bind; [apply silent_confirmed, (moves_collect options steps); [apply silent_all|done]|]. intros c.
  apply confirmed_bind; [apply silent_confirmed, moves_gets|]. intros after.
  apply confirmed_bind; [apply silent_confirmed, moves_facts|]. intros _.
  destruct (is_success _); [by apply loop_confirmed|apply silent_confirmed, moves_ret].
Qed.
End confirmed.

Lemma execute_confirmed fuel compiled supplied options w :
  confirmed options (wf_steps compiled) (trace (execute fuel compiled supplied options w).2).
Proof.
  unfold execute. destruct (seed_defaults compiled supplied) as [seeded defaults].
  assert (Hnil : forall s, trace s = [] -> confirmed options (wf_steps compiled) (trace s)).
  { intros s -> pre post id Ht. by destruct pre. }
  destruct (if no_input options then _ else _); [|by apply Hnil].
  cut (keeps_confirmed options (wf_steps compiled) (do emit (WorkflowStarted compiled);
    let* o := run_body fuel (mk_run_env compiled options (dom supplied) defaults) seeded in
    finish_run compiled options (instant w) o)); [intros Hm; by apply Hm, Hnil|].
  apply confirmed_bind; [apply silent_confirmed, moves_ask; intros _ []|]. intros _.
  apply confirmed_bind; [by apply body_confirmed|]. intros o.
  apply silent_confirmed, (moves_finish_run options (wf_steps compiled)), silent_all.
Qed.

(** [C2] A step that declares [confirm] is dispatched only after the frontend
    confirmed it: in the trace of any run that neither assumes yes nor is dry, every
    dispatch of the step, first try or retry, has a [Proceed] answer of that step's
    confirmation before it. *)
Theorem dispatch_after_confirmation fuel compiled supplied options w step pre post :
  NoDup (map step_id (wf_steps compiled)) -> step ∈ wf_steps compiled -> needs_confirmation options step = true ->
  trace (execute fuel compiled supplied options w).2 = pre ++ ODispatch (step_id step) :: post ->
  OConfirm (step_id step) (Ok ConfirmProceed) ∈ pre.
Proof.
  intros Hnd Hin Hn Ht. destruct (execute_confirmed fuel compiled supplied options w pre post _ Ht)
    as (step' & Hin' & Hid & Hc).
  assert (step' = step) as ->; [|by apply Hc]. by eapply ids_unique.
Qed.

(** * The outputs of a skipped step *)

Definition anything (o : obs) : Prop := True.

(** The loop over [todo] leaves the captures of every other step alone. *)
Lemma loop_elsewhere fuel renv mode todo s :
  grows anything false (fun id => id ∉ map step_id todo) s (step_loop fuel renv mode todo s).2.
Proof.
  apply (loop_ready (re_options renv) todo anything false (fun id => id ∉ map step_id todo) (fun _ _ _ _ => I)
    (wf_inputs (re_compiled renv)) (fun _ => True) (or_intror (fun _ => I))); try done.
  - intros step sup _ _ _. by right.
  - intros step Hin Hno. by apply Hno, list_elem_of_fmap_2.
Qed.

Lemma safely_skipped_grows P fixed (K : string -> Prop) step s s' :
  grows P fixed K s s' -> K (step_id step) -> safely_skipped step s -> safely_skipped step s'.
Proof.
  intros [_ _ Hc] Hk Hs cap Hcap. destruct (Hs cap Hcap) as [Hd Hr]. split; [done|].
  unfold resolve_step_reference in *. by rewrite Hc.
Qed.

Lemma finished_events todo e : forall e', StepFinished e ∈ step_events todo e' -> e = e'.
Proof. intros e' He. unfold step_events in He. set_solver. Qed.

Lemma loop_skips fuel renv mode todo s r s' :
  NoDup (map step_id todo) -> step_loop fuel renv mode todo s = (Ret r, s') ->
  forall e, StepFinished e ∈ events s' -> sf_outcome e = Skipped ->
    StepFinished e ∈ events s \/ exists step, step ∈ todo /\ reports step e /\ safely_skipped step s'.
Proof.
  revert s. induction todo as [|step todo IH]; intros s Hnd; cbn [step_loop]; [intros [= _ <-]; auto|].
  apply NoDup_cons in Hnd as [Hno Hnd]. unfold bind. pose proof (run_step_spec fuel renv mode step s) as Hs.
  destruct (run_step fuel renv mode step s) as [[f|?|] s1]; try done.
  destruct Hs as (e0 & Hev & Hid & Hix & _ & Hsk & _).
  assert (Hown : forall e, StepFinished e ∈ events s1 -> sf_outcome e = Skipped ->
    StepFinished e ∈ events s \/ (reports step e /\ safely_skipped step s1)).
  { intros e He Ho. rewrite Hev in He. apply elem_of_app in He as [He|He]; [by left|].
    apply finished_events in He as ->. right. by split; [|apply Hsk]. }
  destruct f as [|o err].
  - intros Hl e He Ho. destruct (IH s1 Hnd Hl e He Ho) as [He1|(st & Hin & Hr)].
    + destruct (Hown e He1 Ho) as [?|[Hr Hsafe]]; [by left|]. right. exists step. split_and!; [by left|done|].
      pose proof (loop_elsewhere fuel renv mode todo s1) as Hg. rewrite Hl in Hg. simpl in Hg.
      by eapply safely_skipped_grows.
    + right. exists st. split; [by right|done].
  - intros [= _ <-] e He Ho. destruct (Hown e He Ho) as [?|Hr]; [by left|]. right. exists step. split; [by left|done].
Qed.

(** At the end of a run that returns, every output of every step it reported
    skipped has a declared default and resolves in the context, so that no later
    reference to a skipped step is left without a value. *)
Theorem skipped_outputs_bound fuel compiled supplied options w r s' e :
  NoDup (map step_id (wf_steps compiled)) ->
  execute fuel compiled supplied options w = (Ret r, s') ->
  StepFinished e ∈ events s' -> sf_outcome e = Skipped ->
  exists step, step ∈ wf_steps compiled /\ reports step e /\ safely_skipped step s'.
Proof.
  intros Hnd Hx He Ho. revert Hx. unfold execute. destruct (seed_defaults compiled supplied) as [seeded defaults].
  destruct (if no_input options then _ else _); [|done].
  unfold bind at 1, emit at 1, ask at 1. unfold bind at 1. unfold run_body. rewrite <- bind_assoc. unfold bind at 1.
  set (s0 := mk_run _ _ _ _ _ _ _).
  pose proof (opening_is_phase compiled options s0) as Hopen. cbn [re_compiled re_options] in *.
  destruct (bind (briefing_phase compiled options) _ s0) as [[c|?|] s1]; try done.
  destruct Hopen as (Hev1 & _ & _). unfold bind at 1, gets at 1. unfold bind at 1, modify at 1.
  set (s2 := set_facts _ s1). assert (Hnone : StepFinished e ∉ events s2) by (change (events s2) with (events s1); rewrite Hev1; set_solver).
  assert (Hfin : forall o s3, finish_run compiled options (instant w) o s3 = (Ret r, s') ->
    rs_ctx s' = rs_ctx s3 /\ (StepFinished e ∈ events s' -> StepFinished e ∈ events s3)).
  { intros o s3. unfold finish_run, bind, gets, modify, emit, ask, step_duration_ms. intros [= _ <-]. split; [done|].
    unfold events. simpl. rewrite omap_app. set_solver. }
  destruct (is_success c.1.1).
  - destruct (step_loop _ _ _ _ s2) as [[o|?|] s3] eqn:El; try done. intros Hf.
    destruct (Hfin o s3 Hf) as [Hctx Hin].
    destruct (loop_skips _ _ _ _ _ _ _ Hnd El e (Hin He) Ho) as [?|(step & Hst & Hr & Hsafe)]; [done|].
    exists step. split_and!; [done|done|]. intros cap Hc. rewrite Hctx. by apply Hsafe.
  - intros Hf. destruct (Hfin c.1 s2 Hf) as [_ Hin]. by apply Hin in He.
Qed.

(** * Termination *)

Definition is_retry (id : string) (o : obs) : bool :=
  match o with OFailureGate id' (Ok ActionRetry) => String.eqb id' id | _ => false end.

(** How often the failure gate of a step was answered with [Retry]. *)
Definition retries (id : string) (tr : list obs) : nat := length (List.filter (is_retry id) tr).

(** When [m] runs out of fuel, some step was retried [n] times. *)
Definition starves (n : nat) {A} (m : M A) : Prop :=
  forall s, match m s with (OutOfFuel, s') => exists id, (n <= retries id (trace s'))%nat | _ => True end.

(** [m] never runs out of fuel. *)
Definition total {A} (m : M A) : Prop := forall s, (m s).1 <> OutOfFuel.

Lemma total_bind {A B} (m : M A) (k : A -> M B) : total m -> (forall a, total (k a)) -> total (bind m k).
Proof. intros Hm Hk s. unfold bind. specialize (Hm s). destruct (m s) as [[a|e|] s1]; [apply Hk|done|done]. Qed.
Lemma total_ret {A} (a : A) : total (ret a).
Proof. by intros s. Qed.
Lemma total_throw {A} e : total (A := A) (throw e).
Proof. by intros s. Qed.
Lemma total_gets {A} (f : RunState -> A) : total (gets f).
Proof. by intros s. Qed.
Lemma total_modify f : total (modify f).
Proof. by intros s. Qed.
Lemma total_lift {A} (r : result A RuntimeError) : total (lift r).
Proof. by destruct r; intros s. Qed.
Lemma total_ask {A} (o : A -> obs) f : total (ask o f).
Proof. intros s. unfold ask. by destruct (f (world s)). Qed.
Lemma total_query {A} (f : World -> A * World) : total (query f).
Proof. intros s. unfold query. by destruct (f (world s)). Qed.

Create HintDb total.
#[local] Hint Resolve total_ret total_throw total_gets total_modify total_lift total_ask total_query : total.

Ltac totally :=
  repeat first
    [ progress intros
    | solve [auto with total]
    | apply total_bind
    | match goal with |- total (match ?x with _ => _ end) => destruct x end ].

Lemma total_skip step reason tail attempts started error : total (skip_step step reason tail attempts started error).
Proof. unfold skip_step, update_ctx, finish_step_terminal, finish_step, step_duration_ms, emit. totally. Qed.

Lemma total_fail step reason started facts error : total (fail_step step reason started facts error).
Proof. unfold fail_step, finish_step_terminal, finish_step, step_duration_ms, emit. totally. Qed.

Lemma total_facts env local error : total (failure_facts env local error).
Proof. unfold failure_facts, step_input_fields_on_failure. totally. Qed.

#[local] Hint Resolve total_skip total_fail total_facts : total.

Lemma total_fail_api env local reason error : total (fail_api_step env local reason error).
Proof. unfold fail_api_step. totally. Qed.

Lemma total_cancel step reason started : total (cancel_step step reason started).
Proof. unfold cancel_step, finish_step_terminal, finish_step, step_duration_ms, emit. totally. Qed.

Lemma total_bind_outputs step : total (bind_outputs step).
Proof. unfold bind_outputs, update_ctx. totally. Qed.

Lemma total_decide step error ni stage : total (decide_step_failure step error ni stage).
Proof. unfold decide_step_failure. totally. Qed.

#[local] Hint Resolve total_fail_api total_cancel total_bind_outputs total_decide : total.

Lemma total_end_step step started captures_of r :
  (forall o, total (captures_of o)) -> total (end_step step started captures_of r).
Proof. intros Hc. unfold end_step, step_duration_ms, emit. totally. Qed.

Lemma total_attempt step request : total (dispatch_attempt step request).
Proof. unfold dispatch_attempt, update_ctx. totally. Qed.

Lemma total_local_attempt step action inputs : total (local_attempt step action inputs).
Proof. unfold local_attempt, update_ctx. totally. Qed.

Lemma total_dry_dispatch env local request : total (dry_dispatch env local request).
Proof. unfold dry_dispatch, synthesise_dry_run_outputs, update_ctx. totally. Qed.

Lemma total_local_dry step action started : total (local_dry_run step action started).
Proof.
  unfold local_dry_run, local_inputs, update_ctx, finish_step_terminal, finish_step, step_duration_ms, emit. totally.
Qed.

Lemma total_collect env : total (collect_step_inputs env).
Proof.
  unfold collect_step_inputs, review_inputs, gather_inputs, stop. destruct (take_review_path env); [totally|].
  apply total_bind; [totally|]. intros supplied. destruct (compute_needed_inputs _ _ _) as [|n needed]; [totally|].
  apply total_bind; [totally|]. intros [g|e]; [|totally]. destruct (foldl _ _ _). totally.
Qed.

Lemma total_assemble env local : total (assemble env local).
Proof. unfold assemble, stop. totally. Qed.

Lemma total_confirm env local request : total (confirm_gate env local request).
Proof. unfold confirm_gate, build_step_preview, stop. totally. Qed.

(** A retry is one more [Retry] answer. *)
Lemma decide_retries step error ni stage s s' :
  decide_step_failure step error ni stage s = (Ret DispRetry, s') ->
  retries (step_id step) (trace s') = S (retries (step_id step) (trace s)).
Proof.
  unfold decide_step_failure. destruct (continue_on_failure step); [done|]. destruct (_ && _); [done|].
  destruct ni; [done|]. unfold bind, ask, lift. destruct (resolve_step_failure _ _ _ _) as [[[| |]|e] w]; try done.
  - intros [= <-]. unfold retries. simpl. rewrite List.filter_app, length_app. simpl. rewrite String.eqb_refl. simpl. lia.
  - simpl. by destruct (is_safely_skippable step).
Qed.

Lemma retries_grow {A} (m : M A) id s : moves anything false (fun _ => False) m ->
  (retries id (trace s) <= retries id (trace (m s).2))%nat.
Proof. intros Hm. destruct (Hm s) as [(ext & -> & _) _ _]. unfold retries. rewrite List.filter_app, length_app. lia. Qed.

Lemma starved_retry fuel step ni started attempt facts_of attempts s :
  moves anything false (fun _ => False) attempt -> total attempt -> (forall e, total (facts_of e)) ->
  match retry_loop fuel step ni started attempt facts_of attempts s with
  | (OutOfFuel, s') => (fuel + retries (step_id step) (trace s) <= retries (step_id step) (trace s'))%nat
  | _ => True
  end.
Proof.
  intros Hg Ha Hf. revert attempts s. induction fuel as [|fuel IH]; intros attempts s; [simpl; lia|]. cbn [retry_loop].
  unfold bind at 1. pose proof (retries_grow attempt (step_id step) s Hg) as Hm. specialize (Ha s).
  destruct (attempt s) as [[[summary|error stage]|e|] s1] eqn:Ea; try done. simpl in Hm.
  unfold bind at 1. pose proof (total_decide step error ni stage s1) as Ht.
  destruct (decide_step_failure step error ni stage s1) as [[[reason tail| |reason]|e|] s2] eqn:Ed; try done.
  - assert (Hto : total (let* facts := facts_of error in
      do skip_step step reason tail (next_attempt attempts) started (Some facts); ret LoopSkipped)) by totally.
    specialize (Hto s2). by destruct (bind _ _ s2) as [[?|?|] ?].
  - apply decide_retries in Ed. specialize (IH (next_attempt attempts) s2).
    destruct (retry_loop _ _ _ _ _ _ _ s2) as [[?|?|] s']; try done. lia.
  - assert (Hto : total (let* facts := facts_of error in
      ret (LoopDone Failed (failed_summary step) (Some reason) (next_attempt attempts) (Some facts) (Some error)))) by totally.
    specialize (Hto s2). by destruct (bind _ _ s2) as [[?|?|] ?].
Qed.

(** ** Runs *)

Lemma starves_total n {A} (m : M A) : total m -> starves n m.
Proof. intros Hm s. specialize (Hm s). by destruct (m s) as [[a|e|] s']. Qed.

Lemma starves_bind n {A B} (m : M A) (k : A -> M B) : starves n m -> (forall a, starves n (k a)) -> starves n (bind m k).
Proof. intros Hm Hk s. unfold bind. specialize (Hm s). destruct (m s) as [[a|e|] s1]; [apply Hk|done|done]. Qed.

Lemma starves_loop n fuel step ni started attempt facts_of :
  (n <= fuel)%nat -> moves anything false (fun _ => False) attempt -> total attempt -> (forall e, total (facts_of e)) ->
  starves n (retry_loop fuel step ni started attempt facts_of 0).
Proof.
  intros Hn Hg Ha Hf s. pose proof (starved_retry fuel step ni started attempt facts_of 0 s Hg Ha Hf) as Hs.
  destruct (retry_loop _ _ _ _ _ _ _ s) as [[?|?|] s']; try done. exists (step_id step). lia.
Qed.

Ltac starving := first [apply starves_total; solve [totally]|apply starves_bind; [apply starves_total; solve [totally]|intros]].

Lemma starves_dispatch fuel env local request : starves fuel (dispatch fuel env local request).
Proof.
  unfold dispatch. apply starves_bind; [|intros; apply starves_total, total_end_step; intros []; totally].
  destruct (dry_run _); [apply starves_total, total_dry_dispatch|].
  apply starves_loop; [done| |apply total_attempt|intros; apply total_facts]. apply moves_attempt; [intros []|done].
Qed.

Lemma starves_local fuel options step started : starves fuel (run_local_step fuel options step started).
Proof.
  unfold run_local_step, local_run, local_inputs. do 2 starving. destruct (dry_run options); [apply starves_total, total_local_dry|].
  apply starves_bind; [apply starves_total, total_gets|]. intros [inputs|error]; [|apply starves_total, total_fail].
  apply starves_bind; [|intros; apply starves_total, total_end_step; intros; apply total_ret].
  apply starves_loop; [done| |apply total_local_attempt|intros; apply total_ret].
  unfold local_attempt. apply moves_bind; [by apply moves_ask|].
  intros [body|error]; [|apply moves_ret]. apply moves_bind; [apply moves_store_local; intros []|intros _].
  apply moves_bind; [apply moves_bind_outputs; intros []|intros []; apply moves_ret].
Qed.

Lemma starves_step fuel renv mode step : starves fuel (run_step fuel renv mode step).
Proof.
  unfold run_step, run_api_step. apply starves_bind; [apply starves_total, total_gets|]. intros started.
  apply starves_bind; [apply starves_total, total_ask|]. intros _.
  apply starves_bind; [apply starves_total, total_modify|]. intros _.
  destruct (step_kind step); [|apply starves_local].
  apply starves_bind; [apply starves_total, total_lift|]. intros op.
  apply starves_bind; [apply starves_total, total_query|]. intros [schema|error]; [|apply starves_total, total_fail].
  unfold run_with_schema, then_stage. apply starves_bind.
  - apply starves_total. apply total_bind; [apply total_collect|]. intros [f|local]; [apply total_ret|].
    apply total_bind; [apply total_assemble|]. intros [f|request]; [apply total_ret|].
    apply total_bind; [apply total_confirm|]. intros [f|[]]; apply total_ret.
  - intros [f|[local request]]; [apply starves_total, total_ret|apply starves_dispatch].
Qed.

Lemma starves_steps fuel renv mode steps : starves fuel (step_loop fuel renv mode steps).
Proof.
  induction steps as [|step steps IH]; [apply starves_total, total_ret|]. cbn [step_loop].
  apply starves_bind; [apply starves_step|]. intros [|o err]; [done|apply starves_total, total_ret].
Qed.

Lemma starves_body fuel renv before : starves fuel (run_body fuel renv before).
Proof.
  unfold run_body. apply starves_bind; [apply starves_total; unfold briefing_phase; totally|]. intros briefed.
  apply starves_bind; [apply starves_total; unfold collect_phase; totally|]. intros c.
  do 2 starving. destruct (is_success _); [apply starves_steps|apply starves_total, total_ret].
Qed.

(** [C27] Runs terminate: with [fuel] rounds of the retry loop allowed per step, a
    run ends unless the failure gate of one step answered [Retry] at least [fuel]
    times. *)
Theorem run_terminates fuel compiled supplied options w s' :
  execute fuel compiled supplied options w = (OutOfFuel, s') ->
  exists id, (fuel <= retries id (trace s'))%nat.
Proof.
  unfold execute. destruct (seed_defaults compiled supplied) as [seeded defaults].
  destruct (if no_input options then _ else _); [|done].
  cut (starves fuel (do emit (WorkflowStarted compiled);
    let* o := run_body fuel (mk_run_env compiled options (dom supplied) defaults) seeded in
    finish_run compiled options (instant w) o)); [|].
  { intros Hs Hx. specialize (Hs (start_state w seeded)). by rewrite Hx in Hs. }
  apply starves_bind; [apply starves_total, total_ask|]. intros _.
  apply starves_bind; [apply starves_body|]. intros o.
  apply starves_total. unfold finish_run, step_duration_ms, emit. totally.
Qed.

End effects.

(** * Examples *)

(** The inputs a failed first step reports: an unregistered workflow sends no values. *)
Definition sample_inputs : list StepInputField :=
  [mk_input_field "namespace" LPath "literal" true None; mk_input_field "email" LBody "flag" true None;
   mk_input_field "address" LBody "literal" true None; mk_input_field EmptyString LBody "unset" false None;
   mk_input_field "address.city" LBody "literal" false None].

Definition sample_skip : StepFinishedEvent :=
  mk_finished 0 "create" "create skipped — already exists" [] Skipped (Some AlreadyExists) 1 5
    (Some (mk_error_facts "upstream" (Some 409%Z) None sample_inputs)).

Lemma questions_permitted_witness :
  ODispatch "create" ∈ trace (execute 3 sample_workflow sample_supply interactive retried).2 /\
  permitted interactive (wf_steps sample_workflow) (ODispatch "create").
Proof.
  assert (H1 : ODispatch "create" ∈ trace (execute 3 sample_workflow sample_supply interactive retried).2).
  { apply list_elem_of_In. vm_compute. do 3 right. left. reflexivity. }
  split; [exact H1|].
  exact (@questions_permitted sample_json sample_names sample_platform 3 sample_workflow sample_supply interactive retried _ H1).
Defined.

Lemma unattended_never_prompts_witness :
  ODispatch "create" ∈ trace (execute 3 sample_workflow sample_supply unattended conflicting).2 /\
  ~ is_prompt (ODispatch "create").
Proof.
  assert (H1 : ODispatch "create" ∈ trace (execute 3 sample_workflow sample_supply unattended conflicting).2).
  { apply list_elem_of_In. vm_compute. do 2 right. left. reflexivity. }
  split; [exact H1|].
  exact (@unattended_never_prompts sample_json sample_names sample_platform 3 sample_workflow sample_supply unattended
           conflicting _ eq_refl eq_refl H1).
Defined.

Lemma sample_ids_distinct : NoDup (map step_id (wf_steps sample_workflow)).
Proof. apply NoDup_cons. split; [set_solver|]. apply NoDup_singleton. Qed.

Lemma dispatch_after_confirmation_witness :
  let tr := trace (execute 3 sample_workflow sample_supply interactive retried).2 in
  tr = take 3 tr ++ ODispatch "create" :: drop 4 tr /\ OConfirm "create" (Ok ConfirmProceed) ∈ take 3 tr.
Proof.
  assert (H1 : create_step ∈ wf_steps sample_workflow) by left.
  assert (H2 : trace (execute 3 sample_workflow sample_supply interactive retried).2 =
    take 3 (trace (execute 3 sample_workflow sample_supply interactive retried).2) ++ ODispatch "create" ::
    drop 4 (trace (execute 3 sample_workflow sample_supply interactive retried).2)) by (vm_compute; reflexivity).
  split; [exact H2|].
  exact (@dispatch_after_confirmation sample_json sample_names sample_platform 3 sample_workflow sample_supply interactive
           retried create_step _ _ sample_ids_distinct H1 eq_refl H2).
Defined.

Lemma skipped_outputs_bound_witness :
  StepFinished sample_skip ∈ events (execute 3 sample_workflow sample_supply interactive conflicting).2 /\
  exists step, step ∈ wf_steps sample_workflow /\ reports step sample_skip /\
    safely_skipped step (execute 3 sample_workflow sample_supply interactive conflicting).2.
Proof.
  assert (H1 : execute 3 sample_workflow sample_supply interactive conflicting =
    (Ret (RunSuccess, Some (OutWorkflow "onboard" ∅ ["create skipped — already exists"; "export ok"] None None), None),
     (execute 3 sample_workflow sample_supply interactive conflicting).2)) by (vm_compute; reflexivity).
  assert (H2 : StepFinished sample_skip ∈ events (execute 3 sample_workflow sample_supply interactive conflicting).2).
  { apply list_elem_of_In. vm_compute. do 2 right. left. reflexivity. }
  split; [exact H2|].
  exact (@skipped_outputs_bound sample_json sample_names sample_platform 3 sample_workflow sample_supply interactive
           conflicting _ _ _ sample_ids_distinct H1 H2 eq_refl).
Defined.

(** A gate that always retries. *)
Definition stubborn : Script := mk_script [Err a_timeout; Err a_timeout] [ActionRetry; ActionRetry] 1000.

Lemma run_terminates_witness :
  exists id, (2 <= retries id (trace (execute 2 sample_workflow sample_supply interactive stubborn).2))%nat.
Proof.
  assert (H1 : execute 2 sample_workflow sample_supply interactive stubborn =
    (OutOfFuel, (execute 2 sample_workflow sample_supply interactive stubborn).2)) by (vm_compute; reflexivity).
  exact (@run_terminates sample_json sample_names sample_platform 2 sample_workflow sample_supply interactive stubborn _ H1).
Defined.
