(* ===== verification/GatherOrder.v ===== *)
(** The order of the run-start form ([order_inputs_by_first_use]): a stable sort by
    first use, with the inputs that feed a picker pulled up to it. *)

From stdpp Require Import base gmap strings list sorting.
From Stdlib Require Import ZArith Lia Ascii.
From S2P Require Import Prelude Text Kebab Json Codec Results Workflow AutoDerive Bindings Request ReviewPlan Redaction Executor Sample.

(** * The stable sort *)

Section sort.
Context (key : WorkflowInputSpec -> Z).

Definition key_le (x y : WorkflowInputSpec) : Prop := key x <= key y.

(** [x] somewhere before [y]. *)
Definition before (x y : WorkflowInputSpec) (l : list WorkflowInputSpec) : Prop :=
  exists l1 l2 l3, l = l1 ++ x :: l2 ++ y :: l3.

Lemma insert_by_perm x l : insert_by key x l ≡ₚ x :: l.
Proof.
  induction l as [|y l IH]; [done|]. simpl. destruct (key x <=? key y); [done|]. rewrite IH. by constructor.
Qed.

Lemma sort_perm l : sort_by_key key l ≡ₚ l.
Proof. induction l as [|x l IH]; [done|]. simpl. by rewrite insert_by_perm, IH. Qed.

Lemma insert_by_sorted x l : StronglySorted key_le l -> StronglySorted key_le (insert_by key x l).
Proof.
  induction l as [|y l IH]; simpl; intros Hs; [by repeat constructor|].
  apply StronglySorted_inv in Hs as [Hs Hy]. destruct (Z.leb_spec (key x) (key y)) as [Hle|Hlt].
  - repeat constructor; [done|done|done|]. eapply Forall_impl; [exact Hy|]. unfold key_le. lia.
  - constructor; [by apply IH|]. rewrite insert_by_perm. constructor; [|done]. unfold key_le. lia.
Qed.

Lemma sort_sorted l : StronglySorted key_le (sort_by_key key l).
Proof. induction l as [|x l IH]; [constructor|]. by apply insert_by_sorted. Qed.

Lemma before_cons z x y l : before x y l -> before x y (z :: l).
Proof. intros (l1 & l2 & l3 & ->). by exists (z :: l1), l2, l3. Qed.

Lemma before_head x y l : y ∈ l -> before x y (x :: l).
Proof. intros (l2 & l3 & ->)%list_elem_of_split. by exists [], l2, l3. Qed.

Lemma before_inv z x y l : before x y (z :: l) -> (z = x /\ y ∈ l) \/ before x y l.
Proof.
  intros ([|z' l1] & l2 & l3 & E); simpl in E; injection E as -> ->; [left|right; by exists l1, l2, l3].
  split; [done|]. set_solver.
Qed.

(** An insertion keeps the order of the others... *)
Lemma insert_by_keeps z x y l : before x y l -> before x y (insert_by key z l).
Proof.
  induction l as [|w l IH]; simpl; intros Hb; [by destruct Hb as ([|] & ? & ? & ?)|].
  destruct (key z <=? key w); [by apply before_cons|].
  destruct (before_inv _ _ _ _ Hb) as [[-> Hy]|Hb']; [|by apply before_cons, IH].
  apply before_head. rewrite insert_by_perm. by right.
Qed.

(** ... and goes before every element with a key that is not smaller. *)
Lemma insert_by_before x y l : StronglySorted key_le l -> y ∈ l -> key x <= key y -> before x y (insert_by key x l).
Proof.
  intros Hs Hy Hle. induction l as [|w l IH]; [by apply not_elem_of_nil in Hy|].
  apply StronglySorted_inv in Hs as [Hs Hw]. simpl. destruct (Z.leb_spec (key x) (key w)) as [|Hlt]; [by apply before_head|].
  apply elem_of_cons in Hy as [->|Hy]; [lia|]. by apply before_cons, IH.
Qed.

Lemma sort_stable x y l : before x y l -> key x <= key y -> before x y (sort_by_key key l).
Proof.
  intros Hb Hle. induction l as [|z l IH]; [by destruct Hb as ([|] & ? & ? & ?)|]. simpl.
  destruct (before_inv _ _ _ _ Hb) as [[-> Hy]|Hb']; [|by apply insert_by_keeps, IH].
  apply insert_by_before; [apply sort_sorted| |done]. by rewrite sort_perm.
Qed.

(** Strictly smaller keys come first, wherever they were. *)
Lemma sort_strict x y l : x ∈ l -> y ∈ l -> key x < key y -> before x y (sort_by_key key l).
Proof.
  intros Hx Hy Hlt. induction l as [|z l IH]; [by apply not_elem_of_nil in Hx|]. simpl.
  apply elem_of_cons in Hx as [->|Hx]; apply elem_of_cons in Hy as [->|Hy].
  - lia.
  - apply insert_by_before; [apply sort_sorted|by rewrite sort_perm|lia].
  - assert (Hx' : x ∈ sort_by_key key l) by (by rewrite sort_perm).
    pose proof (sort_sorted l) as Hs. clear IH. induction (sort_by_key key l) as [|w m IHm]; [by apply not_elem_of_nil in Hx'|].
    simpl. apply StronglySorted_inv in Hs as [Hs Hw]. destruct (Z.leb_spec (key z) (key w)) as [Hle|Hgt].
    + exfalso. apply elem_of_cons in Hx' as [->|Hx']; [lia|].
      pose proof (proj1 (Forall_forall _ _) Hw x Hx') as Hwx. unfold key_le in Hwx. lia.
    + apply elem_of_cons in Hx' as [->|Hx']; [|by apply before_cons, IHm].
      apply before_head. rewrite insert_by_perm. by left.
  - by apply insert_by_keeps, IH.
Qed.
End sort.

(** * The keys *)

Section keys.
Context `{UnicodeCase}.

Definition key_drops (key key' : gmap string Z) : Prop :=
  forall name k, key !! name = Some k -> exists k', key' !! name = Some k' /\ k' <= k.

#[local] Instance key_drops_preorder : PreOrder key_drops.
Proof.
  split; [intros key name k Hk; by exists k|]. intros key1 key2 key3 H12 H23 name k Hk.
  destruct (H12 name k Hk) as (k2 & Hk2 & ?). destruct (H23 name k2 Hk2) as (k3 & ? & ?). exists k3. split; [done|lia].
Qed.

Lemma pull_one_drops picker_use dep key : key_drops key (alter (fun k => Z.min k picker_use) dep key).
Proof.
  intros name k Hk. destruct (decide (name = dep)) as [->|Hne].
  - rewrite lookup_alter_eq, Hk. simpl. eexists. split; [done|lia].
  - rewrite lookup_alter_ne by done. by exists k.
Qed.

Lemma pull_deps_drops picker_use deps key :
  key_drops key (foldl (fun key dep => alter (fun k => Z.min k picker_use) dep key) key deps).
Proof. revert key. induction deps as [|d deps IH]; intros key; [done|]. simpl. etransitivity; [apply pull_one_drops|apply IH]. Qed.

Lemma pull_up_drops key spec : key_drops key (pull_up key spec).
Proof. unfold pull_up. destruct (in_options spec); [apply pull_deps_drops|done]. Qed.

Lemma pull_all_drops specs key : key_drops key (foldl pull_up key specs).
Proof. revert key. induction specs as [|s specs IH]; intros key; [done|]. simpl. etransitivity; [apply pull_up_drops|apply IH]. Qed.

(** The inputs that feed the picker of an input. *)
Definition feeds (dep : string) (spec : WorkflowInputSpec) : Prop :=
  exists source, in_options spec = Some source /\ dep ∈ picker_dependencies source.

Lemma pull_deps_other picker_use deps (key : gmap string Z) name : name ∉ deps ->
  foldl (fun key dep => alter (fun k => Z.min k picker_use) dep key) key deps !! name = key !! name.
Proof.
  revert key. induction deps as [|d deps IH]; intros key Hn; [done|]. simpl.
  apply not_elem_of_cons in Hn as [Hne Hn]. rewrite IH by done. by rewrite lookup_alter_ne.
Qed.

Lemma pull_all_other specs key name : (forall spec, spec ∈ specs -> ~ feeds name spec) ->
  foldl pull_up key specs !! name = key !! name.
Proof.
  revert key. induction specs as [|s specs IH]; intros key Hn; [done|]. simpl. rewrite IH by (intros; apply Hn; by right).
  unfold pull_up. destruct (in_options s) as [source|] eqn:Eo; [|done]. apply pull_deps_other.
  intros Hd. apply (Hn s); [by left|]. by exists source.
Qed.

Lemma pull_deps_min picker_use deps (key : gmap string Z) dep k : dep ∈ deps -> key !! dep = Some k ->
  exists k', foldl (fun key dep => alter (fun k => Z.min k picker_use) dep key) key deps !! dep = Some k' /\ k' <= picker_use.
Proof.
  revert key k. induction deps as [|d deps IH]; intros key k Hd Hk; [by apply not_elem_of_nil in Hd|]. simpl.
  apply elem_of_cons in Hd as [->|Hd].
  - destruct (pull_deps_drops picker_use deps (alter (fun k => Z.min k picker_use) d key) d (Z.min k picker_use))
      as (k' & Hk' & ?); [by rewrite lookup_alter_eq, Hk|]. exists k'. split; [done|lia].
  - destruct (pull_one_drops picker_use d key dep k Hk) as (k1 & Hk1 & _). by apply (IH _ k1).
Qed.

Definition base_keys (inputs : list WorkflowInputSpec) (steps : list CompiledStep) : gmap string Z :=
  list_to_map (rev (map (fun spec => (in_name spec, first_use steps (in_name spec))) inputs)).

Lemma base_keys_lookup inputs steps spec : spec ∈ inputs ->
  base_keys inputs steps !! in_name spec = Some (first_use steps (in_name spec)).
Proof.
  intros Hs. unfold base_keys. rewrite <- map_rev.
  assert (Hr : spec ∈ rev inputs) by (apply list_elem_of_In, in_rev; rewrite rev_involutive; by apply list_elem_of_In).
  revert Hr. generalize (rev inputs). intros l Hl. induction l as [|s l IH]; [by apply not_elem_of_nil in Hl|]. simpl.
  destruct (decide (in_name s = in_name spec)) as [->|Hne]; [by rewrite lookup_insert_eq|].
  rewrite lookup_insert_ne by done. apply IH. apply elem_of_cons in Hl as [->|Hl]; [done|done].
Qed.

Lemma key_of_drop (key key' : gmap string Z) name : key_drops key key' -> is_Some (key !! name) -> key_of key' name <= key_of key name.
Proof. intros Hd [k Hk]. destruct (Hd name k Hk) as (k' & Hk' & Hle). unfold key_of. by rewrite Hk, Hk'. Qed.

(** Processing the picker's own entry pulls its dependencies. *)
Lemma pulled_by_picker inputs steps dep picker :
  dep ∈ inputs -> picker ∈ inputs -> feeds (in_name dep) picker ->
  (forall spec, spec ∈ inputs -> ~ feeds (in_name picker) spec) ->
  key_of (use_keys inputs steps) (in_name dep) <= key_of (use_keys inputs steps) (in_name picker).
Proof.
  intros Hd Hp (source & Ho & Hf) Hfree. unfold use_keys. fold (base_keys inputs steps).
  pose proof (base_keys_lookup inputs steps picker Hp) as Hpk. pose proof (base_keys_lookup inputs steps dep Hd) as Hdk.
  apply list_elem_of_split in Hp as (l1 & l2 & Hl).
  assert (Hkeep : forall specs, (forall s, s ∈ specs -> s ∈ inputs) -> forall key : gmap string Z,
    foldl pull_up key specs !! in_name picker = key !! in_name picker).
  { intros specs Hs key. apply pull_all_other. intros s Hin. apply Hfree. by apply Hs. }
  assert (Hsub1 : forall s, s ∈ l1 -> s ∈ inputs) by (intros; rewrite Hl; set_solver).
  assert (Hall : foldl pull_up (base_keys inputs steps) inputs !! in_name picker = Some (first_use steps (in_name picker))).
  { by rewrite Hkeep. }
  unfold key_of at 2. rewrite Hall. clear Hall. rewrite Hl at 2. rewrite foldl_app. simpl.
  set (key1 := foldl pull_up (base_keys inputs steps) l1).
  assert (Hk1 : key_of key1 (in_name picker) = first_use steps (in_name picker)).
  { unfold key_of, key1. by rewrite Hkeep, Hpk. }
  destruct (pull_all_drops l1 (base_keys inputs steps) (in_name dep) _ Hdk) as (k1 & Hdk1 & _). fold key1 in Hdk1.
  destruct (pull_deps_min (key_of key1 (in_name picker)) (picker_dependencies source) key1 (in_name dep) k1 Hf Hdk1)
    as (k2 & Hk2 & Hle).
  assert (Hpull : pull_up key1 picker !! in_name dep = Some k2) by (unfold pull_up; rewrite Ho; exact Hk2).
  destruct (pull_all_drops l2 _ _ _ Hpull) as (k3 & Hk3 & Hle3). unfold key_of. rewrite Hk3. lia.
Qed.

(** The run-start form shows each declared input exactly once, sorted by its
    key, which is never later than the first step that uses the input; inputs with
    the same key keep their declared order. *)
Theorem gather_order_sorted inputs steps :
  let key spec := key_of (use_keys inputs steps) (in_name spec) in
  order_inputs_by_first_use inputs steps ≡ₚ inputs /\
  StronglySorted (key_le key) (order_inputs_by_first_use inputs steps) /\
  (forall spec, spec ∈ inputs -> key spec <= first_use steps (in_name spec)) /\
  (forall x y, before x y inputs -> key x = key y -> before x y (order_inputs_by_first_use inputs steps)).
Proof.
  intros key. split_and!; [apply sort_perm|apply sort_sorted| |].
  - intros spec Hs. pose proof (base_keys_lookup inputs steps spec Hs) as Hb. unfold key, use_keys.
    fold (base_keys inputs steps). destruct (pull_all_drops inputs _ _ _ Hb) as (k & Hk & Hle).
    unfold key_of. by rewrite Hk.
  - intros x y Hb He. apply sort_stable; [done|]. unfold key in He. lia.
Qed.

(** An input that feeds a picker is shown before the picker when it is declared
    before it, and the picker feeds no other picker. *)
Theorem picker_dependency_first inputs steps dep picker :
  before dep picker inputs -> feeds (in_name dep) picker ->
  (forall spec, spec ∈ inputs -> ~ feeds (in_name picker) spec) ->
  before dep picker (order_inputs_by_first_use inputs steps).
Proof.
  intros Hb Hf Hfree. apply sort_stable; [done|]. destruct Hb as (l1 & l2 & l3 & ->).
  apply pulled_by_picker; [set_solver|set_solver|done|done].
Qed.
End keys.

(** * Examples *)

Definition query_input : WorkflowInputSpec := mk_input "query" None None false None false None None LBody.

Definition picker_from (name dep : string) : WorkflowInputSpec :=
  mk_input name None None true None false
    (Some (mk_options (mk_op_ref "iam" "SearchUsers") [("query", OFromInput dep)] "$.data" "$.id" None None None None)) None LBody.

Definition uses (name : string) : CompiledStep :=
  mk_step "use" 0 None Api None (Some (mk_op_ref "iam" "GetUser")) [] false false false false None
    [mk_binding "id" (BReference (mk_reference (FromWorkflow name) None None)) true None] [] [].

Lemma picker_dependency_first_witness :
  before query_input (picker_from "user" "query") [query_input; picker_from "user" "query"] /\
  before query_input (picker_from "user" "query")
    (order_inputs_by_first_use [query_input; picker_from "user" "query"] [uses "user"]).
Proof.
  assert (H1 : before query_input (picker_from "user" "query") [query_input; picker_from "user" "query"]) by (by exists [], [], []).
  split; [exact H1|]. apply (picker_dependency_first _ _ _ _ H1).
  - eexists. split; [reflexivity|]. by left.
  - intros spec Hs (source & Ho & Hd). rewrite !elem_of_cons in Hs.
    destruct Hs as [->|[->|Hs]]; [discriminate Ho| |by apply not_elem_of_nil in Hs].
    injection Ho as <-. apply list_elem_of_In in Hd. vm_compute in Hd. destruct Hd as [Hd|[]]. discriminate Hd.
Defined.

(** Declared after its picker, the dependency stays after it: the pull gives both the
    same key. *)
Lemma late_dependency_stays_late :
  map in_name (order_inputs_by_first_use [picker_from "user" "query"; query_input] [uses "user"]) = ["user"; "query"].
Proof. vm_compute. reflexivity. Qed.

(** In a chain of pickers the first dependency sinks to the end: its picker's key was
    read before that picker was itself pulled up. *)
Lemma chained_dependency_sinks :
  map in_name (order_inputs_by_first_use [query_input; picker_from "group" "query"; picker_from "user" "group"] [uses "user"])
    = ["group"; "user"; "query"].
Proof. vm_compute. reflexivity. Qed.
