(* ===== verification/CompiledRuns.v ===== *)
(** Runs of compiled workflows: what the compiler's promises give the executor. *)

From stdpp Require Import base gmap strings list.
From Stdlib Require Import ZArith Lia Ascii.
From S2P Require Import Prelude Text Kebab Json Catalogue Paths Results Workflow AutoDerive Bindings Compile Request ReviewPlan Redaction Executor CompileProps Sample ExecutorProps ExecutorEffects.

(** * Outputs of a step that ran *)

Lemma bind_loop_keeps id caps body c c' name :
  bind_loop id caps body c = (c', Ok tt) -> is_Some (resolve_step_reference id name c) ->
  is_Some (resolve_step_reference id name c').
Proof.
  revert c. induction caps as [|cap caps IH]; intros c; simpl; [naive_solver|].
  destruct (body ≫= _) as [v|]; [|destruct (cap_default cap) as [v|]; [|done]];
    intros Hb Hs; (eapply IH; [exact Hb|by apply record_capture_keeps]).
Qed.

Lemma bind_outputs_spec id caps body c c' :
  bind_loop id caps body c = (c', Ok tt) ->
  forall cap, cap ∈ caps -> is_Some (resolve_step_reference id (cap_name cap) c').
Proof.
  revert c. induction caps as [|cap0 caps IH]; intros c; simpl; [intros _ cap Hc; by apply not_elem_of_nil in Hc|].
  assert (Hsame : forall v p, is_Some (resolve_step_reference id (cap_name cap0) (record_capture id (cap_name cap0) v p c)))
    by (intros; rewrite record_capture_same; by eexists).
  destruct (body ≫= _) as [v|]; [|destruct (cap_default cap0) as [v|]; [|done]];
    intros Hb cap [->|Hc]%elem_of_cons; [|by eapply IH| |by eapply IH]; (eapply bind_loop_keeps; [exact Hb|apply Hsame]).
Qed.

Section runs.
Context `{JsonText, UnicodeCase, Platform}.

Local Notation "'let*' x ':=' m 'in' k" := (bind m (fun x => k))
  (at level 10, x pattern, m at level 100, k at level 200) : run_scope.
Local Notation "'do' m ; k" := (bind m (fun _ => k))
  (at level 10, m at level 100, k at level 200) : run_scope.

(** Every declared output of the step resolves. *)
Definition produced (step : CompiledStep) (s : RunState) : Prop :=
  forall cap, cap ∈ step_outputs step -> is_Some (resolve_step_reference (step_id step) (cap_name cap) (rs_ctx s)).

Lemma produced_ctx step s s' : rs_ctx s' = rs_ctx s -> produced step s -> produced step s'.
Proof. intros Hc Hp cap Hcap. rewrite Hc. by apply Hp. Qed.

Lemma produced_grows P fixed (K : string -> Prop) step s s' :
  grows P fixed K s s' -> K (step_id step) -> produced step s -> produced step s'.
Proof.
  intros [_ _ Hc] Hk Hs cap Hcap. specialize (Hs cap Hcap). unfold resolve_step_reference in *. by rewrite Hc.
Qed.

(** A binary answer stores no captures: steps with declared outputs must not get one. *)
Definition answers_json (step : CompiledStep) : Prop :=
  step_outputs step = [] \/
  forall request w b w', run_command (step_index step) request w <> (Ok (inl (inr b)), w').

Section step.
Context (step : CompiledStep).

(** When [m] ends with a result that counts, the outputs are there. *)
Definition delivers {A} (counts : A -> Prop) (m : M A) : Prop :=
  forall s, match m s with (Ret a, s') => counts a -> produced step s' | _ => True end.

Lemma delivers_bind {A B} (counts : B -> Prop) (m : M A) (k : A -> M B) :
  (forall a, delivers counts (k a)) -> delivers counts (bind m k).
Proof. intros Hk s. unfold bind. destruct (m s) as [[a|e|] s1]; try done. apply Hk. Qed.

Lemma delivers_ret {A} (counts : A -> Prop) (a : A) : ~ counts a -> delivers counts (ret a).
Proof. intros Hn s Hc. by destruct Hn. Qed.

Definition goes_on (f : step_flow) : Prop := f = Continue.
Definition stage_goes_on {A} (r : stage A) : Prop := r = Stop Continue.
Definition attempt_ok (r : attempt_result) : Prop := match r with AttemptOk _ => True | AttemptFailed _ _ => False end.
Definition loop_goes_on (r : loop_result) : Prop :=
  match r with LoopSkipped => True | LoopDone o _ _ _ _ _ => o <> Failed end.

Lemma skip_delivers reason tail attempts started error s :
  match skip_step step reason tail attempts started error s with (Ret _, s') => produced step s' | _ => True end.
Proof.
  pose proof (skip_step_spec step reason tail attempts started error s) as Hs.
  destruct (skip_step _ _ _ _ _ _ s) as [[[]|e|] s']; try done. destruct Hs as (e & (_ & _ & _ & _ & Hsk) & Ho).
  intros cap Hc. by apply (Hsk Ho).
Qed.

Lemma skip_then {A} (counts : A -> Prop) reason tail attempts started error (a : A) :
  delivers counts (do skip_step step reason tail attempts started error; ret a).
Proof.
  intros s. unfold bind. pose proof (skip_delivers reason tail attempts started error s) as Hs.
  destruct (skip_step _ _ _ _ _ _ s) as [[[]|e|] s']; simpl; auto.
Qed.

Lemma bind_outputs_delivers summary :
  delivers attempt_ok (let* bound := bind_outputs step in
    match bound with Ok _ => ret (AttemptOk summary) | Err error => ret (AttemptFailed error Capture) end).
Proof.
  intros s. unfold bind_outputs, bind, gets, update_ctx, modify, ret, bind_step_outputs.
  destruct (bind_loop _ _ _ _) as [c' [[]|e]] eqn:E; simpl; [|done].
  intros _ cap Hc. by eapply bind_outputs_spec.
Qed.

Lemma dispatch_attempt_delivers request : answers_json step -> delivers attempt_ok (dispatch_attempt step request).
Proof.
  intros Hj s. unfold dispatch_attempt. unfold bind at 1, ask.
  destruct (run_command _ _ _) as [[[[o|b]|other]|e] w] eqn:E; [| |by intros []|by intros []].
  - apply delivers_bind. intros _. apply bind_outputs_delivers.
  - destruct Hj as [Hnil|Hj]; [|by apply Hj in E]. simpl. intros _ cap Hc. rewrite Hnil in Hc. by apply not_elem_of_nil in Hc.
Qed.

Lemma local_attempt_delivers action inputs : delivers attempt_ok (local_attempt step action inputs).
Proof.
  unfold local_attempt. apply delivers_bind. intros [body|e]; [|apply delivers_ret; auto].
  apply delivers_bind. intros _. apply bind_outputs_delivers.
Qed.

Lemma retry_delivers fuel ni started attempt facts_of attempts :
  delivers attempt_ok attempt -> delivers loop_goes_on (retry_loop fuel step ni started attempt facts_of attempts).
Proof.
  intros Ha. revert attempts. induction fuel as [|fuel IH]; intros attempts; [by intros s|]. cbn [retry_loop].
  intros s. unfold bind at 1. specialize (Ha s). destruct (attempt s) as [[[summary|error stage]|e|] s1]; try done.
  - intros _. by apply Ha.
  - apply delivers_bind. intros [reason tail| |reason]; [|apply IH|]; apply delivers_bind; intros facts.
    + apply skip_then.
    + apply delivers_ret. auto.
Qed.

Lemma end_step_delivers started captures_of m :
  (forall o s, (captures_of o s).2 = s) -> delivers loop_goes_on m ->
  delivers goes_on (bind m (end_step step started captures_of)).
Proof.
  intros Hc Hm s. unfold bind at 1. specialize (Hm s). destruct (m s) as [[[|o sm re at_ fa pe]|e|] s1]; try done.
  - intros _. by apply Hm.
  - unfold end_step. unfold bind at 1, modify at 1. unfold bind at 1. specialize (Hc o (push_summary sm s1)).
    destruct (captures_of o _) as [[caps|e|] s2]; try done. simpl in Hc. subst s2.
    unfold bind, modify, step_duration_ms, gets, emit, ask, ret. case_bool_decide; [done|].
    intros _. eapply produced_ctx; [|by apply Hm]. done.
Qed.

Lemma then_delivers {A B} (m : M (stage A)) (k : A -> M (stage B)) :
  delivers stage_goes_on m -> (forall a, delivers stage_goes_on (k a)) -> delivers stage_goes_on (then_stage m k).
Proof.
  intros Hm Hk s. unfold then_stage, bind. specialize (Hm s). destruct (m s) as [[[f|a]|e|] s1]; try done.
  - simpl. intros [= ->]. by apply Hm.
  - apply Hk.
Qed.

(** ** Stages of an API step *)

Section api.
Context (env : StepEnv) (Hstep : env_step env = step) (Hlive : dry_run (env_options env) = false) (Hjson : answers_json step).

Lemma stop_delivers {A} (m : M step_flow) : delivers goes_on m -> delivers (stage_goes_on (A := A)) (stop m).
Proof.
  intros Hm s. unfold stop, bind. specialize (Hm s). destruct (m s) as [[f|e|] s1]; try done. simpl. intros [= ->]. by apply Hm.
Qed.

Lemma fail_delivers st reason started facts error : delivers goes_on (fail_step st reason started facts error).
Proof. unfold fail_step. apply delivers_bind. intros _. by apply delivers_ret. Qed.

Lemma fail_api_delivers local reason error : delivers goes_on (fail_api_step env local reason error).
Proof. unfold fail_api_step. apply delivers_bind. intros facts. apply fail_delivers. Qed.

Lemma cancel_delivers st reason started : delivers goes_on (cancel_step st reason started).
Proof. unfold cancel_step. apply delivers_bind. intros _. by apply delivers_ret. Qed.

Lemma go_delivers {A} (a : A) : delivers stage_goes_on (ret (Go a)).
Proof. by apply delivers_ret. Qed.

Lemma collect_delivers : delivers stage_goes_on (collect_step_inputs env).
Proof.
  unfold collect_step_inputs, review_inputs, gather_inputs. rewrite Hstep. destruct (take_review_path env).
  - apply delivers_bind. intros r. apply delivers_bind. intros plan. destruct (should_pause_for_review _ _ _ _ _); [|apply go_delivers].
    apply delivers_bind. intros [[edits| |]|error].
    + apply go_delivers.
    + destruct (is_optional step); [apply skip_then|apply stop_delivers, fail_api_delivers].
    + apply stop_delivers, cancel_delivers.
    + apply stop_delivers, fail_api_delivers.
  - apply delivers_bind. intros supplied. destruct (compute_needed_inputs _ _ _); [apply go_delivers|].
    apply delivers_bind. intros [gathered|error]; [|apply stop_delivers, fail_api_delivers].
    destruct (foldl _ _ _). apply delivers_bind. intros _. apply go_delivers.
Qed.

Lemma assemble_delivers local : delivers stage_goes_on (assemble env local).
Proof. unfold assemble. apply delivers_bind. intros [r|e]; [apply go_delivers|apply stop_delivers, fail_api_delivers]. Qed.

Lemma confirm_delivers local request : delivers stage_goes_on (confirm_gate env local request).
Proof.
  unfold confirm_gate. rewrite Hstep. destruct (needs_confirmation _ _); [|apply go_delivers].
  apply delivers_bind. intros [preview|error]; [|apply stop_delivers, fail_api_delivers].
  apply delivers_bind. intros [[| |]|error].
  - apply go_delivers.
  - destruct (is_optional step); [apply skip_then|apply stop_delivers, fail_api_delivers].
  - apply stop_delivers, cancel_delivers.
  - apply stop_delivers, fail_api_delivers.
Qed.

Lemma dispatch_delivers fuel local request : delivers goes_on (dispatch fuel env local request).
Proof.
  unfold dispatch. rewrite Hstep, Hlive. apply end_step_delivers; [by intros []|]. by apply retry_delivers, dispatch_attempt_delivers.
Qed.

Lemma schema_delivers fuel : delivers goes_on (run_with_schema fuel env).
Proof.
  intros s. unfold run_with_schema. unfold bind at 1.
  assert (Hst : delivers stage_goes_on (then_stage (collect_step_inputs env) (fun step_local =>
    then_stage (assemble env step_local) (fun request =>
      then_stage (confirm_gate env step_local request) (fun _ => ret (Go (step_local, request))))))).
  { apply then_delivers; [apply collect_delivers|intros local]. apply then_delivers; [apply assemble_delivers|intros request].
    apply then_delivers; [apply confirm_delivers|intros _]. apply go_delivers. }
  specialize (Hst s). destruct (then_stage _ _ s) as [[[f|[local request]]|e|] s1]; try done.
  - simpl. intros ->. by apply Hst.
  - apply dispatch_delivers.
Qed.
End api.

Lemma local_delivers fuel options started : dry_run options = false -> delivers goes_on (run_local_step fuel options step started).
Proof.
  intros Hlive. unfold run_local_step. rewrite Hlive. do 2 (apply delivers_bind; intros ?). unfold local_run.
  apply delivers_bind. intros [inputs|error]; [|apply fail_delivers].
  apply end_step_delivers; [done|]. apply retry_delivers, local_attempt_delivers.
Qed.

Lemma step_delivers fuel renv mode :
  dry_run (re_options renv) = false -> answers_json step -> delivers goes_on (run_step fuel renv mode step).
Proof.
  intros Hlive Hj. unfold run_step. do 3 (apply delivers_bind; intros ?). destruct (step_kind step); [|by apply local_delivers].
  unfold run_api_step. do 2 (apply delivers_bind; intros ?). destruct a3 as [schema|error]; [by apply schema_delivers|apply fail_delivers].
Qed.
End step.

(** The loop over the steps, when it goes through all of them. *)
Lemma loop_delivers fuel renv mode todo s s' :
  dry_run (re_options renv) = false -> Forall answers_json todo -> NoDup (map step_id todo) ->
  step_loop fuel renv mode todo s = (Ret (RunSuccess, None), s') ->
  forall step, step ∈ todo -> produced step s'.
Proof.
  intros Hlive. revert s. induction todo as [|step todo IH]; intros s Hj Hnd; cbn [step_loop].
  { intros _ step Hs. by apply not_elem_of_nil in Hs. }
  apply Forall_cons in Hj as [Hj Hjs]. apply NoDup_cons in Hnd as [Hno Hnd]. unfold bind.
  pose proof (step_delivers step fuel renv mode Hlive Hj s) as Hs. pose proof (run_step_spec fuel renv mode step s) as Hspec.
  destruct (run_step fuel renv mode step s) as [[[|o err]|e|] s1]; try done.
  - intros Hl st [->|Hin]%elem_of_cons; [|by eapply IH]. specialize (Hs eq_refl).
    pose proof (loop_elsewhere fuel renv mode todo s1) as Hg. rewrite Hl in Hg. simpl in Hg. by eapply produced_grows.
  - destruct Hspec as (ev & _ & _ & _ & _ & _ & Hflow). intros [= -> -> _]. done.
Qed.

(** * Bindings of compiled workflows *)

Section bindings.
Context (c : CompiledWorkflow) (i : nat) (step : CompiledStep) (ctx : WorkflowContext).
Context (Hsources : forall b, b ∈ step_inputs step -> source_ok c i step b).
Context (Hctx : forall j earlier cap, (j < i)%nat -> wf_steps c !! j = Some earlier -> cap ∈ step_outputs earlier ->
  is_Some (resolve_step_reference (step_id earlier) (cap_name cap) ctx)).

Lemma plain_resolves b supplied : b ∈ step_inputs step -> (forall m, bind_source b <> BMirror m) ->
  exists v, resolve_plain (bind_source b) ctx supplied = Ok v.
Proof.
  intros Hb Hm. specialize (Hsources b Hb). unfold source_ok in Hsources. unfold resolve_plain.
  destruct (bind_source b) as [v s|r|template|target]; [by eexists| |by eexists|by destruct (Hm target)].
  destruct (ref_from r) as [name|id]; [destruct (supplied !! name); by eexists|].
  destruct Hsources as (j & earlier & cap & Hj & Hearlier & <- & Hcap & ->).
  destruct (Hctx j earlier cap Hj Hearlier Hcap) as [v ->]. by eexists.
Qed.

Lemma binding_resolves b supplied step_local : b ∈ step_inputs step ->
  exists v, resolve_binding (bind_source b) ctx supplied (bindings_by_field step) step_local = Ok v.
Proof.
  intros Hb. unfold resolve_binding. pose proof (plain_resolves b supplied Hb) as Hplain. pose proof (Hsources b Hb) as Hs.
  unfold source_ok in Hs. destruct (bind_source b) as [v s|r|template|target]; try by apply Hplain.
  destruct (step_local !! target); [by eexists|]. destruct Hs as (_ & _ & source & Hf & Hnm). rewrite Hf.
  unfold bindings_by_field in Hf. apply elem_of_list_to_map_2, list_elem_of_In, in_rev, in_map_iff in Hf as (b' & [= _ <-] & Hb').
  apply list_elem_of_In in Hb'. destruct (plain_resolves b' supplied Hb' Hnm) as [v Hv].
  destruct (bind_source b'); [by eexists..|by destruct (Hnm mirror_of)].
Qed.

Lemma local_loop_resolves bs supplied resolved : (forall b, b ∈ bs -> b ∈ step_inputs step) ->
  exists m, resolve_local_loop bs step ctx supplied resolved = Ok m.
Proof.
  revert resolved. induction bs as [|b bs IH]; intros resolved Hbs; simpl; [by eexists|].
  destruct (binding_resolves b supplied ∅) as [v ->]; [apply Hbs; left|]. apply IH. intros b' Hb'. apply Hbs. by right.
Qed.
End bindings.

(** [C8] No binding of a compiled workflow fails at run time: once the steps before a
    step have all ended well in a live run, whatever was supplied or edited, each of
    its bindings resolves (to a value, or to nothing yet supplied) instead of ending in
    one of the four errors of [resolve_binding], and so do a local step's inputs. An
    earlier step that declares outputs must not have been answered by a download. *)
Theorem compiled_bindings_resolve d catalogue c fuel renv mode pre step post s s' b supplied step_local :
  compile_workflow d catalogue = Ok c -> wf_steps c = pre ++ step :: post ->
  dry_run (re_options renv) = false -> Forall answers_json pre ->
  step_loop fuel renv mode pre s = (Ret (RunSuccess, None), s') -> b ∈ step_inputs step ->
  (exists v, resolve_binding (bind_source b) (rs_ctx s') supplied (bindings_by_field step) step_local = Ok v) /\
  (exists inputs, resolve_local_step_bindings step (rs_ctx s') supplied = Ok inputs).
Proof.
  intros Hc Hsteps Hlive Hj Hloop Hb. apply compile_sound_rules in Hc.
  assert (Hi : wf_steps c !! length pre = Some step) by (rewrite Hsteps; by apply list_lookup_middle).
  assert (Hsrc : forall b, b ∈ step_inputs step -> source_ok c (length pre) step b) by (intros; by eapply wc_sources).
  assert (Hctx : forall j earlier cap, (j < length pre)%nat -> wf_steps c !! j = Some earlier -> cap ∈ step_outputs earlier ->
    is_Some (resolve_step_reference (step_id earlier) (cap_name cap) (rs_ctx s'))).
  { intros j earlier cap Hlt Hl Hcap. rewrite Hsteps, lookup_app_l in Hl by done.
    assert (Hnd : NoDup (map step_id pre)).
    { pose proof (wc_ids _ _ Hc) as Hnd. rewrite Hsteps, map_app in Hnd. by apply NoDup_app in Hnd as [? _]. }
    eapply (loop_delivers fuel renv mode pre s s'); [done..| |done]. by eapply list_elem_of_lookup_2. }
  split; [by eapply binding_resolves|]. by eapply local_loop_resolves.
Qed.

(** * Errors that leave a run *)

Section throws.
Context (renv : RunEnv).
Let steps := wf_steps (re_compiled renv).
Context (Hkind : forall step, step ∈ steps -> kind_ok step).
Context (Hskippable : forall step, step ∈ steps ->
  is_optional step = true \/ continue_on_failure step = true \/ skip_if_exists step = true -> is_safely_skippable step = true).

(** The step has just been started, and its service loaded. *)
Definition just_started (step : CompiledStep) (schema : ServiceSchema) (s : RunState) : Prop :=
  last (trace s) = Some (OEvent (StepStarted (step_index step) (step_id step))) /\
  exists op w, step_operation step = Some op /\ get_or_load (service op) w = (Ok schema, world s).

(** The environment of a step of this run. *)
Definition env_of (mode : RunMode) (step : CompiledStep) (started : Z) (schema : ServiceSchema) : StepEnv :=
  mk_env (re_compiled renv) (re_options renv) (re_flags renv) (re_defaults renv) mode step started schema.

(** What the frontend answered at the failure gate; or the error of the plan of a step that is
    reviewed, made in the state in which the run stops, right after the start of the step. *)
Definition escapes (e : RuntimeError) (s : RunState) : Prop :=
  (exists id, OFailureGate id (Err e) ∈ trace s) \/
  (exists mode step started schema, step ∈ steps /\ just_started step schema s /\
     take_review_path (env_of mode step started schema) = true /\ plan_of (env_of mode step started schema) ∅ s = Err e).

(** Every error that leaves [m], in a state as [P] says, is one of these. *)
Definition contained_when (P : RunState -> Prop) {A} (m : M A) : Prop :=
  forall s, P s -> match m s with (Throw e, s') => escapes e s' | _ => True end.

Definition contained {A} (m : M A) : Prop :=
  forall s, match m s with (Throw e, s') => escapes e s' | _ => True end.

Lemma contained_always P {A} (m : M A) : contained m -> contained_when P m.
Proof. intros Hm s _. apply Hm. Qed.

Lemma contained_when_bind P {A B} (m : M A) (k : A -> M B) : contained_when P m -> (forall a, contained (k a)) -> contained_when P (bind m k).
Proof. intros Hm Hk s Hs. unfold bind. specialize (Hm s Hs). destruct (m s) as [[a|e|] s1]; [apply Hk|done|done]. Qed.

Lemma contained_bind {A B} (m : M A) (k : A -> M B) : contained m -> (forall a, contained (k a)) -> contained (bind m k).
Proof. intros Hm Hk s. unfold bind. specialize (Hm s). destruct (m s) as [[a|e|] s1]; [apply Hk|done|done]. Qed.
Lemma contained_ret {A} (a : A) : contained (ret a).
Proof. by intros s. Qed.
Lemma contained_gets {A} (f : RunState -> A) : contained (gets f).
Proof. by intros s. Qed.
Lemma contained_modify f : contained (modify f).
Proof. by intros s. Qed.
Lemma contained_ask {A} (o : A -> obs) f : contained (ask o f).
Proof. intros s. unfold ask. by destruct (f (world s)). Qed.
Lemma contained_query {A} (f : World -> A * World) : contained (query f).
Proof. intros s. unfold query. by destruct (f (world s)). Qed.
(** [m?] of a result known to be good. *)
Lemma contained_lift {A B} (r : result A RuntimeError) a (k : A -> M B) :
  r = Ok a -> contained (k a) -> contained (bind (lift r) k).
Proof. intros -> Hk s. apply Hk. Qed.

Create HintDb contained.
#[local] Hint Resolve contained_ret contained_gets contained_modify contained_ask contained_query : contained.

Ltac contain :=
  repeat first
    [ progress intros
    | solve [auto with contained]
    | apply contained_bind
    | match goal with |- contained (match ?x with _ => _ end) => destruct x end ].

Lemma skipped_loop_Ok id caps ctx : forallb (fun o => bool_decide (is_Some (cap_default o))) caps = true ->
  (bind_skipped_loop id caps ctx).2 = Ok tt.
Proof.
  revert ctx. induction caps as [|cap caps IH]; intros ctx; simpl; [done|]. intros [Hd Hr]%andb_true_iff.
  apply bool_decide_eq_true in Hd as [v ->]. by apply IH.
Qed.

Lemma contained_finish step summary outcome reason attempts started error :
  contained (finish_step_terminal step summary outcome reason attempts started error).
Proof. unfold finish_step_terminal, finish_step, step_duration_ms, emit. contain. Qed.
#[local] Hint Resolve contained_finish : contained.

(** A safe skip does not throw. *)
Lemma contained_skip step reason tail attempts started error :
  is_safely_skippable step = true -> contained (skip_step step reason tail attempts started error).
Proof.
  intros Hs s. unfold skip_step, update_ctx. unfold bind at 1, gets at 1. unfold bind at 1, modify at 1.
  unfold bind_skipped_outputs. rewrite skipped_loop_Ok by exact Hs. unfold bind at 1, lift, ret at 1. apply contained_finish.
Qed.

Lemma contained_fail step reason started facts error : contained (fail_step step reason started facts error).
Proof. unfold fail_step. contain. Qed.
Lemma contained_cancel step reason started : contained (cancel_step step reason started).
Proof. unfold cancel_step. contain. Qed.
Lemma contained_facts env local error : contained (failure_facts env local error).
Proof. unfold failure_facts, step_input_fields_on_failure. contain. Qed.
#[local] Hint Resolve contained_fail contained_cancel contained_facts : contained.

Lemma contained_fail_api env local reason error : contained (fail_api_step env local reason error).
Proof. unfold fail_api_step. contain. Qed.
Lemma contained_bind_outputs step : contained (bind_outputs step).
Proof. unfold bind_outputs, update_ctx. contain. Qed.
#[local] Hint Resolve contained_fail_api contained_bind_outputs : contained.

(** The gate throws what the frontend answered; a skip it decides is safe. *)
Lemma contained_decide step error ni stage : contained (decide_step_failure step error ni stage).
Proof.
  unfold decide_step_failure. destruct (continue_on_failure step); [contain|]. destruct (_ && _); [contain|].
  destruct ni; [contain|]. intros s. unfold bind, ask, lift. destruct (resolve_step_failure _ _ _ _) as [[a|e] w]; simpl.
  - destruct a; [done| |done]. by destruct (is_safely_skippable step).
  - left. exists (step_id step). set_solver.
Qed.

Lemma decided_skip_safe step error ni stage s reason tail s' : step ∈ steps ->
  decide_step_failure step error ni stage s = (Ret (DispSkip reason tail), s') -> is_safely_skippable step = true.
Proof.
  intros Hin. unfold decide_step_failure. destruct (continue_on_failure step) eqn:Ec; [intros _; apply Hskippable; auto|].
  destruct (skip_if_exists step) eqn:Es; [intros _; apply Hskippable; auto|]. simpl. destruct ni; [done|].
  unfold bind, ask, lift. destruct (resolve_step_failure _ _ _ _) as [[[| |]|e] w]; try done. simpl.
  by destruct (is_safely_skippable step).
Qed.

Section step.
Context (step : CompiledStep) (Hin : step ∈ steps).

Lemma contained_retry fuel ni started attempt facts_of attempts :
  contained attempt -> (forall e, contained (facts_of e)) -> contained (retry_loop fuel step ni started attempt facts_of attempts).
Proof.
  intros Ha Hf. revert attempts. induction fuel as [|fuel IH]; intros attempts; [by intros s|]. cbn [retry_loop].
  apply contained_bind; [done|]. intros [summary|error stage]; [contain|].
  intros s. unfold bind at 1. pose proof (contained_decide step error ni stage s) as Hd.
  destruct (decide_step_failure step error ni stage s) as [[[reason tail| |reason]|e|] s1] eqn:Ed; try done.
  - pose proof (decided_skip_safe _ _ _ _ _ _ _ _ Hin Ed) as Hsafe.
    apply contained_bind; [done|]. intros facts. apply contained_bind; [by apply contained_skip|contain].
  - apply IH.
  - apply contained_bind; [done|contain].
Qed.

Lemma contained_end_step started captures_of r : (forall o, contained (captures_of o)) -> contained (end_step step started captures_of r).
Proof. intros Hc. unfold end_step, step_duration_ms, emit. contain. Qed.

Lemma contained_local fuel options started : step_kind step = Local -> contained (run_local_step fuel options step started).
Proof.
  intros Hk. pose proof (Hkind step Hin) as Hok. unfold kind_ok in Hok. rewrite Hk in Hok.
  destruct Hok as ((action & Ha & Hact) & _). unfold run_local_step. apply (contained_lift _ action); [by rewrite Ha|].
  apply (contained_lift _ tt); [by rewrite bool_decide_true|]. destruct (dry_run options).
  - unfold local_dry_run, local_inputs, update_ctx. contain.
  - unfold local_run, local_inputs. apply contained_bind; [contain|]. intros [inputs|error]; [|contain].
    apply contained_bind; [|intros; apply contained_end_step; contain]. apply contained_retry; [|contain].
    unfold local_attempt, update_ctx. contain.
Qed.

Section api.
Context (mode : RunMode) (began : Z) (schema : ServiceSchema).
Let env := env_of mode step began schema.
Let Hstep : env_step env = step := eq_refl.

Lemma contained_stop {A} (m : M step_flow) : contained m -> contained (stop (A := A) m).
Proof. intros Hm. unfold stop. apply contained_bind; [done|contain]. Qed.
#[local] Hint Resolve contained_stop : contained.

Lemma contained_then {A B} (m : M (stage A)) (k : A -> M (stage B)) :
  contained m -> (forall a, contained (k a)) -> contained (then_stage m k).
Proof. intros Hm Hk. unfold then_stage. apply contained_bind; [done|]. intros [f|a]; [contain|apply Hk]. Qed.

Lemma contained_when_then P {A B} (m : M (stage A)) (k : A -> M (stage B)) :
  contained_when P m -> (forall a, contained (k a)) -> contained_when P (then_stage m k).
Proof. intros Hm Hk. unfold then_stage. apply contained_when_bind; [done|]. intros [f|a]; [contain|apply Hk]. Qed.

(** An optional step can be skipped. *)
Lemma contained_optional_skip reason started {A} (other : M (stage A)) :
  contained other ->
  contained (if is_optional step then do skip_step step reason None 0 started None; ret (Stop Continue) else other).
Proof.
  intros Ho. destruct (is_optional step) eqn:Eo; [|done]. apply contained_bind; [|contain].
  apply contained_skip, Hskippable; auto.
Qed.

Lemma contained_collect : contained_when (just_started step schema) (collect_step_inputs env).
Proof.
  unfold collect_step_inputs. destruct (take_review_path env) eqn:Er.
  - unfold review_inputs. change (env_step env) with step. intros s Hs. unfold bind at 1, gets at 1. unfold bind at 1.
    destruct (plan_of env ∅ s) as [plan|e] eqn:Ep; simpl.
    + destruct (should_pause_for_review _ _ _ _ _); [|done]. clear Hs. revert s Ep.
      cut (contained (let* answer := ask (fun _ => OReview (step_id step)) (review_step plan) in
        match answer with
        | Ok (ReviewProceed edits) => ret (Go (apply_step_review_edits plan edits ∅))
        | Ok ReviewSkip =>
            if is_optional step then
              do skip_step step DeclinedAtReview None 0 (env_started env) None; ret (Stop Continue)
            else stop (fail_api_step env ∅ FrontendContract (illegal_skip step))
        | Ok ReviewCancel => stop (cancel_step step AtReview (env_started env))
        | Err error => stop (fail_api_step env ∅ Gather error)
        end)); [intros Hc s _; apply Hc|].
      apply contained_bind; [contain|]. intros [[edits| |]|error]; [contain| |contain|contain].
      apply contained_optional_skip. contain.
    + right. by exists mode, step, began, schema.
  - apply contained_always. unfold gather_inputs. apply contained_bind; [contain|]. intros supplied. destruct (compute_needed_inputs _ _ _); [contain|].
    apply contained_bind; [contain|]. intros [g|e]; [|contain]. destruct (foldl _ _ _). contain.
Qed.

Lemma contained_confirm local request : contained (confirm_gate env local request).
Proof.
  unfold confirm_gate, build_step_preview. change (env_step env) with step. destruct (needs_confirmation _ _); [|contain].
  apply contained_bind; [contain|]. intros [preview|error]; [|contain].
  apply contained_bind; [contain|]. intros [[| |]|error]; [contain| |contain|contain].
  apply contained_optional_skip. contain.
Qed.

Lemma contained_schema fuel : contained_when (just_started step schema) (run_with_schema fuel env).
Proof.
  unfold run_with_schema. apply contained_when_bind.
  - apply contained_when_then; [apply contained_collect|intros local]. apply contained_then; [unfold assemble; contain|intros request].
    apply contained_then; [apply contained_confirm|contain].
  - intros [f|[local request]]; [contain|]. unfold dispatch. change (env_step env) with step. apply contained_bind.
    + destruct (dry_run _); [unfold dry_dispatch, synthesise_dry_run_outputs, update_ctx; contain|]. apply contained_retry; [|contain].
      unfold dispatch_attempt, update_ctx. contain.
    + intros r. apply contained_end_step. contain.
Qed.
End api.

Lemma contained_step fuel mode : contained (run_step fuel renv mode step).
Proof.
  intros s. unfold run_step, emit, bind at 1, gets at 1. unfold bind at 1, ask at 1. unfold bind at 1, modify at 1. cbn [on_event].
  destruct (step_kind step) eqn:Ek; [|by apply contained_local].
  pose proof (Hkind step Hin) as Hok. unfold kind_ok in Hok. rewrite Ek in Hok. destruct Hok as [[op_ref Ho] _].
  unfold run_api_step. rewrite Ho. unfold bind at 1, lift at 1, ok_or, ret at 1. unfold bind at 1, query at 1.
  destruct (get_or_load (service op_ref) _) as [[schema|error] w1] eqn:El; [|apply contained_fail].
  apply contained_schema. split; [apply last_snoc|]. by eexists op_ref, _.
Qed.
End step.

Lemma contained_loop fuel mode todo : todo ⊆ steps -> contained (step_loop fuel renv mode todo).
Proof.
  induction todo as [|step todo IH]; intros Hsub; cbn [step_loop]; [contain|]. apply contained_bind.
  - apply contained_step, Hsub. left.
  - intros [|o err]; [|contain]. apply IH. set_solver.
Qed.

Lemma contained_body fuel before : contained (run_body fuel renv before).
Proof.
  unfold run_body, briefing_phase, collect_phase. apply contained_bind; [contain|]. intros briefed.
  apply contained_bind; [contain|]. intros collected. do 2 (apply contained_bind; [contain|intros ?]).
  destruct (is_success _); [|contain]. by apply contained_loop.
Qed.
End throws.

Lemma contained_run catalogue fuel renv before started : well_compiled catalogue (re_compiled renv) ->
  contained renv (do emit (WorkflowStarted (re_compiled renv));
    let* o := run_body fuel renv before in finish_run (re_compiled renv) (re_options renv) started o).
Proof.
  intros Hc. unfold finish_run, step_duration_ms, emit. apply contained_bind; [apply contained_ask|intros _].
  apply contained_bind; [apply contained_body; [by apply (wc_kind catalogue)|by apply (wc_skippable catalogue)]|].
  intros o. repeat first [apply contained_bind; intros|apply contained_gets|apply contained_modify|apply contained_ask|apply contained_ret].
Qed.

(** [C9] A run of a compiled workflow reports its failures instead of returning early:
    the only errors that leave [execute] are the refusal of the non-interactive
    precheck, before anything happened; an error of the frontend at the failure gate;
    and the error of the field plan of a step that is to be reviewed, right after the step
    was started. The executor's own guards (a step without operation or action, an unknown action, a skipped output
    without default) never fire. *)
Theorem compiled_runs_report_failures d catalogue c fuel supplied options w e s' :
  compile_workflow d catalogue = Ok c -> execute fuel c supplied options w = (Throw e, s') ->
  (no_input options = true /\ trace s' = [] /\ world s' = w /\
   exists v vs, no_input_precheck c (seed_defaults c supplied).1 (dry_run options) (assume_yes options) = v :: vs /\
     e = no_input_violations_to_error (v :: vs) (is_synthesised_single_command (wf_id c))) \/
  escapes (mk_run_env c options (dom supplied) (seed_defaults c supplied).2) e s'.
Proof.
  intros Hc%compile_sound_rules. unfold execute. destruct (seed_defaults c supplied) as [seeded defaults]. cbn [fst snd].
  set (renv := mk_run_env c options (dom supplied) defaults).
  pose proof (contained_run catalogue fuel renv seeded (instant w) Hc (start_state w seeded)) as Hm.
  destruct (no_input options); [destruct (no_input_precheck _ _ _ _) as [|v vs] eqn:Ev|]; cycle 1.
  { intros [= <- <-]. left. split_and!; [done..|]. by exists v, vs. }
  all: intros Hx; right; change (re_options renv) with options in Hm; change (re_compiled renv) with c in Hm; by rewrite Hx in Hm.
Qed.
End runs.

(** * Examples *)

Definition create_compiled : list CompiledStep := take 1 (wf_steps example_compiled).
Definition login_compiled : CompiledStep :=
  match wf_steps example_compiled with [_; step] => step | _ => export_step end.
Definition answered : Script := mk_script [Ok (Object [("id", Str "u-1")])] [] 1000.
Definition example_env : RunEnv := mk_run_env example_compiled interactive ∅ ∅.
Definition example_supply : gmap string value := {["user" := Str "ann"; "namespace" := Str "game"; "region" := Str "eu"]}.

Definition example_start : RunState := start_state answered example_supply.

Lemma compiled_bindings_resolve_witness :
  let s' := (step_loop 3 example_env ReviewInputSteps create_compiled example_start).2 in
  let b := mk_binding "username" (BReference (mk_reference (FromStep "create") (Some "userId") None)) true None in
  (exists v, resolve_binding (bind_source b) (rs_ctx s') example_supply (bindings_by_field login_compiled) ∅ = Ok v) /\
  (exists inputs, resolve_local_step_bindings login_compiled (rs_ctx s') example_supply = Ok inputs).
Proof.
  assert (Hj : Forall answers_json create_compiled).
  { apply Forall_forall. intros step _. right. intros r w b w'. simpl. unfold next_dispatch.
    destruct (sc_dispatches w) as [|[v|e] l]; intros Hx; discriminate Hx. }
  apply (@compiled_bindings_resolve sample_json sample_names sample_platform example_definition example_catalogue
    example_compiled 3 example_env ReviewInputSteps create_compiled login_compiled [] example_start).
  - vm_compute. reflexivity.
  - vm_compute. reflexivity.
  - reflexivity.
  - exact Hj.
  - vm_compute. reflexivity.
  - apply list_elem_of_In. vm_compute. right. left. reflexivity.
Defined.

(** An unattended run without the inputs it needs. *)
Definition example_refused := execute 3 example_compiled ∅ unattended answered.

Lemma compiled_runs_report_failures_witness :
  match example_refused with
  | (Throw e, s') => kind e = Validation /\ (trace s' = [] \/ escapes (mk_run_env example_compiled unattended ∅ (seed_defaults example_compiled ∅).2) e s')
  | _ => False
  end.
Proof.
  assert (Hc : compile_workflow example_definition example_catalogue = Ok example_compiled) by (vm_compute; reflexivity).
  destruct example_refused as [[r|e|] s'] eqn:Hx;
    [vm_compute in Hx; discriminate Hx| |vm_compute in Hx; discriminate Hx].
  destruct (@compiled_runs_report_failures sample_json sample_names sample_platform example_definition example_catalogue
    example_compiled 3 ∅ unattended answered e s' Hc Hx) as [(_ & Ht & _ & v & vs & _ & ->)|He].
  - split; [reflexivity|]. left. exact Ht.
  - split; [|right; exact He]. vm_compute in Hx. injection Hx as <- _. reflexivity.
Defined.
