(* ===== verification/CliErrors.v ===== *)
(** Errors of the command line ([accelbyte-ags-cli/src/errors.rs], with [ErrorMetadata] of
    [ags-protocol/src/error.rs] and [invocation/errors.rs]): their categories, exit codes, what is
    shown of them, and how the errors of the runtime become them. *)

From stdpp Require Import base gmap strings list.
From Stdlib Require Import ZArith Lia Ascii.
From S2P Require Import Prelude Text Results Workflow.

Inductive ApiErrorCategory : Type := CatPermission | CatNotFound | CatRejected | CatTimeout | CatUpstream.

Record ErrorMetadata : Type := mk_error_metadata {
  em_reason : option string;
  em_detail : option string;
  em_suggestion : option string;
  em_suggestion_kind : SuggestionKind;
  em_tip : option string;
  em_code : option string;
  em_http_status : option Z;
  em_trace : option ExecutionTrace
}.

Definition no_metadata : ErrorMetadata := mk_error_metadata None None None Fix_ None None None None.
Definition with_suggestion (s : string) : ErrorMetadata := mk_error_metadata None None (Some s) Fix_ None None None None.
Definition with_info (s : string) : ErrorMetadata := mk_error_metadata None None (Some s) Info_ None None None None.

Inductive CliError : Type :=
| CliUsage (message : string) (metadata : option ErrorMetadata)
| CliAuth (message : string) (metadata : option ErrorMetadata)
| CliApi (message : string) (metadata : option ErrorMetadata) (category : ApiErrorCategory)
| CliNetwork (message : string) (metadata : option ErrorMetadata)
| CliInternal (message : string).

Definition usage (message : string) : CliError := CliUsage message None.
Definition usage_fix (message suggestion : string) : CliError := CliUsage message (Some (with_suggestion suggestion)).

Record ErrorView : Type := mk_error_view {
  ev_message : string;
  ev_reason : option string;
  ev_detail : option string;
  ev_suggestion : option string;
  ev_suggestion_kind : SuggestionKind;
  ev_tip : option string;
  ev_exit_code : Z;
  ev_trace : option ExecutionTrace
}.

Definition exit_code (e : CliError) : Z :=
  match e with
  | CliUsage _ _ => 1
  | CliAuth _ _ => 2
  | CliApi _ _ CatTimeout => 6
  | CliApi _ _ _ => 3
  | CliNetwork _ _ => 4
  | CliInternal _ => 5
  end.

Definition cli_telemetry_class (e : CliError) : string :=
  match e with
  | CliUsage _ _ => "usage"
  | CliAuth _ _ => "auth"
  | CliApi _ _ c => match c with CatPermission => "permission" | CatNotFound => "not_found" | CatRejected => "rejected" | CatTimeout => "timeout" | CatUpstream => "upstream" end
  | CliNetwork _ _ => "network"
  | CliInternal _ => "internal"
  end.

Definition error_metadata (e : CliError) : option ErrorMetadata :=
  match e with CliUsage _ m | CliAuth _ m | CliApi _ m _ | CliNetwork _ m => m | CliInternal _ => None end.

Definition error_message (e : CliError) : string :=
  match e with CliUsage m _ | CliAuth m _ | CliApi m _ _ | CliNetwork m _ | CliInternal m => m end.

Definition view (e : CliError) : ErrorView :=
  let m := error_metadata e in
  mk_error_view (error_message e) (m ≫= em_reason) (m ≫= em_detail) (m ≫= em_suggestion) (from_option em_suggestion_kind Fix_ m) (m ≫= em_tip)
    (exit_code e) (m ≫= em_trace).

(** [From<RuntimeError>]. *)
Definition metadata_of_runtime (e : RuntimeError) : ErrorMetadata :=
  let upstream := match kind e with Upstream status code => (Some status, code) | _ => (None, None) end in
  mk_error_metadata (details e ≫= err_reason) (details e ≫= err_detail) (hint e) (default Fix_ (details e ≫= err_suggestion_kind)) (details e ≫= err_tip)
    (match upstream.2 with Some c => Some c | None => details e ≫= err_code end) upstream.1 (err_trace e).

Definition cli_error_of_runtime (e : RuntimeError) : CliError :=
  let m := Some (metadata_of_runtime e) in
  match kind e with
  | Validation => CliUsage (message e) m
  | Network => CliNetwork (message e) m
  | ResponseTooLarge => CliApi (message e) m CatUpstream
  | Internal => CliInternal (message e)
  | NotAuthenticated => CliAuth (message e) m
  | Forbidden => CliApi (message e) m CatPermission
  | NotFound => CliApi (message e) m CatNotFound
  | Rejected => CliApi (message e) m CatRejected
  | Upstream _ _ => CliApi (message e) m CatUpstream
  end.

(** The class of an error in telemetry is the one the runtime gives it. *)
Lemma telemetry_class_kept e : cli_telemetry_class (cli_error_of_runtime e) = telemetry_class (kind e).
Proof. unfold cli_error_of_runtime. by destruct (kind e). Qed.

(** * Confirmation ([invocation/confirm.rs]) *)

Inductive Confirmation : Type := Confirmed | Declined.
