(* ===== verification/Flags.v ===== *)
(** Global flags and selectors ([invocation/flags.rs], with the [FromStr] implementations of
    [ags-protocol/src/request.rs] and [router.rs]): how they are taken out of the arguments. *)

From stdpp Require Import base gmap strings list.
From Stdlib Require Import ZArith Lia Ascii.
From S2P Require Import Prelude Text Workflow Request Config CliErrors.

Inductive UiFlag : Type := UiAuto | UiPlain | UiInline | UiFullscreen.

Definition parse_ui (s : string) : result UiFlag string :=
  if String.eqb s "auto" then Ok UiAuto
  else if String.eqb s "plain" then Ok UiPlain
  else if String.eqb s "inline" then Ok UiInline
  else if String.eqb s "fullscreen" then Ok UiFullscreen
  else Err ("unknown --ui value '" +:+ s +:+ "' (expected one of: auto, plain, inline, fullscreen)").

Definition parse_format (s : string) : result OutputFormat string :=
  if String.eqb s "human" then Ok Human
  else if String.eqb s "json" then Ok JsonFormat
  else Err ("unknown --format value '" +:+ s +:+ "' (expected: human, json)").

(** Every text is a destination. *)
Definition parse_output (s : string) : OutputDestination := if String.eqb s "-" then Stdout else File s.

Record GlobalFlags : Type := mk_flags {
  f_verbosity : Verbosity;
  is_no_input : bool;
  is_no_color : bool;
  is_auto_confirmed : bool;
  f_format : option OutputFormat;
  f_ui : option UiFlag;
  f_namespace : option string;
  f_profile : option string;
  is_dry_run : bool;
  is_skeleton : bool;
  f_timeout : option Z;
  is_page_all : bool;
  page_limit : option Z;
  page_limit_raw : option string;
  f_output : option OutputDestination
}.

Definition default_flags : GlobalFlags := mk_flags Normal false false false None None None None false false None false None None None.

Definition pagination_hint (f : GlobalFlags) : PaginationHint :=
  if is_page_all f then match page_limit f with Some n => PageLimit n | None => PageAll end else PageAuto.

(** The flags with their values, as they would be typed. *)
Definition telemetry_pairs (f : GlobalFlags) : list (string * option string) :=
  (match f_verbosity f with Verbose => [("--verbose", None)] | Quiet => [("--quiet", None)] | Normal => [] end) ++
  (if is_no_input f then [("--no-input", None)] else []) ++
  (if is_no_color f then [("--no-color", None)] else []) ++
  (if is_auto_confirmed f then [("--yes", None)] else []) ++
  (match f_format f with Some x => [("--format", Some (match x with Human => "human" | JsonFormat => "json" end))] | None => [] end) ++
  (match f_ui f with
   | Some x => [("--ui", Some (match x with UiAuto => "auto" | UiPlain => "plain" | UiInline => "inline" | UiFullscreen => "fullscreen" end))]
   | None => []
   end) ++
  (match f_namespace f with Some x => [("--namespace", Some x)] | None => [] end) ++
  (match f_profile f with Some x => [("--profile", Some x)] | None => [] end) ++
  (if is_dry_run f then [("--dry-run", None)] else []) ++
  (if is_skeleton f then [("--skeleton", None)] else []) ++
  (match f_timeout f with Some x => [("--timeout", Some (show_int x))] | None => [] end) ++
  (if is_page_all f then [("--page-all", None)] else []) ++
  (match page_limit_raw f with Some x => [("--page-limit", Some x)] | None => [] end) ++
  (match f_output f with Some x => [("--output", Some (match x with Stdout => "-" | File path => path end))] | None => [] end).

Definition KNOWN_GLOBAL_FLAGS : list (string * bool) :=
  [("--verbose", false); ("-v", false); ("--quiet", false); ("-q", false); ("--no-input", false); ("--no-color", false); ("--yes", false); ("-y", false);
   ("--format", true); ("--ui", true); ("--namespace", true); ("-n", true); ("--output", true); ("--profile", true); ("--dry-run", false);
   ("--skeleton", false); ("--timeout", true); ("--page-all", false); ("--page-limit", true)].

(** Whether a known flag takes a value. *)
Definition known_flag (s : string) : option bool := option_map snd (List.find (fun kv => String.eqb kv.1 s) KNOWN_GLOBAL_FLAGS).

(** * Applying a flag *)

Definition set_verbosity (v : Verbosity) (f : GlobalFlags) : GlobalFlags :=
  mk_flags v (is_no_input f) (is_no_color f) (is_auto_confirmed f) (f_format f) (f_ui f) (f_namespace f) (f_profile f) (is_dry_run f) (is_skeleton f)
    (f_timeout f) (is_page_all f) (page_limit f) (page_limit_raw f) (f_output f).
Definition set_no_input (f : GlobalFlags) : GlobalFlags :=
  mk_flags (f_verbosity f) true (is_no_color f) (is_auto_confirmed f) (f_format f) (f_ui f) (f_namespace f) (f_profile f) (is_dry_run f) (is_skeleton f)
    (f_timeout f) (is_page_all f) (page_limit f) (page_limit_raw f) (f_output f).
Definition set_no_color (f : GlobalFlags) : GlobalFlags :=
  mk_flags (f_verbosity f) (is_no_input f) true (is_auto_confirmed f) (f_format f) (f_ui f) (f_namespace f) (f_profile f) (is_dry_run f) (is_skeleton f)
    (f_timeout f) (is_page_all f) (page_limit f) (page_limit_raw f) (f_output f).
Definition set_auto_confirmed (f : GlobalFlags) : GlobalFlags :=
  mk_flags (f_verbosity f) (is_no_input f) (is_no_color f) true (f_format f) (f_ui f) (f_namespace f) (f_profile f) (is_dry_run f) (is_skeleton f)
    (f_timeout f) (is_page_all f) (page_limit f) (page_limit_raw f) (f_output f).
Definition set_format (x : OutputFormat) (f : GlobalFlags) : GlobalFlags :=
  mk_flags (f_verbosity f) (is_no_input f) (is_no_color f) (is_auto_confirmed f) (Some x) (f_ui f) (f_namespace f) (f_profile f) (is_dry_run f) (is_skeleton f)
    (f_timeout f) (is_page_all f) (page_limit f) (page_limit_raw f) (f_output f).
Definition set_ui (x : UiFlag) (f : GlobalFlags) : GlobalFlags :=
  mk_flags (f_verbosity f) (is_no_input f) (is_no_color f) (is_auto_confirmed f) (f_format f) (Some x) (f_namespace f) (f_profile f) (is_dry_run f) (is_skeleton f)
    (f_timeout f) (is_page_all f) (page_limit f) (page_limit_raw f) (f_output f).
Definition set_namespace (x : string) (f : GlobalFlags) : GlobalFlags :=
  mk_flags (f_verbosity f) (is_no_input f) (is_no_color f) (is_auto_confirmed f) (f_format f) (f_ui f) (Some x) (f_profile f) (is_dry_run f) (is_skeleton f)
    (f_timeout f) (is_page_all f) (page_limit f) (page_limit_raw f) (f_output f).
Definition set_profile (x : string) (f : GlobalFlags) : GlobalFlags :=
  mk_flags (f_verbosity f) (is_no_input f) (is_no_color f) (is_auto_confirmed f) (f_format f) (f_ui f) (f_namespace f) (Some x) (is_dry_run f) (is_skeleton f)
    (f_timeout f) (is_page_all f) (page_limit f) (page_limit_raw f) (f_output f).
Definition set_dry_run (f : GlobalFlags) : GlobalFlags :=
  mk_flags (f_verbosity f) (is_no_input f) (is_no_color f) (is_auto_confirmed f) (f_format f) (f_ui f) (f_namespace f) (f_profile f) true (is_skeleton f)
    (f_timeout f) (is_page_all f) (page_limit f) (page_limit_raw f) (f_output f).
Definition set_skeleton (f : GlobalFlags) : GlobalFlags :=
  mk_flags (f_verbosity f) (is_no_input f) (is_no_color f) (is_auto_confirmed f) (f_format f) (f_ui f) (f_namespace f) (f_profile f) (is_dry_run f) true
    (f_timeout f) (is_page_all f) (page_limit f) (page_limit_raw f) (f_output f).
Definition set_timeout (x : Z) (f : GlobalFlags) : GlobalFlags :=
  mk_flags (f_verbosity f) (is_no_input f) (is_no_color f) (is_auto_confirmed f) (f_format f) (f_ui f) (f_namespace f) (f_profile f) (is_dry_run f) (is_skeleton f)
    (Some x) (is_page_all f) (page_limit f) (page_limit_raw f) (f_output f).
Definition set_page_all (f : GlobalFlags) : GlobalFlags :=
  mk_flags (f_verbosity f) (is_no_input f) (is_no_color f) (is_auto_confirmed f) (f_format f) (f_ui f) (f_namespace f) (f_profile f) (is_dry_run f) (is_skeleton f)
    (f_timeout f) true (page_limit f) (page_limit_raw f) (f_output f).
Definition set_page_limit_raw (x : option string) (f : GlobalFlags) : GlobalFlags :=
  mk_flags (f_verbosity f) (is_no_input f) (is_no_color f) (is_auto_confirmed f) (f_format f) (f_ui f) (f_namespace f) (f_profile f) (is_dry_run f) (is_skeleton f)
    (f_timeout f) (is_page_all f) (page_limit f) x (f_output f).
Definition set_page_limit (x : option Z) (f : GlobalFlags) : GlobalFlags :=
  mk_flags (f_verbosity f) (is_no_input f) (is_no_color f) (is_auto_confirmed f) (f_format f) (f_ui f) (f_namespace f) (f_profile f) (is_dry_run f) (is_skeleton f)
    (f_timeout f) (is_page_all f) x (page_limit_raw f) (f_output f).
Definition set_output (x : OutputDestination) (f : GlobalFlags) : GlobalFlags :=
  mk_flags (f_verbosity f) (is_no_input f) (is_no_color f) (is_auto_confirmed f) (f_format f) (f_ui f) (f_namespace f) (f_profile f) (is_dry_run f) (is_skeleton f)
    (f_timeout f) (is_page_all f) (page_limit f) (page_limit_raw f) (Some x).

Definition invalid_timeout (v : string) : CliError :=
  usage_fix ("Invalid --timeout value '" +:+ v +:+ "'") "Pass a positive integer number of seconds, e.g. --timeout 60".
Definition zero_timeout : CliError := usage_fix "--timeout must be at least 1 second" "Pass a positive integer, e.g. --timeout 60".
Definition empty_namespace : CliError := usage_fix "--namespace value cannot be empty" "Pass a non-empty namespace, e.g. --namespace my-game".

Definition apply_plain (flag : string) (f : GlobalFlags) : GlobalFlags :=
  if String.eqb flag "--verbose" || String.eqb flag "-v" then set_verbosity Verbose f
  else if String.eqb flag "--quiet" || String.eqb flag "-q" then set_verbosity Quiet f
  else if String.eqb flag "--no-input" then set_no_input f
  else if String.eqb flag "--no-color" then set_no_color f
  else if String.eqb flag "--yes" || String.eqb flag "-y" then set_auto_confirmed f
  else if String.eqb flag "--dry-run" then set_dry_run f
  else if String.eqb flag "--skeleton" then set_skeleton f
  else if String.eqb flag "--page-all" then set_page_all f
  else f.

(** A flag with a value when it takes one. *)
Definition apply_valued (flag v : string) (f : GlobalFlags) : result GlobalFlags CliError :=
  if String.eqb flag "--format" then let? x := map_err usage (parse_format v) in Ok (set_format x f)
  else if String.eqb flag "--ui" then let? x := map_err usage (parse_ui v) in Ok (set_ui x f)
  else if String.eqb flag "--namespace" || String.eqb flag "-n" then if is_empty (trim v) then Err empty_namespace else Ok (set_namespace v f)
  else if String.eqb flag "--output" then Ok (set_output (parse_output v) f)
  else if String.eqb flag "--profile" then Ok (set_profile v f)
  else if String.eqb flag "--timeout" then
    let? n := ok_or (parse_unsigned u64_max v) (invalid_timeout v) in
    if n =? 0 then Err zero_timeout else Ok (set_timeout n f)
  else if String.eqb flag "--page-limit" then Ok (set_page_limit_raw (Some v) f)
  else Ok (apply_plain flag f).

Definition apply_flag (f : GlobalFlags) (flag : string) (v : option string) : result GlobalFlags CliError :=
  match v with Some v => apply_valued flag v f | None => Ok (apply_plain flag f) end.

(** * Scanning the arguments *)

(** [--flag=value], of a known flag that takes a value. *)
Definition joined (arg : string) : option (string * string) :=
  '(flag, v) ← split_once "=" arg;
  takes ← known_flag flag;
  if (takes : bool) then Some (flag, v) else None.

Definition looks_like_flag (s : string) : bool := starts_with "-" s && negb (String.eqb s "-").

Definition value_required (arg : string) : CliError := usage ("A value is required for '" +:+ arg +:+ "' but none was supplied").

Fixpoint scan_flags (args : list string) (f : GlobalFlags) (remaining : list string) : result (GlobalFlags * list string) CliError :=
  match args with
  | [] => Ok (f, remaining)
  | arg :: rest =>
      match joined arg with
      | Some (flag, v) => let? f := apply_flag f flag (Some v) in scan_flags rest f remaining
      | None =>
          match known_flag arg with
          | Some true =>
              match rest with
              | v :: rest' => if looks_like_flag v then Err (value_required arg) else let? f := apply_flag f arg (Some v) in scan_flags rest' f remaining
              | [] => Err (value_required arg)
              end
          | Some false => let? f := apply_flag f arg None in scan_flags rest f remaining
          | None => scan_flags rest f (remaining ++ [arg])
          end
      end
  end.

Definition pre_scan_global_flags (args : list string) : result (GlobalFlags * list string) CliError := scan_flags args default_flags [].

(** * Selectors *)

Record LeafSelectors : Type := mk_selectors { api_scope : option string; sel_version : option string }.

Definition select (flag v : string) (s : LeafSelectors) : LeafSelectors :=
  if String.eqb flag "--api-scope" then mk_selectors (Some v) (sel_version s) else mk_selectors (api_scope s) (Some v).

Definition is_selector (flag : string) : bool := String.eqb flag "--api-scope" || String.eqb flag "--api-version".

Definition selector_value_required (flag name : string) : CliError :=
  usage ("A value is required for '" +:+ flag +:+ " <" +:+ name +:+ ">' but none was supplied").

(** The name in the message is the flag without its dashes. *)
Definition selector_name (flag : string) : string := if String.eqb flag "--api-scope" then "api-scope" else "api-version".

Fixpoint scan_selectors (args : list string) (s : LeafSelectors) (remaining : list string) : result (LeafSelectors * list string) CliError :=
  match args with
  | [] => Ok (s, remaining)
  | arg :: rest =>
      match ('(flag, v) ← split_once "=" arg; if is_selector flag then Some (flag, v) else None) with
      | Some (flag, v) => scan_selectors rest (select flag v s) remaining
      | None =>
          if is_selector arg then
            match rest with
            | v :: rest' => if starts_with "-" v then Err (selector_value_required arg (selector_name arg)) else scan_selectors rest' (select arg v s) remaining
            | [] => Err (selector_value_required arg (selector_name arg))
            end
          else scan_selectors rest s (remaining ++ [arg])
      end
  end.

Definition pre_scan_leaf_selectors (args : list string) : result (LeafSelectors * list string) CliError := scan_selectors args (mk_selectors None None) [].

(** * Defaults and limits *)

(** The global configuration, if it can be read. *)
Definition apply_config_defaults (config : result GlobalConfig RuntimeError) (f : GlobalFlags) : GlobalFlags :=
  match config with
  | Err _ => f
  | Ok c =>
      mk_flags (f_verbosity f) (is_no_input f) (if is_no_color f then true else bool_decide (no_color c = Some true)) (is_auto_confirmed f)
        (match f_format f with Some x => Some x | None => g_format c end) (f_ui f) (f_namespace f) (f_profile f) (is_dry_run f) (is_skeleton f)
        (match f_timeout f with Some x => Some x | None => timeout c end) (is_page_all f)
        (match page_limit f with Some x => Some x | None => g_page_limit c end) (page_limit_raw f) (f_output f)
  end.

Definition parse_page_limit (f : GlobalFlags) : result GlobalFlags CliError :=
  match page_limit_raw f with
  | None => Ok f
  | Some raw =>
      match parse_unsigned u64_max raw with
      | Some n => if (1 <=? n) && (n <=? 100) then Ok (set_page_limit (Some n) (set_page_limit_raw None f))
                  else Err (usage_fix ("Invalid page limit '" +:+ raw +:+ "'") "Use a value between 1 and 100")
      | None => Err (usage_fix ("Invalid page limit '" +:+ raw +:+ "'") "Use a value between 1 and 100")
      end
  end.

(** * The global flags of an invocation: however they are spread over the arguments, they mean
    what they mean written first, in one order, and the rest of the arguments is untouched. *)

#[local] Arguments String.append !_ _ /.

(** * What flags can be *)

Definition nonblank (s : string) : Prop := is_empty (trim s) = false.

Record scanned (f : GlobalFlags) : Prop := {
  scanned_namespace : forall n, f_namespace f = Some n -> nonblank n;
  scanned_timeout : forall n, f_timeout f = Some n -> 1 <= n <= u64_max;
  scanned_limit : page_limit f = None;
  scanned_output : f_output f <> Some (File "-")
}.

Lemma scanned_default : scanned default_flags.
Proof. by split. Qed.

Lemma apply_plain_scanned flag f : scanned f -> scanned (apply_plain flag f).
Proof.
  intros [Hn Ht Hl Ho]. unfold apply_plain.
  repeat match goal with |- context [if ?b then _ else _] => destruct b end; by split.
Qed.

Lemma apply_valued_scanned flag v f f' : scanned f -> apply_valued flag v f = Ok f' -> scanned f'.
Proof.
  intros Hs. pose proof Hs as [Hn Ht Hl Ho]. unfold apply_valued.
  destruct (String.eqb flag "--format"); [destruct (parse_format v); simpl; [|done]; intros [= <-]; by split|].
  destruct (String.eqb flag "--ui"); [destruct (parse_ui v); simpl; [|done]; intros [= <-]; by split|].
  destruct (_ || _). { destruct (is_empty (trim v)) eqn:E; [done|]. intros [= <-]. split; simpl; try done. by intros n [= <-]. }
  destruct (String.eqb flag "--output").
  { intros [= <-]. split; simpl; try done. unfold parse_output. destruct (String.eqb_spec v "-"); congruence. }
  destruct (String.eqb flag "--profile"); [intros [= <-]; by split|].
  destruct (String.eqb flag "--timeout").
  { destruct (parse_unsigned u64_max v) as [n|] eqn:E; simpl; [|done]. destruct (Z.eqb_spec n 0); [done|]. intros [= <-]. split; simpl; try done.
    apply parse_unsigned_range in E; [|done]. intros m [= <-]. lia. }
  destruct (String.eqb flag "--page-limit"); [intros [= <-]; by split|]. intros [= <-]. by apply apply_plain_scanned.
Qed.

Lemma apply_flag_scanned f flag v f' : scanned f -> apply_flag f flag v = Ok f' -> scanned f'.
Proof. destruct v as [v|]; [apply apply_valued_scanned|]. intros Hs [= <-]. by apply apply_plain_scanned. Qed.

(** * What is left *)

(** An argument the scan does not take. *)
Definition inert (a : string) : Prop := joined a = None /\ known_flag a = None.

Lemma scan_inert kept f rem : Forall inert kept -> scan_flags kept f rem = Ok (f, rem ++ kept).
Proof.
  intros Hk. revert rem. induction Hk as [|a kept [Hj Hn] _ IH]; intros rem; [by rewrite app_nil_r|].
  simpl. by rewrite Hj, Hn, IH, <- app_assoc.
Qed.

Lemma scan_spec n args f rem f' rem' : (length args <= n)%nat -> scanned f -> scan_flags args f rem = Ok (f', rem') ->
  scanned f' /\ exists kept, rem' = rem ++ kept /\ kept `sublist_of` args /\ Forall inert kept.
Proof.
  revert args f rem. induction n as [|n IH]; intros [|a args] f rem Hl Hs Hr; simpl in Hl; try lia.
  1,2: injection Hr as <- <-; split; [done|]; exists []; split; [by rewrite app_nil_r|]; split; constructor.
  cbn [scan_flags] in Hr. destruct (joined a) as [[flag v]|] eqn:Ej.
  { destruct (apply_flag f flag (Some v)) as [g|] eqn:Ea; [|done]. simpl in Hr. apply IH in Hr as (Hs' & kept & -> & Hk & Hi); [|lia|by eapply apply_flag_scanned].
    split; [done|]. exists kept. split; [done|]. split; [by constructor|done]. }
  destruct (known_flag a) as [[]|] eqn:Ek.
  - destruct args as [|v args]; [done|]. destruct (looks_like_flag v); [done|].
    destruct (apply_flag f a (Some v)) as [g|] eqn:Ea; [|done]. simpl in Hr, Hl.
    apply IH in Hr as (Hs' & kept & -> & Hk & Hi); [|lia|by eapply apply_flag_scanned].
    split; [done|]. exists kept. split; [done|]. split; [by do 2 constructor|done].
  - simpl in Hr. apply IH in Hr as (Hs' & kept & -> & Hk & Hi); [|lia|by apply apply_plain_scanned].
    split; [done|]. exists kept. split; [done|]. split; [by constructor|done].
  - apply IH in Hr as (Hs' & kept & -> & Hk & Hi); [|lia|done].
    split; [done|]. exists (a :: kept). split; [by rewrite <- app_assoc|]. split; [by constructor|by constructor].
Qed.

(** * Flags as arguments *)

(** A flag as it is typed, with its value behind [=]. *)
Definition typed_flag (p : string * option string) : string := match p.2 with Some v => p.1 +:+ "=" +:+ v | None => p.1 end.

Fixpoint apply_all (l : list (string * option string)) (f : GlobalFlags) : result GlobalFlags CliError :=
  match l with [] => Ok f | p :: l => let? f := apply_flag f p.1 p.2 in apply_all l f end.

Lemma apply_all_app l1 l2 f : apply_all (l1 ++ l2) f = let? f := apply_all l1 f in apply_all l2 f.
Proof. revert f. induction l1 as [|p l1 IH]; intros f; simpl; [done|]. destruct (apply_flag f p.1 p.2); simpl; [apply IH|done]. Qed.

(** A flag that is typed is the flag the scan takes. *)
Definition typeable (p : string * option string) : Prop := forall f rest rem,
  scan_flags (typed_flag p :: rest) f rem = let? f := apply_flag f p.1 p.2 in scan_flags rest f rem.

Lemma scan_typed l f rest rem : Forall typeable l -> scan_flags (map typed_flag l ++ rest) f rem = let? f := apply_all l f in scan_flags rest f rem.
Proof.
  intros Hl. revert f. induction Hl as [|p l Hp _ IH]; intros f; [done|]. simpl map. simpl app. rewrite Hp. simpl.
  destruct (apply_flag f p.1 p.2); simpl; [apply IH|done].
Qed.

Lemma telemetry_typeable f : Forall typeable (telemetry_pairs f).
Proof.
  unfold telemetry_pairs. repeat (apply Forall_app; split).
  all: try (match goal with |- context [match ?x with _ => _ end] => destruct x; repeat constructor end).
Qed.

(** One group of flags sets one field. *)
Lemma apply_group l r f g : apply_all l f = Ok g -> apply_all (l ++ r) f = apply_all r g.
Proof. intros He. by rewrite apply_all_app, He. Qed.

Ltac group g := rewrite (apply_group _ _ _ g) by (case_match; done).

Lemma telemetry_applies f : scanned f -> apply_all (telemetry_pairs f) default_flags = Ok f.
Proof.
  intros [Hn Ht Hl Ho]. destruct f as [v ni nc ac fmt ui ns pr dry sk to pa lim raw out]. simpl in *. subst lim. unfold telemetry_pairs, default_flags. simpl.
  group (mk_flags v false false false None None None None false false None false None None None).
  group (mk_flags v ni false false None None None None false false None false None None None).
  group (mk_flags v ni nc false None None None None false false None false None None None).
  group (mk_flags v ni nc ac None None None None false false None false None None None).
  rewrite (apply_group _ _ _ (mk_flags v ni nc ac fmt None None None false false None false None None None)) by (by destruct fmt as [[]|]).
  rewrite (apply_group _ _ _ (mk_flags v ni nc ac fmt ui None None false false None false None None None)) by (by destruct ui as [[]|]).
  rewrite (apply_group _ _ _ (mk_flags v ni nc ac fmt ui ns None false false None false None None None))
    by (destruct ns as [n|]; [|done]; cbn; unfold apply_valued; simpl; by rewrite (Hn n eq_refl)).
  group (mk_flags v ni nc ac fmt ui ns pr false false None false None None None).
  group (mk_flags v ni nc ac fmt ui ns pr dry false None false None None None).
  group (mk_flags v ni nc ac fmt ui ns pr dry sk None false None None None).
  rewrite (apply_group _ _ _ (mk_flags v ni nc ac fmt ui ns pr dry sk to false None None None)).
  2: { destruct to as [n|]; [|done]. specialize (Ht n eq_refl). unfold apply_all, apply_flag, apply_valued. cbn [fst snd String.eqb Ascii.eqb Bool.eqb orb].
       rewrite parse_show_int by lia. simpl. rewrite (proj2 (Z.eqb_neq n 0)) by lia. done. }
  group (mk_flags v ni nc ac fmt ui ns pr dry sk to pa None None None).
  group (mk_flags v ni nc ac fmt ui ns pr dry sk to pa None raw None).
  destruct out as [[|path]|]; [done| |done]. cbn. unfold apply_valued, parse_output. simpl.
  destruct (String.eqb_spec path "-") as [->|]; [by destruct Ho|done].
Qed.

(** * The normal form *)

(** The arguments of an invocation have a normal form: the flags that were taken, typed
    as [telemetry_pairs] renders them, before the arguments that were left, which are in
    their order. Scanning it gives the same flags and the same arguments; scanning what was
    left takes nothing more. *)
Theorem flags_normal_form args f rest : pre_scan_global_flags args = Ok (f, rest) ->
  rest `sublist_of` args /\
  pre_scan_global_flags rest = Ok (default_flags, rest) /\
  pre_scan_global_flags (map typed_flag (telemetry_pairs f) ++ rest) = Ok (f, rest).
Proof.
  intros Hr. destruct (scan_spec (length args) args default_flags [] f rest) as (Hs & kept & -> & Hsub & Hi); [done|apply scanned_default|done|].
  simpl app in *. unfold pre_scan_global_flags. split; [done|]. rewrite scan_inert by done. split; [done|].
  rewrite scan_typed by apply telemetry_typeable. rewrite telemetry_applies by done. simpl. by rewrite scan_inert.
Qed.

Definition sample_args : list string := ["iam"; "-q"; "users"; "--namespace"; "game"; "list"; "--limit=5"; "--timeout=30"; "-v"; "--output"; "-"].

Definition sample_flags : GlobalFlags :=
  mk_flags Verbose false false false None None (Some "game") None false false (Some 30) false None None (Some Stdout).

Lemma flags_normal_form_witness :
  pre_scan_global_flags (["--verbose"; "--namespace=game"; "--timeout=30"; "--output=-"] ++ ["iam"; "users"; "list"; "--limit=5"]) =
    Ok (sample_flags, ["iam"; "users"; "list"; "--limit=5"]).
Proof.
  refine (proj2 (proj2 (flags_normal_form sample_args sample_flags ["iam"; "users"; "list"; "--limit=5"] _))). by vm_compute.
Defined.

(** A value that starts with a dash is only a value behind [=]. *)
Example dashed_value :
  pre_scan_global_flags ["--namespace"; "--yes"] = Err (value_required "--namespace") /\
  pre_scan_global_flags ["--namespace=--yes"] = Ok (set_namespace "--yes" default_flags, []).
Proof. by vm_compute. Qed.
