(* ===== verification/Surface.v ===== *)
(** Who an invocation is for, what it may ask, and on which surface it is shown
    ([invocation/context.rs], [policy.rs], [shape.rs] and [confirm.rs] of [accelbyte-ags-cli]). *)

From stdpp Require Import base gmap strings list.
From Stdlib Require Import ZArith Lia Ascii.
From S2P Require Import Prelude Text Workflow Request CliErrors Flags.

(** * The decision matrix *)

Inductive RouteKind : Type := RouteAuth | RouteService | RouteWorkflow | RouteBuiltin.
Inductive Shape : Type := ShapeZero | ShapeSmall | ShapeForm | ShapeMulti | ShapeAuthSp | ShapeStatic.
Inductive Surface : Type := SurfacePlain | SurfaceInline | SurfaceFullscreen | SurfaceJson.

#[export] Instance ui_flag_eq_dec : EqDecision UiFlag.
Proof. solve_decision. Defined.
#[export] Instance surface_eq_dec : EqDecision Surface.
Proof. solve_decision. Defined.

Record MissingInputs : Type := mk_missing { required_scalars : nat; has_body_field : bool }.

Inductive AuthSubcommand : Type := LoginBrowser | OtherAuth.
Inductive OutputOnly : Type := OutputYes | OutputNo.

Definition classify_service_like (missing : MissingInputs) : Shape :=
  if has_body_field missing || (3 <=? required_scalars missing)%nat then ShapeForm
  else if (required_scalars missing =? 0)%nat then ShapeZero
  else ShapeSmall.

Definition classify_shape (route : RouteKind) (missing : MissingInputs) (step_count : nat) (auth_sub : AuthSubcommand) (output_only : OutputOnly) : Shape :=
  match route with
  | RouteAuth => match auth_sub with LoginBrowser => ShapeAuthSp | OtherAuth => classify_service_like missing end
  | RouteWorkflow => if (2 <=? step_count)%nat then ShapeMulti else classify_service_like missing
  | RouteService => classify_service_like missing
  | RouteBuiltin => match output_only with OutputYes => ShapeStatic | OutputNo => classify_service_like missing end
  end.

Definition base_surface (route : RouteKind) (shape : Shape) : Surface :=
  match route, shape with
  | RouteAuth, _ => SurfacePlain
  | RouteWorkflow, _ => SurfaceFullscreen
  | (RouteService | RouteBuiltin), ShapeForm => SurfaceInline
  | (RouteService | RouteBuiltin), (ShapeZero | ShapeSmall | ShapeStatic) => SurfacePlain
  | _, ShapeMulti => SurfaceFullscreen
  | _, ShapeAuthSp => SurfacePlain
  end.

(** * The context of an invocation *)

Inductive ConsumerKind : Type := HumanConsumer | Automation.

Record InteractionPolicy : Type := mk_policy { allow_input : bool; prefer_rich_ui : bool; prefer_fullscreen : bool }.

Record TerminalCapabilities : Type := mk_terminal { stdin_is_tty : bool; stdout_is_tty : bool; stderr_is_tty : bool; color_force_off : bool }.

Definition allows_interactive_prompts (t : TerminalCapabilities) : bool := stdin_is_tty t && stderr_is_tty t.
Definition stdout_color (t : TerminalCapabilities) : bool := negb (color_force_off t) && stdout_is_tty t.
Definition stderr_color (t : TerminalCapabilities) : bool := negb (color_force_off t) && stderr_is_tty t.

Record FrontendContext : Type := mk_context {
  consumer : ConsumerKind;
  interaction : InteractionPolicy;
  terminal : TerminalCapabilities;
  ui_intent : UiFlag
}.

Definition allows_input (c : FrontendContext) : bool := allow_input (interaction c).
Definition is_automation (c : FrontendContext) : bool := match consumer c with Automation => true | HumanConsumer => false end.
Definition protocol_output_format (c : FrontendContext) : OutputFormat := match consumer c with Automation => JsonFormat | HumanConsumer => Human end.

Inductive InteractionPhase : Type := PhaseInput | PhaseConfirmation | PhaseProgress | PhaseResult | PhaseError.
Inductive PhaseBackend : Type := PlainTerminal | InlineTerminalUi | FullscreenTerminalUi | StructuredJson.

Definition telemetry_label (b : PhaseBackend) : string :=
  match b with PlainTerminal => "plain" | InlineTerminalUi => "inline" | FullscreenTerminalUi => "fullscreen" | StructuredJson => "structured_json" end.

Definition surface_backend (c : FrontendContext) : PhaseBackend :=
  match consumer c with
  | Automation => StructuredJson
  | HumanConsumer =>
      if prefer_fullscreen (interaction c) then FullscreenTerminalUi
      else if prefer_rich_ui (interaction c) then InlineTerminalUi
      else PlainTerminal
  end.

Definition pre_surface_backend (c : FrontendContext) : PhaseBackend := if is_automation c then StructuredJson else PlainTerminal.

Definition backend_for_phase (c : FrontendContext) (p : InteractionPhase) : PhaseBackend :=
  match surface_backend c with
  | PlainTerminal => PlainTerminal
  | StructuredJson => StructuredJson
  | InlineTerminalUi => match p with PhaseInput | PhaseConfirmation | PhaseProgress => InlineTerminalUi | PhaseResult | PhaseError => PlainTerminal end
  | FullscreenTerminalUi => FullscreenTerminalUi
  end.

Definition input_unavailable_reason (t : TerminalCapabilities) : string :=
  match stdin_is_tty t, stderr_is_tty t with
  | false, false => "Attempting to run interactively, but stdin and stderr are not terminals."
  | false, true => "Attempting to run interactively, but stdin is not a terminal."
  | true, false => "Attempting to run interactively, but stderr is not a terminal (prompts would not be visible)."
  | true, true => "Interactive input is disabled."
  end.

(** ** From the flags *)

Definition is_json_format (f : GlobalFlags) : bool := match f_format f with Some JsonFormat => true | _ => false end.

Definition rich_ui_error (requested : string) (t : TerminalCapabilities) : CliError :=
  CliUsage ("A rich terminal UI (" +:+ requested +:+ ") cannot be shown")
    (Some (mk_error_metadata (Some (input_unavailable_reason t)) None
             (Some ("Omit " +:+ requested +:+ " for plain human output, or use --format=json for scripting.")) Fix_ None None None None)).

Definition resolve_with_terminal (f : GlobalFlags) (t : TerminalCapabilities) : result FrontendContext CliError :=
  let is_json := is_json_format f in
  let ui := default UiAuto (f_ui f) in
  let is_tui := (match ui with UiInline | UiFullscreen => true | _ => false end) && negb is_json in
  let is_fullscreen := (match ui with UiFullscreen => true | _ => false end) && negb is_json in
  if is_tui && negb (allows_interactive_prompts t) then
    Err (rich_ui_error (if is_fullscreen then "--ui=fullscreen" else "--ui=inline") t)
  else
    Ok (mk_context (if is_json then Automation else HumanConsumer)
          (mk_policy (negb is_json && negb (is_no_input f) && allows_interactive_prompts t) (is_tui && negb is_fullscreen) is_fullscreen)
          t ui).

(** Of [--version] and [--help]; [None] stands for the panic of its [expect]. *)
Definition resolve_plain_meta_with_terminal (f : GlobalFlags) (t : TerminalCapabilities) : option FrontendContext :=
  match resolve_with_terminal (set_ui UiPlain f) t with Ok c => Some c | Err _ => None end.

(** ** When the route and the shape are known *)

Definition with_interaction (c : FrontendContext) (i : InteractionPolicy) : FrontendContext := mk_context (consumer c) i (terminal c) (ui_intent c).

Definition is_tui_surface (s : Surface) : bool := match s with SurfaceInline | SurfaceFullscreen => true | _ => false end.

Definition chosen_surface (c : FrontendContext) (route : RouteKind) (shape : Shape) : Surface :=
  let s := match ui_intent c with
           | UiPlain => SurfacePlain
           | UiInline => SurfaceInline
           | UiFullscreen => SurfaceFullscreen
           | UiAuto => base_surface route shape
           end in
  if bool_decide (ui_intent c = UiAuto) && is_tui_surface s && negb (allows_interactive_prompts (terminal c)) then SurfacePlain else s.

Definition finalize_surface (c : FrontendContext) (route : RouteKind) (shape : Shape) : FrontendContext :=
  match consumer c with
  | Automation => c
  | HumanConsumer =>
      let i := interaction c in
      match chosen_surface c route shape with
      | SurfacePlain => with_interaction c (mk_policy (allow_input i) false false)
      | SurfaceInline => with_interaction c (mk_policy (allow_input i) true false)
      | SurfaceFullscreen => with_interaction c (mk_policy (allow_input i) false true)
      | SurfaceJson => c
      end
  end.

(** The label that [finalize_surface] publishes for telemetry. *)
Definition published_label (c : FrontendContext) (route : RouteKind) (shape : Shape) : string :=
  telemetry_label (surface_backend (finalize_surface c route shape)).

(** The reference the tests use. *)
Definition resolve_surface (format : OutputFormat) (ui : UiFlag) (route : RouteKind) (shape : Shape) : Surface :=
  match format with
  | JsonFormat => SurfaceJson
  | Human =>
      match ui with
      | UiPlain => SurfacePlain
      | UiInline => SurfaceInline
      | UiFullscreen => SurfaceFullscreen
      | UiAuto => base_surface route shape
      end
  end.

(** * Confirmation *)

(** What asking did to the terminal. *)
Inductive Asked : Type := Shown (prompt : string) | ReadLine.

Definition confirmation_refused (no_input_message : string) (t : TerminalCapabilities) : CliError :=
  CliUsage no_input_message
    (Some (mk_error_metadata (Some (input_unavailable_reason t)) None (Some "Use --yes to confirm in non-interactive mode") Fix_ None None None None)).

Definition confirm_or_refuse (f : GlobalFlags) (c : FrontendContext) (prompt no_input_message : string) (read : result string CliError)
  : list Asked * result Confirmation CliError :=
  if is_auto_confirmed f then ([], Ok Confirmed)
  else if negb (allows_input c) then ([], Err (confirmation_refused no_input_message (terminal c)))
  else
    ([Shown prompt; ReadLine],
     let? input := read in
     Ok (if String.eqb input "y" || String.eqb input "Y" then Confirmed else Declined)).

(** The line that was read, without the white space around it. *)
Definition read_line_from_stdin (line : result string string) : result string CliError :=
  match line with
  | Ok s => Ok (trim s)
  | Err e => Err (usage ("Failed to read input: " +:+ e))
  end.

(** * Surfaces and confirmations: automation is never asked and never gets a terminal interface,
    a terminal interface needs a terminal, and what is chosen is what the reference says. *)

Definition backend_of (s : Surface) : PhaseBackend :=
  match s with SurfacePlain => PlainTerminal | SurfaceInline => InlineTerminalUi | SurfaceFullscreen => FullscreenTerminalUi | SurfaceJson => StructuredJson end.

Definition is_tui (b : PhaseBackend) : Prop := b = InlineTerminalUi \/ b = FullscreenTerminalUi.

Definition requested_ui (f : GlobalFlags) : UiFlag := default UiAuto (f_ui f).

(** What [resolve_with_terminal] makes of the flags. *)
Lemma resolved f t c : resolve_with_terminal f t = Ok c ->
  consumer c = (if is_json_format f then Automation else HumanConsumer) /\ terminal c = t /\ ui_intent c = requested_ui f /\
  allow_input (interaction c) = negb (is_json_format f) && negb (is_no_input f) && allows_interactive_prompts t /\
  (is_json_format f = false -> requested_ui f = UiInline \/ requested_ui f = UiFullscreen -> allows_interactive_prompts t = true).
Proof.
  unfold resolve_with_terminal. fold (requested_ui f). destruct (_ && negb (allows_interactive_prompts t)) eqn:E; [done|]. intros [= <-]. split_and!; try done.
  intros Hj [Hu|Hu]; rewrite Hj, Hu in E; simpl in E; by destruct (allows_interactive_prompts t).
Qed.

(** It refuses a terminal interface that is asked for by name without a terminal, and
    nothing else; so the context of [--help] and [--version] is always there. *)
Lemma resolve_refuses f t : (exists e, resolve_with_terminal f t = Err e) <->
  is_json_format f = false /\ (requested_ui f = UiInline \/ requested_ui f = UiFullscreen) /\ allows_interactive_prompts t = false.
Proof.
  unfold resolve_with_terminal. fold (requested_ui f).
  destruct (is_json_format f), (requested_ui f), (allows_interactive_prompts t); simpl; (split; [intros [e He]|intros (? & ? & ?)]); naive_solver.
Qed.

Lemma plain_meta_total f t : is_Some (resolve_plain_meta_with_terminal f t).
Proof.
  unfold resolve_plain_meta_with_terminal. destruct (resolve_with_terminal _ t) as [c|e] eqn:E; [by eexists|].
  destruct (resolve_refuses (set_ui UiPlain f) t) as [Hr _]. destruct Hr as (_ & [Hu|Hu] & _); [by exists e|done..].
Qed.

Lemma chosen_cases c route shape : chosen_surface c route shape =
  match ui_intent c with
  | UiPlain => SurfacePlain
  | UiInline => SurfaceInline
  | UiFullscreen => SurfaceFullscreen
  | UiAuto => if is_tui_surface (base_surface route shape) && negb (allows_interactive_prompts (terminal c)) then SurfacePlain else base_surface route shape
  end.
Proof. unfold chosen_surface. by destruct (ui_intent c). Qed.

Lemma base_not_json route shape : base_surface route shape <> SurfaceJson.
Proof. by destruct route, shape. Qed.

(** The surface of every invocation. With [--format=json] it is the structured one, in
    every phase, and nothing may be asked. Otherwise it is the surface that the flags and the
    decision matrix name — as the reference [resolve_surface] says — except that one the
    matrix chose degrades to plain output without a terminal. A terminal interface is used
    only on a terminal, input is allowed only on a terminal and without [--no-input], and the
    surface does not change what may be asked. *)
Theorem surface_safe f t c route shape : resolve_with_terminal f t = Ok c -> let c' := finalize_surface c route shape in
  (is_json_format f = true -> allows_input c' = false /\ forall p, backend_for_phase c' p = StructuredJson) /\
  (is_tui (surface_backend c') -> is_json_format f = false /\ allows_interactive_prompts t = true) /\
  (allows_input c' = true <-> is_json_format f = false /\ is_no_input f = false /\ allows_interactive_prompts t = true) /\
  (surface_backend c' = backend_of (resolve_surface (protocol_output_format c) (requested_ui f) route shape) \/
   requested_ui f = UiAuto /\ allows_interactive_prompts t = false /\ surface_backend c' = PlainTerminal) /\
  published_label c route shape = telemetry_label (surface_backend c').
Proof.
  intros Hr c'. destruct (resolved f t c Hr) as (Hc & Ht & Hu & Hi & Htty).
  assert (Hinput : allows_input c' = allow_input (interaction c)).
  { unfold c', allows_input, finalize_surface. destruct (consumer c); [|done]. by destruct (chosen_surface c route shape). }
  assert (Hjson : is_json_format f = true -> c' = c /\ consumer c = Automation).
  { intros Hj. rewrite Hj in Hc. unfold c', finalize_surface. by rewrite Hc. }
  split; [|split; [|split; [|split; [|done]]]].
  - intros Hj. destruct (Hjson Hj) as [-> Ha]. rewrite Hinput, Hi, Hj. split; [done|]. intros p. unfold backend_for_phase, surface_backend. by rewrite Ha.
  - intros Htui. destruct (is_json_format f) eqn:Hj.
    { destruct (Hjson eq_refl) as [-> Ha]. unfold surface_backend in Htui. rewrite Ha in Htui. by destruct Htui. }
    split; [done|]. destruct (allows_interactive_prompts t) eqn:Ep; [done|exfalso].
    unfold c', surface_backend, finalize_surface in Htui. rewrite chosen_cases, Hc, Hu, Ht, Ep in Htui.
    destruct (requested_ui f) eqn:Er; try (by specialize (Htty eq_refl ltac:(auto))); simpl in Htui; [|by rewrite ?Hc in Htui; destruct Htui].
    destruct (base_surface route shape) eqn:Eb; simpl in Htui; rewrite ?Hc in Htui; try (by destruct Htui). by apply base_not_json in Eb.
  - rewrite Hinput, Hi, !andb_true_iff, !negb_true_iff. tauto.
  - unfold protocol_output_format. destruct (is_json_format f) eqn:Hj.
    { destruct (Hjson eq_refl) as [-> Ha]. left. unfold surface_backend. by rewrite Ha. }
    unfold c', surface_backend, finalize_surface. rewrite chosen_cases, Hc, Hu, Ht.
    destruct (requested_ui f); simpl; try (by left; rewrite ?Hc).
    destruct (base_surface route shape) eqn:Eb; simpl; try (by left; rewrite ?Hc); [| |by apply base_not_json in Eb];
      (destruct (allows_interactive_prompts t); simpl; [left|right]; by rewrite ?Hc).
Qed.

(** An action is confirmed by [--yes] or by the answer [y], and by nothing else; the
    terminal is written to and read only when input is allowed and [--yes] is not given, and
    without both the action is refused with an error. *)
Theorem confirmed_only_by_user f c prompt no_input read : let '(asked, r) := confirm_or_refuse f c prompt no_input read in
  (r = Ok Confirmed <-> is_auto_confirmed f = true \/ allows_input c = true /\ (read = Ok "y" \/ read = Ok "Y")) /\
  (asked <> [] <-> is_auto_confirmed f = false /\ allows_input c = true) /\
  (is_auto_confirmed f = false -> allows_input c = false -> r = Err (confirmation_refused no_input (terminal c))).
Proof.
  unfold confirm_or_refuse. destruct (is_auto_confirmed f); [by split_and!; naive_solver|]. destruct (allows_input c); simpl; [|by split_and!; naive_solver].
  split_and!; [|naive_solver|done]. destruct read as [s|e]; simpl; [|naive_solver].
  destruct (String.eqb_spec s "y") as [->|]; [simpl; naive_solver|]. destruct (String.eqb_spec s "Y") as [->|]; simpl; naive_solver.
Qed.

(** A pipe behind an automatic surface: the workflow degrades to plain output, where the
    reference says fullscreen. *)
Definition piped : TerminalCapabilities := mk_terminal false true true false.

Lemma surface_safe_witness : exists c, resolve_with_terminal default_flags piped = Ok c /\
  surface_backend (finalize_surface c RouteWorkflow ShapeMulti) = PlainTerminal /\
  (is_tui (surface_backend (finalize_surface c RouteWorkflow ShapeMulti)) -> is_json_format default_flags = false /\ allows_interactive_prompts piped = true).
Proof.
  exists (mk_context HumanConsumer (mk_policy false false false) piped UiAuto). split; [reflexivity|]. split; [reflexivity|].
  exact (proj1 (proj2 (surface_safe default_flags piped _ RouteWorkflow ShapeMulti eq_refl))).
Defined.

Example reference_ignores_terminal : resolve_surface Human UiAuto RouteWorkflow ShapeMulti = SurfaceFullscreen.
Proof. done. Qed.
