(* ===== verification/Execution.v ===== *)
(** The context a command runs in ([runtime/execution.rs]): the profile, the base URL, the
    token and the namespace, each with its source, and the earlier lookup of the namespace
    for the arguments of a service command. *)

From stdpp Require Import base gmap strings list.
From Stdlib Require Import ZArith Lia Ascii Strings.Byte.
From S2P Require Import Prelude Text Kebab Nouns Json Catalogue Sanitise Results Workflow Request Url Http Pagination Dispatch Tokens Vault Config AuthSession AuthProps.

Record ResolutionInput : Type := mk_resolution_input { ri_profile : option string; ri_namespace : option string; ri_dry_run : bool }.

Definition is_some {A} (o : option A) : bool := match o with Some _ => true | None => false end.

Definition url_source (s : CredentialSource) : BaseUrlSource :=
  match s with FromEnv => UrlEnvironment | FromConfiguration => UrlConfiguration | FromKeystore => UrlKeystore end.

Definition token_source (s : TokenSource) : AccessTokenSource :=
  match s with SourceEnvironment => TokenEnvironment | SourceStored => TokenStored | SourceRefreshed => TokenRefreshed | SourceClientCredentials => TokenClientCredentials end.

Section execution.
Context `{JsonText, UrlParse}.
Variable json_error : string -> string.

(** The base URL and the token of a profile: placeholders for a dry run. *)
Definition resolve_auth (profile : string) (is_dry_run : bool) :
    prog (string * BaseUrlSource * string * AccessTokenSource * option string * list string) :=
  url ← resolve_base_url;
  if is_dry_run then
    let '(u, s) := match url with Some (u, s) => (u, url_source s) | None => ("https://<base-url>", UrlDefault) end in
    mret (u, s, "dry-run-token", TokenDryRun, None, [])
  else
    found ← lift (ok_or url (auth_error BaseUrlMissing));
    resolution ← resolve_access_token json_error profile;
    mret (found.1, url_source found.2, token resolution, token_source (source resolution),
          option_map format_duration (expires_in_secs resolution), warnings resolution).

Definition resolve_context_namespace (flag : option string) : prog (option string * option NamespaceSource) :=
  match flag with
  | Some n => mret (Some n, Some NamespaceFlag)
  | None =>
      e ← op (GetEnv ENV_NAMESPACE);
      match (e : option string) with
      | Some n => mret (Some n, Some NamespaceEnvironment)
      | None =>
          c ← op LoadConfig;
          mret (match c with
                | Ok c => match c_namespace c with Some n => (Some n, Some NamespaceConfiguration) | None => (None, None) end
                | Err _ => (None, None)
                end)
      end
  end.

(** [ExecutionContext::resolve], of a profile that has been resolved. *)
Definition resolve_context (input : ResolutionInput) (profile : string) (profile_source : ProfileSource) : prog ExecutionContext :=
  '(url, url_src, tok, tok_src, expiry, warns) ← resolve_auth profile (ri_dry_run input);
  '(ns, ns_src) ← resolve_context_namespace (ri_namespace input);
  mret (mk_execution_context profile profile_source ns ns_src url url_src tok tok_src expiry warns).
End execution.

Section profiles.
Context `{JsonText, !JsonPretty, Environment, Vault, UnicodeCase}.
Variable json_error : string -> string.

(** The first part: which profile, and why. *)
Definition resolve_profile (input : ResolutionInput) : Store (string * ProfileSource) :=
  profile ← resolve_profile_name json_error (ri_profile input);
  mret (profile, if is_some (ri_profile input) then ProfileFlag else if is_env_var_set ENV_PROFILE then ProfileEnvironment else Dispatch.GlobalConfig).

(** Failures are no namespace. *)
Definition resolve_namespace (namespace_flag profile_flag : option string) : Store (option (string * NamespaceSource)) := fun v =>
  match namespace_flag with
  | Some n => (Ok (Some (n, NamespaceFlag)), v)
  | None =>
      match env_var ENV_NAMESPACE with
      | Some n => (Ok (Some (n, NamespaceEnvironment)), v)
      | None =>
          match resolve_profile_name json_error profile_flag v with
          | (Err _, v) => (Ok None, v)
          | (Ok profile, v) =>
              match profile_load json_error profile v with
              | (Err _, v) => (Ok None, v)
              | (Ok c, v) => (Ok (option_map (fun n => (n, NamespaceConfiguration)) (c_namespace c)), v)
              end
          end
      end
  end.
End profiles.

(** * Theorems *)

Section theorems.
Context `{JsonText, UrlParse}.
Variable json_error : string -> string.

(** A command that only looks something up on the machine. *)
Definition looks_up (c : cmd) : bool := match c with GetEnv _ | LoadConfig => true | _ => false end.
Definition local_event (e : event) : Prop := looks_up (projT1 e) = true.

Lemma setting_local name field tr r : runs (resolve_setting name field) tr r -> Forall local_event tr /\ exists x, r = Ok x.
Proof.
  intros (a & tr1 & -> & Hr)%runs_op. destruct a as [v|].
  - destruct Hr as [-> ->]. split; [by repeat constructor|by eexists].
  - apply runs_op in Hr as (c & tr2 & -> & Hr). destruct Hr as [-> ->]. split; [by repeat constructor|by eexists].
Qed.

Lemma namespace_local flag tr r : runs (resolve_context_namespace flag) tr r -> Forall local_event tr /\ exists x, r = Ok x.
Proof.
  destruct flag as [n|].
  - intros [-> ->]. split; [constructor|by eexists].
  - intros (a & tr1 & -> & Hr)%runs_op. destruct a as [v|].
    + destruct Hr as [-> ->]. split; [by repeat constructor|by eexists].
    + apply runs_op in Hr as (c & tr2 & -> & Hr). destruct Hr as [-> ->]. split; [by repeat constructor|by eexists].
Qed.

(** The context of a dry run is resolved offline, and always: only environment variables
    and the configuration of the profile are read, the token is the placeholder, and a base
    URL that is not configured is no error. *)
Theorem dry_run_offline input profile src tr r : ri_dry_run input = true ->
  runs (resolve_context json_error input profile src) tr r ->
  Forall local_event tr /\
  exists ctx, r = Ok ctx /\ Dispatch.access_token ctx = "dry-run-token" /\ access_token_source ctx = TokenDryRun /\ Dispatch.profile ctx = profile.
Proof.
  intros Hd Hr. unfold resolve_context, resolve_auth in Hr. rewrite Hd in Hr.
  apply runs_bind in Hr as [(e & Hr & ->)|(auth & tr1 & tr2 & -> & Ha & Hr)].
  { apply runs_bind in Hr as [(e' & Hs & _)|(url & ? & ? & -> & _ & Hr)]; [by apply setting_local in Hs as [_ [x ?]]|].
    destruct url as [[u s]|]; by destruct Hr. }
  apply runs_bind_ok in Ha as (url & tr3 & tr4 & -> & Hs & Ha). apply setting_local in Hs as [Hl _].
  assert (tr4 = [] /\ exists u s, auth = (u, s, "dry-run-token", TokenDryRun, None, [])) as [-> (u & s & ->)].
  { destruct url as [[u s]|]; destruct Ha as [-> [= ->]]; eauto. }
  apply runs_bind in Hr as [(e & Hn & ->)|(ns & tr5 & tr6 & -> & Hn & Hr)].
  { by apply namespace_local in Hn as [_ [x ?]]. }
  apply namespace_local in Hn as [Hl' _]. destruct ns as [n ns_src]. destruct Hr as [-> ->].
  rewrite !app_nil_r. split; [by apply Forall_app|]. eexists. done.
Qed.
End theorems.

Section agreement.
Context `{JsonText, !JsonPretty, UrlParse, Environment, Vault, UnicodeCase}.
Variable json_error : string -> string.

(** The machine answers as it is. *)
Definition answered (profile : string) (v : Vt) (e : event) : Prop :=
  match e with
  | existT (GetEnv n) a => a = env_var n
  | existT LoadConfig a => a = (profile_load json_error profile v).1
  | _ => True
  end.

(** The two ways to the namespace agree: what the arguments of a service command are
    completed with is the namespace of the context the command then runs in, from the same
    source, as long as the environment and the configuration stay. *)
Theorem namespaces_agree input profile src v v' tr ctx : resolve_profile_name json_error (ri_profile input) v = (Ok profile, v') ->
  Forall (answered profile v') tr -> runs (resolve_context json_error input profile src) tr (Ok ctx) ->
  (resolve_namespace json_error (ri_namespace input) (ri_profile input) v).1 =
    Ok (n ← namespace ctx; s ← namespace_source ctx; Some (n, s)).
Proof.
  intros Hp Ha Hr. unfold resolve_context in Hr.
  apply runs_bind_ok in Hr as ([[[[[u us] t] ts] ex] ws] & tr1 & tr2 & -> & _ & Hr).
  apply runs_bind_ok in Hr as ([n s] & tr3 & tr4 & -> & Hn & Hr). destruct Hr as [-> [= ->]]. simpl.
  apply Forall_app in Ha as [_ Ha]. apply Forall_app in Ha as [Ha _]. unfold resolve_namespace, resolve_context_namespace in *.
  destruct (ri_namespace input) as [flag|].
  { destruct Hn as [_ [= -> ->]]. done. }
  apply runs_op in Hn as (a & tr5 & -> & Hn). apply Forall_cons in Ha as [He Ha]. simpl in He. subst a.
  destruct (env_var ENV_NAMESPACE) as [e|].
  { destruct Hn as [_ [= -> ->]]. done. }
  apply runs_op in Hn as (c & tr6 & -> & Hn). apply Forall_cons in Ha as [Hc _]. simpl in Hc. rewrite Hp.
  destruct (profile_load json_error profile v') as [c' v'']. simpl in Hc. subst c'. destruct Hn as [_ Hn].
  destruct c as [c|e]; [|by injection Hn as -> ->]. destruct (c_namespace c) as [x|]; by injection Hn as -> ->.
Qed.
End agreement.

(** * Examples *)

Section example.
#[local] Instance execution_json : JsonText := bits_json_text.
#[local] Instance execution_pretty : JsonPretty := bits_json_pretty.
#[local] Instance execution_case : UnicodeCase := ascii_case.
#[local] Instance execution_url : UrlParse := {| url_parse s := Some s |}.
#[local] Instance execution_vault : Vault := disk_vault Healthy.
#[local] Instance execution_env : Environment := {|
  env_var name := if String.eqb name ENV_HOME then Some "/ags" else if String.eqb name ENV_BASE_URL then Some "https://x" else None;
  dirs_config_dir := None; dirs_home_dir := None; dirs_cache_dir := None; app_path := "ags" |}.

Definition game_config : ProfileConfig := mk_profile_config None None (Some "game") None.
Definition game_disk : Disk :=
  mk_disk ∅ {["/ags/profiles/dev/config.json" := of_bytes (to_vec (profile_to_json game_config))]} {["/ags/profiles"; "/ags/profiles/dev"]}.

Definition dev_input : ResolutionInput := mk_resolution_input (Some "dev") None true.

Definition dry_events : list event :=
  [ev (GetEnv ENV_BASE_URL) (Some "https://x"); ev (GetEnv ENV_NAMESPACE) None; ev LoadConfig (Ok game_config)].

Definition dry_context : ExecutionContext :=
  mk_execution_context "dev" ProfileFlag (Some "game") (Some NamespaceConfiguration) "https://x" UrlEnvironment "dry-run-token" TokenDryRun None [].

Lemma dry_events_run : runs (resolve_context (fun s => s) dev_input "dev" ProfileFlag) dry_events (Ok dry_context).
Proof. exists (Some "https://x"), (tail dry_events). split; [done|]. exists None, [ev LoadConfig (Ok game_config)]. split; [done|]. by exists (Ok game_config), []. Qed.

Lemma dry_run_offline_witness : Forall local_event dry_events /\
  exists ctx, Ok (E := RuntimeError) dry_context = Ok ctx /\ Dispatch.access_token ctx = "dry-run-token" /\ access_token_source ctx = TokenDryRun /\ Dispatch.profile ctx = "dev".
Proof. exact (dry_run_offline (fun s => s) dev_input "dev" ProfileFlag dry_events (Ok dry_context) eq_refl dry_events_run). Defined.

Lemma namespaces_agree_witness :
  (resolve_namespace (fun s => s) (ri_namespace dev_input) (ri_profile dev_input) game_disk).1 = Ok (Some ("game", NamespaceConfiguration)).
Proof.
  refine (namespaces_agree (fun s => s) dev_input "dev" ProfileFlag game_disk game_disk dry_events dry_context _ _ dry_events_run).
  - by vm_compute.
  - repeat constructor; by vm_compute.
Defined.
End example.

(** An environment variable that is set but empty is a namespace: the empty one, although
    the configuration has another. *)
Section empty_namespace.
#[local] Instance empty_json : JsonText := bits_json_text.
#[local] Instance empty_pretty : JsonPretty := bits_json_pretty.
#[local] Instance empty_case : UnicodeCase := ascii_case.
#[local] Instance empty_vault : Vault := disk_vault Healthy.
#[local] Instance empty_env : Environment := {|
  env_var name := if String.eqb name ENV_HOME then Some "/ags" else if String.eqb name ENV_NAMESPACE then Some EmptyString else None;
  dirs_config_dir := None; dirs_home_dir := None; dirs_cache_dir := None; app_path := "ags" |}.

Example empty_variable_is_namespace :
  resolve_namespace (fun s => s) None (Some "dev") game_disk = (Ok (Some (EmptyString, NamespaceEnvironment)), game_disk) /\
  resolve_key (fun s => s) "dev" (mk_key "namespace" "namespace" ProfileScope) game_disk = (Ok (Some "game", FromProfile "dev"), game_disk).
Proof. by vm_compute. Qed.
End empty_namespace.
