(* ===== verification/Synthesised.v ===== *)
(** The one-step workflow of a single command ([workflows/synthesised.rs]): one input per
    field of the operation, a parameter and a body field of the same name sharing theirs. *)

From stdpp Require Import base gmap strings list.
From Stdlib Require Import ZArith Lia Ascii.
From S2P Require Import Prelude Text Kebab Json Catalogue Paths Results Workflow AutoDerive Bindings Request Dispatch Compile CompileProps.

Definition SYNTHESISED_ID_PREFIX : string := "synth(".

(** Unlike [parameter_schema], an array's items are not described. *)
Definition parameter_schema_value (p : ParameterSchema) : value :=
  match value_type p with
  | VString => typed "string"
  | VInteger => typed "integer"
  | VNumber => typed "number"
  | VBoolean => typed "boolean"
  | VArray _ => typed "array"
  | VEnum values => enum_of values
  end.

Definition param_location_to_field_location (l : ParameterLocation) : StepFieldLocation :=
  match l with InPath => LPath | InQuery => LQuery | InHeader => LHeader | InFormData => LFormData | InBody => LBody end.

Definition qualified_name (service operation : string) : string := service +:+ "." +:+ operation.

Definition operation_not_found (service operation : string) : RuntimeError :=
  internal ("cannot synthesise workflow: operation '" +:+ qualified_name service operation +:+ "' not found").

Definition parameter_collision_error (service operation field : string) : RuntimeError :=
  internal ("cannot synthesise single-command workflow for " +:+ qualified_name service operation +:+ ": two parameters share the name '" +:+ field +:+ "'").

Definition parameter_input (p : ParameterSchema) : WorkflowInputSpec :=
  mk_input (param_name p) (param_description p) (Some (parameter_schema_value p)) (param_required p) (param_default p) false None None
    (param_location_to_field_location (param_location p)).

Definition body_input (op : OperationSchema) (f : BodyField) : WorkflowInputSpec :=
  mk_input (field_name f) (field_description f) (Some (default (typed "string") (operation_field_schema op (field_name f)))) (field_required f)
    (field_default f) false None None LBody.

(** The shared input of a parameter and the body field [f]. *)
Definition couple (f : BodyField) (i : WorkflowInputSpec) : WorkflowInputSpec :=
  mk_input (in_name i) (match in_description i with Some d => Some d | None => field_description f end) (in_schema i) (in_required i || field_required f)
    (match in_default i with Some d => Some d | None => field_default f end) (in_sensitive i) (in_options i) (in_file_picker i) (in_location i).

(** The inputs so far, and the position of each name. *)
Notation Inputs := (list WorkflowInputSpec * gmap string nat)%type.

Definition push_input (i : WorkflowInputSpec) (st : Inputs) : Inputs := (st.1 ++ [i], <[in_name i := length st.1]> st.2).

Definition add_parameter_input (service operation : string) (st : Inputs) (p : ParameterSchema) : result Inputs RuntimeError :=
  if bool_decide (param_location p = InBody) then Ok st
  else match st.2 !! param_name p with
       | Some _ => Err (parameter_collision_error service operation (param_name p))
       | None => Ok (push_input (parameter_input p) st)
       end.

Definition add_body_input (op : OperationSchema) (st : Inputs) (f : BodyField) : Inputs :=
  match st.2 !! field_name f with
  | Some i => (alter (couple f) i st.1, st.2)
  | None => push_input (body_input op f) st
  end.

Definition synthesised_step (service operation_id : string) (op : OperationSchema) : StepDefinition :=
  mk_step_definition "main" None Api None (Some (mk_op_ref service operation_id)) []
    (requires_confirmation (http_method op) (op_name op)) false false false None [] [].

Definition synthesised_definition (service operation_id : string) (op : OperationSchema) (inputs : list WorkflowInputSpec) : WorkflowDefinition :=
  mk_definition (SYNTHESISED_ID_PREFIX +:+ qualified_name service operation_id +:+ ")") (service +:+ " " +:+ operation_id) None None None None inputs true
    [synthesised_step service operation_id op] [] None.

Definition synthesise_workflow_definition (service operation_id : string) (schema : ServiceSchema) : result WorkflowDefinition RuntimeError :=
  let? op := ok_or (find_operation schema operation_id) (operation_not_found service operation_id) in
  let? inputs := result_fold (add_parameter_input service operation_id) (parameters op) ([], ∅) in
  let inputs := foldl (add_body_input op) inputs (request_fields op) in
  Ok (synthesised_definition service operation_id op inputs.1).

(** * The inputs *)

Definition non_body (op : OperationSchema) : list ParameterSchema := List.filter (fun p => negb (bool_decide (param_location p = InBody))) (parameters op).

(** The table gives the position of every name. *)
Definition indexed (st : Inputs) : Prop := forall n i, st.2 !! n = Some i <-> exists spec, st.1 !! i = Some spec /\ in_name spec = n.

Lemma indexed_empty : indexed ([], ∅).
Proof. intros n i. simpl. rewrite lookup_empty, lookup_nil. split; [done|by intros (? & ? & _)]. Qed.

Lemma indexed_names st n : indexed st -> st.2 !! n = None <-> n ∉ map in_name st.1.
Proof.
  intros Hi. rewrite list_elem_of_fmap. split.
  - intros Hn (spec & -> & [i Hs]%list_elem_of_lookup). assert (st.2 !! in_name spec = Some i) by (apply Hi; eauto). congruence.
  - intros Hn. destruct (st.2 !! n) as [i|] eqn:E; [|done]. apply Hi in E as (spec & Hs & <-). destruct Hn. exists spec. split; [done|]. by eapply list_elem_of_lookup_2.
Qed.

Lemma indexed_push st spec : indexed st -> st.2 !! in_name spec = None -> indexed (push_input spec st).
Proof.
  intros Hi Hn n i. simpl. destruct (decide (n = in_name spec)) as [->|Hne].
  - rewrite lookup_insert_eq. split.
    + intros [= <-]. exists spec. by rewrite lookup_app_r, Nat.sub_diag by lia.
    + intros (other & Hs & Ho). apply lookup_app_Some in Hs as [Hs|[Hge Hs]].
      * assert (st.2 !! in_name spec = Some i) by (apply Hi; eauto). congruence.
      * apply list_lookup_singleton_Some in Hs as [H0 _]. f_equal. lia.
  - rewrite lookup_insert_ne by done. rewrite (Hi n i). split; intros (other & Hs & Ho); exists other.
    + split; [by apply lookup_app_l_Some|done].
    + split; [|done]. apply lookup_app_Some in Hs as [Hs|[_ Hs]]; [done|]. apply list_lookup_singleton_Some in Hs as [_ <-]. done.
Qed.

Lemma indexed_couple st f i : indexed st -> indexed (alter (couple f) i st.1, st.2).
Proof.
  intros Hi n j. simpl. rewrite (Hi n j). destruct (decide (i = j)) as [->|Hne].
  - rewrite list_lookup_alter_eq. destruct (st.1 !! j) as [s|]; simpl; [|by split; intros (? & ? & _)].
    split; intros (s' & [= <-] & <-); eexists; (split; [reflexivity|done]).
  - by rewrite list_lookup_alter_ne.
Qed.

Lemma indexed_NoDup st : indexed st -> NoDup (map in_name st.1).
Proof.
  intros Hi. apply NoDup_alt. intros i j n. change (map in_name st.1) with (in_name <$> st.1). rewrite !list_lookup_fmap, !fmap_Some.
  intros (x & Hx & ->) (y & Hy & He).
  assert (st.2 !! in_name x = Some i) by (apply Hi; eauto). assert (st.2 !! in_name x = Some j) by (apply Hi; eauto). congruence.
Qed.

(** * Synthesised workflows compile: one input per field of the operation, one step without
    bindings that reads each required field from the input of its name. *)

(** * The inputs of an operation *)

Definition find_input (n : string) (inputs : list WorkflowInputSpec) : option WorkflowInputSpec := List.find (fun i => String.eqb (in_name i) n) inputs.

(** The input of a name: of the parameter of this name, or else of the first body field,
    coupled with the (other) body fields. *)
Definition add_field (op : OperationSchema) (n : string) (o : option WorkflowInputSpec) (f : BodyField) : option WorkflowInputSpec :=
  if String.eqb (field_name f) n then Some (match o with Some i => couple f i | None => body_input op f end) else o.

Definition input_of (op : OperationSchema) (n : string) : option WorkflowInputSpec :=
  foldl (add_field op n) (option_map parameter_input (List.find (fun p => String.eqb (param_name p) n) (non_body op))) (request_fields op).

Lemma find_input_app n l1 l2 : find_input n (l1 ++ l2) = match find_input n l1 with Some i => Some i | None => find_input n l2 end.
Proof. unfold find_input. induction l1 as [|i l1 IH]; simpl; [done|]. by destruct (String.eqb (in_name i) n). Qed.

Lemma find_input_name n l i : find_input n l = Some i -> in_name i = n /\ i ∈ l.
Proof. intros [Hi%list_elem_of_In Hn%String.eqb_eq]%List.find_some. done. Qed.

Lemma find_input_None n l : find_input n l = None <-> n ∉ map in_name l.
Proof.
  unfold find_input. induction l as [|i l IH]; simpl; [split; [by intros _ ?%not_elem_of_nil|done]|].
  destruct (String.eqb_spec (in_name i) n) as [<-|Hne]; [split; [done|by intros []; constructor]|]. rewrite IH, not_elem_of_cons. naive_solver.
Qed.

(** The table leads to the input that is found by name. *)
Lemma indexed_find st n : indexed st -> find_input n st.1 = i ← st.2 !! n; st.1 !! i.
Proof.
  intros Hi. destruct (st.2 !! n) as [i|] eqn:E; simpl; [|by apply find_input_None, indexed_names].
  apply Hi in E as (spec & Hs & Hn). rewrite Hs. destruct (find_input n st.1) as [other|] eqn:Ef.
  - apply find_input_name in Ef as [Hn' [j Hj]%list_elem_of_lookup].
    assert (st.2 !! n = Some j) by (apply Hi; eauto). assert (st.2 !! n = Some i) by (apply Hi; eauto). congruence.
  - apply find_input_None in Ef. destruct Ef. apply list_elem_of_fmap. exists spec. split; [done|]. by eapply list_elem_of_lookup_2.
Qed.

Lemma body_step op st f : indexed st -> indexed (add_body_input op st f) /\
  forall n, find_input n (add_body_input op st f).1 = add_field op n (find_input n st.1) f.
Proof.
  intros Hi. unfold add_body_input, add_field. destruct (st.2 !! field_name f) as [i|] eqn:E.
  - split; [by apply indexed_couple|]. intros n. rewrite (indexed_find _ n (indexed_couple _ f i Hi)), (indexed_find _ n Hi). simpl.
    destruct (String.eqb_spec (field_name f) n) as [<-|Hne].
    + rewrite E. simpl. rewrite list_lookup_alter_eq. apply Hi in E as (s & -> & _). done.
    + destruct (st.2 !! n) as [j|] eqn:Ej; [|done]. simpl. rewrite list_lookup_alter_ne; [done|].
      intros ->. apply Hi in E as (s & Hs & He). apply Hi in Ej as (s' & Hs' & He'). congruence.
  - split; [by apply indexed_push|]. intros n. simpl. rewrite find_input_app. unfold find_input at 2. simpl.
    destruct (String.eqb_spec (field_name f) n) as [<-|Hne]; [|by destruct (find_input n st.1)].
    by rewrite (proj2 (find_input_None _ _) (proj1 (indexed_names _ _ Hi) E)).
Qed.

Lemma body_fold op fs st : indexed st -> indexed (foldl (add_body_input op) st fs) /\
  forall n, find_input n (foldl (add_body_input op) st fs).1 = foldl (add_field op n) (find_input n st.1) fs.
Proof.
  revert st. induction fs as [|f fs IH]; intros st Hi; [done|]. simpl. destruct (body_step op st f Hi) as [Hi' Hf].
  destruct (IH _ Hi') as [Hi'' Hf']. split; [done|]. intros n. by rewrite Hf', Hf.
Qed.

Lemma parameter_fold service id ps st : indexed st -> let non_bodies := List.filter (fun p => negb (bool_decide (param_location p = InBody))) ps in
  match result_fold (add_parameter_input service id) ps st with
  | Ok st' => indexed st' /\ st'.1 = st.1 ++ map parameter_input non_bodies
  | Err e => exists n, e = parameter_collision_error service id n /\ ~ (NoDup (map param_name non_bodies) /\ forall p, p ∈ non_bodies -> st.2 !! param_name p = None)
  end.
Proof.
  cbv zeta. revert st. induction ps as [|p ps IH]; intros st Hi; simpl; [by rewrite app_nil_r|].
  unfold add_parameter_input at 1. destruct (bool_decide (param_location p = InBody)); simpl; [by apply IH|].
  destruct (st.2 !! param_name p) as [i|] eqn:E.
  { exists (param_name p). split; [done|]. intros [_ Hn]. specialize (Hn p (list_elem_of_here _ _)). congruence. }
  specialize (IH (push_input (parameter_input p) st) (indexed_push _ (parameter_input p) Hi E)). destruct (result_fold _ _ _) as [st'|e].
  - destruct IH as [Hi' ->]. split; [done|]. simpl. by rewrite <- app_assoc.
  - destruct IH as (n & -> & Hno). exists n. split; [done|]. intros [[Hp Hnd]%NoDup_cons Hn]. apply Hno. split; [done|]. intros q Hq. simpl.
    rewrite lookup_insert_ne; [apply Hn; by constructor|]. intros He. apply Hp. rewrite He. by apply (list_elem_of_fmap_2 param_name).
Qed.

Lemma find_parameter n ps : find_input n (map parameter_input ps) = option_map parameter_input (List.find (fun p => String.eqb (param_name p) n) ps).
Proof. unfold find_input. induction ps as [|p ps IH]; simpl; [done|]. by destruct (String.eqb (param_name p) n). Qed.

(** Synthesis fails on an unknown operation, or when two parameters share a name; otherwise
    there is one input per name, the one [input_of] says. *)
Lemma synthesise_spec service id schema op : find_operation schema id = Some op ->
  (NoDup (map param_name (non_body op)) -> exists inputs,
     synthesise_workflow_definition service id schema = Ok (synthesised_definition service id op inputs) /\
     NoDup (map in_name inputs) /\ forall n, find_input n inputs = input_of op n) /\
  (~ NoDup (map param_name (non_body op)) -> exists n, synthesise_workflow_definition service id schema = Err (parameter_collision_error service id n)).
Proof.
  intros Hf. unfold synthesise_workflow_definition. rewrite Hf. simpl.
  pose proof (parameter_fold service id (parameters op) ([], ∅) indexed_empty) as Hp. cbv zeta in Hp.
  destruct (result_fold _ _ _) as [st|e]; simpl in *.
  - destruct Hp as [Hi Hs]. destruct (body_fold op (request_fields op) st Hi) as [Hi' Hb]. split.
    + intros _. eexists. split; [reflexivity|]. split; [by apply indexed_NoDup|]. intros n. rewrite Hb, Hs. unfold input_of. f_equal. apply find_parameter.
    + intros []. pose proof (indexed_NoDup _ Hi) as Hnd. rewrite Hs, map_map in Hnd. exact Hnd.
  - destruct Hp as (n & -> & Hno). split; [|by exists n]. intros Hnd. destruct Hno. split; [exact Hnd|]. intros p _. apply lookup_empty.
Qed.

(** * Compilation *)

(** What a synthesised input has not, and has. *)
Record plain (i : WorkflowInputSpec) : Prop := {
  plain_schema : is_Some (in_schema i);
  plain_sensitive : in_sensitive i = false;
  plain_options : in_options i = None;
  plain_picker : in_file_picker i = None
}.

Lemma plain_couple f i : plain i -> plain (couple f i).
Proof. by intros []; split. Qed.

Lemma input_of_plain op n i : input_of op n = Some i -> plain i /\ in_name i = n.
Proof.
  unfold input_of. assert (H0 : forall i, option_map parameter_input (List.find (fun p => String.eqb (param_name p) n) (non_body op)) = Some i -> plain i /\ in_name i = n).
  { intros j. destruct (List.find _ _) as [p|] eqn:E; [|done]. intros [= <-]. apply List.find_some in E as [_ E%String.eqb_eq]. split; [by split|done]. }
  revert H0. generalize (option_map parameter_input (List.find (fun p => String.eqb (param_name p) n) (non_body op))).
  induction (request_fields op) as [|f fs IH]; intros o H0; simpl; [apply H0|]. apply IH. intros j. unfold add_field.
  destruct (String.eqb_spec (field_name f) n) as [<-|]; [|apply H0]. destruct o as [i'|]; intros [= <-]; [|by split; [split|]].
  destruct (H0 i' eq_refl). split; [by apply plain_couple|done].
Qed.

Lemma find_input_in l i : NoDup (map in_name l) -> i ∈ l -> find_input (in_name i) l = Some i.
Proof.
  intros Hnd Hi. destruct (find_input (in_name i) l) as [j|] eqn:E.
  - apply find_input_name in E as [Hn Hj]. f_equal. apply list_elem_of_lookup in Hi as [a Ha], Hj as [b Hb].
    assert (b = a); [|congruence]. eapply (NoDup_lookup (map in_name l)); [done| |]; rewrite list_lookup_fmap, fmap_Some; eauto.
  - apply find_input_None in E. destruct E. by apply (list_elem_of_fmap_2 in_name).
Qed.

Lemma result_map_id {A E} (f : A -> result A E) l : (forall x, x ∈ l -> f x = Ok x) -> result_map f l = Ok l.
Proof. induction l as [|x l IH]; intros Hf; simpl; [done|]. rewrite Hf by constructor. rewrite IH; [done|]. intros y Hy. apply Hf. by constructor. Qed.

(** A required field has an input. *)
Lemma add_field_some op n o f : is_Some o -> is_Some (add_field op n o f).
Proof. intros [i ->]. unfold add_field. by destruct (String.eqb (field_name f) n). Qed.

Lemma fold_field_some op n fs o : is_Some o -> is_Some (foldl (add_field op n) o fs).
Proof. revert o. induction fs as [|f fs IH]; intros o Ho; simpl; [done|]. by apply IH, add_field_some. Qed.

Lemma field_has_input op f : f ∈ request_fields op -> is_Some (input_of op (field_name f)).
Proof.
  unfold input_of. intros Hf. generalize (option_map parameter_input (List.find (fun p => String.eqb (param_name p) (field_name f)) (non_body op))).
  induction (request_fields op) as [|g fs IH]; [by apply not_elem_of_nil in Hf|]. intros o. simpl. apply elem_of_cons in Hf as [<-|Hf]; [|by apply IH].
  apply fold_field_some. unfold add_field. by rewrite String.eqb_refl.
Qed.

Lemma parameter_has_input op p : p ∈ non_body op -> is_Some (input_of op (param_name p)).
Proof.
  intros Hp. apply fold_field_some. destruct (List.find _ _) eqn:E; [done|]. apply list_elem_of_In in Hp.
  pose proof (List.find_none _ _ E _ Hp) as Hn. simpl in Hn. by rewrite String.eqb_refl in Hn.
Qed.

Lemma required_has_input op n : n ∈ required_names op -> is_Some (input_of op n).
Proof.
  unfold required_names, required_parameters, required_body_fields. rewrite elem_of_app, !list_elem_of_fmap. intros [(p & -> & Hp)|(f & -> & Hf)].
  - apply list_elem_of_In, List.filter_In in Hp as [Hp [_ Hl]%andb_true_iff]. apply parameter_has_input. by apply list_elem_of_In, List.filter_In.
  - apply field_has_input. unfold request_fields. destruct (request_body op); [|by apply not_elem_of_nil in Hf].
    by apply list_elem_of_In, List.filter_In in Hf as [Hf%list_elem_of_In _].
Qed.

(** Coupling keeps the schema of the parameter, and what is required stays so. *)
Lemma fold_field_keeps op n fs i : exists i', foldl (add_field op n) (Some i) fs = Some i' /\ in_schema i' = in_schema i /\
  (in_required i = true -> in_required i' = true) /\ (forall f, f ∈ fs -> field_name f = n -> field_required f = true -> in_required i' = true).
Proof.
  revert i. induction fs as [|f fs IH]; intros i; simpl; [exists i; split; [done|]; split; [done|]; split; [done|]; by intros f ?%not_elem_of_nil|].
  unfold add_field at 2. destruct (String.eqb_spec (field_name f) n) as [He|Hne].
  - destruct (IH (couple f i)) as (i' & -> & Hs & Hr & Hf). exists i'. split; [done|]. split; [done|]. split.
    + intros Hi. apply Hr. simpl. by rewrite Hi.
    + intros g [->|Hg]%elem_of_cons Hn Hq; [|by eapply Hf]. apply Hr. simpl. rewrite Hq. apply orb_true_r.
  - destruct (IH i) as (i' & -> & Hs & Hr & Hf). exists i'. split; [done|]. split; [done|]. split; [done|].
    intros g [->|Hg]%elem_of_cons Hn Hq; [done|]. by eapply Hf.
Qed.

Lemma input_of_parameter op p : NoDup (map param_name (non_body op)) -> p ∈ non_body op ->
  exists i, input_of op (param_name p) = Some i /\ in_schema i = Some (parameter_schema_value p) /\ (param_required p = true -> in_required i = true).
Proof.
  intros Hnd Hp. unfold input_of.
  assert (List.find (fun q => String.eqb (param_name q) (param_name p)) (non_body op) = Some p) as ->.
  { revert Hnd Hp. generalize (non_body op) as l. induction l as [|q l IH]; simpl; intros Hnd Hp; [by apply not_elem_of_nil in Hp|].
    apply NoDup_cons in Hnd as [Hq Hnd]. apply elem_of_cons in Hp as [->|Hp]; [by rewrite String.eqb_refl|].
    destruct (String.eqb_spec (param_name q) (param_name p)) as [He|]; [|by apply IH]. destruct Hq. rewrite He. by apply (list_elem_of_fmap_2 param_name). }
  simpl. destruct (fold_field_keeps op (param_name p) (request_fields op) (parameter_input p)) as (i & -> & Hs & Hr & _). exists i. by split.
Qed.

(** The input of a required field is required. *)
Lemma required_input op n i : NoDup (map param_name (non_body op)) -> n ∈ required_names op -> input_of op n = Some i -> in_required i = true.
Proof.
  intros Hnd Hn Hi. unfold required_names, required_parameters, required_body_fields in Hn. apply elem_of_app in Hn as [Hn|Hn]; apply list_elem_of_fmap in Hn as (x & -> & Hx).
  - apply list_elem_of_In, List.filter_In in Hx as [Hx [Hr Hl]%andb_true_iff].
    destruct (input_of_parameter op x Hnd) as (j & Hj & _ & Hreq); [by apply list_elem_of_In, List.filter_In|]. rewrite Hj in Hi. injection Hi as <-. by apply Hreq.
  - unfold input_of, request_fields in Hi. destruct (request_body op) as [b|]; [|by apply not_elem_of_nil in Hx].
    apply list_elem_of_In, List.filter_In in Hx as [Hx%list_elem_of_In Hr]. revert Hi.
    generalize (option_map parameter_input (List.find (fun p => String.eqb (param_name p) (field_name x)) (non_body op))).
    induction (body_fields b) as [|g fs IH]; [by apply not_elem_of_nil in Hx|]. intros o. simpl. intros Hi.
    apply elem_of_cons in Hx as [<-|Hx]; [|by eapply IH]. unfold add_field at 2 in Hi. rewrite String.eqb_refl in Hi.
    destruct (fold_field_keeps op (field_name x) fs (match o with Some i => couple x i | None => body_input op x end)) as (i' & Hi' & _ & Hq & _).
    rewrite Hi' in Hi. injection Hi as <-. apply Hq. destruct o as [j|]; simpl; [rewrite Hr; apply orb_true_r|done].
Qed.

(** No other input is. *)
Lemma input_required op n i : input_of op n = Some i -> in_required i = true -> n ∈ required_names op.
Proof.
  unfold input_of, required_names. intros Hi Hr.
  assert (Hp : forall j, option_map parameter_input (List.find (fun p => String.eqb (param_name p) n) (non_body op)) = Some j -> in_required j = true ->
    n ∈ map param_name (required_parameters op) ++ map field_name (required_body_fields op)).
  { intros j. destruct (List.find _ _) as [p|] eqn:E; [|done]. intros [= <-] Hq. apply List.find_some in E as [[Hin Hl]%List.filter_In <-%String.eqb_eq].
    apply elem_of_app. left. apply (list_elem_of_fmap_2 param_name), list_elem_of_In, List.filter_In. simpl in Hq. by rewrite Hq, Hl. }
  assert (Hf : forall f, f ∈ request_fields op -> field_name f = n -> field_required f = true -> n ∈ map param_name (required_parameters op) ++ map field_name (required_body_fields op)).
  { intros f Hin <- Hq. apply elem_of_app. right. apply (list_elem_of_fmap_2 field_name). unfold request_fields, required_body_fields in *.
    destruct (request_body op) as [b|]; [|by apply not_elem_of_nil in Hin]. by apply list_elem_of_In, List.filter_In; split; [apply list_elem_of_In|]. }
  revert Hp Hi. generalize (option_map parameter_input (List.find (fun p => String.eqb (param_name p) n) (non_body op))).
  induction (request_fields op) as [|f fs IH]; intros o Hp Hi; simpl in Hi; [by eapply Hp|].
  apply (IH ltac:(intros g Hg; apply Hf; by constructor) (add_field op n o f)); [|exact Hi].
  intros j. unfold add_field. destruct (String.eqb_spec (field_name f) n) as [He|]; [|apply Hp].
  destruct o as [k|]; intros [= <-] Hq; simpl in Hq; [apply orb_true_iff in Hq as [Hq|Hq]; [by eapply Hp|]|]; apply (Hf f); by try constructor.
Qed.

Section compiles.
Context (service id : string) (schema : ServiceSchema) (op : OperationSchema) (catalogue : Catalogue).
Context (Hop : find_operation schema id = Some op) (Hcat : catalogue service = Ok schema).

(** The step as compiled: each required field reads the input of its name. *)
Definition synthesised_compiled_step (inputs : list WorkflowInputSpec) : CompiledStep :=
  mk_step "main" 0 None Api None (Some (mk_op_ref service id)) [] (requires_confirmation (http_method op) (op_name op)) false false false None [] []
    (derive_fields op ∅ (list_to_set (map in_name inputs))).

Lemma compile_synthesised inputs : Forall plain inputs ->
  let d := synthesised_definition service id op inputs in
  compile_workflow d catalogue =
    Ok (mk_workflow (wd_id d) (wd_name d) None None None inputs true [synthesised_compiled_step inputs] [] None).
Proof.
  intros Hp d. unfold compile_workflow. assert (Hv : validate_definition d = Ok tt).
  { unfold validate_definition. unfold validate_unique_step_ids. simpl. rewrite bool_decide_false by apply not_elem_of_empty.
    cbn -[validate_no_sensitive]. unfold validate_no_sensitive, has_sensitive. simpl.
    assert (existsb in_sensitive inputs = false) as ->; [|done].
    clear -Hp. induction Hp as [|i l [_ Hs _ _] _ IH]; simpl; [done|]. by rewrite Hs, IH. }
  rewrite Hv. cbn [result_bind]. assert (Hs : resolve_input_schemas catalogue d = Ok inputs).
  { apply result_map_id. intros i Hi. rewrite Forall_forall in Hp. destruct (Hp i Hi) as [[s Hs] _ _ _]. unfold resolve_input_schema. by rewrite Hs. }
  rewrite Hs. cbn [result_bind]. assert (Ho : validate_options_sources catalogue d inputs = Ok tt).
  { apply for_each_Ok. intros i Hi. rewrite Forall_forall in Hp. destruct (Hp i Hi) as [_ _ Ho _]. unfold check_options_source. by rewrite Ho. }
  rewrite Ho. cbn [result_bind]. assert (Hf : validate_file_pickers inputs = Ok tt).
  { apply for_each_Ok. intros i Hi. rewrite Forall_forall in Hp. destruct (Hp i Hi) as [_ _ _ Hk]. unfold check_file_picker. by rewrite Hk. }
  rewrite Hf. cbn [result_bind]. assert (Hk : check_step_paths catalogue (synthesised_step service id op) = Ok tt).
  { unfold check_step_paths. simpl. rewrite Hcat. simpl. unfold find_operation_or_error. simpl. by rewrite Hop. }
  assert (Hd : derive_step catalogue inputs (synthesised_step service id op) = Ok (derive_fields op ∅ (list_to_set (map in_name inputs)))).
  { unfold derive_step. simpl. rewrite Hcat. simpl. unfold auto_derive_step, find_operation_or_error. simpl. by rewrite Hop. }
  unfold validate_nested_paths. simpl. by rewrite Hk, Hd.
Qed.
End compiles.

(** Without two parameters of the same name the synthesised workflow compiles. *)
Lemma synthesised_compiles service id schema op catalogue : find_operation schema id = Some op -> catalogue service = Ok schema ->
  NoDup (map param_name (non_body op)) -> exists d c step,
    synthesise_workflow_definition service id schema = Ok d /\ compile_workflow d catalogue = Ok c /\
    NoDup (map in_name (wf_inputs c)) /\ (forall n, find_input n (wf_inputs c) = input_of op n) /\
    wf_steps c = [step] /\ step_inputs step = [] /\ step_operation step = Some (mk_op_ref service id) /\
    map auto_field (auto_derived step) = required_names op /\
    (forall f, f ∈ auto_derived step -> auto_scope f = ScopeInput (auto_field f)).
Proof.
  intros Hop Hcat Hnd. destruct (synthesise_spec service id schema op Hop) as [Hok _].
  destruct (Hok Hnd) as (inputs & Hd & Hn & Hi). eexists _, _, (synthesised_compiled_step service id op inputs). split; [exact Hd|].
  assert (Hplain : Forall plain inputs).
  { apply Forall_forall. intros i Hin. apply (input_of_plain op (in_name i)). rewrite <- Hi. by apply find_input_in. }
  split; [by apply compile_synthesised with (schema := schema)|]. cbn [wf_inputs wf_steps]. split; [done|]. split; [done|]. split; [done|]. split; [done|]. split; [done|].
  assert (Hnames : map auto_field (derive_fields op ∅ (list_to_set (map in_name inputs))) = required_names op).
  { rewrite derived_names. clear. induction (required_names op) as [|n l IH]; simpl; [done|]. by rewrite bool_decide_false, IH by apply not_elem_of_empty. }
  split; [exact Hnames|]. intros f Hf.
  assert (Hin : auto_field f ∈ map in_name inputs).
  { assert (Hr : auto_field f ∈ required_names op) by (rewrite <- Hnames; by apply (list_elem_of_fmap_2 auto_field)).
    destruct (find_input (auto_field f) inputs) as [i|] eqn:E; [|apply required_has_input in Hr as [i Hr]; by rewrite <- Hi, E in Hr].
    apply find_input_name in E as [<- E]. by apply (list_elem_of_fmap_2 in_name). }
  unfold derive_fields in Hf.
  apply elem_of_app in Hf as [(x & -> & _)%list_elem_of_fmap|(x & -> & _)%list_elem_of_fmap]; simpl in *; unfold derived_scope;
    by rewrite bool_decide_true by (by apply elem_of_list_to_set).
Qed.

(** [C29] Every command compiles: for an operation of the catalogue the synthesised
    workflow is accepted by the compiler, with one input per parameter and body field — a
    parameter and a body field of one name sharing theirs — and one step that has no
    bindings and derives exactly the required fields of the operation, each from the input
    of its own name. The one exception is an operation two of whose parameters share a
    name, which is refused before. *)
Theorem command_compiles service id schema op catalogue : find_operation schema id = Some op -> catalogue service = Ok schema ->
  (NoDup (map param_name (non_body op)) -> exists d c step,
     synthesise_workflow_definition service id schema = Ok d /\ compile_workflow d catalogue = Ok c /\
     NoDup (map in_name (wf_inputs c)) /\ (forall n, find_input n (wf_inputs c) = input_of op n) /\
     wf_steps c = [step] /\ step_inputs step = [] /\ step_operation step = Some (mk_op_ref service id) /\
     map auto_field (auto_derived step) = required_names op /\
     (forall f, f ∈ auto_derived step -> auto_scope f = ScopeInput (auto_field f))) /\
  (~ NoDup (map param_name (non_body op)) -> exists n, synthesise_workflow_definition service id schema = Err (parameter_collision_error service id n)).
Proof.
  intros Hop Hcat. destruct (synthesise_spec service id schema op Hop) as [_ Herr]. split; [|done]. by apply synthesised_compiles.
Qed.

Lemma sample_compiles : NoDup (map param_name (non_body sample_operation)).
Proof. repeat constructor; by intros ?%not_elem_of_nil. Qed.

Lemma command_compiles_witness : exists d c step,
  synthesise_workflow_definition "iam" "CreateUser" sample_service = Ok d /\ compile_workflow d (fun _ => Ok sample_service) = Ok c /\
  NoDup (map in_name (wf_inputs c)) /\ (forall n, find_input n (wf_inputs c) = input_of sample_operation n) /\
  wf_steps c = [step] /\ step_inputs step = [] /\ step_operation step = Some (mk_op_ref "iam" "CreateUser") /\
  map auto_field (auto_derived step) = required_names sample_operation /\
  (forall f, f ∈ auto_derived step -> auto_scope f = ScopeInput (auto_field f)).
Proof.
  refine (proj1 (command_compiles "iam" "CreateUser" sample_service sample_operation (fun _ => Ok sample_service) _ _) sample_compiles);
    vm_compute; reflexivity.
Defined.
