(* ===== verification/ServiceCommand.v ===== *)
(** A service command ([invocation/resolve.rs], [routes/service], [invocation/workflows.rs] of
    [accelbyte-ags-cli], [catalogue/aliases.rs] of [ags-runtime]): the operation it names, the
    request its arguments describe, and the inputs its one-step workflow starts with.

    What the argument parser [clap] makes of the arguments enters as a function from the
    name of an argument to its value. *)

From stdpp Require Import base gmap strings list.
From Stdlib Require Import ZArith Lia Ascii Strings.Byte.
From S2P Require Import Prelude Text Kebab Json Catalogue Paths Sanitise Results Workflow AutoDerive Bindings Request Url Http Pagination Time ErrorCodes Dispatch Swagger Parser Skeleton Vault Config Repository CliErrors Flags Surface Synthesised Execution Compile.

(** * The contract of a method *)

Record ResolvedContract : Type := mk_contract { rc_scope : string; rc_version : Z; rc_operation : OperationSchema }.

Inductive ResolutionError : Type :=
| MissingScope (command : string) (supported : list string)
| UnsupportedScope (command requested : string) (supported : list string)
| UnsupportedVersion (command scope requested : string) (supported : list Z).

Definition show_version (v : Z) : string := "v" +:+ show_int v.

Definition NL : string := String (ascii_of_nat 10) EmptyString.

Definition show_resolution_error (e : ResolutionError) : string :=
  match e with
  | MissingScope command supported => "no default --api-scope for '" +:+ command +:+ "'" +:+ NL +:+ "Supported scopes: " +:+ join ", " supported
  | UnsupportedScope command requested supported =>
      "api scope '" +:+ requested +:+ "' is not supported for '" +:+ command +:+ "'" +:+ NL +:+ "Supported scopes: " +:+ join ", " supported
  | UnsupportedVersion command scope requested supported =>
      "api version '" +:+ requested +:+ "' is not supported for '" +:+ command +:+ "' with --api-scope " +:+ scope +:+ NL +:+ "Supported " +:+ scope +:+
      " versions: " +:+ join ", " (map show_version supported)
  end.

(** [3], [v3] or [V3]. *)
Definition parse_version (raw : string) : option Z :=
  parse_unsigned u32_max (match strip_prefix "v" raw with Some s => s | None => default raw (strip_prefix "V" raw) end).

Definition resolve (command : string) (m : MethodSchema) (explicit_scope explicit_version : option string) : result ResolvedContract ResolutionError :=
  let supported := map Catalogue.scope (scopes m) in
  let? name := match explicit_scope with
               | Some s => Ok s
               | None => ok_or (default_scope m) (MissingScope command supported)
               end in
  let? entry := ok_or (List.find (fun s => String.eqb (Catalogue.scope s) name) (scopes m)) (UnsupportedScope command name supported) in
  let unsupported := UnsupportedVersion command name (default (show_version (default_version entry)) explicit_version) (map api_version (contracts entry)) in
  let? version := match explicit_version with
                  | Some raw => ok_or (parse_version raw) unsupported
                  | None => Ok (default_version entry)
                  end in
  let? op := ok_or (List.find (fun c => api_version c =? version) (contracts entry)) unsupported in
  Ok (mk_contract name version op).

(** Names that methods had before. *)
Definition former_method_names (service resource method : string) : list string :=
  if String.eqb service "platform" && String.eqb resource "stores" && String.eqb method "delete-published" then ["delete-publisheed"]
  else if String.eqb service "platform" && String.eqb resource "entitlements" && String.eqb method "check-my-ownership-by-app-id" then ["check-my-ownership-by-app-d"]
  else [].

Definition answers_to (service resource name : string) (m : MethodSchema) : bool :=
  String.eqb (method_name m) name || existsb (String.eqb name) (former_method_names service resource (method_name m)).

Definition find_method (service : string) (r : ResourceSchema) (name : string) : option MethodSchema :=
  List.find (answers_to service (resource_name r) name) (methods r).

Definition find_resource (schema : ServiceSchema) (name : string) : option ResourceSchema :=
  List.find (fun r => String.eqb (resource_name r) name) (resources schema).

Definition resolve_method (service : string) (r : ResourceSchema) (name : string) (s : LeafSelectors) : result ResolvedContract CliError :=
  let? m := ok_or (find_method service r name) (usage ("Unknown method: " +:+ name)) in
  map_err (fun e => usage (show_resolution_error e))
    (resolve ("ags " +:+ service +:+ " " +:+ resource_name r +:+ " " +:+ name) m (api_scope s) (sel_version s)).

(** The contract that is shown when the selectors fit none. *)
Definition fallback_default_contract (m : MethodSchema) : option (OperationSchema * string * Z) :=
  entry ← match (name ← default_scope m; List.find (fun s => String.eqb (Catalogue.scope s) name) (scopes m)) with
          | Some s => Some s
          | None => head (scopes m)
          end;
  c ← match List.find (fun c => api_version c =? default_version entry) (contracts entry) with
      | Some c => Some c
      | None => foldl (fun best c => match best with Some b => if api_version b <=? api_version c then Some c else Some b | None => Some c end) None (contracts entry)
      end;
  Some (c, Catalogue.scope entry, api_version c).

Definition resolve_operation_for_help (schema : ServiceSchema) (resource method : string) (s : LeafSelectors) : option OperationSchema :=
  r ← find_resource schema resource;
  m ← find_method (service_name schema) r method;
  match resolve ("ags " +:+ service_name schema +:+ " " +:+ resource +:+ " " +:+ method) m (api_scope s) (sel_version s) with
  | Ok c => Some (rc_operation c)
  | Err _ => option_map (fun c => c.1.1) (fallback_default_contract m)
  end.

(** * The body *)

Definition MAX_JSON_INPUT_BYTES : Z := 10 * 1024 * 1024.

(** A file, by the path that may be shown. *)
Inductive JsonSource : Type := JsonFile (safe_path : string) | JsonStdin.

Inductive BodyResolution : Type := ExplicitBody (v : value) | NeedsGathering | NoBody.

(** An error while reading: whether its kind is [InvalidData], and its text. *)
Record ReadError : Type := mk_read_error { invalid_data : bool; read_text : string }.

(** What [--json] can be read from: a file is opened or not, and read to its end or not. *)
Record JsonInputs : Type := mk_json_inputs {
  open_file : string -> result (result bytes ReadError) string;
  stdin_terminal : bool;
  stdin_bytes : result bytes ReadError
}.

Definition inline_suggestion : string := "Check the path is correct and readable, or pass JSON inline with --json '{...}'".

Definition json_file_example (windows : bool) : string := if windows then "--json @path\to\file.json" else "--json @path/to/file.json".

Definition size_exceeded_error (s : JsonSource) : CliError :=
  let limit := show_int (MAX_JSON_INPUT_BYTES / (1024 * 1024)) in
  usage_fix (match s with
             | JsonFile path => "--json file '" +:+ path +:+ "' exceeds the " +:+ limit +:+ " MiB size limit"
             | JsonStdin => "JSON from stdin exceeds the " +:+ limit +:+ " MiB size limit"
             end) "Split the request into smaller batches, or send the body inline".

Definition read_error (s : JsonSource) (e : ReadError) : CliError :=
  match s with
  | JsonFile path =>
      usage_fix (if invalid_data e then "--json file '" +:+ path +:+ "' contains non-UTF-8 bytes; JSON must be UTF-8 encoded"
                 else "Failed to read --json file '" +:+ path +:+ "': " +:+ read_text e) inline_suggestion
  | JsonStdin =>
      usage_fix (if invalid_data e then "--json from stdin contains non-UTF-8 bytes; JSON must be UTF-8 encoded"
                 else "Failed to read --json from stdin: " +:+ read_text e)
        "Pipe valid JSON into the command, or use --json @path or --json '{...}'"
  end.

Definition validate_json_input (raw : string) (s : JsonSource) : result string CliError :=
  if MAX_JSON_INPUT_BYTES <? Z.of_nat (String.length raw) then Err (size_exceeded_error s)
  else if is_empty (trim raw) then
    Err (match s with
         | JsonFile path => usage_fix ("--json file '" +:+ path +:+ "' is empty or contains only whitespace")
                              "Ensure the file contains a valid JSON document, or use --skeleton to see the expected shape"
         | JsonStdin => usage_fix "Expected JSON on stdin but got empty input" "Pipe a JSON document into the command, or use --json @path or --json '{...}'"
         end)
  else Ok raw.

(** One byte more than the limit is read, at most. *)
Definition read_and_validate (input : result bytes ReadError) (s : JsonSource) : result string CliError :=
  let? b := map_err (read_error s) input in
  let b := take (Z.to_nat (MAX_JSON_INPUT_BYTES + 1)) b in
  if MAX_JSON_INPUT_BYTES <? Z.of_nat (length b) then Err (size_exceeded_error s)
  else if valid_utf8 b then validate_json_input (of_bytes b) s
  else Err (read_error s (mk_read_error true "non-UTF-8 bytes")).

Section body.
Context `{JsonText}.
(** The message of a [serde_json] error, and the machine. *)
Variable json_error : string -> string.
Variable windows : bool.
Variable inputs : JsonInputs.

Definition read_json_file (path : string) : result string CliError :=
  let safe := strip_terminal_control_sequences path in
  let? content := map_err (fun e => usage_fix ("Failed to read --json file '" +:+ safe +:+ "': " +:+ e) inline_suggestion) (open_file inputs path) in
  read_and_validate content (JsonFile safe).

Definition read_stdin_json : result string CliError :=
  if stdin_terminal inputs then
    Err (usage_fix "--json @- is waiting on stdin but no data is being piped in" "Pipe a JSON document into the command, or use --json @path or --json '{...}'")
  else read_and_validate (stdin_bytes inputs) JsonStdin.

Definition resolve_json_arg (raw : string) (no_input : bool) : result string CliError :=
  if String.eqb raw "@-" then
    if no_input then
      Err (usage_fix "--json @- reads from stdin, which is not available with --no-input"
             ("Use " +:+ json_file_example windows +:+ " or pass JSON inline with --json '{...}'"))
    else read_stdin_json
  else
    match strip_prefix_char "@" raw with
    | Some path =>
        if is_empty path then Err (usage ("Missing path after '@': use " +:+ json_file_example windows +:+ " or --json @- for stdin"))
        else read_json_file path
    | None => Ok raw
    end.

Definition invalid_json (text : string) : CliError :=
  usage_fix ("Invalid JSON for --json: " +:+ json_error text)
    ("Check the JSON syntax, or run with --skeleton to see the expected shape. " +:+
     "To avoid shell quoting issues, use --json @file.json or --json @- (stdin).").

Definition missing_body : CliError :=
  CliUsage "Missing required request body"
    (Some (mk_error_metadata (Some "Interactive input is disabled (--no-input).") None
             (Some "Pass --json '<value>' (or --json @file.json), or drop --no-input to provide the body interactively.") Fix_ None None None None)).

Definition resolve_request_body (op : OperationSchema) (arg : string -> option string) (no_input : bool) : result BodyResolution CliError :=
  match request_body op with
  | None => Ok NoBody
  | Some _ =>
      match arg "json" with
      | Some raw =>
          let? text := resolve_json_arg raw no_input in
          let? v := ok_or (normalize <$> parse_json text) (invalid_json text) in
          Ok (ExplicitBody v)
      | None => if no_input then Err missing_body else Ok NeedsGathering
      end
  end.

(** * The request of the arguments *)

Record ArgumentParams : Type := mk_argument_params {
  ap_path : gmap string string;
  ap_query : gmap string string;
  ap_header : gmap string string;
  ap_form : gmap string string
}.

Definition add_argument (arg : string -> option string) (ps : ArgumentParams) (p : ParameterSchema) : ArgumentParams :=
  match arg (param_name p) with
  | None => ps
  | Some v =>
      let n := param_name p in
      match param_location p with
      | InPath => mk_argument_params (<[n := v]> (ap_path ps)) (ap_query ps) (ap_header ps) (ap_form ps)
      | InQuery => mk_argument_params (ap_path ps) (<[n := v]> (ap_query ps)) (ap_header ps) (ap_form ps)
      | InHeader => mk_argument_params (ap_path ps) (ap_query ps) (<[n := v]> (ap_header ps)) (ap_form ps)
      | InFormData => mk_argument_params (ap_path ps) (ap_query ps) (ap_header ps) (<[n := v]> (ap_form ps))
      | InBody => ps
      end
  end.

Definition build_command_request (op : OperationSchema) (arg : string -> option string) (f : GlobalFlags) (format : OutputFormat) (service : string)
    (body : option value) : CommandRequest :=
  let ps := foldl (add_argument arg) (mk_argument_params ∅ ∅ ∅ ∅) (parameters op) in
  mk_request service (op_id op) None (ap_path ps) (ap_query ps) (ap_header ps) (ap_form ps) (option_map BodyJson body) format (Flags.pagination_hint f)
    (f_verbosity f) (f_output f).

(** * The inputs of the workflow *)

(** [str::parse::<f64>] and [Number::from_f64]: nothing for text that is no number or not a
    finite one. *)
Variable parse_f64 : string -> option number.

Definition coerce_cli_value (raw : string) (schema : option value) : value :=
  let hint := default "string" (schema_hint ← schema; t ← get_key "type" schema_hint; as_str t) in
  if String.eqb hint "integer" then match parse_i64 raw with Some n => int n | None => Str raw end
  else if String.eqb hint "number" then match parse_f64 raw with Some n => Number n | None => Str raw end
  else if String.eqb hint "boolean" then
    let lower := to_ascii_lowercase raw in
    if String.eqb lower "true" then Bool true else if String.eqb lower "false" then Bool false else Str raw
  else if String.eqb hint "array" || String.eqb hint "object" then match normalize <$> parse_json raw with Some v => v | None => Str raw end
  else Str raw.

(** The schemas of the declared inputs, by name: the last of a name. *)
Definition input_schemas (c : CompiledWorkflow) : gmap string (option value) :=
  list_to_map (rev (map (fun i => (in_name i, in_schema i)) (wf_inputs c))).

Definition supply_text (schemas : gmap string (option value)) (m : gmap string value) (kv : string * string) : gmap string value :=
  match schemas !! kv.1 with Some schema => <[kv.1 := coerce_cli_value kv.2 schema]> m | None => m end.

Definition supply_json (schemas : gmap string (option value)) (m : gmap string value) (kv : string * value) : gmap string value :=
  if bool_decide (is_Some (schemas !! kv.1)) then <[kv.1 := kv.2]> m else m.

Definition cli_flags_matching_workflow_inputs (c : CompiledWorkflow) (r : CommandRequest) : gmap string value :=
  let schemas := input_schemas c in
  let texts := entries (path_params r) ++ entries (query_params r) ++ entries (header_params r) ++ entries (form_params r) in
  let m := foldl (supply_text schemas) ∅ texts in
  let m := match req_namespace r with Some n => supply_text schemas m ("namespace", n) | None => m end in
  match req_body r with
  | Some (BodyJson (Object o)) => foldl (supply_json schemas) m o
  | _ => m
  end.

Definition explicit_json (r : CommandRequest) : option value := match req_body r with Some (BodyJson v) => Some v | _ => None end.

Definition or_insert (m : gmap string value) (name : string) (v : value) : gmap string value :=
  match m !! name with Some _ => m | None => <[name := v]> m end.

(** The inputs a service command starts with: with an explicit body, the fields of the body
    are all supplied, with [null] when the body has them not. *)
Definition pre_supplied (c : CompiledWorkflow) (schema : ServiceSchema) (r : CommandRequest) : gmap string value :=
  let supplied := cli_flags_matching_workflow_inputs c r in
  match explicit_json r, find_operation schema (req_operation_id r) with
  | Some _, Some op => foldl (fun m f => or_insert m (field_name f) Null) supplied (request_fields op)
  | _, _ => supplied
  end.

(** ** What is missing *)

Definition missing_inputs (c : CompiledWorkflow) (supplied : gmap string value) : list WorkflowInputSpec :=
  List.filter (fun i => in_required i && negb (bool_decide (is_Some (supplied !! in_name i)))) (wf_inputs c).

(** An input that is a document, not a line of text. *)
Definition is_body_field_input (i : WorkflowInputSpec) : bool :=
  match in_schema i with
  | None => false
  | Some schema =>
      if bool_decide (is_Some (e ← get_key "enum" schema; as_array e)) then false
      else
        let t := default EmptyString (t ← get_key "type" schema; as_str t) in
        String.eqb t "object" || String.eqb t "array" || bool_decide (is_Some (get_key "properties" schema))
  end.

Definition command_shape (c : CompiledWorkflow) (supplied : gmap string value) : Surface.Shape :=
  let missing := missing_inputs c supplied in
  classify_shape RouteService
    (mk_missing (length (List.filter (fun i => negb (is_body_field_input i)) missing)) (existsb is_body_field_input missing)) 1 OtherAuth OutputNo.
End body.

(** * Missing inputs that cannot be asked for *)

Definition MAX_LISTED_MISSING : nat := 3.

Definition missing_message (missing : list string) : string :=
  match missing with
  | [name] => "Missing required input '" +:+ name +:+ "'"
  | _ =>
      let truncated := Nat.ltb (S MAX_LISTED_MISSING) (length missing) in
      let shown := if truncated then MAX_LISTED_MISSING else length missing in
      let lines := map (fun n => "    '" +:+ n +:+ "'") (take shown missing) ++
                   (if truncated then ["    (+ " +:+ show_int (Z.of_nat (length missing - shown)) +:+ " more)"] else []) in
      "Missing required inputs:" +:+ NL +:+ join NL lines
  end.

Section reject.
Context `{UnicodeCase}.

Definition missing_hints (missing body_fields : list string) : list string :=
  map (fun n => "--" +:+ to_kebab_case n) (List.filter (fun n => negb (bool_decide (n ∈ body_fields))) missing) ++
  (if existsb (fun n => bool_decide (n ∈ body_fields)) missing then ["--json"] else []).

Definition reject_if_inputs_unavailable (c : CompiledWorkflow) (supplied : gmap string value) (ctx : FrontendContext) (schema : ServiceSchema)
    (operation_id : string) : result unit CliError :=
  if allows_input ctx then Ok tt
  else
    match sort_by String.leb (map in_name (missing_inputs c supplied)) with
    | [] => Ok tt
    | missing =>
        let body_fields := match find_operation schema operation_id with Some op => map field_name (request_fields op) | None => [] end in
        Err (CliUsage (missing_message missing)
               (Some (mk_error_metadata (Some (input_unavailable_reason (terminal ctx))) None
                        (Some ("Pass " +:+ join ", " (missing_hints missing body_fields) +:+
                               ", or run interactively with both stdin and stderr attached to a terminal.")) Fix_ None None None None)))
    end.

Definition build_resolution_trace (context : ExecutionContext) (source : SpecSource) (service_id : string) : ResolutionTrace :=
  let shown := to_uppercase (default service_id (display_name service_id)) in
  mk_resolution (match source with FromCache => shown +:+ " loaded from cache" | FromBundle => shown +:+ " decompressed from bundle" end)
    (profile context, profile_label (profile_source context))
    (base_url context, base_url_label (base_url_source context))
    (n ← namespace context; s ← namespace_source context; Some (n, namespace_label s))
    (token_label (access_token_source context))
    (option_map (fun d => "expires in " +:+ d) (access_token_expiry context)).
End reject.

(** * Parsing the arguments *)

(** What [clap] finds in the arguments: a resource, its method, the values of the method's
    arguments. *)
Definition Matches : Type := option (string * option (string * (string -> option string))).

Record ParsedServiceCommand : Type := mk_parsed {
  pc_service_id : string;
  pc_request : CommandRequest;
  pc_spec_source : SpecSource;
  pc_schema : ServiceSchema;
  pc_path : string
}.

(** A request to run, a skeleton or a help page that has been shown, or the latter with an
    exit code. *)
Inductive ParseServiceOutcome : Type := ContinueWith (p : ParsedServiceCommand) | CompleteWith (skeleton : option value) | ExitWith (code : Z).

Definition unknown_service (name : string) : CliError :=
  usage ("Unknown service: '" +:+ name +:+ "'" +:+ NL +:+ NL +:+ "Valid services:" +:+ NL +:+ join NL (map (fun s => "  " +:+ sm_display s) SERVICES)).

Definition full_path_required : CliError := usage "--skeleton requires a full command path: ags <service> <resource> <method> --skeleton".

Definition is_help (arg : string) : bool := String.eqb arg "--help" || String.eqb arg "-h".

Definition positional (args : list string) : list string := List.filter (fun a => negb (starts_with "-" a)) args.

Definition unknown_resource (name : string) : CliError := usage ("Unknown resource: " +:+ name).

Section parse.
Context `{JsonText, !JsonPretty, Environment, Vault, UnicodeCase, Bundle, HashOrder}.
Variable json_error : string -> string.
Variable windows : bool.
Variable inputs : JsonInputs.
(** The help page, and the matches, of the arguments under the command tree of a schema. *)
Variable clap_help : ServiceSchema -> LeafSelectors -> list string -> result unit CliError.
Variable clap_matches : ServiceSchema -> LeafSelectors -> list string -> result Matches CliError.

Definition no_body (op : OperationSchema) : CliError :=
  usage_fix ("Operation '" +:+ op_name op +:+ "' has no request body") "Only operations that accept --json have a skeleton to generate".

Definition build_skeleton_output (op : OperationSchema) : result value CliError :=
  match request_body op with None => Err (no_body op) | Some _ => Ok (build_body_skeleton op) end.

Definition handle_skeleton_outcome (schema : ServiceSchema) (service : string) (args : list string) (s : LeafSelectors) : result ParseServiceOutcome CliError :=
  match args with
  | resource :: method :: _ =>
      let? r := ok_or (find_resource schema resource) (unknown_resource resource) in
      let? c := resolve_method service r method s in
      let? skeleton := build_skeleton_output (rc_operation c) in
      Ok (CompleteWith (Some skeleton))
  | _ => Err full_path_required
  end.

Definition early_resolve_selected_method (schema : ServiceSchema) (service : string) (args : list string) (s : LeafSelectors) : result unit CliError :=
  match args with
  | resource :: method :: _ =>
      match find_resource schema resource with
      | Some r =>
          match find_method service r method with
          | Some _ => let? _ := resolve_method service r method s in Ok tt
          | None => Ok tt
          end
      | None => Ok tt
      end
  | _ => Ok tt
  end.

Definition accepts_namespace (schema : ServiceSchema) (service : string) (args : list string) (s : LeafSelectors) : bool :=
  match args with
  | resource :: method :: _ =>
      match (r ← find_resource schema resource; match resolve_method service r method s with Ok c => Some c | Err _ => None end) with
      | Some c => existsb (fun p => String.eqb (param_name p) "namespace") (parameters (rc_operation c))
      | None => false
      end
  | _ => false
  end.

Definition names_namespace (arg : string) : bool := String.eqb arg "--namespace" || starts_with "--namespace=" arg.

Definition inject_namespace_if_needed (args : list string) (found : option (string * NamespaceSource)) (schema : ServiceSchema) (service : string)
    (s : LeafSelectors) : list string :=
  match found with
  | Some (n, _) =>
      if existsb names_namespace args then args
      else if accepts_namespace schema service (positional args) s then args ++ ["--namespace"; n] else args
  | None => args
  end.

(** The request of the matches of a command. *)
Definition matched_command (schema : ServiceSchema) (source : SpecSource) (id : string) (s : LeafSelectors) (f : GlobalFlags) (ctx : FrontendContext)
    (matches : Matches) : result ParseServiceOutcome CliError :=
  let? found := ok_or matches (usage "No resource specified") in
  let? called := ok_or found.2 (usage "No method specified") in
  let '(method, arg) := called in
  let? r := ok_or (find_resource schema found.1) (unknown_resource found.1) in
  let? c := resolve_method id r method s in
  let? body := resolve_request_body json_error windows inputs (rc_operation c) arg (is_no_input f) in
  let body := match body with ExplicitBody v => Some v | NeedsGathering | NoBody => None end in
  Ok (ContinueWith (mk_parsed id (build_command_request (rc_operation c) arg f (protocol_output_format ctx) id body) source schema
        (default id (display_name id) +:+ " " +:+ found.1 +:+ " " +:+ method))).

Definition parse_service_args (service_arg : string) (args : list string) (s : LeafSelectors) (f : GlobalFlags) (ctx : FrontendContext) (v : Vt)
  : result ParseServiceOutcome CliError * Vt :=
  match internal_name service_arg with
  | None => (Err (unknown_service service_arg), v)
  | Some id =>
      match load_service json_error id v with
      | (Err e, v) => (Err (cli_error_of_runtime e), v)
      | (Ok (schema, source), v) =>
          let help := existsb is_help args in
          if negb (is_skeleton f) && (bool_decide (args = []) || help || Nat.leb (length (positional args)) 1) then
            (let? _ := clap_help schema s args in Ok (if help then CompleteWith None else ExitWith 1), v)
          else if is_skeleton f then (handle_skeleton_outcome schema id (positional args) s, v)
          else
            match early_resolve_selected_method schema id (positional args) s with
            | Err e => (Err e, v)
            | Ok _ =>
                match resolve_namespace json_error (f_namespace f) (f_profile f) v with
                | (Err e, v) => (Err (cli_error_of_runtime e), v)
                | (Ok found, v) =>
                    (let? matches := clap_matches schema s (inject_namespace_if_needed args found schema id s) in
                     matched_command schema source id s f ctx matches, v)
                end
            end
      end
  end.
End parse.

(** * The run of a command *)

Definition AMS_SERVICE_NAME : string := "ams".
Definition UPLOAD_RESOURCE : string := "upload".

Definition is_ams_service (service_arg : string) : bool := bool_decide (internal_name service_arg = Some AMS_SERVICE_NAME).
Definition is_ams_upload (args : list string) : bool := match args with first :: _ => String.eqb first UPLOAD_RESOURCE | [] => false end.

(** What the executor is started with, and the surface it is shown on. *)
Record ServiceRun : Type := mk_service_run {
  sr_compiled : CompiledWorkflow;
  sr_supplied : gmap string value;
  sr_options : RunOptions;
  sr_context : FrontendContext;
  sr_trace : option ResolutionTrace
}.

Definition service_options (f : GlobalFlags) (ctx : FrontendContext) (r : CommandRequest) : RunOptions :=
  mk_options_ (Flags.is_dry_run f) (is_auto_confirmed f) (negb (allows_input ctx)) false false (protocol_output_format ctx) (f_output f) (f_verbosity f)
    (Flags.pagination_hint f) (explicit_json r) false.

Section run.
Context `{JsonText, UnicodeCase}.
Variable parse_f64 : string -> option number.

(** [route_service] after its prologue: everything before the executor runs. *)
Definition prepare_service_run (catalogue : string -> result ServiceSchema RuntimeError) (f : GlobalFlags) (ctx : FrontendContext)
    (execution : ExecutionContext) (p : ParsedServiceCommand) : result ServiceRun CliError :=
  let r := pc_request p in
  let? definition := map_err cli_error_of_runtime (synthesise_workflow_definition (pc_service_id p) (req_operation_id r) (pc_schema p)) in
  let? compiled := map_err cli_error_of_runtime (compile_workflow definition catalogue) in
  let supplied := pre_supplied parse_f64 compiled (pc_schema p) r in
  let? _ := reject_if_inputs_unavailable compiled supplied ctx (pc_schema p) (req_operation_id r) in
  let trace := if Flags.is_dry_run f && is_verbose (f_verbosity f) then Some (build_resolution_trace execution (pc_spec_source p) (pc_service_id p)) else None in
  Ok (mk_service_run compiled supplied (service_options f ctx r) (finalize_surface ctx RouteService (command_shape compiled supplied)) trace).
End run.

(** * Which route *)

Inductive RootDispatch : Type := RootBuiltin | RootWorkflowRun | RootService | RootAuth | RootExtendDockerLogin | RootExtendImageUpload.

Definition BUILTIN_COMMANDS : list string :=
  ["help"; "completions"; "config"; "extend"; "profile"; "describe"; "doctor"; "refresh-specs"; "update"; "version"; "workflow"].

Definition is_builtin_command (first : string) : bool := starts_with "-" first || existsb (String.eqb first) BUILTIN_COMMANDS.

Definition is_workflow_run (remaining : list string) : bool :=
  match remaining with a :: b :: _ => String.eqb a "workflow" && String.eqb b "run" | _ => false end.

Definition classify_root (remaining : list string) : RootDispatch :=
  if is_workflow_run remaining then RootWorkflowRun
  else
    match remaining with
    | [] => RootBuiltin
    | first :: rest =>
        match (if String.eqb first "extend" then head rest else None) with
        | Some sub =>
            if String.eqb sub "docker-login" then RootExtendDockerLogin
            else if String.eqb sub "image-upload" then RootExtendImageUpload
            else RootBuiltin
        | None =>
            if String.eqb first "auth" then RootAuth
            else if is_builtin_command first then RootBuiltin
            else RootService
        end
    end.

(** The id of a registered workflow, for telemetry: the first argument after [workflow run]
    that is no flag. *)
Definition workflow_id_for_dispatch (d : RootDispatch) (remaining : list string) : option string :=
  match d with
  | RootWorkflowRun => List.find (fun token => negb (starts_with "-" token)) (skipn 2 remaining)
  | _ => None
  end.

Definition has_version_flag (raw : list string) : bool := existsb (fun a => String.eqb a "--version" || String.eqb a "-V") raw.

Definition is_lifecycle_free_root (raw remaining : list string) : bool :=
  match remaining with
  | [] => true
  | first :: _ => has_version_flag raw || existsb (String.eqb first) ["--help"; "-h"; "help"; "version"]
  end.
