(* ===== verification/ServiceCommandProps.v ===== *)
(** What a service command sends: the contract its selectors name, the inputs that cannot be
    asked for, and the request that carries its flags. *)

From stdpp Require Import base gmap strings list.
From Stdlib Require Import ZArith Lia Ascii Strings.Byte.
From S2P Require Import Prelude Text Kebab Json Catalogue Paths Sanitise Results Workflow AutoDerive Bindings Request Url Http Pagination ErrorCodes Dispatch Swagger Parser ParserProps Compile CompileProps Options ReviewPlan Agreement CliErrors Flags Surface Synthesised ServiceCommand.

#[local] Arguments String.append !_ _ /.

(** * Arguments and parameters *)

(** The arguments at a location. *)
Definition arguments_at (l : ParameterLocation) (ps : ArgumentParams) : gmap string string :=
  match l with InPath => ap_path ps | InQuery => ap_query ps | InHeader => ap_header ps | InFormData => ap_form ps | InBody => ∅ end.

Lemma add_argument_at arg l ps p : l <> InBody -> arguments_at l (add_argument arg ps p) =
  match arg (param_name p) with
  | Some v => if bool_decide (param_location p = l) then <[param_name p := v]> (arguments_at l ps) else arguments_at l ps
  | None => arguments_at l ps
  end.
Proof. intros Hl. unfold add_argument. destruct (arg (param_name p)); [|done]. by destruct (param_location p), l. Qed.

(** Only arguments that were given, of parameters at the location. *)
Lemma arguments_given arg l params n v : l <> InBody ->
  arguments_at l (foldl (add_argument arg) (mk_argument_params ∅ ∅ ∅ ∅) params) !! n = Some v ->
  arg n = Some v /\ exists p, p ∈ params /\ param_name p = n /\ param_location p = l.
Proof.
  intros Hl. assert (Hgen : forall ps, arguments_at l (foldl (add_argument arg) ps params) !! n = Some v ->
    arguments_at l ps !! n = Some v \/ (arg n = Some v /\ exists p, p ∈ params /\ param_name p = n /\ param_location p = l)).
  { induction params as [|p params IH]; intros ps; simpl; [by left|]. intros [Hv|(Ha & q & Hq & Hr)]%IH.
    - rewrite add_argument_at in Hv by done. destruct (arg (param_name p)) as [w|] eqn:Ew; [|by left]. case_bool_decide as El; [|by left].
      apply lookup_insert_Some in Hv as [[<- <-]|[_ Hv]]; [right|by left]. split; [done|]. exists p. split; [constructor|done].
    - right. split; [done|]. exists q. split; [by constructor|done]. }
  intros [Hv|Hv]%Hgen; [|done]. by destruct l; simpl in Hv; rewrite ?lookup_empty in Hv.
Qed.

(** Every such argument. *)
Lemma arguments_taken arg params p v ps : p ∈ params -> param_location p <> InBody -> arg (param_name p) = Some v ->
  arguments_at (param_location p) (foldl (add_argument arg) ps params) !! param_name p = Some v.
Proof.
  intros Hp Hl Hv.
  assert (Hkeep : forall qs ps, arguments_at (param_location p) ps !! param_name p = Some v ->
    arguments_at (param_location p) (foldl (add_argument arg) ps qs) !! param_name p = Some v).
  { induction qs as [|q qs IH]; intros ps' Hps; simpl; [done|]. apply IH. rewrite add_argument_at by done.
    destruct (arg (param_name q)) as [w|] eqn:Ew; [|done]. case_bool_decide; [|done].
    destruct (decide (param_name q = param_name p)) as [He|Hne]; [rewrite He, lookup_insert_eq; congruence|by rewrite lookup_insert_ne]. }
  revert ps. induction params as [|q params IH]; [by apply not_elem_of_nil in Hp|]. intros ps. simpl.
  apply elem_of_cons in Hp as [<-|Hp]; [|by apply IH]. apply Hkeep. rewrite add_argument_at, Hv, bool_decide_true by done. apply lookup_insert_eq.
Qed.

(** * The inputs that are supplied *)

Lemma entries_elem m n v : (n, v) ∈ entries m <-> m !! n = Some v.
Proof. unfold entries. by rewrite sort_by_perm, elem_of_map_to_list. Qed.

Lemma input_schemas_find c n : NoDup (map in_name (wf_inputs c)) -> input_schemas c !! n = option_map in_schema (find_input n (wf_inputs c)).
Proof.
  intros Hnd. unfold input_schemas.
  assert (Hin : forall k s, (k, s) ∈ rev (map (fun i => (in_name i, in_schema i)) (wf_inputs c)) <-> exists i, i ∈ wf_inputs c /\ k = in_name i /\ s = in_schema i).
  { intros k s. rewrite list_elem_of_In, <- in_rev, in_map_iff. setoid_rewrite list_elem_of_In. naive_solver. }
  destruct (find_input n (wf_inputs c)) as [i|] eqn:E; simpl.
  - apply elem_of_list_to_map_1'; [|apply Hin; apply find_input_name in E as [<- Hi]; by exists i].
    intros s (j & Hj & Hn & ->)%Hin. apply find_input_in in Hj; [|done]. congruence.
  - apply not_elem_of_list_to_map_1. intros Hk. apply list_elem_of_fmap in Hk as ([k s] & -> & Hks).
    apply Hin in Hks as (i & Hi & -> & _). apply find_input_in in Hi; [|done]. simpl in E. congruence.
Qed.

Section supplied.
Context `{JsonText}.
Variable parse_f64 : string -> option number.

Lemma supply_texts schemas n schema given l : schemas !! n = Some schema -> (forall v, (n, v) ∈ l -> given = Some v) -> forall m,
  (m !! n = option_map (fun v => coerce_cli_value parse_f64 v schema) given \/ m !! n = None /\ forall v, given = Some v -> (n, v) ∈ l) ->
  foldl (supply_text parse_f64 schemas) m l !! n = option_map (fun v => coerce_cli_value parse_f64 v schema) given.
Proof.
  intros Hs. induction l as [|[k w] l IH]; intros Hg m Hm; simpl.
  - destruct Hm as [Hm|[Hm Hn]]; [done|]. destruct given as [v|]; [|done]. specialize (Hn v eq_refl). by apply not_elem_of_nil in Hn.
  - apply IH; [intros v Hv; apply Hg; by constructor|]. unfold supply_text. simpl. destruct (decide (k = n)) as [->|Hne].
    + rewrite Hs, lookup_insert_eq. left. by rewrite (Hg w (list_elem_of_here _ _)).
    + assert (Hk : (match schemas !! k with Some s => <[k := coerce_cli_value parse_f64 w s]> m | None => m end) !! n = m !! n).
      { destruct (schemas !! k); [by rewrite lookup_insert_ne|done]. }
      rewrite Hk. destruct Hm as [Hm|[Hm Hn]]; [by left|]. right. split; [done|]. intros v Hv. specialize (Hn v Hv).
      apply elem_of_cons in Hn as [[=]|Hn]; [congruence|done].
Qed.

(** A key of the body takes the place of a text; the last one, were it there twice. *)
Lemma obj_get_app k l1 l2 : obj_get k (l1 ++ l2) = match obj_get k l1 with Some v => Some v | None => obj_get k l2 end.
Proof. induction l1 as [|[k' v] l1 IH]; simpl; [done|]. by destruct (String.eqb k k'). Qed.

Lemma obj_get_given k l : is_Some (obj_get k l) <-> exists v, (k, v) ∈ l.
Proof.
  induction l as [|[k' w] l IH]; simpl; [split; [by intros [? [=]]|by intros [v ?%not_elem_of_nil]]|]. setoid_rewrite elem_of_cons.
  destruct (String.eqb_spec k k') as [->|Hne]; [split; [intros _; exists w; by left|by eexists]|]. rewrite IH. naive_solver.
Qed.

Lemma supply_jsons schemas n o m : is_Some (schemas !! n) ->
  foldl (supply_json schemas) m o !! n = match obj_get n (rev o) with Some v => Some v | None => m !! n end.
Proof.
  intros Hs. revert m. induction o as [|[k w] o IH]; intros m; simpl; [done|]. rewrite IH, obj_get_app. destruct (obj_get n (rev o)); [done|].
  unfold supply_json. simpl. destruct (String.eqb_spec n k) as [->|Hne]; [rewrite bool_decide_true by done; apply lookup_insert_eq|].
  case_bool_decide; [by rewrite lookup_insert_ne|done].
Qed.

Lemma or_inserts names m n : foldl (fun m f => or_insert m (field_name f) Null) m names !! n =
  match m !! n with Some v => Some v | None => if bool_decide (n ∈ map field_name names) then Some Null else None end.
Proof.
  revert m. induction names as [|f names IH]; intros m; simpl; [by destruct (m !! n)|]. rewrite IH. unfold or_insert.
  destruct (decide (field_name f = n)) as [<-|Hne].
  - rewrite (bool_decide_true (_ ∈ _ :: _)) by constructor. destruct (m !! field_name f) as [v|] eqn:E; [by rewrite E|]. by rewrite lookup_insert_eq.
  - assert (Hb : bool_decide (n ∈ field_name f :: map field_name names) = bool_decide (n ∈ map field_name names)).
    { apply bool_decide_ext. rewrite elem_of_cons. naive_solver. }
    rewrite Hb. destruct (m !! field_name f); [done|]. by rewrite lookup_insert_ne.
Qed.

(** Which inputs the texts supply. *)
Lemma supply_texts_some schemas n l m :
  is_Some (foldl (supply_text parse_f64 schemas) m l !! n) <-> is_Some (m !! n) \/ is_Some (schemas !! n) /\ exists v, (n, v) ∈ l.
Proof.
  revert m. induction l as [|[k w] l IH]; intros m; simpl; [split; [by left|intros [Hm|(_ & v & Hv)]; [done|by apply not_elem_of_nil in Hv]]|].
  rewrite IH. unfold supply_text. simpl. setoid_rewrite elem_of_cons. destruct (decide (k = n)) as [->|Hne].
  - destruct (schemas !! n) as [s|] eqn:Es.
    + rewrite lookup_insert_eq. split; [intros _; right; split; [done|]; exists w; by left|by left].
    + split; [intros [Hm|[Hs _]]; [by left|by apply is_Some_None in Hs]|intros [Hm|[Hs _]]; [by left|by apply is_Some_None in Hs]].
  - assert (Hk : (match schemas !! k with Some s => <[k := coerce_cli_value parse_f64 w s]> m | None => m end) !! n = m !! n).
    { destruct (schemas !! k); [by rewrite lookup_insert_ne|done]. }
    rewrite Hk. naive_solver.
Qed.

(** ** The inputs of a command's arguments *)

Section command.
Context (op : OperationSchema) (arg : string -> option string) (f : GlobalFlags) (format : OutputFormat) (service : string) (body : option value).
Local Notation r := (build_command_request op arg f format service body).

Definition argument_texts : list (string * string) :=
  entries (path_params r) ++ entries (query_params r) ++ entries (header_params r) ++ entries (form_params r).

Lemma argument_texts_elem n v : (n, v) ∈ argument_texts <->
  exists l, l <> InBody /\ arguments_at l (foldl (add_argument arg) (mk_argument_params ∅ ∅ ∅ ∅) (parameters op)) !! n = Some v.
Proof.
  unfold argument_texts. rewrite !elem_of_app, !entries_elem. split.
  - intros [Hv|[Hv|[Hv|Hv]]]; [exists InPath|exists InQuery|exists InHeader|exists InFormData]; done.
  - intros (l & Hl & Hv). destruct l; simpl in Hv; tauto.
Qed.

Lemma argument_texts_given n : (exists v, (n, v) ∈ argument_texts) <-> exists p, p ∈ non_body op /\ param_name p = n /\ is_Some (arg n).
Proof.
  setoid_rewrite argument_texts_elem. split.
  - intros (v & l & Hl & (Ha & p & Hp & Hn & Hpl)%arguments_given); [|done]. exists p. split; [|split; [done|by exists v]].
    apply list_elem_of_In, List.filter_In. split; [by apply list_elem_of_In|]. rewrite Hpl. by apply negb_true_iff, bool_decide_eq_false.
  - intros (p & [Hp%list_elem_of_In Hl%negb_true_iff%bool_decide_eq_false]%list_elem_of_In%List.filter_In & <- & v & Hv).
    exists v, (param_location p). split; [done|]. by apply arguments_taken.
Qed.

(** What the command says of a parameter: the value of a key of its name in the body, or else
    that of its flag, converted by its schema; with a body, a field of it that is in neither is
    [null]. *)
Definition said (p : ParameterSchema) : option value :=
  match (b ← body; o ← as_object b; obj_get (param_name p) (rev o)) with
  | Some v => Some v
  | None =>
      match arg (param_name p) with
      | Some s => Some (coerce_cli_value parse_f64 s (Some (parameter_schema_value p)))
      | None => if bool_decide (is_Some body /\ param_name p ∈ map field_name (request_fields op)) then Some Null else None
      end
  end.

(** Whether it says anything of an input: a flag of a parameter, a key of the body, or any body
    for a field of the body. *)
Definition is_given (n : string) : Prop :=
  (exists p, p ∈ non_body op /\ param_name p = n /\ is_Some (arg n)) \/
  (exists o v, body = Some (Object o) /\ (n, v) ∈ o) \/
  (is_Some body /\ n ∈ map field_name (request_fields op)).

Section inputs.
Context (c : CompiledWorkflow) (schema : ServiceSchema) (Hfind : find_operation schema (op_id op) = Some op).
Context (Hnd : NoDup (map in_name (wf_inputs c))) (Hi : forall n, find_input n (wf_inputs c) = input_of op n).

Lemma declared_schema n : is_Some (input_of op n) -> is_Some (input_schemas c !! n).
Proof. intros [i Hn]. rewrite input_schemas_find, Hi, Hn by done. by eexists. Qed.

Lemma pre_supplied_said p : NoDup (map param_name (non_body op)) -> p ∈ non_body op -> pre_supplied parse_f64 c schema r !! param_name p = said p.
Proof.
  intros Hnp Hp. destruct (input_of_parameter op p Hnp Hp) as (i & Hin & Hs & _).
  assert (Hschema : input_schemas c !! param_name p = Some (Some (parameter_schema_value p))).
  { rewrite input_schemas_find, Hi, Hin by done. simpl. by rewrite Hs. }
  assert (Ht : foldl (supply_text parse_f64 (input_schemas c)) ∅ argument_texts !! param_name p =
    option_map (fun v => coerce_cli_value parse_f64 v (Some (parameter_schema_value p))) (arg (param_name p))).
  { apply supply_texts; [done| |].
    - intros v (l & Hl & Hv)%argument_texts_elem. by apply arguments_given in Hv as [Hv _].
    - right. split; [done|]. intros v Hv. apply argument_texts_elem. apply list_elem_of_In, List.filter_In in Hp as [Hp%list_elem_of_In Hl%negb_true_iff%bool_decide_eq_false].
      exists (param_location p). split; [done|]. by apply arguments_taken. }
  unfold pre_supplied, cli_flags_matching_workflow_inputs, said. cbv zeta. fold argument_texts. change (req_operation_id r) with (op_id op). rewrite Hfind.
  unfold explicit_json. simpl. destruct body as [b|]; simpl.
  - rewrite or_inserts. assert (Hb : (match b with Object o => foldl (supply_json (input_schemas c)) (foldl (supply_text parse_f64 (input_schemas c)) ∅ argument_texts) o
      | _ => foldl (supply_text parse_f64 (input_schemas c)) ∅ argument_texts end) !! param_name p =
      match (o ← as_object b; obj_get (param_name p) (rev o)) with Some v => Some v
      | None => option_map (fun v => coerce_cli_value parse_f64 v (Some (parameter_schema_value p))) (arg (param_name p)) end).
    { destruct b; simpl; try exact Ht. rewrite supply_jsons by (by rewrite Hschema). by rewrite Ht. }
    rewrite Hb. destruct (o ← as_object b; _) as [v|]; [done|]. destruct (arg (param_name p)); simpl; [done|].
    repeat case_bool_decide; naive_solver.
  - rewrite Ht. by destruct (arg (param_name p)).
Qed.

Lemma pre_supplied_given n : is_Some (input_of op n) -> (is_Some (pre_supplied parse_f64 c schema r !! n) <-> is_given n).
Proof.
  intros Hn%declared_schema. unfold pre_supplied, cli_flags_matching_workflow_inputs, is_given. cbv zeta. fold argument_texts.
  change (req_operation_id r) with (op_id op). rewrite Hfind. rewrite <- argument_texts_given. unfold explicit_json. simpl.
  assert (Ht : is_Some (foldl (supply_text parse_f64 (input_schemas c)) ∅ argument_texts !! n) <-> exists v, (n, v) ∈ argument_texts).
  { rewrite supply_texts_some, lookup_empty. split; [intros [[? ?]|[_ Hv]]; done|by right]. }
  destruct body as [b|]; simpl.
  - rewrite or_inserts. assert (Hb : is_Some ((match b with Object o => foldl (supply_json (input_schemas c)) (foldl (supply_text parse_f64 (input_schemas c)) ∅ argument_texts) o
      | _ => foldl (supply_text parse_f64 (input_schemas c)) ∅ argument_texts end) !! n) <->
      (exists v, (n, v) ∈ argument_texts) \/ exists o v, Some b = Some (Object o) /\ (n, v) ∈ o).
    { rewrite <- Ht. destruct b; simpl; try (split; [by left|intros [Hv|(? & ? & [=] & _)]; done]). rewrite supply_jsons by done.
      assert (Hg : is_Some (obj_get n (rev l)) <-> exists v, (n, v) ∈ l) by (rewrite obj_get_given; by setoid_rewrite list_elem_of_In; setoid_rewrite <- in_rev).
      destruct (obj_get n (rev l)) as [v|]; [split; [intros _; right; destruct Hg as [Hg _]; destruct Hg as [w Hw]; [by eexists|by exists l, w]|done]|].
      split; [by left|]. intros [Hv|(o & v & [= <-] & Hv)]; [done|]. destruct Hg as [_ Hg]. destruct Hg as [? [=]]. by exists v. }
    rewrite <- Logic.or_assoc, <- Hb. clear Hb Ht. generalize ((match b with Object o => foldl (supply_json (input_schemas c)) (foldl (supply_text parse_f64 (input_schemas c)) ∅ argument_texts) o
      | _ => foldl (supply_text parse_f64 (input_schemas c)) ∅ argument_texts end) !! n). intros [v|]; [split; [by left|by eexists]|].
    case_bool_decide as Hf; (split; [intros Hsome|intros [Hsome|[_ Hin]]]); try done; try (by destruct Hsome); by right.
  - rewrite Ht. split; [by left|]. intros [Hv|[(? & ? & [=] & _)|[[? [=]] _]]]; done.
Qed.
End inputs.
End command.
End supplied.

(** * The prepared run *)

Section prepared.
Context `{JsonText, UnicodeCase}.
Variable parse_f64 : string -> option number.
Context (schema : ServiceSchema) (op : OperationSchema) (catalogue : string -> result ServiceSchema RuntimeError).
Context (service : string) (arg : string -> option string) (f : GlobalFlags) (format : OutputFormat) (body : option value).
Context (ctx : FrontendContext) (execution : ExecutionContext) (source : Repository.SpecSource) (path : string).
Context (Hop : find_operation schema (op_id op) = Some op) (Hcat : catalogue service = Ok schema).

Local Notation r := (build_command_request op arg f format service body).
Local Notation command := (mk_parsed service r source schema path).

Record prepared (run : ServiceRun) (step : CompiledStep) : Prop := {
  pr_params : NoDup (map param_name (non_body op));
  pr_inputs_nodup : NoDup (map in_name (wf_inputs (sr_compiled run)));
  pr_inputs n : find_input n (wf_inputs (sr_compiled run)) = input_of op n;
  pr_steps : wf_steps (sr_compiled run) = [step];
  pr_bindings : step_inputs step = [];
  pr_operation : step_operation step = Some (mk_op_ref service (op_id op));
  pr_derived : map auto_field (auto_derived step) = required_names op;
  pr_scopes g : g ∈ auto_derived step -> auto_scope g = ScopeInput (auto_field g);
  pr_supplied : sr_supplied run = pre_supplied parse_f64 (sr_compiled run) schema r;
  pr_options : sr_options run = service_options f ctx r;
  pr_offered : allows_input ctx = true \/ missing_inputs (sr_compiled run) (sr_supplied run) = []
}.

Lemma prepare_inv run : prepare_service_run parse_f64 catalogue f ctx execution command = Ok run -> exists step, prepared run step.
Proof.
  intros Hr. unfold prepare_service_run in Hr. cbn [pc_request pc_service_id pc_schema pc_spec_source] in Hr.
  change (req_operation_id r) with (op_id op) in Hr.
  destruct (synthesise_spec service (op_id op) schema op Hop) as [_ Hdup].
  pose proof (synthesised_compiles service (op_id op) schema op catalogue Hop Hcat) as Hok.
  destruct (decide (NoDup (map param_name (non_body op)))) as [Hnd|Hnd].
  2: { destruct (Hdup Hnd) as (n & Hs). by rewrite Hs in Hr. }
  destruct (Hok Hnd) as (d & c & step & Hs & Hc & Hin & Hf & Hst & Hb & Ho & Hd & Hsc). rewrite Hs in Hr. cbn [map_err result_bind] in Hr. rewrite Hc in Hr.
  cbn [map_err result_bind] in Hr. exists step.
  destruct (reject_if_inputs_unavailable _ _ _ _ _) as [[]|e] eqn:Erej; [|done]. cbn [result_bind] in Hr. injection Hr as <-. split; try done.
  cbn [sr_compiled sr_supplied]. unfold reject_if_inputs_unavailable in Erej. destruct (allows_input ctx); [by left|right].
  destruct (sort_by String.leb (map in_name (missing_inputs c (pre_supplied parse_f64 c schema r)))) as [|n l] eqn:Esort; [|done].
  destruct (missing_inputs c (pre_supplied parse_f64 c schema r)) as [|i m] eqn:Em; [done|]. exfalso.
  assert (in_name i ∈ @nil string) as ?%not_elem_of_nil; [|done]. rewrite <- Esort, sort_by_perm. constructor.
Qed.

(** A required field whose input is not missing is supplied. *)
Lemma required_supplied run step n : prepared run step -> missing_inputs (sr_compiled run) (sr_supplied run) = [] -> n ∈ required_names op ->
  is_Some (sr_supplied run !! n).
Proof.
  intros Hp Hm Hn. destruct (required_has_input op n Hn) as [i Hi]. pose proof (required_input op n i (pr_params _ _ Hp) Hn Hi) as Hr.
  rewrite <- (pr_inputs _ _ Hp) in Hi. apply find_input_name in Hi as [<- Hin].
  destruct (decide (is_Some (sr_supplied run !! in_name i))) as [|Hno]; [done|]. exfalso.
  assert (i ∈ missing_inputs (sr_compiled run) (sr_supplied run)) as Hi; [|rewrite Hm in Hi; by apply not_elem_of_nil in Hi].
  apply list_elem_of_In, List.filter_In. split; [by apply list_elem_of_In|]. by rewrite Hr, bool_decide_false.
Qed.

Lemma required_given run step n : prepared run step -> missing_inputs (sr_compiled run) (sr_supplied run) = [] -> n ∈ required_names op -> is_given op arg body n.
Proof.
  intros Hp Hm Hn. pose proof (required_supplied run step n Hp Hm Hn) as Hs. rewrite (pr_supplied _ _ Hp) in Hs.
  by apply (pre_supplied_given parse_f64 op arg f format service body _ schema Hop (pr_inputs_nodup _ _ Hp) (pr_inputs _ _ Hp) n (required_has_input op n Hn)).
Qed.

(** A command that is refused for its inputs is refused for those it does not give. *)
Lemma refused_missing e : NoDup (map param_name (non_body op)) -> prepare_service_run parse_f64 catalogue f ctx execution command = Err e ->
  exists missing hints, e = CliUsage (missing_message missing) hints /\ missing <> [] /\ forall n, n ∈ missing <-> n ∈ required_names op /\ ~ is_given op arg body n.
Proof.
  intros Hnd Hr. unfold prepare_service_run in Hr. cbn [pc_request pc_service_id pc_schema pc_spec_source] in Hr. change (req_operation_id r) with (op_id op) in Hr.
  destruct (synthesised_compiles service (op_id op) schema op catalogue Hop Hcat Hnd) as (d & c & step & Hs & Hc & Hin & Hf & _).
  rewrite Hs in Hr. cbn [map_err result_bind] in Hr. rewrite Hc in Hr. cbn [map_err result_bind] in Hr. unfold reject_if_inputs_unavailable in Hr.
  destruct (allows_input ctx); [done|].
  destruct (sort_by String.leb (map in_name (missing_inputs c (pre_supplied parse_f64 c schema r)))) as [|m l] eqn:El; [done|].
  cbn [result_bind] in Hr. injection Hr as <-. exists (m :: l). eexists. split; [reflexivity|]. split; [done|]. intros n. rewrite <- El, sort_by_perm.
  rewrite list_elem_of_fmap. split.
  - intros (i & -> & [Hin' [Hreq Hno%negb_true_iff%bool_decide_eq_false]%andb_true_iff]%list_elem_of_In%List.filter_In).
    apply list_elem_of_In in Hin'. pose proof (find_input_in _ _ Hin Hin') as Hi. rewrite Hf in Hi. split; [by eapply input_required|].
    by rewrite <- (pre_supplied_given parse_f64 op arg f format service body c schema Hop Hin Hf) by (by eexists).
  - intros [Hreq Hno]. destruct (required_has_input op n Hreq) as [i Hi]. pose proof (required_input op n i Hnd Hreq Hi) as Hir.
    rewrite <- (pre_supplied_given parse_f64 op arg f format service body c schema Hop Hin Hf) in Hno by (by eexists).
    rewrite <- Hf in Hi. apply find_input_name in Hi as [<- Hi]. exists i. split; [done|]. apply list_elem_of_In, List.filter_In.
    split; [by apply list_elem_of_In|]. by rewrite Hir, bool_decide_false.
Qed.

Lemma nothing_needed run step : prepared run step -> missing_inputs (sr_compiled run) (sr_supplied run) = [] ->
  compute_needed_inputs step (sr_supplied run) (wf_inputs (sr_compiled run)) = [].
Proof.
  intros Hp Hm. unfold compute_needed_inputs, visit_binding_workflow_inputs. rewrite (pr_bindings _ _ Hp). simpl.
  assert (Hall : forall g, g ∈ auto_derived step -> is_Some (sr_supplied run !! auto_field g)).
  { intros g Hg. apply (required_supplied run step); [done..|]. rewrite <- (pr_derived _ _ Hp). by apply (list_elem_of_fmap_2 auto_field). }
  assert (Hs := pr_scopes _ _ Hp). revert Hall Hs. generalize (auto_derived step) as l. clear. intros l Hall Hs.
  assert (foldl (push_auto step (wf_inputs (sr_compiled run)) (sr_supplied run)) ([], ∅) l = ([], ∅)) as ->; [|done].
  induction l as [|g l IH]; [done|]. simpl. unfold push_auto at 2. rewrite (Hs g) by constructor. unfold push_missing.
  rewrite decide_True by (apply Hall; constructor). apply IH; intros h Hh; [apply Hall|apply Hs]; by constructor.
Qed.


(** ** The request *)

Lemma field_value run step wctx n : prepared run step ->
  resolve_field_value (mk_values step wctx (sr_supplied run) ∅) (build_ctx_of step (wf_inputs (sr_compiled run))) n =
    Ok (if bool_decide (n ∈ map in_name (wf_inputs (sr_compiled run))) then sr_supplied run !! n else None).
Proof.
  intros Hp. unfold resolve_field_value. cbn [sv_local sv_supplied]. rewrite lookup_empty. unfold build_ctx_of, bindings_by_field. rewrite (pr_bindings _ _ Hp). simpl.
  rewrite lookup_empty. case_bool_decide as H1; case_bool_decide as H2; try done; exfalso; rewrite elem_of_list_to_set in H1; done.
Qed.

Lemma input_declared run step n : prepared run step -> is_Some (input_of op n) -> n ∈ map in_name (wf_inputs (sr_compiled run)).
Proof.
  intros Hp [i Hi]. rewrite <- (pr_inputs _ _ Hp) in Hi. apply find_input_name in Hi as [<- Hi]. by apply (list_elem_of_fmap_2 in_name).
Qed.

Lemma fold_total {A B E} (g : B -> A -> result B E) l acc : (forall x acc, x ∈ l -> exists acc', g acc x = Ok acc') -> exists acc', result_fold g l acc = Ok acc'.
Proof.
  revert acc. induction l as [|x l IH]; intros acc Hg; simpl; [by eexists|]. destruct (Hg x acc) as [acc' ->]; [constructor|].
  apply IH. intros y a Hy. apply Hg. by constructor.
Qed.

Section assembled.
Context (run : ServiceRun) (step : CompiledStep) (wctx : WorkflowContext) (Hp : prepared run step).
Context (Hm : missing_inputs (sr_compiled run) (sr_supplied run) = []).

Local Notation sv := (mk_values step wctx (sr_supplied run) ∅).
Local Notation bc := (build_ctx_of step (wf_inputs (sr_compiled run))).

Lemma required_value n : n ∈ required_names op -> exists v, resolve_field_value sv bc n = Ok (Some v).
Proof.
  intros Hn. rewrite field_value by done. rewrite bool_decide_true by (apply input_declared with step; [done|by apply required_has_input]).
  by destruct (required_supplied run step n Hp Hm Hn) as [v ->]; exists v.
Qed.

Lemma params_total : exists ps, resolve_non_body_params sv bc op = Ok ps.
Proof.
  apply fold_total. intros p acc Hin. unfold add_param. rewrite field_value by done. cbn [result_bind].
  assert (Hreq : param_location p <> InBody -> param_required p = true -> exists v, resolve_field_value sv bc (param_name p) = Ok (Some v)).
  { intros Hl Hr. apply required_value. apply elem_of_app. left. apply (list_elem_of_fmap_2 param_name).
    apply list_elem_of_In, List.filter_In. split; [by apply list_elem_of_In|]. by rewrite Hr, bool_decide_false. }
  rewrite field_value in Hreq by done. destruct (if bool_decide _ then _ else None) as [v|]; [by destruct (param_location p); eexists|].
  destruct (param_location p); try (by eexists); destruct (param_required p); try (by eexists); by destruct Hreq as [v Hv].
Qed.

Lemma body_total : exists o, gather_body sv bc op = Ok o.
Proof.
  unfold gather_body. destruct (fold_total (add_body_field sv bc) (request_fields op) []) as [top Htop].
  { intros g acc Hg. unfold add_body_field. destruct (field_required g) eqn:Er.
    - destruct (required_value (field_name g)) as [v ->]; [|by eexists]. apply elem_of_app. right. apply (list_elem_of_fmap_2 field_name).
      unfold required_body_fields. unfold request_fields in Hg. destruct (request_body op); [|by apply not_elem_of_nil in Hg].
      apply list_elem_of_In, List.filter_In. split; [by apply list_elem_of_In|done].
    - rewrite field_value by done. cbn [result_bind]. destruct (if bool_decide _ then _ else None); by eexists. }
  rewrite Htop. cbn [result_bind sv_step]. rewrite (pr_bindings _ _ Hp). cbn. by eexists.
Qed.

Lemma no_form_parts files : (forall p, p ∈ parameters op -> param_location p <> InFormData) -> resolve_form_data_params files sv bc op = Ok None.
Proof.
  intros Hf. unfold resolve_form_data_params. assert (result_fold (add_form_part files sv bc) (parameters op) [] = Ok []) as ->; [|done].
  revert Hf. generalize (parameters op). induction l as [|p l IH]; intros Hf; [done|]. simpl. unfold add_form_part at 1.
  rewrite bool_decide_false by (apply Hf; constructor). simpl. apply IH. intros q Hq. apply Hf. by constructor.
Qed.
End assembled.

(** The parameters of a request at a location. *)
Definition request_params (l : StepFieldLocation) (q : CommandRequest) : gmap string string :=
  match l with LPath => path_params q | LQuery => query_params q | LHeader => header_params q | LBody | LFormData => ∅ end.

End prepared.

(** * Selecting a contract *)

Lemma parse_version_show v : 0 <= v <= u32_max -> parse_version (show_version v) = Some v.
Proof. intros Hv. unfold parse_version, show_version. simpl. by rewrite parse_show_int. Qed.

(** What [resolve] chooses, exactly: the contract of the scope and version that are asked
    for, or of the defaults. *)
Definition chosen (m : MethodSchema) (explicit_scope explicit_version : option string) (k : ResolvedContract) : Prop :=
  match explicit_scope with Some s => rc_scope k = s | None => default_scope m = Some (rc_scope k) end /\
  exists e, e ∈ scopes m /\ Catalogue.scope e = rc_scope k /\ rc_operation k ∈ contracts e /\ api_version (rc_operation k) = rc_version k /\
    match explicit_version with Some raw => parse_version raw = Some (rc_version k) | None => rc_version k = default_version e end.

Lemma find_scope m e : wf_method m -> e ∈ scopes m -> List.find (fun s => String.eqb (Catalogue.scope s) (Catalogue.scope e)) (scopes m) = Some e.
Proof.
  intros Hwf He. apply find_unique; [|done|apply String.eqb_refl]. intros e' He' Hs%String.eqb_eq.
  by apply (named_once Catalogue.scope (scopes m)); [apply (wf_scopes m Hwf)| | |].
Qed.

Lemma find_contract e c : wf_scope e -> c ∈ contracts e -> List.find (fun c' => api_version c' =? api_version c) (contracts e) = Some c.
Proof.
  intros Hwf Hc. apply find_unique; [|done|apply Z.eqb_refl]. intros c' Hc' Hv%Z.eqb_eq.
  by apply (named_once api_version (contracts e)); [apply (wf_contracts e Hwf)| | |].
Qed.

Lemma resolve_exact command m es ev k : wf_method m -> resolve command m es ev = Ok k <-> chosen m es ev k.
Proof.
  intros Hwf. unfold resolve, chosen. rewrite bind_Ok. setoid_rewrite bind_Ok. split.
  - intros (n & Hn & e & He & Hr). apply ok_or_Ok, List.find_some in He as [He%list_elem_of_In Hs%String.eqb_eq].
    apply bind_Ok in Hr as (v & Hv & Hr). apply bind_Ok in Hr as (c & Hc & Hr). injection Hr as <-.
    apply ok_or_Ok, List.find_some in Hc as [Hc%list_elem_of_In Hcv%Z.eqb_eq]. cbn [rc_scope rc_version rc_operation]. split.
    + destruct es as [s|]; [by injection Hn as <-|]. by apply ok_or_Ok in Hn.
    + exists e. split; [done|]. split; [done|]. split; [done|]. split; [done|]. destruct ev as [raw|]; [by apply ok_or_Ok in Hv|by injection Hv as <-].
  - intros [Hs (e & He & Hes & Hc & Hcv & Hv)]. exists (rc_scope k). split.
    { destruct es as [s|]; [by rewrite Hs|by rewrite Hs]. }
    exists e. split; [rewrite <- Hes; by rewrite (find_scope m e Hwf He)|]. apply bind_Ok. exists (rc_version k). split.
    { destruct ev as [raw|]; [by rewrite Hv|by rewrite Hv]. }
    rewrite <- Hcv, (find_contract e _ (wf_each_scope m Hwf e He) Hc). simpl. rewrite Hcv. by destruct k.
Qed.

Section reach.
Context `{HashOrder, UnicodeCase}.

(** No method of the resource had the name before. *)
Definition not_former (service : string) (r : ResourceSchema) (name : string) : Prop :=
  forall m, m ∈ methods r -> name ∉ former_method_names service (resource_name r) (method_name m).

Lemma find_method_named service r m : wf_resource r -> m ∈ methods r -> not_former service r (method_name m) -> find_method service r (method_name m) = Some m.
Proof.
  intros Hwf Hm Hf. apply find_unique; [|done|unfold answers_to; by rewrite String.eqb_refl].
  intros m' Hm' [Hn%String.eqb_eq|(n & Hn%list_elem_of_In & He%String.eqb_eq)%existsb_exists]%orb_true_iff.
  - by apply (named_once method_name (methods r)); [apply (wf_methods r Hwf)| | |].
  - subst n. by destruct (Hf m' Hm').
Qed.

Lemma live_version spec path name op p : parsed_from spec path name op p -> 0 <= po_api_version p <= u32_max.
Proof.
  intros (_ & _ & Hp). unfold parse_operation in Hp. destruct (so_x_operation_id op ≫= non_empty); [|done]. cbn [mbind option_bind] in Hp.
  destruct (split_char _ _) as [|s0 [|scp [|rsc [|ver [|meth [|]]]]]]; try done. destruct (String.eqb rsc "internal"); [done|].
  destruct (parse_api_version ver) as [v|] eqn:Ev; [|done]. cbn [mbind option_bind] in Hp. destruct (parse_http_method _); [|done].
  apply (inj Some) in Hp as <-. by apply parse_unsigned_range in Ev.
Qed.

(** [C30] Every live operation of an API document is reached from the command line: its
    resource and method name it, with [--api-scope] and [--api-version] of its contract, and the
    id of the request leads the executor to the same operation again. Of several live operations
    of the same resource, method, scope and version one is reached in their place. This is for a
    method whose name is not a former name of another method of its resource. *)
Theorem commands_reach_operations service spec path name op p : parsed_from spec path name op p ->
  (forall r, r ∈ resources (parse_spec service spec) -> not_former service r (po_method_name p)) ->
  exists r q, find_resource (parse_spec service spec) (po_resource p) = Some r /\
    q ∈ spec_operations spec /\ po_contract q = po_contract p /\ (distinct_contracts spec -> q = p) /\
    resolve_method service r (po_method_name p) (mk_selectors (Some (po_scope p)) (Some (show_version (po_api_version p)))) =
      Ok (mk_contract (po_scope p) (po_api_version p) (po_schema q)) /\
    find_operation (parse_spec service spec) (op_id (po_schema q)) = Some (po_schema q).
Proof.
  intros Hp Hf. assert (Hpin : p ∈ spec_operations spec) by (apply spec_operations_elem; by exists path, name, op).
  destruct (live_row service spec p Hpin) as (q & alt & Hq & Hk & Hrow). pose proof Hrow as Hfind. injection Hk as Hkr Hkm Hks Hkv.
  destruct (proj1 (spec_operations_elem spec q) Hq) as (qpath & qname & qop & Hqp).
  destruct (parsed_contract _ _ _ _ _ Hqp) as (_ & Hname & Hscope & Hver & _). rewrite Hkm in Hname. rewrite Hks in Hscope. rewrite Hkv in Hver.
  pose proof (service_wf service spec) as Hwf. unfold contract_rows in Hrow.
  apply list_elem_of_bind in Hrow as (r & Hrow & Hr). apply list_elem_of_bind in Hrow as (m & Hrow & Hm).
  apply list_elem_of_bind in Hrow as (e & Hrow & He). apply list_elem_of_bind in Hrow as (c & Hrow & Hc).
  apply list_elem_of_singleton in Hrow. injection Hrow as Hres <- _. exists r, q.
  assert (Hwr := wf_each_resource _ Hwf r Hr). assert (Hwm := wf_each_method r Hwr m Hm). assert (Hws := wf_each_scope m Hwm e He).
  assert (Hn : method_name m = po_method_name p) by (by rewrite <- (wf_in_method m Hwm e _ He Hc)).
  assert (Hs : Catalogue.scope e = po_scope p) by (by rewrite <- (wf_in_scope e Hws _ Hc)).
  split.
  { rewrite Hres. apply find_unique; [|done|apply String.eqb_refl]. intros r' Hr' Hn'%String.eqb_eq.
    by apply (named_once resource_name (resources (parse_spec service spec))); [apply (wf_resources _ Hwf)| | |]. }
  split; [exact Hq|]. split; [unfold po_contract; congruence|]. split; [intros Hd; apply (operations_distinct spec); [done..|unfold po_contract; congruence]|]. split.
  - unfold resolve_method. rewrite <- Hn, (find_method_named service r m Hwr Hm) by (rewrite Hn; by apply Hf). cbn [ok_or result_bind api_scope sel_version].
    rewrite (proj2 (resolve_exact _ m _ _ (mk_contract (po_scope p) (po_api_version p) (po_schema q)) Hwm)); [done|].
    split; [done|]. exists e. split; [done|]. split; [done|]. split; [done|]. split; [done|]. apply parse_version_show. by eapply live_version.
  - rewrite <- lookup_find. unfold lookup_operation. destruct (List.find _ _) as [[[r' c'] alt']|] eqn:El.
    + apply List.find_some in El as [Hin%list_elem_of_In Hid%String.eqb_eq]. simpl in *. f_equal. by eapply same_id_same_row.
    + apply list_elem_of_In in Hfind. pose proof (List.find_none _ _ El _ Hfind) as Hno. simpl in Hno. by rewrite String.eqb_refl in Hno.
Qed.
End reach.

(** * Examples *)

Section example.
#[local] Instance command_json : JsonText := bits_json_text.
#[local] Instance command_case : UnicodeCase := ascii_case.
#[local] Instance command_order : HashOrder := order_example.

(** An update of an item: its id in the path, and a page size in the query. *)
Definition update_item (fields : list BodyField) : OperationSchema :=
  mk_operation "shop/admin/items/v1/update" "update" EmptyString None Mutating Put "/items/{id}"
    [mk_parameter "id" InPath true VString false None None; mk_parameter "limit" InQuery false VInteger false None None]
    (Some (mk_body_schema "Item" fields false None)) None [] "admin" 1 false None.

Definition note_field : BodyField := mk_body_field "note" FString true None [] None.
Definition id_field : BodyField := mk_body_field "id" FString false None [] None.

Definition shop (fields : list BodyField) : ServiceSchema :=
  mk_service "shop" EmptyString [mk_resource "items" EmptyString
    [mk_method "update" EmptyString (Some "admin") [mk_scope "admin" 1 [update_item fields]]]].

Definition item_args (id limit : option string) (n : string) : option string :=
  if String.eqb n "id" then id else if String.eqb n "limit" then limit else None.

Definition script_context : FrontendContext := Surface.mk_context Automation (mk_policy false false false) (mk_terminal false false false true) UiAuto.

Definition no_context : ExecutionContext := mk_execution_context "dev" ProfileFlag None None "https://x" UrlEnvironment "t" TokenStored None [].

Definition item_command (fields : list BodyField) (args : string -> option string) (body : option value) : ParsedServiceCommand :=
  mk_parsed "shop" (build_command_request (update_item fields) args default_flags JsonFormat "shop" body) Repository.FromCache (shop fields) EmptyString.

Definition prepare_item (fields : list BodyField) (args : string -> option string) (body : option value) : result ServiceRun CliError :=
  prepare_service_run (fun _ => None) (fun _ => Ok (shop fields)) default_flags script_context no_context (item_command fields args body).

(** The path parameter and the body that are sent. *)
Definition sent_item (fields : list BodyField) (args : string -> option string) (body : option value) : option (option string * option RequestBody) :=
  match prepare_item fields args body with
  | Ok run =>
      step ← head (wf_steps (sr_compiled run));
      match assemble_command_request (fun _ => None) None step WorkflowContext_new (sr_supplied run) ∅ (wf_inputs (sr_compiled run)) (shop fields) (sr_options run) with
      | Ok sent => Some (path_params sent !! "id", req_body sent)
      | Err _ => None
      end
  | Err _ => None
  end.

Definition with_note : value := Object [("note", Str "new")].

(** A run of the update with its id, a limit and a body. *)
Definition item_run : ServiceRun := Eval vm_compute in
  match prepare_item [note_field] (item_args (Some "5") (Some "010")) (Some with_note) with
  | Ok run => run
  | Err _ => mk_service_run (mk_workflow EmptyString EmptyString None None None [] true [] [] None) ∅ (service_options default_flags script_context (build_command_request (update_item []) (fun _ => None) default_flags JsonFormat EmptyString None)) script_context None
  end.

Lemma item_run_prepared : prepare_item [note_field] (item_args (Some "5") (Some "010")) (Some with_note) = Ok item_run.
Proof. by vm_compute. Qed.



Lemma commands_reach_operations_witness : exists r p, find_resource (parse_spec "iam" sample_spec) "users" = Some r /\
  resolve_method "iam" r "list" (mk_selectors (Some "admin") (Some "v3")) = Ok (mk_contract "admin" 3 p) /\
  find_operation (parse_spec "iam" sample_spec) "iam/admin/users/v3/list" = Some p.
Proof.
  pose (listed := ParserProps.sample_operation "iam/admin/users/v3/list" []).
  assert (Hn : option_map (fun p => (po_resource p, po_method_name p, po_scope p, po_api_version p, op_id (po_schema p)))
    (parse_operation sample_spec "/v3/users" "get" listed) = Some ("users", "list", "admin", 3, "iam/admin/users/v3/list")) by by vm_compute.
  destruct (parse_operation sample_spec "/v3/users" "get" listed) as [p|] eqn:Ep; [|done]. injection Hn as H1 H2 H3 H4 H5.
  destruct (commands_reach_operations "iam" sample_spec "/v3/users" "get" listed p) as (r & q & Hr & _ & _ & Hq & Hm & Hf).
  - split; [|by split]. split; [by vm_compute; left|]. eexists. by split; vm_compute.
  - intros r Hr m Hm. by apply not_elem_of_nil.
  - rewrite (Hq sample_distinct) in Hm, Hf.
    exists r, (po_schema p). rewrite H1 in Hr. rewrite H2, H3, H4 in Hm. rewrite H5 in Hf. split_and!; [exact Hr|exact Hm|exact Hf].
Defined.

(** A key of the body with the name of a path parameter takes the place of its flag, whether
    the body has such a field or not. *)
Lemma body_key_overrides_flag :
  sent_item [note_field] (item_args (Some "5") None) (Some (Object [("id", Str "7"); ("note", Str "new")])) =
    Some (Some "7", Some (BodyJson (Object [("id", Str "7"); ("note", Str "new")]))) /\
  sent_item [id_field; note_field] (item_args (Some "5") None) (Some (Object [("id", Str "7"); ("note", Str "new")])) =
    Some (Some "7", Some (BodyJson (Object [("id", Str "7"); ("note", Str "new")]))).
Proof. by vm_compute. Qed.

(** With an explicit body, a required path parameter that shares its name with a body field
    is never missed: without its flag it is sent as the JSON text of [null]. *)
Lemma missing_parameter_sent_as_null :
  sent_item [id_field; note_field] (item_args None None) (Some with_note) = Some (Some (json_to_string Null), Some (BodyJson with_note)) /\
  match prepare_item [note_field] (item_args None None) (Some with_note) with Err e => error_message e = "Missing required input 'id'" | Ok _ => False end.
Proof. by vm_compute. Qed.
End example.
