(* ===== verification/Interrupt.v ===== *)
(** The end of an invocation and Ctrl-C ([invocation/mod.rs]): the command, the task that gathers
    the telemetry context and the handler of the signal, in every interleaving; the event of
    the command, and the exit code. *)

From stdpp Require Import base gmap strings list.
From Stdlib Require Import ZArith Lia Ascii.
From S2P Require Import Prelude Text Results Workflow CliErrors.

(** * Outcomes *)

Inductive InvocationOutcome : Type := Complete | Exit (code : Z) | Cancelled.

Inductive RunOutcome : Type := RunSuccess | RunFailed | RunCancelled.

Definition run_outcome_for (r : result InvocationOutcome CliError) : RunOutcome :=
  match r with Ok Cancelled => RunCancelled | Ok _ => RunSuccess | Err _ => RunFailed end.

Record Outcome : Type := mk_outcome {
  o_status : string;
  o_exit_code : Z;
  o_error_class : option string;
  o_http_status : option Z;
  o_error_code : option string
}.

(** The exit code of the process, for a result. *)
Definition process_code (r : result InvocationOutcome CliError) : Z :=
  match r with Err e => exit_code e | Ok (Exit code) => code | Ok Cancelled => 2 | Ok Complete => 0 end.

Definition telemetry_outcome (r : result InvocationOutcome CliError) : Outcome :=
  let error : option CliError := match r with Err e => Some e | Ok _ => None end in
  mk_outcome (match run_outcome_for r with RunSuccess => "completed" | RunFailed => "failed" | RunCancelled => "cancelled" end) (process_code r)
    (option_map cli_telemetry_class error) (e ← error; m ← error_metadata e; em_http_status m) (e ← error; m ← error_metadata e; em_code m).

Definition INTERRUPT_EXIT_CODE : Z := 130.

Definition interrupt_outcome : Outcome := mk_outcome "cancelled" INTERRUPT_EXIT_CODE None None None.

(** * The process *)

(** The main task: running the command, waiting for the gathering, sending the event, about to
    look for an interrupt, about to exit. *)
Inductive MainTask : Type := Running | Joining | MainSending | Checking | Leaving.

(** The handler: waiting for the signal, then about to note it, to look who owns the signal,
    to take the context, sending its event, about to exit; or waiting for a second signal. *)
Inductive Handler : Type := Waiting | Resolved | Noted | Taking | HandlerSending | HandlerLeaving | WaitingAgain.

Record Process : Type := mk_process {
  main_task : MainTask;
  handler : Handler;
  gathering : bool;
  slot : bool;
  interrupt_requested : bool;
  command_owns : bool;
  events : list Outcome;
  exited : option Z
}.

Section process.
(** The result of the command; whether telemetry is on; whether a context is gathered. *)
Variable outcome : result InvocationOutcome CliError.
Variable telemetry : bool.
Variable context : bool.

Definition start : Process := mk_process Running Waiting telemetry false false false [] None.

Definition should_force_interrupt_exit (p : Process) : bool := interrupt_requested p && negb (command_owns p).

Inductive step : Process -> Process -> Prop :=
(** [publish_interrupt_telemetry]. *)
| step_publish m h s q o ev : step (mk_process m h true s q o ev None) (mk_process m h false (s || context) q o ev None)
(** [declare_command_owns_interrupt_path]. *)
| step_declare h g s q o ev : step (mk_process Running h g s q o ev None) (mk_process Running h g s q true ev None)
| step_finish h g s q o ev : step (mk_process Running h g s q o ev None) (mk_process (if telemetry then Joining else Checking) h g s q o ev None)
(** [finish_self_owned]: the context is taken when the gathering is over. *)
| step_join h s q o ev : step (mk_process Joining h false s q o ev None) (mk_process (if s then MainSending else Checking) h false false q o ev None)
| step_send h g s q o ev : step (mk_process MainSending h g s q o ev None) (mk_process Checking h g s q o (ev ++ [telemetry_outcome outcome]) None)
| step_check h g s q o ev :
    should_force_interrupt_exit (mk_process Checking h g s q o ev None) = false ->
    step (mk_process Checking h g s q o ev None) (mk_process Leaving h g s q o ev None)
| step_interrupted h g s q o ev :
    should_force_interrupt_exit (mk_process Checking h g s q o ev None) = true ->
    step (mk_process Checking h g s q o ev None) (mk_process Checking h g s q o ev (Some INTERRUPT_EXIT_CODE))
| step_leave h g s q o ev : step (mk_process Leaving h g s q o ev None) (mk_process Leaving h g s q o ev (Some (process_code outcome)))
(** [spawn_interrupt_handler]. *)
| step_signal m g s q o ev : step (mk_process m Waiting g s q o ev None) (mk_process m Resolved g s q o ev None)
| step_note m g s q o ev : step (mk_process m Resolved g s q o ev None) (mk_process m Noted g s true o ev None)
| step_look m g s q o ev : step (mk_process m Noted g s q o ev None) (mk_process m (if o then WaitingAgain else Taking) g s q o ev None)
| step_take m g s q o ev : step (mk_process m Taking g s q o ev None) (mk_process m (if s then HandlerSending else HandlerLeaving) g false q o ev None)
| step_flush m g s q o ev : step (mk_process m HandlerSending g s q o ev None) (mk_process m HandlerLeaving g s q o (ev ++ [interrupt_outcome]) None)
(** A second signal during the flush, or for a command that owns the first. *)
| step_cut m g s q o ev : step (mk_process m HandlerSending g s q o ev None) (mk_process m HandlerLeaving g s q o ev None)
| step_force m g s q o ev : step (mk_process m WaitingAgain g s q o ev None) (mk_process m HandlerLeaving g s q o ev None)
| step_quit m g s q o ev : step (mk_process m HandlerLeaving g s q o ev None) (mk_process m HandlerLeaving g s q o ev (Some INTERRUPT_EXIT_CODE)).

Inductive reachable : Process -> Prop :=
| reach_start : reachable start
| reach_step p p' : reachable p -> step p p' -> reachable p'.

(** ** What holds in every interleaving *)

(** The contexts still to be reported: being gathered, in the slot, or being sent. *)
Definition pending (p : Process) : nat :=
  ((if gathering p && context then 1 else 0) + (if slot p then 1 else 0)
  + (match main_task p with MainSending => 1 | _ => 0 end) + (match handler p with HandlerSending => 1 | _ => 0 end))%nat.

Definition after_join (m : MainTask) : bool := match m with MainSending | Checking | Leaving => true | _ => false end.

Definition noted (h : Handler) : bool := match h with Waiting | Resolved => false | _ => true end.

(** The events one command owes: one when a context is gathered for it. *)
Definition due : nat := Nat.b2n (telemetry && context).

Lemma due_le : (due <= 1)%nat.
Proof. unfold due; destruct (telemetry && context); simpl; lia. Qed.

Record process_ok (p : Process) : Prop := {
  at_most_one : (pending p + length (events p) <= due)%nat;
  none_lost : interrupt_requested p = false -> (pending p + length (events p))%nat = due;
  joined : after_join (main_task p) = true -> gathering p = false /\ slot p = false;
  off : telemetry = false -> gathering p = false /\ slot p = false;
  requested : interrupt_requested p = noted (handler p);
  events_of : Forall (fun e => e = telemetry_outcome outcome \/ e = interrupt_outcome /\ interrupt_requested p = true) (events p);
  exit_of : forall code, exited p = Some code ->
    code = process_code outcome /\ main_task p = Leaving \/ code = INTERRUPT_EXIT_CODE /\ interrupt_requested p = true
}.

(** Everything a rule leaves to show, once the invariant of the state before is taken apart. *)
Ltac settle ev :=
  intros; simplify_eq/=;
  try match goal with H : _ && _ = true |- _ => apply andb_true_iff in H as [? ?] end;
  first
    [ done | lia
    | eapply Forall_impl; [exact ev | simpl; intuition idtac]
    | apply Forall_app; split; [exact ev | apply Forall_singleton; tauto]
    | intuition congruence | intuition lia ].

Lemma step_ok p p' : process_ok p -> step p p' -> process_ok p'.
Proof.
  intros [one all join off req ev ex] st; pose proof due_le as d1; destruct context eqn:Ec; destruct st;
    unfold pending, should_force_interrupt_exit in *; rewrite ?Ec in *; simpl in *;
    repeat match goal with
    | |- context [mk_process _ _ _ (?b || _)] => destruct b; simpl in *
    | |- context [mk_process (if ?b then _ else _)] => destruct b eqn:?; simpl in *
    | |- context [mk_process _ (if ?b then _ else _)] => destruct b; simpl in *
    end;
    constructor; unfold pending; rewrite ?Ec; simpl; rewrite ?length_app; simpl.
  all: settle ev.
Qed.

Lemma reachable_ok p : reachable p -> process_ok p.
Proof.
  induction 1 as [|p p' _ IH st]; [|exact (step_ok p p' IH st)].
  constructor; unfold pending; simpl; try done; unfold due; destruct telemetry, context; simpl; try lia; done.
Qed.

(** What is left to do: the stages of the main task, those of the handler, the gathering, the
    exit. *)
Definition remaining_work (p : Process) : nat :=
  ((match main_task p with Running => 5 | Joining => 4 | MainSending => 3 | Checking => 2 | Leaving => 1 end)
  + (match handler p with Waiting => 6 | Resolved => 5 | Noted => 4 | Taking => 3 | HandlerSending | WaitingAgain => 2 | HandlerLeaving => 1 end)
  + Nat.b2n (gathering p) + Nat.b2n (negb (command_owns p)) + (match exited p with None => 1 | Some _ => 0 end))%nat.

Lemma step_works p p' : step p p' -> p' = p \/ (remaining_work p' < remaining_work p)%nat.
Proof.
  destruct 1; unfold remaining_work; simpl;
    repeat match goal with |- context [if ?b then _ else _] => destruct b; simpl end;
    repeat match goal with |- context [Nat.b2n (negb ?b)] => destruct b; simpl end; try (right; lia); left; done.
Qed.

(** The main task alone, and the gathering, take the process to its end. *)
Lemma main_moves p : exited p = None -> exists p', step p p' /\ (remaining_work p' < remaining_work p)%nat.
Proof.
  destruct p as [m h g s q o ev ex]; simpl; intros ->; destruct m.
  - eexists; split; [apply step_finish|]; unfold remaining_work; simpl; destruct telemetry; lia.
  - destruct g; eexists; (split; [first [apply step_publish | apply step_join]|]); unfold remaining_work; simpl; [lia|]; destruct s; lia.
  - eexists; split; [apply step_send|]; unfold remaining_work; simpl; lia.
  - destruct (should_force_interrupt_exit (mk_process Checking h g s q o ev None)) eqn:E; eexists;
      (split; [first [by apply step_interrupted | by apply step_check]|]); unfold remaining_work; simpl; lia.
  - eexists; split; [apply step_leave|]; unfold remaining_work; simpl; lia.
Qed.

(** [C32] A command's end and a Ctrl-C may come in any order, and at every moment: at most one event
    has been reported, it is the command's or the interrupt's, and the latter only when a signal was
    seen; the process exits with the command's code, or with 130 after a signal; without a signal
    an exit is the command's, its event reported exactly when a context was gathered; and a
    process that has not exited can go on, with less left to do at every step that changes it. *)
Theorem one_event_one_exit p : reachable p ->
  (length (events p) <= 1)%nat /\
  (forall e, e ∈ events p -> e = telemetry_outcome outcome \/ e = interrupt_outcome /\ interrupt_requested p = true) /\
  (forall code, exited p = Some code -> code = process_code outcome \/ code = INTERRUPT_EXIT_CODE /\ interrupt_requested p = true) /\
  (forall code, exited p = Some code -> interrupt_requested p = false ->
     code = process_code outcome /\ events p = if telemetry && context then [telemetry_outcome outcome] else []) /\
  (exited p = None -> exists p', step p p' /\ (remaining_work p' < remaining_work p)%nat) /\
  (forall p', step p p' -> p' = p \/ (remaining_work p' < remaining_work p)%nat).
Proof.
  intros r; destruct (reachable_ok p r) as [one all join off req ev ex]; pose proof due_le; rewrite Forall_forall in ev.
  split_and!; [lia | exact ev | naive_solver | | apply main_moves | intros p'; apply step_works].
  intros code e q; destruct (ex code e) as [[-> m]|[_ q']]; [split; [done|] | congruence].
  destruct (join ltac:(by rewrite m)) as [g s]; specialize (all q); unfold pending, due in all.
  rewrite m, g, s in all; rewrite req in q; simpl in all.
  destruct (telemetry && context), (events p) as [|x [|]] eqn:E; destruct (handler p); simpl in *; try (lia || done);
    (destruct (ev x) as [->|[_ ?]]; [set_solver | done | congruence]).
Qed.
End process.

(** ** Runs *)

Definition finished : result InvocationOutcome CliError := Ok Complete.

(** The event of an interrupted command: gathered, the command running, the signal. *)
Definition interrupted_run : Process := mk_process Running HandlerLeaving false false true false [interrupt_outcome] (Some 130).

Lemma interrupted_reachable : reachable finished true true interrupted_run.
Proof.
  eapply reach_step; [eapply reach_step; [eapply reach_step; [eapply reach_step; [eapply reach_step;
    [eapply reach_step; [eapply reach_step; [apply reach_start|apply step_publish]|apply step_signal]|apply step_note]|apply step_look]|apply step_take]|apply step_flush]|apply step_quit].
Defined.

Lemma one_event_one_exit_witness :
  (length (events interrupted_run) <= 1)%nat /\ interrupt_requested interrupted_run = true.
Proof. split; [apply (one_event_one_exit finished true true _ interrupted_reachable) | reflexivity]. Defined.

(** The main task has the context and is sending the event of a command that completed, when the
    signal comes; the handler finds no context and the process exits: no event is reported. *)
Lemma lost_event : exists p, reachable finished true true p /\ exited p = Some 130 /\ events p = [].
Proof.
  eexists; split; [|split].
  - eapply reach_step; [eapply reach_step; [eapply reach_step; [eapply reach_step; [eapply reach_step; [eapply reach_step; [eapply reach_step;
      [eapply reach_step; [apply reach_start|apply step_publish]|apply step_finish]|apply step_join]|apply step_signal]|apply step_note]|apply step_look]|apply step_take]|apply step_quit].
  - reflexivity.
  - reflexivity.
Qed.
