(* ===== verification/Widgets.v ===== *)
(** The pieces forms are made of: keys, the date field, the picker list.

    Key events of the terminal, as the form surfaces see them ([crossterm]'s [KeyEvent], of which
    only presses reach the handlers), and the characters they type. *)

From stdpp Require Import base strings list pretty.
From Stdlib Require Import Lia Ascii ZArith.
From S2P Require Import Prelude Text Kebab Shape Options.

#[local] Arguments String.append !_ _ /.

(** A character is the bytes of its UTF-8 form. *)
Inductive KeyCode : Type :=
| KEnter | KEsc | KUp | KDown | KLeft | KRight | KHome | KEnd | KPageUp | KPageDown | KTab | KBackTab | KBackspace | KDelete
| KChar (c : string)
| KOther.

(** The modifiers the handlers ask for; [mod_other] stands for any further one. *)
Record KeyEvent : Type := mk_key { code : KeyCode; mod_control : bool; mod_shift : bool; mod_other : bool }.

(** [KeyModifiers::CONTROL], exactly. *)
Definition only_control (k : KeyEvent) : bool := mod_control k && negb (mod_shift k) && negb (mod_other k).

Definition char_key (c : string) (k : KeyEvent) : bool := match code k with KChar d => String.eqb c d | _ => false end.

Definition is_ctrl_c (k : KeyEvent) : bool := char_key "c" k && mod_control k.

Definition press (c : KeyCode) : KeyEvent := mk_key c false false false.
Definition typed (c : string) : KeyEvent := press (KChar c).
Definition ctrl (c : string) : KeyEvent := mk_key (KChar c) true false false.

(** * Characters *)

Definition concat_chars (l : list string) : string := foldr String.append EmptyString l.

Lemma concat_utf8_chars s : concat_chars (utf8_chars s) = s.
Proof.
  induction s as [|c r IH]; [done|]. simpl. destruct (utf8_chars r) as [|[|d t] rest]; simpl in *; [by rewrite <- IH..|].
  destruct (is_continuation d); simpl; by rewrite <- IH.
Qed.

(** Without its last character ([String::pop]). *)
Definition pop_char (s : string) : string := concat_chars (removelast (utf8_chars s)).

(** * The date and time field ([terminal/date_field.rs]): the fixed-width UTC form it reads and
    writes, and the segments it edits. *)

(** * Dates *)

Record DateParts : Type := mk_date { year : Z; month : Z; day : Z; hour : Z; minute : Z }.

Definition is_leap (year : Z) : bool := ((year mod 4 =? 0) && negb (year mod 100 =? 0)) || (year mod 400 =? 0).

Definition days_in_month (year month : Z) : Z :=
  if existsb (Z.eqb month) [1; 3; 5; 7; 8; 10; 12] then 31
  else if existsb (Z.eqb month) [4; 6; 9; 11] then 30
  else if month =? 2 then (if is_leap year then 29 else 28)
  else 31.

Definition with_day (d : Z) (p : DateParts) : DateParts := mk_date (year p) (month p) d (hour p) (minute p).

Definition clamp_day (p : DateParts) : DateParts :=
  let d := Z.min (day p) (days_in_month (year p) (month p)) in with_day (if d <? 1 then 1 else d) p.

(** Exactly [width] ASCII digits. *)
Definition fixed (s : string) (width : nat) : option Z :=
  if negb (Nat.eqb (String.length s) width) || negb (all_chars is_digit s) then None else parse_unsigned (2 ^ 32 - 1) s.

Definition parse_iso (s : string) : option DateParts :=
  body ← strip_suffix "Z" s;
  dt ← split_once "T" body;
  match split_char "-" dt.1, split_char ":" dt.2 with
  | [ys; ms; ds], [hs; mins; secs] =>
      year ← fixed ys 4;
      month ← fixed ms 2;
      day ← fixed ds 2;
      hour ← fixed hs 2;
      minute ← fixed mins 2;
      _ ← fixed secs 2;
      if negb ((1 <=? month) && (month <=? 12)) || (23 <? hour) || (59 <? minute) then None
      else if (day <? 1) || (days_in_month year month <? day) then None
      else Some (mk_date year month day hour minute)
  | _, _ => None
  end.

(** [{:0w}] of a natural number. *)
Definition zeros (n : nat) : string := String.string_of_list_ascii (replicate n "0"%char).
Definition pad (width : nat) (n : Z) : string := let s := show_int n in zeros (width - String.length s) +:+ s.

(** The date with the given seconds. *)
Definition iso_with (p : DateParts) (secs : string) : string :=
  pad 4 (year p) +:+ "-" +:+ pad 2 (month p) +:+ "-" +:+ pad 2 (day p) +:+ "T" +:+ pad 2 (hour p) +:+ ":" +:+ pad 2 (minute p) +:+ ":" +:+ secs +:+ "Z".

Definition to_iso (p : DateParts) : string := iso_with p "00".

Definition friendly_display (iso : string) : string :=
  match parse_iso iso with
  | Some p => pad 4 (year p) +:+ "-" +:+ pad 2 (month p) +:+ "-" +:+ pad 2 (day p) +:+ "  " +:+ pad 2 (hour p) +:+ ":" +:+ pad 2 (minute p) +:+ "  UTC"
  | None => iso
  end.

(** * Segmented editing *)

Definition SEGMENT_COUNT : nat := 5%nat.
Definition segment_width (segment : nat) : nat := match segment with O => 4%nat | _ => 2%nat end.

Record DateEditState : Type := mk_edit { parts : DateParts; segment : nat; typed_digits : string }.

Definition new_edit (p : DateParts) : DateEditState := mk_edit p 0 EmptyString.

Definition with_month (m : Z) (p : DateParts) : DateParts := mk_date (year p) m (day p) (hour p) (minute p).
Definition with_year (y : Z) (p : DateParts) : DateParts := mk_date y (month p) (day p) (hour p) (minute p).
Definition with_hour (h : Z) (p : DateParts) : DateParts := mk_date (year p) (month p) (day p) h (minute p).
Definition with_minute (m : Z) (p : DateParts) : DateParts := mk_date (year p) (month p) (day p) (hour p) m.

Definition clamp (lo hi n : Z) : Z := if n <? lo then lo else if hi <? n then hi else n.

Definition bump (up : bool) (p : DateParts) (segment : nat) : DateParts :=
  let delta := if up then 1 else -1 in
  match segment with
  | 0%nat => clamp_day (with_year (clamp 1 9999 (year p + delta)) p)
  | 1%nat => clamp_day (with_month ((month p - 1 + delta) mod 12 + 1) p)
  | 2%nat => with_day ((day p - 1 + delta) mod days_in_month (year p) (month p) + 1) p
  | 3%nat => with_hour ((hour p + delta) mod 24) p
  | _ => with_minute ((minute p + delta) mod 60) p
  end.

Definition type_digit (c : ascii) (st : DateEditState) : DateEditState :=
  let width := segment_width (segment st) in
  let typed := typed_digits st +:+ String c EmptyString in
  let typed := if Nat.ltb width (String.length typed) then String c EmptyString else typed in
  let n := default 0 (parse_unsigned (2 ^ 32 - 1) typed) in
  let p := parts st in
  let p := match segment st with
    | 0%nat => with_year (clamp 1 9999 n) p
    | 1%nat => with_month (clamp 1 12 n) p
    | 2%nat => with_day (clamp 1 (days_in_month (year p) (month p)) n) p
    | 3%nat => with_hour (Z.min n 23) p
    | _ => with_minute (Z.min n 59) p
    end in
  let p := if Nat.leb (segment st) 2 then clamp_day p else p in
  if Nat.eqb (String.length typed) width then mk_edit p (Nat.min (S (segment st)) (SEGMENT_COUNT - 1)) EmptyString
  else mk_edit p (segment st) typed.

Inductive DateStep : Type := DateContinue | DateCommit | DateCancel.

Definition digit_key (c : string) : option ascii := match c with String d EmptyString => if is_digit d then Some d else None | _ => None end.

Definition apply_date_key (st : DateEditState) (k : KeyEvent) : DateEditState * DateStep :=
  match code k with
  | KEnter => (st, DateCommit)
  | KEsc => (st, DateCancel)
  | KLeft => (mk_edit (parts st) (pred (segment st)) EmptyString, DateContinue)
  | KRight => (mk_edit (parts st) (Nat.min (S (segment st)) (SEGMENT_COUNT - 1)) EmptyString, DateContinue)
  | KUp => (mk_edit (bump true (parts st) (segment st)) (segment st) EmptyString, DateContinue)
  | KDown => (mk_edit (bump false (parts st) (segment st)) (segment st) EmptyString, DateContinue)
  | KChar c => match digit_key c with Some d => (type_digit d st, DateContinue) | None => (st, DateContinue) end
  | _ => (st, DateContinue)
  end.

Definition apply_date_keys (st : DateEditState) (ks : list KeyEvent) : DateEditState := fold_left (fun st k => (apply_date_key st k).1) ks st.

(** * Valid dates *)

Definition date_ok (p : DateParts) : Prop :=
  0 <= year p <= 9999 /\ 1 <= month p <= 12 /\ 1 <= day p <= days_in_month (year p) (month p) /\ 0 <= hour p <= 23 /\ 0 <= minute p <= 59.

Lemma days_range y m : 28 <= days_in_month y m <= 31.
Proof. unfold days_in_month. repeat case_match; lia. Qed.

Lemma clamp_day_ok p : 0 <= year p <= 9999 -> 1 <= month p <= 12 -> 0 <= hour p <= 23 -> 0 <= minute p <= 59 -> date_ok (clamp_day p).
Proof.
  intros. unfold clamp_day, date_ok, with_day. simpl. pose proof (days_range (year p) (month p)).
  split; [done|]. split; [done|]. split; [|done]. destruct (Z.ltb_spec (Z.min (day p) (days_in_month (year p) (month p))) 1); lia.
Qed.

Lemma clamp_range lo hi n : lo <= hi -> lo <= clamp lo hi n <= hi.
Proof. unfold clamp. intros. destruct (Z.ltb_spec n lo); [lia|]. destruct (Z.ltb_spec hi n); lia. Qed.

Lemma bump_ok up p seg : date_ok p -> date_ok (bump up p seg).
Proof.
  intros (Hy & Hm & Hd & Hh & Hn). unfold bump.
  assert (forall a b, 0 < b -> 0 <= a mod b < b) as Hmod by (intros; by apply Z.mod_pos_bound).
  destruct seg as [|[|[|[|seg]]]].
  - pose proof (clamp_range 1 9999 (year p + (if up then 1 else -1)) ltac:(lia)). apply clamp_day_ok; simpl; lia.
  - pose proof (Hmod (month p - 1 + (if up then 1 else -1)) 12 ltac:(lia)). apply clamp_day_ok; simpl; lia.
  - pose proof (days_range (year p) (month p)). pose proof (Hmod (day p - 1 + (if up then 1 else -1)) (days_in_month (year p) (month p)) ltac:(lia)).
    unfold date_ok, with_day. simpl. lia.
  - pose proof (Hmod (hour p + (if up then 1 else -1)) 24 ltac:(lia)). unfold date_ok, with_hour. simpl. lia.
  - pose proof (Hmod (minute p + (if up then 1 else -1)) 60 ltac:(lia)). unfold date_ok, with_minute. simpl. lia.
Qed.

Lemma type_digit_ok c st : date_ok (parts st) -> date_ok (parts (type_digit c st)).
Proof.
  intros (Hy & Hm & Hd & Hh & Hn). unfold type_digit.
  set (n := default 0 _). assert (Hge : 0 <= n).
  { unfold n. match goal with |- context [parse_unsigned ?m ?s] => destruct (parse_unsigned m s) as [x|] eqn:E end; simpl; [|lia].
    apply parse_unsigned_range in E; lia. }
  pose proof (days_range (year (parts st)) (month (parts st))) as Hr.
  match goal with |- date_ok (parts (if ?b then mk_edit ?q _ _ else _)) => assert (Hq : date_ok q) end; [|by destruct (Nat.eqb _ _)].
  destruct (segment st) as [|[|[|[|s]]]]; simpl.
  - apply clamp_day_ok; simpl; try done. pose proof (clamp_range 1 9999 n ltac:(lia)). lia.
  - apply clamp_day_ok; simpl; try done. by apply clamp_range.
  - by apply clamp_day_ok.
  - unfold date_ok, with_hour. simpl. lia.
  - unfold date_ok, with_minute. simpl. lia.
Qed.

Lemma date_key_ok st k : date_ok (parts st) -> date_ok (parts (apply_date_key st k).1).
Proof.
  intros H. unfold apply_date_key. destruct (code k); simpl; try done; [by apply bump_ok..|].
  destruct (digit_key c); [by apply type_digit_ok|done].
Qed.

Lemma date_keys_ok st ks : date_ok (parts st) -> date_ok (parts (apply_date_keys st ks)).
Proof. revert st. induction ks as [|k ks IH]; intros st H; [done|]. apply IH. by apply date_key_ok. Qed.

(** The active segment is one of the five. *)
Lemma date_keys_segment st ks : (segment st < SEGMENT_COUNT)%nat -> (segment (apply_date_keys st ks) < SEGMENT_COUNT)%nat.
Proof.
  unfold apply_date_keys. revert st. induction ks as [|k ks IH]; intros st H; [done|]. cbn [fold_left]. apply IH.
  unfold apply_date_key, SEGMENT_COUNT in *. destruct (code k); simpl; try lia. destruct (digit_key c) as [d|]; [|done]. unfold type_digit.
  match goal with |- context [if ?b then mk_edit _ _ _ else _] => destruct b end; cbn [segment fst]; unfold SEGMENT_COUNT; lia.
Qed.

(** * The written form is read back *)

Definition nat_below (n : nat) : list Z := map Z.of_nat (seq 0 n).

Lemma nat_below_elem n z : 0 <= z < Z.of_nat n -> z ∈ nat_below n.
Proof. intros H. apply list_elem_of_fmap. exists (Z.to_nat z). split; [lia|]. apply elem_of_seq. lia. Qed.

Definition reads_back (w : nat) (n : Z) : bool :=
  match fixed (pad w n) w with Some m => m =? n | None => false end && all_chars is_digit (pad w n) .

Lemma reads_back_two : forallb (reads_back 2) (nat_below 100) = true.
Proof. by vm_compute. Qed.

Lemma reads_back_four : forallb (reads_back 4) (nat_below (Z.to_nat 10000)) = true.
Proof. by vm_compute. Qed.

Lemma reads_back_spec w k n : forallb (reads_back w) (nat_below k) = true -> 0 <= n < Z.of_nat k -> fixed (pad w n) w = Some n /\ all_chars is_digit (pad w n) = true.
Proof.
  intros H Hn. rewrite forallb_forall in H. specialize (H n). apply nat_below_elem, list_elem_of_In in Hn. specialize (H Hn).
  unfold reads_back in H. destruct (fixed (pad w n) w); simpl in H; to_prop; [|done]. by subst.
Qed.

Definition digits : list ascii := map (fun n => ascii_of_nat (48 + n)) (seq 0 10).
Fixpoint digit_strings (w : nat) : list string :=
  match w with O => [EmptyString] | S w => flat_map (fun s => map (fun c => String c s) digits) (digit_strings w) end.

Lemma digit_elem c : is_digit c = true -> c ∈ digits.
Proof.
  unfold is_digit. intros [H1%Nat.leb_le H2%Nat.leb_le]%andb_prop. apply list_elem_of_fmap. exists (nat_of_ascii c - 48)%nat. split.
  - replace (48 + (nat_of_ascii c - 48))%nat with (nat_of_ascii c) by lia. by rewrite ascii_nat_embedding.
  - apply elem_of_seq. lia.
Qed.

Lemma digit_strings_elem w s : String.length s = w -> all_chars is_digit s = true -> s ∈ digit_strings w.
Proof.
  revert s. induction w as [|w IH]; intros [|c s]; try done; [constructor|]. intros [= Hw] [Hc Hs]%andb_prop. cbn [digit_strings].
  apply list_elem_of_In, in_flat_map. exists s. split; [apply list_elem_of_In, IH; done|]. apply (in_map (fun c => String c s)).
  by apply list_elem_of_In, digit_elem.
Qed.

Definition writes_back (w : nat) (s : string) : bool :=
  match fixed s w with Some n => String.eqb (pad w n) s && (0 <=? n) && (n <? 10 ^ Z.of_nat w) | None => false end.

Lemma writes_back_two : forallb (writes_back 2) (digit_strings 2) = true.
Proof. by vm_compute. Qed.

Lemma writes_back_four : forallb (writes_back 4) (digit_strings 4) = true.
Proof. by vm_compute. Qed.

Lemma writes_back_spec w s n : forallb (writes_back w) (digit_strings w) = true -> fixed s w = Some n -> s = pad w n /\ 0 <= n < 10 ^ Z.of_nat w.
Proof.
  intros H Hn. assert (Hs : s ∈ digit_strings w).
  { apply digit_strings_elem; unfold fixed in Hn; destruct (Nat.eqb_spec (String.length s) w); simpl in Hn; try done; by destruct (all_chars is_digit s). }
  rewrite forallb_forall in H. apply list_elem_of_In, H in Hs. unfold writes_back in Hs. rewrite Hn in Hs. to_prop. split; [by symmetry; apply String.eqb_eq|lia].
Qed.

(** ** The pieces *)

Lemma digits_avoid c s : is_digit c = false -> all_chars is_digit s = true -> contains_char (is_char c) s = false.
Proof.
  intros Hc. induction s as [|d s IH]; [done|]. simpl. intros H. to_prop. rewrite IH by done. unfold is_char.
  destruct (Ascii.eqb_spec c d) as [->|]; [congruence|done].
Qed.

Lemma split_char_none c a : contains_char (is_char c) a = false -> split_char c a = [a].
Proof.
  induction a as [|d a IH]; [done|]. simpl. intros H. to_prop. unfold is_char in *. destruct (Ascii.eqb_spec d c) as [->|]; [by rewrite Ascii.eqb_refl in *|].
  by rewrite IH.
Qed.

Lemma split_char_app c a b : contains_char (is_char c) a = false -> split_char c (a +:+ String c b) = a :: split_char c b.
Proof.
  induction a as [|d a IH]; simpl; [by rewrite Ascii.eqb_refl|]. intros H. to_prop. unfold is_char in *.
  destruct (Ascii.eqb_spec d c) as [->|]; [by rewrite Ascii.eqb_refl in *|]. by rewrite IH.
Qed.

Lemma split_char_inv c s a b l : split_char c s = a :: b :: l -> exists r, s = a +:+ String c r /\ split_char c r = b :: l.
Proof.
  revert a. induction s as [|d s IH]; intros a; simpl; [done|]. destruct (Ascii.eqb_spec d c) as [->|Hd].
  - intros [= <- H]. by exists s.
  - destruct (split_char c s) as [|h t] eqn:E; [done|]. intros [= <- ->]. destruct (IH h eq_refl) as (r & -> & Hr). by exists r.
Qed.

Lemma split_char_nonempty c s : split_char c s <> [].
Proof. induction s as [|d s IH]; simpl; [done|]. destruct (Ascii.eqb d c); [done|]. by destruct (split_char c s). Qed.

Lemma split_char_one c s a : split_char c s = [a] -> s = a.
Proof.
  revert a. induction s as [|d s IH]; intros a; simpl; [by intros [= <-]|]. pose proof (split_char_nonempty c s).
  destruct (Ascii.eqb d c); [by intros [= _ ?]|]. destruct (split_char c s) as [|h t] eqn:E; [done|]. intros [= <- ->]. by rewrite (IH h).
Qed.

Lemma split_once_inv c s a b : split_once c s = Some (a, b) -> s = a +:+ String c b.
Proof.
  revert a. induction s as [|d s IH]; intros a; simpl; [done|]. destruct (Ascii.eqb_spec d c) as [->|]; [by intros [= <- <-]|].
  destruct (split_once c s) as [[x y]|]; [|done]. intros [= <- ->]. by rewrite (IH x).
Qed.

Lemma strip_suffix_char c s : strip_suffix (String c EmptyString) (s +:+ String c EmptyString) = Some s.
Proof.
  induction s as [|d s IH]; simpl; [by rewrite Ascii.eqb_refl|]. destruct (Ascii.eqb_spec c d) as [->|].
  - destruct s as [|e s]; simpl in *; [by rewrite Ascii.eqb_refl in *|]. by rewrite IH.
  - by rewrite IH.
Qed.

Lemma strip_suffix_inv c s r : strip_suffix (String c EmptyString) s = Some r -> s = r +:+ String c EmptyString.
Proof.
  revert r. induction s as [|d s IH]; intros r; [done|]. cbn [strip_suffix]. destruct (String.eqb_spec (String c EmptyString) (String d s)) as [E|].
  - intros [= <-]. by rewrite <- E.
  - destruct (strip_suffix _ s) as [q|]; [|done]. intros [= <-]. simpl. by rewrite (IH q).
Qed.

Lemma app_string_assoc (a b c : string) : (a +:+ b) +:+ c = a +:+ b +:+ c.
Proof. induction a as [|x a IH]; [done|]. simpl. by rewrite IH. Qed.

(** * The theorems *)

Lemma pad_two n : 0 <= n <= 99 -> fixed (pad 2 n) 2 = Some n /\ all_chars is_digit (pad 2 n) = true.
Proof. intros. apply (reads_back_spec 2 100); [exact reads_back_two|lia]. Qed.

Lemma pad_four n : 0 <= n <= 9999 -> fixed (pad 4 n) 4 = Some n /\ all_chars is_digit (pad 4 n) = true.
Proof. intros. apply (reads_back_spec 4 (Z.to_nat 10000)); [exact reads_back_four|lia]. Qed.

Lemma fixed_two s n : fixed s 2 = Some n -> s = pad 2 n /\ 0 <= n <= 99.
Proof. intros H. destruct (writes_back_spec 2 s n writes_back_two H). split; [done|]. change (10 ^ Z.of_nat 2) with 100 in *. lia. Qed.

Lemma fixed_four s n : fixed s 4 = Some n -> s = pad 4 n /\ 0 <= n <= 9999.
Proof. intros H. destruct (writes_back_spec 4 s n writes_back_four H). split; [done|]. change (10 ^ Z.of_nat 4) with 10000 in *. lia. Qed.

Lemma date_ok_bounds p : date_ok p -> (0 <= year p <= 9999) /\ (0 <= month p <= 99) /\ (0 <= day p <= 99) /\ (0 <= hour p <= 99) /\ (0 <= minute p <= 99).
Proof. unfold date_ok. pose proof (days_range (year p) (month p)). lia. Qed.

Lemma in_bounds_ok p : date_ok p ->
  negb ((1 <=? month p) && (month p <=? 12)) || (23 <? hour p) || (59 <? minute p) = false /\
  (day p <? 1) || (days_in_month (year p) (month p) <? day p) = false.
Proof.
  intros (Hy & Hm & Hd & Hh & Hn).
  rewrite (proj2 (Z.leb_le 1 _)), (proj2 (Z.leb_le _ 12)), (proj2 (Z.ltb_ge 23 _)), (proj2 (Z.ltb_ge 59 _)), (proj2 (Z.ltb_ge (day p) 1)), (proj2 (Z.ltb_ge _ (day p))) by lia.
  done.
Qed.

Lemma iso_with_parse p secs n : date_ok p -> fixed secs 2 = Some n -> parse_iso (iso_with p secs) = Some p.
Proof.
  intros Hp Hs. destruct (date_ok_bounds p Hp) as (Hy & Hm & Hd & Hh & Hn). destruct (fixed_two _ _ Hs) as [-> Hr].
  destruct (pad_four _ Hy) as [Ey Dy]. destruct (pad_two _ Hm) as [Em Dm]. destruct (pad_two _ Hd) as [Ed Dd].
  destruct (pad_two _ Hh) as [Eh Dh]. destruct (pad_two _ Hn) as [En Dn]. destruct (pad_two _ Hr) as [_ Dr].
  unfold parse_iso, iso_with.
  assert (forall c s, is_digit c = false -> all_chars is_digit s = true -> contains_char (is_char c) s = false) as Av by (apply digits_avoid).
  set (ys := pad 4 (year p)) in *. set (ms := pad 2 (month p)) in *. set (ds := pad 2 (day p)) in *.
  set (hs := pad 2 (hour p)) in *. set (ns := pad 2 (minute p)) in *. set (ss := pad 2 n) in *.
  replace (ys +:+ "-" +:+ ms +:+ "-" +:+ ds +:+ "T" +:+ hs +:+ ":" +:+ ns +:+ ":" +:+ ss +:+ "Z")
    with (((ys +:+ "-" +:+ ms +:+ "-" +:+ ds) +:+ String "T" (hs +:+ ":" +:+ ns +:+ ":" +:+ ss)) +:+ "Z") by (by repeat (progress (simpl; rewrite ?app_string_assoc))).
  rewrite strip_suffix_char. cbn [option_bind mbind].
  rewrite split_once_app by (rewrite !contains_char_app; simpl; rewrite !Av by done; done). cbn [mbind option_bind fst snd].
  cbn [String.append]. rewrite !split_char_app by (by apply Av). rewrite !split_char_none by (by apply Av).
  rewrite Ey, Em, Ed, Eh, En, Hs. cbn [mbind option_bind].
  destruct (in_bounds_ok p Hp) as [-> ->]. by destruct p.
Qed.

Lemma parse_iso_inv s p : parse_iso s = Some p -> date_ok p /\ exists secs n, fixed secs 2 = Some n /\ s = iso_with p secs.
Proof.
  unfold parse_iso. intros H. destruct (strip_suffix "Z" s) as [body|] eqn:E1; [|done]. apply strip_suffix_inv in E1. cbn [mbind option_bind] in H.
  destruct (split_once "T" body) as [[date time]|] eqn:E2; [|done]. apply split_once_inv in E2. cbn [mbind option_bind fst snd] in H.
  destruct (split_char "-" date) as [|ys [|ms [|ds [|]]]] eqn:E3; try done.
  destruct (split_char ":" time) as [|hs [|ns [|ss [|]]]] eqn:E4; try done.
  apply split_char_inv in E3 as (r3 & -> & E3). apply split_char_inv in E3 as (r3' & -> & E3). apply split_char_one in E3 as ->.
  apply split_char_inv in E4 as (r4 & -> & E4). apply split_char_inv in E4 as (r4' & -> & E4). apply split_char_one in E4 as ->.
  destruct (fixed ys 4) as [y|] eqn:Ey; [|done]. destruct (fixed ms 2) as [m|] eqn:Em; [|done]. destruct (fixed ds 2) as [d|] eqn:Ed; [|done].
  destruct (fixed hs 2) as [h|] eqn:Eh; [|done]. destruct (fixed ns 2) as [n|] eqn:En; [|done]. destruct (fixed ss 2) as [sec|] eqn:Es; [|done].
  cbn [mbind option_bind] in H. destruct (negb _ || _ || _) eqn:B1; [done|]. destruct ((d <? 1) || _) eqn:B2; [done|]. injection H as <-.
  apply fixed_four in Ey as [-> Hy]. apply fixed_two in Em as [-> Hm]. apply fixed_two in Ed as [-> Hd]. apply fixed_two in Eh as [-> Hh]. apply fixed_two in En as [-> Hn].
  split; [unfold date_ok; simpl; to_prop; lia|]. exists ss, sec. split; [done|]. subst body. rewrite E1. unfold iso_with. cbn [year month day hour minute].
  by repeat (progress (simpl; rewrite ?app_string_assoc)).
Qed.

(** [C39] The date field only ever holds a calendar date: a value is opened for editing exactly when it
    is the authored form of a valid date, with any two digits for its seconds; whatever keys are
    pressed then, the date stays valid and a segment is active, and what is committed is read
    back as the date shown. *)
Theorem date_field_closed s p :
  (parse_iso s = Some p <-> date_ok p /\ exists secs n, fixed secs 2 = Some n /\ s = iso_with p secs) /\
  (parse_iso s = Some p -> forall ks,
    let st := apply_date_keys (new_edit p) ks in
    date_ok (parts st) /\ (segment st < SEGMENT_COUNT)%nat /\ parse_iso (to_iso (parts st)) = Some (parts st)).
Proof.
  split; [split; [apply parse_iso_inv|intros (Hp & secs & n & Hs & ->); by apply (iso_with_parse _ _ n)]|].
  intros H ks st. destruct (parse_iso_inv s p H) as (Hp & _).
  assert (Hst : date_ok (parts st)) by (apply date_keys_ok; exact Hp). split; [done|].
  split; [apply date_keys_segment; unfold SEGMENT_COUNT; simpl; lia|]. by apply (iso_with_parse _ _ 0).
Qed.

Definition leap_keys : list KeyEvent := [typed "2"; typed "0"; typed "2"; typed "8"; press KUp].

(** Typing the year again moves the 29th of February to the 28th: the first digit is already a year. *)
Lemma date_field_closed_witness :
  parse_iso "2028-02-29T10:30:59Z" = Some (mk_date 2028 2 29 10 30) /\
  parse_iso "2028-03-28T10:30:00Z" = Some (parts (apply_date_keys (new_edit (mk_date 2028 2 29 10 30)) leap_keys)).
Proof.
  split; [by vm_compute|]. destruct (date_field_closed "2028-02-29T10:30:59Z" (mk_date 2028 2 29 10 30)) as [_ H].
  exact (proj2 (proj2 (H eq_refl leap_keys))).
Defined.

(** * The picker list ([terminal/picker_list.rs]) and the keys that drive it
    ([drive_enum_picker] in [terminal/form_runner.rs]). *)

#[local] Open Scope nat_scope.

Section picker.
Context `{UnicodeCase}.

(** [filtered] are indices into [pl_choices]; the scroll offset belongs to the drawing. *)
Record PickerList : Type := mk_picker { pl_choices : list OptionChoice; filter_text : string; filtered : list nat; selected : option nat }.

Definition position {A} (p : A -> bool) (l : list A) : option nat := fst <$> list_find (fun x => p x = true) l.

Definition matches (needle : string) (c : OptionChoice) : bool :=
  is_empty needle || contains needle (to_lowercase (choice_label c)) ||
  (negb (String.eqb (choice_label c) (choice_value c)) && contains needle (to_lowercase (choice_value c))).

Definition new_picker (choices : list OptionChoice) (current : option string) : PickerList :=
  let filtered := seq 0 (length choices) in
  mk_picker choices EmptyString filtered
    (match filtered with
     | [] => None
     | _ => Some (Nat.min (default 0 (v ← current; position (fun c => String.eqb (choice_value c) v) choices)) (length filtered - 1))
     end).

(** The indices of the choices that match. *)
Definition matching (choices : list OptionChoice) (text : string) : list nat :=
  let needle := to_lowercase text in
  omap (fun ic => if matches needle ic.2 then Some ic.1 else None) (enumerate choices).

Definition recompute (p : PickerList) : PickerList :=
  let filtered := matching (pl_choices p) (filter_text p) in
  mk_picker (pl_choices p) (filter_text p) filtered (match filtered with [] => None | _ => Some 0 end).

Definition with_text (s : string) (p : PickerList) : PickerList := mk_picker (pl_choices p) s (filtered p) (selected p).

Definition push_char (c : string) (p : PickerList) : PickerList := recompute (with_text (filter_text p +:+ c) p).
Definition pop_filter (p : PickerList) : PickerList := recompute (with_text (pop_char (filter_text p)) p).

(** Move the highlight, when there is a match. *)
Definition highlight (f : nat -> nat) (p : PickerList) : PickerList :=
  match filtered p with
  | [] => p
  | _ => mk_picker (pl_choices p) (filter_text p) (filtered p) (Some (f (default 0 (selected p))))
  end.

Definition page_up (n : nat) (p : PickerList) : PickerList := highlight (fun i => i - Nat.max n 1) p.
Definition page_down (n : nat) (p : PickerList) : PickerList := highlight (fun i => Nat.min (i + Nat.max n 1) (length (filtered p) - 1)) p.
Definition picker_up (p : PickerList) : PickerList := highlight pred p.
Definition picker_down (p : PickerList) : PickerList := highlight (fun i => Nat.min (i + 1) (length (filtered p) - 1)) p.

Definition selected_value (p : PickerList) : option string :=
  sel ← selected p;
  idx ← filtered p !! sel;
  choice_value <$> pl_choices p !! idx.

Definition custom_value (p : PickerList) : option string :=
  match filtered p with
  | [] => let trimmed := trim (filter_text p) in if is_empty trimmed then None else Some trimmed
  | _ => None
  end.

Inductive PickerStep : Type := PickerContinue | PickerCancel | PickerChosen (v : option string).

Definition picker_key (p : PickerList) (k : KeyEvent) : PickerList * PickerStep :=
  if is_ctrl_c k then (p, PickerCancel)
  else
    match code k with
    | KEsc => (p, PickerCancel)
    | KUp => (picker_up p, PickerContinue)
    | KDown => (picker_down p, PickerContinue)
    | KPageUp => (page_up 5 p, PickerContinue)
    | KPageDown => (page_down 5 p, PickerContinue)
    | KBackspace => (pop_filter p, PickerContinue)
    | KChar c => (push_char c p, PickerContinue)
    | KEnter => (p, PickerChosen (match selected_value p with Some v => Some v | None => custom_value p end))
    | _ => (p, PickerContinue)
    end.

(** * The list shown is the choices that match *)

Record picker_ok (choices : list OptionChoice) (p : PickerList) : Prop := {
  po_choices : pl_choices p = choices;
  po_filtered : filtered p = matching choices (filter_text p);
  po_selected : match selected p with Some i => i < length (filtered p) | None => filtered p = [] end
}.

Lemma matching_elem choices text i : i ∈ matching choices text <-> exists c, choices !! i = Some c /\ matches (to_lowercase text) c = true.
Proof.
  unfold matching. rewrite list_elem_of_omap. split.
  - intros ([j c] & Hj%enumerate_elem & Hm). cbn [fst snd] in Hm. destruct (matches _ c) eqn:E; [|done]. injection Hm as ->. by exists c.
  - intros (c & Hc & Hm). exists (i, c). cbn [fst snd]. rewrite Hm. split; [|done]. by apply enumerate_elem.
Qed.

Lemma matching_all choices : matching choices EmptyString = seq 0 (length choices).
Proof.
  unfold matching. rewrite to_lowercase_ascii by done. change (to_ascii_lowercase EmptyString) with EmptyString.
  unfold matches. cbn [is_empty orb]. unfold enumerate.
  enough (Hl : forall (l : list OptionChoice) n, omap (fun ic : nat * OptionChoice => Some ic.1) (imap (fun i x => (n + i, x)) l) = seq n (length l)) by apply (Hl choices 0).
  induction l as [|c l IH]; intros n; [done|]. cbn [imap length seq omap list_omap fst]. rewrite Nat.add_0_r. f_equal. rewrite <- IH.
  f_equal. apply imap_ext. intros. cbn. f_equal. lia.
Qed.

Lemma recompute_ok p : picker_ok (pl_choices p) (recompute p).
Proof. constructor; [done..|]. unfold recompute. simpl. destruct (matching _ _); [done|]. simpl. lia. Qed.

Lemma highlight_ok choices f p : picker_ok choices p -> (forall i, i < length (filtered p) -> f i < length (filtered p)) -> picker_ok choices (highlight f p).
Proof.
  intros [Hc Hf Hs] Hb. unfold highlight. destruct (filtered p) as [|x l] eqn:E; [by constructor; rewrite ?E|]. constructor; simpl; [done..|].
  apply Hb. destruct (selected p); simpl in *; [done|lia].
Qed.

Lemma new_picker_some choices current : choices <> [] ->
  new_picker choices current = mk_picker choices EmptyString (seq 0 (length choices))
    (Some (Nat.min (default 0 (v ← current; position (fun c => String.eqb (choice_value c) v) choices)) (length choices - 1))).
Proof. intros Hne. unfold new_picker. rewrite length_seq. by destruct choices. Qed.

Lemma new_picker_ok choices current : picker_ok choices (new_picker choices current).
Proof.
  unfold new_picker. constructor; simpl; [done|by rewrite matching_all|]. destruct choices as [|c l]; simpl; [done|]. rewrite length_seq. lia.
Qed.

Lemma picker_key_ok choices p k : picker_ok choices p -> picker_ok choices (picker_key p k).1.
Proof.
  intros Hk. assert (Hp : pl_choices p = choices) by apply Hk. unfold picker_key. destruct (is_ctrl_c k); [done|].
  destruct (code k); try done; simpl; try (apply highlight_ok; [done|lia]); subst choices; exact (recompute_ok (with_text _ p)).
Qed.

Definition picker_keys (p : PickerList) (ks : list KeyEvent) : PickerList := fold_left (fun p k => (picker_key p k).1) ks p.

Lemma picker_keys_ok choices p ks : picker_ok choices p -> picker_ok choices (picker_keys p ks).
Proof. unfold picker_keys. revert p. induction ks as [|k ks IH]; intros p Hp; [done|]. by apply IH, picker_key_ok. Qed.

(** What is chosen from a list with the filter [text]. *)
Definition choice_allowed (choices : list OptionChoice) (text : string) (chosen : option string) : Prop :=
  match chosen with
  | Some v => (exists c, c ∈ choices /\ matches (to_lowercase text) c = true /\ choice_value c = v) \/
              ((forall c, c ∈ choices -> matches (to_lowercase text) c = false) /\ v = trim text /\ is_empty v = false)
  | None => (forall c, c ∈ choices -> matches (to_lowercase text) c = false) /\ is_empty (trim text) = true
  end.

Lemma nothing_matches choices text : matching choices text = [] -> forall c, c ∈ choices -> matches (to_lowercase text) c = false.
Proof.
  intros He c [i Hi]%list_elem_of_lookup. destruct (matches _ c) eqn:E; [|done].
  assert (Hm : i ∈ matching choices text) by (apply matching_elem; by exists c). rewrite He in Hm. by apply elem_of_nil in Hm.
Qed.

(** The picker never chooses what its list does not show: after any keys, Enter takes the value of a
    choice that matches the filter, or, only when no choice matches, the trimmed filter text
    when that is not blank; and nothing is chosen only when neither exists. Opened on the
    current value and left by Enter at once, it keeps that value. *)
Theorem picker_chooses choices current ks :
  let p := picker_keys (new_picker choices current) ks in
  (forall k chosen, (picker_key p k).2 = PickerChosen chosen -> choice_allowed choices (filter_text p) chosen) /\
  (forall v, current = Some v -> v ∈ map choice_value choices -> (picker_key (new_picker choices current) (press KEnter)).2 = PickerChosen (Some v)).
Proof.
  intros p. split.
  - assert (Hp : picker_ok choices p) by apply picker_keys_ok, new_picker_ok. destruct Hp as [Hc Hf Hs]. intros k chosen.
    unfold picker_key. destruct (is_ctrl_c k); [done|]. destruct (code k); try done. cbn [snd]. intros [= <-].
    unfold selected_value, custom_value. destruct (selected p) as [sel|]; cbn [mbind option_bind].
    + apply lookup_lt_is_Some in Hs as [i Hi]. rewrite Hi. cbn [mbind option_bind].
      assert (Him : i ∈ matching choices (filter_text p)) by (rewrite <- Hf; by apply list_elem_of_lookup_2 in Hi).
      apply matching_elem in Him as (c & Hci & Hm). rewrite Hc, Hci. simpl. left. exists c. split; [by apply list_elem_of_lookup_2 in Hci|done].
    + rewrite Hs. rewrite Hs in Hf. symmetry in Hf. pose proof (nothing_matches _ _ Hf) as Hn.
      destruct (is_empty (trim (filter_text p))) eqn:E; simpl; [done|]. by right.
  - intros v -> (c & -> & Hc)%list_elem_of_fmap. unfold picker_key. cbn [is_ctrl_c code press char_key andb snd].
    rewrite new_picker_some by (intros ->; by apply elem_of_nil in Hc). unfold position. cbn [mbind option_bind].
    destruct (list_find_elem_of (fun x => String.eqb (choice_value x) (choice_value c) = true) choices c Hc (String.eqb_refl _)) as [[i x] Hx].
    rewrite Hx. cbn [fmap option_fmap option_map fst default from_option id]. apply list_find_Some in Hx as (Hi & Hx & _). apply String.eqb_eq in Hx.
    pose proof (lookup_lt_Some _ _ _ Hi). unfold selected_value. cbn [selected mbind option_bind filtered].
    rewrite Nat.min_l by lia. rewrite (proj2 (lookup_seq _ _ _ _)) by (split; [done|lia]). cbn [mbind option_bind pl_choices Nat.add].
    rewrite Hi. simpl. by rewrite Hx.
Qed.

End picker.
