(* ===== verification/RawEditor.v ===== *)
(** The raw text editor ([inline/json_editor/raw.rs]): a buffer of lines with a cursor, and what
    it does to the text those lines are. *)

From stdpp Require Import base list strings.
From Stdlib Require Import Lia Ascii.
From S2P Require Import Prelude Text Shape Widgets.

#[local] Arguments String.append !_ _ /.
#[local] Open Scope nat_scope.

(** * The buffer *)

(** Lines of characters; the cursor is a row and a column of characters. *)
Record RawEditor : Type := mk_raw { lines : list (list string); cursor : nat * nat; raw_error : option string }.

Definition newline : string := String (ascii_of_nat 10) EmptyString.

Definition from_seed (text : string) : RawEditor := mk_raw (map utf8_chars (split_char (ascii_of_nat 10) text)) (0, 0) None.

Definition join_lines (l : list (list string)) : list string := match l with [] => [] | x :: r => x ++ concat (map (cons newline) r) end.

Definition to_text (e : RawEditor) : string := join newline (map concat_chars (lines e)).

Definition set_error (e : RawEditor) (msg : string) : RawEditor := mk_raw (lines e) (cursor e) (Some msg).

Definition line_at (e : RawEditor) (row : nat) : list string := default [] (lines e !! row).

(** * Editing *)

Definition insert_char (c : string) (e : RawEditor) : RawEditor :=
  let '(row, col) := cursor e in
  mk_raw (alter (fun l => take col l ++ c :: drop col l) row (lines e)) (row, S col) None.

Definition insert_str (s : string) (e : RawEditor) : RawEditor := fold_left (fun e c => insert_char c e) (utf8_chars s) e.

Definition insert_newline (e : RawEditor) : RawEditor :=
  let '(row, col) := cursor e in
  let l := line_at e row in
  mk_raw (take row (lines e) ++ take col l :: drop col l :: drop (S row) (lines e)) (S row, 0) None.

Definition backspace (e : RawEditor) : RawEditor :=
  let '(row, col) := cursor e in
  match col, row with
  | S col, _ => mk_raw (alter (fun l => take col l ++ drop (S col) l) row (lines e)) (row, col) None
  | O, S prev =>
      let before := line_at e prev in
      mk_raw (take prev (lines e) ++ (before ++ line_at e row) :: drop (S row) (lines e)) (prev, length before) None
  | O, O => mk_raw (lines e) (cursor e) None
  end.

Definition delete (e : RawEditor) : RawEditor :=
  let '(row, col) := cursor e in
  let l := line_at e row in
  if Nat.ltb col (length l) then mk_raw (alter (fun l => take col l ++ drop (S col) l) row (lines e)) (cursor e) None
  else if Nat.ltb (S row) (length (lines e)) then mk_raw (take row (lines e) ++ (l ++ line_at e (S row)) :: drop (S (S row)) (lines e)) (cursor e) None
  else mk_raw (lines e) (cursor e) None.

(** * Moving *)

Definition at_cursor (e : RawEditor) (c : nat * nat) : RawEditor := mk_raw (lines e) c (raw_error e).

Definition move_left (e : RawEditor) : RawEditor :=
  let '(row, col) := cursor e in
  match col, row with
  | S col, _ => at_cursor e (row, col)
  | O, S row => at_cursor e (row, length (line_at e row))
  | O, O => e
  end.

Definition move_right (e : RawEditor) : RawEditor :=
  let '(row, col) := cursor e in
  if Nat.ltb col (length (line_at e row)) then at_cursor e (row, S col)
  else if Nat.ltb (S row) (length (lines e)) then at_cursor e (S row, 0)
  else e.

Definition move_up (e : RawEditor) : RawEditor :=
  match cursor e with
  | (S row, col) => at_cursor e (row, Nat.min col (length (line_at e row)))
  | (O, _) => e
  end.

Definition move_down (e : RawEditor) : RawEditor :=
  let '(row, col) := cursor e in
  if Nat.ltb (S row) (length (lines e)) then at_cursor e (S row, Nat.min col (length (line_at e (S row)))) else e.

Definition move_home (e : RawEditor) : RawEditor := at_cursor e ((cursor e).1, 0).
Definition move_end (e : RawEditor) : RawEditor := at_cursor e ((cursor e).1, length (line_at e (cursor e).1)).

(** * Keys *)

Inductive RawStep : Type := RawContinue | RawCommit | RawCancel | RawToTree.

Definition dispatch (e : RawEditor) (k : KeyEvent) : RawEditor * RawStep :=
  if char_key "s" k && mod_control k then (e, RawCommit)
  else if char_key "r" k && mod_control k then (e, RawToTree)
  else
    match code k with
    | KEsc => (e, RawCancel)
    | KEnter => (insert_newline e, RawContinue)
    | KBackspace => (backspace e, RawContinue)
    | KDelete => (delete e, RawContinue)
    | KLeft => (move_left e, RawContinue)
    | KRight => (move_right e, RawContinue)
    | KUp => (move_up e, RawContinue)
    | KDown => (move_down e, RawContinue)
    | KHome => (move_home e, RawContinue)
    | KEnd => (move_end e, RawContinue)
    | KTab => (insert_str "  " e, RawContinue)
    | KChar c => (if mod_control k then e else insert_char c e, RawContinue)
    | _ => (e, RawContinue)
    end.

(** * What is edited is a text with a position *)

(** The text of the lines, and the position of the cursor in it. *)
Definition flat (e : RawEditor) : list string := join_lines (lines e).
Definition line_starts (l : list (list string)) : nat := sum_list (map (fun x => S (length x)) l).
Definition offset (e : RawEditor) : nat := line_starts (take (cursor e).1 (lines e)) + (cursor e).2.

Definition cursor_ok (e : RawEditor) : Prop := exists l, lines e !! (cursor e).1 = Some l /\ (cursor e).2 <= length l.

Definition insert_at (c : list string) (t : list string) (o : nat) : list string * nat := (take o t ++ c ++ drop o t, o + length c).

(** What a key does to a text and a position in it; [None] for the moves between the lines. *)
Definition text_key (k : KeyEvent) (t : list string) (o : nat) : option (list string * nat) :=
  match code k with
  | KEnter => Some (insert_at [newline] t o)
  | KTab => Some (insert_at [" "; " "] t o)
  | KChar c => Some (if mod_control k then (t, o) else insert_at [c] t o)
  | KBackspace => Some (take (pred o) t ++ drop o t, pred o)
  | KDelete => Some (take o t ++ drop (S o) t, o)
  | KLeft => Some (t, pred o)
  | KRight => Some (t, Nat.min (S o) (length t))
  | KUp | KDown | KHome | KEnd => None
  | _ => Some (t, o)
  end.

(** ** Lines around the cursor *)

Definition before_lines (l : list (list string)) : list string := concat (map (fun x => x ++ [newline]) l).
Definition after_lines (l : list (list string)) : list string := concat (map (cons newline) l).

Lemma join_lines_middle b l a : join_lines (b ++ l :: a) = before_lines b ++ l ++ after_lines a.
Proof.
  induction b as [|x b IH]; [done|]. unfold before_lines in *. simpl in *. rewrite <- !app_assoc. simpl. rewrite <- IH.
  destruct b as [|y b]; done.
Qed.

Lemma before_lines_length b : length (before_lines b) = line_starts b.
Proof. unfold before_lines, line_starts. induction b as [|x b IH]; [done|]. simpl. rewrite !length_app, IH. simpl. lia. Qed.

Lemma before_lines_snoc b l : before_lines (b ++ [l]) = before_lines b ++ l ++ [newline].
Proof. unfold before_lines. rewrite map_app, concat_app. simpl. by rewrite app_nil_r. Qed.

(** A buffer whose cursor is in a line. *)
Definition around (b : list (list string)) (p s : list string) (a : list (list string)) (err : option string) : RawEditor :=
  mk_raw (b ++ (p ++ s) :: a) (length b, length p) err.

Lemma cursor_around e : cursor_ok e <-> exists b p s a, e = around b p s a (raw_error e).
Proof.
  destruct e as [ls [row col] err]. unfold cursor_ok, around. simpl. split.
  - intros (l & Hl & Hc). exists (take row ls), (take col l), (drop col l), (drop (S row) ls).
    pose proof (lookup_lt_Some _ _ _ Hl). rewrite take_drop, !length_take, !Nat.min_l by lia. by rewrite take_drop_middle.
  - intros (b & p & s & a & [= -> -> ->]). exists (p ++ s). rewrite list_lookup_middle by done. rewrite length_app. split; [done|lia].
Qed.

Lemma flat_around b p s a err : flat (around b p s a err) = (before_lines b ++ p) ++ s ++ after_lines a.
Proof. unfold flat, around. simpl. by rewrite join_lines_middle, <- !app_assoc. Qed.

Lemma offset_around b p s a err : offset (around b p s a err) = length (before_lines b ++ p).
Proof. unfold offset, around. simpl. by rewrite take_app_length, length_app, before_lines_length. Qed.

Lemma around_ok b p s a err : cursor_ok (around b p s a err).
Proof. apply cursor_around. by exists b, p, s, a. Qed.

Lemma line_around b p s a err : line_at (around b p s a err) (length b) = p ++ s.
Proof. unfold line_at, around. simpl. by rewrite list_lookup_middle by done. Qed.

(** ** The operations *)

Lemma insert_char_around c b p s a err : insert_char c (around b p s a err) = around b (p ++ [c]) s a None.
Proof.
  unfold insert_char. simpl. unfold around. f_equal.
  - rewrite alter_app_r_alt, Nat.sub_diag by lia. simpl. by rewrite take_app_length, drop_app_length, <- app_assoc.
  - rewrite length_app. simpl. f_equal. lia.
Qed.

Lemma insert_newline_around b p s a err : insert_newline (around b p s a err) = around (b ++ [p]) [] s a None.
Proof.
  unfold insert_newline. simpl. rewrite line_around. unfold around. f_equal.
  - rewrite take_app_length, take_app_length, drop_app_length. simpl. rewrite <- app_assoc. simpl. do 3 f_equal.
    change (b ++ (p ++ s) :: a) with (b ++ [p ++ s] ++ a). rewrite app_assoc.
    replace (S (length b)) with (length (b ++ [p ++ s])) by (rewrite length_app; simpl; lia). apply drop_app_length.
  - rewrite length_app. simpl. f_equal. lia.
Qed.

Lemma backspace_around_char b p c s a err : backspace (around b (p ++ [c]) s a err) = around b p s a None.
Proof.
  unfold backspace, around. simpl. rewrite length_app, Nat.add_1_r. f_equal.
  rewrite alter_app_r_alt, Nat.sub_diag by lia. simpl. rewrite <- app_assoc. rewrite take_app_length. simpl.
  do 2 f_equal. change (c :: s) with ([c] ++ s). rewrite app_assoc. f_equal.
  replace (S (length p)) with (length (p ++ [c])) by (rewrite length_app; simpl; lia). apply drop_app_length.
Qed.

Lemma backspace_around_line b l s a err : backspace (around (b ++ [l]) [] s a err) = around b l s a None.
Proof.
  unfold backspace, around, line_at. simpl. rewrite length_app, Nat.add_1_r. rewrite <- app_assoc. simpl. f_equal.
  - rewrite take_app_length, list_lookup_middle by done. simpl.
    change (b ++ l :: s :: a) with (b ++ [l] ++ s :: a). rewrite app_assoc.
    replace (S (length b)) with (length (b ++ [l])) by (rewrite length_app; simpl; lia).
    rewrite list_lookup_middle by done. simpl. do 3 f_equal. change (s :: a) with ([s] ++ a). rewrite app_assoc.
    replace (S (length (b ++ [l]))) with (length ((b ++ [l]) ++ [s])) by (rewrite length_app; simpl; lia). apply drop_app_length.
  - by rewrite list_lookup_middle.
Qed.

Lemma delete_around_char b p c s a err : delete (around b p (c :: s) a err) = around b p s a None.
Proof.
  unfold delete. simpl. rewrite line_around, length_app. simpl. rewrite (proj2 (Nat.ltb_lt _ _)) by lia. unfold around. simpl. f_equal.
  rewrite alter_app_r_alt, Nat.sub_diag by lia. simpl. rewrite take_app_length. do 2 f_equal. change (c :: s) with ([c] ++ s). rewrite app_assoc. f_equal.
  replace (S (length p)) with (length (p ++ [c])) by (rewrite length_app; simpl; lia). apply drop_app_length.
Qed.

Lemma delete_around_line b p l a err : delete (around b p [] (l :: a) err) = around b p l a None.
Proof.
  unfold delete. simpl. rewrite line_around, app_nil_r, Nat.ltb_irrefl. unfold around, line_at. simpl. rewrite app_nil_r, length_app. simpl.
  rewrite (proj2 (Nat.ltb_lt _ _)) by lia. f_equal. rewrite take_app_length. do 2 f_equal.
  - f_equal. change (b ++ p :: l :: a) with (b ++ [p] ++ l :: a). rewrite app_assoc.
    replace (S (length b)) with (length (b ++ [p])) by (rewrite length_app; simpl; lia). by rewrite list_lookup_middle.
  - change (b ++ p :: l :: a) with (b ++ [p] ++ [l] ++ a). rewrite !app_assoc.
    replace (S (S (length b))) with (length ((b ++ [p]) ++ [l])) by (rewrite !length_app; simpl; lia). apply drop_app_length.
Qed.

Lemma delete_around_end b p err : delete (around b p [] [] err) = around b p [] [] None.
Proof.
  unfold delete. simpl. rewrite line_around, app_nil_r, Nat.ltb_irrefl. unfold around. cbn [lines cursor raw_error]. rewrite length_app, Nat.add_1_r.
  by rewrite Nat.ltb_irrefl, ?app_nil_r.
Qed.

Lemma left_around_char b p c s a err : move_left (around b (p ++ [c]) s a err) = around b p (c :: s) a err.
Proof. unfold move_left, around, at_cursor. simpl. rewrite length_app, Nat.add_1_r. by rewrite <- app_assoc. Qed.

Lemma left_around_line b l s a err : move_left (around (b ++ [l]) [] s a err) = around b l [] (s :: a) err.
Proof.
  unfold move_left, around, at_cursor, line_at. simpl. rewrite length_app, Nat.add_1_r. simpl. rewrite <- app_assoc. simpl.
  by rewrite list_lookup_middle, app_nil_r by done.
Qed.

Lemma right_around_char b p c s a err : move_right (around b p (c :: s) a err) = around b (p ++ [c]) s a err.
Proof.
  unfold move_right. simpl. rewrite line_around, length_app. simpl. rewrite (proj2 (Nat.ltb_lt _ _)) by lia.
  unfold around, at_cursor. simpl. rewrite length_app, <- app_assoc, Nat.add_1_r. done.
Qed.

Lemma right_around_line b p l a err : move_right (around b p [] (l :: a) err) = around (b ++ [p]) [] l a err.
Proof.
  unfold move_right. simpl. rewrite line_around, app_nil_r, Nat.ltb_irrefl. unfold around, at_cursor. simpl. rewrite !length_app, app_nil_r. simpl.
  rewrite (proj2 (Nat.ltb_lt _ _)) by lia. by rewrite <- app_assoc, Nat.add_1_r.
Qed.

Lemma right_around_end b p err : move_right (around b p [] [] err) = around b p [] [] err.
Proof.
  unfold move_right. simpl. rewrite line_around, app_nil_r, Nat.ltb_irrefl. unfold around. cbn [lines cursor raw_error]. rewrite length_app, Nat.add_1_r.
  by rewrite Nat.ltb_irrefl, ?app_nil_r.
Qed.

(** A move to a column of some line. *)
Lemma at_cursor_ok e row col l : lines e !! row = Some l -> col <= length l -> cursor_ok (at_cursor e (row, col)) /\ flat (at_cursor e (row, col)) = flat e.
Proof. intros Hl Hc. split; [by exists l|done]. Qed.

Lemma vertical_ok e : cursor_ok e ->
  (cursor_ok (move_up e) /\ flat (move_up e) = flat e) /\ (cursor_ok (move_down e) /\ flat (move_down e) = flat e) /\
  (cursor_ok (move_home e) /\ flat (move_home e) = flat e) /\ (cursor_ok (move_end e) /\ flat (move_end e) = flat e).
Proof.
  intros He. pose proof He as (l & Hl & Hc). unfold move_up, move_down, move_home, move_end. destruct (cursor e) as [row col] eqn:E. simpl in *.
  assert (Hrow : forall r, r < length (lines e) -> lines e !! r = Some (line_at e r)).
  { intros r [x Hx]%lookup_lt_is_Some. unfold line_at. by rewrite Hx. }
  pose proof (lookup_lt_Some _ _ _ Hl). split; [|split; [|split]].
  - destruct row as [|row]; [done|]. apply (at_cursor_ok e row _ (line_at e row)); [apply Hrow|]; lia.
  - destruct (Nat.ltb_spec (S row) (length (lines e))); [|done]. apply (at_cursor_ok e (S row) _ (line_at e (S row))); [by apply Hrow|lia].
  - apply (at_cursor_ok e row _ l); [done|lia].
  - apply (at_cursor_ok e row _ l); [done|]. unfold line_at. by rewrite Hl.
Qed.

(** ** The refinement *)

Lemma text_around b p s a err : to_text (around b p s a err) = concat_chars (flat (around b p s a err)).
Proof.
  unfold to_text, flat. generalize (lines (around b p s a err)). intros l.
  assert (Happ : forall x y, concat_chars (x ++ y) = String.append (concat_chars x) (concat_chars y)).
  { induction x as [|c x IH]; intros y; [done|]. simpl. rewrite IH. clear. induction c as [|d c IHc]; [done|]. simpl. by rewrite IHc. }
  destruct l as [|x l]; [done|]. simpl. rewrite Happ. revert x. induction l as [|y l IH]; intros x; simpl.
  - clear. induction (concat_chars x) as [|c r IHr]; [done|]. simpl. by rewrite <- IHr.
  - rewrite Happ, <- IH. done.
Qed.

Lemma insert_at_around b p s a err c : insert_at c (flat (around b p s a err)) (offset (around b p s a err)) =
  ((before_lines b ++ p ++ c) ++ s ++ after_lines a, length (before_lines b ++ p ++ c)).
Proof.
  rewrite flat_around, offset_around. unfold insert_at. rewrite take_app_length, drop_app_length, <- !app_assoc. f_equal. rewrite !length_app. lia.
Qed.

(** The buffer [e] is the text [t] with the cursor at [o]. *)
Definition shows (e : RawEditor) (t : list string) (o : nat) : Prop := cursor_ok e /\ flat e = t /\ offset e = o.

Lemma shows_around b p s a err t u : before_lines b ++ p = t -> s ++ after_lines a = u -> shows (around b p s a err) (t ++ u) (length t).
Proof. intros <- <-. split; [apply around_ok|]. by rewrite flat_around, offset_around. Qed.

Lemma after_cons l a : after_lines (l :: a) = newline :: l ++ after_lines a.
Proof. done. Qed.

Lemma snoc_length {A} (l : list A) x : length (l ++ [x]) = S (length l).
Proof. rewrite length_app. simpl. lia. Qed.

Lemma left_shows e : cursor_ok e -> shows (move_left e) (flat e) (pred (offset e)).
Proof.
  intros (b & p & s & a & ->)%cursor_around. rewrite flat_around, offset_around. destruct p as [|c p _] using rev_ind; [destruct b as [|l b _] using rev_ind|].
  - by apply (shows_around [] [] s a).
  - rewrite left_around_line, app_nil_r, before_lines_snoc. rewrite (app_assoc _ l), snoc_length. simpl. rewrite <- app_assoc.
    by apply shows_around.
  - rewrite left_around_char, (app_assoc _ p [c]), snoc_length, <- (app_assoc _ [c]). by apply shows_around.
Qed.

Lemma right_shows e : cursor_ok e -> shows (move_right e) (flat e) (Nat.min (S (offset e)) (length (flat e))).
Proof.
  intros (b & p & s & a & ->)%cursor_around. rewrite flat_around, offset_around. destruct s as [|c s]; [destruct a as [|l a]|].
  - rewrite right_around_end, Nat.min_r by (rewrite !length_app; simpl; lia). rewrite (length_app _ ([] ++ _)), Nat.add_0_r. by apply shows_around.
  - rewrite right_around_line, after_cons. rewrite Nat.min_l by (rewrite !length_app; simpl; lia). rewrite <- snoc_length with (x := newline).
    change ([] ++ newline :: l ++ after_lines a) with ([newline] ++ l ++ after_lines a). rewrite (app_assoc _ [newline]). apply shows_around; [|done].
    by rewrite before_lines_snoc, app_nil_r, app_assoc.
  - rewrite right_around_char. rewrite Nat.min_l by (rewrite !length_app; simpl; lia). rewrite <- snoc_length with (x := c).
    change ((c :: s) ++ after_lines a) with ([c] ++ s ++ after_lines a). rewrite (app_assoc _ [c]). apply shows_around; [by rewrite app_assoc|done].
Qed.

Lemma backspace_shows e : cursor_ok e -> shows (backspace e) (take (pred (offset e)) (flat e) ++ drop (offset e) (flat e)) (pred (offset e)).
Proof.
  intros (b & p & s & a & ->)%cursor_around. rewrite flat_around, offset_around, drop_app_length. destruct p as [|c p _] using rev_ind; [destruct b as [|l b _] using rev_ind|].
  - by apply (shows_around [] [] s a).
  - rewrite backspace_around_line, app_nil_r, before_lines_snoc. rewrite (app_assoc _ l), snoc_length. simpl. rewrite <- (app_assoc _ [newline]), take_app_length.
    by apply shows_around.
  - rewrite backspace_around_char, (app_assoc _ p [c]), snoc_length, <- (app_assoc _ [c]). simpl. rewrite take_app_length. by apply shows_around.
Qed.

Lemma delete_shows e : cursor_ok e -> shows (delete e) (take (offset e) (flat e) ++ drop (S (offset e)) (flat e)) (offset e).
Proof.
  intros (b & p & s & a & ->)%cursor_around. rewrite flat_around, offset_around, take_app_length. destruct s as [|c s]; [destruct a as [|l a]|].
  - rewrite delete_around_end, drop_ge by (unfold after_lines; rewrite !length_app; simpl; lia). by apply shows_around.
  - rewrite delete_around_line, after_cons, <- snoc_length with (x := newline).
    change ([] ++ newline :: l ++ after_lines a) with ([newline] ++ l ++ after_lines a). rewrite (app_assoc _ [newline]), drop_app_length.
    by apply shows_around.
  - rewrite delete_around_char, <- snoc_length with (x := c). change ((c :: s) ++ after_lines a) with ([c] ++ s ++ after_lines a).
    rewrite (app_assoc _ [c]), drop_app_length. by apply shows_around.
Qed.

Lemma insert_shows e e' c : cursor_ok e -> (forall b p s a, e = around b p s a (raw_error e) -> exists b' p', e' = around b' p' s a None /\ before_lines b' ++ p' = before_lines b ++ p ++ c) ->
  shows e' (insert_at c (flat e) (offset e)).1 (insert_at c (flat e) (offset e)).2.
Proof.
  intros (b & p & s & a & He)%cursor_around Hi. destruct (Hi b p s a He) as (b' & p' & -> & Hb). rewrite He, insert_at_around. cbn [fst snd].
  rewrite <- Hb. by apply shows_around.
Qed.

Lemma raw_edit_step e k : cursor_ok e ->
  let e' := (dispatch e k).1 in
  cursor_ok e' /\ ((dispatch e k).2 = RawContinue ->
    match text_key k (flat e) (offset e) with Some (t, o) => flat e' = t /\ offset e' = o | None => flat e' = flat e end).
Proof.
  intros He e'. unfold e'. clear e'. destruct (vertical_ok e He) as (Hup & Hdown & Hhome & Hend). unfold dispatch.
  destruct (char_key "s" k && mod_control k); [by split|]. destruct (char_key "r" k && mod_control k); [by split|].
  enough (Hg : forall e', match text_key k (flat e) (offset e) with Some (t, o) => shows e' t o | None => cursor_ok e' /\ flat e' = flat e end ->
    cursor_ok e' /\ (RawContinue = RawContinue -> match text_key k (flat e) (offset e) with Some (t, o) => flat e' = t /\ offset e' = o | None => flat e' = flat e end)).
  - assert (Hsame : shows e (flat e) (offset e)) by done. unfold text_key in *.
    destruct (code k) as [| | | | | | | | | | | | | |c|] eqn:E; cbn [fst snd]; try (by split); apply Hg; try done.
    + apply insert_shows; [done|]. intros b p s a ->. rewrite insert_newline_around. exists (b ++ [p]), []. split; [done|]. by rewrite before_lines_snoc, app_nil_r.
    + by apply left_shows.
    + by apply right_shows.
    + apply insert_shows; [done|]. intros b p s a ->. unfold insert_str. simpl. rewrite !insert_char_around. exists b, ((p ++ [" "]) ++ [" "]).
      split; [done|]. by rewrite <- !app_assoc.
    + by apply backspace_shows.
    + by apply delete_shows.
    + destruct (mod_control k); [done|]. apply insert_shows; [done|]. intros b p s a ->. rewrite insert_char_around. by exists b, (p ++ [c]).
  - intros e'. destruct (text_key k (flat e) (offset e)) as [[t o]|]; [intros (? & ? & ?); by split|intros [? ?]; by split].
Qed.

(** [C37] The raw editor is an editor of one text: from the seed on, the cursor is in the buffer, and each
    key that does not leave the editor inserts or removes, at the position of the cursor in
    the text, exactly what it says, or moves the cursor by one character or along the lines; no
    index is out of bounds. *)
Theorem raw_edit_refines e k : cursor_ok e -> (dispatch e k).2 = RawContinue ->
  let e' := (dispatch e k).1 in
  cursor_ok e' /\ to_text e' = concat_chars (flat e') /\
  match text_key k (flat e) (offset e) with Some (t, o) => flat e' = t /\ offset e' = o | None => flat e' = flat e end.
Proof.
  intros He Hk e'. destruct (raw_edit_step e k He) as [Hc Ht]. split; [done|]. split; [|by apply Ht].
  unfold e'. apply cursor_around in Hc as (b & p & s & a & ->). apply text_around.
Qed.

(** The seed is the text that is edited first. *)
Lemma seed_text s : to_text (from_seed s) = s /\ cursor_ok (from_seed s).
Proof.
  split.
  - unfold to_text, from_seed. simpl. rewrite map_map. rewrite (map_ext _ id) by (intros; apply concat_utf8_chars). rewrite map_id.
    unfold newline. induction s as [|c s IH]; [done|]. simpl. destruct (Ascii.eqb_spec c (ascii_of_nat 10)) as [->|Hc].
    + destruct (split_char (ascii_of_nat 10) s) eqn:E; [by destruct s as [|d s]; simpl in E; [|destruct (Ascii.eqb d _); [|destruct (split_char _ s)]]|].
      simpl in *. by rewrite IH.
    + destruct (split_char (ascii_of_nat 10) s) as [|h t]; simpl in *; [by rewrite <- IH|]. destruct t; simpl in *; by rewrite <- IH.
  - unfold cursor_ok, from_seed. simpl. destruct s as [|c s]; simpl; [by exists []|].
    destruct (Ascii.eqb c _); simpl; [exists []; split; [done|simpl; lia]|]. destruct (split_char _ s); simpl; eexists; (split; [done|lia]).
Qed.

Definition sample_keys : list KeyEvent := [typed "["; press KEnter; typed "1"; press KUp; press KEnd; press KDelete; typed "]"].

Lemma raw_edit_refines_witness :
  let e := fold_left (fun e k => (dispatch e k).1) sample_keys (from_seed "{}") in
  to_text e = "[]1{}" /\ flat (dispatch e (press KBackspace)).1 = ["["; "1"; "{"; "}"].
Proof.
  split; [by vm_compute|]. set (e := fold_left _ _ _).
  exact (proj1 (proj2 (proj2 (raw_edit_refines e (press KBackspace) ltac:(exists ["["; "]"; "1"; "{"; "}"]; vm_compute; split; [reflexivity|repeat constructor]) eq_refl)))).
Defined.
