(* ===== verification/Fields.v ===== *)
(** The fields of a terminal form ([inline/form.rs], [inline/form_builder.rs]): their data, how
    they are built from what a run asks for, and how their text becomes JSON again
    ([coerce_to_schema] in [frontend/mod.rs]). *)

From stdpp Require Import base gmap strings list.
From Stdlib Require Import ZArith Lia Ascii.
From S2P Require Import Prelude Text Kebab Time Json JsonNormal Catalogue Results Workflow AutoDerive Pagination Shape Options ReviewPlan Executor Bindings.

#[local] Arguments String.append !_ _ /.

(** * Data *)

Inductive FieldKey : Type := KeySlot (id : nat) | KeyInput (name : string) | KeyReview (id : nat).

Inductive FieldType : Type :=
| TScalar
| TEnum (variants : list string)
| TBool
| TJsonBody
| TDynamicEnum
| TDateTime
| TFilePicker.

Inductive FieldValue : Type :=
| FScalar (s : string)
| FEnum (o : option string)
| FBool (o : option bool)
| FJsonBody (s : string)
| FEmpty.

Record ResolvedChoices : Type := mk_resolved_choices { dep_key : gmap string value; res_choices : list OptionChoice; res_truncated : bool }.

Record DynamicEnumState : Type := mk_dynamic {
  dyn_source : OptionsSource;
  deps : list string;
  optional_deps : list string;
  dyn_resolved : option ResolvedChoices
}.

Inductive FieldSource : Type :=
| SourceFlag | SourceUserInput | SourceDefault | SourceOptional | SourceWorkflowInput | SourceLiteral | SourcePriorOutput
| SourceDerived (sources : list string).

Record FormField : Type := mk_form_field {
  label : string;
  field_type : FieldType;
  required : bool;
  field_value : FieldValue;
  field_description : string;
  source : FieldSource;
  key : FieldKey;
  schema : value;
  read_only : bool;
  dynamic : option DynamicEnumState;
  file_picker : option FilePickerSpec
}.

#[global] Instance field_key_eq_dec : EqDecision FieldKey.
Proof. solve_decision. Defined.

#[global] Instance field_type_eq_dec : EqDecision FieldType.
Proof. solve_decision. Defined.

Definition with_value (v : FieldValue) (src : FieldSource) (f : FormField) : FormField :=
  mk_form_field (label f) (field_type f) (required f) v (field_description f) src (key f) (schema f) (read_only f) (dynamic f) (file_picker f).

Definition with_dynamic (d : option DynamicEnumState) (f : FormField) : FormField :=
  mk_form_field (label f) (field_type f) (required f) (field_value f) (field_description f) (source f) (key f) (schema f) (read_only f) d (file_picker f).

(** * Values and their text *)

Definition field_value_string (v : FieldValue) : option string :=
  match v with
  | FScalar s | FJsonBody s => if is_empty s then None else Some s
  | FEnum (Some s) => Some s
  | FBool (Some b) => Some (if b then "true" else "false")
  | _ => None
  end.

Definition is_filled (v : FieldValue) : bool :=
  match v with
  | FScalar s | FJsonBody s => negb (is_empty s)
  | FEnum o => bool_decide (is_Some o)
  | FBool o => bool_decide (is_Some o)
  | FEmpty => false
  end.

(** Floats of Rust's standard library, as texts: [str::parse::<f64>] (the inner [None] is a number
    that is not finite), the text [serde_json] writes, [u64 as f64], and [f64]'s own [Display]. *)
Class FloatText : Type := {
  float_parse : string -> option (option string);
  float_of_u64 : Z -> string;
  float_display : string -> string
}.

Section fields.
Context `{JsonText, !JsonPretty, UnicodeCase, FloatText}.

Definition to_string_pretty (v : value) : string := of_bytes (to_vec_pretty v).

(** [serde_json::from_str] to a [Value]. *)
Definition parse_value (s : string) : option value := normalize <$> parse_json s.

Definition schema_type (schema : value) : option string := t ← get_key "type" schema; as_str t.

Definition coerce_to_schema (raw : string) (schema : value) : value :=
  let hint := default "string" (schema_type schema) in
  if String.eqb hint "string" then Str raw
  else if String.eqb hint "integer" then match parse_i64 raw with Some n => int n | None => Str raw end
  else if String.eqb hint "number" then
    match float_parse raw with Some (Some r) => Number (NFloat r) | Some None => Null | None => Str raw end
  else if String.eqb hint "boolean" then
    let lower := to_lowercase raw in
    if String.eqb lower "true" then Bool true else if String.eqb lower "false" then Bool false else Str raw
  else if String.eqb hint "array" || String.eqb hint "object" then default (Str raw) (parse_value raw)
  else if String.eqb hint "null" then Null
  else Str raw.

Definition strings_of (l : list value) : list string := omap as_str l.

(** The strings of an [enum] array. *)
Definition enum_variants (schema : value) : option (list string) := strings_of <$> (get_key "enum" schema ≫= as_array).

Definition schema_to_field_type (schema : value) : FieldType :=
  match enum_variants schema with
  | Some variants => TEnum variants
  | None =>
      let type_str := default EmptyString (schema_type schema) in
      if String.eqb type_str "object" || String.eqb type_str "array" || bool_decide (is_Some (get_key "properties" schema)) then TJsonBody
      else if String.eqb type_str "boolean" then TBool
      else TScalar
  end.

Definition value_to_field_value (v : value) : FieldValue :=
  match v with
  | Str s => FScalar s
  | Bool b => FBool (Some b)
  | Number n => FScalar (number_text n)
  | Object _ | Array _ => FJsonBody (to_string_pretty v)
  | Null => FEmpty
  end.

(** * Required keys of a JSON body *)

(** The names a schema requires. *)
Definition required_names (schema : value) : option (list string) := strings_of <$> (get_key "required" schema ≫= as_array).

Definition property_schema (schema : value) (name : string) : option value := p ← get_key "properties" schema; get_key name p.

Fixpoint json_meets_schema_required (v schema : value) {struct v} : bool :=
  match v with
  | Array items =>
      match get_key "items" schema with
      | Some item_schema => forallb (fun item => json_meets_schema_required item item_schema) items
      | None => true
      end
  | Object obj =>
      match required_names schema with
      | Some names =>
          forallb (fun name =>
            (fix find (l : list (string * value)) : bool :=
               match l with
               | [] => false
               | (k, child) :: r =>
                   if String.eqb name k then
                     negb (is_null child) && match property_schema schema name with Some s => json_meets_schema_required child s | None => true end
                   else find r
               end) obj) names
      | None => true
      end
  | _ => true
  end.

Definition push_path_key (path name : string) : string := if is_empty path then name else path +:+ "." +:+ name.

Definition index_path (path : string) (i : nat) : string := path +:+ "[" +:+ show_int (Z.of_nat i) +:+ "]".

Fixpoint collect_missing_required (v schema : value) (path : string) {struct v} : list string :=
  match v with
  | Array items =>
      match get_key "items" schema with
      | Some item_schema =>
          (fix go (i : nat) (l : list value) : list string :=
             match l with [] => [] | item :: r => collect_missing_required item item_schema (index_path path i) ++ go (S i) r end) 0%nat items
      | None => []
      end
  | Object obj =>
      match required_names schema with
      | Some names =>
          concat (map (fun name =>
            (fix find (l : list (string * value)) : list string :=
               match l with
               | [] => [push_path_key path name]
               | (k, child) :: r =>
                   if String.eqb name k then
                     if is_null child then [push_path_key path name]
                     else match property_schema schema name with Some s => collect_missing_required child s (push_path_key path name) | None => [] end
                   else find r
               end) obj) names)
      | None => []
      end
  | _ => []
  end.

Definition missing_required_keys (text : string) (schema : value) : list string :=
  match parse_value text with Some v => collect_missing_required v schema EmptyString | None => [] end.

Definition json_satisfies_schema (text : string) (schema : value) : bool :=
  match parse_value text with Some v => json_meets_schema_required v schema | None => false end.

Definition is_field_filled (f : FormField) : bool :=
  is_filled (field_value f) &&
  match field_type f, field_value f with
  | TJsonBody, FJsonBody s => json_satisfies_schema s (schema f)
  | _, _ => true
  end.

(** * Building *)

Definition build_slot_field (slot : WorkflowInputNeeded) : FormField :=
  mk_form_field (need_label slot) (schema_to_field_type (need_schema slot)) (need_required slot)
    (match need_default slot with Some v => value_to_field_value v | None => FEmpty end)
    (default EmptyString (need_description slot)) SourceUserInput (KeySlot (need_id slot)) (need_schema slot) false None None.

Definition supplied_field_source (s : SuppliedSource) : FieldSource := match s with FromFlag => SourceFlag | FromDefault => SourceDefault end.

Definition build_supplied_field (sup : SuppliedInputView) : FormField :=
  mk_form_field (sup_label sup) (schema_to_field_type (sup_schema sup)) false (value_to_field_value (sup_value sup))
    (default EmptyString (sup_description sup)) (supplied_field_source (sup_source sup)) (KeyInput (sup_label sup)) (sup_schema sup) false None None.

Definition build_form_fields (needed : list WorkflowInputNeeded) (supplied : list SuppliedInputView) : list FormField :=
  map build_slot_field needed ++ map build_supplied_field supplied.

Definition reseed_field (result : GatherResult) (f : FormField) : FormField :=
  match key f with
  | KeySlot id => match slot_values result !! id with Some v => with_value (value_to_field_value v) (source f) f | None => f end
  | KeyInput name => match input_overrides result !! name with Some v => with_value (value_to_field_value v) (source f) f | None => f end
  | KeyReview _ => f
  end.

Definition reseed_fields (needed : list WorkflowInputNeeded) (supplied : list SuppliedInputView) (result : GatherResult) : list FormField :=
  map (reseed_field result) (build_form_fields needed supplied).

Definition string_schema : value := typed "string".

Definition gating_deps (source : OptionsSource) : list string :=
  omap (fun nb => match nb.2 with OFromInput n => Some n | _ => None end) (opt_parameters source).
Definition non_gating_deps (source : OptionsSource) : list string :=
  omap (fun nb => match nb.2 with OFromInputOptional n => Some n | _ => None end) (opt_parameters source).

(** The value a picker holds: only a string. *)
Definition picked_value (current : option value) : FieldValue := FEnum (v ← current; as_str v).

Definition build_input_field (current : gmap string value) (dynamic_enums file_pickers : bool) (spec : WorkflowInputSpec) : FormField :=
  let schema := default string_schema (in_schema spec) in
  let is_string := bool_decide (schema_type schema = Some "string") in
  let here := current !! in_name spec in
  let '(ty, dyn, picker, v) :=
    match (if dynamic_enums && is_string then in_options spec else None), (if file_pickers && is_string then in_file_picker spec else None) with
    | Some src, _ => (TDynamicEnum, Some (mk_dynamic src (gating_deps src) (non_gating_deps src) None), None, picked_value here)
    | None, Some p => (TFilePicker, None, Some p, picked_value here)
    | None, None =>
        let ty := if is_string && bool_decide ((f ← get_key "format" schema; as_str f) = Some "date-time") then TDateTime else schema_to_field_type schema in
        (ty, None, None,
         match here with
         | Some v => match ty, v with
                     | TBool, Bool b => FBool (Some b)
                     | TEnum _, Str s => FEnum (Some s)
                     | _, _ => value_to_field_value v
                     end
         | None => match ty with TJsonBody => FJsonBody EmptyString | _ => FEmpty end
         end)
    end in
  mk_form_field (to_kebab_case (in_name spec)) ty (in_required spec) v (default EmptyString (in_description spec)) SourceUserInput
    (KeyInput (in_name spec)) schema false dyn picker.

Definition build_inputs_form (specs : list WorkflowInputSpec) (current : gmap string value) (dynamic_enums file_pickers : bool) : list FormField :=
  map (build_input_field current dynamic_enums file_pickers) specs.

Definition build_full_surface_field (supplied : list SuppliedInputView) (spec : WorkflowInputSpec) : FormField :=
  let schema := default string_schema (in_schema spec) in
  let ty := schema_to_field_type schema in
  let entry := last (List.filter (fun s => String.eqb (sup_label s) (in_name spec)) supplied) in
  let seeded := match entry with
    | Some s => Some (sup_value s)
    | None => match ty with TJsonBody => None | _ => in_default spec end
    end in
  mk_form_field (to_kebab_case (in_name spec)) ty (in_required spec)
    (match seeded with Some v => value_to_field_value v | None => match ty with TJsonBody => FJsonBody EmptyString | _ => FEmpty end end)
    (default EmptyString (in_description spec))
    (match entry with Some s => supplied_field_source (sup_source s) | None => SourceUserInput end)
    (KeyInput (in_name spec)) schema false None None.

Definition build_full_surface_fields (full_inputs : list WorkflowInputSpec) (supplied : list SuppliedInputView) : list FormField :=
  map (build_full_surface_field supplied) full_inputs.

(** [Value]'s [Display]. *)
Definition display_value (v : value) : string := match v with Number n => number_text n | _ => json_to_string v end.

(** The row of a plan's field. *)
Definition review_value (ty : FieldType) (v : value) : FieldValue :=
  match v with
  | Null => FEmpty
  | _ =>
      match ty, v with
      | TBool, Bool b => FBool (Some b)
      | TEnum _, Str s => FEnum (Some s)
      | TJsonBody, _ | _, Object _ | _, Array _ => FJsonBody (to_string_pretty v)
      | _, Str s => FScalar s
      | _, _ => FScalar (display_value v)
      end
  end.

Definition review_source (s : StepFieldSource) : FieldSource :=
  match s with
  | SrcWorkflowInput _ => SourceWorkflowInput
  | SrcDefault _ => SourceDefault
  | SrcLiteral => SourceLiteral
  | SrcPriorOutput => SourcePriorOutput
  | SrcUnset => SourceUserInput
  | SrcDerived sources => SourceDerived sources
  end.

Definition review_read_only (f : StepField) : bool :=
  bool_decide (is_Some (f_workflow_input f)) || match f_source f with SrcPriorOutput | SrcDerived _ => true | _ => false end.

Definition review_field (f : StepField) : FormField :=
  let ty := schema_to_field_type (f_schema f) in
  mk_form_field (f_label f) ty (f_required f) (review_value ty (f_value f)) (default EmptyString (f_description f)) (review_source (f_source f))
    (KeyReview (f_id f)) (f_schema f) (review_read_only f) None None.

Definition shown_in_review (f : StepField) : bool :=
  negb (f_body_overflow f) && match f_source f with SrcLiteral => f_show_in_review f | _ => true end.

Definition step_plan_fields (plan : StepFieldPlan) : list FormField :=
  sort_by (fun a b => implb (read_only b) (read_only a)) (map review_field (List.filter shown_in_review (plan_fields plan))).

(** * Projecting *)

Definition field_json (f : FormField) : option value := (fun raw => coerce_to_schema raw (schema f)) <$> field_value_string (field_value f).

Definition project_field (result : GatherResult) (f : FormField) : GatherResult :=
  match field_json f with
  | None => result
  | Some v =>
      match key f with
      | KeySlot id => mk_gather (<[id := v]> (slot_values result)) (input_overrides result)
      | KeyInput name => mk_gather (slot_values result) (<[name := v]> (input_overrides result))
      | KeyReview _ => result
      end
  end.

Definition project_gathered (fields : list FormField) : GatherResult := foldl project_field (mk_gather ∅ ∅) fields.

Definition project_inputs (fields : list FormField) : gmap string value :=
  foldl (fun m f => match key f, field_json f with KeyInput name, Some v => <[name := v]> m | _, _ => m end) ∅ fields.

(** The plan field of an id: the last, as in a map. *)
Definition plan_by_id (plan : StepFieldPlan) (id : nat) : option StepField := last (List.filter (fun f => Nat.eqb (f_id f) id) (plan_fields plan)).

Definition field_edit (plan : StepFieldPlan) (f : FormField) : option (nat * value) :=
  if read_only f then None
  else
    match key f with
    | KeyReview id =>
        p ← plan_by_id plan id;
        v ← field_json f;
        if bool_decide (v = f_value p) then None else Some (id, v)
    | _ => None
    end.

(** [BTreeMap::insert] of an edit. *)
Fixpoint insert_edit (id : nat) (v : value) (l : StepFieldEdits) : StepFieldEdits :=
  match l with
  | [] => [(id, v)]
  | (i, w) :: r => if Nat.eqb id i then (id, v) :: r else if Nat.ltb id i then (id, v) :: (i, w) :: r else (i, w) :: insert_edit id v r
  end.

Definition project_step_edits (fields : list FormField) (plan : StepFieldPlan) : StepFieldEdits :=
  foldl (fun l f => match field_edit plan f with Some (id, v) => insert_edit id v l | None => l end) [] fields.

(** * The order of a gather form *)

Definition location_rank (l : StepFieldLocation) : nat := match l with LPath => 0 | LQuery => 1 | LHeader => 2 | LBody => 3 | LFormData => 4 end%nat.

Definition field_le (loc : string -> StepFieldLocation) (a b : FormField) : bool :=
  match Nat.compare (location_rank (loc (label a))) (location_rank (loc (label b))) with
  | Lt => true
  | Gt => false
  | Eq => match String.compare (to_lowercase (label a)) (to_lowercase (label b)) with Gt => false | _ => true end
  end.

Definition sort_form_fields_by_location (loc_by_label : gmap string StepFieldLocation) (fields : list FormField) : list FormField :=
  sort_by (field_le (fun l => default LBody (loc_by_label !! l))) fields.

Definition gather_locations (needed : list WorkflowInputNeeded) (supplied : list SuppliedInputView) : gmap string StepFieldLocation :=
  list_to_map (rev (map (fun n => (need_label n, need_location n)) needed ++ map (fun s => (sup_label s, sup_location s)) supplied)).

Definition sort_gather_fields_by_location (needed : list WorkflowInputNeeded) (supplied : list SuppliedInputView) (fields : list FormField) : list FormField :=
  sort_form_fields_by_location (gather_locations needed supplied) fields.

Definition sort_full_surface_fields (fields : list FormField) (full_inputs : list WorkflowInputSpec) : list FormField :=
  sort_form_fields_by_location (list_to_map (rev (map (fun s => (to_kebab_case (in_name s), in_location s)) full_inputs))) fields.

End fields.
