(* ===== verification/Forms.v ===== *)
(** The form of a terminal surface ([inline/form.rs]) and the keys that drive it
    ([inline/phases/form.rs]): focus, editing, the buttons, and submission. *)

From stdpp Require Import base gmap strings list.
From Stdlib Require Import ZArith Lia Ascii.
From S2P Require Import Prelude Text Kebab Json Catalogue Workflow Shape Options Executor Widgets Fields.

#[local] Arguments String.append !_ _ /.
#[local] Open Scope nat_scope.

(** * The form *)

Inductive EditKind : Type := EditText (buffer : string) | EditDate (d : DateEditState).

Record EditState : Type := mk_edit_state { edit_kind : EditKind; field_index : nat }.

Inductive ConfirmSkipChoice : Type := ChooseConfirm | ChooseSkip.

(** The scroll offset and the texts of the box belong to the drawing. *)
Record Form : Type := mk_form {
  fields : list FormField;
  focus : nat;
  editing : option EditState;
  submit_focusable : bool;
  validation_note : option string;
  run_mode_buttons : bool;
  run_mode_focus : nat;
  confirm_skip_buttons : bool;
  confirm_skip_focus : nat;
  optional_filter : bool;
  show_optional : bool
}.

Section form.
Context `{JsonText, !JsonPretty, UnicodeCase, FloatText}.

Definition new_form (fs : list FormField) : Form := mk_form fs 0 None false None false 0 false 0 false false.

Definition set_fields (fs : list FormField) (f : Form) : Form :=
  mk_form fs (focus f) (editing f) (submit_focusable f) (validation_note f) (run_mode_buttons f) (run_mode_focus f) (confirm_skip_buttons f)
    (confirm_skip_focus f) (optional_filter f) (show_optional f).
Definition set_focus (n : nat) (f : Form) : Form :=
  mk_form (fields f) n (editing f) (submit_focusable f) (validation_note f) (run_mode_buttons f) (run_mode_focus f) (confirm_skip_buttons f)
    (confirm_skip_focus f) (optional_filter f) (show_optional f).
Definition set_editing (e : option EditState) (f : Form) : Form :=
  mk_form (fields f) (focus f) e (submit_focusable f) (validation_note f) (run_mode_buttons f) (run_mode_focus f) (confirm_skip_buttons f)
    (confirm_skip_focus f) (optional_filter f) (show_optional f).
Definition set_note (n : option string) (f : Form) : Form :=
  mk_form (fields f) (focus f) (editing f) (submit_focusable f) n (run_mode_buttons f) (run_mode_focus f) (confirm_skip_buttons f)
    (confirm_skip_focus f) (optional_filter f) (show_optional f).
Definition with_submit_focusable (b : bool) (f : Form) : Form :=
  mk_form (fields f) (focus f) (editing f) b (validation_note f) (run_mode_buttons f) (run_mode_focus f) (confirm_skip_buttons f)
    (confirm_skip_focus f) (optional_filter f) (show_optional f).
Definition with_run_mode (b : bool) (n : nat) (f : Form) : Form :=
  mk_form (fields f) (focus f) (editing f) (submit_focusable f) (validation_note f) b n (confirm_skip_buttons f)
    (confirm_skip_focus f) (optional_filter f) (show_optional f).
Definition with_confirm_skip (b : bool) (n : nat) (f : Form) : Form :=
  mk_form (fields f) (focus f) (editing f) (submit_focusable f) (validation_note f) (run_mode_buttons f) (run_mode_focus f) b n
    (optional_filter f) (show_optional f).
Definition with_optional (filter shown : bool) (f : Form) : Form :=
  mk_form (fields f) (focus f) (editing f) (submit_focusable f) (validation_note f) (run_mode_buttons f) (run_mode_focus f) (confirm_skip_buttons f)
    (confirm_skip_focus f) filter shown.

Definition update_field (i : nat) (g : FormField -> FormField) (f : Form) : Form := set_fields (alter g i (fields f)) f.

Definition is_submit_focused (f : Form) : bool := submit_focusable f && Nat.eqb (focus f) (length (fields f)).

Definition focused (f : Form) : option FormField := fields f !! focus f.

(** ** The buttons *)

Definition run_mode_focus_next (f : Form) : Form :=
  if run_mode_buttons f && Nat.ltb (run_mode_focus f) 2 then with_run_mode (run_mode_buttons f) (S (run_mode_focus f)) f else f.
Definition run_mode_focus_prev (f : Form) : Form :=
  if run_mode_buttons f && Nat.ltb 0 (run_mode_focus f) then with_run_mode (run_mode_buttons f) (pred (run_mode_focus f)) f else f.
Definition selected_run_mode (f : Form) : RunMode :=
  match run_mode_focus f with 0 => ReviewInputSteps | 1 => ReviewEveryStep | _ => RunWithoutStopping end.

Definition confirm_skip_focus_next (f : Form) : Form :=
  if confirm_skip_buttons f && Nat.ltb (confirm_skip_focus f) 1 then with_confirm_skip (confirm_skip_buttons f) (S (confirm_skip_focus f)) f else f.
Definition confirm_skip_focus_prev (f : Form) : Form :=
  if confirm_skip_buttons f && Nat.ltb 0 (confirm_skip_focus f) then with_confirm_skip (confirm_skip_buttons f) (pred (confirm_skip_focus f)) f else f.
Definition selected_confirm_skip (f : Form) : ConfirmSkipChoice := match confirm_skip_focus f with 0 => ChooseConfirm | _ => ChooseSkip end.

(** ** Completeness *)

Definition all_required_filled (f : Form) : bool := forallb (fun x => negb (required x) || is_field_filled x) (fields f).
Definition first_unfilled_required (f : Form) : option nat := position (fun x => required x && negb (is_field_filled x)) (fields f).

(** ** Editing *)

Definition derived_field_note (label : string) (sources : list string) : string :=
  "'" +:+ label +:+ "' is derived from workflow input(s): " +:+ join ", " sources +:+ ". Edit the source input(s) to change this value.".

(** The note of a read-only row that is activated. *)
Definition note_derived (x : FormField) (f : Form) : Form :=
  match source x with SourceDerived sources => set_note (Some (derived_field_note (label x) sources)) f | _ => f end.

Definition edit_of (x : FormField) : EditKind :=
  match field_type x with
  | TDateTime =>
      match field_value x with
      | FScalar s => match parse_iso s with Some p => EditDate (new_edit p) | None => EditText s end
      | _ => EditText EmptyString
      end
  | _ =>
      EditText (match field_value x with
                | FScalar s | FJsonBody s => s
                | FEnum (Some s) => s
                | FBool (Some b) => if b then "true" else "false"
                | _ => EmptyString
                end)
  end.

Definition begin_edit (f : Form) : Form :=
  let f := set_note None f in
  match focused f with
  | None => f
  | Some x =>
      if read_only x then note_derived x f
      else match field_type x with
           | TEnum _ | TBool => f
           | _ => set_editing (Some (mk_edit_state (edit_of x) (focus f))) f
           end
  end.

Definition cancel_edit (f : Form) : Form := set_editing None f.

(** [str::parse::<bool>]. *)
Definition parse_bool (s : string) : option bool :=
  if String.eqb s "true" then Some true else if String.eqb s "false" then Some false else None.

Definition committed (kind : EditKind) (ty : FieldType) : FieldValue :=
  match kind with
  | EditDate d => FScalar (to_iso (parts d))
  | EditText buffer =>
      match ty with
      | TScalar | TDateTime => FScalar buffer
      | TEnum _ | TDynamicEnum | TFilePicker => FEnum (Some buffer)
      | TBool => FBool (parse_bool buffer)
      | TJsonBody => FJsonBody buffer
      end
  end.

Definition commit_edit (f : Form) : Form :=
  let f := set_note None f in
  match editing f with
  | None => f
  | Some e => update_field (field_index e) (fun x => with_value (committed (edit_kind e) (field_type x)) SourceUserInput x) (set_editing None f)
  end.

(** The next of [n] variants, wrapping. *)
Definition cycle_index (n : nat) (current : option nat) (forward : bool) : nat :=
  match current, forward with
  | Some i, true => (i + 1) mod n
  | Some i, false => (i + n - 1) mod n
  | None, true => 0
  | None, false => n - 1
  end.

Definition cycle_field (forward : bool) (x : FormField) : FormField :=
  match read_only x, field_type x with
  | false, TEnum variants =>
      let current := match field_value x with FEnum (Some s) => position (String.eqb s) variants | _ => None end in
      match variants !! cycle_index (length variants) current forward with
      | Some v => with_value (FEnum (Some v)) SourceUserInput x
      | None => x
      end
  | _, _ => x
  end.

Definition cycle_focused_enum (forward : bool) (f : Form) : Form := update_field (focus f) (cycle_field forward) (set_note None f).

Definition toggle_field (x : FormField) : FormField :=
  match read_only x, field_type x with
  | false, TBool => with_value (FBool (Some (match field_value x with FBool (Some b) => negb b | _ => true end))) SourceUserInput x
  | _, _ => x
  end.

Definition toggle_focused_bool (f : Form) : Form := update_field (focus f) toggle_field (set_note None f).

(** ** Focus *)

(** Whether a row is drawn among the workflow values. *)
Definition is_workflow_value (x : FormField) : bool :=
  match source x, key x with
  | SourceLiteral, _ => false
  | SourceUserInput, KeyReview _ => false
  | _, _ => true
  end.

Definition indices (p : FormField -> bool) (fs : list FormField) : list nat := omap (fun ix => if p ix.2 then Some ix.1 else None) (enumerate fs).

Record FieldGroups : Type := mk_groups { workflow_values : list nat; step_values : list nat }.

Definition partition_fields_by_source (fs : list FormField) : FieldGroups :=
  mk_groups (indices is_workflow_value fs) (indices (fun x => negb (is_workflow_value x)) fs).

Definition is_row_visible (f : Form) (i : nat) : bool :=
  match fields f !! i with
  | None => false
  | Some x => negb (optional_filter f) || show_optional f || required x || is_field_filled x
  end.

Definition visual_order (f : Form) : list nat :=
  let groups := partition_fields_by_source (fields f) in
  List.filter (is_row_visible f) (workflow_values groups ++ step_values groups).

Definition optional_empty_count (f : Form) : nat :=
  if optional_filter f then length (List.filter (fun x => negb (required x) && negb (is_field_filled x)) (fields f)) else 0.

Definition normalize_focus_to_visible (f : Form) : Form :=
  if negb (optional_filter f) || show_optional f || is_submit_focused f then f
  else if is_row_visible f (focus f) then f
  else
    match visual_order f with
    | [] => set_focus (if submit_focusable f then length (fields f) else 0) f
    | visible => set_focus (match List.find (fun i => Nat.leb (focus f) i) visible with Some i => i | None => List.last visible 0 end) f
    end.

Definition ring_position (f : Form) : nat :=
  let visual := visual_order f in
  if is_submit_focused f then length visual else default 0 (position (Nat.eqb (focus f)) visual).

(** Focus on a position of the ring: a visible row, or the buttons after them. *)
Definition ring_focus (f : Form) (pos : nat) : Form :=
  match visual_order f !! pos with Some i => set_focus i f | None => set_focus (length (fields f)) f end.

Definition ring_length (f : Form) : nat := length (visual_order f) + (if submit_focusable f then 1 else 0).

Definition focus_next (f : Form) : Form :=
  let f := set_note None f in
  match ring_length f with 0 => f | total => ring_focus f ((ring_position f + 1) mod total) end.

Definition focus_prev (f : Form) : Form :=
  let f := set_note None f in
  match ring_length f with 0 => f | total => ring_focus f ((ring_position f + total - 1) mod total) end.

Definition focus_first_editable (f : Form) : Form :=
  match List.find (fun i => match fields f !! i with Some x => negb (read_only x) | None => false end) (visual_order f) with
  | Some i => set_focus i f
  | None => set_focus (if submit_focusable f then length (fields f) else 0) f
  end.

Definition focus_submit_if_available (f : Form) : Form :=
  if submit_focusable f then set_focus (length (fields f)) f else focus_first_editable f.

(** * Keys *)

Inductive PhaseResult : Type :=
| Submitted (r : GatherResult)
| OpenJsonEditor (i : nat)
| OpenEnumPicker (i : nat)
| OpenFilePicker (i : nat).

Inductive PhaseStep (O : Type) : Type := PhaseContinue | PhaseDone (o : O) | PhaseCancelled.
#[global] Arguments PhaseContinue {O}.
#[global] Arguments PhaseDone {O} _.
#[global] Arguments PhaseCancelled {O}.

Definition gathered (f : Form) : GatherResult := project_gathered (fields f).

Definition required_note (x : FormField) : string :=
  let missing := match field_type x, field_value x with TJsonBody, FJsonBody s => missing_required_keys s (schema x) | _, _ => [] end in
  match missing with
  | [] => "Required: " +:+ label x
  | _ => "Required: " +:+ label x +:+ " (missing: " +:+ join ", " missing +:+ ")"
  end.

(** Enter on the buttons. *)
Definition press_submit (f : Form) : Form * PhaseStep PhaseResult :=
  if confirm_skip_buttons f && match selected_confirm_skip f with ChooseSkip => true | ChooseConfirm => false end then (f, PhaseDone (Submitted (gathered f)))
  else if all_required_filled f then (f, PhaseDone (Submitted (gathered f)))
  else
    match first_unfilled_required f with
    | None => (f, PhaseContinue)
    | Some i =>
        match fields f !! i with
        | Some x => (set_note (Some (required_note x)) (set_focus i f), PhaseContinue)
        | None => (f, PhaseContinue)
        end
    end.

(** Enter on a row. *)
Definition activate (x : FormField) (f : Form) : Form * PhaseStep PhaseResult :=
  if read_only x then (note_derived x f, PhaseContinue)
  else
    match field_type x with
    | TEnum _ => (cycle_focused_enum true f, PhaseContinue)
    | TBool => (toggle_focused_bool f, PhaseContinue)
    | TJsonBody => (f, PhaseDone (OpenJsonEditor (focus f)))
    | TScalar =>
        if all_required_filled f && negb (submit_focusable f) then (f, PhaseDone (Submitted (gathered f))) else (begin_edit f, PhaseContinue)
    | TDynamicEnum => (f, PhaseDone (OpenEnumPicker (focus f)))
    | TDateTime => (begin_edit f, PhaseContinue)
    | TFilePicker => (f, PhaseDone (OpenFilePicker (focus f)))
    end.

Definition press_enter (f : Form) : Form * PhaseStep PhaseResult :=
  match editing f with
  | Some _ => (commit_edit f, PhaseContinue)
  | None =>
      if is_submit_focused f then press_submit f
      else match focused f with Some x => activate x f | None => (f, PhaseContinue) end
  end.

Definition press_space (shift : bool) (f : Form) : Form * PhaseStep PhaseResult :=
  match focused f with
  | None => (f, PhaseContinue)
  | Some x =>
      match field_type x with
      | TEnum _ => (cycle_focused_enum (negb shift) f, PhaseContinue)
      | TBool => (toggle_focused_bool f, PhaseContinue)
      | TDynamicEnum => (f, PhaseDone (OpenEnumPicker (focus f)))
      | TFilePicker => (f, PhaseDone (OpenFilePicker (focus f)))
      | _ => (f, PhaseContinue)
      end
  end.

Definition edit_buffer (g : string -> string) (f : Form) : Form :=
  match editing f with
  | Some (mk_edit_state (EditText s) i) => set_editing (Some (mk_edit_state (EditText (g s)) i)) f
  | _ => f
  end.

Definition press_char (c : string) (k : KeyEvent) (f : Form) : Form * PhaseStep PhaseResult :=
  let idle := match editing f with None => true | Some _ => false end in
  if String.eqb c "s" && only_control k then
    if all_required_filled f then (f, PhaseDone (Submitted (gathered f))) else (f, PhaseContinue)
  else if String.eqb c "o" && idle && negb (mod_control k) && optional_filter f then
    (normalize_focus_to_visible (with_optional (optional_filter f) (negb (show_optional f)) f), PhaseContinue)
  else if String.eqb c " " && idle then press_space (mod_shift k) f
  else if negb (mod_control k) then (edit_buffer (fun s => s +:+ c) f, PhaseContinue)
  else (f, PhaseContinue).

(** Left and Right move between the buttons when they are focused. *)
Definition press_side (right : bool) (f : Form) : Form :=
  match editing f with
  | Some _ => f
  | None =>
      if negb (is_submit_focused f) then f
      else if run_mode_buttons f then (if right then run_mode_focus_next f else run_mode_focus_prev f)
      else if confirm_skip_buttons f then (if right then confirm_skip_focus_next f else confirm_skip_focus_prev f)
      else f
  end.

(** [FormPhase::on_key]. *)
Definition on_key (k : KeyEvent) (f : Form) : Form * PhaseStep PhaseResult :=
  match editing f with
  | Some (mk_edit_state (EditDate d) i) =>
      match apply_date_key d k with
      | (d', DateContinue) => (set_editing (Some (mk_edit_state (EditDate d') i)) f, PhaseContinue)
      | (_, DateCommit) => (commit_edit f, PhaseContinue)
      | (_, DateCancel) => (cancel_edit f, PhaseContinue)
      end
  | _ =>
      match code k with
      | KTab | KDown => (focus_next f, PhaseContinue)
      | KBackTab | KUp => (focus_prev f, PhaseContinue)
      | KLeft => (press_side false f, PhaseContinue)
      | KRight => (press_side true f, PhaseContinue)
      | KEnter => press_enter f
      | KEsc => match editing f with Some _ => (cancel_edit f, PhaseContinue) | None => (f, PhaseCancelled) end
      | KChar c => press_char c k f
      | KBackspace => (edit_buffer pop_char f, PhaseContinue)
      | _ => (f, PhaseContinue)
      end
  end.

End form.

(** * What the keys do to a form: its rows stay what they were built as, only editable rows
    change and only to values of their type, the focus stays on the form, and it is
    submitted complete or skipped. *)

(** * Rows *)

(** A value that the keys of a row of type [ty] can give it. *)
Definition entered (ty : FieldType) (v : FieldValue) : Prop :=
  match ty, v with
  | TScalar, FScalar _ | TDateTime, FScalar _ => True
  | TEnum variants, FEnum (Some s) => s ∈ variants
  | TBool, FBool (Some _) => True
  | TJsonBody, FJsonBody _ => True
  | TDynamicEnum, FEnum (Some _) | TFilePicker, FEnum (Some _) => True
  | _, _ => False
  end.

(** The row [x] is the row [x0], with its value untouched or entered. *)
Record row_kept (x0 x : FormField) : Prop := {
  rk_label : label x = label x0;
  rk_type : field_type x = field_type x0;
  rk_required : required x = required x0;
  rk_key : key x = key x0;
  rk_schema : schema x = schema x0;
  rk_read_only : read_only x = read_only x0;
  rk_dynamic : is_Some (dynamic x) <-> is_Some (dynamic x0);
  rk_value : field_value x = field_value x0 /\ source x = source x0 \/ read_only x0 = false /\ entered (field_type x0) (field_value x)
}.

Definition rows_kept : list FormField -> list FormField -> Prop := Forall2 row_kept.

#[global] Instance row_kept_refl : Reflexive row_kept.
Proof. intros x. by constructor; [..|left]. Qed.

#[global] Instance rows_kept_refl : Reflexive rows_kept.
Proof. intros l. unfold rows_kept. induction l; by constructor. Qed.

Lemma row_entered x0 x v : row_kept x0 x -> read_only x = false -> entered (field_type x) v -> row_kept x0 (with_value v SourceUserInput x).
Proof. intros [] Hr He. constructor; simpl; try done. right. split; congruence. Qed.

Lemma rows_update fs0 fs i g : rows_kept fs0 fs -> (forall x0 x, fs !! i = Some x -> row_kept x0 x -> row_kept x0 (g x)) -> rows_kept fs0 (alter g i fs).
Proof.
  unfold rows_kept. intros H. revert i. induction H as [|x0 x fs0 fs Hx Hf IH]; intros [|i] Hg; simpl; try done.
  - constructor; [|done]. by apply Hg.
  - constructor; [done|]. apply IH. intros y0 y Hy. by apply Hg.
Qed.

Lemma rows_kept_length fs0 fs : rows_kept fs0 fs -> length fs = length fs0.
Proof. intros H. symmetry. exact (Forall2_length _ _ _ H). Qed.

(** * The form *)

Section props.
Context `{JsonText, !JsonPretty, UnicodeCase, FloatText}.

Definition focus_ok (f : Form) : Prop := focus f < length (fields f) \/ focus f = length (fields f) /\ (submit_focusable f = true \/ fields f = []).

(** The row that is edited is an editable text or date. *)
Definition editing_ok (f : Form) : Prop :=
  match editing f with
  | None => True
  | Some e => exists x, fields f !! field_index e = Some x /\ read_only x = false /\
      match edit_kind e with EditText _ => field_type x = TScalar \/ field_type x = TDateTime | EditDate d => field_type x = TDateTime /\ date_ok (parts d) end
  end.

Record form_ok (f0 f : Form) : Prop := {
  fo_rows : rows_kept (fields f0) (fields f);
  fo_focus : focus_ok f;
  fo_editing : editing_ok f;
  fo_submit : submit_focusable f = submit_focusable f0;
  fo_run_mode : run_mode_buttons f = run_mode_buttons f0;
  fo_skip : confirm_skip_buttons f = confirm_skip_buttons f0;
  fo_filter : optional_filter f = optional_filter f0
}.

(** ** Focus *)

Lemma visual_visible f i : i ∈ visual_order f <-> is_row_visible f i = true.
Proof.
  unfold visual_order, partition_fields_by_source. rewrite list_elem_of_In, filter_In. split; [by intros [_ ?]|]. intros Hv. split; [|done].
  apply list_elem_of_In. cbn [workflow_values step_values]. unfold is_row_visible in Hv. destruct (fields f !! i) as [x|] eqn:Ex; [|done].
  apply elem_of_app. destruct (is_workflow_value x) eqn:E; [left|right]; apply list_elem_of_omap; exists (i, x); simpl; rewrite E; (split; [by apply enumerate_elem|done]).
Qed.

Lemma visible_lt f i : is_row_visible f i = true -> i < length (fields f).
Proof. unfold is_row_visible. destruct (fields f !! i) eqn:E; [|done]. intros _. by apply lookup_lt_Some in E. Qed.

(** The focus is on a visible row or on the buttons. *)
Definition focus_seen (f : Form) : Prop := is_row_visible f (focus f) = true \/ is_submit_focused f = true.

Lemma seen_ok f : focus_seen f -> focus_ok f.
Proof.
  intros [Hv|Hs]; [left; by apply visible_lt|]. unfold is_submit_focused in Hs. to_prop. right.
  match goal with Hb : Nat.eqb _ _ = true |- _ => apply Nat.eqb_eq in Hb end. split; [done|by left].
Qed.

Lemma ring_focus_seen f pos : pos < ring_length f -> focus_seen (ring_focus f pos).
Proof.
  unfold ring_length, ring_focus. intros Hp. destruct (visual_order f !! pos) as [i|] eqn:E.
  - left. apply list_elem_of_lookup_2, visual_visible in E. exact E.
  - right. apply lookup_ge_None in E. unfold is_submit_focused. simpl. destruct (submit_focusable f); [|lia]. simpl. by rewrite Nat.eqb_refl.
Qed.

Lemma focus_move_seen f : ring_length f <> 0 -> focus_seen (focus_next f) /\ focus_seen (focus_prev f).
Proof.
  intros Hn. unfold focus_next, focus_prev. change (ring_length (set_note None f)) with (ring_length f). destruct (ring_length f) as [|n] eqn:E; [done|].
  split; apply ring_focus_seen; change (ring_length (set_note None f)) with (ring_length f); rewrite E; apply Nat.mod_upper_bound; lia.
Qed.

Lemma snap_elem (l : list nat) n : l <> [] -> match List.find (fun i => Nat.leb n i) l with Some i => i | None => List.last l 0 end ∈ l.
Proof.
  intros Hl. apply list_elem_of_In. destruct (List.find _ _) as [j|] eqn:Ef; [by apply find_some in Ef as [Ef _]|].
  destruct (exists_last Hl) as (l' & x & ->). rewrite last_last. apply in_or_app. right. by left.
Qed.

Lemma normalize_seen f : visual_order f <> [] \/ submit_focusable f = true -> optional_filter f = true -> show_optional f = false ->
  focus_seen (normalize_focus_to_visible f).
Proof.
  intros Hne Hf Hs. unfold normalize_focus_to_visible. rewrite Hf, Hs. simpl. destruct (is_submit_focused f) eqn:E1; [by right|].
  destruct (is_row_visible f (focus f)) eqn:E2; [by left|]. destruct (visual_order f) as [|i l] eqn:Ev.
  - destruct Hne as [|Hne]; [done|]. right. unfold is_submit_focused. simpl. rewrite Hne. simpl. by rewrite Nat.eqb_refl.
  - left. match goal with |- is_row_visible (set_focus ?n f) _ = true => change (is_row_visible f n = true) end. apply visual_visible. rewrite Ev.
    by apply (snap_elem (i :: l)).
Qed.

Lemma normalize_ok f : focus_ok f -> focus_ok (normalize_focus_to_visible f).
Proof.
  intros Hf. unfold normalize_focus_to_visible. destruct (_ || _ || _); [done|]. destruct (is_row_visible f (focus f)); [done|].
  destruct (visual_order f) as [|i l] eqn:Ev.
  - unfold focus_ok. simpl. destruct (submit_focusable f); [by right; split; [|left]|]. destruct (fields f); [by right; split; [|right]|left; simpl; lia].
  - left. simpl. apply (visible_lt f), visual_visible. rewrite Ev. by apply (snap_elem (i :: l)).
Qed.

(** ** Keys *)

Lemma set_note_ok f0 f n : form_ok f0 f -> form_ok f0 (set_note n f).
Proof. by intros []; constructor. Qed.

Lemma set_focus_ok f0 f n : form_ok f0 f -> focus_ok (set_focus n f) -> form_ok f0 (set_focus n f).
Proof. by intros [] Hf; constructor. Qed.

Lemma set_editing_ok f0 f e : form_ok f0 f -> editing_ok (set_editing e f) -> form_ok f0 (set_editing e f).
Proof. by intros [] He; constructor. Qed.

Lemma update_ok f0 f i g : form_ok f0 f -> editing f = None -> (forall x0 x, fields f !! i = Some x -> row_kept x0 x -> row_kept x0 (g x)) ->
  form_ok f0 (update_field i g f).
Proof.
  intros [] He Hg. unfold update_field. constructor; simpl; try done.
  - by apply rows_update.
  - destruct fo_focus0 as [Hl|[Hl Hs]]; [left; simpl; by rewrite length_alter|right; simpl; rewrite length_alter; split; [done|]].
    destruct Hs as [Hs|Hs]; [by left|right; by rewrite Hs].
  - unfold editing_ok. simpl. by rewrite He.
Qed.

Lemma ring_focus_ok f0 f pos : form_ok f0 f -> focus_ok (ring_focus f pos) -> form_ok f0 (ring_focus f pos).
Proof. unfold ring_focus. destruct (visual_order f !! pos); by apply set_focus_ok. Qed.

Lemma ring_move_ok f0 f : form_ok f0 f -> form_ok f0 (focus_next f) /\ form_ok f0 (focus_prev f).
Proof.
  intros Hf. destruct (decide (ring_length f = 0)) as [Hn|Hn].
  - unfold focus_next, focus_prev. change (ring_length (set_note None f)) with (ring_length f). rewrite Hn. split; by apply set_note_ok.
  - destruct (focus_move_seen f Hn) as [Hnx%seen_ok Hpv%seen_ok]. unfold focus_next, focus_prev in *. destruct (ring_length (set_note None f)) as [|n]; [split; by apply set_note_ok|].
    split; apply ring_focus_ok; try done; by apply set_note_ok.
Qed.

Lemma cycle_row forward x0 x : row_kept x0 x -> row_kept x0 (cycle_field forward x).
Proof.
  intros Hx. unfold cycle_field. destruct (read_only x) eqn:Er; [done|]. destruct (field_type x) as [|variants| | | | |] eqn:Et; try done.
  match goal with |- context [variants !! ?n] => destruct (variants !! n) as [v|] eqn:E end; [|done].
  apply row_entered; [done..|]. rewrite Et. by apply list_elem_of_lookup_2 in E.
Qed.

Lemma toggle_row x0 x : row_kept x0 x -> row_kept x0 (toggle_field x).
Proof.
  intros Hx. unfold toggle_field. destruct (read_only x) eqn:Er; [done|]. destruct (field_type x) eqn:Et; try done. apply row_entered; [done..|]. by rewrite Et.
Qed.

Lemma commit_ok f0 f : form_ok f0 f -> form_ok f0 (commit_edit f).
Proof.
  intros Hf. unfold commit_edit. change (editing (set_note None f)) with (editing f). pose proof (fo_editing _ _ Hf) as He. unfold editing_ok in He.
  destruct (editing f) as [e|] eqn:Ee; [|by apply set_note_ok]. destruct He as (x & Hx & Hr & Hk).
  apply update_ok; [apply set_editing_ok; [by apply set_note_ok|done]|done|]. intros x0 y Hy Hk0. simpl in Hy. rewrite Hx in Hy. injection Hy as <-.
  apply row_entered; [done..|]. destruct (edit_kind e); simpl; [destruct Hk as [-> | ->]|destruct Hk as [-> _]]; done.
Qed.

Lemma begin_ok f0 f x : form_ok f0 f -> focused f = Some x -> read_only x = false -> field_type x = TScalar \/ field_type x = TDateTime -> form_ok f0 (begin_edit f).
Proof.
  intros Hf Hx Hr Ht. unfold begin_edit. change (focused (set_note None f)) with (focused f). rewrite Hx, Hr.
  assert (He : form_ok f0 (set_editing (Some (mk_edit_state (edit_of x) (focus f))) (set_note None f))).
  { apply set_editing_ok; [by apply set_note_ok|]. exists x. split; [done|]. split; [done|]. simpl. unfold edit_of.
    destruct Ht as [Ht|Ht]; rewrite Ht; [by left|]. destruct (field_value x); try (by right). destruct (parse_iso s) as [p|] eqn:Ep; [|by right].
    split; [done|]. by destruct (parse_iso_inv _ _ Ep). }
  by destruct Ht as [-> | ->].
Qed.

Lemma note_derived_ok f0 f x : form_ok f0 f -> form_ok f0 (note_derived x f).
Proof. intros Hf. unfold note_derived. destruct (source x); try done. by apply set_note_ok. Qed.

Lemma activate_ok f0 f x : form_ok f0 f -> editing f = None -> focused f = Some x -> form_ok f0 (activate x f).1.
Proof.
  intros Hf He Hx. unfold activate. destruct (read_only x) eqn:Er; [by apply note_derived_ok|].
  destruct (field_type x) eqn:Et; try done.
  - destruct (_ && _); [done|]. apply (begin_ok f0 f x); auto.
  - apply update_ok; [by apply set_note_ok|done|]. intros. by apply cycle_row.
  - apply update_ok; [by apply set_note_ok|done|]. intros. by apply toggle_row.
  - apply (begin_ok f0 f x); auto.
Qed.

Lemma press_submit_ok f0 f : form_ok f0 f -> form_ok f0 (press_submit f).1.
Proof.
  intros Hf. unfold press_submit. destruct (_ && _); [done|]. destruct (all_required_filled f); [done|]. destruct (first_unfilled_required f) as [i|]; [|done].
  destruct (fields f !! i) as [x|] eqn:Ex; [|done]. apply set_note_ok, set_focus_ok; [done|]. left. by apply lookup_lt_Some in Ex.
Qed.

Lemma press_enter_ok f0 f : form_ok f0 f -> form_ok f0 (press_enter f).1.
Proof.
  intros Hf. unfold press_enter. destruct (editing f) eqn:Ee; [by apply commit_ok|]. destruct (is_submit_focused f); [by apply press_submit_ok|].
  destruct (focused f) eqn:Ex; [|done]. by apply activate_ok.
Qed.

Lemma press_space_ok f0 f shift : form_ok f0 f -> editing f = None -> form_ok f0 (press_space shift f).1.
Proof.
  intros Hf He. unfold press_space. destruct (focused f) as [x|]; [|done]. destruct (field_type x); try done;
    (apply update_ok; [by apply set_note_ok|done|]); intros; [by apply cycle_row|by apply toggle_row].
Qed.

Lemma edit_buffer_ok f0 f g : form_ok f0 f -> form_ok f0 (edit_buffer g f).
Proof.
  intros Hf. unfold edit_buffer. pose proof (fo_editing _ _ Hf) as He. unfold editing_ok in He. destruct (editing f) as [[[s|d] i]|]; try done.
  by apply set_editing_ok.
Qed.

Lemma side_ok f0 f right : form_ok f0 f -> form_ok f0 (press_side right f).
Proof.
  intros Hf. assert (Hm : forall n, form_ok f0 (with_run_mode (run_mode_buttons f) n f) /\ form_ok f0 (with_confirm_skip (confirm_skip_buttons f) n f)).
  { intros n. by split; destruct Hf; constructor. }
  unfold press_side, run_mode_focus_next, run_mode_focus_prev, confirm_skip_focus_next, confirm_skip_focus_prev.
  destruct (editing f); [done|]. destruct (negb (is_submit_focused f)); [done|].
  destruct (run_mode_buttons f), (confirm_skip_buttons f), right; simpl; try done; (destruct (Nat.ltb _ _); [|done]); by apply Hm.
Qed.

Lemma normalize_moves f : exists n, normalize_focus_to_visible f = set_focus n f.
Proof.
  unfold normalize_focus_to_visible. destruct (_ || _ || _); [exists (focus f); by destruct f|]. destruct (is_row_visible f (focus f)); [exists (focus f); by destruct f|].
  destruct (visual_order f); by eexists.
Qed.

Lemma press_char_ok f0 f c k : form_ok f0 f -> form_ok f0 (press_char c k f).1.
Proof.
  intros Hf. unfold press_char. destruct (String.eqb c "s" && only_control k); [by destruct (all_required_filled f)|].
  destruct (String.eqb c "o" && _ && _ && _) eqn:Eo.
  - set (g := with_optional _ _ f). assert (Hg : form_ok f0 g) by (destruct Hf; by constructor).
    destruct (normalize_moves g) as [n Hn]. simpl. pose proof (normalize_ok g (fo_focus _ _ Hg)) as Hk. rewrite Hn in *. by apply set_focus_ok.
  - destruct (String.eqb c " " && _) eqn:Es; [|destruct (negb (mod_control k)); [by apply edit_buffer_ok|done]].
    apply press_space_ok; [done|]. destruct (editing f); [|done]. by rewrite andb_false_r in Es.
Qed.

Lemma on_key_ok f0 f k : form_ok f0 f -> form_ok f0 (on_key k f).1.
Proof.
  intros Hf. pose proof (fo_editing _ _ Hf) as He. unfold editing_ok in He. unfold on_key.
  destruct (editing f) as [[[s|d] i]|] eqn:Ee.
  2:{ destruct He as (x & Hx & Hr & Ht & Hd). pose proof (date_key_ok (new_edit (parts d)) k) as Hd'.
      destruct (apply_date_key d k) as [d' step] eqn:Ed. destruct step; simpl; [|by apply commit_ok|by apply set_editing_ok].
      apply set_editing_ok; [done|]. exists x. split; [done|]. split; [done|]. split; [done|]. simpl.
      replace d' with (apply_date_key d k).1 by (by rewrite Ed). by apply date_key_ok. }
  all: destruct (code k); try done; simpl; rewrite ?Ee.
  all: first [by apply press_enter_ok|by apply ring_move_ok|by apply side_ok|by apply edit_buffer_ok|by apply press_char_ok|by apply set_editing_ok].
Qed.

End props.
