(* ===== verification/JsonTree.v ===== *)
(** The tree editor of a JSON body ([inline/json_editor/node.rs], [navigation.rs], [mod.rs], and
    its driver [apply_json_editor_key] in [terminal/form_runner.rs]), and where its focus can be. *)

From stdpp Require Import base gmap strings list.
From Stdlib Require Import ZArith Lia Ascii.
From S2P Require Import Prelude Text Kebab Json JsonNormal AutoDerive Pagination Shape Widgets RawEditor Fields.

#[local] Open Scope nat_scope.

(** * Nodes *)

(** A number of the tree is an [f64], by the text it is written as. *)
Inductive ScalarValue : Type :=
| ScString (s : string)
| ScInteger (z : Z)
| ScNumber (repr : string)
| ScBoolean (b : bool)
| ScEnum (s : string).

Inductive Node : Type :=
| mk_node (node_name : string) (node_schema : value) (node_required : bool) (node_kind : NodeKind) (expanded : bool)
with NodeKind : Type :=
| KObject (children : list Node)
| KArray (children : list Node)
| KScalar (v : option ScalarValue)
| KOneOf (variants : list Node) (selected : option nat)
| KFreeMap (entries : list (string * Node)).

Definition node_name (n : Node) : string := match n with mk_node x _ _ _ _ => x end.
Definition node_schema (n : Node) : value := match n with mk_node _ s _ _ _ => s end.
Definition node_required (n : Node) : bool := match n with mk_node _ _ r _ _ => r end.
Definition node_kind (n : Node) : NodeKind := match n with mk_node _ _ _ k _ => k end.
Definition expanded (n : Node) : bool := match n with mk_node _ _ _ _ e => e end.

Definition with_kind (k : NodeKind) (n : Node) : Node := match n with mk_node x s r _ e => mk_node x s r k e end.
Definition with_expanded (e : bool) (n : Node) : Node := match n with mk_node x s r k _ => mk_node x s r k e end.
Definition with_name (x : string) (n : Node) : Node := match n with mk_node _ s r k e => mk_node x s r k e end.

(** The nodes below a container. *)
Definition node_children (n : Node) : option (list Node) := match node_kind n with KObject l | KArray l => Some l | _ => None end.

Section tree.
Context `{JsonText, !JsonPretty, UnicodeCase, FloatText}.

(** ** From a value *)

Fixpoint infer_schema_from_value (v : value) : value :=
  match v with
  | Str _ => AutoDerive.typed "string"
  | Bool _ => AutoDerive.typed "boolean"
  | Number (NInt _) => AutoDerive.typed "integer"
  | Number (NFloat _) => AutoDerive.typed "number"
  | Array items => Object [("items", match items with x :: _ => infer_schema_from_value x | [] => Object [] end); ("type", Str "array")]
  | Object _ => AutoDerive.typed "object"
  | Null => Object []
  end.

Definition scalar_from_value (v schema : value) : option ScalarValue :=
  if bool_decide (is_Some (get_key "enum" schema)) then match v with Str s => Some (ScEnum s) | _ => None end
  else
    match v with
    | Str s => Some (ScString s)
    | Bool b => Some (ScBoolean b)
    | Number (NInt z) => Some (if bool_decide (in_i64 z) then ScInteger z else ScNumber (float_of_u64 z))
    | Number (NFloat r) => Some (ScNumber r)
    | _ => None
    end.

Definition index_name (i : nat) : string := "[" +:+ show_int (Z.of_nat i) +:+ "]".

(** How deeply a document is nested. *)
Fixpoint height (v : value) : nat :=
  match v with
  | Array l => S (list_max (map height l))
  | Object l => S (list_max (map (fun kv => height kv.2) l))
  | _ => 0
  end.

(** The declared type; none is as an unknown one. *)
Definition type_name (schema : value) : string := default EmptyString (schema_type schema).
Definition is_scalar_type (ty : string) : bool := existsb (String.eqb ty) ["string"; "integer"; "number"; "boolean"].

(** The kind of a node; [here] builds the nodes below it. *)
Definition schema_kind (here : string -> value -> value -> bool -> Node) (schema v : value) : NodeKind :=
  let ty := type_name schema in
  if String.eqb ty "object" then
    match get_key "properties" schema ≫= as_object with
    | Some props =>
        let names := default [] (required_names schema) in
        KObject (map (fun p => here p.1 p.2 (default Null (get_key p.1 v)) (bool_decide (p.1 ∈ names))) props)
    | None =>
        match v with
        | Object l => KObject (map (fun p => here p.1 (infer_schema_from_value p.2) p.2 false) l)
        | _ => KObject []
        end
    end
  else if String.eqb ty "array" then
    match v with
    | Array items => KArray (imap (fun i item => here (index_name i) (default Null (get_key "items" schema)) item false) items)
    | _ => KArray []
    end
  else if is_scalar_type ty then KScalar (scalar_from_value v schema)
  else
    match get_key "oneOf" schema ≫= as_array with
    | Some variants => KOneOf (imap (fun i s => here ("variant " +:+ show_int (Z.of_nat i)) s Null false) variants) None
    | None => if bool_decide (is_Some (get_key "additionalProperties" schema)) then KFreeMap [] else KScalar (scalar_from_value v schema)
    end.

Fixpoint from_schema_fuel (fuel : nat) (name : string) (schema v : value) (required : bool) : Node :=
  match fuel with
  | O => mk_node name schema required (KScalar None) true
  | S fuel => mk_node name schema required (schema_kind (from_schema_fuel fuel) schema v) true
  end.

(** Enough for every node (see [from_schema_eq]). *)
Definition tree_fuel (schema v : value) : nat := S (height v * (2 + Nat.max (height schema) (S (height v))) + height schema).

Definition from_schema (name : string) (schema v : value) (required : bool) : Node :=
  from_schema_fuel (tree_fuel schema v) name schema v required.

(** ** To a value *)

Definition scalar_to_value (s : ScalarValue) : value :=
  match s with
  | ScString s | ScEnum s => Str s
  | ScInteger z => int z
  | ScNumber r => Number (NFloat r)
  | ScBoolean b => Bool b
  end.

(** The entries that are not [null], in a map. *)
Definition insert_some (l : list (string * value)) (kv : string * value) : list (string * value) :=
  if is_null kv.2 then l else obj_insert kv.1 kv.2 l.

Fixpoint to_value (n : Node) : value :=
  match n with
  | mk_node _ _ _ kind _ =>
      match kind with
      | KObject children => Object (foldl insert_some [] (map (fun c => (node_name c, to_value c)) children))
      | KArray children => Array (map to_value children)
      | KScalar (Some s) => scalar_to_value s
      | KScalar None => Null
      | KOneOf variants (Some i) => default Null (map to_value variants !! i)
      | KOneOf _ None => Null
      | KFreeMap entries => Object (foldl insert_some [] (map (fun e => (e.1, to_value e.2)) entries))
      end
  end.

(** ** Array entries *)

Definition array_append_default (n : Node) : option Node :=
  match node_kind n with
  | KArray children =>
      Some (with_kind (KArray (children ++ [from_schema (index_name (length children)) (default Null (get_key "items" (node_schema n))) Null false])) n)
  | _ => None
  end.

Definition array_delete_at (i : nat) (n : Node) : option Node :=
  match node_kind n with
  | KArray children =>
      if Nat.leb (length children) i then None
      else Some (with_kind (KArray (imap (fun j c => with_name (index_name j) c) (stdpp.base.delete i children))) n)
  | _ => None
  end.

(** * Paths *)

Definition NodePath : Type := list nat.

(** The visible nodes, in order; a closed container hides its own. *)
Fixpoint walk (prefix : NodePath) (n : Node) : list NodePath :=
  prefix ::
  match n with
  | mk_node _ _ _ kind expanded =>
      if expanded then
        match kind with
        | KObject children | KArray children =>
            (fix go (i : nat) (l : list Node) : list NodePath := match l with [] => [] | c :: r => walk (prefix ++ [i]) c ++ go (S i) r end) 0 children
        | _ => []
        end
      else []
  end.

Definition flatten (root : Node) : list NodePath := walk [] root.

Fixpoint get_node (root : Node) (path : NodePath) : option Node :=
  match path with
  | [] => Some root
  | i :: path => children ← node_children root; child ← children !! i; get_node child path
  end.

Definition set_children (l : list Node) (n : Node) : Node :=
  match node_kind n with KObject _ => with_kind (KObject l) n | KArray _ => with_kind (KArray l) n | _ => n end.

(** Change the node at a path ([get_mut]); no node there changes nothing. *)
Fixpoint update_node (g : Node -> Node) (path : NodePath) (root : Node) : Node :=
  match path with
  | [] => g root
  | i :: path => match node_children root with Some children => set_children (alter (update_node g path) i children) root | None => root end
  end.

(** * Keys of the tree view *)

Inductive EditorStep : Type := EditorContinue | EditorSave (v : value) | EditorCancel | EditorOpenRaw | EditorOpenScalar (path : NodePath).

Definition is_container (n : Node) : bool := match node_kind n with KObject _ | KArray _ => true | _ => false end.
Definition is_array (n : Node) : bool := match node_kind n with KArray _ => true | _ => false end.
Definition is_scalar (n : Node) : bool := match node_kind n with KScalar _ => true | _ => false end.

Definition set_open (b : bool) (n : Node) : Node := if is_container n then with_expanded b n else n.

Definition append_entry (n : Node) : Node := default n (array_append_default n).

Definition add_entry (root : Node) (focus : NodePath) : Node :=
  match get_node root focus with
  | Some n =>
      if is_array n then update_node append_entry focus root
      else match focus with [] => root | _ => update_node append_entry (removelast focus) root end
  | None => root
  end.

Definition delete_entry (root : Node) (focus : NodePath) : Node * NodePath :=
  match focus with
  | [] => (root, focus)
  | _ =>
      let parent := removelast focus in
      match get_node root parent ≫= array_delete_at (List.last focus 0) with
      | Some n => (update_node (fun _ => n) parent root, parent)
      | None => (root, focus)
      end
  end.

Definition toggle_bool_node (n : Node) : Node :=
  match node_kind n with
  | KScalar v => with_kind (KScalar (Some (ScBoolean (negb (match v with Some (ScBoolean b) => b | _ => false end))))) n
  | _ => n
  end.

Definition cycle_enum_node (variants : list string) (forward : bool) (n : Node) : Node :=
  match node_kind n with
  | KScalar v =>
      let cur := match v with Some (ScEnum s) | Some (ScString s) => position (String.eqb s) variants | _ => None end in
      let next := match cur with
        | Some i => if forward then (i + 1) mod length variants else (i + length variants - 1) mod length variants
        | None => 0
        end in
      match variants !! next with Some x => with_kind (KScalar (Some (ScEnum x))) n | None => n end
  | _ => n
  end.

(** Enter or Space on a node. *)
Definition activate_node (root : Node) (focus : NodePath) (is_space forward : bool) : Node * EditorStep :=
  match get_node root focus with
  | Some n =>
      if negb (is_scalar n) then (root, EditorContinue)
      else if bool_decide (schema_type (node_schema n) = Some "boolean") then (update_node toggle_bool_node focus root, EditorContinue)
      else match enum_variants (node_schema n) with
           | Some variants => (update_node (cycle_enum_node variants forward) focus root, EditorContinue)
           | None => (root, if is_space then EditorContinue else EditorOpenScalar focus)
           end
  | None => (root, EditorContinue)
  end.

Definition dispatch_key (root : Node) (focus : NodePath) (k : KeyEvent) : Node * NodePath * EditorStep :=
  let visible := flatten root in
  let focus_index := default 0 (position (fun p => bool_decide (p = focus)) visible) in
  if char_key "s" k && only_control k then (root, focus, EditorSave (to_value root))
  else
    match code k with
    | KEsc => (root, focus, EditorCancel)
    | KUp => (root, match focus_index with S i => default focus (visible !! i) | O => focus end, EditorContinue)
    | KDown => (root, default focus (visible !! S focus_index), EditorContinue)
    | KRight => (update_node (set_open true) focus root, focus, EditorContinue)
    | KLeft => (update_node (set_open false) focus root, focus, EditorContinue)
    | KEnter => let '(root, step) := activate_node root focus false (negb (mod_shift k)) in (root, focus, step)
    | KChar c =>
        if String.eqb c "+" then (add_entry root focus, focus, EditorContinue)
        else if String.eqb c "-" then let '(root, focus) := delete_entry root focus in (root, focus, EditorContinue)
        else if String.eqb c "r" && mod_control k then (root, focus, EditorOpenRaw)
        else if String.eqb c " " then let '(root, step) := activate_node root focus true (negb (mod_shift k)) in (root, focus, step)
        else (root, focus, EditorContinue)
    | _ => (root, focus, EditorContinue)
    end.

(** * The editor *)

Inductive EditorMode : Type := Structured | Raw (e : RawEditor).

Record JsonEditor : Type := mk_json_editor { ed_root : Node; ed_focus : NodePath; ed_mode : EditorMode; ed_scalar : option (NodePath * string) }.

Inductive JsonEditorOutcome : Type := JsonContinue | JsonSave (v : value) | JsonCancel.

Definition into_raw (root : Node) : EditorMode := Raw (from_seed (to_string_pretty (to_value root))).

(** The message of a parse error is [serde_json]'s. *)
Variable json_error : string -> string.

Definition commit_raw_to_tree (buffer : string) (schema : value) (name : string) (required : bool) : result Node string :=
  match parse_value buffer with
  | Some v => Ok (from_schema name schema v required)
  | None => Err ("invalid JSON: " +:+ json_error buffer)
  end.

Definition scalar_value_to_string (s : ScalarValue) : string :=
  match s with
  | ScString s | ScEnum s => s
  | ScInteger z => show_int z
  | ScNumber r => float_display r
  | ScBoolean b => if b then "true" else "false"
  end.

(** A coerced text as a scalar of the schema. *)
Definition coerced_scalar (schema v : value) : option ScalarValue :=
  match v with
  | Str s => Some (if bool_decide (is_Some (get_key "enum" schema)) then ScEnum s else ScString s)
  | Number (NInt z) => Some (if bool_decide (in_i64 z) then ScInteger z else ScNumber (float_of_u64 z))
  | Number (NFloat r) => Some (ScNumber r)
  | Bool b => Some (ScBoolean b)
  | _ => None
  end.

Definition set_scalar (text : string) (n : Node) : Node :=
  match node_kind n with
  | KScalar _ => with_kind (KScalar (coerced_scalar (node_schema n) (coerce_to_schema text (node_schema n)))) n
  | _ => n
  end.

Definition set_scalar_value (root : Node) (path : NodePath) (text : string) : Node := update_node (set_scalar text) path root.

(** The text a scalar is edited from. *)
Definition scalar_seed (root : Node) (path : NodePath) : string :=
  match get_node root path with
  | Some n => match node_kind n with KScalar (Some s) => scalar_value_to_string s | _ => EmptyString end
  | None => EmptyString
  end.

Definition raw_key (e : RawEditor) (schema : value) (name : string) (required : bool) (ed : JsonEditor) (k : KeyEvent) : JsonEditor * JsonEditorOutcome :=
  let '(e, step) := dispatch e k in
  let stay e := mk_json_editor (ed_root ed) (ed_focus ed) (Raw e) (ed_scalar ed) in
  match step with
  | RawContinue => (stay e, JsonContinue)
  | RawCancel => (stay e, JsonCancel)
  | RawCommit =>
      match commit_raw_to_tree (to_text e) schema name required with
      | Ok root => (stay e, JsonSave (to_value root))
      | Err msg => (stay (set_error e msg), JsonContinue)
      end
  | RawToTree =>
      match commit_raw_to_tree (to_text e) schema name required with
      | Ok root => (mk_json_editor root [] Structured (ed_scalar ed), JsonContinue)
      | Err msg => (stay (set_error e msg), JsonContinue)
      end
  end.

Definition tree_key (ed : JsonEditor) (k : KeyEvent) : JsonEditor * JsonEditorOutcome :=
  let '(root, focus, step) := dispatch_key (ed_root ed) (ed_focus ed) k in
  let stay := mk_json_editor root focus Structured (ed_scalar ed) in
  match step with
  | EditorContinue => (stay, JsonContinue)
  | EditorCancel => (stay, JsonCancel)
  | EditorSave v => (stay, JsonSave v)
  | EditorOpenRaw => (mk_json_editor root focus (into_raw root) (ed_scalar ed), JsonContinue)
  | EditorOpenScalar path => (mk_json_editor root focus Structured (Some (path, scalar_seed root path)), JsonContinue)
  end.

Definition scalar_key (path : NodePath) (buffer : string) (ed : JsonEditor) (k : KeyEvent) : JsonEditor :=
  let stay s := mk_json_editor (ed_root ed) (ed_focus ed) (ed_mode ed) s in
  match code k with
  | KEnter => mk_json_editor (set_scalar_value (ed_root ed) path buffer) (ed_focus ed) (ed_mode ed) None
  | KEsc => stay None
  | KBackspace => stay (Some (path, pop_char buffer))
  | KChar c => stay (Some (path, if mod_control k then buffer else buffer +:+ c))
  | _ => stay (Some (path, buffer))
  end.

Definition apply_json_editor_key (schema : value) (name : string) (required : bool) (ed : JsonEditor) (k : KeyEvent) : JsonEditor * JsonEditorOutcome :=
  match ed_scalar ed with
  | Some (path, buffer) => (scalar_key path buffer ed k, JsonContinue)
  | None =>
      match ed_mode ed with
      | Structured => tree_key ed k
      | Raw e => raw_key e schema name required ed k
      end
  end.

End tree.

(** * Where the focus of the tree editor can be. *)

(** * Visible nodes *)

Lemma node_ind' (P : Node -> Prop) : (forall n, (forall l c, node_children n = Some l -> c ∈ l -> P c) -> P n) -> forall n, P n.
Proof.
  intros Hstep. fix IH 1. intros n. apply Hstep. destruct n as [a b c kind e]. unfold node_children. simpl.
  destruct kind as [l|l|v|l o|l]; intros l' x Hl; [| |discriminate Hl..]; injection Hl as <-.
  all: revert x; induction l as [|y l IHl]; intros x Hx; [clear IH; by apply elem_of_nil in Hx|]; apply elem_of_cons in Hx as [->|Hx]; [apply IH|exact (IHl x Hx)].
Qed.

(** The node at [p] is below open containers only. *)
Fixpoint seen (n : Node) (p : NodePath) : Prop :=
  match p with
  | [] => True
  | i :: p => expanded n = true /\ exists l c, node_children n = Some l /\ l !! i = Some c /\ seen c p
  end.

(** The rows of the nodes of a container, from the [i]-th. *)
Definition walk_children (prefix : NodePath) : nat -> list Node -> list NodePath :=
  fix go (i : nat) (l : list Node) : list NodePath := match l with [] => [] | c :: r => walk (prefix ++ [i]) c ++ go (S i) r end.

Lemma walk_eq prefix n : walk prefix n =
  prefix :: match node_children n with Some l => if expanded n then walk_children prefix 0 l else [] | None => [] end.
Proof. destruct n as [a b c [l|l|v|l o|l] e]; simpl; by destruct e. Qed.

Lemma walk_children_elem p prefix l : forall i, p ∈ walk_children prefix i l <-> exists j c, l !! j = Some c /\ p ∈ walk (prefix ++ [i + j]) c.
Proof.
  induction l as [|x l IH]; intros i; simpl; [split; [by intros ?%elem_of_nil|by intros (j & c & Hj & _)]|].
  rewrite elem_of_app, IH. split.
  - intros [Hx|(j & c & Hj & Hp)]; [exists 0, x; by rewrite Nat.add_0_r|exists (S j), c; by rewrite Nat.add_succ_r].
  - intros ([|j] & c & Hj & Hp); [simpl in Hj; injection Hj as ->; left; by rewrite Nat.add_0_r in Hp|right; exists j, c; by rewrite Nat.add_succ_r in Hp].
Qed.

Lemma walk_paths n : forall prefix p, p ∈ walk prefix n <-> exists q, p = prefix ++ q /\ seen n q.
Proof.
  induction n as [n IH] using node_ind'; intros prefix p. rewrite walk_eq, elem_of_cons. split.
  - intros [->|Hp]; [exists []; by rewrite app_nil_r|]. destruct (node_children n) as [l|] eqn:El; [|by apply elem_of_nil in Hp].
    destruct (expanded n) eqn:Ee; [|by apply elem_of_nil in Hp]. apply walk_children_elem in Hp as (j & c & Hj & Hp).
    apply (IH l c eq_refl) in Hp as (q & -> & Hq); [|by apply list_elem_of_lookup_2 in Hj]. exists (j :: q). rewrite <- app_assoc. split; [done|].
    simpl. split; [done|]. by exists l, c.
  - intros ([|j q] & -> & Hq); [left; by rewrite app_nil_r|right]. destruct Hq as (Ee & l & c & El & Hj & Hq). rewrite El, Ee.
    apply walk_children_elem. exists j, c. split; [done|]. apply (IH l c El); [by apply list_elem_of_lookup_2 in Hj|]. exists q. by rewrite <- app_assoc.
Qed.

Lemma flatten_elem root p : p ∈ flatten root <-> seen root p.
Proof. unfold flatten. rewrite walk_paths. split; [by intros (q & -> & Hq)|intros Hp; by exists p]. Qed.

Lemma seen_node root p : seen root p -> is_Some (get_node root p).
Proof. revert root. induction p as [|i p IH]; intros root; [by exists root|]. intros (He & l & c & Hl & Hi & Hp). simpl. rewrite Hl. simpl. rewrite Hi. simpl. by apply IH. Qed.

Lemma seen_prefix root p q : seen root (p ++ q) -> seen root p.
Proof. revert root. induction p as [|i p IH]; intros root; [done|]. intros (He & l & c & Hl & Hi & Hp). split; [done|]. exists l, c. split; [done|]. split; [done|]. by eapply IH. Qed.

(** * Changing a node *)

Lemma set_children_children l l' n : node_children n = Some l -> node_children (set_children l' n) = Some l' /\ expanded (set_children l' n) = expanded n.
Proof. destruct n as [a b c [x|x|v|x o|x] e]; unfold node_children, set_children; simpl; done. Qed.

Lemma seen_update g p q root : seen root (p ++ q) -> (forall n, get_node root p = Some n -> seen n q -> seen (g n) q) -> seen (update_node g p root) (p ++ q).
Proof.
  revert root. induction p as [|i p IH]; intros root; simpl; [intros Hs Hg; by apply Hg|].
  intros (He & l & c & Hl & Hi & Hp) Hg. rewrite Hl. destruct (set_children_children l (alter (update_node g p) i l) root Hl) as [Hc Hx].
  split; [by rewrite Hx|]. exists (alter (update_node g p) i l), (update_node g p c). split; [done|]. split; [by rewrite list_lookup_alter_eq, Hi|].
  apply IH; [done|]. intros n Hn. apply Hg. rewrite Hl. simpl. by rewrite Hi.
Qed.

Lemma seen_update_self g p root : seen root p -> seen (update_node g p root) p.
Proof. intros Hp. rewrite <- (app_nil_r p) at 2. apply seen_update; [by rewrite app_nil_r|done]. Qed.

Section focus.
Context `{JsonText, !JsonPretty, UnicodeCase, FloatText}.

(** ** Keys *)

Lemma append_seen n q : seen n q -> seen (append_entry n) q.
Proof.
  unfold append_entry, array_append_default. destruct n as [a b c [x|x|v|x o|x] e]; simpl; try done. destruct q as [|i q]; [done|].
  intros (He & l & y & Hl & Hi & Hq). split; [done|]. unfold node_children in *. simpl in *. injection Hl as <-. eexists _, y. split; [done|]. split; [|done].
  by apply lookup_app_l_Some.
Qed.

Lemma removelast_app_last (l : list nat) d : l <> [] -> removelast l ++ [List.last l d] = l.
Proof. intros Hl. symmetry. by apply app_removelast_last. Qed.

Lemma add_entry_seen root focus : seen root focus -> seen (add_entry root focus) focus.
Proof.
  intros Hf. unfold add_entry. destruct (get_node root focus) as [n|] eqn:En; [|done]. destruct (is_array n); [by apply seen_update_self|].
  destruct focus as [|i p]; [done|]. set (q := i :: p) in *. pose proof (removelast_app_last q 0 ltac:(done)) as Hq.
  enough (Hs : seen (update_node append_entry (removelast q) root) (removelast q ++ [List.last q 0])) by (by rewrite Hq in Hs).
  apply seen_update; [by rewrite Hq|]. intros m _. apply append_seen.
Qed.

Lemma delete_entry_seen root focus : seen root focus -> seen (delete_entry root focus).1 (delete_entry root focus).2.
Proof.
  intros Hf. unfold delete_entry. destruct focus as [|i p]; [done|]. set (q := i :: p) in *.
  destruct (get_node root (removelast q) ≫= array_delete_at (List.last q 0)) as [n|]; [|done]. cbn [fst snd]. apply seen_update_self.
  apply (seen_prefix _ _ [List.last q 0]). by rewrite removelast_app_last by done.
Qed.

Lemma activate_seen root focus sp fw : seen root focus -> seen (activate_node root focus sp fw).1 focus.
Proof.
  intros Hf. unfold activate_node. destruct (get_node root focus); [|done]. destruct (negb _); [done|]. destruct (bool_decide _); [by apply seen_update_self|].
  destruct (enum_variants _); [by apply seen_update_self|done].
Qed.

Lemma dispatch_seen root focus k : seen root focus -> seen (dispatch_key root focus k).1.1 (dispatch_key root focus k).1.2.
Proof.
  intros Hf. unfold dispatch_key. destruct (char_key "s" k && only_control k); [done|].
  assert (Hv : forall i p, flatten root !! i = Some p -> seen root p) by (intros i p Hi%list_elem_of_lookup_2; by apply flatten_elem).
  destruct (code k); try done; simpl; try (by apply seen_update_self).
  - pose proof (activate_seen root focus false (negb (mod_shift k)) Hf) as Ha. by destruct (activate_node _ _ _ _).
  - destruct (default 0 _) as [|i]; [done|]. destruct (flatten root !! i) eqn:E; simpl; [by eapply Hv|done].
  - destruct (flatten root !! _) eqn:E; simpl; [by eapply Hv|done].
  - destruct (String.eqb c "+"); [by apply add_entry_seen|]. destruct (String.eqb c "-").
    { pose proof (delete_entry_seen root focus Hf) as Hd. by destruct (delete_entry _ _). }
    destruct (_ && _); [done|]. destruct (String.eqb c " "); [|done].
    pose proof (activate_seen root focus true (negb (mod_shift k)) Hf) as Ha. by destruct (activate_node _ _ _ _).
Qed.

(** A scalar is opened only under the focus, and only on a scalar row without choices of its own. *)
Lemma dispatch_opens root focus k path : (dispatch_key root focus k).2 = EditorOpenScalar path ->
  (dispatch_key root focus k).1 = (root, focus) /\ path = focus /\ exists n, get_node root focus = Some n /\ is_scalar n = true.
Proof.
  assert (Ha : forall sp fw, (activate_node root focus sp fw).2 = EditorOpenScalar path ->
    (activate_node root focus sp fw).1 = root /\ path = focus /\ exists n, get_node root focus = Some n /\ is_scalar n = true).
  { intros sp fw. unfold activate_node. destruct (get_node root focus) as [n|]; [|done]. destruct (is_scalar n) eqn:Es; simpl; [|done].
    destruct (bool_decide _); [done|]. destruct (enum_variants _); [done|]. destruct sp; [done|]. simpl. intros [= ->]. by eauto. }
  unfold dispatch_key. destruct (char_key "s" k && only_control k); [done|]. destruct (code k); try done.
  - specialize (Ha false (negb (mod_shift k))). destruct (activate_node _ _ _ _) as [r s]. simpl in *. intros Hs. by destruct (Ha Hs) as (-> & -> & ?).
  - destruct (String.eqb c "+"); [done|]. destruct (String.eqb c "-"); [by destruct (delete_entry _ _)|].
    destruct (_ && _); [done|]. destruct (String.eqb c " "); [|done].
    specialize (Ha true (negb (mod_shift k))). destruct (activate_node _ _ _ _) as [r s]. simpl in *. intros Hs. by destruct (Ha Hs) as (-> & -> & ?).
Qed.

Lemma activate_no_save root focus sp fw w : (activate_node root focus sp fw).2 <> EditorSave w.
Proof.
  unfold activate_node. destruct (get_node root focus); [|done]. destruct (negb _); [done|]. destruct (bool_decide _); [done|].
  destruct (enum_variants _); [done|]. by destruct sp.
Qed.

Variable json_error : string -> string.

(** The focus is on a visible row, a raw buffer has its cursor in it, and the scalar that is edited is
    the focused row. *)
Definition editor_ok (ed : JsonEditor) : Prop :=
  ed_focus ed ∈ flatten (ed_root ed) /\
  match ed_mode ed with Structured => True | Raw e => cursor_ok e /\ ed_scalar ed = None end /\
  match ed_scalar ed with Some (path, _) => path = ed_focus ed /\ exists n, get_node (ed_root ed) path = Some n /\ is_scalar n = true | None => True end.

Definition open_editor (schema v : value) (name : string) (required : bool) : JsonEditor :=
  mk_json_editor (from_schema name schema v required) [] Structured None.

Lemma raw_key_ok e schema name required ed k : editor_ok ed -> ed_mode ed = Raw e -> editor_ok (raw_key json_error e schema name required ed k).1.
Proof.
  intros (Hf & Hm & Hs) He. rewrite He in Hm. destruct Hm as [Hm Hn]. unfold raw_key. destruct (raw_edit_step e k Hm) as [Hc _].
  destruct (dispatch e k) as [e' step]. simpl in Hc. unfold editor_ok, commit_raw_to_tree. rewrite Hn.
  destruct step; simpl; try (by split; [|split]); destruct (parse_value (to_text e')); simpl; try (by split; [|split]).
  split; [apply flatten_elem; exact I|done].
Qed.

Lemma tree_key_ok ed k : editor_ok ed -> ed_mode ed = Structured -> ed_scalar ed = None -> editor_ok (tree_key ed k).1.
Proof.
  intros (Hf & _ & _) Hm Hs. unfold tree_key. pose proof (dispatch_seen (ed_root ed) (ed_focus ed) k) as Hd. pose proof (dispatch_opens (ed_root ed) (ed_focus ed) k) as Ho.
  rewrite flatten_elem in Hf. specialize (Hd Hf). destruct (dispatch_key _ _ _) as [[root focus] step]. simpl in Hd.
  apply flatten_elem in Hd. unfold editor_ok. rewrite Hs. destruct step; simpl; try done.
  - split; [done|]. split; [|done]. split; [apply seed_text|done].
  - destruct (Ho path eq_refl) as ([= -> ->] & -> & Hn). split; [done|]. by split.
Qed.

Lemma scalar_key_ok path buffer ed k : editor_ok ed -> ed_scalar ed = Some (path, buffer) -> editor_ok (scalar_key path buffer ed k).
Proof.
  intros (Hf & Hm & Hs) He. rewrite He in *. destruct Hs as [-> Hs]. assert (Hmode : ed_mode ed = Structured) by (destruct (ed_mode ed); [done|by destruct Hm]).
  unfold scalar_key, editor_ok. rewrite Hmode. destruct (code k); simpl; try (by split).
  split; [|done]. apply flatten_elem, seen_update_self. by apply flatten_elem.
Qed.

Lemma editor_key_ok schema name required ed k : editor_ok ed -> editor_ok (apply_json_editor_key json_error schema name required ed k).1.
Proof.
  intros Hed. unfold apply_json_editor_key. destruct (ed_scalar ed) as [[path buffer]|] eqn:Es; [by apply scalar_key_ok|].
  destruct (ed_mode ed) eqn:Em; [by apply tree_key_ok|by apply raw_key_ok].
Qed.

Definition editor_keys (schema : value) (name : string) (required : bool) (ed : JsonEditor) (ks : list KeyEvent) : JsonEditor :=
  fold_left (fun ed k => (apply_json_editor_key json_error schema name required ed k).1) ks ed.

(** The editor never acts on a row that is not shown: whatever keys are pressed, the focus is one of the
    visible rows, the scalar being typed is the focused row, and a raw buffer has its cursor in
    it; what is saved is the tree as it stands, or the raw text as the schema reads it. *)
Theorem editor_focus_visible schema v name required ks k :
  let ed := editor_keys schema name required (open_editor schema v name required) ks in
  editor_ok ed /\
  forall w, (apply_json_editor_key json_error schema name required ed k).2 = JsonSave w ->
    match ed_mode ed with
    | Structured => w = to_value (ed_root ed)
    | Raw e => exists parsed, parse_value (to_text e) = Some parsed /\ w = to_value (from_schema name schema parsed required)
    end.
Proof.
  intros ed. split.
  - unfold ed. assert (Ho : editor_ok (open_editor schema v name required)) by (split; [apply flatten_elem; exact I|done]). revert Ho. generalize (open_editor schema v name required).
    clear ed. induction ks as [|x ks IH]; intros ed Hed; [done|]. apply IH. by apply editor_key_ok.
  - intros w. unfold apply_json_editor_key. destruct (ed_scalar ed) as [[path buffer]|]; [done|]. destruct (ed_mode ed) as [|e].
    + unfold tree_key, dispatch_key. destruct (char_key "s" k && only_control k); [by intros [= <-]|].
      destruct (code k); try done; simpl.
      * pose proof (activate_no_save (ed_root ed) (ed_focus ed) false (negb (mod_shift k))) as Hn. destruct (activate_node _ _ _ _) as [r []]; try done. by destruct (Hn v0).
      * destruct (String.eqb c "+"); [done|]. destruct (String.eqb c "-"); [by destruct (delete_entry _ _)|]. destruct (_ && _); [done|].
        destruct (String.eqb c " "); [|done].
        pose proof (activate_no_save (ed_root ed) (ed_focus ed) true (negb (mod_shift k))) as Hn. destruct (activate_node _ _ _ _) as [r []]; try done. by destruct (Hn v0).
    + unfold raw_key, commit_raw_to_tree, dispatch. destruct (char_key "s" k && mod_control k).
      { simpl. destruct (parse_value (to_text e)) as [parsed|]; simpl; [|done]. intros [= <-]. by exists parsed. }
      destruct (char_key "r" k && mod_control k); [simpl; by destruct (parse_value _)|]. by destruct (code k).
Qed.

End focus.
