(* ===== verification/JsonTreeProps.v ===== *)
(** What the tree editor keeps of a JSON body, and what a form makes of the values of its rows. *)

From stdpp Require Import base gmap strings list.
From Stdlib Require Import ZArith Lia Ascii Sorting.Sorted.
From S2P Require Import Prelude Text Kebab Time Json JsonNormal Catalogue Results Workflow AutoDerive Bindings Pagination Shape Options ReviewPlan Executor Widgets RawEditor Fields JsonTree.

#[local] Open Scope nat_scope.

(** * Nesting *)

Lemma list_max_in l x : x ∈ l -> x <= list_max l.
Proof. intros Hx. pose proof (proj1 (list_max_le l (list_max l)) (le_n _)) as Hf. rewrite Forall_forall in Hf. by apply Hf. Qed.

Lemma height_entry l kv : kv ∈ l -> height kv.2 < height (Object l).
Proof. intros Hk. simpl. apply Nat.lt_succ_r, list_max_in, list_elem_of_fmap. by exists kv. Qed.

Lemma height_item l v : v ∈ l -> height v < height (Array l).
Proof. intros Hv. simpl. apply Nat.lt_succ_r, list_max_in, list_elem_of_fmap. by exists v. Qed.

Lemma obj_get_entry k l v : obj_get k l = Some v -> (k, v) ∈ l.
Proof.
  induction l as [|[k' w] l IH]; [done|]. simpl. destruct (String.eqb_spec k k') as [->|]; [intros [= ->]; by left|]. intros Hg. right. by apply IH.
Qed.

Lemma height_get k v w : get_key k v = Some w -> height w < height v.
Proof. unfold get_key. destruct v as [| | | | |l]; try done. cbn [as_object]. intros Hg%obj_get_entry. by apply (height_entry l (k, w)). Qed.

Lemma height_get_default k v : height (default Null (get_key k v)) <= height v.
Proof. destruct (get_key k v) as [w|] eqn:E; simpl; [|lia]. apply height_get in E. lia. Qed.

Lemma height_infer v : height (infer_schema_from_value v) <= S (height v).
Proof.
  induction v as [| |[]| |l IH|l IH] using value_ind'; try (simpl; lia). destruct IH as [|x l Hx Hl]; [simpl; lia|].
  simpl in *. lia.
Qed.

(** The documents that [from_schema] descends to. *)
Definition smaller (s' v' s v : value) : Prop :=
  height v' < height v /\ (height s' <= height s \/ height s' <= S (height v')) \/ height v' <= height v /\ height s' < height s.

Section props.
Context `{JsonText, !JsonPretty, UnicodeCase, FloatText}.

(** * Building is total *)

Lemma schema_kind_ext h1 h2 schema v :
  (forall name s w r, smaller s w schema v -> h1 name s w r = h2 name s w r) -> schema_kind h1 schema v = schema_kind h2 schema v.
Proof.
  intros Hh. unfold schema_kind.
  assert (Hobject : match get_key "properties" schema ≫= as_object with
      | Some props => KObject (map (fun p => h1 p.1 p.2 (default Null (get_key p.1 v)) (bool_decide (p.1 ∈ default [] (required_names schema)))) props)
      | None => match v with Object l => KObject (map (fun p => h1 p.1 (infer_schema_from_value p.2) p.2 false) l) | _ => KObject [] end
      end = match get_key "properties" schema ≫= as_object with
      | Some props => KObject (map (fun p => h2 p.1 p.2 (default Null (get_key p.1 v)) (bool_decide (p.1 ∈ default [] (required_names schema)))) props)
      | None => match v with Object l => KObject (map (fun p => h2 p.1 (infer_schema_from_value p.2) p.2 false) l) | _ => KObject [] end
      end).
  { destruct (get_key "properties" schema) as [ps|] eqn:Ep; cbn [mbind option_bind].
    - destruct ps as [|b|n|t|q|props]; cbn [as_object].
      6:{ f_equal. apply map_ext_Forall, Forall_forall. intros p Hp. apply Hh. right. split; [apply height_get_default|].
          apply height_get in Ep. apply height_entry in Hp. simpl in *. lia. }
      all: destruct v as [|b'|n'|t'|q'|l]; try done; f_equal; apply map_ext_Forall, Forall_forall; intros p Hp; apply Hh; left;
        (split; [by apply height_entry|right; apply height_infer]).
    - destruct v as [|b'|n'|t'|q'|l]; try done; f_equal; apply map_ext_Forall, Forall_forall; intros p Hp; apply Hh; left;
        (split; [by apply height_entry|right; apply height_infer]). }
  assert (Harray : match v with Array items => KArray (imap (fun i item => h1 (index_name i) (default Null (get_key "items" schema)) item false) items) | _ => KArray [] end =
                   match v with Array items => KArray (imap (fun i item => h2 (index_name i) (default Null (get_key "items" schema)) item false) items) | _ => KArray [] end).
  { destruct v as [| | | |items|]; try done. f_equal. apply imap_ext. intros i item Hi. apply Hh. left.
    split; [apply height_item; by apply list_elem_of_lookup_2 in Hi|left; apply height_get_default]. }
  assert (Hone : match get_key "oneOf" schema ≫= as_array with
      | Some variants => KOneOf (imap (fun i s => h1 ("variant " +:+ show_int (Z.of_nat i)) s Null false) variants) None
      | None => if bool_decide (is_Some (get_key "additionalProperties" schema)) then KFreeMap [] else KScalar (scalar_from_value v schema) end =
    match get_key "oneOf" schema ≫= as_array with
      | Some variants => KOneOf (imap (fun i s => h2 ("variant " +:+ show_int (Z.of_nat i)) s Null false) variants) None
      | None => if bool_decide (is_Some (get_key "additionalProperties" schema)) then KFreeMap [] else KScalar (scalar_from_value v schema) end).
  { destruct (get_key "oneOf" schema) as [one|] eqn:Eo; [|done]. destruct one as [| | | |variants|]; try done. cbn [mbind option_bind as_array].
    f_equal. apply imap_ext. intros i s Hi. apply Hh. right. split; [simpl; lia|].
    apply height_get in Eo. apply list_elem_of_lookup_2, height_item in Hi. lia. }
  cbv zeta. rewrite Hobject, Harray, Hone. done.
Qed.

Lemma fuel_enough K : forall n1 n2 name schema v required, height schema < K -> S (height v) < K ->
  height v * K + height schema < n1 -> height v * K + height schema < n2 ->
  from_schema_fuel n1 name schema v required = from_schema_fuel n2 name schema v required.
Proof.
  induction n1 as [|n1 IH]; intros [|n2] name schema v required Hs Hv H1' H2'; try lia. simpl. f_equal. apply schema_kind_ext.
  intros nm s w r Hw. apply IH; destruct Hw as [[Hw [Hx|Hx]]|[Hw Hx]]; nia.
Qed.

(** The equation of [from_schema]: the fuel it starts with is enough at every node. *)
Lemma from_schema_eq name schema v required : from_schema name schema v required = mk_node name schema required (schema_kind from_schema schema v) true.
Proof.
  unfold from_schema at 1. unfold tree_fuel. set (K := 2 + Nat.max (height schema) (S (height v))). cbn [from_schema_fuel]. f_equal. apply schema_kind_ext.
  intros nm s w r Hw. unfold from_schema, tree_fuel. set (K' := 2 + Nat.max (height s) (S (height w))).
  assert (K' <= K) by (unfold K, K'; destruct Hw as [[Hw [Hx|Hx]]|[Hw Hx]]; lia).
  assert (height schema < K) by (unfold K; lia). assert (height s < K' /\ S (height w) < K') as [Hs' Hw'] by (unfold K'; lia).
  clearbody K K'. apply (fuel_enough K'); [done..| |lia]. destruct Hw as [[Hw [Hx|Hx]]|[Hw Hx]]; nia.
Qed.

(** * Sorted objects *)

Lemma sorted_head_get k v l : Forall (key_lt (k, v)) l -> obj_get k l = None.
Proof.
  induction 1 as [|[k' w] l Hk Hl IH]; [done|]. simpl. destruct (String.eqb_spec k k') as [->|]; [|done].
  unfold key_lt in Hk. simpl in Hk. by rewrite ltb_irrefl in Hk.
Qed.

Lemma sorted_ext l1 l2 : StronglySorted key_lt l1 -> StronglySorted key_lt l2 -> (forall k, obj_get k l1 = obj_get k l2) -> l1 = l2.
Proof.
  intros Hs1. revert l2. induction Hs1 as [|[k1 v1] l1 Hs1 IH Hf1]; intros [|[k2 v2] l2] Hs2 Hg; [done|..].
  - specialize (Hg k2). simpl in Hg. by rewrite String.eqb_refl in Hg.
  - specialize (Hg k1). simpl in Hg. by rewrite String.eqb_refl in Hg.
  - apply StronglySorted_inv in Hs2 as [Hs2 Hf2].
    assert (Hlt : forall k v k' v' l, Forall (key_lt (k, v)) l -> obj_get k' l = Some v' -> String.ltb k k' = true).
    { intros k v k' v' l Hf Hk%obj_get_entry. rewrite Forall_forall in Hf. exact (Hf _ Hk). }
    assert (k1 = k2) as <-.
    { destruct (String.eqb_spec k1 k2) as [|Hne]; [done|]. exfalso. pose proof (Hg k1) as Ha. pose proof (Hg k2) as Hb. simpl in Ha, Hb.
      rewrite String.eqb_refl in Ha, Hb. rewrite (proj2 (String.eqb_neq _ _) Hne) in Ha. rewrite (proj2 (String.eqb_neq k2 k1)) in Hb by done.
      symmetry in Ha. pose proof (Hlt _ _ _ _ _ Hf2 Ha) as Hc. pose proof (Hlt _ _ _ _ _ Hf1 Hb) as Hd. by rewrite (ltb_asym _ _ Hc) in Hd. }
    pose proof (Hg k1) as Ha. simpl in Ha. rewrite String.eqb_refl in Ha. injection Ha as <-. f_equal. apply IH; [done|]. intros k. specialize (Hg k). simpl in Hg.
    destruct (decide (k = k1)) as [Ek|Ek]; [|by rewrite (proj2 (String.eqb_neq _ _) Ek) in Hg]. by rewrite Ek, (sorted_head_get _ _ _ Hf1), (sorted_head_get _ _ _ Hf2).
Qed.

Lemma sorted_keys_nodup l : StronglySorted key_lt l -> NoDup (map fst l).
Proof.
  induction 1 as [|[k v] l Hs IH Hf]; simpl; constructor; [|done]. rewrite list_elem_of_fmap. intros ([k' w] & Hk & Hw). simpl in Hk. subst k'.
  rewrite Forall_forall in Hf. specialize (Hf _ Hw). unfold key_lt in Hf. simpl in Hf. by rewrite ltb_irrefl in Hf.
Qed.

Lemma obj_get_elem_iff k v l : NoDup (map fst l) -> obj_get k l = Some v <-> (k, v) ∈ l.
Proof.
  intros Hn. split; [apply obj_get_entry|]. induction l as [|[k' w] l IH]; [by intros ?%elem_of_nil|]. simpl in *. inversion Hn as [|x y Hk Hl]; subst.
  intros [[= <- <-]|Hv]%elem_of_cons; [by rewrite String.eqb_refl|]. destruct (String.eqb_spec k k') as [->|]; [|by apply IH].
  exfalso. apply Hk, list_elem_of_fmap. by exists (k', v).
Qed.

Lemma obj_get_none_iff k l : obj_get k l = None <-> k ∉ map fst l.
Proof.
  induction l as [|[k' w] l IH]; simpl; [split; [by intros _ ?%elem_of_nil|done]|]. rewrite not_elem_of_cons. destruct (String.eqb_spec k k') as [->|]; [naive_solver|]. naive_solver.
Qed.

Lemma insert_some_sorted l : forall acc, StronglySorted key_lt acc -> StronglySorted key_lt (foldl insert_some acc l).
Proof.
  induction l as [|kv l IH]; intros acc Ha; [done|]. simpl. apply IH. unfold insert_some. destruct (is_null kv.2); [done|]. by apply obj_insert_sorted.
Qed.

Lemma insert_some_get k l : NoDup (map fst l) -> forall acc, obj_get k acc = None ->
  obj_get k (foldl insert_some acc l) = match obj_get k l with Some v => if is_null v then None else Some v | None => None end.
Proof.
  induction l as [|[k' v] l IH]; intros Hn acc Ha; [done|]. simpl in *. inversion Hn as [|x y Hk Hl]; subst. destruct (String.eqb_spec k k') as [->|Hne].
  - assert (Hrest : forall acc, obj_get k' (foldl insert_some acc l) = obj_get k' acc).
    { clear -Hk. induction l as [|[k2 v2] l IH]; intros acc; [done|]. simpl in *. rewrite not_elem_of_cons in Hk. destruct Hk as [Hk1 Hk2]. rewrite IH by done.
      unfold insert_some. simpl. destruct (is_null v2); [done|]. rewrite obj_get_insert. by rewrite (proj2 (String.eqb_neq _ _) Hk1). }
    rewrite Hrest. unfold insert_some. simpl. destruct (is_null v); [done|]. by rewrite obj_get_insert, String.eqb_refl.
  - apply IH; [done|]. unfold insert_some. simpl. destruct (is_null v); [done|]. by rewrite obj_get_insert, (proj2 (String.eqb_neq _ _) Hne).
Qed.

Lemma obj_get_map (f : string -> value -> value) k l : obj_get k (map (fun p => (p.1, f p.1 p.2)) l) = f k <$> obj_get k l.
Proof. induction l as [|[k' v] l IH]; [done|]. simpl. by destruct (String.eqb_spec k k') as [->|]. Qed.

(** * What a save keeps *)

Definition properties_of (schema : value) : option (list (string * value)) := get_key "properties" schema ≫= as_object.

Inductive SchemaClass : Type := ObjectOf (props : list (string * value)) | AnyObject | ArrayOf (items : value) | OneScalar | OneOfSchema | MapSchema.

Definition schema_class (schema : value) : SchemaClass :=
  let ty := type_name schema in
  if String.eqb ty "object" then match properties_of schema with Some props => ObjectOf props | None => AnyObject end
  else if String.eqb ty "array" then ArrayOf (default Null (get_key "items" schema))
  else if is_scalar_type ty then OneScalar
  else match get_key "oneOf" schema ≫= as_array with
       | Some _ => OneOfSchema
       | None => if bool_decide (is_Some (get_key "additionalProperties" schema)) then MapSchema else OneScalar
       end.

(** An absent property of this schema stays absent. *)
Definition writes_nothing (schema : value) : bool := match schema_class schema with OneScalar | OneOfSchema => true | _ => false end.

Definition scalar_kept (schema v : value) : bool :=
  let enum := bool_decide (is_Some (get_key "enum" schema)) in
  match v with
  | Null | Str _ => true
  | Bool _ | Number (NFloat _) => negb enum
  | Number (NInt z) => negb enum && bool_decide (in_i64 z)
  | _ => false
  end.

(** The bodies a save writes back as they were: every key is declared and set, declared containers
    are present, entries of an undeclared object or of an array conform to the schema they are
    shown with; a free-form map is empty, a choice of schemas unset. *)
Inductive lossless : value -> value -> Prop :=
| lossless_object schema props l : schema_class schema = ObjectOf props ->
    (forall k w, obj_get k l = Some w -> exists s, (k, s) ∈ props /\ w <> Null /\ lossless s w) ->
    (forall k s, (k, s) ∈ props -> obj_get k l = None -> writes_nothing s = true) -> lossless schema (Object l)
| lossless_any schema l : schema_class schema = AnyObject ->
    (forall k w, (k, w) ∈ l -> w <> Null /\ lossless (infer_schema_from_value w) w) -> lossless schema (Object l)
| lossless_array schema item l : schema_class schema = ArrayOf item -> (forall w, w ∈ l -> lossless item w) -> lossless schema (Array l)
| lossless_scalar schema v : schema_class schema = OneScalar -> scalar_kept schema v = true -> lossless schema v
| lossless_one_of schema : schema_class schema = OneOfSchema -> lossless schema Null
| lossless_map schema : schema_class schema = MapSchema -> lossless schema (Object []).

(** What is saved of [v]. *)
Definition saved (schema v : value) : value := to_value (from_schema EmptyString schema v false).

Lemma saved_eq name schema v required : to_value (from_schema name schema v required) = saved schema v.
Proof. unfold saved. by rewrite !from_schema_eq. Qed.

Definition scalar_saved (schema v : value) : value := match scalar_from_value v schema with Some s => scalar_to_value s | None => Null end.

Lemma node_name_from name schema v required : node_name (from_schema name schema v required) = name.
Proof. by rewrite from_schema_eq. Qed.

Lemma to_value_object a b c l e : to_value (mk_node a b c (KObject l) e) = Object (foldl insert_some [] (map (fun n => (node_name n, to_value n)) l)).
Proof. done. Qed.

Lemma to_value_array a b c l e : to_value (mk_node a b c (KArray l) e) = Array (map to_value l).
Proof. done. Qed.

Lemma saved_class schema v :
  saved schema v =
  match schema_class schema with
  | ObjectOf props => Object (foldl insert_some [] (map (fun p => (p.1, saved p.2 (default Null (get_key p.1 v)))) props))
  | AnyObject => match v with Object l => Object (foldl insert_some [] (map (fun p => (p.1, saved (infer_schema_from_value p.2) p.2)) l)) | _ => Object [] end
  | ArrayOf item => match v with Array l => Array (map (saved item) l) | _ => Array [] end
  | OneScalar => scalar_saved schema v
  | OneOfSchema => Null
  | MapSchema => Object []
  end.
Proof.
  unfold saved at 1. rewrite from_schema_eq. unfold schema_kind, schema_class, properties_of.
  assert (Hscalar : to_value (mk_node EmptyString schema false (KScalar (scalar_from_value v schema)) true) = scalar_saved schema v) by done.
  destruct (String.eqb (type_name schema) "object").
  { destruct (get_key "properties" schema ≫= as_object) as [props|].
    - by rewrite to_value_object, map_map.
    - by destruct v; rewrite to_value_object, ?map_map. }
  destruct (String.eqb (type_name schema) "array").
  { destruct v as [| | | |l|]; try done. rewrite to_value_array. f_equal. apply list_eq. intros i.
    rewrite !list_lookup_fmap, list_lookup_imap. by destruct (l !! i). }
  destruct (is_scalar_type (type_name schema)); [done|]. destruct (get_key "oneOf" schema ≫= as_array); [done|]. by destruct (bool_decide _).
Qed.

Lemma scalar_kept_iff schema v : scalar_saved schema v = v <-> scalar_kept schema v = true.
Proof.
  unfold scalar_saved, scalar_from_value, scalar_kept. destruct (bool_decide (is_Some (get_key "enum" schema))); destruct v as [|b|[z|r]|s|l|l]; simpl; try done.
  destruct (bool_decide (in_i64 z)); simpl; done.
Qed.

Lemma saved_null schema : saved schema Null = Null <-> writes_nothing schema = true.
Proof.
  rewrite saved_class. unfold writes_nothing. destruct (schema_class schema); split; intros Hx; try discriminate; try done.
  unfold scalar_saved, scalar_from_value. by destruct (bool_decide _).
Qed.

Lemma smaller_ind (P : value -> value -> Prop) : (forall s v, (forall s' v', smaller s' v' s v -> P s' v') -> P s v) -> forall s v, P s v.
Proof.
  intros Hstep. enough (Ha : forall n m s v, height v < n -> height s < m -> P s v) by (intros s v; apply (Ha (S (height v)) (S (height s))); lia).
  induction n as [|n IHn]; [lia|]. induction m as [|m IHm]; intros s v Hv Hs; [lia|]. apply Hstep. intros s' v' Hx.
  destruct (decide (height v' < height v)) as [Hl|Hl]; [apply (IHn (S (height s'))); lia|].
  destruct Hx as [[Hx _]|[Hx Hy]]; [lia|]. apply IHm; lia.
Qed.

Lemma infer_canonical v : canonical v -> canonical (infer_schema_from_value v).
Proof.
  assert (Ht : forall t, canonical (AutoDerive.typed t)) by (intros; constructor; repeat constructor).
  induction v as [| |[]| |l IH|l IH] using value_ind'; intros Hc; try apply Ht; [by repeat constructor|].
  inversion Hc as [| | | |? Hl|]; subst. assert (Hi : canonical (match l with x :: _ => infer_schema_from_value x | [] => Object [] end)).
  { destruct IH as [|x l Hx IH]; [by repeat constructor|]. inversion Hl; subst. by apply Hx. }
  simpl. constructor; repeat constructor; simpl; done.
Qed.

Lemma canonical_get k v w : canonical v -> get_key k v = Some w -> canonical w.
Proof.
  intros Hc. unfold get_key. destruct v as [| | | | |l]; try done. intros Hg%obj_get_entry. inversion Hc as [| | | | |? Hs Hf]; subst.
  rewrite Forall_forall in Hf. exact (Hf _ Hg).
Qed.

Lemma class_props schema props : canonical schema -> schema_class schema = ObjectOf props ->
  StronglySorted key_lt props /\ forall k s, (k, s) ∈ props -> canonical s /\ height s < height schema.
Proof.
  intros Hc. unfold schema_class, properties_of. destruct (String.eqb (type_name schema) "object").
  2:{ destruct (String.eqb _ _); [done|]. destruct (is_scalar_type _); [done|]. destruct (get_key "oneOf" schema ≫= as_array); [done|]. by destruct (bool_decide _). }
  destruct (get_key "properties" schema) as [ps|] eqn:Ep; [|done]. destruct ps as [| | | | |l]; try done. cbn [mbind option_bind as_object]. intros [= <-].
  pose proof (canonical_get _ _ _ Hc Ep) as Hp. inversion Hp as [| | | | |? Hs Hf]; subst. split; [done|]. intros k s Hk. rewrite Forall_forall in Hf.
  split; [exact (Hf _ Hk)|]. apply height_get in Ep. apply height_entry in Hk. simpl in *. lia.
Qed.

Lemma class_items schema item : canonical schema -> schema_class schema = ArrayOf item -> canonical item /\ height item <= height schema.
Proof.
  intros Hc. unfold schema_class. destruct (String.eqb (type_name schema) "object"); [by destruct (properties_of schema)|]. destruct (String.eqb (type_name schema) "array").
  2:{ destruct (is_scalar_type _); [done|]. destruct (get_key "oneOf" schema ≫= as_array); [done|]. by destruct (bool_decide _). }
  intros [= <-]. split; [|apply height_get_default]. destruct (get_key "items" schema) eqn:E; simpl; [by eapply canonical_get|constructor].
Qed.

Lemma map_fst_with (f : string -> value -> value) l : map fst (map (fun p => (p.1, f p.1 p.2)) l) = map fst l.
Proof. rewrite map_map. by apply map_ext. Qed.

(** An object is written back exactly when each key is. *)
Lemma object_saved (f : string -> value -> value) props l : NoDup (map fst props) -> StronglySorted key_lt l ->
  Object (foldl insert_some [] (map (fun p => (p.1, f p.1 p.2)) props)) = Object l <->
  forall k, match obj_get k props with Some s => if is_null (f k s) then None else Some (f k s) | None => None end = obj_get k l.
Proof.
  intros Hn Hl. assert (Hg : forall k, obj_get k (foldl insert_some [] (map (fun p => (p.1, f p.1 p.2)) props)) =
    match obj_get k props with Some s => if is_null (f k s) then None else Some (f k s) | None => None end).
  { intros k. rewrite insert_some_get by (rewrite ?map_fst_with; done). rewrite obj_get_map. by destruct (obj_get k props). }
  split.
  - intros [= <-] k. by rewrite Hg.
  - intros Hk. f_equal. apply sorted_ext; [apply insert_some_sorted; constructor|done|]. intros k. by rewrite Hg.
Qed.

Lemma canonical_sorted l : canonical (Object l) -> StronglySorted key_lt l /\ forall k w, (k, w) ∈ l -> canonical w.
Proof. intros Hc. inversion Hc as [| | | | |? Hs Hf]; subst. split; [done|]. intros k w Hk. rewrite Forall_forall in Hf. exact (Hf _ Hk). Qed.

Lemma null_dropped (v w : value) : (if is_null v then None else Some v) = Some w <-> v = w /\ w <> Null.
Proof. destruct v; simpl; split; try (by intros [= <-]); try (by intros [-> ?]); done. Qed.

Lemma props_lossless props l :
  StronglySorted key_lt props -> StronglySorted key_lt l ->
  (forall k s, (k, s) ∈ props -> saved s (default Null (obj_get k l)) = default Null (obj_get k l) <-> lossless s (default Null (obj_get k l))) ->
  (forall k, match obj_get k props with
             | Some s => if is_null (saved s (default Null (obj_get k l))) then None else Some (saved s (default Null (obj_get k l)))
             | None => None
             end = obj_get k l) <->
  (forall k w, obj_get k l = Some w -> exists s, (k, s) ∈ props /\ w <> Null /\ lossless s w) /\
  (forall k s, (k, s) ∈ props -> obj_get k l = None -> writes_nothing s = true).
Proof.
  intros Hp Hl IH. pose proof (sorted_keys_nodup _ Hp) as Hn. split.
  - intros Hk. split.
    + intros k w Hw. specialize (Hk k). rewrite Hw in Hk. destruct (obj_get k props) as [s|] eqn:Es; [|done]. apply null_dropped in Hk as [Hk Hnn].
      apply obj_get_entry in Es. exists s. split; [done|]. split; [done|]. specialize (IH k s Es). rewrite Hw in IH. by apply IH.
    + intros k s Hs Hw. specialize (Hk k). rewrite Hw, (proj2 (obj_get_elem_iff k s props Hn) Hs) in Hk. simpl in Hk. apply saved_null.
      by destruct (saved s Null).
  - intros [Hset Habsent] k. destruct (obj_get k l) as [w|] eqn:Ew.
    + destruct (Hset k w Ew) as (s & Hs & Hnn & Hw). rewrite (proj2 (obj_get_elem_iff k s props Hn) Hs). specialize (IH k s Hs). rewrite Ew in IH. simpl in *.
      rewrite (proj2 IH Hw). by apply null_dropped.
    + destruct (obj_get k props) as [s|] eqn:Es; [|done]. apply obj_get_entry in Es. simpl. by rewrite (proj2 (saved_null s) (Habsent k s Es Ew)).
Qed.

Lemma any_lossless l :
  StronglySorted key_lt l -> (forall k w, (k, w) ∈ l -> saved (infer_schema_from_value w) w = w <-> lossless (infer_schema_from_value w) w) ->
  (forall k, match obj_get k l with
             | Some w => if is_null (saved (infer_schema_from_value w) w) then None else Some (saved (infer_schema_from_value w) w)
             | None => None
             end = obj_get k l) <->
  (forall k w, (k, w) ∈ l -> w <> Null /\ lossless (infer_schema_from_value w) w).
Proof.
  intros Hl IH. pose proof (sorted_keys_nodup _ Hl) as Hn. split.
  - intros Hk k w Hw. specialize (Hk k). rewrite (proj2 (obj_get_elem_iff k w l Hn) Hw) in Hk. apply null_dropped in Hk as [Hk Hnn]. split; [done|]. by apply (IH k w Hw).
  - intros Hset k. destruct (obj_get k l) as [w|] eqn:Ew; [|done]. apply obj_get_entry in Ew. destruct (Hset k w Ew) as [Hnn Hw].
    rewrite (proj2 (IH k w Ew) Hw). by apply null_dropped.
Qed.

Lemma array_saved f (l : list value) : map f l = l <-> forall w, w ∈ l -> f w = w.
Proof.
  induction l as [|x l IH]; simpl; [split; [intros _ w Hw; by apply elem_of_nil in Hw|done]|]. split.
  - intros [= Hx Hl] w [->|Hw]%elem_of_cons; [done|]. by apply IH.
  - intros Hw. f_equal; [apply Hw; by left|]. apply IH. intros w Hin. apply Hw. by right.
Qed.

Lemma lossless_inv s v : lossless s v ->
  match schema_class s with
  | ObjectOf props => exists l, v = Object l /\ (forall k w, obj_get k l = Some w -> exists s, (k, s) ∈ props /\ w <> Null /\ lossless s w) /\
                                (forall k s, (k, s) ∈ props -> obj_get k l = None -> writes_nothing s = true)
  | AnyObject => exists l, v = Object l /\ forall k w, (k, w) ∈ l -> w <> Null /\ lossless (infer_schema_from_value w) w
  | ArrayOf item => exists l, v = Array l /\ forall w, w ∈ l -> lossless item w
  | OneScalar => scalar_kept s v = true
  | OneOfSchema => v = Null
  | MapSchema => v = Object []
  end.
Proof. destruct 1 as [? ? ? Ec|? ? Ec|? ? ? Ec|? ? Ec|? Ec|? Ec]; rewrite Ec; eauto. Qed.

(** [C36] The tree editor is lossless exactly for the bodies that fit its schema: opening a body and saving it
    untouched writes back the same document if and only if every key is declared and set, declared
    containers are present, the entries of arrays and undeclared objects conform to the
    schema they are shown with, free-form maps are empty and choices of schemas unset;
    from every other body the save loses or adds something. *)
Theorem tree_saves_iff_lossless schema v name required : canonical schema -> canonical v ->
  to_value (from_schema name schema v required) = v <-> lossless schema v.
Proof.
  rewrite saved_eq. revert schema v. refine (smaller_ind _ _). intros s v IH Hs Hv. rewrite saved_class.
  destruct (schema_class s) as [props| |item| | |] eqn:Ec.
  - destruct (class_props s props Hs Ec) as [Hp Hprops].
    pose proof (lossless_inv s v) as Hinv. rewrite Ec in Hinv. destruct v as [|b|n|t|q|l]; try (split; [done|by intros (? & ? & _)%Hinv]). destruct (canonical_sorted l Hv) as [Hl Hentries].
    rewrite (object_saved (fun k s => saved s (default Null (get_key k (Object l)))) props l (sorted_keys_nodup _ Hp) Hl).
    assert (IHp : forall k s, (k, s) ∈ props -> saved s (default Null (obj_get k l)) = default Null (obj_get k l) <-> lossless s (default Null (obj_get k l))).
    { intros k s' Hk. destruct (Hprops k s' Hk) as [Hc Hh]. apply IH; [|done|].
      - right. split; [apply (height_get_default k (Object l))|done].
      - destruct (obj_get k l) as [w|] eqn:Ew; simpl; [|constructor]. apply obj_get_entry in Ew. by eapply Hentries. }
    rewrite (props_lossless props l Hp Hl IHp). split; [intros [Ha Hb]; by eapply lossless_object|]. by intros (? & [= <-] & Ha)%Hinv.
  - pose proof (lossless_inv s v) as Hinv. rewrite Ec in Hinv. destruct v as [|b|n|t|q|l]; try (split; [done|by intros (? & ? & _)%Hinv]). destruct (canonical_sorted l Hv) as [Hl Hentries].
    rewrite (object_saved (fun _ w => saved (infer_schema_from_value w) w) l l (sorted_keys_nodup _ Hl) Hl).
    rewrite (any_lossless l Hl).
    + split; [intros Ha; by eapply lossless_any|]. by intros (? & [= <-] & Ha)%Hinv.
    + intros k w Hw. pose proof (Hentries k w Hw). apply IH; [|by apply infer_canonical|done]. left.
      split; [by apply (height_entry l (k, w))|right; apply height_infer].
  - destruct (class_items s item Hs Ec) as [Hi Hh]. pose proof (lossless_inv s v) as Hinv. rewrite Ec in Hinv. destruct v as [|b|n|t|l|q]; try (split; [done|by intros (? & ? & _)%Hinv]).
    inversion Hv as [| | | |? Hf|]; subst. rewrite Forall_forall in Hf. trans (forall w, w ∈ l -> saved item w = w).
    { rewrite <- array_saved. split; [by intros [= ->]|by intros ->]. }
    assert (IHl : forall w, w ∈ l -> saved item w = w <-> lossless item w).
    { intros w Hw. apply IH; [left; split; [by apply height_item|by left]|done|by apply Hf]. }
    split; [intros Ha; eapply lossless_array; [done|]; intros w Hw; by apply IHl, Ha|].
    intros (? & [= <-] & Ha)%Hinv. intros w Hw. apply IHl; auto.
  - rewrite scalar_kept_iff. split; [by apply lossless_scalar|]. intros Ha%lossless_inv. by rewrite Ec in Ha.
  - split; [intros <-; by apply lossless_one_of|]. intros Ha%lossless_inv. by rewrite Ec in Ha.
  - split; [intros <-; by apply lossless_map|]. intros Ha%lossless_inv. by rewrite Ec in Ha.
Qed.

End props.

(** ** A body and its schema *)

#[local] Instance tree_json : JsonText := bits_json_text.
#[local] Instance tree_pretty : JsonPretty := bits_json_pretty.
#[local] Instance tree_floats : FloatText := {| float_parse := fun _ => None; float_of_u64 := fun _ => "0"; float_display := fun r => r |}.

Definition team_schema : value :=
  Object [("properties", Object [("limits", Object [("type", Str "object")]); ("name", Object [("type", Str "string")]); ("tags", Object [("items", AutoDerive.typed "string"); ("type", Str "array")])]);
          ("type", Str "object")].

Definition team : value := Object [("limits", Object [("max", int 4)]); ("name", Str "red"); ("tags", Array [Str "a"; Str "b"])].

Lemma team_schema_canonical : canonical team_schema.
Proof. repeat constructor. Qed.

Lemma team_canonical : canonical team.
Proof. repeat constructor. Qed.

Lemma tree_saves_iff_lossless_witness : to_value (from_schema "team" team_schema team true) = team /\ lossless team_schema team.
Proof.
  split; [by vm_compute|]. apply (tree_saves_iff_lossless team_schema team "team" true team_schema_canonical team_canonical). by vm_compute.
Defined.

(** What was not there is written: an absent object or array comes back empty. *)
Example absent_containers_are_written :
  to_value (from_schema "team" team_schema (Object [("name", Str "red")]) true) = Object [("limits", Object []); ("name", Str "red"); ("tags", Array [])].
Proof. by vm_compute. Qed.

(** What the schema does not declare is lost. *)
Example undeclared_keys_are_lost :
  to_value (from_schema "team" team_schema (Object [("limits", Object []); ("name", Str "red"); ("note", Str "x"); ("tags", Array [])]) true) =
  Object [("limits", Object []); ("name", Str "red"); ("tags", Array [])].
Proof. by vm_compute. Qed.

(** * What a form makes of its fields: the completeness of a JSON body, values that are read back as
    they were shown, and the projections of a submitted form. *)

#[local] Arguments String.append !_ _ /.

Section props.
Context `{JsonText, !JsonPretty, UnicodeCase, FloatText}.

(** * Required keys *)

Lemma meets_find schema name obj :
  (fix find (l : list (string * value)) : bool :=
     match l with
     | [] => false
     | (k, child) :: r =>
         if String.eqb name k then negb (is_null child) && match property_schema schema name with Some s => json_meets_schema_required child s | None => true end
         else find r
     end) obj =
  match obj_get name obj with
  | Some child => negb (is_null child) && match property_schema schema name with Some s => json_meets_schema_required child s | None => true end
  | None => false
  end.
Proof. induction obj as [|[k child] obj IH]; [done|]. simpl. destruct (String.eqb name k); [done|]. exact IH. Qed.

Lemma missing_find schema name path obj :
  (fix find (l : list (string * value)) : list string :=
     match l with
     | [] => [push_path_key path name]
     | (k, child) :: r =>
         if String.eqb name k then
           if is_null child then [push_path_key path name]
           else match property_schema schema name with Some s => collect_missing_required child s (push_path_key path name) | None => [] end
         else find r
     end) obj =
  match obj_get name obj with
  | Some child =>
      if is_null child then [push_path_key path name]
      else match property_schema schema name with Some s => collect_missing_required child s (push_path_key path name) | None => [] end
  | None => [push_path_key path name]
  end.
Proof. induction obj as [|[k child] obj IH]; [done|]. simpl. destruct (String.eqb name k); [done|]. exact IH. Qed.

Lemma concat_nil_iff {A B} (f : A -> list B) (p : A -> bool) l : (forall x, x ∈ l -> f x = [] <-> p x = true) -> concat (map f l) = [] <-> forallb p l = true.
Proof.
  induction l as [|x l IH]; intros Hf; [done|]. simpl. rewrite app_nil, andb_true_iff, (Hf x) by (by left). rewrite IH; [done|]. intros y Hy. apply Hf. by right.
Qed.

Lemma missing_meets v : forall schema path, collect_missing_required v schema path = [] <-> json_meets_schema_required v schema = true.
Proof.
  induction v as [| | | |l IH|l IH] using value_ind'; intros schema path; simpl; try done.
  - destruct (get_key "items" schema) as [item|]; [|done]. generalize 0%nat. induction IH as [|x l Hx Hl IHl]; intros i; [done|]. simpl.
    rewrite app_nil, andb_true_iff, Hx. by rewrite (IHl (S i)).
  - destruct (required_names schema) as [names|]; [|done]. apply concat_nil_iff. intros name _. rewrite meets_find, missing_find.
    destruct (obj_get name l) as [child|] eqn:E; [|done]. destruct (is_null child); simpl; [done|].
    destruct (property_schema schema name) as [s|]; [|done]. rewrite Forall_forall in IH. exact (IH _ (obj_get_entry _ _ _ E) s _).
Qed.

(** * Text that is read back *)

Lemma parse_show_i64 z : in_i64 z -> parse_i64 (show_int z) = Some z.
Proof.
  unfold in_i64. intros Hz. destruct z as [|p|p].
  - done.
  - rewrite <- (parse_show_int (2 ^ 63 - 1) (Z.pos p)) by lia. rewrite pretty_pos. destruct (pretty_N_go_head (N.pos p) EmptyString) as (c & r & E & Hc); [done|]. rewrite E. unfold parse_i64.
    destruct (Ascii.eqb_spec c "-") as [->|]; [|done]. exfalso. assert (Hd : contains_char (fun c => Ascii.eqb c "-") (show_int (Z.pos p)) = false).
    { apply show_int_avoids; [lia|]. intros d [n Hd]. destruct (Ascii.eqb_spec d "-") as [->|]; [done|done]. }
    rewrite pretty_pos, E in Hd. done.
  - change (show_int (Z.neg p)) with (String "-" (show_int (Z.pos p))). pose proof (parse_show_int (2 ^ 63) (Z.pos p) ltac:(lia)) as Hp.
    rewrite pretty_pos in *. destruct (pretty_N_go_head (N.pos p) EmptyString) as (c & r & E & Hc); [done|]. rewrite E in *. unfold parse_i64. simpl Ascii.eqb. cbv iota.
    rewrite Hc, Hp. done.
Qed.

(** The values that the row of a field shows and reads back: what the type of its schema says. *)
Definition reads_back (schema v : value) : Prop :=
  v = Null \/
  match schema_to_field_type schema with
  | TEnum _ => exists s, v = Str s /\ default "string" (schema_type schema) = "string"
  | TBool => exists b, v = Bool b
  | TJsonBody => (schema_type schema = Some "array" \/ schema_type schema = Some "object") /\ canonical v /\ fits max_nesting v = true
  | _ =>
      (exists s, v = Str s /\ default "string" (schema_type schema) = "string") \/
      (exists z, v = int z /\ in_i64 z /\ schema_type schema = Some "integer") \/
      (exists r, v = Number (NFloat r) /\ schema_type schema = Some "number" /\ float_parse (number_text (NFloat r)) = Some (Some r))
  end.

Lemma parse_pretty v : canonical v -> fits max_nesting v = true -> parse_value (to_string_pretty v) = Some v.
Proof. intros Hc Hf. unfold parse_value, to_string_pretty, parse_json. rewrite as_bytes_of_bytes, from_slice_pretty by done. simpl. by rewrite normalize_canonical. Qed.

Definition row_json (schema : value) (fv : FieldValue) : option value := (fun raw => coerce_to_schema raw schema) <$> field_value_string fv.

Lemma text_row schema s : default "string" (schema_type schema) = "string" -> row_json schema (FScalar s) = (if is_empty s then None else Some (Str s)) /\ row_json schema (FEnum (Some s)) = Some (Str s).
Proof. intros Hs. unfold row_json, coerce_to_schema. rewrite Hs. simpl. by destruct (is_empty s). Qed.

(** An untouched row says nothing, or its own value. *)
Lemma review_row_reads_back f : reads_back (f_schema f) (f_value f) -> field_json (review_field f) = None \/ field_json (review_field f) = Some (f_value f).
Proof.
  intros Hr. unfold field_json. change (field_value (review_field f)) with (review_value (schema_to_field_type (f_schema f)) (f_value f)).
  change (schema (review_field f)) with (f_schema f). fold (row_json (f_schema f) (review_value (schema_to_field_type (f_schema f)) (f_value f))).
  set (s := f_schema f) in *. set (v := f_value f) in *. clearbody s v. destruct Hr as [->|Hr]; [by left|].
  assert (Hscalar : schema_to_field_type s = TScalar -> (exists t, v = Str t /\ default "string" (schema_type s) = "string") \/
      (exists z, v = int z /\ in_i64 z /\ schema_type s = Some "integer") \/
      (exists r, v = Number (NFloat r) /\ schema_type s = Some "number" /\ float_parse (number_text (NFloat r)) = Some (Some r)) ->
    row_json s (review_value TScalar v) = None \/ row_json s (review_value TScalar v) = Some v).
  { intros _ [(t & -> & Ht)|[(z & -> & Hz & Ht)|(r & -> & Ht & Hf)]].
    - destruct (text_row s t Ht) as [Hx _]. simpl. rewrite Hx. destruct (is_empty t); auto.
    - right. unfold row_json, int, review_value, display_value, field_value_string, number_text.
      assert (Hne : is_empty (show_int z) = false) by (pose proof (parse_show_i64 z Hz) as Hp; by destruct (show_int z)).
      rewrite Hne. simpl. unfold coerce_to_schema. rewrite Ht. simpl. by rewrite parse_show_i64.
    - unfold row_json, review_value, display_value, field_value_string. destruct (is_empty (number_text (NFloat r))); [by left|right].
      cbn [fmap option_fmap option_map]. unfold coerce_to_schema. rewrite Ht. cbn [default from_option id]. change (String.eqb "number" "string") with false.
      change (String.eqb "number" "integer") with false. change (String.eqb "number" "number") with true. cbv iota. by rewrite Hf. }
  destruct (schema_to_field_type s) as [|variants| | | | |] eqn:Et; try (by apply Hscalar).
  - destruct Hr as (t & -> & Ht). right. by destruct (text_row s t Ht) as [_ Hx].
  - destruct Hr as (b & ->). right. assert (Hb : schema_type s = Some "boolean").
    { unfold schema_to_field_type in Et. destruct (enum_variants s); [done|]. destruct (_ || _ || _); [done|].
      destruct (schema_type s) as [ty|]; simpl in Et; [|done]. destruct (String.eqb ty "boolean") eqn:Eb; [apply String.eqb_eq in Eb; by subst|done]. }
    unfold row_json, coerce_to_schema. rewrite Hb. destruct b; simpl; by rewrite to_lowercase_ascii by done.
  - destruct Hr as (Ht & Hc & Hf). unfold row_json. assert (Hv : review_value TJsonBody v = FEmpty \/ review_value TJsonBody v = FJsonBody (to_string_pretty v)) by (destruct v; auto).
    destruct Hv as [->| ->]; [by left|]. simpl. destruct (is_empty (to_string_pretty v)); simpl; [by left|right].
    unfold coerce_to_schema. destruct Ht as [Ht|Ht]; rewrite Ht; simpl; by rewrite parse_pretty.
  - unfold schema_to_field_type in Et. by repeat case_match.
  - unfold schema_to_field_type in Et. by repeat case_match.
  - unfold schema_to_field_type in Et. by repeat case_match.
Qed.

(** * Projections *)

Lemma project_slot_other id fs : forall acc, (forall f, f ∈ fs -> key f <> KeySlot id) -> slot_values (foldl project_field acc fs) !! id = slot_values acc !! id.
Proof.
  induction fs as [|f fs IH]; intros acc Hk; [done|]. simpl. rewrite IH by (intros g Hg; apply Hk; by right). unfold project_field.
  destruct (field_json f) as [v|]; [|done]. destruct (key f) as [i|n|i] eqn:Ek; try done. simpl. apply lookup_insert_ne. intros ->. by apply (Hk f); [left|].
Qed.

Lemma project_slot fs f id : NoDup (map key fs) -> f ∈ fs -> key f = KeySlot id -> slot_values (project_gathered fs) !! id = field_json f.
Proof.
  intros Hn Hf Hk. unfold project_gathered. assert (Hg : forall acc, slot_values acc !! id = None -> slot_values (foldl project_field acc fs) !! id = field_json f); [|by apply Hg].
  induction fs as [|g fs IH]; intros acc Ha; [by apply elem_of_nil in Hf|]. simpl in Hn. inversion Hn as [|x y Hx Hy]; subst. simpl. apply elem_of_cons in Hf as [->|Hf].
  - rewrite project_slot_other.
    + unfold project_field. destruct (field_json g) as [v|] eqn:Ev; [|done]. rewrite Hk. simpl. by rewrite lookup_insert_eq.
    + intros h Hh Hkh. apply Hx. rewrite Hk, <- Hkh. apply list_elem_of_fmap. by exists h.
  - apply IH; [done|done|]. unfold project_field. destruct (field_json g) as [v|]; [|done]. destruct (key g) as [i|n|i] eqn:Ek; try done. simpl.
    rewrite lookup_insert_ne; [done|]. intros ->. apply Hx. rewrite <- Hk. apply list_elem_of_fmap. by exists f.
Qed.

Lemma filled_json f : is_field_filled f = true -> is_Some (field_json f).
Proof.
  unfold is_field_filled, field_json. intros Hf. apply andb_prop in Hf as [Hf _]. destruct (field_value f) as [s|[s|]|[b|]|s|]; simpl in *; try done; by destruct (is_empty s).
Qed.

(** ** Edits *)

Lemma insert_edit_elem i w id v l : (id, v) ∈ insert_edit i w l -> (id, v) = (i, w) \/ (id, v) ∈ l.
Proof.
  induction l as [|[j u] l IH]; simpl; [intros Hx%list_elem_of_singleton; by left|]. destruct (Nat.eqb i j); [intros [->|Hx]%elem_of_cons; [by left|right; by right]|].
  destruct (Nat.ltb i j); [intros [->|Hx]%elem_of_cons; [by left|by right]|]. intros [->|Hx]%elem_of_cons; [right; by left|]. destruct (IH Hx) as [->|Hy]; [by left|right; by right].
Qed.

Lemma insert_edit_here i w l : (i, w) ∈ insert_edit i w l.
Proof.
  induction l as [|[j u] l IH]; simpl; [by left|]. destruct (Nat.eqb i j); [by left|]. destruct (Nat.ltb i j); [by left|by right].
Qed.

Lemma insert_edit_keeps i w id v l : id <> i -> (id, v) ∈ l -> (id, v) ∈ insert_edit i w l.
Proof.
  intros Hne. induction l as [|[j u] l IH]; simpl; [by intros ?%elem_of_nil|]. destruct (Nat.eqb_spec i j) as [->|Hij].
  - intros [[= -> ->]|Hx]%elem_of_cons; [done|by right].
  - destruct (Nat.ltb i j); [intros Hx; by right|]. intros [->|Hx]%elem_of_cons; [by left|right; by apply IH].
Qed.

Lemma edits_sound fs plan id v : (id, v) ∈ project_step_edits fs plan -> exists f, f ∈ fs /\ field_edit plan f = Some (id, v).
Proof.
  unfold project_step_edits. assert (Hg : forall acc, (id, v) ∈ foldl (fun l f => match field_edit plan f with Some (id, v) => insert_edit id v l | None => l end) acc fs ->
    (id, v) ∈ acc \/ exists f, f ∈ fs /\ field_edit plan f = Some (id, v)).
  { induction fs as [|f fs IH]; intros acc Hx; [by left|]. simpl in Hx. apply IH in Hx as [Hx|(g & Hg & Hx)]; [|right; exists g; split; [by right|done]].
    destruct (field_edit plan f) as [[i w]|] eqn:Ef; [|by left]. apply insert_edit_elem in Hx as [[= -> ->]|Hx]; [right; exists f; split; [by left|done]|by left]. }
  intros Hx. by destruct (Hg [] Hx) as [?%elem_of_nil|?].
Qed.

Lemma field_edit_key plan f id v : field_edit plan f = Some (id, v) -> key f = KeyReview id.
Proof.
  unfold field_edit. destruct (read_only f); [done|]. destruct (key f) as [i|n|i]; try done. destruct (plan_by_id plan i); [|done]. simpl.
  destruct (field_json f); [|done]. simpl. destruct (bool_decide _); [done|]. by intros [= -> ->].
Qed.

Lemma edits_complete fs plan f id v : NoDup (map key fs) -> f ∈ fs -> field_edit plan f = Some (id, v) -> (id, v) ∈ project_step_edits fs plan.
Proof.
  unfold project_step_edits. set (step := fun l f => match field_edit plan f with Some (id, v) => insert_edit id v l | None => l end).
  intros Hn Hf He. pose proof (field_edit_key _ _ _ _ He) as Hk.
  assert (Hkeep : forall gs acc, (forall g, g ∈ gs -> key g <> KeyReview id) -> (id, v) ∈ acc -> (id, v) ∈ foldl step acc gs).
  { induction gs as [|g gs IH]; intros acc Hg Ha; [done|]. simpl. apply IH; [intros h Hh; apply Hg; by right|]. unfold step. destruct (field_edit plan g) as [[i w]|] eqn:Eg; [|done].
    apply insert_edit_keeps; [|done]. intros ->. apply (Hg g); [by left|]. by apply field_edit_key in Eg. }
  assert (Hg : forall acc, (id, v) ∈ foldl step acc fs); [|apply Hg].
  induction fs as [|g fs IH]; intros acc; [by apply elem_of_nil in Hf|]. simpl in Hn. inversion Hn as [|x y Hx Hy]; subst. simpl. apply elem_of_cons in Hf as [->|Hf]; [|by apply IH].
  apply Hkeep.
  - intros h Hh Hkh. apply Hx. rewrite Hk, <- Hkh. apply list_elem_of_fmap. by exists h.
  - unfold step at 1. rewrite He. apply insert_edit_here.
Qed.

Lemma plan_by_id_some plan p : NoDup (map f_id (plan_fields plan)) -> p ∈ plan_fields plan -> plan_by_id plan (f_id p) = Some p.
Proof.
  unfold plan_by_id. intros Hn Hp. enough (Hl : List.filter (fun f => Nat.eqb (f_id f) (f_id p)) (plan_fields plan) = [p]) by (by rewrite Hl).
  induction (plan_fields plan) as [|q l IH]; [by apply elem_of_nil in Hp|]. simpl in Hn. inversion Hn as [|x y Hx Hy]; subst. simpl. apply elem_of_cons in Hp as [->|Hp].
  - rewrite Nat.eqb_refl. f_equal. clear -Hx. induction l as [|r l IH]; [done|]. simpl in *. rewrite not_elem_of_cons in Hx. destruct Hx as [Hx1 Hx2].
    rewrite (proj2 (Nat.eqb_neq _ _)) by done. by apply IH.
  - rewrite (proj2 (Nat.eqb_neq _ _)); [by apply IH|]. intros E. apply Hx. rewrite E. apply list_elem_of_fmap. by exists p.
Qed.

Lemma plan_by_id_elem plan id p : plan_by_id plan id = Some p -> p ∈ plan_fields plan /\ f_id p = id.
Proof.
  unfold plan_by_id. intros Hl%last_Some. destruct Hl as (l & Hl). assert (Hp : In p (List.filter (fun f => Nat.eqb (f_id f) id) (plan_fields plan))) by (rewrite Hl; apply in_or_app; right; by left).
  apply filter_In in Hp as [Hp Hi]. apply list_elem_of_In in Hp. by apply Nat.eqb_eq in Hi.
Qed.

Lemma step_plan_elem plan x : x ∈ step_plan_fields plan <-> exists p, p ∈ plan_fields plan /\ shown_in_review p = true /\ x = review_field p.
Proof.
  unfold step_plan_fields. rewrite sort_by_perm, list_elem_of_fmap. split.
  - intros (p & -> & Hp%list_elem_of_In). apply filter_In in Hp as [Hp Hs]. exists p. split; [by apply list_elem_of_In|done].
  - intros (p & Hp & Hs & ->). exists p. split; [done|]. apply list_elem_of_In, filter_In. split; [by apply list_elem_of_In|done].
Qed.

Lemma step_plan_keys plan : NoDup (map f_id (plan_fields plan)) -> NoDup (map key (step_plan_fields plan)).
Proof.
  intros Hn. unfold step_plan_fields. rewrite sort_by_perm, map_map. unfold review_field. simpl. rewrite <- (map_map f_id KeyReview). apply NoDup_fmap_2.
  - by intros i j [= ->].
  - induction (plan_fields plan) as [|p l IH]; [constructor|]. simpl in *. inversion Hn as [|x y Hx Hy]; subst. destruct (shown_in_review p); simpl; [|by apply IH]. constructor; [|by apply IH].
    intros (q & Hq & Hin%list_elem_of_In)%list_elem_of_fmap. apply filter_In in Hin as [Hin _]. apply Hx. rewrite Hq. apply list_elem_of_fmap. exists q. split; [done|]. by apply list_elem_of_In.
Qed.

(** A review that is not touched edits nothing, when its values are read back as they are shown. *)
Lemma untouched_review plan : NoDup (map f_id (plan_fields plan)) ->
  (forall p, p ∈ plan_fields plan -> shown_in_review p = true -> review_read_only p = false -> reads_back (f_schema p) (f_value p)) ->
  project_step_edits (step_plan_fields plan) plan = [].
Proof.
  intros Hn Hr. destruct (project_step_edits (step_plan_fields plan) plan) as [|[id v] l] eqn:E; [done|]. exfalso.
  assert (Hin : (id, v) ∈ project_step_edits (step_plan_fields plan) plan) by (rewrite E; by left). apply edits_sound in Hin as (x & Hx & He).
  apply step_plan_elem in Hx as (p & Hp & Hs & ->). unfold field_edit in He. change (read_only (review_field p)) with (review_read_only p) in He.
  destruct (review_read_only p) eqn:Ero; [done|]. change (key (review_field p)) with (KeyReview (f_id p)) in He. cbv iota in He. rewrite plan_by_id_some in He by done.
  cbn [mbind option_bind] in He. destruct (review_row_reads_back p (Hr p Hp Hs Ero)) as [Hj|Hj]; rewrite Hj in He; [done|]. cbn [mbind option_bind] in He.
  by rewrite bool_decide_true in He.
Qed.

(** An untouched integer is read from the text it is shown as: a float in a field of type
    [number]; in one of type [integer] itself, or, when it is too large for [i64], the text. *)
Definition read_as_number (raw : string) : value :=
  match float_parse raw with Some (Some r) => Number (NFloat r) | Some None => Null | None => Str raw end.

Lemma show_int_not_empty z : is_empty (show_int z) = false.
Proof.
  destruct z as [|q|q]; [done| |done]. rewrite pretty_pos. by destruct (pretty_N_go_head (N.pos q) EmptyString) as (c & r & -> & _).
Qed.

Lemma integer_row_json f z ty : f_schema f = AutoDerive.typed ty -> ty = "number" \/ ty = "integer" -> f_value f = int z ->
  field_json (review_field f) = Some (coerce_to_schema (show_int z) (AutoDerive.typed ty)).
Proof.
  intros Hs Ht Hz. unfold field_json, review_field. cbn [field_value schema]. rewrite Hs, Hz.
  unfold review_value, display_value, int, number_text. pose proof (show_int_not_empty z) as He. destruct Ht as [-> | ->]; simpl; by rewrite He.
Qed.

Lemma integer_beyond (z : Z) : (2 ^ 63 <= z)%Z -> coerce_to_schema (show_int z) (AutoDerive.typed "integer") = Str (show_int z).
Proof.
  intros Hz. unfold coerce_to_schema, parse_i64. simpl. pose proof (parse_show_beyond (2 ^ 63 - 1)%Z z ltac:(lia)) as Hp.
  destruct z as [|q|q]; [lia| |lia]. rewrite pretty_pos in *. destruct (pretty_N_go_head (N.pos q) EmptyString) as (c & r & E & Hc); [done|]. rewrite E in *.
  destruct (Ascii.eqb_spec c "-") as [->|]; [|by rewrite Hp]. exfalso.
  assert (Hd : contains_char (fun c => Ascii.eqb c "-") (show_int (Z.pos q)) = false).
  { apply show_int_avoids; [lia|]. intros d [n Hd]. by destruct (Ascii.eqb_spec d "-") as [->|]. }
  by rewrite pretty_pos, E in Hd.
Qed.

Lemma untouched_edit plan p v : NoDup (map f_id (plan_fields plan)) -> p ∈ plan_fields plan -> shown_in_review p = true -> review_read_only p = false ->
  field_json (review_field p) = Some v -> v <> f_value p -> (f_id p, v) ∈ project_step_edits (step_plan_fields plan) plan.
Proof.
  intros Hn Hin Hs Hro Ej Hv. apply (edits_complete _ plan (review_field p)); [by apply step_plan_keys|by apply step_plan_elem; exists p|].
  unfold field_edit. change (read_only (review_field p)) with (review_read_only p). rewrite Hro. change (key (review_field p)) with (KeyReview (f_id p)). cbv iota.
  rewrite plan_by_id_some by done. cbn [mbind option_bind]. rewrite Ej. cbn [mbind option_bind]. by rewrite bool_decide_false.
Qed.

End props.
