(* ===== verification/FormRunner.v ===== *)
(** The loops that drive a form, its JSON editor and its picker, and the confirmation card
    ([terminal/form_runner.rs], [terminal/dynamic_enums.rs], [inline/phases/confirm_card.rs],
    [inline/interaction.rs]).

    A loop waits for one key at a time, so each is a state and a step on a key. A failed draw or
    read ends any of them with its error; the steps are those of the keys that arrive. *)

From stdpp Require Import base gmap strings list.
From Stdlib Require Import ZArith Lia Ascii.
From S2P Require Import Prelude Text Kebab Json Catalogue Sanitise Results Workflow Shape Options ReviewPlan Executor Bindings CliErrors Widgets RawEditor Fields Forms JsonTree.

#[local] Arguments String.append !_ _ /.
#[local] Open Scope nat_scope.

Section runner.
Context `{JsonText, !JsonPretty, UnicodeCase, FloatText}.
Variable json_error : string -> string.

(** * Pickers of dynamic choices *)

Definition input_field (f : Form) (name : string) : option FormField :=
  List.find (fun x => match key x with KeyInput n => String.eqb n name | _ => false end) (fields f).

Definition compute_dep_key (f : Form) (deps : list string) : gmap string value :=
  foldl (fun m dep =>
    match input_field f dep with
    | Some x => match field_value_string (field_value x) with Some raw => <[dep := coerce_to_schema raw (schema x)]> m | None => m end
    | None => m
    end) ∅ deps.

Definition deps_satisfied (f : Form) (deps : list string) : bool :=
  forallb (fun dep => match input_field f dep with Some x => is_field_filled x | None => false end) deps.

Definition store_resolved (dep_key : gmap string value) (r : ResolvedOptions) (x : FormField) : FormField :=
  match dynamic x with
  | Some d => with_dynamic (Some (mk_dynamic (dyn_source d) (deps d) (optional_deps d) (Some (mk_resolved_choices dep_key (choices r) (truncated r))))) x
  | None => x
  end.

Inductive PickerAction : Type := PickerOpen (choices : list OptionChoice) (truncated : bool) | PickerBlocked.

Definition picker_action (x : FormField) : PickerAction :=
  match d ← dynamic x; dyn_resolved d with Some r => PickerOpen (res_choices r) (res_truncated r) | None => PickerBlocked end.

Definition apply_picker_result (i : nat) (chosen : option string) (f : Form) : Form :=
  match chosen with Some v => update_field i (with_value (FEnum (Some v)) SourceUserInput) f | None => f end.

(** What the fetch of the choices gives: the runtime's answer, its end without one, or a key that
    gives it up. *)
Inductive FetchOutcome : Type :=
| FetchResolved (r : ResolvedOptions)
| FetchFailed (message : string)
| FetchLost
| FetchAborted.

(** The choices are there, or the form goes on without them. *)
Definition resolve_choices (fetch : option FetchOutcome) (i : nat) (d : DynamicEnumState) (f : Form) : Form * bool :=
  let dep_key := compute_dep_key f (deps d ++ optional_deps d) in
  let cached := match dyn_resolved d with Some r => bool_decide (Fields.dep_key r = dep_key) | None => false end in
  if cached then (f, true)
  else if negb (deps_satisfied f (optional_deps d)) then (update_field i (store_resolved dep_key (mk_resolved [] false)) f, true)
  else
    match fetch with
    | None => (f, false)
    | Some (FetchResolved r) => (update_field i (store_resolved dep_key r) f, true)
    | Some (FetchFailed message) => (set_note (Some ("Couldn't load choices: " +:+ message +:+ "; type a value manually")) f, false)
    | Some FetchLost => (set_note (Some "Options fetch ended unexpectedly") f, false)
    | Some FetchAborted => (f, false)
    end.

(** The form with the picker of row [i] open over it, when it opens ([drive_enum_picker] up to its list). *)
Definition open_picker (fetch : option FetchOutcome) (i : nat) (f : Form) : Form * option PickerList :=
  match x ← fields f !! i; dynamic x with
  | None => (f, None)
  | Some d =>
      if negb (deps_satisfied f (deps d)) then
        let missing := default (default EmptyString (head (deps d))) (List.find (fun dep => negb (deps_satisfied f [dep])) (deps d)) in
        (set_note (Some ("Fill `" +:+ to_kebab_case missing +:+ "` first to load choices")) f, None)
      else
        let '(f, go_on) := resolve_choices fetch i d f in
        if negb go_on then (f, None)
        else
          match fields f !! i with
          | None => (f, None)
          | Some x =>
              match picker_action x with
              | PickerOpen choices _ => (f, Some (new_picker choices (match field_value x with FEnum (Some s) => Some s | _ => None end)))
              | PickerBlocked => (f, None)
              end
          end
  end.

(** * The form *)

Inductive DriverState : Type :=
| AtForm (f : Form)
| AtJson (f : Form) (i : nat) (ed : JsonEditor)
| AtPicker (f : Form) (i : nat) (p : PickerList).

Definition driver_form (st : DriverState) : Form := match st with AtForm f | AtJson f _ _ | AtPicker f _ _ => f end.

(** Still running, or done with the submitted form, or with nothing. *)
Inductive Driven : Type := Running (st : DriverState) | Finished (f : option Form).

(** The editor of row [i], on its current value. *)
Definition open_json (i : nat) (f : Form) : Driven :=
  match fields f !! i with
  | Some x =>
      let current := match field_value x with FJsonBody s => if is_empty s then Null else default Null (parse_value s) | _ => Null end in
      Running (AtJson f i (open_editor (schema x) current (label x) (required x)))
  | None => Running (AtForm f)
  end.

Definition set_body (i : nat) (v : value) (f : Form) : Form :=
  update_field i (fun x => with_value (FJsonBody (to_string_pretty v)) (source x) x) f.

(** One key of [drive_inline_form]; [fetch] is the answer of the fetch the key may start. *)
Definition driver_step (fetch : option FetchOutcome) (st : DriverState) (k : KeyEvent) : Driven :=
  match st with
  | AtForm f =>
      if is_ctrl_c k then Finished None
      else
        match on_key k f with
        | (f, PhaseContinue) => Running (AtForm f)
        | (_, PhaseCancelled) => Finished None
        | (f, PhaseDone (Submitted _)) => Finished (Some f)
        | (f, PhaseDone (OpenJsonEditor i)) => open_json i f
        | (f, PhaseDone (OpenEnumPicker i)) =>
            match open_picker fetch i f with (f, Some p) => Running (AtPicker f i p) | (f, None) => Running (AtForm f) end
        | (f, PhaseDone (OpenFilePicker _)) => Running (AtForm f)
        end
  | AtJson f i ed =>
      match fields f !! i with
      | None => Running (AtForm f)
      | Some x =>
          if is_ctrl_c k then Running (AtForm f)
          else
            match apply_json_editor_key json_error (schema x) (label x) (required x) ed k with
            | (ed, JsonContinue) => Running (AtJson f i ed)
            | (_, JsonSave v) => Running (AtForm (set_body i v f))
            | (_, JsonCancel) => Running (AtForm f)
            end
      end
  | AtPicker f i p =>
      match picker_key p k with
      | (p, PickerContinue) => Running (AtPicker f i p)
      | (_, PickerCancel) => Running (AtForm f)
      | (_, PickerChosen v) => Running (AtForm (apply_picker_result i v f))
      end
  end.

Inductive drives : DriverState -> Driven -> Prop :=
| drives_now st : drives st (Running st)
| drives_step st st' fetch k d : drives st (Running st') -> driver_step fetch st' k = d -> drives st d.

(** The driver over the keys of a list, each with the answer of the fetch it may start. *)
Definition drive_keys (d : Driven) (ks : list (KeyEvent * option FetchOutcome)) : Driven :=
  fold_left (fun d k => match d with Running st => driver_step k.2 st k.1 | _ => d end) ks d.

(** * The confirmation card *)

Inductive ConfirmAction : Type := ActConfirm | ActBack | ActCancel | ActSkip | ActRetry.

#[global] Instance confirm_action_eq_dec : EqDecision ConfirmAction.
Proof. solve_decision. Defined.

Record ConfirmCardPhase : Type := mk_card_phase { card_title : string; summary : list (string * string); actions : list ConfirmAction; card_focus : nat }.

Definition new_card (title : string) (summary : list (string * string)) : ConfirmCardPhase := mk_card_phase title summary [ActConfirm; ActBack; ActCancel] 0.
Definition with_actions (a : list ConfirmAction) (c : ConfirmCardPhase) : ConfirmCardPhase := mk_card_phase (card_title c) (summary c) a (card_focus c).

Definition offers (a : ConfirmAction) (c : ConfirmCardPhase) : bool := bool_decide (a ∈ actions c).

Definition is_primary (a : ConfirmAction) : bool := match a with ActConfirm | ActSkip | ActRetry => true | _ => false end.
Definition primary_actions (c : ConfirmCardPhase) : list ConfirmAction := List.filter is_primary (actions c).

Definition move_card (n : nat) (c : ConfirmCardPhase) : ConfirmCardPhase := mk_card_phase (card_title c) (summary c) (actions c) n.

Definition card_key (k : KeyEvent) (c : ConfirmCardPhase) : ConfirmCardPhase * PhaseStep ConfirmAction :=
  match code k with
  | KLeft => (move_card (pred (card_focus c)) c, PhaseContinue)
  | KRight => (move_card (Nat.min (S (card_focus c)) (pred (length (primary_actions c)))) c, PhaseContinue)
  | KEnter => (c, PhaseDone (default ActConfirm (primary_actions c !! card_focus c)))
  | KEsc => (c, PhaseCancelled)
  | KChar x =>
      if String.eqb x "b" && offers ActBack c then (c, PhaseDone ActBack)
      else if String.eqb x "s" && offers ActSkip c then (c, PhaseDone ActSkip)
      else (c, PhaseContinue)
  | _ => (c, PhaseContinue)
  end.

Inductive ConfirmOutcome : Type := Confirmed | BackToEdit | ConfirmCancelled | ConfirmSkipped.

(** One key of [drive_confirm]. *)
Definition confirm_step (c : ConfirmCardPhase) (k : KeyEvent) : ConfirmCardPhase * option ConfirmOutcome :=
  if is_ctrl_c k then (c, Some ConfirmCancelled)
  else
    match card_key k c with
    | (c, PhaseContinue) => (c, None)
    | (c, PhaseCancelled) | (c, PhaseDone ActCancel) => (c, Some ConfirmCancelled)
    | (c, PhaseDone (ActConfirm | ActRetry)) => (c, Some Confirmed)
    | (c, PhaseDone ActBack) => (c, Some BackToEdit)
    | (c, PhaseDone ActSkip) => (c, Some ConfirmSkipped)
    end.

(** The failure gate of a step: retry, skip when the step may be skipped, or give up. *)
Definition failure_card (title : string) (allow_skip : bool) : ConfirmCardPhase :=
  with_actions (if allow_skip then [ActRetry; ActSkip; ActCancel] else [ActRetry; ActCancel]) (new_card title []).

Definition failure_action (o : ConfirmOutcome) : StepFailureAction :=
  match o with Confirmed => ActionRetry | ConfirmSkipped => ActionSkip | ConfirmCancelled | BackToEdit => ActionCancel end.

(** ** Summaries *)

Definition gather_json_value_to_display (v : value) : string := match v with Str s => strip_terminal_control_sequences s | _ => json_to_string v end.

Definition gather_summary (needed : list WorkflowInputNeeded) (supplied : list SuppliedInputView) (r : GatherResult) : list (string * string) :=
  map (fun s => (sup_label s, gather_json_value_to_display (default (sup_value s) (input_overrides r !! sup_label s)))) supplied ++
  omap (fun n => (fun v => (need_label n, gather_json_value_to_display v)) <$> slot_values r !! need_id n) needed.

Definition build_gather_confirm_card (needed : list WorkflowInputNeeded) (supplied : list SuppliedInputView) (r : GatherResult) : ConfirmCardPhase :=
  new_card "Review request" (gather_summary needed supplied r).

(** * Gathering *)

Definition gather_cancelled_error : CliError := CliUsage "Input gathering cancelled" None.

(** A gather: its form, or the card that reviews what was submitted. *)
Inductive GatherState : Type := GatherForm (d : DriverState) | GatherCard (r : GatherResult) (c : ConfirmCardPhase).

Inductive Gathered : Type := Gathering (st : GatherState) | GatherDone (r : result GatherResult CliError).

Section gather.
(** The card of a result, and the form that goes on from it. *)
Variable card_of : GatherResult -> ConfirmCardPhase.
Variable form_again : GatherResult -> Form.

Definition gather_step (fetch : option FetchOutcome) (st : GatherState) (k : KeyEvent) : Gathered :=
  match st with
  | GatherForm d =>
      match driver_step fetch d k with
      | Running d => Gathering (GatherForm d)
      | Finished None => GatherDone (Err gather_cancelled_error)
      | Finished (Some f) => let r := gathered f in Gathering (GatherCard r (card_of r))
      end
  | GatherCard r c =>
      match confirm_step c k with
      | (c, None) => Gathering (GatherCard r c)
      | (_, Some Confirmed) => GatherDone (Ok r)
      | (_, Some BackToEdit) => Gathering (GatherForm (AtForm (form_again r)))
      | (_, Some (ConfirmCancelled | ConfirmSkipped)) => GatherDone (Err gather_cancelled_error)
      end
  end.

Inductive gathers : GatherState -> Gathered -> Prop :=
| gathers_now st : gathers st (Gathering st)
| gathers_step st st' fetch k d : gathers st (Gathering st') -> gather_step fetch st' k = d -> gathers st d.

Definition gather_keys (d : Gathered) (ks : list KeyEvent) : Gathered :=
  fold_left (fun d k => match d with Gathering st => gather_step None st k | _ => d end) ks d.

End gather.

(** [run_gather]: the form of what is needed and supplied. *)
Definition gather_form (fs : list FormField) : Form := with_submit_focusable true (new_form fs).

Definition run_gather_start (needed : list WorkflowInputNeeded) (supplied : list SuppliedInputView) : GatherState :=
  GatherForm (AtForm (gather_form (sort_gather_fields_by_location needed supplied (build_form_fields needed supplied)))).

Definition run_gather_again (needed : list WorkflowInputNeeded) (supplied : list SuppliedInputView) (r : GatherResult) : Form :=
  gather_form (sort_gather_fields_by_location needed supplied (reseed_fields needed supplied r)).

Definition run_gather (needed : list WorkflowInputNeeded) (supplied : list SuppliedInputView) : Gathered -> Prop :=
  gathers (build_gather_confirm_card needed supplied) (run_gather_again needed supplied) (run_gather_start needed supplied).

(** [run_full_surface_gather]: every input of a single command. *)
Definition full_surface_form (fs : list FormField) : Form := normalize_focus_to_visible (with_optional true false (gather_form fs)).

Definition full_surface_again (original : list FormField) (r : GatherResult) : Form := full_surface_form (map (reseed_field (mk_gather ∅ (input_overrides r))) original).

(** The rank of an input in the form. *)
Definition input_rank (fs : list FormField) (name : string) : option nat :=
  last (omap (fun ix => match key ix.2 with KeyInput n => if String.eqb n name then Some ix.1 else None | _ => None end) (enumerate fs)).

Definition rank_le (a b : option nat) : bool := match a, b with _, None => true | None, Some _ => false | Some i, Some j => Nat.leb i j end.

Definition full_summary_le (a b : option nat * (string * string)) : bool :=
  if bool_decide (a.1 = b.1) then match String.compare a.2.1 b.2.1 with Gt => false | _ => true end else rank_le a.1 b.1.

Definition build_full_surface_confirm_card (fs : list FormField) (r : GatherResult) : ConfirmCardPhase :=
  new_card "Review request"
    (map snd (sort_by full_summary_le
      (map (fun kv => (input_rank fs kv.1, (to_kebab_case kv.1, gather_json_value_to_display kv.2))) (map_to_list (input_overrides r))))).

Definition run_full_surface_gather (fs : list FormField) : Gathered -> Prop :=
  gathers (build_full_surface_confirm_card fs) (full_surface_again fs) (GatherForm (AtForm (full_surface_form fs))).

(** * The run's inputs *)

Definition inputs_form (specs : list WorkflowInputSpec) (current : gmap string value) (file_pickers : bool) : Form :=
  focus_first_editable (with_run_mode true 0 (gather_form (build_inputs_form specs current true file_pickers))).

(** What [collect_inputs_form] makes of the form it drove. *)
Definition collected (f : option Form) : option CollectOutcome := (fun f => mk_collect (project_inputs (fields f)) (selected_run_mode f)) <$> f.

(** * Reviewing a step *)

Definition step_review_form (plan : StepFieldPlan) : Form := focus_submit_if_available (with_submit_focusable true (new_form (step_plan_fields plan))).

Definition reviewed (plan : StepFieldPlan) (f : option Form) : StepReviewOutcome :=
  match f with Some f => ReviewProceed (project_step_edits (fields f) plan) | None => ReviewCancel end.

Definition optional_review_form (plan : StepFieldPlan) : Form :=
  focus_submit_if_available (with_confirm_skip true 0 (with_submit_focusable true (new_form (step_plan_fields plan)))).

(** [s] skips, but not while a row is edited. *)
Definition is_optional_skip_key (k : KeyEvent) (is_editing : bool) : bool := char_key "s" k && negb is_editing.

Definition confirm_skip_outcome (f : Form) (plan : StepFieldPlan) : StepReviewOutcome :=
  match selected_confirm_skip f with ChooseSkip => ReviewSkip | ChooseConfirm => ReviewProceed (project_step_edits (fields f) plan) end.

Inductive Reviewing : Type := Reviewing_on (st : DriverState) | Review_done (o : StepReviewOutcome).

(** One key of [drive_inline_review_optional_inner]; a review form has no pickers. *)
Definition review_optional_step (plan : StepFieldPlan) (st : DriverState) (k : KeyEvent) : Reviewing :=
  match st with
  | AtForm f =>
      if is_ctrl_c k then Review_done ReviewCancel
      else if is_optional_skip_key k (bool_decide (is_Some (editing f))) then Review_done ReviewSkip
      else
        match on_key k f with
        | (f, PhaseDone (Submitted _)) => Review_done (confirm_skip_outcome f plan)
        | (f, PhaseDone (OpenEnumPicker _)) => Reviewing_on (AtForm f)
        | _ =>
            match driver_step None st k with
            | Running st => Reviewing_on st
            | Finished _ => Review_done ReviewCancel
            end
        end
  | _ => match driver_step None st k with Running st => Reviewing_on st | Finished _ => Review_done ReviewCancel end
  end.

Inductive reviews (plan : StepFieldPlan) : DriverState -> Reviewing -> Prop :=
| reviews_now st : reviews plan st (Reviewing_on st)
| reviews_step st st' k r : reviews plan st (Reviewing_on st') -> review_optional_step plan st' k = r -> reviews plan st r.

End runner.
