(* ===== verification/FormRunnerProps.v ===== *)
(** What comes out of the form loops: complete submissions of the rows that were built, reviewed
    before they are sent, and edits only of what may be edited. *)

From stdpp Require Import base gmap strings list.
From Stdlib Require Import ZArith Lia Ascii.
From S2P Require Import Prelude Text Kebab Json Catalogue Sanitise Results Workflow Shape Options ReviewPlan Executor Bindings CliErrors Widgets RawEditor Fields JsonTreeProps Forms JsonTree FormRunner.

#[local] Arguments String.append !_ _ /.
#[local] Open Scope nat_scope.

Section props.
Context `{JsonText, !JsonPretty, UnicodeCase, FloatText}.

(** * Keys that leave the form *)

(** The form is submitted complete, or by its Skip button. *)
Definition submittable (f : Form) : Prop := all_required_filled f = true \/ confirm_skip_buttons f = true /\ selected_confirm_skip f = ChooseSkip.

Definition leaves (f f' : Form) (r : PhaseResult) : Prop :=
  f' = f /\
  match r with
  | Submitted g => g = gathered f /\ submittable f
  | OpenJsonEditor i => editing f = None /\ exists x, fields f !! i = Some x /\ read_only x = false /\ field_type x = TJsonBody
  | OpenEnumPicker i => editing f = None /\ exists x, fields f !! i = Some x /\ field_type x = TDynamicEnum
  | OpenFilePicker _ => True
  end.

Lemma press_submit_leaves f f' r : press_submit f = (f', PhaseDone r) -> leaves f f' r.
Proof.
  unfold press_submit. destruct (confirm_skip_buttons f && _) eqn:E; [|destruct (all_required_filled f) eqn:Ea].
  - intros [= <- <-]. split; [done|]. split; [done|]. right. apply andb_prop in E as [Ec Es]. split; [done|]. by destruct (selected_confirm_skip f).
  - intros [= <- <-]. split; [done|]. split; [done|]. by left.
  - destruct (first_unfilled_required f); [|done]. by destruct (fields f !! n).
Qed.

Lemma activate_leaves f f' x r : editing f = None -> focused f = Some x -> activate x f = (f', PhaseDone r) -> leaves f f' r.
Proof.
  intros He Hx. unfold activate. destruct (read_only x) eqn:Er; [done|]. destruct (field_type x) eqn:Et; try done.
  - destruct (all_required_filled f && negb (submit_focusable f)) eqn:Ea; [|done]. intros [= <- <-]. apply andb_prop in Ea as [Ea _]. split; [done|]. split; [done|]. by left.
  - intros [= <- <-]. split; [done|]. split; [done|]. by exists x.
  - intros [= <- <-]. split; [done|]. split; [done|]. by exists x.
  - intros [= <- <-]. by split.
Qed.

Lemma on_key_leaves k f f' r : on_key k f = (f', PhaseDone r) -> leaves f f' r.
Proof.
  unfold on_key. assert (Hrest : match code k with
    | KTab | KDown => (focus_next f, PhaseContinue) | KBackTab | KUp => (focus_prev f, PhaseContinue)
    | KLeft => (press_side false f, PhaseContinue) | KRight => (press_side true f, PhaseContinue) | KEnter => press_enter f
    | KEsc => match editing f with Some _ => (cancel_edit f, PhaseContinue) | None => (f, PhaseCancelled) end
    | KChar c => press_char c k f | KBackspace => (edit_buffer pop_char f, PhaseContinue) | _ => (f, PhaseContinue) end = (f', PhaseDone r) -> leaves f f' r).
  { destruct (code k); try done.
    - unfold press_enter. destruct (editing f) eqn:Ee; [done|]. destruct (is_submit_focused f); [apply press_submit_leaves|].
      destruct (focused f) as [x|] eqn:Ex; [by apply activate_leaves|done].
    - by destruct (editing f).
    - unfold press_char. destruct (_ && only_control k).
      { destruct (all_required_filled f) eqn:Ea; [|done]. intros [= <- <-]. split; [done|]. split; [done|]. by left. }
      destruct (String.eqb c "o" && _ && _ && _); [done|]. destruct (String.eqb c " " && _) eqn:Es; [|by destruct (negb (mod_control k))].
      assert (Ee : editing f = None) by (destruct (editing f); [by rewrite andb_false_r in Es|done]).
      unfold press_space. destruct (focused f) as [x|] eqn:Ex; [|done]. destruct (field_type x) eqn:Et; try done; intros [= <- <-]; (split; [done|]); [|done].
      split; [done|]. by exists x. }
  destruct (editing f) as [[[s|d] i]|]; [exact Hrest| |exact Hrest]. by destruct (apply_date_key d k) as [d' []].
Qed.

(** * The driver *)

Variable json_error : string -> string.

(** Rows with a picker may be edited. *)
Definition pickers_editable (f : Form) : Prop := forall x, x ∈ fields f -> is_Some (dynamic x) -> read_only x = false.

Definition driver_ok (f0 : Form) (st : DriverState) : Prop :=
  form_ok f0 (driver_form st) /\
  match st with
  | AtForm _ => True
  | AtJson f i ed => editing f = None /\ editor_ok ed /\ exists x, fields f !! i = Some x /\ read_only x = false /\ field_type x = TJsonBody
  | AtPicker f i _ => editing f = None /\ exists x, fields f !! i = Some x /\ read_only x = false /\ field_type x = TDynamicEnum
  end.

Lemma kept_picker f0 f i x : pickers_editable f0 -> form_ok f0 f -> fields f !! i = Some x -> is_Some (dynamic x) -> read_only x = false.
Proof.
  intros Hp Hf Hx Hd. destruct (Forall2_lookup_r _ _ _ _ _ (fo_rows _ _ Hf) Hx) as (x0 & Hx0 & []). rewrite rk_read_only. apply Hp; [by apply list_elem_of_lookup_2 in Hx0|]. by apply rk_dynamic.
Qed.

Lemma store_resolved_row m r x0 x : row_kept x0 x -> row_kept x0 (store_resolved m r x).
Proof. intros Hx. unfold store_resolved. destruct (dynamic x) as [d|] eqn:Ed; [|done].
  assert (Hd : is_Some (dynamic x0)) by (apply (rk_dynamic _ _ Hx); by exists d). destruct Hx. by constructor.
Qed.

Lemma resolve_ok f0 f fetch i d : form_ok f0 f -> editing f = None ->
  form_ok f0 (resolve_choices fetch i d f).1 /\ editing (resolve_choices fetch i d f).1 = None /\
  forall x, fields f !! i = Some x -> exists y, fields (resolve_choices fetch i d f).1 !! i = Some y /\ field_type y = field_type x /\ read_only y = read_only x.
Proof.
  intros Hf He. unfold resolve_choices. assert (Hup : forall m r, let f' := update_field i (store_resolved m r) f in
    form_ok f0 f' /\ editing f' = None /\ forall x, fields f !! i = Some x -> exists y, fields f' !! i = Some y /\ field_type y = field_type x /\ read_only y = read_only x).
  { intros m r f'. split; [apply update_ok; [done|done|]; intros; by apply store_resolved_row|]. split; [done|]. intros x Hx.
    exists (store_resolved m r x). unfold f', update_field. simpl. rewrite list_lookup_alter_eq, Hx. split; [done|]. unfold store_resolved. by destruct (dynamic x). }
  assert (Hsame : form_ok f0 f /\ editing f = None /\ forall x, fields f !! i = Some x -> exists y, fields f !! i = Some y /\ field_type y = field_type x /\ read_only y = read_only x).
  { split; [done|]. split; [done|]. intros x Hx. by exists x. }
  destruct (match dyn_resolved d with Some r => _ | None => _ end); [done|]. destruct (negb _); [apply Hup|]. destruct Hsame as (Hs1 & Hs2 & Hs3). destruct fetch as [[r|msg| |]|]; [apply Hup|..];
    (split; [first [done|by apply set_note_ok]|by split]).
Qed.

Lemma open_picker_ok f0 f fetch i x : form_ok f0 f -> pickers_editable f0 -> editing f = None -> fields f !! i = Some x -> field_type x = TDynamicEnum ->
  match open_picker fetch i f with (f', Some p) => driver_ok f0 (AtPicker f' i p) | (f', None) => form_ok f0 f' end.
Proof.
  intros Hf Hp He Hx Ht. unfold open_picker. rewrite Hx. cbn [mbind option_bind]. destruct (dynamic x) as [d|] eqn:Ed; [|done].
  destruct (negb _); [by apply set_note_ok|]. destruct (resolve_ok f0 f fetch i d Hf He) as (Hf' & He' & Hy). destruct (resolve_choices fetch i d f) as [f' go_on]. simpl in *.
  destruct (negb go_on); [done|]. destruct (Hy x Hx) as (y & Hyi & Hty & Hry). rewrite Hyi. destruct (picker_action y); [|done].
  split; [done|]. split; [done|]. exists y. split; [done|]. split; [|congruence]. rewrite Hry. exact (kept_picker f0 f i x Hp Hf Hx (ex_intro _ d Ed)).
Qed.

Lemma driver_step_ok f0 fetch st k : pickers_editable f0 -> driver_ok f0 st ->
  match driver_step json_error fetch st k with
  | Running st' => driver_ok f0 st'
  | Finished (Some f) => form_ok f0 f /\ submittable f
  | Finished None => True
  end.
Proof.
  intros Hp [Hf Hst]. unfold driver_step. destruct st as [f|f i ed|f i p]; simpl in Hf.
  - destruct (is_ctrl_c k); [done|]. pose proof (on_key_ok f0 f k Hf) as Hk. destruct (on_key k f) as [f' [|r|]] eqn:Ek; simpl in Hk; [by split| |done].
    destruct (on_key_leaves _ _ _ _ Ek) as [-> Hr]. destruct r as [g|i|i|i].
    + by destruct Hr.
    + destruct Hr as (He & x & Hx & Hro & Ht). unfold open_json. rewrite Hx. split; [done|]. split; [done|]. split; [|by exists x].
      split; [apply flatten_elem; exact I|done].
    + destruct Hr as (He & x & Hx & Ht). pose proof (open_picker_ok f0 f fetch i x Hf Hp He Hx Ht) as Ho. destruct (open_picker fetch i f) as [f' [p|]]; [done|by split].
    + by split.
  - destruct Hst as (He & Hed & x & Hx & Hro & Ht). rewrite Hx. destruct (is_ctrl_c k); [by split|].
    pose proof (editor_key_ok json_error (schema x) (label x) (required x) ed k Hed) as Hed'. destruct (apply_json_editor_key _ _ _ _ _ _) as [ed' [|v|]]; simpl in Hed'.
    + split; [done|]. split; [done|]. split; [done|]. by exists x.
    + split; [|done]. simpl. apply update_ok; [done|done|]. intros x0 y Hy Hk. rewrite Hx in Hy. injection Hy as <-. destruct Hk. constructor; simpl; try done.
      right. rewrite <- rk_read_only, <- rk_type, Ht. done.
    + by split.
  - destruct Hst as (He & x & Hx & Hro & Ht). destruct (picker_key p k) as [p' [| |v]]; [split; [done|]; split; [done|]; by exists x|by split|].
    split; [|done]. unfold apply_picker_result. destruct v as [v|]; [|done]. simpl. apply update_ok; [done|done|]. intros x0 y Hy Hk. rewrite Hx in Hy. injection Hy as <-.
    apply row_entered; [done|done|]. by rewrite Ht.
Qed.

Lemma drives_ok f0 st d : pickers_editable f0 -> driver_ok f0 st -> drives json_error st d ->
  match d with Running st' => driver_ok f0 st' | Finished (Some f) => form_ok f0 f /\ submittable f | Finished None => True end.
Proof. intros Hp Hst. induction 1 as [st|st st' fetch k d Hd IH <-]; [done|]. apply driver_step_ok; [done|]. by apply IH. Qed.

(** ** Forms as they are built *)

Lemma start_ok f : focus_ok f -> editing f = None -> form_ok f f.
Proof. intros Hf He. constructor; try done. unfold editing_ok. by rewrite He. Qed.

(** [C33] A form that is submitted is complete and is the form that was built: whatever keys are pressed in its
    rows, its JSON editors and its pickers, and whatever the fetches answer, each row keeps
    its label, type, requirement, key and schema, a read-only row keeps its value, another row
    holds its first value or one of its type, and the form is submitted only with every
    required row filled, or by the Skip button of an optional step. *)
Theorem form_submits_complete f0 f : focus_ok f0 -> editing f0 = None -> pickers_editable f0 -> drives json_error (AtForm f0) (Finished (Some f)) ->
  rows_kept (fields f0) (fields f) /\ submittable f.
Proof.
  intros Hf He Hp Hd. pose proof (start_ok f0 Hf He) as Hs. destruct (drives_ok f0 (AtForm f0) _ Hp (conj Hs I) Hd) as [Hk Hsub]. split; [apply Hk|done].
Qed.

(** * Gathering *)

Definition slots_complete (needed : list WorkflowInputNeeded) (r : GatherResult) : Prop :=
  forall n, n ∈ needed -> need_required n = true -> is_Some (slot_values r !! need_id n).

(** The rows ask for what [needed] does. *)
Definition asks (needed : list WorkflowInputNeeded) (fs : list FormField) : Prop :=
  NoDup (map key fs) /\ forall n, n ∈ needed -> need_required n = true -> exists x, x ∈ fs /\ key x = KeySlot (need_id n) /\ required x = true.

Lemma reseed_shape r x : key (reseed_field r x) = key x /\ required (reseed_field r x) = required x.
Proof. unfold reseed_field. destruct (key x) eqn:Ek; [by destruct (slot_values r !! id)|by destruct (input_overrides r !! name)|done]. Qed.

Lemma asks_built needed supplied g : NoDup (map need_id needed) -> NoDup (map sup_label supplied) -> (forall x, key (g x) = key x /\ required (g x) = required x) ->
  asks needed (sort_gather_fields_by_location needed supplied (map g (build_form_fields needed supplied))).
Proof.
  intros Hn Hs Hg. unfold sort_gather_fields_by_location, sort_form_fields_by_location. split.
  - rewrite sort_by_perm, map_map. rewrite (map_ext _ key) by (intros; apply Hg). unfold build_form_fields. rewrite map_app, !map_map. simpl.
    rewrite <- (map_map need_id KeySlot), <- (map_map sup_label KeyInput). apply NoDup_app. split; [apply NoDup_fmap_2; [by intros ?? [= ->]|done]|].
    split; [|apply NoDup_fmap_2; [by intros ?? [= ->]|done]]. intros k (i & -> & _)%list_elem_of_fmap (n & Hk & _)%list_elem_of_fmap. done.
  - intros n Hin Hr. exists (g (build_slot_field n)). destruct (Hg (build_slot_field n)) as [Hk Hq]. rewrite sort_by_perm. split; [|by rewrite Hk, Hq].
    apply list_elem_of_fmap. exists (build_slot_field n). split; [done|]. unfold build_form_fields. apply elem_of_app. left. apply list_elem_of_fmap. by exists n.
Qed.

Lemma kept_keys fs0 fs : rows_kept fs0 fs -> map key fs = map key fs0.
Proof. induction 1 as [|x0 x fs0 fs [] Hf IH]; [done|]. simpl. by rewrite IH, rk_key. Qed.

Lemma complete_of_asks needed f0 f : asks needed (fields f0) -> rows_kept (fields f0) (fields f) -> all_required_filled f = true -> slots_complete needed (gathered f).
Proof.
  intros [Hn Ha] Hk Hc n Hin Hr. destruct (Ha n Hin Hr) as (x0 & [i Hi]%list_elem_of_lookup & Hkey & Hreq).
  destruct (Forall2_lookup_l _ _ _ _ _ Hk Hi) as (x & Hx & []). pose proof (list_elem_of_lookup_2 _ _ _ Hx) as Hel.
  unfold gathered. rewrite (project_slot (fields f) x (need_id n)); [|by rewrite (kept_keys _ _ Hk)|done|congruence].
  apply filled_json. unfold all_required_filled in Hc. rewrite forallb_forall in Hc. specialize (Hc x). rewrite rk_required, Hreq in Hc. apply Hc. by apply list_elem_of_In.
Qed.

Lemma gather_form_ok fs : focus_ok (gather_form fs) /\ editing (gather_form fs) = None /\ confirm_skip_buttons (gather_form fs) = false.
Proof. split; [|done]. unfold focus_ok. simpl. destruct fs; [right; by split; [|left]|left; simpl; lia]. Qed.

Section loop.
Variable card_of : GatherResult -> ConfirmCardPhase.
Variable form_again : GatherResult -> Form.
Variable needed : list WorkflowInputNeeded.

(** A form that a gather shows. *)
Definition gather_start (f0 : Form) : Prop :=
  focus_ok f0 /\ editing f0 = None /\ confirm_skip_buttons f0 = false /\ pickers_editable f0 /\ asks needed (fields f0).

Hypothesis again_start : forall r, gather_start (form_again r).

Definition gather_ok (st : GatherState) : Prop :=
  match st with
  | GatherForm d => exists f0, gather_start f0 /\ driver_ok f0 d
  | GatherCard r c => slots_complete needed r /\ card_title c = card_title (card_of r) /\ summary c = summary (card_of r)
  end.

Lemma card_key_shows k c : card_title (card_key k c).1 = card_title c /\ summary (card_key k c).1 = summary c.
Proof. unfold card_key. destruct (code k); try done. by repeat case_match. Qed.

Lemma confirm_step_shows c k : card_title (confirm_step c k).1 = card_title c /\ summary (confirm_step c k).1 = summary c.
Proof.
  unfold confirm_step. destruct (is_ctrl_c k); [done|]. pose proof (card_key_shows k c) as Hc. destruct (card_key k c) as [c' [|a|]]; [done| |done]. by destruct a.
Qed.

Lemma gather_step_ok fetch st k : gather_ok st ->
  match gather_step json_error card_of form_again fetch st k with
  | Gathering st' => gather_ok st'
  | GatherDone (Ok r) => slots_complete needed r
  | GatherDone (Err e) => e = gather_cancelled_error
  end.
Proof.
  destruct st as [d|r c]; simpl.
  - intros (f0 & (Hf & He & Hb & Hp & Ha) & Hd). pose proof (driver_step_ok f0 fetch d k Hp Hd) as Hs. destruct (driver_step json_error fetch d k) as [d'|[f|]]; [|simpl|done].
    + exists f0. by split.
    + destruct Hs as [Hk [Hc|[Hc _]]]; [|by rewrite (fo_skip _ _ Hk), Hb in Hc]. split; [|done]. eapply complete_of_asks; [done|apply Hk|done].
  - intros (Hr & Ht & Hs). pose proof (confirm_step_shows c k) as [Ht' Hs']. destruct (confirm_step c k) as [c' [[]|]]; simpl in *; try done.
    + exists (form_again r). split; [done|]. destruct (again_start r) as (Hf & He & _). split; [|done]. by apply start_ok.
    + split; [done|]. split; congruence.
Qed.

Lemma gathers_ok st d : gather_ok st -> gathers json_error card_of form_again st d ->
  match d with Gathering st' => gather_ok st' | GatherDone (Ok r) => slots_complete needed r | GatherDone (Err e) => e = gather_cancelled_error end.
Proof. intros Hst. induction 1 as [st|st st' fetch k d Hd IH <-]; [done|]. apply gather_step_ok. by apply IH. Qed.

End loop.

(** A result is the one of the card that was confirmed. *)
Lemma gathers_last card_of form_again st r : gathers json_error card_of form_again st (GatherDone (Ok r)) ->
  exists c, gathers json_error card_of form_again st (Gathering (GatherCard r c)).
Proof.
  inversion 1 as [|? st' fetch k ? Hd Hs]; subst. destruct st' as [d|r' c]; simpl in Hs.
  - by destruct (driver_step json_error fetch d k) as [|[|]].
  - exists c. destruct (confirm_step c k) as [c' [[]|]]; try done. by injection Hs as ->.
Qed.

Lemma built_start needed supplied g : NoDup (map need_id needed) -> NoDup (map sup_label supplied) ->
  (forall x, key (g x) = key x /\ required (g x) = required x /\ dynamic (g x) = dynamic x) ->
  gather_start needed (gather_form (sort_gather_fields_by_location needed supplied (map g (build_form_fields needed supplied)))).
Proof.
  intros Hn Hs Hg. destruct (gather_form_ok (sort_gather_fields_by_location needed supplied (map g (build_form_fields needed supplied)))) as (Hf & He & Hb).
  split; [done|]. split; [done|]. split; [done|]. split; [|apply asks_built; [done..|]; intros x; by destruct (Hg x) as (? & ? & _)].
  intros x. cbn [gather_form fields with_submit_focusable new_form]. unfold sort_gather_fields_by_location, sort_form_fields_by_location. rewrite sort_by_perm.
  intros (y & -> & Hy)%list_elem_of_fmap. destruct (Hg y) as (_ & _ & ->). unfold build_form_fields in Hy.
  apply elem_of_app in Hy as [(z & -> & _)%list_elem_of_fmap|(z & -> & _)%list_elem_of_fmap]; simpl; by intros [? ?].
Qed.

(** [C34] A gather asks until its answer is whole, and sends only what was reviewed: whatever keys are pressed,
    it ends either cancelled or with a value for every required slot, and that result is the
    one the confirmation card displayed when it was accepted, over any number of returns to the
    form. *)
Theorem gather_answers needed supplied d : NoDup (map need_id needed) -> NoDup (map sup_label supplied) -> run_gather json_error needed supplied d ->
  match d with
  | GatherDone (Ok r) =>
      slots_complete needed r /\
      exists c, run_gather json_error needed supplied (Gathering (GatherCard r c)) /\ summary c = gather_summary needed supplied r
  | GatherDone (Err e) => e = gather_cancelled_error
  | Gathering _ => True
  end.
Proof.
  intros Hn Hs Hr. unfold run_gather, run_gather_start in Hr.
  assert (Hagain : forall r, gather_start needed (run_gather_again needed supplied r)).
  { intros r. apply (built_start needed supplied (reseed_field r)); [done..|]. intros x. destruct (reseed_shape r x). split; [done|]. split; [done|].
    unfold reseed_field. destruct (key x); [by destruct (slot_values r !! id)|by destruct (input_overrides r !! name)|done]. }
  assert (Hstart : gather_start needed (gather_form (sort_gather_fields_by_location needed supplied (build_form_fields needed supplied)))).
  { pose proof (built_start needed supplied (fun x => x) Hn Hs ltac:(done)) as Hb. by rewrite map_id in Hb. }
  assert (H0' : gather_ok (build_gather_confirm_card needed supplied) needed
    (GatherForm (AtForm (gather_form (sort_gather_fields_by_location needed supplied (build_form_fields needed supplied)))))).
  { eexists. split; [exact Hstart|]. destruct Hstart as (Hf & He & _). split; [|done]. by apply start_ok. }
  pose proof (gathers_ok _ _ _ Hagain _ _ H0' Hr) as Hok. destruct d as [st|[r|e]]; [done| |done]. split; [done|].
  destruct (gathers_last _ _ _ _ Hr) as (c & Hc). exists c. split; [exact Hc|]. by destruct (gathers_ok _ _ _ Hagain _ _ H0' Hc) as (_ & _ & ?).
Qed.

(** * Reviewing *)

Lemma step_form_ok plan b : let f := focus_submit_if_available (with_confirm_skip b 0 (with_submit_focusable true (new_form (step_plan_fields plan)))) in
  focus_ok f /\ editing f = None /\ pickers_editable f /\ confirm_skip_buttons f = b /\ fields f = step_plan_fields plan.
Proof.
  intros f. split; [right; by split; [|left]|]. split; [done|]. split; [|done]. intros x Hx. apply step_plan_elem in Hx as (p & _ & _ & ->). simpl. by intros [? ?].
Qed.

(** Edits are of the rows that may be edited, and change them. *)
Definition edit_allowed (plan : StepFieldPlan) (e : nat * value) : Prop :=
  exists p, p ∈ plan_fields plan /\ f_id p = e.1 /\ shown_in_review p = true /\ review_read_only p = false /\ e.2 <> f_value p.

Lemma edits_allowed plan fs : NoDup (map f_id (plan_fields plan)) -> rows_kept (step_plan_fields plan) fs -> Forall (edit_allowed plan) (project_step_edits fs plan).
Proof.
  intros Hn Hk. apply Forall_forall. intros [id v] (x & [i Hx]%list_elem_of_lookup & He)%edits_sound. destruct (Forall2_lookup_r _ _ _ _ _ Hk Hx) as (x0 & Hx0 & Hr).
  apply list_elem_of_lookup_2, step_plan_elem in Hx0 as (p & Hp & Hs & ->). pose proof (field_edit_key _ _ _ _ He) as Hkey. unfold field_edit in He. rewrite Hkey in He.
  rewrite (rk_key _ _ Hr) in Hkey. injection Hkey as Hid. rewrite (rk_read_only _ _ Hr) in He. change (read_only (review_field p)) with (review_read_only p) in He.
  destruct (review_read_only p) eqn:Ero; [done|]. rewrite <- Hid, plan_by_id_some in He by done. cbn [mbind option_bind] in He. destruct (field_json x) as [w|]; [|done].
  cbn [mbind option_bind] in He. case_bool_decide as Hv; [done|]. injection He as <-. subst id. exists p. by repeat split.
Qed.

(** [C35] A step review sends only changes of what may be edited: when the form is submitted it
    is complete, and each edit is a new value for a field of the plan that is shown and not
    read-only. A review that is not touched edits nothing when each of these values is read back
    from what its row shows: [null]; a string in a field of strings, with or without choices; an
    integer of [i64] in one of integers, and in one of numbers a float that its text gives back;
    a boolean; an array or object without floats that is nested no deeper than texts are read.
    Two kinds of integers are edited without being touched: in a field of type [number] to what
    their text is read as, a float, and in one of type [integer] beyond [i64] to their text. *)
Theorem review_edits plan : NoDup (map f_id (plan_fields plan)) ->
  (forall f, drives json_error (AtForm (step_review_form plan)) (Finished (Some f)) ->
     all_required_filled f = true /\ exists edits, reviewed plan (Some f) = ReviewProceed edits /\ Forall (edit_allowed plan) edits) /\
  ((forall p, p ∈ plan_fields plan -> shown_in_review p = true -> review_read_only p = false -> reads_back (f_schema p) (f_value p)) ->
     project_step_edits (fields (step_review_form plan)) plan = []) /\
  (forall p z, p ∈ plan_fields plan -> shown_in_review p = true -> review_read_only p = false -> f_value p = int z ->
     (f_schema p = AutoDerive.typed "number" -> (f_id p, read_as_number (show_int z)) ∈ project_step_edits (fields (step_review_form plan)) plan) /\
     (f_schema p = AutoDerive.typed "integer" -> (2 ^ 63 <= z)%Z -> (f_id p, Str (show_int z)) ∈ project_step_edits (fields (step_review_form plan)) plan)).
Proof.
  intros Hn. destruct (step_form_ok plan false) as (Hf & He & Hp & Hb & Hfs). split; [|split].
  - intros f Hd. pose proof (start_ok _ Hf He) as Hs. destruct (drives_ok _ (AtForm (step_review_form plan)) _ Hp (conj Hs I) Hd) as [Hk [Hc|[Hc _]]].
    2:{ rewrite (fo_skip _ _ Hk) in Hc. done. }
    split; [done|]. eexists. split; [done|]. apply edits_allowed; [done|]. exact (fo_rows _ _ Hk).
  - intros Hr. by apply untouched_review.
  - intros p z Hin Hs Hro Hz. split.
    + intros Hsch. apply untouched_edit; [done..|rewrite (integer_row_json p z "number"); [done..|by left|done]|].
      rewrite Hz. unfold read_as_number. by destruct (float_parse _) as [[r|]|].
    + intros Hsch Hbig. apply untouched_edit; [done..|rewrite (integer_row_json p z "integer"); [by rewrite integer_beyond|done|by right|done]|by rewrite Hz].
Qed.

(** ** Optional steps *)

Lemma review_step_ok plan f0 st k : pickers_editable f0 -> driver_ok f0 st -> fields f0 = step_plan_fields plan ->
  match review_optional_step json_error plan st k with
  | Reviewing_on st' => driver_ok f0 st'
  | Review_done (ReviewProceed edits) => exists f, rows_kept (step_plan_fields plan) (fields f) /\ all_required_filled f = true /\ edits = project_step_edits (fields f) plan
  | Review_done _ => True
  end.
Proof.
  intros Hp Hst Hfs. unfold review_optional_step. pose proof (driver_step_ok f0 None st k Hp Hst) as Hd.
  assert (Hrest : match (match driver_step json_error None st k with Running st => Reviewing_on st | Finished _ => Review_done ReviewCancel end) with
    | Reviewing_on st' => driver_ok f0 st'
    | Review_done (ReviewProceed edits) => exists f, rows_kept (step_plan_fields plan) (fields f) /\ all_required_filled f = true /\ edits = project_step_edits (fields f) plan
    | Review_done _ => True end) by (by destruct (driver_step json_error None st k)).
  destruct st as [f|f i ed|f i p]; [|exact Hrest|exact Hrest]. destruct (is_ctrl_c k); [done|]. destruct (is_optional_skip_key _ _); [done|].
  destruct Hst as [Hf _]. simpl in Hf. pose proof (on_key_ok f0 f k Hf) as Hk. destruct (on_key k f) as [f' [|r|]] eqn:Ek; [exact Hrest| |exact Hrest]. simpl in Hk.
  destruct (on_key_leaves _ _ _ _ Ek) as [-> Hr]. destruct r as [g|i|i|i]; [|exact Hrest|by split|exact Hrest]. destruct Hr as [_ Hs]. unfold confirm_skip_outcome.
  destruct (selected_confirm_skip f) eqn:Esel; [|done]. exists f. split; [rewrite <- Hfs; apply Hf|]. split; [|done]. by destruct Hs as [|[_ Hs]]; [|congruence].
Qed.

Lemma reviews_ok plan f0 st r : pickers_editable f0 -> driver_ok f0 st -> fields f0 = step_plan_fields plan -> reviews json_error plan st r ->
  match r with
  | Reviewing_on st' => driver_ok f0 st'
  | Review_done (ReviewProceed edits) => exists f, rows_kept (step_plan_fields plan) (fields f) /\ all_required_filled f = true /\ edits = project_step_edits (fields f) plan
  | Review_done _ => True
  end.
Proof. intros Hp Hst Hfs. induction 1 as [st|st st' k r Hd IH <-]; [done|]. apply review_step_ok; [done| |done]. by apply IH. Qed.

(** An optional step runs only on a complete review: its review proceeds only with every required row
    filled, with edits of what may be edited; and outside a row's editor [s] skips the step with
    whatever modifiers, so that Ctrl-S, which submits every other form, skips here. *)
Theorem optional_review plan r : NoDup (map f_id (plan_fields plan)) -> reviews json_error plan (AtForm (optional_review_form plan)) r ->
  (forall edits, r = Review_done (ReviewProceed edits) ->
     Forall (edit_allowed plan) edits /\
     exists f, rows_kept (step_plan_fields plan) (fields f) /\ all_required_filled f = true /\ edits = project_step_edits (fields f) plan) /\
  (forall f, r = Reviewing_on (AtForm f) -> editing f = None -> review_optional_step json_error plan (AtForm f) (ctrl "s") = Review_done ReviewSkip).
Proof.
  intros Hn Hr. destruct (step_form_ok plan true) as (Hf & He & Hp & Hb & Hfs). pose proof (start_ok _ Hf He) as Hs.
  pose proof (reviews_ok plan _ (AtForm (optional_review_form plan)) r Hp (conj Hs I) Hfs Hr) as Hok. split.
  - intros edits ->. destruct Hok as (f & Hk & Hc & ->). split; [by apply edits_allowed|]. by exists f.
  - intros f -> Hed. simpl. by rewrite Hed.
Qed.

End props.

(** * Runs *)

#[local] Instance runner_json : JsonText := bits_json_text.
#[local] Instance runner_pretty : JsonPretty := bits_json_pretty.
#[local] Instance runner_case : UnicodeCase := ascii_case.
#[local] Instance runner_floats : FloatText := {| float_parse := fun s => Some (Some s); float_of_u64 := fun _ => "0"; float_display := fun r => r |}.

Definition no_message : string -> string := fun _ => "expected value".

Lemma drive_keys_drives ks : forall st d, drives no_message st d ->
  drives no_message st (drive_keys no_message d ks).
Proof.
  induction ks as [|[k fetch] ks IH]; intros st d Hd; [done|]. simpl. apply IH. destruct d as [st'|f]; [|done]. by eapply drives_step.
Qed.

Definition name_field : WorkflowInputNeeded := mk_needed 7 "name" None (AutoDerive.typed "string") None true false (ScopeLocal "name") LBody.
Definition mode_input : SuppliedInputView :=
  mk_supplied "mode" (Str "b") (Object [("enum", Array [Str "a"; Str "b"; Str "c"]); ("type", Str "string")]) None FromDefault LQuery.

(** Down to the name, type it, down to the button, submit, confirm. *)
Definition answer_keys : list KeyEvent :=
  [press KDown; press KEnter; typed "h"; typed "i"; press KEnter; press KDown; press KEnter; press KEnter].

Definition sample_gather : Gathered :=
  gather_keys no_message (build_gather_confirm_card [name_field] [mode_input]) (run_gather_again [name_field] [mode_input])
    (Gathering (run_gather_start [name_field] [mode_input])) answer_keys.

Lemma gather_keys_gathers ks card again : forall st d, gathers no_message card again st d -> gathers no_message card again st (gather_keys no_message card again d ks).
Proof. induction ks as [|k ks IH]; intros st d Hd; [done|]. simpl. apply IH. destruct d as [st'|r]; [|done]. by eapply gathers_step. Qed.

Definition sample_result : GatherResult := mk_gather {[7%nat := Str "hi"]} {["mode" := Str "b"]}.

Lemma gather_answers_witness : sample_gather = GatherDone (Ok sample_result) /\ slots_complete [name_field] sample_result.
Proof.
  assert (Hs : sample_gather = GatherDone (Ok sample_result)) by (vm_compute; reflexivity). split; [exact Hs|].
  refine (proj1 (gather_answers no_message [name_field] [mode_input] (GatherDone (Ok sample_result)) _ _ _)).
  - apply NoDup_singleton.
  - apply NoDup_singleton.
  - rewrite <- Hs. apply gather_keys_gathers, gathers_now.
Defined.

Definition sample_form : Form := gather_form (build_form_fields [name_field] [mode_input]).

Definition sample_run : Driven :=
  drive_keys no_message (Running (AtForm sample_form)) (map (fun k => (k, None)) [press KEnter; typed "h"; press KEnter; press KDown; typed " "; ctrl "s"]).

Definition submitted_form : Form := match sample_run with Finished (Some f) => f | _ => sample_form end.

(** The name is typed, the mode moved on from the text it was given with to the first of its choices. *)
Lemma form_submits_complete_witness :
  map field_value (fields submitted_form) = [FScalar "h"; FEnum (Some "a")] /\ rows_kept (fields sample_form) (fields submitted_form) /\ submittable submitted_form.
Proof.
  split; [vm_compute; reflexivity|]. assert (Hs : sample_run = Finished (Some submitted_form)) by (vm_compute; reflexivity).
  apply (form_submits_complete no_message sample_form submitted_form).
  - left. apply Nat.ltb_lt. vm_compute. reflexivity.
  - reflexivity.
  - intros x [->|[->|Hx]%elem_of_cons]%elem_of_cons; [by intros [? ?]..|by apply elem_of_nil in Hx].
  - rewrite <- Hs. apply drive_keys_drives, drives_now.
Defined.

Definition sample_plan : StepFieldPlan :=
  mk_plan 0 "create" None
    [mk_field 0 "namespace" "namespace" None LPath (AutoDerive.typed "string") (Str "game") (SrcWorkflowInput "namespace") true (Some "namespace") false true;
     mk_field 1 "name" "name" None LBody (AutoDerive.typed "string") (Str "red") SrcLiteral true None false true;
     mk_field 2 "size" "size" None LBody (AutoDerive.typed "number") (int 5) SrcLiteral false None false true;
     mk_field 3 "limit" "limit" None LBody (AutoDerive.typed "integer") (int (2 ^ 63)) SrcLiteral false None false true] true.

Lemma sample_plan_ids : NoDup (map f_id (plan_fields sample_plan)).
Proof. by apply (bool_decide_unpack _); vm_compute. Qed.

(** The integers of the third and fourth field are edited without being touched. *)
Lemma review_edits_witness :
  (2, Number (NFloat "5")) ∈ project_step_edits (fields (step_review_form sample_plan)) sample_plan /\
  (3, Str "9223372036854775808") ∈ project_step_edits (fields (step_review_form sample_plan)) sample_plan.
Proof.
  destruct (review_edits no_message sample_plan sample_plan_ids) as (_ & _ & Hn). split.
  - refine (proj1 (Hn (mk_field 2 "size" "size" None LBody (AutoDerive.typed "number") (int 5) SrcLiteral false None false true) 5%Z _ _ _ _) _); try done.
    by right; right; left.
  - refine (proj2 (Hn (mk_field 3 "limit" "limit" None LBody (AutoDerive.typed "integer") (int (2 ^ 63)) SrcLiteral false None false true) (2 ^ 63)%Z _ _ _ _) _ _); try done.
    by right; right; right; left.
Defined.

Definition review_keys (r : Reviewing) (ks : list KeyEvent) : Reviewing :=
  fold_left (fun r k => match r with Reviewing_on st => review_optional_step no_message sample_plan st k | _ => r end) ks r.

Lemma review_keys_reviews ks : forall st r, reviews no_message sample_plan st r -> reviews no_message sample_plan st (review_keys r ks).
Proof. induction ks as [|k ks IH]; intros st r Hr; [done|]. simpl. apply IH. destruct r as [st'|o]; [|done]. by eapply reviews_step. Qed.

Definition confirmed_review : Reviewing := review_keys (Reviewing_on (AtForm (optional_review_form sample_plan))) [press KEnter].

(** The untouched review of the sample. *)
Definition sample_edits : StepFieldEdits := [(2, Number (NFloat "5")); (3, Str "9223372036854775808")].

Lemma optional_review_witness : confirmed_review = Review_done (ReviewProceed sample_edits) /\ Forall (edit_allowed sample_plan) sample_edits.
Proof.
  assert (Hc : confirmed_review = Review_done (ReviewProceed sample_edits)) by (vm_compute; reflexivity). split; [exact Hc|].
  refine (proj1 (proj1 (optional_review no_message sample_plan (Review_done (ReviewProceed sample_edits)) sample_plan_ids _) sample_edits eq_refl)).
  rewrite <- Hc. apply review_keys_reviews, reviews_now.
Defined.

(** ** What a user may not expect *)

(** A submission in the middle of an edit drops what was typed. *)
Example submission_drops_edit :
  option_map (fun f => map field_value (fields f))
    (match drive_keys no_message (Running (AtForm (gather_form [build_supplied_field mode_input]))) [] with Running (AtForm f) =>
       match on_key (ctrl "s") (set_editing (Some (mk_edit_state (EditText "typed") 0)) f) with (f, PhaseDone _) => Some f | _ => None end
     | _ => None end) = Some [FScalar "b"].
Proof. by vm_compute. Qed.

(** A row that is cleared while the optional rows are hidden keeps the focus, hidden. *)
Definition optional_text : WorkflowInputSpec := mk_input "note" None (Some (AutoDerive.typed "string")) false (Some (Str "x")) false None None LQuery.

Definition cleared : Driven :=
  drive_keys no_message (Running (AtForm (full_surface_form (build_full_surface_fields [optional_text] [])))) (map (fun k => (k, None)) [press KEnter; press KBackspace; press KEnter]).

Example cleared_row_keeps_focus :
  match cleared with Running (AtForm f) => (focus f, is_row_visible f (focus f), is_submit_focused f) | _ => (9, true, true) end = (0, false, false).
Proof. by vm_compute. Qed.

(** A cleared field of a review is sent with its old value: it is no edit. *)
Example cleared_field_is_no_edit :
  project_step_edits (fields (update_field 1 (with_value (FScalar EmptyString) SourceUserInput) (step_review_form sample_plan))) sample_plan =
  project_step_edits (fields (step_review_form sample_plan)) sample_plan.
Proof. by vm_compute. Qed.
