(* ===== verification/Builtins.v ===== *)
(** The built-in workflows ([workflows/builtins/]): their definitions, as the source writes
    them, and that they meet every rule of the compiler that does not need the catalogue. *)

From stdpp Require Import base gmap strings list.
From Stdlib Require Import ZArith Lia Ascii.
From S2P Require Import Prelude Text Kebab Json Catalogue Paths Results Workflow AutoDerive Bindings Request Http Compile CompileProps.

#[local] Open Scope string_scope.

Definition LF : string := String (ascii_of_nat 10) EmptyString.

(** * The helpers of the definitions *)

Definition literal (v : value) : BindingSource := BLiteral v false.
Definition workflow_ref (input : string) : BindingSource := BReference (mk_reference (FromWorkflow input) None None).
Definition format_binding (template : string) : BindingSource := BFormat template.
Definition step_ref (step_id output : string) : BindingSource := BReference (mk_reference (FromStep step_id) (Some output) None).
Definition arithmetic (input : string) (op : ArithmeticOp) (operand_input : string) : BindingSource :=
  BReference (mk_reference (FromWorkflow input) None (Some (TArithmetic op (OperandInput operand_input)))).
Definition mirror_of_field (field : string) : BindingSource := BMirror field.

Definition bind (field : string) (source : BindingSource) : StepInputBinding := mk_binding field source false None.
Definition bind_visible (field : string) (source : BindingSource) : StepInputBinding := mk_binding field source true None.
Definition bind_visible_with_description (field : string) (source : BindingSource) (description : string) : StepInputBinding :=
  mk_binding field source true (Some description).

Definition input (name description : string) (required : bool) (def : option value) (schema : value) : WorkflowInputSpec :=
  mk_input name (Some description) (Some schema) required def false None None LBody.
Definition input_with_options (name description : string) (required : bool) (def : option value) (schema : value) (options : OptionsSource)
  : WorkflowInputSpec :=
  mk_input name (Some description) (Some schema) required def false (Some options) None LBody.

(** The user may skip the step. *)
Definition as_optional (s : StepDefinition) : StepDefinition :=
  mk_step_definition (sd_id s) (sd_description s) (sd_kind s) (sd_action s) (sd_operation s) (sd_dependencies s) (sd_confirm s) true
    (sd_continue_on_failure s) (sd_skip_if_exists s) (sd_reviewed s) (sd_inputs s) (sd_outputs s).

(** * competitive-multiplayer *)

Definition local_step (id description action : string) (dependencies : list string) (inputs : list StepInputBinding) (outputs : list StepOutputCapture)
  : StepDefinition :=
  mk_step_definition id (Some description) Local (Some action) None dependencies false false false false None inputs outputs.

Definition match_step (id description service operation : string) (dependencies : list string) (inputs : list StepInputBinding) : StepDefinition :=
  mk_step_definition id (Some description) Api None (Some (mk_op_ref service operation)) dependencies false false false false None inputs [].

Definition with_output (s : StepDefinition) (output : StepOutputCapture) : StepDefinition :=
  mk_step_definition (sd_id s) (sd_description s) (sd_kind s) (sd_action s) (sd_operation s) (sd_dependencies s) (sd_confirm s) (sd_optional s)
    (sd_continue_on_failure s) (sd_skip_if_exists s) (sd_reviewed s) (sd_inputs s) (sd_outputs s ++ [output]).

Definition competitive_multiplayer_briefing : WorkflowBriefing :=
  mk_briefing
  (("This workflow sets up **skill-based matchmaking** using **dedicated servers** hosted by **AccelByte Multiplayer Servers (AMS)**. Skill-based matchmaking pairs players using a **rating stat** (often called **Matchmaking Rating** or **MMR**) so the matchmaker prefers opponents of similar skill instead of pairing players at random. Dedicated servers mean each game session runs on a separate server build managed by AMS rather than being hosted by one of the players."
  +:+ LF +:+ LF +:+
  "Configuring this by hand involves quite a few steps across multiple AccelByte services. This workflow simplifies the process by creating the required resources and connecting them for you."))
  ["**A built dedicated server** ready on disk, with its executable. This workflow archives the build directory and uploads it to AMS as an image itself; you do not need to upload it yourself first.";
   "**A namespace** already created. Everything this workflow creates lives inside that namespace.";
   "**Admin credentials** with permission to create or update resources in `iam`, `matchmaking`, `session` and `ams`. The workflow uses your current `ags` login session."]
  ["**A player-rating stat.** This represents each player's matchmaking skill.";
   "**A matchmaking ruleset.** This uses that stat together with your team and player-count settings.";
   "**A session template.** This defines how match sessions are created.";
   "**A match pool.** This is the queue players join when searching for a match.";
   "**An AMS image.** Your dedicated server build, archived and uploaded to AMS.";
   "**A dedicated server fleet.** This is created from that AMS image in the region you choose.";
   "**The final session-to-fleet wiring.** This makes sure matched players are hosted on that fleet."].

Definition competitive_multiplayer_inputs : list WorkflowInputSpec :=
  [input "namespace" "Your game's AccelByte namespace. This is the same value used by the global --namespace flag." true None (Object [("type", Str
     "string")]);
   input "playersPerTeam"
     "How many players make up one team. Teams are symmetric, so with the default teamCount of 2, setting this to 4 produces 4v4 matches. The matchmaker only starts a match when every team is exactly full."
     false (Some (int 4)) (Object [("minimum", int 1); ("type", Str "integer")]);
   input "teamCount"
     "How many teams compete in each match. Defaults to 2 for the classic X v X format. Increase this value for free-for-all formats. For example, 4 teams of 3 makes a 12-player free-for-all."
     false (Some (int 2)) (Object [("minimum", int 2); ("type", Str "integer")]);
   input "buildPath"
     "Path to the directory holding your built dedicated server. The whole directory is archived and uploaded to AMS as an image, so it should contain everything the server needs to run."
     true None (Object [("type", Str "string")]);
   input "buildExecutable"
     "The server executable to run, as a path relative to the build directory. Must be a 64-bit little-endian ELF binary, or a shell script — in which case set --target-architecture too."
     true None (Object [("type", Str "string")]);
   input "targetArchitecture"
     "Architecture the server was built for. Detected automatically from an ELF binary; required only when the entrypoint is a shell script." false (Some
     (Str EmptyString)) (Object [("enum", Array [Str "linux-x86_64"; Str "linux-arm_64"]); ("type", Str "string")]);
   input_with_options "fleetRegion"
     "The region the AMS fleet will run in. Run `ags ams info list-regions` to see the regions configured for your account." true None (Object [("type",
     Str "string")]) (mk_options (mk_op_ref "ams" "ams/admin/info/v1/list-regions") [("namespace", OFromInput "namespace")] "$.regions" "$" None None None
     None);
   input_with_options "fleetInstanceId"
     "The UUID of an AMS instance type. The instance type determines the per-server VM size. Run `ags ams info list-supported-instances` to see the instance types configured for your account."
     true None (Object [("type", Str "string")]) (mk_options (mk_op_ref "ams" "ams/admin/info/v1/list-supported-instances") [("namespace", OFromInput
     "namespace")] "$.availableInstanceTypes" "$.id" (Some "$.name") None None None);
   input "statCode"
     "The identifier of the skill stat the matchmaker groups players by. AGS matchmaking defaults to using distance-based Matchmaking Rating (MMR)." false
     (Some (Str "mmr")) (Object [("type", Str "string")]);
   input "resourcePrefix"
     "Prefixes the names of every resource this workflow creates (ruleset, session template, match pool, fleet, and claim key). With the default value `ranked`, you get names like `ranked-ruleset`, `ranked-fleet`, and so on."
     false (Some (Str "ranked")) (Object [("type", Str "string")])].

Definition competitive_multiplayer_create_stat : StepDefinition :=
  match_step "create-stat" "Creates the player skill statistic the matchmaker reads when grouping players." "social"
  "social/admin/stat-definitions/v1/create" []
  [bind "namespace" (workflow_ref "namespace");
   bind "statCode" (workflow_ref "statCode");
   bind_visible "name" (literal (Str "MMR"));
   bind_visible "defaultValue" (literal (int 1000));
   bind "setBy" (literal (Str "SERVER"))].

Definition competitive_multiplayer_create_ruleset : StepDefinition :=
  match_step "create-ruleset" "Defines the matchmaking rules: how the stat is compared and the tolerances the matchmaker may relax over time." "match2"
  "matchmaking/admin/rule-sets/v1/create" []
  [bind "namespace" (workflow_ref "namespace");
   bind "name" (format_binding "{resourcePrefix}-ruleset");
   bind "enable_custom_match_function" (literal (Bool false));
   bind "data" (literal (Object [("matching_rule", Array [Object [("criteria", Str "distance")]])]));
   bind_visible_with_description "data.matching_rule[0].reference" (literal (int 200))
     "MMR distance tolerance — how far apart two players' MMR can be and still match";
   bind_visible_with_description "data.auto_backfill" (literal (Bool true)) "Whether the matchmaker should backfill empty slots in an active match";
   bind "data.matching_rule[0].attribute" (workflow_ref "statCode");
   bind "data.alliance.min_number" (workflow_ref "teamCount");
   bind "data.alliance.max_number" (workflow_ref "teamCount");
   bind "data.alliance.player_min_number" (workflow_ref "playersPerTeam");
   bind "data.alliance.player_max_number" (workflow_ref "playersPerTeam")].

Definition competitive_multiplayer_create_session_template : StepDefinition :=
  with_output (with_output (match_step "create-session-template"
  "Creates the session template the matchmaker hands successful matches to. It carries the player slot configuration, joinability, and reconnect policy."
  "session" "session/admin/templates/v1/create" []
  [bind "namespace" (workflow_ref "namespace");
   bind "name" (format_binding "{resourcePrefix}-session");
   bind "type" (literal (Str "DS"));
   bind "dsSource" (literal (Str "AMS"));
   bind_visible "joinability" (literal (Str "OPEN"));
   bind "clientVersion" (literal (Str "1.0.0"));
   bind "deployment" (literal (Str EmptyString));
   bind "minPlayers" (arithmetic "playersPerTeam" Mul "teamCount");
   bind "maxPlayers" (arithmetic "playersPerTeam" Mul "teamCount");
   bind "inviteTimeout" (literal (int 60));
   bind_visible "inactiveTimeout" (literal (int 60));
   bind "persistent" (literal (Bool false));
   bind "textChat" (literal (Bool true));
   bind "requestedRegions[0]" (workflow_ref "fleetRegion")]) (mk_capture "sessionJoinability" "$.joinability" (Some (Str "OPEN")) false)) (mk_capture
     "sessionInactiveTimeout" "$.inactiveTimeout" (Some (int 60)) false).

Definition competitive_multiplayer_create_match_pool : StepDefinition :=
  match_step "create-match-pool"
  "Creates the match pool that ties the ruleset and session template together. Players queue into this pool and the matchmaker forms parties from it."
  "match2" "matchmaking/admin/match-pools/v1/create" ["create-ruleset"; "create-session-template"]
  [bind "namespace" (workflow_ref "namespace");
   bind "name" (format_binding "{resourcePrefix}-pool");
   bind "rule_set" (format_binding "{resourcePrefix}-ruleset");
   bind "session_template" (format_binding "{resourcePrefix}-session");
   bind "match_function" (literal (Str "default"));
   bind "match_function_override" (literal (Object []));
   bind_visible "ticket_expiration_seconds" (literal (int 300));
   bind_visible "backfill_ticket_expiration_seconds" (literal (int 300));
   bind_visible "backfill_proposal_expiration_seconds" (literal (int 60));
   bind_visible "auto_accept_backfill_proposal" (literal (Bool true))].

Definition competitive_multiplayer_upload_image : StepDefinition :=
  local_step "upload-image" "Archives the dedicated-server build and uploads it to AMS as an image, which the fleet below then runs." "ams/upload-image"
  []
  [bind "path" (workflow_ref "buildPath");
   bind "executable" (workflow_ref "buildExecutable");
   bind "imageName" (format_binding "{resourcePrefix}-image");
   bind "targetArchitecture" (workflow_ref "targetArchitecture")] [mk_capture "imageId" "$.image_id" None false].

Definition competitive_multiplayer_create_ams_fleet : StepDefinition :=
  match_step "create-ams-fleet"
  "Spins up the dedicated server fleet that hosts matches, attaching the image and instance type, and registering a claim key for the session template."
  "ams" "ams/admin/fleets/v1/create" ["upload-image"]
  [bind "namespace" (workflow_ref "namespace");
   bind "name" (format_binding "{resourcePrefix}-fleet");
   bind_visible "active" (literal (Bool false));
   bind "onDemand" (literal (Bool false));
   bind "regions" (literal (Array [Object [("bufferSize", int 1); ("dynamicBuffer", Bool true); ("maxServerCount", int 2); ("minServerCount", int 0)]]));
   bind "regions[0].region" (workflow_ref "fleetRegion");
   bind "dsHostConfiguration" (literal (Object [("serversPerVm", int 1)]));
   bind "dsHostConfiguration.instanceId" (workflow_ref "fleetInstanceId");
   bind "imageDeploymentProfile" (literal (Object [("portConfigurations", Array [Object [("name", Str "default"); ("protocol", Str "UDP")]]); ("timeout",
     Object [("creation", int 120); ("drain", int 60); ("session", int 3600); ("unresponsive", int 60)])]));
   bind_visible "imageDeploymentProfile.commandLine" (literal (Str "-dsid=${dsid} -port=${default_port}"));
   bind "imageDeploymentProfile.imageId" (BReference (mk_reference (FromStep "upload-image") (Some "imageId") None));
   bind "claimKeys[0]" (format_binding "{resourcePrefix}-claim-key")].

Definition competitive_multiplayer_update_session_template : StepDefinition :=
  match_step "update-session-template"
  "Wires the session template to the fleet's claim key so successful matches reserve a server from the fleet you just created." "session"
  "session/admin/templates/v1/update" ["create-session-template"; "create-ams-fleet"]
  [bind "namespace" (workflow_ref "namespace");
   bind "name" (format_binding "{resourcePrefix}-session");
   bind "type" (literal (Str "DS"));
   bind "dsSource" (literal (Str "AMS"));
   bind "joinability" (step_ref "create-session-template" "sessionJoinability");
   bind "clientVersion" (literal (Str "1.0.0"));
   bind "deployment" (literal (Str EmptyString));
   bind "minPlayers" (arithmetic "playersPerTeam" Mul "teamCount");
   bind "maxPlayers" (arithmetic "playersPerTeam" Mul "teamCount");
   bind "inviteTimeout" (literal (int 60));
   bind "inactiveTimeout" (step_ref "create-session-template" "sessionInactiveTimeout");
   bind "persistent" (literal (Bool false));
   bind "textChat" (literal (Bool true));
   bind "requestedRegions[0]" (workflow_ref "fleetRegion");
   bind "preferredClaimKeys[0]" (format_binding "{resourcePrefix}-claim-key")].

Definition competitive_multiplayer_steps : list StepDefinition :=
  [competitive_multiplayer_create_stat; competitive_multiplayer_create_ruleset; competitive_multiplayer_create_session_template;
  competitive_multiplayer_create_match_pool; competitive_multiplayer_upload_image; competitive_multiplayer_create_ams_fleet;
  competitive_multiplayer_update_session_template].

Definition competitive_multiplayer_completion : WorkflowCompletion :=
  mk_completion
  [("Skill stat", "{statCode}");
   ("Match ruleset", "{resourcePrefix}-ruleset");
   ("Session template", "{resourcePrefix}-session");
   ("Match pool", "{resourcePrefix}-pool");
   ("AMS fleet", "{resourcePrefix}-fleet")]
  [("Inspect the match pool you'll matchmake against", "ags matchmaking match-pools get --namespace {namespace} --pool {resourcePrefix}-pool");
   ("Check your fleet", "ags ams fleets list --namespace {namespace} --name {resourcePrefix}-fleet");
   ("Review the session template", "ags session templates get --namespace {namespace} --name {resourcePrefix}-session");
   ("List your matchmaking rulesets", "ags matchmaking rule-sets list --namespace {namespace}")].

Definition competitive_multiplayer : WorkflowDefinition :=
  mk_definition "competitive-multiplayer" "Set up competitive multiplayer" None (Some "matchmaking ranked competitive dedicated servers AMS match pool")
  (Some
  "Stand up competitive matchmaking with dedicated servers: a skill stat, a match ruleset, a session template, a match pool, an AMS fleet, and the session template wired to the fleet. Matches start only when teams are exactly full (no under-filled sessions) — appropriate for ranked play.")
  (Some competitive_multiplayer_briefing) competitive_multiplayer_inputs true competitive_multiplayer_steps [] (Some competitive_multiplayer_completion).

(** * player-overview *)

Definition opt_read (id description service operation : string) (inputs : list StepInputBinding) (outputs : list StepOutputCapture) : StepDefinition :=
  mk_step_definition id (Some description) Api None (Some (mk_op_ref service operation)) [] false false true false None inputs outputs.

Definition cap (name path : string) : StepOutputCapture := mk_capture name path (Some Null) false.
Definition cap_arr (name path : string) : StepOutputCapture := mk_capture name path (Some (Array [])) false.

Definition ns_user : list StepInputBinding := [bind "namespace" (workflow_ref "namespace"); bind "userId" (workflow_ref "userId")].

Definition alias (name step output section label : string) : WorkflowOutputAlias :=
  mk_alias name step output false (Some section) (Some label) None.
Definition alias_list (name step output section label : string) (fields : list string) : WorkflowOutputAlias :=
  mk_alias name step output false (Some section) (Some label) (Some fields).

Definition player_overview_briefing : WorkflowBriefing :=
  mk_briefing
  ("This workflow builds a **read-only overview** of a single player. It reads their data across AccelByte services. That covers account and linked platforms, bans and reports, entitlements, wallet and orders, stats and achievements, cloud-save records, and inventory. **Nothing is modified.**"
  +:+ LF +:+ LF +:+
  "You can enter the player's user id directly if you have it. If you do not, search IAM by email or display name and pick them from the matches. The workflow then reads every service for that user. A service that is unavailable or returns no data is shown as such, and the rest of the run carries on.")
  ["**Admin credentials** with read access to the services above (iam, platform, social, achievement, cloudsave, inventory, reporting). The workflow uses your current `ags` login.";
   "**The player's user id, or their email address or display name.** With an id you go straight to the overview. Without one, search by email or display name and pick from the matches."]
     [].

Definition player_overview_inputs : list WorkflowInputSpec :=
  [input "namespace" "Your game's AccelByte namespace" true None (Object [("type", Str "string")]);
   input "searchBy" "Which field to search. Choose email address, display name, or unique display name." false (Some (Str "emailAddress")) (Object
     [("enum", Array [Str "emailAddress"; Str "displayName"; Str "uniqueDisplayName"]); ("type", Str "string")]);
   input "searchQuery"
     "What to search for by email or display name. It doesn't have to be an exact match. Leave it empty if you are entering a user id directly." false None
     (Object [("type", Str "string")]);
   input_with_options "userId"
     "Choose the player to investigate. If you have their user id, open this and type it. Otherwise fill search-query first, then open to search and pick from the matches."
     true None (Object [("type", Str "string")]) (mk_options (mk_op_ref "iam" "iam/admin/users/v3/search") [("by", OFromInputOptional "searchBy");
     ("namespace", OFromInput "namespace"); ("query", OFromInputOptional "searchQuery")] "$.data" "$.userId" (Some "$.userName") (Some (LabelByInput
     "searchBy" [("displayName", "$.displayName"); ("emailAddress", "$.emailAddress"); ("uniqueDisplayName", "$.uniqueDisplayName")])) (Some
     "Enter the player's user id (the search fields are not used here)") None)].

Definition player_overview_account : StepDefinition :=
  opt_read "account" "Account details" "iam" "iam/admin/users/v3/get" [bind "namespace" (workflow_ref "namespace"); bind "userId" (workflow_ref
  "userId")]
  [cap "account_displayName" "$.displayName";
   cap "account_email" "$.emailAddress";
   cap "account_country" "$.country";
   cap "account_enabled" "$.enabled";
   cap "account_created" "$.createdAt"].

Definition player_overview_linked_platforms : StepDefinition :=
  opt_read "linked-platforms" "Linked platform accounts" "iam" "iam/admin/users/v3/list-platform-accounts" ns_user [cap_arr "linked_platforms" "$.data"].

Definition player_overview_bans : StepDefinition :=
  opt_read "bans" "Bans" "iam" "iam/admin/users/v3/list-bans" ns_user [cap_arr "bans" "$.data"].

Definition player_overview_entitlements : StepDefinition :=
  opt_read "entitlements" "Entitlements" "platform" "platform/admin/entitlements/v1/list" ns_user [cap_arr "entitlements" "$.data"].

Definition player_overview_wallet : StepDefinition :=
  opt_read "wallet" "Wallet balances" "platform" "platform/admin/wallets/v1/get-currency-summary" ns_user [cap_arr "wallet" "$"].

Definition player_overview_orders : StepDefinition :=
  opt_read "orders" "Orders" "platform" "platform/admin/orders/v1/list-user" ns_user [cap_arr "orders" "$.data"].

Definition player_overview_stats : StepDefinition :=
  opt_read "stats" "Stat items" "social" "social/admin/user-stat-values/v1/list" ns_user [cap_arr "stats" "$.data"].

Definition player_overview_achievements : StepDefinition :=
  opt_read "achievements" "Achievements" "achievement" "achievement/admin/user-progress/v1/list" ns_user [cap_arr "achievements" "$.data"].

Definition player_overview_cloudsave : StepDefinition :=
  opt_read "cloudsave" "Cloud save record keys" "cloudsave" "cloud-save/admin/user-records/v1/list-by-user-id" ns_user [cap_arr "cloudsave" "$.data"].

Definition player_overview_inventory : StepDefinition :=
  opt_read "inventory" "Inventory" "inventory" "inventory/admin/inventories/v1/list" [bind "namespace" (workflow_ref "namespace"); bind "userId"
  (workflow_ref "userId")] [cap_arr "inventory" "$.data"].

Definition player_overview_reports : StepDefinition :=
  opt_read "reports" "Reports against the player" "reporting" "reporting/admin/reports/v1/list" [bind "namespace" (workflow_ref "namespace"); bind
  "reportedUserId" (workflow_ref "userId")] [cap_arr "reports" "$.data"].

Definition player_overview_steps : list StepDefinition :=
  [player_overview_account; player_overview_linked_platforms; player_overview_bans; player_overview_entitlements; player_overview_wallet;
  player_overview_orders; player_overview_stats; player_overview_achievements; player_overview_cloudsave; player_overview_inventory;
  player_overview_reports].

Definition player_overview_outputs : list WorkflowOutputAlias :=
  [alias "account_displayName" "account" "account_displayName" "Account" "Display name";
   alias "account_email" "account" "account_email" "Account" "Email";
   alias "account_country" "account" "account_country" "Account" "Country";
   alias "account_enabled" "account" "account_enabled" "Account" "Enabled";
   alias "account_created" "account" "account_created" "Account" "Created";
   alias_list "linked_platforms" "linked-platforms" "linked_platforms" "Account" "Linked platforms" ["platformId"; "platformUserId"];
   alias_list "bans" "bans" "bans" "Moderation" "Bans" ["ban"; "reason"; "endDate"];
   alias_list "reports" "reports" "reports" "Moderation" "Reports" ["category"; "reason"; "createdAt"];
   alias_list "entitlements" "entitlements" "entitlements" "Economy" "Entitlements" ["name"; "status"; "useCount"];
   alias_list "wallet" "wallet" "wallet" "Economy" "Wallet" ["currencyCode"; "balance"];
   alias_list "orders" "orders" "orders" "Economy" "Orders" ["orderNo"; "status"];
   alias_list "stats" "stats" "stats" "Progression" "Stat items" ["statCode"; "value"];
   alias_list "achievements" "achievements" "achievements" "Progression" "Achievements" ["name"; "status"];
   alias_list "cloudsave" "cloudsave" "cloudsave" "Data" "Cloud save keys" ["key"];
   alias_list "inventory" "inventory" "inventory" "Data" "Inventory" ["inventoryConfigurationCode"; "usedCountSlots"]].

Definition player_overview : WorkflowDefinition :=
  mk_definition "player-overview" "Investigate a player" None (Some "player investigation moderation overview lookup user") (Some
  "Read-only cross-service overview for one player") (Some player_overview_briefing) player_overview_inputs false player_overview_steps
  player_overview_outputs None.

(** * in-game-store *)

Record StepFlags : Type := mk_flags { flag_confirm : bool; flag_skip_if_exists : bool }.
Definition no_flags : StepFlags := mk_flags false false.

Definition store_step (id description operation : string) (dependencies : list string) (flags : StepFlags) (inputs : list StepInputBinding)
    (outputs : list StepOutputCapture) : StepDefinition :=
  mk_step_definition id (Some description) Api None (Some (mk_op_ref "platform" operation)) dependencies (flag_confirm flags) false false
    (flag_skip_if_exists flags) None inputs outputs.

Definition in_game_store_briefing : WorkflowBriefing :=
  mk_briefing
  (("This workflow creates a **structured in-game store** priced in a **virtual soft currency**, then publishes it so the store goes live. It makes the ordered platform calls and wires the resources together, so you get a working, organised store you can build on."
  +:+ LF +:+ LF +:+
  "It builds a small category tree under `/InGameStore` with a **Durable** and a **Consumable** section, then adds one item of each kind priced in the currency. This is a deliberately small, opinionated starting point. It uses the **English (`en-US`)** locale and the **US** region only. It is priced in a virtual soft currency with no real money or payment setup. To add more items, categories, languages, or regions, use the `ags platform` commands after the run."
  +:+ LF +:+ LF +:+
  "**The final step publishes the store.** It applies the changes in the draft store to the namespace's published store, making the new categories and items live for players."))
  ["**A namespace** already created. Everything this workflow creates lives inside that namespace.";
   "**Admin credentials** with permission to manage the `platform` service (stores, currencies, categories, and items). The workflow uses your current `ags` login session.";
   "**A namespace using the standard `en-US` store locale.** This workflow creates its store in `en-US` to match the published store. A namespace set up with a different default locale would need manual adjustment before publishing succeeds."]
  ["**A draft store.** It holds the categories and items, and stays a draft until the final publish step.";
   "**A virtual soft currency.** Players spend this on items. It defaults to `GOLD` with no decimal places.";
   "**A category tree.** A `/InGameStore` root with a `Durable` and a `Consumable` section.";
   "**A durable item.** A permanent in-game item filed under Durable, priced in the soft currency.";
   "**A consumable item.** A single-use in-game item filed under Consumable, priced in the soft currency.";
   "**The publish.** Makes the store's categories and items live by publishing them to the namespace's published store."].

Definition in_game_store_inputs : list WorkflowInputSpec :=
  [input "namespace" "Your game's AccelByte namespace. This is the same value used by the global --namespace flag." true None (Object [("type", Str
     "string")]);
   input "currencyCode" "The code of the virtual soft currency to create. Uppercase letters, for example `GOLD`. Items are priced in this currency."
     false (Some (Str "GOLD")) (Object [("type", Str "string")])].

Definition in_game_store_create_store : StepDefinition :=
  store_step "create-store" "Creates the draft store that holds the categories and items. The store id is captured and used by the later steps."
  "platform/admin/stores/v1/create" [] no_flags
  [bind "namespace" (workflow_ref "namespace");
   bind "title" (literal (Str "In-Game Store"));
   bind "defaultLanguage" (literal (Str "en-US"));
   bind "supportedLanguages[0]" (literal (Str "en-US"));
   bind "defaultRegion" (literal (Str "US"));
   bind "supportedRegions[0]" (literal (Str "US"))] [mk_capture "storeId" "$.storeId" None false].

Definition in_game_store_create_currency : StepDefinition :=
  store_step "create-currency" "Creates the virtual soft currency that items are priced in." "platform/admin/currencies/v1/create" [] (mk_flags false
  true)
  [bind "namespace" (workflow_ref "namespace");
   bind "currencyCode" (workflow_ref "currencyCode");
   bind "currencyType" (literal (Str "VIRTUAL"));
   bind "currencySymbol" (workflow_ref "currencyCode");
   bind_visible "decimals" (literal (int 0));
   bind "localizationDescriptions" (literal (Object [("en-US", Str "Soft currency")]))] [].

Definition in_game_store_create_category_root : StepDefinition :=
  store_step "create-category-root" "Creates the root store category /InGameStore, which holds the durable and consumable sections."
  "platform/admin/categories/v1/create" ["create-store"] (mk_flags false true)
  [bind "namespace" (workflow_ref "namespace");
   bind "storeId" (step_ref "create-store" "storeId");
   bind "categoryPath" (literal (Str "/InGameStore"));
   bind "localizationDisplayNames" (literal (Object []));
   bind "localizationDisplayNames.en-US" (literal (Str "In-Game Store"))] [].

Definition in_game_store_create_category_durable : StepDefinition :=
  store_step "create-category-durable" "Creates the durable-items category /InGameStore/Durable under the store root."
  "platform/admin/categories/v1/create" ["create-store"; "create-category-root"] (mk_flags false true)
  [bind "namespace" (workflow_ref "namespace");
   bind "storeId" (step_ref "create-store" "storeId");
   bind "categoryPath" (literal (Str "/InGameStore/Durable"));
   bind "localizationDisplayNames" (literal (Object []));
   bind "localizationDisplayNames.en-US" (literal (Str "Durable"))] [].

Definition in_game_store_create_category_consumable : StepDefinition :=
  store_step "create-category-consumable" "Creates the consumable-items category /InGameStore/Consumable under the store root."
  "platform/admin/categories/v1/create" ["create-store"; "create-category-root"] (mk_flags false true)
  [bind "namespace" (workflow_ref "namespace");
   bind "storeId" (step_ref "create-store" "storeId");
   bind "categoryPath" (literal (Str "/InGameStore/Consumable"));
   bind "localizationDisplayNames" (literal (Object []));
   bind "localizationDisplayNames.en-US" (literal (Str "Consumable"))] [].

Definition in_game_store_create_item_durable : StepDefinition :=
  store_step "create-item-durable" "Creates a durable in-game item in the durable category, priced in the virtual currency."
  "platform/admin/items/v1/create" ["create-store"; "create-currency"; "create-category-durable"] (mk_flags false true)
  [bind "namespace" (workflow_ref "namespace");
   bind "storeId" (step_ref "create-store" "storeId");
   bind "name" (mirror_of_field "localizations.en-US.title");
   bind "itemType" (literal (Str "INGAMEITEM"));
   bind_visible "entitlementType" (literal (Str "DURABLE"));
   bind "status" (literal (Str "ACTIVE"));
   bind "categoryPath" (literal (Str "/InGameStore/Durable"));
   bind "localizations" (literal (Object []));
   bind_visible "localizations.en-US.title" (literal (Str "Starter Skin"));
   bind "regionData" (literal (Object [("US", Array [Object [("currencyType", Str "VIRTUAL")]])]));
   bind "regionData.US[0].currencyCode" (workflow_ref "currencyCode");
   bind "regionData.US[0].currencyNamespace" (workflow_ref "namespace");
   bind_visible "regionData.US[0].price" (literal (int 500))] [mk_capture "itemName" "$.name" (Some Null) false].

Definition in_game_store_create_item_consumable : StepDefinition :=
  store_step "create-item-consumable" "Creates a consumable in-game item in the consumable category, priced in the virtual currency."
  "platform/admin/items/v1/create" ["create-store"; "create-currency"; "create-category-consumable"] (mk_flags false true)
  [bind "namespace" (workflow_ref "namespace");
   bind "storeId" (step_ref "create-store" "storeId");
   bind "name" (mirror_of_field "localizations.en-US.title");
   bind "itemType" (literal (Str "INGAMEITEM"));
   bind_visible "entitlementType" (literal (Str "CONSUMABLE"));
   bind "useCount" (literal (int 1));
   bind "status" (literal (Str "ACTIVE"));
   bind "categoryPath" (literal (Str "/InGameStore/Consumable"));
   bind "localizations" (literal (Object []));
   bind_visible "localizations.en-US.title" (literal (Str "Health Boost"));
   bind "regionData" (literal (Object [("US", Array [Object [("currencyType", Str "VIRTUAL")]])]));
   bind "regionData.US[0].currencyCode" (workflow_ref "currencyCode");
   bind "regionData.US[0].currencyNamespace" (workflow_ref "namespace");
   bind_visible "regionData.US[0].price" (literal (int 100))] [mk_capture "itemName" "$.name" (Some Null) false].

Definition in_game_store_publish : StepDefinition :=
  as_optional (store_step "publish" "Publishes the draft store, applying its categories and items to the namespace's published store."
  "platform/admin/catalog-changes/v1/publish-all" ["create-item-durable"; "create-item-consumable"] (mk_flags true false) [bind "namespace"
  (workflow_ref "namespace"); bind "storeId" (step_ref "create-store" "storeId")] []).

Definition in_game_store_steps : list StepDefinition :=
  [in_game_store_create_store; in_game_store_create_currency; in_game_store_create_category_root; in_game_store_create_category_durable;
  in_game_store_create_category_consumable; in_game_store_create_item_durable; in_game_store_create_item_consumable; in_game_store_publish].

Definition in_game_store_outputs : list WorkflowOutputAlias :=
  [mk_alias "storeId" "create-store" "storeId" false (Some "Store") (Some "Store id") None;
   mk_alias "durableItemName" "create-item-durable" "itemName" false (Some "Items") (Some "Durable item") None;
   mk_alias "consumableItemName" "create-item-consumable" "itemName" false (Some "Items") (Some "Consumable item") None].

Definition in_game_store_completion : WorkflowCompletion :=
  mk_completion
  [("Store", "In-Game Store");
   ("Currency", "{currencyCode}");
   ("Category", "/InGameStore");
   ("Durable category", "/InGameStore/Durable");
   ("Consumable category", "/InGameStore/Consumable")]
  [("View the published store", "ags platform stores get-published --namespace {namespace}");
   ("List the currencies", "ags platform currencies list --namespace {namespace}");
   ("List the store's categories", "ags platform categories list --namespace {namespace} --store-id <store-id>");
   ("List the items you created", "ags platform items list --namespace {namespace} --store-id <store-id>");
   ("Add another item to the store", "ags platform items create --namespace {namespace} --store-id <store-id> --json '<item-json>'")].

Definition in_game_store : WorkflowDefinition :=
  mk_definition "in-game-store" "Create an in-game store" None (Some
  "store catalog economy virtual currency soft currency item category durable consumable publish platform in-game") (Some
  "Create a structured in-game store with a durable and a consumable item priced in a virtual soft currency, then publish it.") (Some
  in_game_store_briefing) in_game_store_inputs true in_game_store_steps in_game_store_outputs (Some in_game_store_completion).

(** * season-pass *)

Definition season_step (service id description operation : string) (dependencies : list string) (confirm : bool) (inputs : list StepInputBinding)
    (outputs : list StepOutputCapture) : StepDefinition :=
  mk_step_definition id (Some description) Api None (Some (mk_op_ref service operation)) dependencies confirm false false false None inputs outputs.

Definition capture (name path : string) : StepOutputCapture := mk_capture name path None false.

Definition season_picker (name description : string) (required : bool) (schema : value) (options : OptionsSource) : WorkflowInputSpec :=
  mk_input name (Some description) (Some schema) required None false (Some options) None LBody.

Definition store_options : OptionsSource :=
  mk_options (mk_op_ref "platform" "platform/admin/stores/v1/list") [("namespace", OFromInput "namespace")] "$" "$.storeId" (Some "$.title") None None
    (Some ("$.published", Bool false)).

Definition currency_options : OptionsSource :=
  mk_options (mk_op_ref "platform" "platform/admin/currencies/v1/list")
    [("currencyType", OLiteral (Str "VIRTUAL")); ("namespace", OFromInput "namespace")] "$" "$.currencyCode" (Some "$.currencyCode") None None None.

Definition reward_options : OptionsSource :=
  mk_options (mk_op_ref "platform" "platform/admin/items/v1/list")
    [("itemType", OLiteral (Str "INGAMEITEM")); ("namespace", OFromInput "namespace"); ("storeId", OFromInput "storeId")] "$.data" "$.itemId"
    (Some "$.name") None None None.

Definition season_item_step (id capture_name name title season_type : string) (price : Z) : StepDefinition :=
  season_step "platform" id "Creates a SEASON store item and captures its id for the season pass." "platform/admin/items/v1/create" ["create-category"]
    false
    [bind "namespace" (workflow_ref "namespace"); bind "storeId" (workflow_ref "storeId"); bind "name" (literal (Str name));
     bind "itemType" (literal (Str "SEASON")); bind "seasonType" (literal (Str season_type)); bind "entitlementType" (literal (Str "DURABLE"));
     bind "status" (literal (Str "ACTIVE")); bind "categoryPath" (literal (Str "/Season")); bind "localizations" (literal (Object []));
     bind_visible "localizations.en-US.title" (literal (Str title));
     bind "regionData" (literal (Object [("US", Array [Object [("currencyType", Str "VIRTUAL")]])]));
     bind "regionData.US[0].currencyCode" (workflow_ref "currencyCode"); bind "regionData.US[0].currencyNamespace" (workflow_ref "namespace");
     bind_visible "regionData.US[0].price" (literal (int price))]
    [capture capture_name "$.itemId"].

Definition reward_step (id code item_input : string) (quantity : Z) : StepDefinition :=
  season_step "seasonpass" id "Creates an item reward granted on a pass's tiers." "season-pass/admin/rewards/v1/create" ["create-season"] false
    [bind "namespace" (workflow_ref "namespace"); bind "seasonId" (step_ref "create-season" "seasonId"); bind "type" (literal (Str "ITEM"));
     bind "itemId" (workflow_ref item_input); bind "code" (literal (Str code)); bind_visible "quantity" (literal (int quantity))] [].

Definition tier_step (n required_exp : Z) : StepDefinition :=
  let free_code := "reward-free-" +:+ show_int n in
  let premium_code := "reward-premium-" +:+ show_int n in
  season_step "seasonpass" ("create-tier-" +:+ show_int n)
    "Creates a tier that unlocks at an experience threshold and grants its rewards on the free and premium passes." "season-pass/admin/tiers/v1/create"
    ["create-season"; "create-pass-free"; "create-pass-premium"; "create-reward-free-" +:+ show_int n; "create-reward-premium-" +:+ show_int n] false
    [bind "namespace" (workflow_ref "namespace"); bind "seasonId" (step_ref "create-season" "seasonId"); bind "index" (literal (int (n - 1)));
     bind "quantity" (literal (int 1)); bind "tier" (literal (Object [])); bind_visible "tier.requiredExp" (literal (int required_exp));
     bind "tier.rewards" (literal (Object [("free-pass", Array [Str free_code]); ("premium-pass", Array [Str premium_code])]))] [].

Definition season_pass_briefing : WorkflowBriefing :=
  mk_briefing
  (("This workflow builds a complete **season pass** in your namespace's existing draft store and publishes it so it goes live. It creates the SEASON store items, publishes the store, then creates the season with a **free** and a **premium** pass, **item rewards** on both tracks, and three **tiers**."
  +:+ LF +:+ LF +:+
  "You pick the draft store, the virtual currency the SEASON items are priced in, and the in-game item to grant as the reward. Language is fixed to **English (`en-US`)** and prices are set for the **US region** only. This is a deliberately opinionated starting point. To add more passes, tiers, or rewards, use the `ags season-pass` commands after the run. To price other regions, use `ags platform items update` afterwards."
  +:+ LF +:+ LF +:+ "**The last step publishes the season.** It makes the passes, rewards, and tiers live for players."))
  ["**A draft store** in the namespace, with a virtual currency and at least one in-game item. Run the `in-game-store` workflow first if you have not. You pick these during the run.";
   "**Admin credentials** for the `platform` and `season-pass` services. The workflow uses your current `ags` login session."]
  ["**A `/Season` category** to hold the SEASON items.";
   "**A free and a premium SEASON pass item**, priced in the chosen currency (the free one at 0).";
   "**A SEASON tier item** for progression.";
   "**A season** with a free pass and a premium pass.";
   "**Six item rewards** on the free and premium tracks, in escalating quantity (premium gets more).";
   "**Three tiers**, each unlocking at an escalating experience threshold.";
   "**The publishes.** Makes the store items and then the season live."].

Definition season_pass_inputs : list WorkflowInputSpec :=
  [input "namespace" "Your game's AccelByte namespace. This is the same value used by the global --namespace flag." true None (Object [("type", Str
     "string")]);
   input "seasonName" "The season's name, shown to players. Defaults to Season 1." false (Some (Str "Season 1")) (Object [("type", Str "string")]);
   input "start" "When the season starts, as an ISO 8601 date-time, for example 2026-08-01T00:00:00Z." false (Some (Str "2020-01-01T00:00:00Z")) (Object
     [("format", Str "date-time"); ("type", Str "string")]);
   input "end" "When the season ends, as an ISO 8601 date-time, for example 2026-12-31T23:59:59Z." false (Some (Str "2099-12-31T23:59:59Z")) (Object
     [("format", Str "date-time"); ("type", Str "string")]);
   season_picker "storeId" "Pick the draft store to build the season pass in. This is a picker." true (Object [("type", Str "string")]) store_options;
   season_picker "currencyCode" "Pick the virtual currency to price the SEASON items in. This is a picker." true (Object [("type", Str "string")])
     currency_options;
   season_picker "freeRewardItemId" "Pick the in-game item to grant on the free pass tiers. This is a picker." true (Object [("type", Str "string")])
     reward_options;
   season_picker "premiumRewardItemId" "Pick the in-game item to grant on the premium pass tiers. This is a picker." true (Object [("type", Str
     "string")]) reward_options].

Definition season_pass_create_category : StepDefinition :=
  season_step "platform" "create-category" "Creates the /Season category that holds the SEASON items." "platform/admin/categories/v1/create" [] false
  [bind "namespace" (workflow_ref "namespace");
   bind "storeId" (workflow_ref "storeId");
   bind "categoryPath" (literal (Str "/Season"));
   bind "localizationDisplayNames" (literal (Object []));
   bind "localizationDisplayNames.en-US" (literal (Str "Season"))] [].

Definition season_pass_create_pass_item_free : StepDefinition :=
  season_item_step "create-pass-item-free" "freePassItemId" "Season Free Pass" "Free Pass" "PASS" 0.

Definition season_pass_create_pass_item_premium : StepDefinition :=
  season_item_step "create-pass-item-premium" "premiumPassItemId" "Season Premium Pass" "Premium Pass" "PASS" 500.

Definition season_pass_create_tier_item : StepDefinition :=
  season_item_step "create-tier-item" "tierItemId" "Season Tier" "Tier Upgrade" "TIER" 100.

Definition season_pass_publish_store : StepDefinition :=
  as_optional (season_step "platform" "publish-store" "Publishes the draft store so the SEASON items are live for the season."
  "platform/admin/catalog-changes/v1/publish-all" ["create-pass-item-free"; "create-pass-item-premium"; "create-tier-item"] true [bind "namespace"
  (workflow_ref "namespace"); bind "storeId" (workflow_ref "storeId")] []).

Definition season_pass_create_season : StepDefinition :=
  season_step "seasonpass" "create-season" "Creates the draft season in the store. The season id is captured for later steps."
  "season-pass/admin/seasons/v1/create" ["create-tier-item"; "publish-store"] false
  [bind "namespace" (workflow_ref "namespace");
   bind "draftStoreId" (workflow_ref "storeId");
   bind "tierItemId" (step_ref "create-tier-item" "tierItemId");
   bind "name" (workflow_ref "seasonName");
   bind "defaultLanguage" (literal (Str "en-US"));
   bind "defaultRequiredExp" (literal (int 100));
   bind "localizations" (literal (Object []));
   bind "localizations.en-US.title" (workflow_ref "seasonName");
   bind "start" (workflow_ref "start");
   bind "end" (workflow_ref "end")] [capture "seasonId" "$.id"].

Definition season_pass_create_pass_free : StepDefinition :=
  season_step "seasonpass" "create-pass-free" "Creates the free pass players auto-enroll into." "season-pass/admin/passes/v1/create" ["create-season";
  "create-pass-item-free"] false
  [bind "namespace" (workflow_ref "namespace");
   bind "seasonId" (step_ref "create-season" "seasonId");
   bind "code" (literal (Str "free-pass"));
   bind "autoEnroll" (literal (Bool true));
   bind "displayOrder" (literal (int 1));
   bind "passItemId" (step_ref "create-pass-item-free" "freePassItemId");
   bind "localizations" (literal (Object []));
   bind "localizations.en-US.title" (literal (Str "Free Pass"))] [].

Definition season_pass_create_pass_premium : StepDefinition :=
  season_step "seasonpass" "create-pass-premium" "Creates the premium pass, referencing the premium pass item." "season-pass/admin/passes/v1/create"
  ["create-season"; "create-pass-item-premium"] false
  [bind "namespace" (workflow_ref "namespace");
   bind "seasonId" (step_ref "create-season" "seasonId");
   bind "code" (literal (Str "premium-pass"));
   bind "autoEnroll" (literal (Bool false));
   bind "displayOrder" (literal (int 2));
   bind "passItemId" (step_ref "create-pass-item-premium" "premiumPassItemId");
   bind "localizations" (literal (Object []));
   bind "localizations.en-US.title" (literal (Str "Premium Pass"))] [].

Definition season_pass_create_reward_free_1 : StepDefinition :=
  reward_step "create-reward-free-1" "reward-free-1" "freeRewardItemId" 5.

Definition season_pass_create_reward_free_2 : StepDefinition :=
  reward_step "create-reward-free-2" "reward-free-2" "freeRewardItemId" 10.

Definition season_pass_create_reward_free_3 : StepDefinition :=
  reward_step "create-reward-free-3" "reward-free-3" "freeRewardItemId" 25.

Definition season_pass_create_reward_premium_1 : StepDefinition :=
  reward_step "create-reward-premium-1" "reward-premium-1" "premiumRewardItemId" 10.

Definition season_pass_create_reward_premium_2 : StepDefinition :=
  reward_step "create-reward-premium-2" "reward-premium-2" "premiumRewardItemId" 25.

Definition season_pass_create_reward_premium_3 : StepDefinition :=
  reward_step "create-reward-premium-3" "reward-premium-3" "premiumRewardItemId" 50.

Definition season_pass_create_tier_1 : StepDefinition :=
  tier_step 1 100.

Definition season_pass_create_tier_2 : StepDefinition :=
  tier_step 2 250.

Definition season_pass_create_tier_3 : StepDefinition :=
  tier_step 3 500.

Definition season_pass_publish_season : StepDefinition :=
  as_optional (season_step "seasonpass" "publish-season" "Publishes the season, making its passes, rewards, and tiers live."
  "season-pass/admin/seasons/v1/publish" ["create-tier-1"; "create-tier-2"; "create-tier-3"] true [bind "namespace" (workflow_ref "namespace"); bind
  "seasonId" (step_ref "create-season" "seasonId")] []).

Definition season_pass_steps : list StepDefinition :=
  [season_pass_create_category; season_pass_create_pass_item_free; season_pass_create_pass_item_premium; season_pass_create_tier_item;
  season_pass_publish_store; season_pass_create_season; season_pass_create_pass_free; season_pass_create_pass_premium; season_pass_create_reward_free_1;
  season_pass_create_reward_free_2; season_pass_create_reward_free_3; season_pass_create_reward_premium_1; season_pass_create_reward_premium_2;
  season_pass_create_reward_premium_3; season_pass_create_tier_1; season_pass_create_tier_2; season_pass_create_tier_3; season_pass_publish_season].

Definition season_pass_outputs : list WorkflowOutputAlias :=
  [mk_alias "seasonId" "create-season" "seasonId" false (Some "Season") (Some "Season id") None].

Definition season_pass_completion : WorkflowCompletion :=
  mk_completion
  [("Category", "/Season");
   ("Season", "{seasonName}");
   ("Passes", "free-pass, premium-pass");
   ("Rewards", "6 (free and premium, tiers 1 to 3)");
   ("Tiers", "3 (exp 100, 250, 500)")]
  [("View the published season", "ags season-pass seasons get --namespace {namespace} --season-id <season-id>");
   ("Unpublish to edit, then publish again", "ags season-pass seasons unpublish --namespace {namespace} --season-id <season-id>");
   ("Add another reward tier", "ags season-pass tiers create --namespace {namespace} --season-id <season-id> --json '<tier-json>'");
   ("Change a tier's rewards", "ags season-pass tiers update --namespace {namespace} --season-id <season-id> --id <tier-id> --json '<tier-json>'");
   ("View this season's tiers", "ags season-pass tiers list --namespace {namespace} --season-id <season-id>")].

Definition season_pass : WorkflowDefinition :=
  mk_definition "season-pass" "Create a season pass" None (Some
  "season pass battle pass tier reward premium free progression seasonpass store publish live") (Some
  "Create a complete season pass in your draft store with a free and premium pass, item rewards on both tracks, and three tiers, then publish it.")
  (Some season_pass_briefing) season_pass_inputs true season_pass_steps season_pass_outputs (Some season_pass_completion).

(** * The built-in workflows *)

(** In the order they are registered. *)
Definition builtin_workflows : list WorkflowDefinition := [competitive_multiplayer; player_overview; in_game_store; season_pass].

(** * What the definitions promise *)

Section wiring.
Variable d : WorkflowDefinition.

Definition step_named (id : string) : option StepDefinition := List.find (fun s => String.eqb (sd_id s) id) (wd_steps d).

Definition source_of (s : StepDefinition) (field : string) : option BindingSource :=
  bind_source <$> List.find (fun b => String.eqb (bind_field b) field) (sd_inputs s).

(** Whether the step [id] is among the dependencies of [s], or theirs. *)
Fixpoint depends (fuel : nat) (s : StepDefinition) (id : string) : bool :=
  match fuel with
  | O => false
  | S fuel =>
      existsb (fun dep => String.eqb dep id || match step_named dep with Some t => depends fuel t id | None => false end) (sd_dependencies s)
  end.

(** The steps whose outputs a step uses. *)
Definition used_steps (s : StepDefinition) : list string :=
  omap (fun b => match bind_source b with BReference r => match ref_from r with FromStep id => Some id | _ => None end | _ => None end) (sd_inputs s).

(** Outputs come from dependencies; what is confirmed may be declined; nothing secret is written down. *)
Definition step_wired (s : StepDefinition) : bool :=
  forallb (depends (length (wd_steps d)) s) (used_steps s) && implb (sd_confirm s) (sd_optional s).

End wiring.

(** ** The rules that need no catalogue *)

Definition accepted (r : result unit RuntimeError) : bool := match r with Ok _ => true | Err _ => false end.

Definition statically_accepted (d : WorkflowDefinition) : bool :=
  forallb (step_wired d) (wd_steps d) &&
  (accepted (validate_definition d) && accepted (validate_leaf_collisions d) && accepted (validate_file_pickers (wd_inputs d)) &&
   forallb (fun i => bool_decide (is_Some (in_schema i))) (wd_inputs d)).

Lemma accepted_ok r : accepted r = true -> r = Ok tt.
Proof. by destruct r as [[]|]. Qed.

Lemma explicit_schemas catalogue d l : forallb (fun i => bool_decide (is_Some (in_schema i))) l = true -> result_map (resolve_input_schema catalogue d) l = Ok l.
Proof.
  induction l as [|i l IH]; [done|]. intros [Hi Hl]%andb_prop. simpl. rewrite IH by done.
  apply bool_decide_eq_true in Hi as [s Hs]. unfold resolve_input_schema. by rewrite Hs.
Qed.

Lemma compile_accepted d catalogue :
  accepted (validate_definition d) && accepted (validate_leaf_collisions d) && accepted (validate_file_pickers (wd_inputs d)) &&
    forallb (fun i => bool_decide (is_Some (in_schema i))) (wd_inputs d) = true ->
  compile_workflow d catalogue =
    (let? _ := validate_options_sources catalogue d (wd_inputs d) in
     let? _ := validate_nested_paths catalogue d in
     let? steps := result_map (compile_step catalogue (wd_inputs d)) (enumerate (wd_steps d)) in
     Ok (mk_workflow (wd_id d) (wd_name d) (wd_intent d) (wd_description d) (wd_briefing d) (wd_inputs d) (wd_reviewed_by_default d) steps
           (wd_outputs d) (wd_completion d))).
Proof.
  intros [[[Hd%accepted_ok Hl%accepted_ok]%andb_prop Hp%accepted_ok]%andb_prop Hs]%andb_prop. unfold compile_workflow, resolve_input_schemas.
  rewrite Hd. simpl. rewrite explicit_schemas by done. simpl. rewrite Hp. simpl.
  destruct (validate_options_sources _ _ _); simpl; [|done]. destruct (validate_nested_paths _ _); simpl; [|done]. by rewrite Hl.
Qed.

(** The built-in workflows are accepted by the compiler up to the catalogue, whatever the
    catalogue is: every rule that looks at the definition alone holds, their input schemas are
    taken as written, and so compilation can only fail in the rules that look operations up.
    Their ids are distinct, every output that is used comes from a step that is a declared
    dependency, directly or through others, and every step that asks for confirmation may be
    skipped. *)
Theorem builtins_accepted :
  NoDup (map wd_id builtin_workflows) /\
  forall d, d ∈ builtin_workflows ->
    forallb (step_wired d) (wd_steps d) = true /\
    forall catalogue,
      compile_workflow d catalogue =
        (let? _ := validate_options_sources catalogue d (wd_inputs d) in
         let? _ := validate_nested_paths catalogue d in
         let? steps := result_map (compile_step catalogue (wd_inputs d)) (enumerate (wd_steps d)) in
         Ok (mk_workflow (wd_id d) (wd_name d) (wd_intent d) (wd_description d) (wd_briefing d) (wd_inputs d) (wd_reviewed_by_default d) steps
               (wd_outputs d) (wd_completion d))).
Proof.
  split; [apply (bool_decide_unpack _); by vm_compute|]. intros d Hd.
  assert (Hall : forallb statically_accepted builtin_workflows = true) by (by vm_compute).
  rewrite forallb_forall in Hall. apply list_elem_of_In, Hall in Hd. apply andb_prop in Hd as [Hw Ha]. split; [exact Hw|].
  intros catalogue. by apply compile_accepted.
Qed.

(** ** What competitive-multiplayer creates fits together *)

Section match_resources.
Context `{JsonText}.
Variable ctx : WorkflowContext.
Variable supplied : gmap string value.

(** What a binding gives, whatever the other bindings of its step are. *)
Definition gives (source : BindingSource) (v : value) : Prop := forall bindings, resolve_binding source ctx supplied bindings ∅ = Ok (Some v).

Lemma gives_input name v : supplied !! name = Some v -> gives (workflow_ref name) v.
Proof. intros Hn bindings. unfold resolve_binding. simpl. by rewrite Hn. Qed.

Lemma gives_prefixed prefix suffix : suffix ∈ ["-ruleset"; "-session"; "-pool"; "-claim-key"] -> supplied !! "resourcePrefix" = Some (Str prefix) ->
  gives (format_binding ("{resourcePrefix}" +:+ suffix)) (Str (prefix +:+ suffix)).
Proof.
  intros Hin Hp bindings. unfold resolve_binding, resolve_plain, format_binding. rewrite !elem_of_cons, elem_of_nil in Hin.
  destruct Hin as [->|[->|[->|[->|[]]]]]; unfold interpolate_template; simpl; rewrite Hp; done.
Qed.

Lemma gives_product a b x y : supplied !! a = Some (int x) -> supplied !! b = Some (int y) -> in_i64 x -> in_i64 y ->
  gives (arithmetic a Mul b) (int (saturate_i64 (x * y))).
Proof. intros Ha Hb Hx Hy bindings. unfold resolve_binding. simpl. rewrite Ha. simpl. rewrite decide_True by done. simpl. rewrite Hb. simpl. by rewrite decide_True. Qed.

(** The value of a document at the path of a field. *)
Definition value_at (field : string) (v : value) : option value :=
  match FieldPath_parse field with Some (Ok path) => walk v path | _ => None end.

(** Whatever request is assembled for the step from these inputs, for an operation with the
    field, its body carries the value there. *)
Definition body_carries (s : StepDefinition) (field : string) (v : value) : Prop := forall step specs op options body,
  step_inputs step = sd_inputs s -> explicit_body options = None -> (is_nested field = false -> field ∈ map field_name (request_fields op)) ->
  assemble_body (mk_values step ctx supplied ∅) (build_ctx_of step specs) op options = Ok body ->
  exists o, (body = Some (Object o) \/ body = Some (Array [Object o])) /\ value_at field (Object o) = Some v.

(** A binding writes elsewhere than the path. *)
Definition apart (path : list PathSegment) (b : StepInputBinding) : bool :=
  match nested_path (bind_field b) with Some other => part_ways other path && indices_ok other | None => true end.

Lemma nested_path_some field path : nested_path field = Some path -> path <> [].
Proof. unfold nested_path. destruct (FieldPath_parse field) as [[segments|]|]; [|done..]. destruct (Nat.ltb_spec 1 (length segments)); [|done]. intros [= <-] ->. simpl in *. lia. Qed.

Lemma merges_keep sv bc bs path v body body' : indices_ok path = true -> forallb (apart path) bs = true -> walk body path = Some v ->
  result_fold (add_nested sv bc) bs body = Ok body' -> walk body' path = Some v.
Proof.
  intros Hi Hap Hw. apply (result_fold_ind (fun body => walk body path = Some v)); [done|]. clear Hw body. intros b body body1 Hb Hw.
  rewrite forallb_forall in Hap. apply list_elem_of_In, Hap in Hb. unfold add_nested, apart in *.
  destruct (negb _); [by intros [= <-]|]. destruct (nested_path (bind_field b)) as [other|] eqn:En; [|by intros [= <-]].
  intros ([w|] & _ & Hx)%bind_Ok; injection Hx as <-; [|done]. apply andb_true_iff in Hb as [Hp Ho].
  by apply (proj2 (merge_writes_leaf other w body (nested_path_some _ _ En) Ho)).
Qed.

Lemma fold_app {A B E} (f : B -> A -> result B E) l1 l2 acc : result_fold f (l1 ++ l2) acc = (let? acc := result_fold f l1 acc in result_fold f l2 acc).
Proof. revert acc. induction l1 as [|x l1 IH]; intros acc; simpl; [done|]. by destruct (f acc x). Qed.

(** The body that is assembled is what the two passes gathered. *)
Lemma gathered_carries step specs op options body path v : explicit_body options = None ->
  (forall top gathered, result_fold (add_body_field (mk_values step ctx supplied ∅) (build_ctx_of step specs)) (request_fields op) [] = Ok top ->
     result_fold (add_nested (mk_values step ctx supplied ∅) (build_ctx_of step specs)) (step_inputs step) (Object top) = Ok gathered -> walk gathered path = Some v) ->
  (exists k rest, path = Key k :: rest) -> assemble_body (mk_values step ctx supplied ∅) (build_ctx_of step specs) op options = Ok body ->
  exists o, (body = Some (Object o) \/ body = Some (Array [Object o])) /\ walk (Object o) path = Some v.
Proof.
  intros He Hg (k & rest & ->) Ha. unfold assemble_body in Ha. rewrite He in Ha. apply bind_Ok in Ha as (o & Ho & Ha).
  unfold gather_body in Ho. apply bind_Ok in Ho as (top & Ht & Ho). apply bind_Ok in Ho as (gathered & Hgath & Ho). cbn [sv_step] in Hgath.
  pose proof (Hg _ _ Ht Hgath) as Hw. injection Ho as <-. destruct gathered as [| | | | |l]; try done. exists l. split; [|exact Hw].
  destruct l; [done|]. injection Ha as <-. destruct (match request_body op with Some b => is_array b | None => false end); auto.
Qed.

(** The first binding of a field, with those after it. *)
Fixpoint from_binding (field : string) (bs : list StepInputBinding) : option (StepInputBinding * list StepInputBinding) :=
  match bs with
  | [] => None
  | b :: r => if String.eqb (bind_field b) field then Some (b, r) else from_binding field r
  end.

Lemma from_binding_split field bs b post : from_binding field bs = Some (b, post) -> exists pre, bs = (pre ++ b :: post)%list /\ bind_field b = field.
Proof.
  induction bs as [|x bs IH]; [done|]. simpl. destruct (String.eqb_spec (bind_field x) field) as [<-|].
  - intros [= -> ->]. by exists [].
  - intros (pre & -> & Hf)%IH. by exists (x :: pre).
Qed.

Lemma nested_carried s field path b post v : from_binding field (sd_inputs s) = Some (b, post) -> is_nested field = true -> nested_path field = Some path ->
  indices_ok path && forallb (apart path) post = true -> (exists k rest, path = Key k :: rest) -> gives (bind_source b) v -> body_carries s field v.
Proof.
  intros (pre & Hbs & Hf)%from_binding_split Hn Hpath [Hi Hap]%andb_prop Hkey Hgives step specs op options body Hs He _ Ha.
  assert (Hparse : forall o, value_at field (Object o) = walk (Object o) path).
  { intros o. unfold value_at. unfold nested_path in Hpath. destruct (FieldPath_parse field) as [[segments|]|]; try done. destruct (Nat.ltb 1 _); [|done]. by injection Hpath as ->. }
  setoid_rewrite Hparse. refine (gathered_carries step specs op options body path v He _ Hkey Ha). intros top gathered _ Hg. rewrite Hs, Hbs, fold_app in Hg.
  apply bind_Ok in Hg as (mid & _ & Hg). cbn [result_fold] in Hg. unfold add_nested at 1 in Hg. rewrite Hf, Hn in Hg. cbn [negb] in Hg. rewrite Hpath in Hg.
  cbn [sv_local] in Hg. rewrite lookup_empty in Hg. unfold binding_value in Hg. cbn [sv_ctx sv_supplied sv_local] in Hg. rewrite Hgives in Hg. cbn [result_bind] in Hg.
  refine (merges_keep _ _ _ _ _ _ _ Hi Hap _ Hg). exact (proj1 (merge_writes_leaf path v mid (nested_path_some field path Hpath) Hi)).
Qed.

Lemma top_fields sv bc fs name v acc top : name ∈ map field_name fs -> resolve_field_value sv bc name = Ok (Some v) ->
  result_fold (add_body_field sv bc) fs acc = Ok top -> obj_get name top = Some v.
Proof.
  intros Hin Hv. assert (Hkeep : forall fs acc top, result_fold (add_body_field sv bc) fs acc = Ok top -> obj_get name acc = Some v -> obj_get name top = Some v).
  { clear -Hv. intros fs acc top Hr Ha. revert Hr. apply (result_fold_ind (fun acc => obj_get name acc = Some v)); [done|]. intros f acc1 acc2 _ H1.
    unfold add_body_field. destruct (resolve_field_value sv bc (field_name f)) as [[w|]|] eqn:E; [|by case_match; [|intros [= <-]]|done].
    intros [= <-]. rewrite obj_get_insert. destruct (String.eqb_spec name (field_name f)) as [->|]; [congruence|done]. }
  revert acc. induction fs as [|f fs IH]; [by apply not_elem_of_nil in Hin|]. intros acc. simpl. simpl in Hin. apply elem_of_cons in Hin as [->|Hin].
  - unfold add_body_field at 1. rewrite Hv. cbn [result_bind]. intros Hr. eapply Hkeep; [exact Hr|]. by rewrite obj_get_insert, String.eqb_refl.
  - destruct (add_body_field sv bc acc f); [|done]. by apply IH.
Qed.

Lemma plain_carried s name source v : is_nested name = false -> FieldPath_parse name = Some (Ok [Key name]) ->
  (list_to_map (rev (map (fun b => (bind_field b, bind_source b)) (sd_inputs s))) : gmap string BindingSource) !! name = Some source ->
  forallb (apart [Key name]) (sd_inputs s) = true -> gives source v -> body_carries s name v.
Proof.
  intros Hn Hparse Hsource Hap Hgives step specs op options body Hs He Hfield Ha. unfold value_at. rewrite Hparse.
  refine (gathered_carries step specs op options body [Key name] v He _ (ex_intro _ name (ex_intro _ [] eq_refl)) Ha). intros top gathered Ht Hg. rewrite Hs in Hg.
  refine (merges_keep _ _ _ [Key name] _ _ _ eq_refl Hap _ Hg). cbn [walk get_field as_object].
  assert (Hv : resolve_field_value (mk_values step ctx supplied ∅) (build_ctx_of step specs) name = Ok (Some v)); [|by rewrite (top_fields _ _ _ name v _ _ (Hfield Hn) Hv Ht)].
  unfold resolve_field_value. cbn [sv_local]. rewrite lookup_empty. unfold build_ctx_of, bindings_by_field. cbn [bc_bindings]. rewrite Hs, Hsource.
  unfold binding_value. cbn [sv_ctx sv_supplied sv_local]. apply Hgives.
Qed.

Ltac carried := first
  [ eapply plain_carried; [reflexivity|by vm_compute|by vm_compute|by vm_compute|]
  | eapply nested_carried; [reflexivity|reflexivity|by vm_compute|by vm_compute|by eexists _, _|] ].

(** [C40] What competitive-multiplayer sets up fits together, whatever whole numbers of 64 bits
    and whatever prefix are answered to its inputs: with [p] players per team and [t] teams, the
    bodies that are assembled from these inputs say that a session, when its template is created
    and when it is updated, holds [p * t] players, no fewer and no more — or the largest number
    of 64 bits, when that is less —, that the ruleset has exactly [t] teams of exactly [p], and
    the pool, the update and the fleet name the ruleset, the template and the claim key as the
    other steps create them. *)
Theorem match_resources_agree p t prefix :
  supplied !! "playersPerTeam" = Some (int p) -> supplied !! "teamCount" = Some (int t) -> supplied !! "resourcePrefix" = Some (Str prefix) ->
  in_i64 p -> in_i64 t ->
  (forall s field, s ∈ [competitive_multiplayer_create_session_template; competitive_multiplayer_update_session_template] ->
     field ∈ ["minPlayers"; "maxPlayers"] -> body_carries s field (int (Z.max (- 2 ^ 63) (Z.min (2 ^ 63 - 1) (p * t))))) /\
  (forall field, field ∈ ["data.alliance.min_number"; "data.alliance.max_number"] ->
     body_carries competitive_multiplayer_create_ruleset field (int t)) /\
  (forall field, field ∈ ["data.alliance.player_min_number"; "data.alliance.player_max_number"] ->
     body_carries competitive_multiplayer_create_ruleset field (int p)) /\
  (body_carries competitive_multiplayer_create_match_pool "rule_set" (Str (prefix +:+ "-ruleset")) /\
   body_carries competitive_multiplayer_create_ruleset "name" (Str (prefix +:+ "-ruleset"))) /\
  (body_carries competitive_multiplayer_create_match_pool "session_template" (Str (prefix +:+ "-session")) /\
   body_carries competitive_multiplayer_create_session_template "name" (Str (prefix +:+ "-session")) /\
   body_carries competitive_multiplayer_update_session_template "name" (Str (prefix +:+ "-session"))) /\
  (body_carries competitive_multiplayer_create_ams_fleet "claimKeys[0]" (Str (prefix +:+ "-claim-key")) /\
   body_carries competitive_multiplayer_update_session_template "preferredClaimKeys[0]" (Str (prefix +:+ "-claim-key"))).
Proof.
  intros Hp Ht Hx Hip Hit. split_and!.
  - intros s field Hs Hf. rewrite !elem_of_cons, elem_of_nil in Hs. rewrite !elem_of_cons, elem_of_nil in Hf.
    destruct Hs as [->|[->|[]]], Hf as [->|[->|[]]]; carried; by apply (gives_product "playersPerTeam" "teamCount").
  - intros field Hf. rewrite !elem_of_cons, elem_of_nil in Hf. destruct Hf as [->|[->|[]]]; carried; by apply gives_input.
  - intros field Hf. rewrite !elem_of_cons, elem_of_nil in Hf. destruct Hf as [->|[->|[]]]; carried; by apply gives_input.
  - carried. apply (gives_prefixed prefix "-ruleset"); [by left|done].
  - carried. apply (gives_prefixed prefix "-ruleset"); [by left|done].
  - carried. apply (gives_prefixed prefix "-session"); [by right; left|done].
  - carried. apply (gives_prefixed prefix "-session"); [by right; left|done].
  - carried. apply (gives_prefixed prefix "-session"); [by right; left|done].
  - carried. apply (gives_prefixed prefix "-claim-key"); [by do 3 right; left|done].
  - carried. apply (gives_prefixed prefix "-claim-key"); [by do 3 right; left|done].
Qed.

End match_resources.

(** ** What the tiers of season-pass grant exists *)

(** The code a step creates, with the operation that creates it. *)
Definition created_code (s : StepDefinition) : option (string * string) :=
  op ← sd_operation s;
  match source_of s "code" with Some (BLiteral (Str code) _) => Some (operation op, code) | _ => None end.

(** The passes and the rewards a tier names. *)
Definition tier_codes (s : StepDefinition) : list (string * string) :=
  match source_of s "tier.rewards" with
  | Some (BLiteral (Object l) _) =>
      flat_map (fun kv => ("season-pass/admin/passes/v1/create", kv.1) ::
        match kv.2 with Array codes => map (fun c => ("season-pass/admin/rewards/v1/create", default EmptyString (as_str c))) codes | _ => [] end) l
  | _ => []
  end.

Definition codes_before (d : WorkflowDefinition) (s : StepDefinition) : list (string * string) :=
  omap created_code (List.filter (fun t => depends d (length (wd_steps d)) s (sd_id t)) (wd_steps d)).

(** Every pass and every reward a tier names is created by a step the tier depends on. *)
Lemma season_rewards_exist s code : s ∈ wd_steps season_pass -> code ∈ tier_codes s -> code ∈ codes_before season_pass s.
Proof.
  assert (Hall : forallb (fun s => forallb (fun c => bool_decide (c ∈ codes_before season_pass s)) (tier_codes s)) (wd_steps season_pass) = true) by (by vm_compute).
  rewrite forallb_forall in Hall. intros Hs Hc. apply list_elem_of_In, Hall in Hs. rewrite forallb_forall in Hs.
  apply list_elem_of_In, Hs in Hc. by apply bool_decide_eq_true in Hc.
Qed.

Lemma season_tiers_grant : map (fun s => length (tier_codes s)) (List.filter (fun s => bool_decide (is_Some (source_of s "tier.rewards"))) (wd_steps season_pass)) = [4; 4; 4]%nat.
Proof. by vm_compute. Qed.

#[local] Instance builtin_json : JsonText := bits_json_text.

(** The creation of the template, with the fields that count the players. *)
Definition template_step : CompiledStep :=
  let s := competitive_multiplayer_create_session_template in
  mk_step (sd_id s) 2 (sd_description s) (sd_kind s) (sd_action s) (sd_operation s) (sd_dependencies s) (sd_confirm s) (sd_optional s)
    (sd_continue_on_failure s) (sd_skip_if_exists s) (sd_reviewed s) (sd_inputs s) (sd_outputs s) [].

Definition template_operation : OperationSchema :=
  mk_operation "session/admin/templates/v1/create" "create" EmptyString None Mutating Post "/configuration" []
    (Some (mk_body_schema "Template" [mk_body_field "maxPlayers" FInteger true None [] None; mk_body_field "minPlayers" FInteger true None [] None] false None))
    None [] "admin" 1 false None.

Definition match_answers (p t : Z) : gmap string value :=
  list_to_map [("fleetRegion", Str "us-west-2"); ("playersPerTeam", int p); ("resourcePrefix", Str "ranked"); ("teamCount", int t)].

Definition template_body (p t : Z) : result (option value) RuntimeError :=
  assemble_body (mk_values template_step WorkflowContext_new (match_answers p t) ∅) (build_ctx_of template_step []) template_operation
    (mk_options_ false true true false false Human None Normal PageAuto None true).

(** Two teams of four; and four teams of more players than can be counted. *)
Lemma match_resources_agree_witness :
  (template_body 4 2 = Ok (Some (Object [("maxPlayers", int 8); ("minPlayers", int 8); ("requestedRegions", Array [Str "us-west-2"])])) /\
   body_carries WorkflowContext_new (match_answers 4 2) competitive_multiplayer_create_session_template "maxPlayers" (int 8)) /\
  (template_body (2 ^ 62) 4 = Ok (Some (Object [("maxPlayers", int (2 ^ 63 - 1)); ("minPlayers", int (2 ^ 63 - 1)); ("requestedRegions", Array [Str "us-west-2"])])) /\
   body_carries WorkflowContext_new (match_answers (2 ^ 62) 4) competitive_multiplayer_create_session_template "minPlayers" (int (2 ^ 63 - 1))).
Proof.
  split; (split; [vm_compute; reflexivity|]).
  - refine (proj1 (match_resources_agree WorkflowContext_new (match_answers 4 2) 4 2 "ranked" _ _ _ _ _) _ "maxPlayers" _ _); try (vm_compute; reflexivity).
    + unfold in_i64; lia.
    + unfold in_i64; lia.
    + by left.
    + by right; left.
  - refine (proj1 (match_resources_agree WorkflowContext_new (match_answers (2 ^ 62) 4) (2 ^ 62) 4 "ranked" _ _ _ _ _) _ "minPlayers" _ _); try (vm_compute; reflexivity).
    + unfold in_i64; lia.
    + unfold in_i64; lia.
    + by left.
    + by left.
Defined.
