(* ===== verification/Registry.v ===== *)
(** The registry of workflows: the built-in ones, those of the user's directory, adding and
    removing one ([workflows/mod.rs], [builtins/mod.rs], [bundled.rs], [external.rs],
    [version_check.rs], [facade/workflow.rs]), and what [ags workflow run] makes of its arguments
    ([invocation/routes/workflow/mod.rs]). *)

From stdpp Require Import base gmap strings list.
From Stdlib Require Import ZArith Lia Ascii.
From S2P Require Import Prelude Text Kebab Nouns Json Catalogue Paths Results Workflow AutoDerive Bindings Request Compile CliErrors Flags Surface ServiceCommand Builtins.

(** * Third-party formats *)

(** Workflow files as [serde_yaml_ng] reads them. *)
Class WorkflowYaml : Type := parse_workflow : string -> result WorkflowDefinition string.

(** Versions as [semver] reads them. *)
Class Semver : Type := {
  Version : Type;
  version_eq_dec :: EqDecision Version;
  parse_semver : string -> option Version
}.

(** * The registry *)

Inductive WorkflowOrigin : Type := Bundled | External.

#[global] Instance workflow_origin_eq_dec : EqDecision WorkflowOrigin.
Proof. solve_decision. Defined.

Definition WorkflowRegistry : Type := gmap string (WorkflowDefinition * WorkflowOrigin).

Definition register (r : WorkflowRegistry) (d : WorkflowDefinition) : WorkflowRegistry := <[wd_id d := (d, Bundled)]> r.
Definition register_external (r : WorkflowRegistry) (d : WorkflowDefinition) : WorkflowRegistry := <[wd_id d := (d, External)]> r.
Definition resolve_workflow (r : WorkflowRegistry) (id : string) : option WorkflowDefinition := fst <$> r !! id.
Definition origin (r : WorkflowRegistry) (id : string) : option WorkflowOrigin := snd <$> r !! id.
Definition is_bundled (r : WorkflowRegistry) (id : string) : bool := bool_decide (origin r id = Some Bundled).

Definition id_le (a b : string * (WorkflowDefinition * WorkflowOrigin)) : bool := match String.compare a.1 b.1 with Gt => false | _ => true end.
(** In the order of their ids. *)
Definition registered (r : WorkflowRegistry) : list (string * (WorkflowDefinition * WorkflowOrigin)) := sort_by id_le (map_to_list r).
Definition ids (r : WorkflowRegistry) : list string := map fst (registered r).
Definition entries (r : WorkflowRegistry) : list (string * string) := map (fun e => (wd_id e.2.1, wd_name e.2.1)) (registered r).

(** The built-in workflows, then those written as YAML. *)
Definition register_builtins (yaml : list WorkflowDefinition) (r : WorkflowRegistry) : WorkflowRegistry := foldl register (foldl register r builtin_workflows) yaml.

(** * Workflow files *)

(** A file: its text, or nothing when it cannot be read. *)
Definition WorkflowFile : Type := option string.

(** [workflows_dir()]: it cannot be found, it is not there, or its files by name. *)
Inductive WorkflowsDir : Type :=
| NoConfigDir (e : RuntimeError)
| NoDir
| Files (files : gmap string WorkflowFile).

Definition files_of (dir : WorkflowsDir) : gmap string WorkflowFile := match dir with Files files => files | _ => ∅ end.

(** [Path::extension]. *)
Definition extension (name : string) : option string :=
  match before_last "." name, after_last "." name with Some (String c r), Some ext => if String.eqb name ".." then None else Some ext | _, _ => None end.

Definition is_yaml (name : string) : bool :=
  match extension name with Some ext => eq_ignore_ascii_case ext "yaml" || eq_ignore_ascii_case ext "yml" | None => false end.

Section registry.
Context `{WorkflowYaml, Semver, JsonText, UnicodeCase}.
(** The order in which the system lists the files of a directory. *)
Variable read_dir : gmap string WorkflowFile -> list (string * WorkflowFile).
(** The path of a file of the directory, in messages. *)
Variable show_path : string -> string.

Definition load_external_workflow_file (name : string) (f : WorkflowFile) : result WorkflowDefinition RuntimeError :=
  match f with
  | None => Err (internal ("Failed to read '" +:+ show_path name +:+ "'"))
  | Some yaml => map_err (fun e => internal ("Failed to parse '" +:+ show_path name +:+ "': " +:+ e)) (parse_workflow yaml)
  end.

(** The workflow a file of the directory holds, if any. *)
Definition file_workflow (e : string * WorkflowFile) : option WorkflowDefinition :=
  if is_yaml e.1 then result_ok (load_external_workflow_file e.1 e.2) else None.

Definition load_entry (r : WorkflowRegistry) (e : string * WorkflowFile) : WorkflowRegistry :=
  match file_workflow e with
  | None => r
  | Some d => match resolve_workflow r (wd_id d) with Some _ => r | None => register_external r d end
  end.

Definition load_external_workflows (dir : WorkflowsDir) (r : WorkflowRegistry) : WorkflowRegistry :=
  match dir with Files files => foldl load_entry r (read_dir files) | _ => r end.

(** Whether the workflow of a file has an id, whatever its case. *)
Definition holds_id (id : string) (e : string * WorkflowFile) : bool :=
  match file_workflow e with Some d => eq_ignore_ascii_case (wd_id d) id | None => false end.

Definition find_external_workflow_by_id (dir : WorkflowsDir) (id : string) : result (option string) RuntimeError :=
  match dir with
  | NoConfigDir e => Err e
  | NoDir => Ok None
  | Files files => Ok (fst <$> List.find (holds_id id) (read_dir files))
  end.

(** The registry of a process that first asks for it when the directory is [dir]. *)
Variable bundled_yaml : list WorkflowDefinition.
Definition registry (dir : WorkflowsDir) : WorkflowRegistry := load_external_workflows dir (register_builtins bundled_yaml ∅).

(** * Versions *)

Definition WORKFLOW_PROTOCOL_VERSION : string := "1.0.0".

Definition is_unparsable (declared : string) : bool := match parse_semver declared with Some _ => false | None => true end.

Definition is_mismatched (declared : option string) : bool :=
  match (d ← declared; parse_semver d), parse_semver WORKFLOW_PROTOCOL_VERSION with
  | Some d, Some current => negb (bool_decide (d = current))
  | _, _ => false
  end.

(** * Adding and removing *)

Definition WINDOWS_RESERVED_DEVICE_NAMES : list string :=
  ["CON"; "PRN"; "AUX"; "NUL"; "COM1"; "COM2"; "COM3"; "COM4"; "COM5"; "COM6"; "COM7"; "COM8"; "COM9";
   "LPT1"; "LPT2"; "LPT3"; "LPT4"; "LPT5"; "LPT6"; "LPT7"; "LPT8"; "LPT9"].

Definition invalid (msg : string) (h : option string) : RuntimeError := mk_error Validation msg None h None.

Definition id_char (c : ascii) : bool := is_lower c || is_upper c || is_digit c || Ascii.eqb c "." || Ascii.eqb c "_" || Ascii.eqb c "-".

Definition validate_workflow_id (id : string) : result unit RuntimeError :=
  if negb (negb (is_empty id) && all_chars id_char id) then
    Err (invalid ("Invalid workflow id '" +:+ id +:+ "'.")
           (Some "Workflow ids may only contain letters, digits, '.', '_', and '-' (e.g. 'competitive-multiplayer')."))
  else if existsb (fun reserved => eq_ignore_ascii_case reserved (default id (head (split_char "." id)))) WINDOWS_RESERVED_DEVICE_NAMES then
    Err (invalid ("Invalid workflow id '" +:+ id +:+ "': reserved by Windows.")
           (Some "Workflow ids may not use Windows-reserved device names (CON, PRN, AUX, NUL, COM1-9, LPT1-9), even as a prefix before '.'."))
  else Ok tt.

Definition template_hint (what : string) : option string :=
  Some (what +:+ " or run `ags workflow template` for a starter file with one already filled in.").

Definition check_declared_version (path : string) (d : WorkflowDefinition) : result unit RuntimeError :=
  match workflow_protocol_version d with
  | None =>
      Err (invalid ("'" +:+ path +:+ "' is missing a required `workflow_protocol_version` field.")
             (template_hint ("Declare `workflow_protocol_version: " +:+ quoted "<version>" +:+ "`,")))
  | Some declared =>
      if is_unparsable declared then
        Err (invalid ("'" +:+ path +:+ "' has an invalid `workflow_protocol_version`: '" +:+ declared +:+ "' is not a valid semver version.")
               (template_hint ("Declare `workflow_protocol_version` as a semver string (e.g. " +:+ quoted "1.0.0" +:+ "),")))
      else Ok tt
  end.

Definition already_registered (existing id : string) : RuntimeError :=
  invalid
    (if String.eqb existing id then "A workflow with id '" +:+ id +:+ "' is already registered."
     else "A workflow with id '" +:+ id +:+ "' is already registered as '" +:+ existing +:+ "'; ids are compared case-insensitively.")
    (Some "Choose a different id, or run `ags workflow remove <id>` to remove the existing workflow first (built-in workflows cannot be removed this way).").

Definition check_new_id (r : WorkflowRegistry) (id : string) : result unit RuntimeError :=
  match List.find (fun existing => eq_ignore_ascii_case existing id) (ids r) with
  | Some existing => Err (already_registered existing id)
  | None => Ok tt
  end.

(** Whether a file name joined to a directory stays right inside it. *)
Definition right_inside (name : string) : bool :=
  negb (starts_with "/" name) &&
  match List.filter (fun part => negb (is_empty part) && negb (String.eqb part ".")) (split_char "/" name) with [_] => true | _ => false end.

Definition target_name (id : string) : string := id +:+ ".yaml".

(** What the system makes of an installation; a failed write says what it left behind. *)
Inductive InstallOutcome : Type :=
| Installed
| CreateFailed (e : string)
| WriteFailed (e : string) (kept : WorkflowsDir).

Definition install (dir : WorkflowsDir) (id yaml : string) (outcome : InstallOutcome) : result string RuntimeError * WorkflowsDir :=
  match dir with
  | NoConfigDir e => (Err e, dir)
  | _ =>
      let target := target_name id in
      match outcome with
      | CreateFailed e => (Err (internal ("Cannot create workflows directory: " +:+ e)), dir)
      | _ =>
          if negb (right_inside target) then
            (Err (internal ("Refusing to write workflow file outside the workflows directory: '" +:+ show_path target +:+ "'")), Files (files_of dir))
          else
            match outcome with
            | WriteFailed e kept => (Err (internal ("Failed to write '" +:+ show_path target +:+ "': " +:+ e)), kept)
            | _ => (Ok target, Files (<[target := Some yaml]> (files_of dir)))
            end
      end
  end.

Record WorkflowAddOutput : Type := mk_add_output { add_id : string; validated_only : bool; add_path : option string }.

(** [text] is the file that is added, read or not; the registry is asked for before anything is written. *)
Definition workflow_add (catalogue : Compile.Catalogue) (path : string) (text : result string string) (validate_only : bool) (outcome : InstallOutcome)
    (dir : WorkflowsDir) : result WorkflowAddOutput RuntimeError * WorkflowsDir :=
  let checked :=
    let? yaml := map_err (fun e => invalid ("Cannot read '" +:+ path +:+ "': " +:+ e) None) text in
    let? d := map_err (fun e => invalid ("'" +:+ path +:+ "' is not a valid workflow YAML: " +:+ e) None) (parse_workflow yaml) in
    let? _ := check_declared_version path d in
    let? _ := validate_workflow_id (wd_id d) in
    let? _ := compile_workflow d catalogue in
    let? _ := check_new_id (registry dir) (wd_id d) in
    Ok (yaml, wd_id d) in
  match checked with
  | Err e => (Err e, dir)
  | Ok (yaml, id) =>
      if validate_only then (Ok (mk_add_output id true None), dir)
      else
        match install dir id yaml outcome with
        | (Ok target, dir') => (Ok (mk_add_output id false (Some target)), dir')
        | (Err e, dir') => (Err e, dir')
        end
  end.

Record WorkflowRemoveOutput : Type := mk_remove_output { remove_id : string; remove_path : string; builtin_still_registered : bool }.

(** [failure] is what the system answers when it does not remove the file; the registry is
    asked for after the removal. *)
Definition workflow_remove (id : string) (failure : option string) (dir : WorkflowsDir) : result WorkflowRemoveOutput RuntimeError * WorkflowsDir :=
  match find_external_workflow_by_id dir id with
  | Err e => (Err e, dir)
  | Ok (Some name) =>
      match failure with
      | Some e => (Err (internal ("Failed to remove '" +:+ show_path name +:+ "': " +:+ e)), dir)
      | None =>
          let dir' := Files (delete name (files_of dir)) in
          (Ok (mk_remove_output id name (bool_decide (is_Some (resolve_workflow (registry dir') id)))), dir')
      end
  | Ok None =>
      if existsb (fun existing => eq_ignore_ascii_case existing id) (ids (registry dir)) then
        (Err (invalid ("'" +:+ id +:+ "' is a built-in workflow and cannot be removed.")
                (Some "Only workflows installed via `ags workflow add` can be removed.")), dir)
      else (Err (invalid ("Unknown workflow: '" +:+ id +:+ "'.") (Some "Run `ags workflow list` to see available workflows.")), dir)
  end.

(** [ags workflow template]: the text, at most one version filled in; [written] is what the
    system answers when the file is not written. *)
Definition WORKFLOW_TEMPLATE (skeleton : string) : string :=
  match split_find "{{WORKFLOW_PROTOCOL_VERSION}}" skeleton with
  | Some (before, after) => before +:+ WORKFLOW_PROTOCOL_VERSION +:+ after
  | None => skeleton
  end.

Definition workflow_template (skeleton : string) (output : option string) (written : option string) : result (string * BinaryWrittenDestination) RuntimeError :=
  let yaml := WORKFLOW_TEMPLATE skeleton in
  match output with
  | None => Ok (yaml, WrittenToStdout)
  | Some path =>
      match written with
      | Some e => Err (internal ("Failed to write '" +:+ path +:+ "': " +:+ e))
      | None => Ok (yaml, WrittenToFile path)
      end
  end.

(** * [ags workflow run] *)

Definition mismatched_protocol_version_warning (workflow_id declared current : string) : string :=
  "Workflow '" +:+ workflow_id +:+ "' targets protocol version " +:+ declared +:+ "; this ags build is on protocol version " +:+ current +:+
  ". If you encounter issues, this may be why.".

Definition legacy_protocol_version_warning (workflow_id current : string) : string :=
  "Workflow '" +:+ workflow_id +:+ "' does not declare a protocol version (likely installed before this CLI started requiring one); this ags build is on protocol version "
  +:+ current +:+ ". If you encounter issues, this may be why.".

Definition unreadable_protocol_version_warning (workflow_id declared current : string) : string :=
  "Workflow '" +:+ workflow_id +:+ "' declares a protocol version that is not a readable version number: " +:+ quoted declared +:+
  ". This ags build is on protocol version " +:+ current +:+ ". The field can be corrected by hand or by re-adding the workflow with `ags workflow add`.".

Definition outdated_warning (workflow_id : string) (declared : option string) (is_bundled is_automation : bool) : option string :=
  if is_bundled || is_automation then None
  else
    match declared with
    | Some v =>
        if is_mismatched (Some v) then Some (mismatched_protocol_version_warning workflow_id v WORKFLOW_PROTOCOL_VERSION)
        else if is_unparsable v then Some (unreadable_protocol_version_warning workflow_id v WORKFLOW_PROTOCOL_VERSION)
        else None
    | None => Some (legacy_protocol_version_warning workflow_id WORKFLOW_PROTOCOL_VERSION)
    end.

Definition unknown_workflow_error (r : WorkflowRegistry) (workflow_id : string) : CliError :=
  usage ("Unknown workflow: '" +:+ workflow_id +:+ "'" +:+ NL +:+ NL +:+ "Valid workflows:" +:+ NL +:+
         join NL (map (fun id => "  " +:+ id) (ids r))).

(** The options of a registered workflow: for each input its name, its flag and its help. *)
Definition build_registered_workflow_clap (c : CompiledWorkflow) : list (string * string * option string) :=
  map (fun spec => (in_name spec, to_kebab_case (in_name spec), in_description spec)) (wf_inputs c).

(** Messages of the argument parser start with an ASCII letter. *)
Definition strip_clap_prefix (message : string) : string :=
  match default message (strip_prefix "error: " message) with
  | EmptyString => EmptyString
  | String first rest => to_ascii_uppercase (String first EmptyString) +:+ rest
  end.

(** What [clap] makes of arguments under a name and options: the values by name, or its message. *)
Variable try_get_matches : string -> list (string * string * option string) -> list string -> result (gmap string string) string.
Variable parse_f64 : string -> option number.

Fixpoint position (p : string -> bool) (l : list string) : option nat :=
  match l with [] => None | a :: r => if p a then Some 0%nat else S <$> position p r end.

(** The arguments without the id. *)
Definition without (i : nat) (args : list string) : list string := take i args ++ drop (S i) args.

Definition supply_flag (matches : gmap string string) (m : gmap string value) (spec : WorkflowInputSpec) : gmap string value :=
  match matches !! in_name spec with Some raw => <[in_name spec := coerce_cli_value parse_f64 raw (in_schema spec)]> m | None => m end.

Definition parse_workflow_input_flags (c : CompiledWorkflow) (args : list string) (id_index : nat) : result (gmap string value) CliError :=
  match try_get_matches (wf_id c) (build_registered_workflow_clap c) (without id_index args) with
  | Err message => Err (usage (strip_clap_prefix message))
  | Ok matches => Ok (foldl (supply_flag matches) ∅ (wf_inputs c))
  end.

Definition seed_namespace_input (pre_supplied : gmap string value) (c : CompiledWorkflow) (v : option string) : gmap string value :=
  if existsb (fun spec => String.eqb (in_name spec) "namespace") (wf_inputs c) then
    match pre_supplied !! "namespace", v with None, Some ns => <["namespace" := Str ns]> pre_supplied | _, _ => pre_supplied end
  else pre_supplied.

Definition review_steps_for (b : PhaseBackend) (assume_yes no_input : bool) : bool :=
  (match b with FullscreenTerminalUi | InlineTerminalUi | PlainTerminal => true | StructuredJson => false end) && negb assume_yes && negb no_input.

Definition pickers_available_for (b : PhaseBackend) : bool := match b with FullscreenTerminalUi | InlineTerminalUi => true | _ => false end.

(** What the arguments of a run ask for. *)
Inductive RunRequest : Type :=
| ShowHelp (workflow : option CompiledWorkflow)
| Execute (c : CompiledWorkflow) (pre_supplied : gmap string value) (workflow_is_bundled : bool) (warning : option string).

Definition render_workflow_run_help (catalogue : Compile.Catalogue) (dir : WorkflowsDir) (workflow_id : option string) : result RunRequest CliError :=
  match workflow_id with
  | None => Ok (ShowHelp None)
  | Some id =>
      match resolve_workflow (registry dir) id with
      | None => Err (unknown_workflow_error (registry dir) id)
      | Some definition => let? c := map_err cli_error_of_runtime (compile_workflow definition catalogue) in Ok (ShowHelp (Some c))
      end
  end.

Definition asks_help (a : string) : bool := String.eqb a "--help" || String.eqb a "-h".

(** [route_workflow_run] up to the execution. *)
Definition route_workflow_run (catalogue : Compile.Catalogue) (dir : WorkflowsDir) (args : list string) (flags : GlobalFlags) (context : FrontendContext)
  : result RunRequest CliError :=
  if is_skeleton flags then Err (usage "--skeleton is not supported with 'ags workflow run'")
  else
    let id_index := position (fun a => negb (starts_with "-" a)) args in
    if existsb asks_help args then render_workflow_run_help catalogue dir (i ← id_index; args !! i)
    else
      match (i ← id_index; id ← args !! i; Some (i, id)) with
      | None => Err (usage "Missing workflow id: ags workflow run <workflow-id>")
      | Some (i, id) =>
          match resolve_workflow (registry dir) id with
          | None => Err (unknown_workflow_error (registry dir) id)
          | Some definition =>
              let bundled := is_bundled (registry dir) id in
              let warning := outdated_warning id (workflow_protocol_version definition) bundled (is_automation context) in
              let? c := map_err cli_error_of_runtime (compile_workflow definition catalogue) in
              let? supplied := parse_workflow_input_flags c args i in
              Ok (Execute c (seed_namespace_input supplied c (f_namespace flags)) bundled warning)
          end
      end.

(** What a run starts with: its options, the inputs with the namespace of the profile or the
    environment, and the warning, before the run or after the screen is restored. *)
Record RunStart : Type := mk_start { rs_options : RunOptions; rs_supplied : gmap string value; rs_warning : option string; deferred_warning : option string }.

(** [execute_compiled_workflow] up to the construction of the surfaces. *)
Definition start_workflow (flags : GlobalFlags) (context : FrontendContext) (resolved_namespace : option string)
    (c : CompiledWorkflow) (pre_supplied : gmap string value) (bundled : bool) (warning : option string) : RunStart :=
  let backend := surface_backend (finalize_surface context RouteWorkflow ShapeMulti) in
  let no_input := negb (allows_input context) in
  let is_fullscreen := match backend with FullscreenTerminalUi => true | _ => false end in
  mk_start
    (mk_options_ (is_dry_run flags) (is_auto_confirmed flags) no_input (review_steps_for backend (is_auto_confirmed flags) no_input)
       (pickers_available_for backend) (protocol_output_format context) (f_output flags) (f_verbosity flags) (pagination_hint flags) None bundled)
    (seed_namespace_input pre_supplied c resolved_namespace)
    (if is_fullscreen then None else warning) (if is_fullscreen then warning else None).

(** * What the registry holds *)

Definition builtins : WorkflowRegistry := register_builtins bundled_yaml ∅.

(** The files of the directory in the order of the system. *)
Definition listed (dir : WorkflowsDir) : list (string * WorkflowFile) := match dir with Files files => read_dir files | _ => [] end.

(** The first workflow of a listing with an id. *)
Definition first_with (id : string) (l : list (string * WorkflowFile)) : option WorkflowDefinition :=
  List.find (fun d => String.eqb (wd_id d) id) (omap file_workflow l).

(** A file of the directory holds a workflow under an id. *)
Definition holds (dir : WorkflowsDir) (name : string) (d : WorkflowDefinition) : Prop :=
  exists f, files_of dir !! name = Some f /\ file_workflow (name, f) = Some d.

Lemma registered_all_bundled l (r : WorkflowRegistry) : map_Forall (fun _ w => w.2 = Bundled) r -> map_Forall (fun _ w => w.2 = Bundled) (foldl register r l).
Proof. revert r. induction l as [|d l IH]; [done|]. intros r Hr. apply IH. by apply map_Forall_insert_2. Qed.

Lemma builtins_bundled : map_Forall (fun _ w => w.2 = Bundled) builtins.
Proof.
  unfold builtins, register_builtins. apply (registered_all_bundled bundled_yaml).
  generalize builtin_workflows. intros l. apply (registered_all_bundled l), map_Forall_empty.
Qed.

(** What is registered wins over what a file holds. *)
Definition first_registered (r : option (WorkflowDefinition * WorkflowOrigin)) (found : option WorkflowDefinition)
  : option (WorkflowDefinition * WorkflowOrigin) :=
  match r with Some w => Some w | None => (fun d => (d, External)) <$> found end.

Lemma register_external_eq (r : WorkflowRegistry) d : register_external r d !! wd_id d = Some (d, External).
Proof. apply (lookup_insert_eq (M := gmap string)). Qed.

Lemma register_external_ne (r : WorkflowRegistry) d id : wd_id d <> id -> register_external r d !! id = r !! id.
Proof. apply (lookup_insert_ne (M := gmap string)). Qed.

Lemma load_lookup (l : list (string * WorkflowFile)) (r : WorkflowRegistry) (id : string) :
  foldl load_entry r l !! id = first_registered (r !! id) (first_with id l).
Proof.
  revert r. induction l as [|e l IH]; intros r.
  { unfold first_with, first_registered. simpl. by destruct (r !! id). }
  change (foldl load_entry r (e :: l)) with (foldl load_entry (load_entry r e) l). rewrite IH.
  unfold load_entry, first_with. simpl omap. destruct (file_workflow e) as [d|]; [|done]. simpl List.find.
  unfold resolve_workflow. destruct (decide (wd_id d = id)) as [<-|Hne].
  - rewrite String.eqb_refl. destruct (r !! wd_id d) eqn:E; simpl fmap; cbv iota; [by rewrite E|by rewrite register_external_eq].
  - rewrite (proj2 (String.eqb_neq _ _) Hne). destruct (r !! wd_id d); simpl fmap; cbv iota; [done|]. by rewrite register_external_ne.
Qed.

Lemma registry_lookup dir id :
  registry dir !! id = first_registered (builtins !! id) (first_with id (listed dir)).
Proof.
  unfold registry, load_external_workflows, listed. fold builtins.
  destruct dir; [| |by rewrite load_lookup]; unfold first_with; simpl; by destruct (builtins !! id).
Qed.

Lemma ids_registered r id : id ∈ ids r <-> is_Some (r !! id).
Proof.
  unfold ids, registered. rewrite list_elem_of_fmap. setoid_rewrite (sort_by_perm id_le (map_to_list r)).
  split.
  - intros ([k w] & -> & Hin). apply elem_of_map_to_list in Hin. by exists w.
  - intros [w Hw]. exists (id, w). split; [done|]. by apply elem_of_map_to_list.
Qed.

(** ** Listings hold the files of the directory, in any order *)

Hypothesis read_dir_lists : forall files, read_dir files ≡ₚ map_to_list files.

Lemma elem_of_listed dir name f : (name, f) ∈ listed dir <-> files_of dir !! name = Some f.
Proof.
  unfold listed, files_of. destruct dir as [e| |files].
  - rewrite lookup_empty. split; [by intros ?%elem_of_nil|done].
  - rewrite lookup_empty. split; [by intros ?%elem_of_nil|done].
  - rewrite read_dir_lists. apply elem_of_map_to_list.
Qed.

Lemma first_with_holds dir id d : first_with id (listed dir) = Some d -> wd_id d = id /\ exists name, holds dir name d.
Proof.
  unfold first_with. intros H'. apply List.find_some in H' as [Hin He]. apply String.eqb_eq in He. split; [done|].
  apply list_elem_of_In, list_elem_of_omap in Hin as ([name f] & Hin & Hd). exists name, f. by rewrite elem_of_listed in Hin.
Qed.

Lemma holds_first_with dir name d : holds dir name d -> is_Some (first_with (wd_id d) (listed dir)).
Proof.
  intros (f & Hf & Hd). destruct (first_with (wd_id d) (listed dir)) as [x|] eqn:E; [done|]. exfalso.
  unfold first_with in E. apply (List.find_none _ _) with (x := d) in E; [by rewrite String.eqb_refl in E|].
  apply list_elem_of_In, list_elem_of_omap. exists (name, f). by rewrite elem_of_listed.
Qed.

(** An id is registered when a workflow is built in under it or a file holds one. *)
Lemma registered_iff dir id : is_Some (registry dir !! id) <-> is_Some (builtins !! id) \/ exists name d, holds dir name d /\ wd_id d = id.
Proof.
  rewrite registry_lookup. destruct (builtins !! id) as [w|] eqn:E; [split; [by left|done]|].
  split.
  - intros [x Hx]. apply fmap_Some in Hx as (d & Hd & ->). apply first_with_holds in Hd as [Hid [name Hh]]. right. by exists name, d.
  - intros [[x Hx]|(name & d & Hh & <-)]; [done|]. apply holds_first_with in Hh as [x ->]. done.
Qed.

Lemma only_holder dir id name d : builtins !! id = None -> holds dir name d -> wd_id d = id ->
  (forall name' d', holds dir name' d' -> wd_id d' = id -> d' = d) -> registry dir !! id = Some (d, External).
Proof.
  intros Hb Hh <- Hu. rewrite registry_lookup, Hb. destruct (holds_first_with _ _ _ Hh) as [x Hx]. rewrite Hx. simpl.
  apply first_with_holds in Hx as [Hid [name' Hh']]. by rewrite (Hu _ _ Hh' Hid).
Qed.

(** ** Ids and file names *)

Lemma eq_ignore_refl id : eq_ignore_ascii_case id id = true.
Proof. apply String.eqb_refl. Qed.

Lemma all_chars_app p a b : all_chars p (a +:+ b) = all_chars p a && all_chars p b.
Proof. induction a as [|c a IH]; [done|]. simpl. by rewrite IH, andb_assoc. Qed.

Lemma split_whole c s : all_chars (fun d => negb (Ascii.eqb d c)) s = true -> split_char c s = [s].
Proof.
  induction s as [|d s IH]; [done|]. simpl. intros [Hd Hs]%andb_prop. apply negb_true_iff in Hd. by rewrite Hd, (IH Hs).
Qed.

Lemma all_chars_weaken p q s : (forall c, p c = true -> q c = true) -> all_chars p s = true -> all_chars q s = true.
Proof. intros Hpq. induction s as [|c s IH]; [done|]. simpl. intros [Hc Hs]%andb_prop. by rewrite (Hpq c Hc), (IH Hs). Qed.

Lemma id_char_no_slash c : id_char c = true -> Ascii.eqb c "/" = false.
Proof. intros Hc. destruct (Ascii.eqb_spec c "/") as [->|]; [by vm_compute in Hc|done]. Qed.

Lemma validated_id id : validate_workflow_id id = Ok tt -> id <> EmptyString /\ all_chars id_char id = true.
Proof.
  unfold validate_workflow_id. destruct (is_empty id) eqn:E; simpl; [done|]. destruct (all_chars id_char id); [|done].
  split; [|done]. by intros ->.
Qed.

(** The file of a validated id is right inside the directory. *)
Lemma validated_right_inside id : validate_workflow_id id = Ok tt -> right_inside (target_name id) = true.
Proof.
  intros [Hne Hall]%validated_id. unfold right_inside, target_name.
  assert (Hs : all_chars id_char (id +:+ ".yaml") = true) by (by rewrite all_chars_app, Hall).
  rewrite (split_whole "/"); [|by apply (all_chars_weaken id_char); [intros c Hc; by rewrite id_char_no_slash|]].
  destruct id as [|c r]; [done|]. change (String c r +:+ ".yaml") with (String c (r +:+ ".yaml")) in *.
  assert (Hstart : starts_with "/" (String c (r +:+ ".yaml")) = false).
  { simpl in Hs. apply andb_prop in Hs as [Hc _]. apply id_char_no_slash in Hc. unfold starts_with. by rewrite Ascii.eqb_sym, Hc. }
  assert (Hdot : String.eqb (String c (r +:+ ".yaml")) "." = false) by (apply String.eqb_neq; by destruct r).
  rewrite Hstart. unfold List.filter. by rewrite Hdot.
Qed.

Lemma after_last_app c a b x : after_last c b = Some x -> after_last c (a +:+ b) = Some x.
Proof. intros Hb. induction a as [|d a IH]; [done|]. simpl. by rewrite IH. Qed.

Lemma before_last_app c a b x : before_last c b = Some x -> before_last c (a +:+ b) = Some (a +:+ x).
Proof. intros Hb. induction a as [|d a IH]; [done|]. simpl. by rewrite IH. Qed.

Lemma target_is_yaml id : id <> EmptyString -> is_yaml (target_name id) = true.
Proof.
  intros Hne. unfold is_yaml, extension, target_name.
  rewrite (before_last_app "." id ".yaml" "") by done. rewrite (after_last_app "." id ".yaml" "yaml") by done.
  assert (Hdots : String.eqb (id +:+ ".yaml") ".." = false).
  { apply String.eqb_neq. intros Heq%(f_equal String.length). rewrite length_app_str in Heq. simpl in Heq. lia. }
  rewrite Hdots. by destruct id.
Qed.

Lemma new_id r id existing : check_new_id r id = Ok tt -> is_Some (r !! existing) -> eq_ignore_ascii_case existing id = false.
Proof.
  unfold check_new_id. intros Hc Hr. destruct (List.find _ (ids r)) eqn:E; [done|].
  apply (List.find_none _ _ E), list_elem_of_In, ids_registered. done.
Qed.

(** ** Adding a workflow *)

Lemma add_inv catalogue path text outcome dir out dir' : workflow_add catalogue path text false outcome dir = (Ok out, dir') ->
  exists yaml d, text = Ok yaml /\ parse_workflow yaml = Ok d /\ validate_workflow_id (wd_id d) = Ok tt /\
    (exists c, compile_workflow d catalogue = Ok c) /\ check_new_id (registry dir) (wd_id d) = Ok tt /\
    out = mk_add_output (wd_id d) false (Some (target_name (wd_id d))) /\ dir' = Files (<[target_name (wd_id d) := Some yaml]> (files_of dir)).
Proof.
  unfold workflow_add. destruct text as [yaml|]; [|done]. simpl. destruct (parse_workflow yaml) as [d|] eqn:Hp; [|done]. simpl.
  destruct (check_declared_version path d); [|done]. simpl. destruct (validate_workflow_id (wd_id d)) as [[]|] eqn:Hv; [|done]. simpl.
  destruct (compile_workflow d catalogue) as [c|] eqn:Hc; [|done]. simpl. destruct (check_new_id (registry dir) (wd_id d)) as [[]|] eqn:Hn; [|done]. simpl.
  unfold install. rewrite (validated_right_inside _ Hv). simpl.
  intros Hr. assert (Hr' : out = mk_add_output (wd_id d) false (Some (target_name (wd_id d))) /\ dir' = Files (<[target_name (wd_id d) := Some yaml]> (files_of dir))).
  { destruct dir; [done| |]; destruct outcome; (done || (by injection Hr as <- <-)). }
  exists yaml, d. split_and!; [done..|by exists c|done|apply Hr'|apply Hr'].
Qed.

Lemma added_file yaml d dir : parse_workflow yaml = Ok d -> wd_id d <> EmptyString ->
  holds (Files (<[target_name (wd_id d) := Some yaml]> (files_of dir))) (target_name (wd_id d)) d.
Proof.
  intros Hp Hne. exists (Some yaml). split; [by apply lookup_insert_eq|]. unfold file_workflow, load_external_workflow_file.
  cbn [fst snd]. rewrite (target_is_yaml _ Hne). cbn. by rewrite Hp.
Qed.

Lemma other_file name text files name' d' : name' <> name -> holds (Files (<[name := text]> files)) name' d' <-> holds (Files files) name' d'.
Proof. intros Hne. unfold holds. simpl. by rewrite lookup_insert_ne. Qed.

Lemma kept_file name files name' d' : holds (Files (delete name files)) name' d' -> holds (Files files) name' d'.
Proof. intros (f & Hf & Hd). simpl in Hf. apply lookup_delete_Some in Hf as [_ Hf]. by exists f. Qed.

Lemma holds_files dir name d : holds (Files (files_of dir)) name d <-> holds dir name d.
Proof. done. Qed.

Lemma found_alone (p : string * WorkflowFile -> bool) l name f : (name, f) ∈ l -> p (name, f) = true ->
  (forall e, e ∈ l -> p e = true -> e.1 = name) -> fst <$> List.find p l = Some name.
Proof.
  intros Hin Hp Hu. destruct (List.find p l) as [e|] eqn:E.
  - apply List.find_some in E as [He Hpe]. simpl. f_equal. apply Hu; [by apply list_elem_of_In|done].
  - apply list_elem_of_In in Hin. by rewrite (List.find_none _ _ E _ Hin) in Hp.
Qed.

Lemma holds_id_inv id name f : holds_id id (name, f) = true -> exists d, file_workflow (name, f) = Some d /\ eq_ignore_ascii_case (wd_id d) id = true.
Proof. unfold holds_id. destruct (file_workflow (name, f)) as [d|]; [|done]. by exists d. Qed.

(** The file that alone holds an id is the one that is found. *)
Lemma find_only dir id name d : match dir with NoConfigDir _ => False | _ => True end -> holds dir name d -> eq_ignore_ascii_case (wd_id d) id = true ->
  (forall name' d', holds dir name' d' -> eq_ignore_ascii_case (wd_id d') id = true -> name' = name) ->
  find_external_workflow_by_id dir id = Ok (Some name).
Proof.
  intros Hdir (f & Hf & Hd) Hid Hu. destruct dir as [e| |files]; [done|done|]. simpl. f_equal.
  apply (found_alone _ _ name f).
  - by apply (elem_of_listed (Files files)).
  - unfold holds_id. by rewrite Hd.
  - intros [name' f'] He (d' & Hd' & Hid')%holds_id_inv. apply (Hu name' d'); [|done]. exists f'. split; [|done].
    by apply (elem_of_listed (Files files)).
Qed.

(** No file of the directory holds an id like the new one. *)
Lemma new_id_not_held dir id name d : check_new_id (registry dir) id = Ok tt -> holds dir name d -> eq_ignore_ascii_case (wd_id d) id = false.
Proof. intros Hn Hh. apply (new_id _ _ _ Hn). apply registered_iff. right. by exists name, d. Qed.

Lemma unregistered r id : check_new_id r id = Ok tt -> r !! id = None.
Proof.
  intros Hn. destruct (r !! id) eqn:E; [|done]. assert (Hs : is_Some (r !! id)) by (by rewrite E).
  pose proof (new_id _ _ id Hn Hs) as Hx. by rewrite eq_ignore_refl in Hx.
Qed.

Lemma registry_builtin dir id w : builtins !! id = Some w -> registry dir !! id = Some w.
Proof. intros Hb. by rewrite registry_lookup, Hb. Qed.

Lemma bundled_iff dir id w : registry dir !! id = Some w -> w.2 = Bundled <-> builtins !! id = Some w.
Proof.
  rewrite registry_lookup. unfold first_registered. destruct (builtins !! id) as [x|] eqn:E.
  - intros [= ->]. split; [done|]. intros _. exact (builtins_bundled id w E).
  - intros (d & _ & ->)%fmap_Some. by split.
Qed.

Lemma not_built_in dir id : registry dir !! id = None -> builtins !! id = None.
Proof. rewrite registry_lookup. by destruct (builtins !! id). Qed.

(** [C22] After [ags workflow add] the next process runs the workflow under its id, whatever the
    order in which the system lists the directory: the file is named after the id and holds the
    text that was compiled, the id was free, built-in workflows are as before, and an id that
    was registered still is unless its workflow was in the file of that name, which is
    overwritten. [ags workflow remove] of the id then removes exactly this file. *)
Theorem added_workflow_registered catalogue path text outcome dir out dir' :
  workflow_add catalogue path text false outcome dir = (Ok out, dir') ->
  exists yaml d, let target := target_name (wd_id d) in
    text = Ok yaml /\ parse_workflow yaml = Ok d /\ (exists c, compile_workflow d catalogue = Ok c) /\
    add_id out = wd_id d /\ add_path out = Some target /\ files_of dir' = <[target := Some yaml]> (files_of dir) /\
    registry dir !! wd_id d = None /\ registry dir' !! wd_id d = Some (d, External) /\
    (forall id w, registry dir !! id = Some w -> w.2 = Bundled -> registry dir' !! id = Some w) /\
    (forall id, is_Some (registry dir !! id) -> is_Some (registry dir' !! id) \/ exists old, holds dir target old /\ wd_id old = id) /\
    workflow_remove (wd_id d) None dir' = (Ok (mk_remove_output (wd_id d) target false), Files (delete target (files_of dir))).
Proof.
  intros (yaml & d & Ht & Hp & Hv & Hc & Hn & -> & ->)%add_inv. exists yaml, d. set (target := target_name (wd_id d)).
  destruct (validated_id _ Hv) as [Hne _]. pose proof (added_file yaml d dir Hp Hne) as Hnew. fold target in Hnew.
  set (dir' := Files (<[target := Some yaml]> (files_of dir))) in *.
  assert (Holds : forall name' d', holds dir' name' d' -> name' = target /\ d' = d \/ name' <> target /\ holds dir name' d').
  { intros name' d' Hh. destruct (decide (name' = target)) as [->|Hd].
    - left. split; [done|]. destruct Hh as (f & Hf & Hd), Hnew as (f' & Hf' & Hd'). rewrite Hf in Hf'. injection Hf' as <-. congruence.
    - right. split; [done|]. by apply other_file in Hh. }
  pose proof (unregistered _ _ Hn) as Hfree. pose proof (not_built_in _ _ Hfree) as Hb.
  cbv zeta. split_and!; [done..| | | |].
  - apply (only_holder _ _ target); [done..|]. intros name' d' Hh Hid. destruct (Holds _ _ Hh) as [[_ ->]|[_ Hold]]; [done|].
    pose proof (new_id_not_held _ _ _ _ Hn Hold) as Hx. by rewrite Hid, eq_ignore_refl in Hx.
  - intros id w Hr Hw. apply registry_builtin. by apply (bundled_iff dir).
  - intros id [Hbi|(name' & d' & Hh & Hid)]%registered_iff; [left; apply registered_iff; by left|].
    destruct (decide (name' = target)) as [->|Hd]; [right; by exists d'|]. left. apply registered_iff. right. exists name', d'.
    split; [|done]. by apply other_file.
  - assert (Hfind : find_external_workflow_by_id dir' (wd_id d) = Ok (Some target)).
    { apply (find_only _ _ _ d); [done..|apply eq_ignore_refl|]. intros name' d' Hh Hid. destruct (Holds _ _ Hh) as [[-> _]|[_ Hold]]; [done|].
      by rewrite (new_id_not_held _ _ _ _ Hn Hold) in Hid. }
    unfold workflow_remove. rewrite Hfind. cbv zeta. change (files_of dir') with (<[target := Some yaml]> (files_of dir)). rewrite (delete_insert_eq (files_of dir)).
    do 3 f_equal. apply bool_decide_eq_false. unfold resolve_workflow. rewrite fmap_is_Some, registered_iff, Hb.
    intros [[? ?]|(name' & d' & Hh & Hid)]; [done|]. apply kept_file in Hh. pose proof (new_id_not_held _ _ _ _ Hn Hh) as Hx.
    by rewrite Hid, eq_ignore_refl in Hx.
Qed.

(** ** Removing a workflow *)

(** What [ags workflow remove] does, whether or not the registry ever knew the file: it takes one
    file away, one that holds the id whatever its case, or changes nothing; what is built in
    stays, and so does every other id that another file holds. *)
Lemma removed_one id failure dir r dir' : workflow_remove id failure dir = (r, dir') ->
  match r with
  | Err _ => dir' = dir
  | Ok out =>
      dir' = Files (delete (remove_path out) (files_of dir)) /\ remove_id out = id /\
      (exists d, holds dir (remove_path out) d /\ eq_ignore_ascii_case (wd_id d) id = true) /\
      (forall id' w, builtins !! id' = Some w -> registry dir' !! id' = Some w) /\
      (forall name d, holds dir name d -> name <> remove_path out -> is_Some (registry dir' !! wd_id d)) /\
      (builtin_still_registered out = true <-> is_Some (registry dir' !! id))
  end.
Proof.
  unfold workflow_remove. destruct (find_external_workflow_by_id dir id) as [[name|]|e] eqn:Hf.
  - destruct failure as [e|]; [by intros [= <- <-]|]. intros [= <- <-]. simpl remove_path. simpl remove_id. split_and!; [done..| | | |].
    + destruct dir as [e| |files]; [done|done|]. simpl in Hf. injection Hf as Hf. apply fmap_Some in Hf as ([n f] & Hfind & ->).
      apply List.find_some in Hfind as [Hin (d & Hd & Hid)%holds_id_inv]. exists d. split; [|done]. exists f. split; [|done].
      by apply (elem_of_listed (Files files)), list_elem_of_In.
    + intros id' w. apply registry_builtin.
    + intros name' d (f & Hn & Hd) Hne. apply registered_iff. right. exists name', d. split; [|done]. exists f. simpl. by rewrite lookup_delete_ne.
    + simpl. rewrite bool_decide_eq_true. unfold resolve_workflow. by rewrite fmap_is_Some.
  - destruct (existsb _ _); by intros [= <- <-].
  - by intros [= <- <-].
Qed.

(** ** Running a workflow *)

Lemma registered_by_id l (r : WorkflowRegistry) : map_Forall (fun id w => wd_id w.1 = id) r -> map_Forall (fun id w => wd_id w.1 = id) (foldl register r l).
Proof. revert r. induction l as [|d l IH]; [done|]. intros r Hr. apply IH. by apply map_Forall_insert_2. Qed.

Lemma builtins_by_id : map_Forall (fun id w => wd_id w.1 = id) builtins.
Proof.
  unfold builtins, register_builtins. apply (registered_by_id bundled_yaml).
  generalize builtin_workflows. intros l. apply (registered_by_id l), map_Forall_empty.
Qed.

Lemma registry_by_id dir id w : registry dir !! id = Some w -> wd_id w.1 = id.
Proof.
  rewrite registry_lookup. unfold first_registered. destruct (builtins !! id) as [x|] eqn:E.
  - intros [= <-]. exact (builtins_by_id id x E).
  - intros (d & Hd & ->)%fmap_Some. by apply first_with_holds in Hd as [Hid _].
Qed.

Lemma position_first p l i : position p l = Some i -> exists a, l !! i = Some a /\ p a = true /\ Forall (fun b => p b = false) (take i l).
Proof.
  revert i. induction l as [|a l IH]; [done|]. intros i. simpl. destruct (p a) eqn:E.
  - intros [= <-]. by exists a.
  - intros (j & Hj & ->)%fmap_Some. destruct (IH j Hj) as (b & Hb & Hp & Hall). exists b. split_and!; [done..|]. by constructor.
Qed.

Lemma supplied_from matches l m name v : foldl (supply_flag matches) m l !! name = Some v ->
  m !! name = Some v \/ exists spec raw, spec ∈ l /\ in_name spec = name /\ matches !! name = Some raw /\ v = coerce_cli_value parse_f64 raw (in_schema spec).
Proof.
  revert m. induction l as [|spec l IH]; intros m Hv; [by left|]. simpl in Hv.
  destruct (IH _ Hv) as [Hm|(s & raw & Hs & Hx)]; [|right; exists s, raw; split; [by right|done]].
  unfold supply_flag in Hm. destruct (matches !! in_name spec) as [raw|] eqn:E; [|by left].
  apply lookup_insert_Some in Hm as [[<- <-]|[_ Hm]]; [|by left]. right. exists spec, raw. split; [by left|done].
Qed.

Lemma seeded_from m c given name v : seed_namespace_input m c given !! name = Some v ->
  m !! name = Some v \/ name = "namespace" /\ m !! name = None /\ (exists ns, given = Some ns /\ v = Str ns) /\ exists spec, spec ∈ wf_inputs c /\ in_name spec = name.
Proof.
  unfold seed_namespace_input. destruct (existsb _ (wf_inputs c)) eqn:He; [|by left]. destruct (m !! "namespace") eqn:E; [by left|].
  destruct given as [ns|]; [|by left]. intros [[<- <-]|[_ Hm]]%lookup_insert_Some; [|by left]. right. split_and!; [done|done|by exists ns|].
  apply existsb_exists in He as (spec & Hin & Hn). exists spec. split; [by apply list_elem_of_In|]. by apply String.eqb_eq.
Qed.

Lemma seeded_some m c ns spec : spec ∈ wf_inputs c -> in_name spec = "namespace" -> is_Some (seed_namespace_input m c (Some ns) !! "namespace").
Proof.
  intros Hin Hn. unfold seed_namespace_input. replace (existsb _ (wf_inputs c)) with true.
  - destruct (m !! "namespace") eqn:E; [by rewrite E|]. by rewrite lookup_insert_eq.
  - symmetry. apply existsb_exists. exists spec. split; [by apply list_elem_of_In|by rewrite Hn].
Qed.

Lemma compiled_id d catalogue c : compile_workflow d catalogue = Ok c -> wf_id c = wd_id d.
Proof.
  unfold compile_workflow. destruct (validate_definition d); [|done]. cbn. destruct (resolve_input_schemas catalogue d) as [inputs|]; [|done]. cbn.
  destruct (validate_options_sources catalogue d inputs); [|done]. cbn. destruct (validate_file_pickers inputs); [|done]. cbn.
  destruct (validate_nested_paths catalogue d); [|done]. cbn. destruct (validate_leaf_collisions d); [|done]. cbn.
  destruct (result_map _ _); [|done]. by intros [= <-].
Qed.

(** What an input of a run starts with. *)
Definition starts_from (flags : GlobalFlags) (resolved : option string) (matches : gmap string string) (spec : WorkflowInputSpec) (v : value) : Prop :=
  (exists raw, matches !! in_name spec = Some raw /\ v = coerce_cli_value parse_f64 raw (in_schema spec)) \/
  in_name spec = "namespace" /\ exists ns, v = Str ns /\ (f_namespace flags = Some ns \/ f_namespace flags = None /\ resolved = Some ns).

(** [C38] What [ags workflow run] runs is the workflow registered under the first argument that
    is no flag, compiled. It counts as bundled exactly when it is built in: a workflow of the
    directory never does, even under the id of a built-in one. A warning about its version is
    only shown of a workflow of the directory, and not to automation. The run starts with
    values for declared inputs only: those of the flags, and the namespace of the global flag
    or else of the profile and environment. *)
Theorem run_request_sound catalogue dir args flags context c supplied bundled warning resolved :
  route_workflow_run catalogue dir args flags context = Ok (Execute c supplied bundled warning) ->
  exists i id d matches,
    args !! i = Some id /\ starts_with "-" id = false /\ Forall (fun a => starts_with "-" a = true) (take i args) /\ Forall (fun a => asks_help a = false) args /\
    registry dir !! id = Some (d, if bundled then Bundled else External) /\ compile_workflow d catalogue = Ok c /\ wf_id c = id /\
    try_get_matches id (build_registered_workflow_clap c) (without i args) = Ok matches /\
    (bundled = true <-> is_Some (builtins !! id)) /\ (bundled = false -> exists name, holds dir name d) /\
    (is_Some warning -> bundled = false /\ is_automation context = false) /\
    (forall name v, rs_supplied (start_workflow flags context resolved c supplied bundled warning) !! name = Some v ->
       exists spec, spec ∈ wf_inputs c /\ in_name spec = name /\ starts_from flags resolved matches spec v).
Proof.
  unfold route_workflow_run. destruct (is_skeleton flags); [done|]. destruct (existsb asks_help args) eqn:Hhelp.
  { unfold render_workflow_run_help. destruct (_ ← _; _) as [id|]; [|done]. destruct (resolve_workflow (registry dir) id) as [d|]; [|done].
    by destruct (compile_workflow d catalogue). }
  destruct (position _ args) as [i|] eqn:Hpos; [|done]. destruct (position_first _ _ _ Hpos) as (id & Hid & Hnoflag%negb_true_iff & Hflags).
  simpl. rewrite Hid. simpl. unfold is_bundled, origin, resolve_workflow. destruct (registry dir !! id) as [[d o]|] eqn:Hr; [|done]. simpl.
  destruct (compile_workflow d catalogue) as [c'|] eqn:Hc; [|done]. simpl. unfold parse_workflow_input_flags.
  destruct (try_get_matches _ _ _) as [matches|] eqn:Hm; [|done]. simpl. intros [= -> <- <- <-].
  pose proof (compiled_id _ _ _ Hc) as Hcid. pose proof (registry_by_id _ _ _ Hr) as Hkey. simpl in Hkey.
  exists i, id, d, matches. split_and!.
  - done.
  - done.
  - eapply Forall_impl; [exact Hflags|]. intros a Ha. by apply negb_false_iff.
  - apply Forall_forall. intros a Ha. destruct (asks_help a) eqn:E; [|done]. rewrite <- Hhelp. symmetry. apply existsb_exists.
    exists a. split; [by apply list_elem_of_In|done].
  - rewrite Hr. by destruct o.
  - done.
  - congruence.
  - congruence.
  - pose proof (bundled_iff _ _ _ Hr) as Hb. simpl in Hb. rewrite bool_decide_eq_true. split.
    + intros [= ->]. exists (d, Bundled). by apply Hb.
    + intros [w Hw]. pose proof (registry_builtin dir _ _ Hw) as Hr'. rewrite Hr in Hr'. injection Hr' as <-. f_equal. by apply Hb.
  - intros Hf. apply bool_decide_eq_false in Hf. rewrite registry_lookup in Hr. destruct (builtins !! id) as [w|] eqn:E.
    + injection Hr as ->. destruct Hf. f_equal. exact (builtins_bundled _ _ E).
    + apply fmap_Some in Hr as (d' & Hd' & [= <- _]). by apply first_with_holds in Hd' as [_ Hh].
  - unfold outdated_warning. destruct (bool_decide _), (is_automation context); simpl; [by intros []..|done].
  - unfold start_workflow. simpl. intros name v [Hv|(-> & Hn & (ns & -> & ->) & spec & Hin & Hname)]%seeded_from.
    + apply seeded_from in Hv as [Hv|(-> & _ & (ns & Hns & ->) & spec & Hin & Hname)].
      * apply supplied_from in Hv as [Hv|(spec & raw & Hin & Hname & Hraw & ->)]; [by rewrite lookup_empty in Hv|].
        exists spec. split_and!; [done..|]. left. exists raw. by rewrite Hname.
      * exists spec. split_and!; [done..|]. right. split; [done|]. exists ns. split; [done|by left].
    + exists spec. split_and!; [done..|]. right. split; [done|]. exists ns. split; [done|]. right. split; [|done].
      destruct (f_namespace flags) as [x|] eqn:E; [|done]. exfalso. destruct (seeded_some (foldl (supply_flag matches) ∅ (wf_inputs c)) c x spec Hin Hname) as [y Hy]. by rewrite Hy in Hn.
Qed.

End registry.

(** * Examples *)

#[local] Instance registry_json : JsonText := bits_json_text.
#[local] Instance registry_case : UnicodeCase := ascii_case.

(** A workflow that logs docker in, under an id. *)
Definition login_workflow (id : string) : WorkflowDefinition :=
  mk_definition id "Log in" (Some "1.0.0") None None None
    [mk_input "namespace" (Some "Game namespace") (Some (Object [("type", Str "string")])) true None false None None LBody] false
    [mk_step_definition "login" None Local (Some "docker-login") None [] false false false false None
       [mk_binding "registry" (literal (Str "registry.example")) false None; mk_binding "username" (workflow_ref "namespace") false None;
        mk_binding "password" (literal (Str "hunter2")) false None] []] [] None.

(** Files whose text is the id of such a workflow. *)
#[local] Instance id_yaml : WorkflowYaml := fun text => if String.eqb text "" then Err "empty" else Ok (login_workflow text).
#[local] Instance one_version : Semver := {| Version := string; parse_semver s := if String.eqb s "1.0.0" then Some s else None |}.

Definition no_catalogue : Compile.Catalogue := fun name => Err (internal name).

(** A directory with a broken file, a text and a workflow whose file is named after another. *)
Definition sample_dir : WorkflowsDir :=
  Files (list_to_map [("broken.yaml", Some ""); ("notes.txt", Some "notes"); ("docker.YML", Some "docker"); ("login.yaml", Some "shared-login")]).

Definition sample_add (dir : WorkflowsDir) : result WorkflowAddOutput RuntimeError * WorkflowsDir :=
  workflow_add map_to_list id [] no_catalogue "my.yaml" (Ok "login") false Installed dir.

Example sample_registered : ids (registry map_to_list id [] sample_dir) =
  ["competitive-multiplayer"; "docker"; "in-game-store"; "player-overview"; "season-pass"; "shared-login"].
Proof. by vm_compute. Qed.

Definition added_dir : WorkflowsDir := Files (<["login.yaml" := Some "login"]> (files_of sample_dir)).

Lemma added_workflow_registered_witness :
  sample_add sample_dir = (Ok (mk_add_output "login" false (Some "login.yaml")), added_dir) /\
  registry map_to_list id [] added_dir !! "login" = Some (login_workflow "login", External).
Proof.
  assert (Ha : sample_add sample_dir = (Ok (mk_add_output "login" false (Some "login.yaml")), added_dir)) by (vm_compute; reflexivity).
  split; [exact Ha|].
  destruct (added_workflow_registered map_to_list id [] (fun _ => reflexivity _) no_catalogue _ _ _ _ _ _ Ha)
    as (yaml & d & _ & Hp & _ & Hid & _ & _ & _ & Hr & _). simpl in Hid. rewrite <- Hid in Hr. rewrite Hr.
  destruct (String.eqb yaml "") eqn:E; [by unfold parse_workflow, id_yaml in Hp; rewrite E in Hp|].
  unfold parse_workflow, id_yaml in Hp. rewrite E in Hp. injection Hp as <-. simpl in Hid. by rewrite Hid.
Defined.

(** The workflow of a file that happens to have the name of the new one is lost: the id is only
    compared with the ids of the registered workflows, and the file is overwritten. *)
Example other_workflow_overwritten :
  is_Some (registry map_to_list id [] sample_dir !! "shared-login") /\ registry map_to_list id [] (sample_add sample_dir).2 !! "shared-login" = None.
Proof. split; [by eexists; vm_compute|by vm_compute]. Qed.

(** Two files with one id: the removal of the first says that a built-in workflow is left, which
    is the second file. *)
Example second_file_counts_as_built_in :
  let dir := Files (list_to_map [("a.yaml", Some "mine"); ("b.yaml", Some "mine")]) in
  builtins [] !! "mine" = None /\
  exists name, (workflow_remove map_to_list id [] "mine" None dir).1 = Ok (mk_remove_output "mine" name true).
Proof. split; [by vm_compute|]. eexists. by vm_compute. Qed.

(** [clap] for options with a value each. *)
Fixpoint clap_pairs (options : list (string * string * option string)) (args : list string) : result (gmap string string) string :=
  match args with
  | [] => Ok ∅
  | flag :: value :: rest =>
      match List.find (fun o => String.eqb ("--" +:+ o.1.2) flag) options with
      | Some o => let? m := clap_pairs options rest in Ok (<[o.1.1 := value]> m)
      | None => Err ("error: unexpected argument '" +:+ flag +:+ "' found")
      end
  | [flag] => Err ("error: a value is required for '" +:+ flag +:+ "'")
  end.

Definition sample_context : FrontendContext := mk_context HumanConsumer (mk_policy true false false) (mk_terminal true true true false) UiAuto.

Definition sample_run (args : list string) : result RunRequest CliError :=
  route_workflow_run map_to_list id [] (fun _ => clap_pairs) (fun _ => None) no_catalogue sample_dir args default_flags sample_context.

Definition login_request : RunRequest :=
  match compile_workflow (login_workflow "docker") no_catalogue with
  | Ok c => Execute c {["namespace" := Str "studio-game"]} false None
  | Err _ => ShowHelp None
  end.

Lemma run_request_sound_witness : sample_run ["docker"; "--namespace"; "studio-game"] = Ok login_request /\
  exists c name d, login_request = Execute c {["namespace" := Str "studio-game"]} false None /\ holds id sample_dir name d.
Proof.
  assert (Hr : sample_run ["docker"; "--namespace"; "studio-game"] = Ok login_request) by (vm_compute; reflexivity).
  split; [exact Hr|]. destruct (compile_workflow (login_workflow "docker") no_catalogue) as [c|] eqn:E; [|by vm_compute in E].
  assert (Hl : login_request = Execute c {["namespace" := Str "studio-game"]} false None) by (unfold login_request; by rewrite E).
  rewrite Hl in Hr.
  destruct (run_request_sound map_to_list id [] (fun _ => clap_pairs) (fun _ => None) (fun _ => reflexivity _) no_catalogue sample_dir _ default_flags sample_context
    c _ false None None Hr) as (i & wid & d & m & _ & _ & _ & _ & _ & _ & _ & _ & _ & Hfile & _).
  destruct (Hfile eq_refl) as [name Hname]. exists c, name, d. split; [exact Hl|exact Hname].
Defined.

Example unknown_option_refused : sample_run ["docker"; "--region"; "eu"] = Err (usage "Unexpected argument '--region' found").
Proof. by vm_compute. Qed.
